(* ===== verification/_CoqProject ===== *)
-Q . S2P
Prelude.v
KeySet.v
Deps.v
Monad.v
Api.v
Registry.v
EdgeLookup.v
LazyArray.v
EdgeLookupFacts.v
Flags.v
Graph.v
GraphRW.v
Descriptor.v
Adapter.v
NodeUtils.v
TxnOps.v
CompressFacts.v
ExecState.v
Refresh.v
TxnExec.v
Scheduler.v
TxnProcess.v
Plugin.v
Dispatcher.v
Demo.v
DryRun.v
GraphSafe.v
Termination.v
NodeFacts.v
RetryFacts.v
OrderFacts.v
HistoryFacts.v
QueueFacts.v
DispatcherFacts.v
GoStrings.v
NetallocProto.v
GoNet.v
GoNetFacts.v
GoNetText.v
GoNetTextFacts.v
GoTemplate.v
VppInterfaceKeys.v
VppKeyFacts.v
LinuxInterfaceKeys.v
LinuxKeyFacts.v
GoRegexp.v
Models.v
ModelFacts.v
AgentModels.v
Netalloc.v
NetallocFacts.v
TargetFacts.v
GraphInv.v
GraphTargets.v
GraphOps.v
GraphNodes.v
GraphConsistent.v
GraphSpec.v
TxnTotal.v
NetallocDescr.v
NameToIndex.v
VppModels.v
VppBinapi.v
VppL2Proto.v
VppL2.v
VppL2Table.v
VppL2Facts.v
AddrAlloc.v
VppL3Proto.v
VppL3Calls.v
VppL3.v
VppL3Table.v
VppL3Facts.v
VppAclProto.v
VppAclCalls.v
VppAcl.v
VppAclTable.v
VppAclFacts.v
VppAbf.v
VppAbfFacts.v
