(* ===== verification/Prelude.v ===== *)
(** * Ligato VPP agent: the key-value scheduler, the orchestrator and the models

    The agent receives the desired configuration as key-value pairs
    ([plugins/orchestrator]), keeps them per data source and hands changes to the
    scheduler ([plugins/kvscheduler]).  The scheduler keeps a graph of values with
    edges to the values they depend on and to the values derived from them,
    orders, simulates, executes, reverts and retries transactions, and calls the
    descriptors registered for the keys, which configure the southbound plane.
    Keys are built and recognised by the models of [pkg/models], registered in
    [proto/ligato].

    ** What models what

    - Prelude.v: comparisons and sorted lists, binary search as in the package
      sort, strings, machine integers ([i64]: the wrap-around of int64).
    - Monad.v: state and panics.  A result is [Ok], [Panic] or [OutOfFuel];
      [preserves], [ensures], [safe] and [total] are the rules of reasoning.
    - KeySet.v, Deps.v: internal/utils, the three key sets behind one interface
      (class [KeySetImpl]), the dependency test and the topological order.
    - Api.v, Descriptor.v, Registry.v: errors, options of transactions, the
      descriptor record with its optional callbacks, the handler that calls them,
      the registry with its bounded cache.
    - EdgeLookup.v, LazyArray.v, EdgeLookupFacts.v: internal/graph/edge_lookup.go,
      with the capacities of its slices.
    - Flags.v, Graph.v, GraphRW.v, NodeUtils.v: the rest of internal/graph and
      node_utils.go.  Nodes live on a heap, [g_heap], because the code keeps
      pointers to nodes that may be deleted from [g_nodes].
    - TxnOps.v, ExecState.v, Refresh.v, TxnExec.v, Scheduler.v, TxnProcess.v,
      Plugin.v: transactions: txn_record.go, stats.go, refresh.go, txn_exec.go,
      txn_order.go, txn_process.go, txn_queue.go, plugin_scheduler.go, validation.go.
    - Dispatcher.v: the orchestrator, against the interface [KVScheduler].
    - GoStrings.v, GoRegexp.v, GoNet.v: what the code below needs of the packages
      strings, strconv, regexp and net.  GoTemplate.v: text/template, parsed and
      executed on a value, with if, with and pipelines.
    - NetallocProto.v, VppInterfaceKeys.v, LinuxInterfaceKeys.v, Models.v,
      AgentModels.v: the keys derived from VPP and Linux interfaces, pkg/models with
      the functions of name templates, and all registrations of models.
    - Adapter.v: descriptor-adapter/template.go, the code generated for every
      descriptor, over the types of its values and metadata (classes).
    - Netalloc.v: plugins/netalloc, a component on top of the scheduler: its
      descriptor, and the plugin that resolves references in the metadata the
      scheduler keeps.  AddrAlloc.v: netalloc_api.go, what other plugins use of it,
      with laws (class [AllocLaws]) that the plugin satisfies.
    - GoNetText.v, VppModels.v, NameToIndex.v: hardware addresses and texts of IP
      addresses, keys of messages through the registry of models, pkg/idxvpp and
      the lookups of ifplugin/ifaceidx.
    - VppL2Proto.v, VppL2.v: plugins/vpp/l2plugin: its messages and
      keys, the handlers that send requests to VPP (vpp2306) behind the interfaces
      that the descriptors use, and the four descriptors.
    - VppBinapi.v, VppL3Proto.v, VppL3Calls.v, VppL3.v: plugins/vpp/l3plugin in the
      same way: routes, VRF tables and ARP entries, with the index of VRFs.
    - VppAclProto.v, VppAclCalls.v, VppAcl.v: plugins/vpp/aclplugin: access lists,
      their assignments to interfaces, with the index of access lists.  VppAbf.v:
      plugins/vpp/abfplugin: policies that forward by access lists, and the interfaces
      they are attached to.
    - Demo.v: a small instance, for the witnesses; the tables of the VPP plugins end
      with a VPP each.

    Code outside the repository is a parameter: the channel to VPP (class
    [L2Channel], its behaviour in class [L2Laws] of VppL2Table.v; class [L3Channel],
    with [L3Laws], [VrfLaws] and [ArpLaws] of VppL3Table.v; class [AclChannel], with
    [AclLaws] of VppAclTable.v, where the requests that succeed are steps of a
    relation [acl_step] on the access lists of VPP; class [AbfChannel], with [AbfLaws]
    and [abf_step] of VppAbfFacts.v in the same way); ParseIPWithPrefix of cn-infra
    (class [IPWithPrefixLaws]); the protobuf messages with their equality and name,
    metadata and index maps, the clock, the southbound plane (class [Ext] of
    Api.v); by how much append grows a slice (class [Runtime]); the order in which
    Go ranges over a map (classes [MapOrder] and [MetaOrder]) is any permutation of
    the keys; what VPP reports for paths that drop (class [DropIndex]) and for the
    address of paths with DVR (class [DvrAddress]).  Callbacks of descriptors are
    functions on the southbound state.

    ** What is proved

    - Termination.v: executing a transaction ends, through derived and dependent
      values and cycles of them, and through the refresh and the second round of
      values when it is reverted.  The fuel of
      [applyValue] only has to exceed the number of keys that can occur, since the
      keys on a branch of the recursion are distinct (GraphSafe.v has the loops of
      the graph).
    - GraphSpec.v, TxnTotal.v: a best-effort transaction does not panic
      either, whatever the descriptors answer, and leaves the graph consistent.
      The triples of TxnTotal.v pin the nodes that the recursion works on.
    - DryRun.v: a simulation calls no descriptor but to retrieve values, and a dry
      run of a value leaves the graph alone.
    - TargetFacts.v, GraphInv.v, GraphTargets.v, GraphOps.v, GraphNodes.v,
      GraphConsistent.v: every sequence of operations on the graph
      returns and refines a map from keys to target definitions; targets are the
      matching nodes, sources their converse, and [ValidateEdges] is satisfied.
    - EdgeLookupFacts.v: the arrays of the lookup refine two sets; overlays and
      their saving, and when the memory kept for them makes that panic; when
      selectors are independent of the order of operations.
    - CompressFacts.v, OrderFacts.v, HistoryFacts.v, RetryFacts.v, NodeFacts.v:
      net effect of the compression, order of values, history, retries, readiness
      of nodes.
    - QueueFacts.v: transactions are processed in the order in which they were
      queued, none is lost, and blocking ones get their result, as long as the
      rounds of the loop return; what the next round does.
    - DispatcherFacts.v: the store as a function of source and key, and what a push
      stores, sends and refuses; selection by labels.
    - KeySet.v, Deps.v, Registry.v, Api.v, Descriptor.v: correctness of the sets
      against finite sets, of dependencies against the transitive closure, of the
      cache against the descriptors, and the contracts of options and handlers.
    - GoNetFacts.v, NetallocFacts.v, NetallocDescr.v: a network contains the
      addresses that share its first bits; references lead to the allocation they
      were created for; correlation of addresses; the contract of the descriptor,
      and a transaction that fills the index which references are resolved in.
    - GoNetTextFacts.v, VppL2Table.v, VppL2Facts.v: texts of addresses
      are parsed back; which bridge domains are equivalent to what VPP reports of
      them; what an update does to the ARP terminations; which FIB entries are
      read back; keys and dependencies of the L2 plugin meet.
    - VppL3Table.v, VppL3Facts.v: the routes that were configured are read back
      under their own keys, though VPP sees addresses only; which routes, VRF tables
      and ARP entries are equivalent to what VPP reports of them, and what updates of
      VRF tables leave behind.
    - VppAclTable.v, VppAclFacts.v: which access lists are equivalent to what VPP
      reports of them, rule by rule; an update that overwrites another list; the
      lists of interfaces as lists, and keys of assignments that lead to them.
    - VppAbfFacts.v: policies with their attachments are read back, and removed as a
      whole if their interfaces are still known; which policies have targets that
      the graph can tell apart, with an example of what happens to others.
    - VppKeyFacts.v, LinuxKeyFacts.v, ModelFacts.v, AgentModels.v:
      keys are parsed back, by the right parser only, but for some names with
      slashes, and which keys make a parser panic; the registry stays well formed; any order of
      registering the models of the agent succeeds and keys select their model.

    ** Fuel and bounds

    Loops over lists are structural.  [topo_loop] runs as often as there are keys,
    [depends_fuel] and [ready_fuel] exceed the number of nodes, [set_targets_loop]
    consumes one definition per round; each bound is proved to be enough.
    Integers that the code can overflow wrap ([i64], [u64_incr]).

    ** Not modelled

    The descriptors of the VPP and Linux plugins other than those of the L2, ACL and
    ABF plugins, of the network allocation and of routes, VRF tables and ARP entries
    (translations of messages to binary API and netlink calls; they are callbacks
    here); of the ACL plugin DumpInterfacesLists, which nothing uses, and the rules
    in the texts of its errors; names of dynamic messages and the template function for their fields, generated code, gRPC,
    HTTP and metrics endpoints, command-line tools, clients and examples.  Locks
    and goroutines are explicit steps.  Of the modelled files: rendering for logs,
    tracing, typed nil receivers, the capacity of the directory bounds.
    Transactions that revert on failure, the refresh of the graph and the saving of
    copies of it are modelled and shown to end, but that they do not panic is
    proved for the best-effort mode and for the graph of one handle only. *)
From stdpp Require Export base list gmap strings sorting.
From Stdlib Require Export Lia.

Set Default Goal Selector "!".

Declare Scope go_scope.
Delimit Scope go_scope with go.

(** ** Comparison functions that are total orders *)

Class CmpOrd {A : Type} (cmp : A -> A -> comparison) : Prop := {
  cmp_eq : forall a b, cmp a b = Eq <-> a = b;
  cmp_opp : forall a b, cmp b a = CompOpp (cmp a b);
  cmp_trans : forall a b c, cmp a b = Lt -> cmp b c = Lt -> cmp a c = Lt
}.

Definition cmp_ltb {A} (cmp : A -> A -> comparison) (a b : A) : bool :=
  match cmp a b with Lt => true | _ => false end.
Definition cmp_leb {A} (cmp : A -> A -> comparison) (a b : A) : bool :=
  match cmp a b with Gt => false | _ => true end.
Definition cmp_lt {A} (cmp : A -> A -> comparison) (a b : A) : Prop := cmp a b = Lt.
Definition cmp_le {A} (cmp : A -> A -> comparison) (a b : A) : Prop := cmp a b <> Gt.

(** Lexicographic composition of two comparison functions. *)
Definition cmp_lex {A B} (ca : A -> A -> comparison) (cb : B -> B -> comparison)
    (x y : A * B) : comparison :=
  match ca x.1 y.1 with Eq => cb x.2 y.2 | c => c end.

Definition bool_cmp (a b : bool) : comparison :=
  match a, b with
  | false, true => Lt
  | true, false => Gt
  | _, _ => Eq
  end.

#[export] Instance bool_cmp_ord : CmpOrd bool_cmp.
Proof.
  split; [intros [] []|intros [] []|intros [] [] []]; simpl; intuition congruence.
Qed.

#[export] Instance nat_cmp_ord : CmpOrd Nat.compare.
Proof.
  split.
  - apply Nat.compare_eq_iff.
  - intros a b. apply Nat.compare_antisym.
  - intros a b c. rewrite !Nat.compare_lt_iff. lia.
Qed.

#[export] Instance N_cmp_ord : CmpOrd N.compare.
Proof.
  split.
  - apply N.compare_eq_iff.
  - intros a b. apply N.compare_antisym.
  - intros a b c. rewrite !N.compare_lt_iff. lia.
Qed.

(** A comparison through an injective projection. *)
Lemma cmp_proj_ord {A B} (f : A -> B) (c : B -> B -> comparison) :
  CmpOrd c -> (forall x y, f x = f y -> x = y) -> CmpOrd (fun x y => c (f x) (f y)).
Proof.
  intros Hc Hf. split.
  - intros a b. rewrite cmp_eq. split; [apply Hf|congruence].
  - intros a b. apply cmp_opp.
  - intros a b d. apply cmp_trans.
Qed.

#[export] Instance ascii_cmp_ord : CmpOrd Ascii.compare.
Proof.
  apply (cmp_proj_ord Ascii.N_of_ascii N.compare _).
  intros x y H. rewrite <- (Ascii.ascii_N_embedding x), <- (Ascii.ascii_N_embedding y).
  by rewrite H.
Qed.

#[export] Instance string_cmp_ord : CmpOrd String.compare.
Proof.
  split.
  - intros a b. split; [apply String.compare_eq_iff|]. intros ->.
    induction b as [|x b IH]; simpl; [done|].
    by rewrite (proj2 (cmp_eq x x) eq_refl).
  - intros a b. apply String.compare_antisym.
  - induction a as [|x a IH]; intros [|y b] [|z c]; simpl; try congruence.
    destruct (Ascii.compare x y) eqn:E1; try congruence;
      destruct (Ascii.compare y z) eqn:E2; try congruence; intros H1 H2.
    + apply cmp_eq in E1 as ->. rewrite E2. eauto.
    + apply cmp_eq in E1 as ->. by rewrite E2.
    + apply cmp_eq in E2 as <-. by rewrite E1.
    + by rewrite (cmp_trans _ _ _ E1 E2).
Qed.

#[export] Instance cmp_lex_ord {A B} (ca : A -> A -> comparison) (cb : B -> B -> comparison) :
  CmpOrd ca -> CmpOrd cb -> CmpOrd (cmp_lex ca cb).
Proof.
  intros Ha Hb. split.
  - intros [a1 b1] [a2 b2]. unfold cmp_lex; simpl. destruct (ca a1 a2) eqn:E.
    + apply cmp_eq in E as ->. rewrite cmp_eq. split; congruence.
    + split; [done|]. intros [= -> ->]. by rewrite (proj2 (cmp_eq a2 a2) eq_refl) in E.
    + split; [done|]. intros [= -> ->]. by rewrite (proj2 (cmp_eq a2 a2) eq_refl) in E.
  - intros [a1 b1] [a2 b2]. unfold cmp_lex; simpl. rewrite (cmp_opp a1 a2).
    destruct (ca a1 a2); simpl; [apply cmp_opp|done..].
  - intros [a1 b1] [a2 b2] [a3 b3]. unfold cmp_lex; simpl.
    destruct (ca a1 a2) eqn:E1; try congruence;
      destruct (ca a2 a3) eqn:E2; try congruence; intros H1 H2.
    + apply cmp_eq in E1 as ->. rewrite E2. by eapply cmp_trans.
    + apply cmp_eq in E1 as ->. by rewrite E2.
    + apply cmp_eq in E2 as <-. by rewrite E1.
    + by rewrite (cmp_trans _ _ _ E1 E2).
Qed.

Section cmp_facts.
Context {A : Type} (cmp : A -> A -> comparison) `{!CmpOrd cmp}.

Lemma cmp_refl a : cmp a a = Eq.
Proof. by apply cmp_eq. Qed.

Lemma cmp_ltb_lt a b : cmp_ltb cmp a b = true <-> cmp_lt cmp a b.
Proof. unfold cmp_ltb, cmp_lt. destruct (cmp a b); split; congruence. Qed.

Lemma cmp_leb_le a b : cmp_leb cmp a b = true <-> cmp_le cmp a b.
Proof. unfold cmp_leb, cmp_le. destruct (cmp a b); split; congruence. Qed.

Lemma cmp_leb_ltb a b : cmp_leb cmp a b = negb (cmp_ltb cmp b a).
Proof. unfold cmp_leb, cmp_ltb. rewrite (cmp_opp (cmp:=cmp) a b). by destruct (cmp a b). Qed.

Lemma cmp_le_lteq a b : cmp_le cmp a b <-> cmp_lt cmp a b \/ a = b.
Proof.
  unfold cmp_le, cmp_lt. rewrite <- (cmp_eq (cmp:=cmp) a b). destruct (cmp a b); intuition congruence.
Qed.

Lemma cmp_lt_irrefl a : ~ cmp_lt cmp a a.
Proof. unfold cmp_lt. rewrite cmp_refl. congruence. Qed.

#[local] Instance cmp_lt_trans : Transitive (cmp_lt cmp).
Proof. intros a b c. apply cmp_trans. Qed.

Lemma cmp_nlt_le a b : ~ cmp_lt cmp a b <-> cmp_le cmp b a.
Proof. unfold cmp_lt, cmp_le. rewrite (cmp_opp (cmp:=cmp) a b). destruct (cmp a b); simpl; intuition congruence. Qed.

Lemma cmp_nle_lt a b : ~ cmp_le cmp a b <-> cmp_lt cmp b a.
Proof. unfold cmp_lt, cmp_le. rewrite (cmp_opp (cmp:=cmp) a b). destruct (cmp a b); simpl; intuition congruence. Qed.

Lemma cmp_lt_le_trans a b c : cmp_lt cmp a b -> cmp_le cmp b c -> cmp_lt cmp a c.
Proof. rewrite cmp_le_lteq. intros H [H2| ->]; [by etransitivity|done]. Qed.

Lemma cmp_le_lt_trans a b c : cmp_le cmp a b -> cmp_lt cmp b c -> cmp_lt cmp a c.
Proof. rewrite cmp_le_lteq. intros [H| ->] H2; [by etransitivity|done]. Qed.

Lemma cmp_le_trans a b c : cmp_le cmp a b -> cmp_le cmp b c -> cmp_le cmp a c.
Proof.
  intros H1. rewrite !cmp_le_lteq. intros [H2| ->].
  - left. by eapply cmp_le_lt_trans.
  - by apply cmp_le_lteq.
Qed.

Lemma cmp_le_refl a : cmp_le cmp a a.
Proof. unfold cmp_le. rewrite cmp_refl. congruence. Qed.

Lemma cmp_lt_le a b : cmp_lt cmp a b -> cmp_le cmp a b.
Proof. intros H. apply cmp_le_lteq. by left. Qed.

Lemma cmp_le_antisym a b : cmp_le cmp a b -> cmp_le cmp b a -> a = b.
Proof.
  rewrite (cmp_le_lteq a b). intros [H| ->]; [|done].
  intros H2. exfalso. eapply cmp_lt_irrefl. by eapply cmp_lt_le_trans.
Qed.

Lemma cmp_le_total a b : cmp_le cmp a b \/ cmp_le cmp b a.
Proof. unfold cmp_le. rewrite (cmp_opp (cmp:=cmp) a b). destruct (cmp a b); simpl; intuition congruence. Qed.

#[local] Instance cmp_lt_dec : RelDecision (cmp_lt cmp).
Proof. intros a b. unfold cmp_lt. destruct (cmp a b); [right|left|right]; congruence. Defined.
#[local] Instance cmp_le_dec : RelDecision (cmp_le cmp).
Proof. intros a b. unfold cmp_le. destruct (cmp a b); [left|left|right]; congruence. Defined.
End cmp_facts.

(** ** [sort.Search]: the binary search of the Go standard library

    [sort.Search(n, f)] halves the interval [[i, j)] until it is empty.  The
    interval shrinks at every round, so [n] rounds are enough. *)

Fixpoint sort_search_loop (fuel : nat) (f : nat -> bool) (i j : nat) : nat :=
  match fuel with
  | O => i
  | S fuel =>
      if i <? j then
        let h := (i + j) / 2 in
        if f h then sort_search_loop fuel f i h else sort_search_loop fuel f (h + 1) j
      else i
  end.

Definition sort_search (n : nat) (f : nat -> bool) : nat := sort_search_loop n f 0 n.

(** What the result of a binary search satisfies, for any predicate. *)
Definition search_post (n : nat) (f : nat -> bool) (r : nat) : Prop :=
  r <= n /\ (forall k, r = S k -> f k = false) /\ (r < n -> f r = true).

Lemma sort_search_loop_post n f fuel : forall i j,
  i <= j <= n -> j - i <= fuel ->
  (forall k, i = S k -> f k = false) -> (j < n -> f j = true) ->
  search_post n f (sort_search_loop fuel f i j).
Proof.
  induction fuel as [|fuel IH]; intros i j Hij Hf Hi Hj; cbn [sort_search_loop]; cbv zeta.
  - assert (i = j) as -> by lia. split; [lia|]. split; [done|]. intros; apply Hj; lia.
  - destruct (Nat.ltb_spec i j) as [Hlt|Hge].
    + assert (i <= (i + j) / 2 < j) as Hh.
      { split; [apply Nat.div_le_lower_bound; lia|apply Nat.Div0.div_lt_upper_bound; lia]. }
      destruct (f ((i + j) / 2)) eqn:Ef.
      * apply IH; [lia..|done|done].
      * apply IH; [lia..| |done]. intros k Hk. by replace k with ((i + j) / 2) by lia.
    + assert (i = j) as -> by lia. split; [lia|]. split; [done|]. intros; apply Hj; lia.
Qed.

Lemma sort_search_post n f : search_post n f (sort_search n f).
Proof. apply sort_search_loop_post; lia. Qed.

(** Monotone predicates determine the result. *)
Lemma search_post_unique n f r1 r2 :
  (forall a b, a <= b -> b < n -> f a = true -> f b = true) ->
  search_post n f r1 -> search_post n f r2 -> r1 = r2.
Proof.
  intros Hm (H1 & P1 & Q1) (H2 & P2 & Q2).
  destruct (Nat.lt_trichotomy r1 r2) as [Hlt|[->|Hlt]]; [|done|].
  - assert (f (r2 - 1) = false) by (apply P2; lia).
    assert (f (r2 - 1) = true) by (apply (Hm r1); [lia..|apply Q1; lia]). congruence.
  - assert (f (r1 - 1) = false) by (apply P1; lia).
    assert (f (r1 - 1) = true) by (apply (Hm r2); [lia..|apply Q2; lia]). congruence.
Qed.

Lemma sort_search_ext n f g :
  (forall i, i < n -> f i = g i) -> sort_search n f = sort_search n g.
Proof.
  intros Hfg. unfold sort_search.
  assert (forall fuel i j, j <= n ->
    sort_search_loop fuel f i j = sort_search_loop fuel g i j) as H; [|by apply H].
  induction fuel as [|fuel IH]; intros i j Hj; cbn [sort_search_loop]; cbv zeta; [done|].
  destruct (Nat.ltb_spec i j); [|done].
  assert ((i + j) / 2 < j) by (apply Nat.Div0.div_lt_upper_bound; lia).
  rewrite <- Hfg by lia. rewrite !IH by lia. done.
Qed.

(** ** Sorted sequences *)
Section sorted_seq.
Context {A : Type} `{!EqDecision A} (cmp : A -> A -> comparison) `{!CmpOrd cmp}.

Definition ssorted (l : list A) : Prop := StronglySorted (cmp_lt cmp) l.

Definition lower_bound (x : A) (l : list A) (r : nat) : Prop :=
  r <= length l /\ Forall (fun y => cmp_lt cmp y x) (take r l)
  /\ Forall (fun y => cmp_le cmp x y) (drop r l).

Lemma ssorted_lookup_lt l i j a b :
  ssorted l -> i < j -> l !! i = Some a -> l !! j = Some b -> cmp_lt cmp a b.
Proof.
  intros Hs Hij Ha Hb.
  apply (StronglySorted_app_1_elem_of _ (take j l) (drop j l)).
  - by rewrite take_drop.
  - apply list_elem_of_lookup. exists i. by rewrite lookup_take_lt.
  - apply list_elem_of_lookup. exists 0. by rewrite lookup_drop, Nat.add_0_r.
Qed.

Lemma ssorted_NoDup l : ssorted l -> NoDup l.
Proof.
  intros Hs. apply NoDup_alt. intros i j x Hi Hj.
  destruct (Nat.lt_trichotomy i j) as [H|[->|H]]; [|done|].
  - exfalso. eapply (cmp_lt_irrefl cmp), (ssorted_lookup_lt l i j); eauto.
  - exfalso. eapply (cmp_lt_irrefl cmp), (ssorted_lookup_lt l j i); eauto.
Qed.

Lemma ssorted_search_mono l x (d : A) a b :
  ssorted l -> a <= b -> b < length l ->
  cmp_leb cmp x (nth a l d) = true -> cmp_leb cmp x (nth b l d) = true.
Proof.
  rewrite !cmp_leb_le by done. intros Hs Hab Hb Hx.
  destruct (decide (a = b)) as [->|]; [done|].
  eapply (cmp_le_trans cmp); [done|]. apply cmp_lt_le; [done|].
  destruct (lookup_lt_is_Some_2 l a) as [u Hu]; [lia|].
  destruct (lookup_lt_is_Some_2 l b) as [v Hv]; [lia|].
  rewrite !nth_lookup, Hu, Hv; simpl.
  apply (ssorted_lookup_lt l a b); auto; lia.
Qed.

Lemma search_post_lower_bound l x (d : A) r :
  ssorted l ->
  search_post (length l) (fun i => cmp_leb cmp x (nth i l d)) r -> lower_bound x l r.
Proof.
  intros Hs (Hr & Hlo & Hhi). split; [done|]. rewrite !Forall_lookup. split.
  - intros i y. rewrite lookup_take_Some. intros [Hy Hi].
    destruct r as [|r]; [lia|]. specialize (Hlo r eq_refl).
    rewrite cmp_leb_ltb in Hlo by done. apply negb_false_iff, cmp_ltb_lt in Hlo.
    destruct (lookup_lt_is_Some_2 l r) as [z Hz]; [lia|].
    rewrite nth_lookup, Hz in Hlo; simpl in Hlo.
    destruct (decide (i = r)) as [->|]; [by simplify_eq|].
    unfold cmp_lt in *. eapply cmp_trans; [|done].
    apply (ssorted_lookup_lt l i r); auto; lia.
  - intros i y. rewrite lookup_drop. intros Hy.
    assert (r + i < length l) as Hlt by (by eapply lookup_lt_Some).
    specialize (Hhi ltac:(lia)).
    destruct (lookup_lt_is_Some_2 l r) as [z Hz]; [lia|].
    rewrite nth_lookup, Hz in Hhi; simpl in Hhi. apply cmp_leb_le in Hhi.
    destruct i as [|i]; [rewrite Nat.add_0_r in Hy; by simplify_eq|].
    eapply (cmp_le_trans cmp); [done|]. apply cmp_lt_le; [done|].
    eapply (ssorted_lookup_lt l r (r + S i)); eauto; lia.
Qed.

Lemma lower_bound_found x l r :
  ssorted l -> lower_bound x l r -> x ∈ l -> l !! r = Some x.
Proof.
  intros Hs (Hr & Hlo & Hhi) [i Hi]%list_elem_of_lookup.
  rewrite !Forall_lookup in Hlo, Hhi.
  destruct (decide (i < r)) as [Hlt|Hge].
  { exfalso. apply (cmp_lt_irrefl cmp x), (Hlo i). by rewrite lookup_take_lt. }
  destruct (decide (i = r)) as [->|]; [done|].
  destruct (lookup_lt_is_Some_2 l r) as [z Hz].
  { apply lookup_lt_Some in Hi. lia. }
  assert (cmp_le cmp x z) by (apply (Hhi 0); rewrite lookup_drop; by rewrite Nat.add_0_r).
  assert (cmp_lt cmp z x) by (eapply (ssorted_lookup_lt l r i); eauto; lia).
  exfalso. eapply (cmp_lt_irrefl cmp). by eapply (cmp_lt_le_trans cmp).
Qed.

Lemma lower_bound_elem_of x l r :
  ssorted l -> lower_bound x l r -> (x ∈ l <-> l !! r = Some x).
Proof.
  intros. split; [by apply lower_bound_found|]. apply list_elem_of_lookup_2.
Qed.

(** Insertion at the lower bound keeps the sequence sorted. *)
Lemma ssorted_insert x l r :
  ssorted l -> lower_bound x l r -> x ∉ l -> ssorted (take r l ++ x :: drop r l).
Proof.
  intros Hs (Hr & Hlo & Hhi) Hx.
  assert (Forall (fun y => cmp_lt cmp x y) (drop r l)) as Hhi'.
  { rewrite Forall_forall in Hhi |- *. intros y Hy. specialize (Hhi y Hy).
    apply cmp_le_lteq in Hhi as [?| ->]; [done| |done].
    exfalso. apply Hx. rewrite <- (take_drop r l). apply elem_of_app. by right. }
  rewrite <- (take_drop r l) in Hs. apply StronglySorted_app in Hs as (H1 & H2 & H3).
  rewrite Forall_forall in Hlo.
  apply StronglySorted_app_2; [|done|by constructor].
  intros a b Ha Hb. apply elem_of_cons in Hb as [->|Hb]; auto.
Qed.

Lemma ssorted_delete l r : ssorted l -> ssorted (delete r l).
Proof.
  rewrite delete_take_drop. intros Hs.
  destruct (decide (r < length l)) as [Hlt|Hge].
  - destruct (lookup_lt_is_Some_2 l r Hlt) as [z Hz].
    rewrite <- (take_drop_middle l r z Hz) in Hs.
    apply StronglySorted_app in Hs as (H1 & H2 & H3).
    apply StronglySorted_cons in H3 as [H3 H4].
    apply StronglySorted_app_2; [|done|done].
    intros a b Ha Hb. apply H1; [done|]. by apply elem_of_cons; right.
  - rewrite take_ge by lia. rewrite drop_ge by lia. by rewrite app_nil_r.
Qed.

Lemma ssorted_filter (P : A -> Prop) `{!forall x, Decision (P x)} l :
  ssorted l -> ssorted (filter P l).
Proof.
  induction 1 as [|x l Hs IH Hf]; [constructor|]. rewrite filter_cons. case_decide; [|done].
  constructor; [done|]. rewrite Forall_forall in Hf |- *.
  intros y [_ Hy]%list_elem_of_filter. by apply Hf.
Qed.

Lemma ssorted_fmap_filter {B} (f : B -> A) (P : B -> Prop) `{!forall x, Decision (P x)} (l : list B) :
  ssorted (f <$> l) -> ssorted (f <$> filter P l).
Proof.
  induction l as [|x l IH]; simpl; intros Hs; [constructor|].
  apply StronglySorted_cons in Hs as [Hf Hs]. rewrite filter_cons. case_decide; [|by apply IH].
  simpl. constructor; [by apply IH|]. rewrite Forall_forall in Hf |- *.
  intros y (z & -> & [_ Hz]%list_elem_of_filter)%list_elem_of_fmap. apply Hf.
  by apply list_elem_of_fmap_2.
Qed.

Lemma ssorted_unique l1 l2 :
  ssorted l1 -> ssorted l2 -> (forall x, x ∈ l1 <-> x ∈ l2) -> l1 = l2.
Proof.
  intros H1 H2 Hx. apply (StronglySorted_unique_strong (cmp_lt cmp)); [|done|done|].
  - intros a b _ _ Hab Hba. exfalso. eapply (cmp_lt_irrefl cmp a).
    unfold cmp_lt in *. by eapply cmp_trans.
  - apply NoDup_Permutation; auto using ssorted_NoDup.
Qed.
End sorted_seq.

(** ** Go slices as lists

    The capacity that [append] gives to a slice which has become too small is left
    to the runtime; it depends on the size of the elements, the old capacity and
    the length that is needed. *)
Class Runtime := {
  append_cap : N -> N -> N -> N;
  append_cap_enough size cap_ needed : (needed <= append_cap size cap_ needed)%N
}.

(** The capacity of a slice that holds [len] elements after an append. *)
Definition cap_for {RT : Runtime} (size cap_ : N) (len : nat) : N :=
  if (N.of_nat len <=? cap_)%N then cap_ else append_cap size cap_ (N.of_nat len).

(** A runtime that doubles capacities. *)
Definition doubling : Runtime.
Proof. refine {| append_cap := fun _ cap_ needed => N.max needed (2 * cap_) |}. lia. Defined.

(** [copy(l[dst:], l[src:])] within one backing array. *)
Definition go_copy {A} (dst src : nat) (l : list A) : list A :=
  let n := Nat.min (length l - dst) (length l - src) in
  take dst l ++ take n (drop src l) ++ drop (dst + n) l.

Lemma length_go_copy {A} dst src (l : list A) :
  dst <= length l -> length (go_copy dst src l) = length l.
Proof.
  intros H. unfold go_copy. rewrite !length_app, !length_take, !length_drop. lia.
Qed.

Lemma go_copy_lookup {A} dst src (l : list A) i :
  dst <= length l ->
  go_copy dst src l !! i =
    if (dst <=? i) && (i <? dst + Nat.min (length l - dst) (length l - src))
    then l !! (src + (i - dst)) else l !! i.
Proof.
  intros Hd. unfold go_copy. set (n := Nat.min _ _).
  destruct (Nat.leb_spec dst i) as [Hle|Hlt]; simpl.
  - rewrite lookup_app_r by (rewrite length_take; lia).
    rewrite length_take, Nat.min_l by lia.
    assert (length (take n (drop src l)) = n) as Hn.
    { rewrite length_take, length_drop. lia. }
    destruct (Nat.ltb_spec i (dst + n)).
    + rewrite lookup_app_l by lia. rewrite lookup_take_lt by lia. by rewrite lookup_drop.
    + rewrite lookup_app_r by lia. rewrite Hn, lookup_drop. f_equal. lia.
  - rewrite lookup_app_l by (rewrite length_take; lia). by rewrite lookup_take_lt.
Qed.

(** Room for one more cell, shift right, store: an insertion at [idx]. *)
Lemma go_copy_insert {A} (o : list A) (n idx : nat) (x : A) :
  n < length o -> idx <= n ->
  take (S n) (<[idx := x]> (if idx <? n then go_copy (idx + 1) idx o else o))
  = take idx (take n o) ++ x :: drop idx (take n o).
Proof.
  intros Hn Hi. apply list_eq. intros i.
  assert (length (take idx (take n o)) = idx) as Hl.
  { rewrite !length_take. lia. }
  destruct (decide (i <= n)) as [Hin|Hin].
  2: { rewrite lookup_ge_None_2 by (rewrite length_take; lia).
       symmetry. apply lookup_ge_None_2.
       rewrite length_app; simpl. rewrite length_drop, !length_take. lia. }
  rewrite lookup_take_lt by lia.
  assert (length (if idx <? n then go_copy (idx + 1) idx o else o) = length o) as Hlen.
  { destruct (idx <? n) eqn:E; [|done]. apply Nat.ltb_lt in E.
    apply length_go_copy. lia. }
  destruct (Nat.lt_trichotomy i idx) as [H|[->|H]].
  - rewrite list_lookup_insert_ne by lia. rewrite lookup_app_l by lia.
    rewrite !lookup_take_lt by lia. destruct (Nat.ltb_spec idx n); [|done].
    rewrite go_copy_lookup by lia. destruct (Nat.leb_spec (idx + 1) i); [lia|done].
  - rewrite list_lookup_insert_eq by lia. by rewrite list_lookup_middle.
  - rewrite list_lookup_insert_ne by lia. rewrite lookup_app_r by lia. rewrite Hl.
    destruct (Nat.ltb_spec idx n); [|lia].
    rewrite go_copy_lookup by lia. destruct (Nat.leb_spec (idx + 1) i); [|lia].
    destruct (Nat.ltb_spec i (idx + 1 + Nat.min (length o - (idx + 1)) (length o - idx)));
      [|lia]; simpl.
    destruct (i - idx) as [|k] eqn:E; [lia|]; simpl. rewrite lookup_drop.
    rewrite lookup_take_lt by lia. f_equal. lia.
Qed.

(** Shifting left over [idx] removes the element at [idx] (the last cell is stale). *)
Lemma go_copy_delete {A} (l : list A) (n idx : nat) :
  n <= length l -> idx < n ->
  take (n - 1) (if idx <? n - 1 then go_copy idx (idx + 1) l else l)
  = delete idx (take n l).
Proof.
  intros Hn Hi. rewrite delete_take_drop, take_take, Nat.min_l by lia.
  destruct (Nat.ltb_spec idx (n - 1)) as [Hlt|Hge].
  - unfold go_copy. rewrite Nat.min_r by lia.
    rewrite take_app. rewrite length_take, Nat.min_l by lia.
    rewrite take_take, Nat.min_r by lia. f_equal.
    rewrite take_app_le by (rewrite length_take, length_drop; lia).
    rewrite take_take, Nat.min_l by lia.
    rewrite skipn_firstn_comm. replace (idx + 1) with (S idx) by lia. f_equal; lia.
  - assert (idx = n - 1) as -> by lia.
    rewrite (drop_ge (take n l)) by (rewrite length_take; lia). by rewrite app_nil_r.
Qed.

(** [sort.Slice]/[sort.Strings] by a comparison of keys.  Go leaves the order
    of equal elements open; the model keeps the input order. *)
Definition sort_rel {A K} (cmp : K -> K -> comparison) (key : A -> K) (x y : A) : Prop :=
  cmp_leb cmp (key x) (key y) = true.

#[export] Instance sort_rel_dec {A K} (cmp : K -> K -> comparison) (key : A -> K) (x y : A) :
  Decision (sort_rel cmp key x y).
Proof. unfold sort_rel. destruct (cmp_leb cmp (key x) (key y)); [by left|by right]. Defined.

Definition sort_by {A K} (cmp : K -> K -> comparison) (key : A -> K) (l : list A) : list A :=
  merge_sort (sort_rel cmp key) l.

Lemma sort_by_perm {A K} (cmp : K -> K -> comparison) (key : A -> K) l :
  sort_by cmp key l ≡ₚ l.
Proof. apply merge_sort_Permutation. Qed.

Lemma sort_by_sorted {A K} (cmp : K -> K -> comparison) `{!CmpOrd cmp} (key : A -> K) l :
  StronglySorted (fun x y => cmp_le cmp (key x) (key y)) (sort_by cmp key l).
Proof.
  assert (StronglySorted (sort_rel cmp key) (sort_by cmp key l)) as H.
  { apply StronglySorted_merge_sort; unfold sort_rel.
    - intros x y z. rewrite !cmp_leb_le by done. by apply cmp_le_trans.
    - intros x y. rewrite !cmp_leb_le by done. by apply cmp_le_total. }
  revert H. generalize (sort_by cmp key l).
  induction 1 as [|x l' H IH Hf]; constructor; [done|].
  eapply Forall_impl; [done|]. intros y. unfold sort_rel. by rewrite cmp_leb_le.
Qed.

Lemma filter_all {A} (P : A -> Prop) `{!forall x, Decision (P x)} (l : list A) :
  (forall x, x ∈ l -> P x) -> filter P l = l.
Proof.
  induction l as [|x l IH]; intros Hall; [done|].
  rewrite filter_cons_True by (apply Hall; by left).
  f_equal. apply IH. intros y Hy. apply Hall. by right.
Qed.

Lemma Forall_filter {A} (P Q : A -> Prop) `{!forall x, Decision (Q x)} (l : list A) :
  Forall P l -> Forall P (filter Q l).
Proof. rewrite !Forall_forall. intros Hl x [_ Hx]%list_elem_of_filter. by apply Hl. Qed.

(** The longest prefix of elements that satisfy a test. *)
Fixpoint take_while {A} (p : A -> bool) (l : list A) : list A :=
  match l with
  | [] => []
  | x :: l => if p x then x :: take_while p l else []
  end.

(** The double-quote character as a string. *)
Definition dquote : string := String (Ascii.ascii_of_nat 34) "".

(** ** Iteration over Go maps

    The order in which [range] visits a map is unspecified.  The development is
    parameterised by an arbitrary order of the keys. *)
Class MapOrder := {
  map_order : gset string -> list string;
  map_order_perm : forall s, map_order s ≡ₚ elements s
}.

(** One concrete order, used to evaluate the definitions. *)
Definition elements_order : MapOrder :=
  {| map_order := fun s => elements s; map_order_perm := fun s => Permutation_refl _ |}.

Section map_order.
Context `{MO : MapOrder}.

Lemma elem_of_map_order (s : gset string) k : k ∈ map_order s <-> k ∈ s.
Proof. by rewrite map_order_perm, elem_of_elements. Qed.

Lemma NoDup_map_order (s : gset string) : NoDup (map_order s).
Proof. rewrite map_order_perm. apply NoDup_elements. Qed.

Lemma length_map_order (s : gset string) : length (map_order s) = size s.
Proof. by rewrite map_order_perm. Qed.
End map_order.

Lemma search_post_ext n f g r :
  (forall i, i < n -> f i = g i) -> search_post n f r -> search_post n g r.
Proof.
  intros Hfg (Hr & Hlo & Hhi). split; [done|]. split.
  - intros k ->. rewrite <- Hfg by lia. by apply Hlo.
  - intros Hlt. rewrite <- Hfg by lia. by apply Hhi.
Qed.

Lemma nth_take {A} (l : list A) n i (d : A) : i < n -> nth i (take n l) d = nth i l d.
Proof. intros Hi. by rewrite !nth_lookup, lookup_take_lt by done. Qed.

(** Case analysis on the boolean tests of naturals and strings. *)
Ltac go_cases :=
  repeat match goal with
  | |- context [Nat.leb ?a ?b] => destruct (Nat.leb_spec a b)
  | |- context [Nat.ltb ?a ?b] => destruct (Nat.ltb_spec a b)
  | |- context [Nat.eqb ?a ?b] => destruct (Nat.eqb_spec a b)
  | |- context [String.eqb ?a ?b] => destruct (String.eqb_spec a b)
  end.

(** ** Computations that can panic

    [Panic] is a Go run-time panic; [OutOfFuel] marks a recursion whose bound
    was too small, which the termination theorems rule out. *)
Inductive outcome (A : Type) :=
  | Ok (a : A)
  | Panic (msg : string)
  | OutOfFuel.
Arguments Ok {A} a.
Arguments Panic {A} msg.
Arguments OutOfFuel {A}.

#[export] Instance outcome_ret : MRet outcome := fun A a => Ok a.
#[export] Instance outcome_bind : MBind outcome := fun A B f m =>
  match m with Ok a => f a | Panic e => Panic e | OutOfFuel => OutOfFuel end.

Definition from_option_panic {A} (msg : string) (o : option A) : outcome A :=
  match o with Some a => Ok a | None => Panic msg end.

Lemma outcome_bind_Ok {A B} (f : A -> outcome B) m b :
  (m ≫= f) = Ok b <-> exists a, m = Ok a /\ f a = Ok b.
Proof.
  destruct m as [a|e|]; simpl.
  - split; [intros H; by exists a|]. by intros (a' & [= ->] & H).
  - split; [done|]. by intros (? & ? & ?).
  - split; [done|]. by intros (? & ? & ?).
Qed.

Lemma outcome_bind_ret {A B} (f : A -> outcome B) a : (Ok a ≫= f) = f a.
Proof. done. Qed.

(** Keep the elements on which a fallible test answers [true]. *)
Fixpoint outcome_filter {A} (f : A -> outcome bool) (l : list A) : outcome (list A) :=
  match l with
  | [] => Ok []
  | x :: l => b ← f x; l' ← outcome_filter f l; Ok (if (b : bool) then x :: l' else l')
  end.

Lemma outcome_filter_Ok {A} (f : A -> outcome bool) (g : A -> bool) l :
  (forall x, x ∈ l -> f x = Ok (g x)) ->
  outcome_filter f l = Ok (filter (fun x => g x = true) l).
Proof.
  induction l as [|x l IH]; intros H; [done|]. cbn [outcome_filter].
  rewrite (H x) by (by left). simpl. rewrite IH by (intros; apply H; by right). simpl.
  rewrite filter_cons. by destruct (g x).
Qed.

(** ** Finite relations *)

(** In a finite non-empty set where everyone has a successor there is a cycle. *)
Lemma finite_cycle {A} `{Countable A} (E : relation A) (R : gset A) (x0 : A) :
  x0 ∈ R -> (forall x, x ∈ R -> exists y, y ∈ R /\ E x y) ->
  exists x, x ∈ R /\ tc E x x.
Proof.
  intros Hx0 Hsucc.
  assert (forall n p x, x ∈ R -> NoDup p -> (forall y, y ∈ p -> y ∈ R /\ tc E y x) ->
    size R <= length p + n -> exists x, x ∈ R /\ tc E x x) as Hwalk.
  { induction n as [|n IH]; intros p x Hx Hnd Hp Hsz;
      (destruct (decide (x ∈ p)) as [Hin|Hnin]; [exists x; split; [done|by apply Hp]|]).
    - exfalso. assert (length (x :: p) <= size R); [|simpl in *; lia].
      unfold size, set_size; simpl. apply (submseteq_length (x :: p)), NoDup_submseteq.
      + by constructor.
      + intros y [->|Hy]%elem_of_cons; apply elem_of_elements; [done|by apply Hp].
    - destruct (Hsucc x Hx) as (y & Hy & Hxy). apply (IH (x :: p) y); [done|by constructor| |].
      + intros z [->|Hz]%elem_of_cons; [split; [done|by apply tc_once]|].
        destruct (Hp z Hz) as [Hz1 Hz2]. split; [done|]. eapply tc_r; eauto.
      + simpl. lia. }
  apply (Hwalk (size R) [] x0); [done|constructor| |simpl; lia].
  by intros y ?%not_elem_of_nil.
Qed.

Lemma not_Forall_not {A} `{Countable A} (P : A -> Prop) `{!forall x, Decision (P x)} (R : gset A) :
  ~ set_Forall (fun y => ~ P y) R -> exists y, y ∈ R /\ P y.
Proof.
  intros Hn. destruct (decide (set_Exists P R)) as [He|He]; [exact He|].
  exfalso. apply Hn. intros y Hy HP. apply He. by exists y.
Qed.

(** ** Machine integers *)

(** The result of an operation on a Go [int64]. *)
Definition i64 (z : Z) : Z := ((z + 2 ^ 63) mod 2 ^ 64 - 2 ^ 63)%Z.

Lemma i64_id z : (- 2 ^ 63 <= z < 2 ^ 63)%Z -> i64 z = z.
Proof. intros H. unfold i64. rewrite Z.mod_small; lia. Qed.
