(* ===== verification/KeySet.v ===== *)
(** * Key sets

    [plugins/kvscheduler/internal/utils/keyset.go]: the interface [KeySet] and its
    three implementations, a set of at most one key, a set kept in a Go map
    and a set kept in a sorted slice with copy-on-write. *)
From S2P Require Import Prelude.

(** ** Singleton key set: the empty string stands for the empty set. *)
Module Singleton.
Record singletonKeySet := MkSingleton { set0 : string }.

Definition NewSingletonKeySet (key : string) : singletonKeySet := MkSingleton key.

Definition Length (s : singletonKeySet) : nat :=
  if String.eqb (set0 s) "" then 0 else 1.

Definition Iterate (s : singletonKeySet) : list string := take (Length s) [set0 s].

Definition Has (s : singletonKeySet) (key : string) : bool := String.eqb (set0 s) key.

Definition Add (s : singletonKeySet) (key : string) : singletonKeySet * bool :=
  if String.eqb (set0 s) key then (s, false) else (MkSingleton key, true).

Definition Del (s : singletonKeySet) (key : string) : singletonKeySet * bool :=
  if String.eqb (set0 s) key then (MkSingleton "", true) else (s, false).

Definition String_ (s : singletonKeySet) : string := "{" +:+ set0 s +:+ "}".

Definition MarshalJSON (s : singletonKeySet) : string :=
  if String.eqb (set0 s) "" then "[]"
  else "[" +:+ dquote +:+ set0 s +:+ dquote +:+ "]".

Definition CopyOnWrite (s : singletonKeySet) : singletonKeySet := MkSingleton (set0 s).

Definition elems (s : singletonKeySet) : gset string :=
  if String.eqb (set0 s) "" then ∅ else {[set0 s]}.
End Singleton.

(** ** Key set backed by a Go map *)
Module MapSet.
Record mapKeySet := MkMap {
  shallowCopy : bool;
  set : gset string;
  iter : list string;
  iterInSync : bool
}.

Definition Has (s : mapKeySet) (key : string) : bool := bool_decide (key ∈ set s).

Definition Length (s : mapKeySet) : nat := size (set s).

(** The deep copy clears [shallowCopy]; the contents stay the same. *)
Definition deepCopyMap (s : mapKeySet) : gset string := set s.

Definition Add (s : mapKeySet) (key : string) : mapKeySet * bool :=
  if Has s key then (s, false)
  else
    let set' := if shallowCopy s then deepCopyMap s else set s in
    (MkMap false ({[key]} ∪ set')
       (if iterInSync s then iter s ++ [key] else iter s) (iterInSync s), true).

Definition Del (s : mapKeySet) (key : string) : mapKeySet * bool :=
  if Has s key then
    let set' := if shallowCopy s then deepCopyMap s else set s in
    (MkMap false (set' ∖ {[key]}) (iter s) false, true)
  else (s, false).

Definition CopyOnWrite (s : mapKeySet) : mapKeySet := MkMap true (set s) [] false.

Definition NewMapBasedKeySet (keys : list string) : mapKeySet :=
  fold_left (fun s key => (Add s key).1) keys (MkMap false ∅ [] true).

Section iterate.
Context `{MO : MapOrder}.

Definition Iterate (s : mapKeySet) : mapKeySet * list string :=
  if iterInSync s then (s, iter s)
  else let it := map_order (set s) in (MkMap (shallowCopy s) (set s) it true, it).

(** [string(json bool)]: the keys joined by [", "], quoted for JSON. *)
Definition string_ (s : mapKeySet) (json : bool) : string :=
  let quote k := if json then dquote +:+ k +:+ dquote else k in
  let body := String.concat ", " (map quote (map_order (set s))) in
  if json then "[" +:+ body +:+ "]" else "{" +:+ body +:+ "}".

Definition MarshalJSON (s : mapKeySet) : string := string_ s true.
End iterate.

Definition elems (s : mapKeySet) : gset string := set s.

(** The cached iteration slice, when in sync, lists the set once. *)
Definition wf (s : mapKeySet) : Prop := iterInSync s = true -> iter s ≡ₚ elements (set s).
End MapSet.

(** ** Key set backed by a sorted slice *)
Module SliceSet.
Record sliceKeySet := MkSlice {
  shallowCopy : bool;
  set : list string;
  length_ : nat
}.

(** [s.set[i]]; the invariant [wf] keeps every index the code uses in range. *)
Definition at_ (s : sliceKeySet) (i : nat) : string := nth i (set s) "".

(** The linear scan used for at most five keys. *)
Fixpoint scan (key : string) (l : list string) (n : nat) : nat :=
  match n, l with
  | S n, x :: l => if String.leb key x then 0 else S (scan key l n)
  | _, _ => 0
  end.

Definition getKeyIndex (s : sliceKeySet) (key : string) : nat * bool :=
  let idx :=
    if length_ s <=? 5 then scan key (set s) (length_ s)
    else sort_search (length_ s) (fun i => String.leb key (at_ s i)) in
  (idx, (idx <? length_ s) && String.eqb key (at_ s idx)).

Definition Has (s : sliceKeySet) (key : string) : bool := (getKeyIndex s key).2.

Definition Length (s : sliceKeySet) : nat := length_ s.

Definition Iterate (s : sliceKeySet) : list string := take (length_ s) (set s).

Definition deepCopySlice (s : sliceKeySet) : list string :=
  let c := replicate (length_ s) "" in
  take (length_ s) (set s) ++ drop (length (set s)) c.

(** The slice to write to: a shallow copy is deep-copied first. *)
Definition ownSlice (s : sliceKeySet) : list string :=
  if shallowCopy s then deepCopySlice s else set s.

Definition Add (s : sliceKeySet) (key : string) : sliceKeySet * bool :=
  let '(idx, exists_) := getKeyIndex s key in
  if exists_ then (s, false)
  else
    let set1 := ownSlice s in
    let set2 := if length_ s =? length set1 then set1 ++ [""] else set1 in
    let set3 := if idx <? length_ s then go_copy (idx + 1) idx set2 else set2 in
    (MkSlice false (<[idx := key]> set3) (S (length_ s)), true).

Definition Del (s : sliceKeySet) (key : string) : sliceKeySet * bool :=
  let '(idx, exists_) := getKeyIndex s key in
  if exists_ then
    let set1 := ownSlice s in
    let set2 := if idx <? length_ s - 1 then go_copy idx (idx + 1) set1 else set1 in
    (MkSlice false (<[length_ s - 1 := ""]> set2) (length_ s - 1), true)
  else (s, false).

Definition NewSliceBasedKeySet (keys : list string) : sliceKeySet :=
  fold_left (fun s key => (Add s key).1) keys (MkSlice false [] 0).

Definition CopyOnWrite (s : sliceKeySet) : sliceKeySet := MkSlice true (set s) (length_ s).

(** The inner loop of [Subtract]: advance [j] over the keys of [s2] that are
    not above [x], remembering whether [x] was met. *)
Fixpoint subtract_inner (fuel : nat) (x : string) (s2 : sliceKeySet) (j : nat)
    (subtract : bool) : nat * bool :=
  match fuel with
  | O => (j, subtract)
  | S fuel =>
      if j <? length_ s2 then
        if String.ltb (at_ s2 j) x then subtract_inner fuel x s2 (j + 1) subtract
        else if String.eqb x (at_ s2 j) then subtract_inner fuel x s2 (j + 1) true
        else (j, subtract)
      else (j, subtract)
  end.

(** The outer loop of [Subtract]; [fuel] counts the remaining values of [i]. *)
Fixpoint subtract_outer (fuel i j newLen : nat) (s s2 : sliceKeySet) (changed : bool) :
    sliceKeySet * nat * bool :=
  match fuel with
  | O => (s, newLen, changed)
  | S fuel =>
      let '(j', subtract) := subtract_inner (length_ s2) (at_ s i) s2 j false in
      if subtract then
        subtract_outer fuel (i + 1) j' newLen
          (MkSlice false (ownSlice s) (length_ s)) s2 true
      else
        let set' := if newLen =? i then set s else <[newLen := at_ s i]> (set s) in
        subtract_outer fuel (i + 1) j' (newLen + 1)
          (MkSlice (shallowCopy s) set' (length_ s)) s2 changed
  end.

(** [Subtract] when both sets are slice-based. *)
Definition SubtractSlice (s s2 : sliceKeySet) : sliceKeySet * bool :=
  let '(s', newLen, changed) := subtract_outer (length_ s) 0 0 0 s s2 false in
  (MkSlice (shallowCopy s') (set s') newLen, changed).

(** The loop of [Intersect] with the membership test of the other set. *)
Fixpoint intersect_loop (fuel i : nat) (s : sliceKeySet) (has2 : string -> bool)
    (changed : bool) : sliceKeySet * bool :=
  match fuel with
  | O => (s, changed)
  | S fuel =>
      if i <? length_ s then
        if has2 (at_ s i) then intersect_loop fuel (i + 1) s has2 changed
        else intersect_loop fuel i (Del s (at_ s i)).1 has2 true
      else (s, changed)
  end.

Definition IntersectWith (s : sliceKeySet) (has2 : string -> bool) : sliceKeySet * bool :=
  intersect_loop (length_ s) 0 s has2 false.

(** [Equals] when both sets are slice-based: compared index by index. *)
Definition EqualsSlice (s s2 : sliceKeySet) : bool :=
  (length_ s =? length_ s2)
  && forallb (fun i => String.eqb (at_ s i) (at_ s2 i)) (seq 0 (length_ s)).

Definition String_ (s : sliceKeySet) : string :=
  "{" +:+ String.concat ", " (Iterate s) +:+ "}".

Definition elems (s : sliceKeySet) : gset string := list_to_set (Iterate s).

Definition wf (s : sliceKeySet) : Prop :=
  length_ s <= length (set s) /\ ssorted String.compare (Iterate s).
End SliceSet.

(** ** Facts about the sorted slice *)
Module SliceFacts.
Import SliceSet.

#[local] Abbreviation scmp := String.compare.

Lemma scan_post key l n :
  n <= length l -> search_post n (fun i => String.leb key (nth i l "")) (scan key l n).
Proof.
  revert n. induction l as [|x l IH]; intros [|n] Hn; simpl in *;
    try (unfold search_post; split_and!; (lia || done)).
  destruct (String.leb key x) eqn:E.
  - unfold search_post. split_and!; [lia|lia|done].
  - destruct (IH n) as (Hr & Hlo & Hhi); [lia|]. unfold search_post. split_and!; [lia| |].
    + intros k [= <-]. destruct (scan key l n) eqn:Es; [done|]. by apply Hlo.
    + intros Hlt. apply Hhi. lia.
Qed.

Lemma length_Iterate s : wf s -> length (Iterate s) = length_ s.
Proof. intros [H _]. unfold Iterate. rewrite length_take. lia. Qed.

Lemma at_lookup s i : wf s -> i < length_ s -> Iterate s !! i = Some (at_ s i).
Proof.
  intros Hwf Hi. destruct (lookup_lt_is_Some_2 (Iterate s) i) as [z Hz].
  { by rewrite length_Iterate. }
  rewrite Hz. f_equal. symmetry. unfold at_. apply nth_lookup_Some.
  unfold Iterate in Hz. by rewrite lookup_take_lt in Hz.
Qed.

Lemma getKeyIndex_spec s key :
  wf s -> lower_bound scmp key (Iterate s) (getKeyIndex s key).1
          /\ (getKeyIndex s key).2 = bool_decide (key ∈ Iterate s).
Proof.
  intros Hwf. pose proof (length_Iterate s Hwf) as Hlen. destruct Hwf as [Hl Hs].
  assert (lower_bound scmp key (Iterate s) (getKeyIndex s key).1) as Hlb.
  { eapply search_post_lower_bound with (d := ""); [apply _|done|].
    rewrite Hlen. apply search_post_ext with (f := fun i => String.leb key (at_ s i)).
    - intros i Hi. unfold at_, Iterate. by rewrite nth_take.
    - unfold getKeyIndex; simpl. destruct (length_ s <=? 5); [by apply scan_post|].
      apply sort_search_post. }
  split; [done|]. unfold getKeyIndex in *; cbv zeta in *; simpl fst in Hlb; simpl snd.
  revert Hlb. generalize
    (if length_ s <=? 5 then scan key (set s) (length_ s)
     else sort_search (length_ s) (fun i => String.leb key (at_ s i))).
  intros r Hlb. pose proof (lower_bound_elem_of scmp key (Iterate s) r Hs Hlb) as He.
  destruct (Nat.ltb_spec r (length_ s)) as [Hlt|Hge]; simpl.
  - unfold at_. destruct (lookup_lt_is_Some_2 (Iterate s) r) as [z Hz]; [lia|].
    assert (set s !! r = Some z) as Hz'.
    { unfold Iterate in Hz. by rewrite lookup_take_lt in Hz. }
    rewrite nth_lookup, Hz'; simpl. rewrite Hz in He.
    destruct (String.eqb_spec key z) as [->|Hne]; symmetry.
    + apply bool_decide_eq_true. by apply He.
    + apply bool_decide_eq_false. rewrite He. congruence.
  - symmetry. apply bool_decide_eq_false. rewrite He.
    rewrite lookup_ge_None_2; [done|lia].
Qed.

Lemma elem_of_elems s k : k ∈ elems s <-> k ∈ Iterate s.
Proof. unfold elems. by rewrite elem_of_list_to_set. Qed.

Lemma Has_spec s key : wf s -> Has s key = bool_decide (key ∈ elems s).
Proof.
  intros Hwf. unfold Has. rewrite (proj2 (getKeyIndex_spec s key Hwf)).
  apply bool_decide_ext. by rewrite elem_of_elems.
Qed.

Lemma deepCopySlice_wf s : wf s -> deepCopySlice s = Iterate s.
Proof.
  intros [Hl _]. unfold deepCopySlice, Iterate.
  rewrite drop_ge by (rewrite length_replicate; lia). apply app_nil_r.
Qed.

Lemma ownSlice_wf s :
  wf s -> length_ s <= length (ownSlice s) /\ take (length_ s) (ownSlice s) = Iterate s.
Proof.
  intros Hwf. unfold ownSlice. destruct (SliceSet.shallowCopy s).
  - rewrite deepCopySlice_wf by done. rewrite length_Iterate by done. split; [done|].
    unfold Iterate. by rewrite take_take, Nat.min_id.
  - split; [apply Hwf|done].
Qed.

(** [Add]: nothing happens to a set that has the key; otherwise the key is
    inserted at its place in the order. *)
Lemma Add_Iterate s key :
  wf s ->
  Iterate (Add s key).1 =
    (if bool_decide (key ∈ Iterate s) then Iterate s
     else take (getKeyIndex s key).1 (Iterate s) ++ key :: drop (getKeyIndex s key).1 (Iterate s))
  /\ length_ (Add s key).1 <= length (set (Add s key).1)
  /\ (Add s key).2 = negb (bool_decide (key ∈ Iterate s)).
Proof.
  intros Hwf. pose proof (getKeyIndex_spec s key Hwf) as [Hlb Hex].
  pose proof (length_Iterate s Hwf) as Hlen.
  pose proof (ownSlice_wf s Hwf) as [Hown Htk]. destruct Hlb as [Hr _].
  unfold Add. destruct (getKeyIndex s key) as [idx ex]; simpl in *. subst ex.
  destruct (bool_decide (key ∈ Iterate s)) eqn:Ed; simpl.
  { split_and!; [done|apply Hwf|done]. }
  set (o := if length_ s =? length (ownSlice s) then ownSlice s ++ [""] else ownSlice s).
  assert (length_ s < length o /\ take (length_ s) o = Iterate s) as [Ho Hto].
  { unfold o. destruct (Nat.eqb_spec (length_ s) (length (ownSlice s))) as [He|He].
    - rewrite length_app; simpl. split; [lia|]. rewrite take_app_le by lia. done.
    - split; [lia|done]. }
  unfold Iterate at 1; cbn [set length_].
  rewrite go_copy_insert by lia. rewrite Hto. split_and!; [done| |done].
  rewrite length_insert. destruct (idx <? length_ s) eqn:E; [|lia].
  apply Nat.ltb_lt in E. rewrite length_go_copy; lia.
Qed.

Lemma wf_intro s l : length_ s <= length (set s) -> Iterate s = l -> ssorted scmp l -> wf s.
Proof. intros H <- Hs. by split. Qed.

Lemma Add_spec s key :
  wf s -> wf (Add s key).1 /\ elems (Add s key).1 = {[key]} ∪ elems s
          /\ (Add s key).2 = negb (Has s key).
Proof.
  intros Hwf. destruct (Add_Iterate s key Hwf) as (HI & Hl & Hc).
  assert (Has s key = bool_decide (key ∈ Iterate s)) as HH
    by apply (getKeyIndex_spec s key Hwf).
  rewrite HH. split_and!; [| |done].
  - eapply wf_intro; [done..|]. case_bool_decide; [apply Hwf|].
    eapply ssorted_insert; [apply _|apply Hwf|by apply getKeyIndex_spec|done].
  - unfold elems. rewrite HI. case_bool_decide as Hd.
    + apply set_eq. intros x. set_solver.
    + rewrite list_to_set_app_L; simpl. rewrite <- (take_drop (getKeyIndex s key).1 (Iterate s)) at 3.
      rewrite list_to_set_app_L. set_solver.
Qed.

Lemma Del_Iterate s key :
  wf s ->
  wf (Del s key).1 /\ Iterate (Del s key).1 = filter (fun x => x <> key) (Iterate s)
  /\ (Del s key).2 = Has s key.
Proof.
  intros Hwf. pose proof (getKeyIndex_spec s key Hwf) as [Hlb Hex].
  pose proof (length_Iterate s Hwf) as Hlen.
  pose proof (ownSlice_wf s Hwf) as [Hown Htk]. unfold Del, Has.
  destruct (getKeyIndex s key) as [idx ex]; simpl in *. subst ex.
  case_bool_decide as Hd; simpl.
  - pose proof (lower_bound_found scmp key _ _ (proj2 Hwf) Hlb Hd) as Hidx.
    assert (idx < length_ s) as Hlt by (rewrite <- Hlen; by eapply lookup_lt_Some).
    match goal with |- wf ?x /\ _ => set (s' := x) end.
    assert (length_ s' <= length (set s') /\ Iterate s' = delete idx (Iterate s)) as [H1 H2].
    { unfold s', Iterate; simpl. rewrite length_insert. split.
      - destruct (idx <? length_ s - 1) eqn:E; [|lia].
        apply Nat.ltb_lt in E. rewrite length_go_copy; lia.
      - rewrite take_insert_ge by lia.
        rewrite go_copy_delete by lia. by rewrite Htk. }
    split_and!; [|rewrite H2|done].
    + eapply wf_intro; [done..|]. apply ssorted_delete; apply Hwf || apply _.
    + assert (NoDup (Iterate s)) as Hnd by (eapply ssorted_NoDup; [apply _|apply Hwf]).
      rewrite delete_take_drop.
      rewrite <- (take_drop_middle _ _ _ Hidx) at 3. rewrite <- (take_drop_middle _ _ _ Hidx) in Hnd.
      apply NoDup_app in Hnd as (_ & N1 & [N2 _]%NoDup_cons).
      rewrite filter_app, filter_cons_False by (intros []; done).
      rewrite !filter_all; [done|..]; intros x Hx ->; [done|].
      apply (N1 key); [done|]. by left.
  - split_and!; [done| |done]. symmetry. apply filter_all. by intros x Hx ->.
Qed.

Lemma Del_spec s key :
  wf s -> wf (Del s key).1 /\ elems (Del s key).1 = elems s ∖ {[key]}
          /\ (Del s key).2 = Has s key.
Proof.
  intros Hwf. destruct (Del_Iterate s key Hwf) as (H1 & H2 & H3). split_and!; [done| |done].
  unfold elems. rewrite H2. apply set_eq. intros x.
  rewrite elem_of_difference, !elem_of_list_to_set, list_elem_of_filter, elem_of_singleton.
  naive_solver.
Qed.

Lemma NewSliceBasedKeySet_spec keys :
  wf (NewSliceBasedKeySet keys) /\ elems (NewSliceBasedKeySet keys) = list_to_set keys.
Proof.
  unfold NewSliceBasedKeySet.
  assert (forall l s, wf s ->
    wf (fold_left (fun s key => (Add s key).1) l s)
    /\ elems (fold_left (fun s key => (Add s key).1) l s) = elems s ∪ list_to_set l) as H.
  { induction l as [|k l IH]; intros s Hs; simpl; [split; [done|set_solver]|].
    destruct (Add_spec s k Hs) as (H1 & H2 & _).
    destruct (IH _ H1) as [H3 H4]. split; [done|]. rewrite H4, H2. set_solver. }
  destruct (H keys (MkSlice false [] 0)) as [H1 H2].
  - split; simpl; [lia|]. constructor.
  - split; [done|]. rewrite H2. unfold elems, Iterate; simpl. set_solver.
Qed.

(** [Subtract], slice-based operands: the inner loop stops at the lower bound
    and tells whether the key was met. *)
Lemma subtract_inner_spec s2 x : wf s2 ->
  forall fuel j b,
    length_ s2 - j <= fuel -> j <= length_ s2 ->
    Forall (fun y => cmp_le scmp y x) (take j (Iterate s2)) ->
    (b = true <-> x ∈ take j (Iterate s2)) ->
    let r := subtract_inner fuel x s2 j b in
    r.1 <= length_ s2 /\ Forall (fun y => cmp_le scmp y x) (take r.1 (Iterate s2))
    /\ (r.2 = true <-> x ∈ Iterate s2).
Proof.
  intros Hwf. pose proof (length_Iterate s2 Hwf) as Hlen.
  induction fuel as [|fuel IH]; intros j b Hf Hj Hle Hb; cbn [subtract_inner].
  { simpl. split_and!; [done..|]. rewrite Hb. rewrite take_ge by lia. done. }
  destruct (Nat.ltb_spec j (length_ s2)) as [Hlt|Hge].
  2: { simpl. split_and!; [done..|]. rewrite Hb. by rewrite take_ge by lia. }
  pose proof (at_lookup s2 j Hwf Hlt) as Hy. set (y := at_ s2 j) in *.
  assert (take (j + 1) (Iterate s2) = take j (Iterate s2) ++ [y]) as Ht.
  { replace (j + 1) with (S j) by lia. by apply take_S_r. }
  change (String.ltb y x) with (cmp_ltb scmp y x).
  destruct (cmp_ltb scmp y x) eqn:E1.
  { apply (cmp_ltb_lt scmp) in E1. apply IH; [lia|lia| |]; rewrite Ht.
    - apply Forall_app. split; [done|]. constructor; [|done]. by apply (cmp_lt_le scmp).
    - rewrite elem_of_app, list_elem_of_singleton, Hb. split; [by left|].
      intros [?| ->]; [done|]. by apply (cmp_lt_irrefl scmp) in E1. }
  destruct (String.eqb_spec x y) as [->|Hne].
  { apply IH; [lia|lia| |]; rewrite Ht.
    - apply Forall_app. split; [done|]. constructor; [|done]. apply (cmp_le_refl scmp).
    - rewrite elem_of_app, list_elem_of_singleton. tauto. }
  simpl. split_and!; [done..|]. rewrite Hb. split; [intros Hx; rewrite <- (take_drop j (Iterate s2)); apply elem_of_app; by left|].
  intros Hx. rewrite <- (take_drop j (Iterate s2)) in Hx.
  apply elem_of_app in Hx as [Hx|Hx]; [done|]. exfalso.
  rewrite (drop_S _ y j) in Hx by done. apply elem_of_cons in Hx as [->|Hx]; [done|].
  assert (cmp_lt scmp y x) as Hyx.
  { apply (StronglySorted_app_1_elem_of _ (take (S j) (Iterate s2)) (drop (S j) (Iterate s2)));
      [rewrite take_drop; apply Hwf| |done].
    rewrite (take_S_r _ _ y) by done. apply elem_of_app. right. by left. }
  apply (cmp_ltb_lt scmp) in Hyx. congruence.
Qed.

(** The loop state of [Subtract] after [i] rounds: the kept keys, stale
    cells, and the part of the original keys that is still to be visited. *)
Record sub_inv (L : list string) (s2 : sliceKeySet) (i j newLen : nat) (s : sliceKeySet)
    (changed : bool) : Prop := {
  si_len : length_ s = length L;
  si_cap : length L <= length (set s);
  si_split : exists junk,
    take (length L) (set s)
      = filter (fun k => k ∉ Iterate s2) (take i L) ++ junk ++ drop i L;
  si_new : newLen = length (filter (fun k => k ∉ Iterate s2) (take i L));
  si_j : j <= length_ s2;
  si_below : forall y z, y ∈ take j (Iterate s2) -> z ∈ drop i L -> cmp_lt scmp y z;
  si_changed : changed = true <-> exists k, k ∈ take i L /\ k ∈ Iterate s2
}.

Lemma sub_inv_own L s2 i j newLen s changed :
  sub_inv L s2 i j newLen s changed ->
  sub_inv L s2 i j newLen (MkSlice false (ownSlice s) (length_ s)) changed.
Proof.
  intros [Hl Hc Hs Hn Hj Hb Hch].
  assert (length L <= length (ownSlice s)
          /\ take (length L) (ownSlice s) = take (length L) (set s)) as [H1 H2].
  { unfold ownSlice. destruct (SliceSet.shallowCopy s); [|done].
    unfold deepCopySlice. rewrite Hl, drop_ge by (rewrite length_replicate; lia).
    rewrite app_nil_r, take_take, Nat.min_id, length_take. split; [lia|done]. }
  split; try done; simpl. by rewrite H2.
Qed.

Lemma sub_inv_junk L s2 i j newLen s changed :
  i <= length L -> sub_inv L s2 i j newLen s changed ->
  exists junk, newLen + length junk = i /\
    take (length L) (set s)
    = filter (fun k => k ∉ Iterate s2) (take i L) ++ junk ++ drop i L.
Proof.
  intros Hi [Hl Hc [junk Hs] Hn _ _ _]. exists junk. split; [|done].
  apply (f_equal length) in Hs. rewrite !length_app, length_take, length_drop in Hs. lia.
Qed.

Lemma sub_inv_at L s2 i j newLen s changed x :
  L !! i = Some x -> sub_inv L s2 i j newLen s changed -> at_ s i = x.
Proof.
  intros Hx Hinv. assert (i < length L) as Hi by (by eapply lookup_lt_Some).
  destruct (sub_inv_junk L s2 i j newLen s changed) as (junk & Hj & Hs); [lia|done|].
  pose proof (si_new _ _ _ _ _ _ _ Hinv) as Hn.
  unfold at_. rewrite <- (nth_take _ (length L)) by done. apply nth_lookup_Some.
  rewrite Hs, app_assoc, lookup_app_r by (rewrite length_app; lia).
  rewrite lookup_drop, length_app, <- Hx. f_equal. lia.
Qed.

(** Keeping [x]: it is stored at [newLen], over a stale cell unless it is
    already in its place. *)
Lemma sub_inv_keep L s2 i j j' newLen s changed x :
  L !! i = Some x -> x ∉ Iterate s2 -> sub_inv L s2 i j newLen s changed ->
  j' <= length_ s2 ->
  (forall y z, y ∈ take j' (Iterate s2) -> z ∈ drop (i + 1) L -> cmp_lt scmp y z) ->
  sub_inv L s2 (i + 1) j' (newLen + 1)
    (MkSlice (SliceSet.shallowCopy s)
       (if newLen =? i then set s else <[newLen := x]> (set s)) (length_ s)) changed.
Proof.
  intros Hx Hx2 Hinv Hj' Hb'. assert (i < length L) as Hi by (by eapply lookup_lt_Some).
  destruct (sub_inv_junk L s2 i j newLen s changed ltac:(lia) Hinv) as (junk & Hjk & Hs).
  destruct Hinv as [Hl Hc _ Hn Hj Hb Hch].
  assert (filter (fun k => k ∉ Iterate s2) (take (i + 1) L)
    = filter (fun k => k ∉ Iterate s2) (take i L) ++ [x]) as HF.
  { replace (i + 1) with (S i) by lia. rewrite (take_S_r _ _ x) by done.
    by rewrite filter_app, filter_cons_True. }
  rewrite (drop_S L x i Hx) in Hs.
  split; simpl; [done| | | |done|done|].
  - destruct (newLen =? i); [done|]. by rewrite length_insert.
  - rewrite HF. replace (i + 1) with (S i) by lia.
    destruct (Nat.eqb_spec newLen i) as [->|Hne].
    + exists []. destruct junk; [|simpl in *; lia]. rewrite Hs. by rewrite <- !app_assoc.
    + rewrite take_insert_lt by lia. rewrite Hs. destruct junk as [|c junk]; simpl in *; [lia|].
      exists (junk ++ [x]). rewrite insert_app_r_alt by lia. rewrite Hn, Nat.sub_diag; simpl.
      by rewrite <- !app_assoc.
  - rewrite HF, length_app; simpl. lia.
  - rewrite Hch. replace (i + 1) with (S i) by lia. rewrite (take_S_r _ _ x) by done.
    split; intros (k & Hk & Hk2); exists k; rewrite elem_of_app, list_elem_of_singleton in *;
      naive_solver.
Qed.

Lemma sub_inv_drop L s2 i j j' newLen s changed x :
  L !! i = Some x -> x ∈ Iterate s2 -> sub_inv L s2 i j newLen s changed ->
  j' <= length_ s2 ->
  (forall y z, y ∈ take j' (Iterate s2) -> z ∈ drop (i + 1) L -> cmp_lt scmp y z) ->
  sub_inv L s2 (i + 1) j' newLen (MkSlice false (ownSlice s) (length_ s)) true.
Proof.
  intros Hx Hx2 Hinv%sub_inv_own Hj' Hb'.
  destruct Hinv as [Hl Hc [junk Hs] Hn Hj Hb Hch]; simpl in *.
  assert (filter (fun k => k ∉ Iterate s2) (take (i + 1) L)
    = filter (fun k => k ∉ Iterate s2) (take i L)) as HF.
  { replace (i + 1) with (S i) by lia. rewrite (take_S_r _ _ x) by done.
    rewrite filter_app, filter_cons_False by naive_solver. apply app_nil_r. }
  split; simpl; try done.
  - exists (junk ++ [x]). rewrite HF, Hs, (drop_S L x i Hx).
    replace (i + 1) with (S i) by lia. by rewrite <- !app_assoc.
  - by rewrite HF.
  - split; [|done]. intros _. exists x. split; [|done].
    replace (i + 1) with (S i) by lia. rewrite (take_S_r _ _ x) by done.
    apply elem_of_app. right. by left.
Qed.

Lemma subtract_outer_spec L s2 : wf s2 -> ssorted scmp L ->
  forall fuel i j newLen s changed,
    i + fuel = length L -> sub_inv L s2 i j newLen s changed ->
    let '(s', n', c') := subtract_outer fuel i j newLen s s2 changed in
    exists j', sub_inv L s2 (length L) j' n' s' c'.
Proof.
  intros Hwf2 HL. induction fuel as [|fuel IH]; intros i j newLen s changed Hf Hinv;
    cbn [subtract_outer].
  { exists j. by replace (length L) with i by lia. }
  destruct (lookup_lt_is_Some_2 L i) as [x Hx]; [lia|].
  rewrite (sub_inv_at _ _ _ _ _ _ _ x Hx Hinv).
  pose proof (subtract_inner_spec s2 x Hwf2 (length_ s2) j false) as Hinner.
  destruct (subtract_inner (length_ s2) x s2 j false) as [j' sub]; cbv zeta in Hinner; simpl in Hinner.
  assert (x ∈ drop i L) as Hxd by (rewrite (drop_S L x i Hx); by left).
  destruct Hinner as (Hj' & Hle & Hsub).
  { lia. }
  { apply Hinv. }
  { apply Forall_forall. intros y Hy. apply (cmp_lt_le scmp), (si_below _ _ _ _ _ _ _ Hinv); done. }
  { split; [done|]. intros Hin. exfalso. eapply (cmp_lt_irrefl scmp).
    by apply (si_below _ _ _ _ _ _ _ Hinv). }
  assert (forall y z, y ∈ take j' (Iterate s2) -> z ∈ drop (i + 1) L -> cmp_lt scmp y z) as Hb'.
  { intros y z Hy Hz. rewrite Forall_forall in Hle. eapply (cmp_le_lt_trans scmp); [by apply Hle|].
    replace (i + 1) with (S i) in Hz by lia. rewrite <- (take_drop_middle L i x Hx) in HL.
    apply StronglySorted_app in HL as (_ & _ & [HL _]%StronglySorted_cons).
    rewrite Forall_forall in HL. by apply HL. }
  destruct sub; (eapply IH; [lia|]).
  - eapply sub_inv_drop; naive_solver.
  - eapply sub_inv_keep; try done. rewrite <- Hsub. done.
Qed.

Lemma SubtractSlice_spec s s2 :
  wf s -> wf s2 ->
  wf (SubtractSlice s s2).1
  /\ Iterate (SubtractSlice s s2).1 = filter (fun k => k ∉ Iterate s2) (Iterate s)
  /\ ((SubtractSlice s s2).2 = true <-> exists k, k ∈ Iterate s /\ k ∈ Iterate s2).
Proof.
  intros Hwf Hwf2. pose proof (length_Iterate s Hwf) as Hlen.
  pose proof (subtract_outer_spec (Iterate s) s2 Hwf2 (proj2 Hwf) (length_ s) 0 0 0 s false) as H.
  unfold SubtractSlice. destruct (subtract_outer (length_ s) 0 0 0 s s2 false) as [[s' n'] c'].
  destruct H as (j' & [Hl Hc [junk Hs] Hn _ _ Hch]); [lia| |].
  { split; simpl; [done|rewrite Hlen; apply Hwf| |done|lia| |].
    - exists []. by rewrite Hlen.
    - intros y z Hy. by apply not_elem_of_nil in Hy.
    - split; [done|]. intros (k & Hk & _). by apply not_elem_of_nil in Hk. }
  rewrite firstn_all in Hs, Hn, Hch. rewrite skipn_all, app_nil_r in Hs. simpl.
  assert (n' <= length (Iterate s)) by (rewrite Hn; apply length_filter).
  assert (take n' (set s') = filter (fun k => k ∉ Iterate s2) (Iterate s)) as Ht.
  { rewrite <- (Nat.min_l n' (length (Iterate s))) by done.
    rewrite <- take_take, Hs, Hn. by rewrite take_app_length. }
  split_and!; [|done|done]. eapply wf_intro; [simpl; lia|done|].
  apply ssorted_filter, Hwf.
Qed.

(** [Intersect]: the cells before [i] are in the other set, the rest is untouched. *)
Lemma intersect_loop_spec has2 :
  forall fuel i s b, wf s -> length_ s - i <= fuel -> i <= length_ s ->
    Forall (fun k => has2 k = true) (take i (Iterate s)) ->
    let r := intersect_loop fuel i s has2 b in
    wf r.1 /\ Iterate r.1 = filter (fun k => has2 k = true) (Iterate s)
    /\ (r.2 = true <-> b = true \/ exists k, k ∈ Iterate s /\ has2 k = false).
Proof.
  assert (forall s, Forall (fun k => has2 k = true) (Iterate s) ->
    forall b, (b = true <-> b = true \/ exists k, k ∈ Iterate s /\ has2 k = false)) as Hend.
  { intros s Hall b. split; [by left|]. intros [?|(k & Hk & Hf)]; [done|].
    rewrite Forall_forall in Hall. by rewrite (Hall k Hk) in Hf. }
  induction fuel as [|fuel IH]; intros i s b Hwf Hf Hi Hall; cbn [intersect_loop]; cbv zeta.
  { rewrite take_ge in Hall by (rewrite length_Iterate; [lia|done]). simpl.
    split_and!; [done| |by apply Hend]. symmetry. apply filter_all, Forall_forall, Hall. }
  destruct (Nat.ltb_spec i (length_ s)) as [Hlt|Hge].
  2: { rewrite take_ge in Hall by (rewrite length_Iterate; [lia|done]). simpl.
    split_and!; [done| |by apply Hend]. symmetry. apply filter_all, Forall_forall, Hall. }
  pose proof (at_lookup s i Hwf Hlt) as Hx. set (x := at_ s i) in *.
  destruct (has2 x) eqn:E.
  { apply IH; [done|lia|lia|]. replace (i + 1) with (S i) by lia.
    rewrite (take_S_r _ _ x) by done. apply Forall_app. by split; [|constructor]. }
  destruct (Del_Iterate s x Hwf) as (Hwf' & HI & Hdel).
  assert (Iterate (Del s x).1 = take i (Iterate s) ++ drop (S i) (Iterate s)) as HI2.
  { rewrite HI. rewrite <- (take_drop_middle _ i x Hx) at 1.
    assert (NoDup (Iterate s)) as Hnd by (eapply ssorted_NoDup; [apply _|apply Hwf]).
    rewrite <- (take_drop_middle _ i x Hx) in Hnd. apply NoDup_app in Hnd as (_ & N1 & [N2 _]%NoDup_cons).
    rewrite filter_app, filter_cons_False by (intros []; done).
    rewrite !filter_all; [done|..]; intros y Hy ->; [done|]. apply (N1 x); [done|]. by left. }
  assert (length_ (Del s x).1 = length_ s - 1) as Hlen.
  { rewrite <- (length_Iterate _ Hwf'), HI2, length_app, length_take, length_drop.
    rewrite !length_Iterate by done. lia. }
  destruct (IH i (Del s x).1 true Hwf') as (H1 & H2 & H3).
  { lia. }
  { lia. }
  { rewrite HI2, take_app_le by (rewrite length_take, length_Iterate; [lia|done]).
    by rewrite take_take, Nat.min_id. }
  split_and!; [done| |].
  - rewrite H2, HI, list_filter_filter. apply list_filter_iff. intros y. split; [by intros [??]|].
    intros Hy. split; [done|]. intros ->. congruence.
  - rewrite H3. split; [|by left]. intros _. right. exists x. split; [|done].
    by eapply list_elem_of_lookup_2.
Qed.

Lemma IntersectWith_spec s has2 :
  wf s -> wf (IntersectWith s has2).1
  /\ Iterate (IntersectWith s has2).1 = filter (fun k => has2 k = true) (Iterate s)
  /\ ((IntersectWith s has2).2 = true <-> exists k, k ∈ Iterate s /\ has2 k = false).
Proof.
  intros Hwf. unfold IntersectWith.
  destruct (intersect_loop_spec has2 (length_ s) 0 s false Hwf) as (H1 & H2 & H3); [lia|lia|done|].
  split_and!; [done..|]. rewrite H3. split; [by intros [?|?]|by right].
Qed.

Lemma EqualsSlice_spec s s2 :
  wf s -> wf s2 -> (EqualsSlice s s2 = true <-> elems s = elems s2).
Proof.
  intros Hwf Hwf2. unfold EqualsSlice. rewrite andb_true_iff, Nat.eqb_eq, forallb_forall.
  trans (Iterate s = Iterate s2); [split|split].
  - intros [Hl Hall]. apply list_eq. intros i. destruct (decide (i < length_ s)) as [Hi|Hi].
    + rewrite !at_lookup by (done || lia). f_equal. apply String.eqb_eq, Hall, in_seq. lia.
    + rewrite !lookup_ge_None_2; [done|..]; rewrite length_Iterate by done; lia.
  - intros HI. split; [by rewrite <- !length_Iterate, HI|].
    intros i [_ Hi]%in_seq. apply String.eqb_eq.
    apply (inj Some). rewrite <- !at_lookup, HI; try done.
    rewrite <- (length_Iterate s2), <- HI, length_Iterate; [lia|done..].
  - unfold elems. by intros ->.
  - intros He. apply (ssorted_unique scmp); [apply Hwf|apply Hwf2|].
    intros x. by rewrite <- !elem_of_elems, He.
Qed.

Lemma CopyOnWrite_spec s :
  wf s -> wf (CopyOnWrite s) /\ Iterate (CopyOnWrite s) = Iterate s.
Proof. intros [H1 H2]. done. Qed.
End SliceFacts.

(** ** What every implementation promises

    [ksi_key] says which keys an implementation can store: the singleton set
    reserves the empty string. *)
Class KeySetImpl (S : Type) := {
  ksi_wf : S -> Prop;
  ksi_key : string -> Prop;
  ksi_elems : S -> gset string;
  ksi_has : S -> string -> bool;
  ksi_add : S -> string -> S * bool;
  ksi_del : S -> string -> S * bool;
  ksi_length : S -> nat;
  ksi_iterate : S -> list string;
  ksi_has_spec s k : ksi_wf s -> ksi_key k -> ksi_has s k = bool_decide (k ∈ ksi_elems s);
  ksi_add_spec s k :
    ksi_wf s -> ksi_key k ->
    ksi_wf (ksi_add s k).1 /\ k ∈ ksi_elems (ksi_add s k).1
    /\ ksi_elems (ksi_add s k).1 ⊆ {[k]} ∪ ksi_elems s
    /\ (ksi_add s k).2 = negb (ksi_has s k);
  ksi_del_spec s k :
    ksi_wf s -> ksi_key k ->
    ksi_wf (ksi_del s k).1 /\ ksi_elems (ksi_del s k).1 = ksi_elems s ∖ {[k]}
    /\ (ksi_del s k).2 = ksi_has s k;
  ksi_length_spec s : ksi_wf s -> ksi_length s = size (ksi_elems s);
  ksi_iterate_spec s : ksi_wf s -> ksi_iterate s ≡ₚ elements (ksi_elems s)
}.

(** Implementations that only grow by the added key, and can hold any number. *)
Class KeySetExact (S : Type) `{KeySetImpl S} : Prop :=
  ksi_add_exact s k : ksi_wf s -> ksi_key k -> ksi_elems (ksi_add s k).1 = {[k]} ∪ ksi_elems s.

Lemma slice_iterate_perm s :
  SliceSet.wf s -> SliceSet.Iterate s ≡ₚ elements (SliceSet.elems s).
Proof.
  intros Hwf. apply NoDup_Permutation.
  - eapply ssorted_NoDup; [apply _|apply Hwf].
  - apply NoDup_elements.
  - intros x. by rewrite elem_of_elements, SliceFacts.elem_of_elems.
Qed.

#[local] Obligation Tactic := idtac.

#[export] Program Instance slice_impl : KeySetImpl SliceSet.sliceKeySet := {
  ksi_wf := SliceSet.wf; ksi_key _ := True; ksi_elems := SliceSet.elems;
  ksi_has := SliceSet.Has; ksi_add := SliceSet.Add; ksi_del := SliceSet.Del;
  ksi_length := SliceSet.Length; ksi_iterate := SliceSet.Iterate
}.
Next Obligation. intros. by apply SliceFacts.Has_spec. Qed.
Next Obligation.
  intros s k Hwf _. destruct (SliceFacts.Add_spec s k Hwf) as (H1 & -> & H3).
  split_and!; [done|set_solver|done|done].
Qed.
Next Obligation. intros s k Hwf _. by apply SliceFacts.Del_spec. Qed.
Next Obligation.
  intros s Hwf. unfold size, set_size; simpl. rewrite <- slice_iterate_perm by done.
  by rewrite SliceFacts.length_Iterate.
Qed.
Next Obligation. apply slice_iterate_perm. Qed.

#[export] Instance slice_exact : KeySetExact SliceSet.sliceKeySet.
Proof. intros s k Hwf _. by apply SliceFacts.Add_spec. Qed.

Section map_impl.
Context `{MO : MapOrder}.

#[export] Program Instance map_impl : KeySetImpl MapSet.mapKeySet := {
  ksi_wf := MapSet.wf; ksi_key _ := True; ksi_elems := MapSet.elems;
  ksi_has := MapSet.Has; ksi_add := MapSet.Add; ksi_del := MapSet.Del;
  ksi_length := MapSet.Length; ksi_iterate s := (MapSet.Iterate s).2
}.
Next Obligation. done. Qed.
Next Obligation.
  intros s k Hwf _. unfold MapSet.Add, MapSet.Has, MapSet.elems, MapSet.wf, MapSet.deepCopyMap in *.
  case_bool_decide; simpl; [split_and!; [done|done|set_solver|done]|].
  destruct (MapSet.shallowCopy s); split_and!; try set_solver;
    intros Hi; rewrite Hi, elements_union_singleton, Hwf by done;
    apply Permutation_app_comm.
Qed.
Next Obligation.
  intros s k Hwf _. unfold MapSet.Del, MapSet.Has, MapSet.elems, MapSet.wf, MapSet.deepCopyMap in *.
  case_bool_decide; simpl.
  - split_and!; [done| |done]. by destruct (MapSet.shallowCopy s).
  - split_and!; [done|set_solver|done].
Qed.
Next Obligation. done. Qed.
Next Obligation.
  intros s Hwf. unfold MapSet.Iterate, MapSet.elems.
  destruct (MapSet.iterInSync s) eqn:E; simpl; [by apply Hwf|apply map_order_perm].
Qed.

#[export] Instance map_exact : KeySetExact MapSet.mapKeySet.
Proof.
  intros s k Hwf _; simpl. unfold MapSet.Add, MapSet.Has, MapSet.elems, MapSet.deepCopyMap.
  case_bool_decide; [set_solver|]. by destruct (MapSet.shallowCopy s).
Qed.
End map_impl.
#[export] Existing Instance map_impl.
#[export] Existing Instance map_exact.

#[export] Program Instance singleton_impl : KeySetImpl Singleton.singletonKeySet := {
  ksi_wf _ := True; ksi_key k := k <> ""; ksi_elems := Singleton.elems;
  ksi_has := Singleton.Has; ksi_add := Singleton.Add; ksi_del := Singleton.Del;
  ksi_length := Singleton.Length; ksi_iterate := Singleton.Iterate
}.
Next Obligation.
  intros [x] k _ Hk. unfold Singleton.Has, Singleton.elems; simpl.
  destruct (String.eqb_spec x k), (String.eqb_spec x ""); symmetry;
    (apply bool_decide_eq_true || apply bool_decide_eq_false); set_solver.
Qed.
Next Obligation.
  intros [x] k _ Hk. unfold Singleton.Add, Singleton.Has, Singleton.elems; simpl.
  destruct (String.eqb_spec x k) as [->|Hne]; simpl; rewrite (proj2 (String.eqb_neq k "")) by done;
    split_and!; try done; set_solver.
Qed.
Next Obligation.
  intros [x] k _ Hk. unfold Singleton.Del, Singleton.Has, Singleton.elems; simpl.
  destruct (String.eqb_spec x k) as [->|Hne]; simpl; split_and!; try done.
  - rewrite (proj2 (String.eqb_neq k "")) by done. set_solver.
  - destruct (String.eqb_spec x "") as [->|?]; set_solver.
Qed.
Next Obligation.
  intros s _. unfold Singleton.Length, Singleton.elems.
  destruct (String.eqb (Singleton.set0 s) ""); by rewrite ?size_empty, ?size_singleton.
Qed.
Next Obligation.
  intros s _. unfold Singleton.Iterate, Singleton.Length, Singleton.elems.
  destruct (String.eqb (Singleton.set0 s) ""); by rewrite ?elements_empty, ?elements_singleton.
Qed.

(** ** The interface: dynamic dispatch over the implementations *)
Inductive KeySet :=
  | KSingleton (s : Singleton.singletonKeySet)
  | KMap (s : MapSet.mapKeySet)
  | KSlice (s : SliceSet.sliceKeySet).

Definition NewSingletonKeySet (key : string) : KeySet :=
  KSingleton (Singleton.NewSingletonKeySet key).
Definition NewMapBasedKeySet (keys : list string) : KeySet :=
  KMap (MapSet.NewMapBasedKeySet keys).
Definition NewSliceBasedKeySet (keys : list string) : KeySet :=
  KSlice (SliceSet.NewSliceBasedKeySet keys).

(** Run an implementation's update and wrap the receiver again. *)
Definition wrap {S} (c : S -> KeySet) (r : S * bool) : KeySet * bool := (c r.1, r.2).

Section keyset.
Context `{MO : MapOrder}.

Definition ks_Has (s : KeySet) (key : string) : bool :=
  match s with
  | KSingleton s => Singleton.Has s key
  | KMap s => MapSet.Has s key
  | KSlice s => SliceSet.Has s key
  end.

Definition ks_Length (s : KeySet) : nat :=
  match s with
  | KSingleton s => Singleton.Length s
  | KMap s => MapSet.Length s
  | KSlice s => SliceSet.Length s
  end.

(** The keys [Iterate] returns.  (The map-based set also caches them, which
    does not change the set.) *)
Definition ks_Iterate (s : KeySet) : list string :=
  match s with
  | KSingleton s => Singleton.Iterate s
  | KMap s => (MapSet.Iterate s).2
  | KSlice s => SliceSet.Iterate s
  end.

Definition ks_Add (s : KeySet) (key : string) : KeySet * bool :=
  match s with
  | KSingleton s => wrap KSingleton (Singleton.Add s key)
  | KMap s => wrap KMap (MapSet.Add s key)
  | KSlice s => wrap KSlice (SliceSet.Add s key)
  end.

Definition ks_Del (s : KeySet) (key : string) : KeySet * bool :=
  match s with
  | KSingleton s => wrap KSingleton (Singleton.Del s key)
  | KMap s => wrap KMap (MapSet.Del s key)
  | KSlice s => wrap KSlice (SliceSet.Del s key)
  end.

Definition ks_CopyOnWrite (s : KeySet) : KeySet :=
  match s with
  | KSingleton s => KSingleton (Singleton.CopyOnWrite s)
  | KMap s => KMap (MapSet.CopyOnWrite s)
  | KSlice s => KSlice (SliceSet.CopyOnWrite s)
  end.

Definition singleton_Equals (s : Singleton.singletonKeySet) (set2 : KeySet) : bool :=
  (Singleton.Length s =? ks_Length set2) && forallb (ks_Has set2) (Singleton.Iterate s).

Definition map_Equals (s : MapSet.mapKeySet) (set2 : KeySet) : bool :=
  (MapSet.Length s =? ks_Length set2) && forallb (ks_Has set2) (map_order (MapSet.set s)).

Definition slice_Equals (s : SliceSet.sliceKeySet) (set2 : KeySet) : bool :=
  match set2 with
  | KSlice s2 => SliceSet.EqualsSlice s s2
  | _ => (SliceSet.Length s =? ks_Length set2) && forallb (ks_Has set2) (SliceSet.Iterate s)
  end.

Definition ks_Equals (s set2 : KeySet) : bool :=
  match s with
  | KSingleton s => singleton_Equals s set2
  | KMap s => map_Equals s set2
  | KSlice s => slice_Equals s set2
  end.

(** [for _, key := range keys { if s.Del(key) { changed = true } }] *)
Definition del_each {S} (del : S -> string -> S * bool) (s : S) (keys : list string) : S * bool :=
  fold_left (fun r key => let '(s', c) := del r.1 key in (s', r.2 || c)) keys (s, false).

Definition singleton_Subtract (s : Singleton.singletonKeySet) (ks2 : KeySet) :
    Singleton.singletonKeySet * bool :=
  if String.eqb (Singleton.set0 s) "" then (s, false)
  else if ks_Has ks2 (Singleton.set0 s) then (Singleton.MkSingleton "", true) else (s, false).

Definition map_Subtract (s : MapSet.mapKeySet) (ks2 : KeySet) : MapSet.mapKeySet * bool :=
  del_each MapSet.Del s (ks_Iterate ks2).

Definition slice_Subtract (s : SliceSet.sliceKeySet) (ks2 : KeySet) : SliceSet.sliceKeySet * bool :=
  match ks2 with
  | KSlice s2 => SliceSet.SubtractSlice s s2
  | _ => del_each SliceSet.Del s (ks_Iterate ks2)
  end.

Definition ks_Subtract (s ks2 : KeySet) : KeySet * bool :=
  match s with
  | KSingleton s => wrap KSingleton (singleton_Subtract s ks2)
  | KMap s => wrap KMap (map_Subtract s ks2)
  | KSlice s => wrap KSlice (slice_Subtract s ks2)
  end.

Definition singleton_Intersect (s : Singleton.singletonKeySet) (ks2 : KeySet) :
    Singleton.singletonKeySet * bool :=
  if String.eqb (Singleton.set0 s) "" then (s, false)
  else if negb (ks_Has ks2 (Singleton.set0 s)) then (Singleton.MkSingleton "", true)
  else (s, false).

(** The keys of the receiver that are missing in [ks2] are deleted while the
    map is being iterated. *)
Definition map_Intersect (s : MapSet.mapKeySet) (ks2 : KeySet) : MapSet.mapKeySet * bool :=
  fold_left (fun r key =>
    if negb (ks_Has ks2 key) then ((MapSet.Del r.1 key).1, true) else r)
    (map_order (MapSet.set s)) (s, false).

Definition slice_Intersect (s : SliceSet.sliceKeySet) (ks2 : KeySet) :
    SliceSet.sliceKeySet * bool :=
  SliceSet.IntersectWith s (ks_Has ks2).

Definition ks_Intersect (s ks2 : KeySet) : KeySet * bool :=
  match s with
  | KSingleton s => wrap KSingleton (singleton_Intersect s ks2)
  | KMap s => wrap KMap (map_Intersect s ks2)
  | KSlice s => wrap KSlice (slice_Intersect s ks2)
  end.

Definition ks_String (s : KeySet) : string :=
  match s with
  | KSingleton s => Singleton.String_ s
  | KMap s => MapSet.string_ s false
  | KSlice s => SliceSet.String_ s
  end.

Definition ks_elems (s : KeySet) : gset string :=
  match s with
  | KSingleton s => Singleton.elems s
  | KMap s => MapSet.elems s
  | KSlice s => SliceSet.elems s
  end.

Definition ks_wf (s : KeySet) : Prop :=
  match s with
  | KSingleton _ => True
  | KMap s => MapSet.wf s
  | KSlice s => SliceSet.wf s
  end.

#[export] Program Instance keyset_impl : KeySetImpl KeySet := {
  ksi_wf := ks_wf; ksi_key k := k <> ""; ksi_elems := ks_elems;
  ksi_has := ks_Has; ksi_add := ks_Add; ksi_del := ks_Del;
  ksi_length := ks_Length; ksi_iterate := ks_Iterate
}.
Next Obligation.
  intros [s|s|s] k Hwf Hk;
    [exact (ksi_has_spec s k I Hk)|exact (ksi_has_spec s k Hwf I)..].
Qed.
Next Obligation.
  intros [s|s|s] k Hwf Hk;
    [exact (ksi_add_spec s k I Hk)|exact (ksi_add_spec s k Hwf I)..].
Qed.
Next Obligation.
  intros [s|s|s] k Hwf Hk;
    [exact (ksi_del_spec s k I Hk)|exact (ksi_del_spec s k Hwf I)..].
Qed.
Next Obligation.
  intros [s|s|s] Hwf; [exact (ksi_length_spec s I)|exact (ksi_length_spec s Hwf)..].
Qed.
Next Obligation.
  intros [s|s|s] Hwf; [exact (ksi_iterate_spec s I)|exact (ksi_iterate_spec s Hwf)..].
Qed.
End keyset.
#[export] Existing Instance keyset_impl.

(** ** Facts for the clients of key sets *)
Section keyset_facts.
Context `{MO : MapOrder}.

Definition is_singleton (s : KeySet) : Prop :=
  match s with KSingleton _ => True | _ => False end.

Lemma elem_of_ks_Iterate s k : ks_wf s -> (k ∈ ks_Iterate s <-> k ∈ ks_elems s).
Proof. intros Hwf. pose proof (ksi_iterate_spec (S:=KeySet) s) as Hp. simpl in Hp. rewrite Hp by done. apply elem_of_elements. Qed.

Lemma NoDup_ks_Iterate s : ks_wf s -> NoDup (ks_Iterate s).
Proof. intros Hwf. pose proof (ksi_iterate_spec (S:=KeySet) s) as Hp. simpl in Hp. rewrite Hp by done. apply NoDup_elements. Qed.

(** For the multi-key implementations every key is admissible. *)
Lemma ks_Has_exact s k :
  ks_wf s -> ~ is_singleton s -> ks_Has s k = bool_decide (k ∈ ks_elems s).
Proof.
  destruct s as [s|s|s]; [done|..]; intros Hwf _; exact (ksi_has_spec s k Hwf I).
Qed.

Lemma ks_Add_exact s k :
  ks_wf s -> ~ is_singleton s ->
  ks_wf (ks_Add s k).1 /\ ~ is_singleton (ks_Add s k).1
  /\ ks_elems (ks_Add s k).1 = {[k]} ∪ ks_elems s
  /\ (ks_Add s k).2 = negb (bool_decide (k ∈ ks_elems s)).
Proof.
  intros Hwf Hns. rewrite <- ks_Has_exact by done.
  destruct s as [s|s|s]; [done|..]; (split_and!; [|done|..]);
    first [exact (proj1 (ksi_add_spec s k Hwf I))|exact (ksi_add_exact s k Hwf I)
          |exact (proj2 (proj2 (proj2 (ksi_add_spec s k Hwf I))))].
Qed.

Lemma ks_Del_exact s k :
  ks_wf s -> ~ is_singleton s ->
  ks_wf (ks_Del s k).1 /\ ~ is_singleton (ks_Del s k).1
  /\ ks_elems (ks_Del s k).1 = ks_elems s ∖ {[k]}
  /\ (ks_Del s k).2 = bool_decide (k ∈ ks_elems s).
Proof.
  intros Hwf Hns. rewrite <- ks_Has_exact by done.
  destruct s as [s|s|s]; [done|..]; (split_and!; [|done|..]);
    first [exact (proj1 (ksi_del_spec s k Hwf I))|exact (proj1 (proj2 (ksi_del_spec s k Hwf I)))
          |exact (proj2 (proj2 (ksi_del_spec s k Hwf I)))].
Qed.

Lemma ks_CopyOnWrite_spec s :
  ks_wf s -> ks_wf (ks_CopyOnWrite s) /\ ks_elems (ks_CopyOnWrite s) = ks_elems s
  /\ (is_singleton (ks_CopyOnWrite s) <-> is_singleton s).
Proof. by destruct s as [s|s|s]; simpl; intros Hwf; split_and!. Qed.

Lemma map_Add_spec s k :
  MapSet.wf s -> MapSet.wf (MapSet.Add s k).1
                 /\ MapSet.elems (MapSet.Add s k).1 = {[k]} ∪ MapSet.elems s.
Proof.
  intros Hwf. split; [exact (proj1 (ksi_add_spec s k Hwf I))|exact (ksi_add_exact s k Hwf I)].
Qed.

Lemma map_Del_spec s k :
  MapSet.wf s -> MapSet.wf (MapSet.Del s k).1
                 /\ MapSet.elems (MapSet.Del s k).1 = MapSet.elems s ∖ {[k]}.
Proof.
  intros Hwf. split; [exact (proj1 (ksi_del_spec s k Hwf I))|].
  exact (proj1 (proj2 (ksi_del_spec s k Hwf I))).
Qed.

Lemma NewMapBasedKeySet_spec keys :
  ks_wf (NewMapBasedKeySet keys) /\ ks_elems (NewMapBasedKeySet keys) = list_to_set keys.
Proof.
  unfold NewMapBasedKeySet, MapSet.NewMapBasedKeySet; simpl.
  assert (forall l s, MapSet.wf s ->
    MapSet.wf (fold_left (fun s key => (MapSet.Add s key).1) l s)
    /\ MapSet.elems (fold_left (fun s key => (MapSet.Add s key).1) l s)
       = MapSet.elems s ∪ list_to_set l) as H.
  { induction l as [|k l IH]; intros s Hs; simpl; [split; [done|set_solver]|].
    destruct (map_Add_spec s k Hs) as [H1 H2]. destruct (IH _ H1) as [H3 H4].
    split; [done|]. rewrite H4, H2. set_solver. }
  destruct (H keys (MapSet.MkMap false ∅ [] true)) as [H1 H2].
  - intros _. simpl. by rewrite elements_empty.
  - split; [done|]. rewrite H2. unfold MapSet.elems; simpl. set_solver.
Qed.

(** The generic loop that deletes a list of keys. *)
Lemma del_each_spec {S} `{KeySetImpl S} (s : S) keys :
  ksi_wf s -> Forall ksi_key keys ->
  ksi_wf (del_each ksi_del s keys).1
  /\ ksi_elems (del_each ksi_del s keys).1 = ksi_elems s ∖ list_to_set keys
  /\ ((del_each ksi_del s keys).2 = true <-> exists k, k ∈ keys /\ k ∈ ksi_elems s).
Proof.
  unfold del_each. intros Hwf Hk.
  assert (forall l b s, ksi_wf s -> Forall ksi_key l ->
    let r := fold_left (fun r key => let '(s', c) := ksi_del r.1 key in (s', r.2 || c)) l (s, b) in
    ksi_wf r.1 /\ ksi_elems r.1 = ksi_elems s ∖ list_to_set l
    /\ (r.2 = true <-> b = true \/ exists k, k ∈ l /\ k ∈ ksi_elems s)) as Hind.
  { clear. induction l as [|k l IH]; intros b s Hwf Hk; simpl.
    { split_and!; [done|set_solver|]. split; [by left|].
      intros [?|(k & Hk' & _)]; [done|]. by apply not_elem_of_nil in Hk'. }
    apply Forall_cons in Hk as [Hk1 Hk2].
    destruct (ksi_del_spec s k Hwf Hk1) as (H1 & H2 & H3).
    destruct (ksi_del s k) as [s' c]; simpl in *.
    destruct (IH (b || c) s' H1 Hk2) as (H4 & H5 & H6). split_and!; [done| |].
    - rewrite H5, H2. set_solver.
    - rewrite H6, orb_true_iff, H3, (ksi_has_spec s k Hwf Hk1), bool_decide_eq_true, H2.
      setoid_rewrite elem_of_cons. setoid_rewrite elem_of_difference.
      setoid_rewrite elem_of_singleton.
      destruct (decide (k ∈ ksi_elems s)) as [Hin|Hnin]; [naive_solver|].
      split; [naive_solver|]. intros [?|(k' & [->|?] & ?)]; [naive_solver|done|].
      right. exists k'. split_and!; [done|done|]. by intros ->. }
  destruct (Hind keys false s Hwf Hk) as (H1 & H2 & H3). split_and!; [done..|].
  rewrite H3. split; [by intros [?|?]|by right].
Qed.
Lemma ex_and_comm {A} (P Q : A -> Prop) : (exists k, P k /\ Q k) <-> exists k, Q k /\ P k.
Proof. split; intros (k & ? & ?); by exists k. Qed.

Lemma Forall_trivial {A} (P : A -> Prop) l : (forall x, P x) -> Forall P l.
Proof. intros H. apply Forall_forall. auto. Qed.

Lemma ks_Subtract_spec s s2 :
  ks_wf s -> ks_wf s2 -> ~ is_singleton s ->
  ks_wf (ks_Subtract s s2).1 /\ ks_elems (ks_Subtract s s2).1 = ks_elems s ∖ ks_elems s2
  /\ ((ks_Subtract s s2).2 = true <-> exists k, k ∈ ks_elems s /\ k ∈ ks_elems s2).
Proof.
  intros Hwf Hwf2 Hns. pose proof (elem_of_ks_Iterate s2) as Hit.
  assert (list_to_set (ks_Iterate s2) = ks_elems s2) as HI.
  { apply set_eq. intros x. by rewrite elem_of_list_to_set, Hit. }
  destruct s as [s|s|s]; [done|..].
  - destruct (@del_each_spec _ map_impl s (ks_Iterate s2) Hwf) as (H1 & H2 & H3).
    { by apply Forall_trivial. }
    rewrite HI in H2. split_and!; [exact H1|exact H2|].
    etrans; [exact H3|]. by setoid_rewrite Hit; [apply ex_and_comm|done].
  - destruct (@del_each_spec _ slice_impl s (ks_Iterate s2) Hwf) as (H1 & H2 & H3).
    { by apply Forall_trivial. }
    rewrite HI in H2.
    destruct s2 as [s2|s2|s2]; [|split_and!; [exact H1|exact H2|]; etrans; [exact H3|];
      by setoid_rewrite Hit; [apply ex_and_comm|done]..|].
    + split_and!; [exact H1|exact H2|]; etrans; [exact H3|];
      by setoid_rewrite Hit; [apply ex_and_comm|done].
    + destruct (SliceFacts.SubtractSlice_spec s s2 Hwf Hwf2) as (H4 & H5 & H6).
      split_and!; [exact H4| |].
      * apply set_eq. intros x. change (x ∈ SliceSet.elems (SliceSet.SubtractSlice s s2).1 <->
          x ∈ SliceSet.elems s ∖ SliceSet.elems s2).
        rewrite elem_of_difference, !SliceFacts.elem_of_elems, H5, list_elem_of_filter. tauto.
      * etrans; [exact H6|]. setoid_rewrite <- SliceFacts.elem_of_elems. done.
Qed.

Lemma map_Intersect_spec s s2 :
  MapSet.wf s ->
  MapSet.wf (map_Intersect s s2).1
  /\ MapSet.elems (map_Intersect s s2).1
     = filter (fun k => ks_Has s2 k = true) (MapSet.elems s).
Proof.
  intros Hwf. unfold map_Intersect.
  assert (forall l r, MapSet.wf r.1 ->
    let r' := fold_left (fun r key =>
      if negb (ks_Has s2 key) then ((MapSet.Del r.1 key).1, true) else r) l r in
    MapSet.wf r'.1 /\ forall k, k ∈ MapSet.elems r'.1
      <-> k ∈ MapSet.elems r.1 /\ (k ∈ l -> ks_Has s2 k = true)) as Hind.
  { induction l as [|x l IH]; intros r Hr; simpl.
    { split; [done|]. intros k. split; [|by intros []]. intros Hk. split; [done|].
      by intros ?%not_elem_of_nil. }
    destruct (ks_Has s2 x) eqn:E; simpl.
    - destruct (IH r Hr) as [H1 H2]. split; [done|]. intros k. rewrite H2, elem_of_cons.
      split; intros [Hk Hl]; (split; [done|]); [intros [->|?]; auto|]. intros ?. apply Hl. by right.
    - destruct (map_Del_spec r.1 x Hr) as [H1 H2].
      destruct (IH ((MapSet.Del r.1 x).1, true) H1) as [H3 H4]. split; [done|].
      intros k. rewrite H4, elem_of_cons; simpl. rewrite H2, elem_of_difference, elem_of_singleton.
      split; [intros [[Hk Hne] Hl]|intros [Hk Hl]].
      + split; [done|]. intros [->|?]; [done|auto].
      + split; [split; [done|]|]; [|by auto].
        intros ->. rewrite Hl in E by (by left). done. }
  destruct (Hind (map_order (MapSet.set s)) (s, false) Hwf) as [H1 H2]. split; [done|].
  apply set_eq. intros k. rewrite H2, elem_of_map_order, elem_of_filter. simpl.
  unfold MapSet.elems. split; [intros [? ?]; auto|]. intros [? ?]; auto.
Qed.

Lemma ks_Intersect_spec s s2 :
  ks_wf s -> ks_wf s2 -> ~ is_singleton s -> (is_singleton s2 -> "" ∉ ks_elems s) ->
  ks_wf (ks_Intersect s s2).1 /\ ks_elems (ks_Intersect s s2).1 = ks_elems s ∩ ks_elems s2.
Proof.
  intros Hwf Hwf2 Hns Hk.
  assert (forall k, k ∈ ks_elems s -> ks_Has s2 k = bool_decide (k ∈ ks_elems s2)) as HH.
  { intros k Hin. destruct s2 as [s2|s2|s2]; [|by apply ks_Has_exact; auto..].
    apply (@ksi_has_spec _ keyset_impl (KSingleton s2) k I). intros ->. by apply Hk. }
  destruct s as [s|s|s]; [done|..].
  - destruct (map_Intersect_spec s s2 Hwf) as [H1 H2]. split; [exact H1|].
    etrans; [exact H2|]. apply set_eq. intros k. rewrite elem_of_filter, elem_of_intersection.
    split; intros [Ha Hb]; [split; [done|]|split; [|done]].
    + by rewrite HH, bool_decide_eq_true in Ha.
    + by rewrite HH, bool_decide_eq_true.
  - destruct (SliceFacts.IntersectWith_spec s (ks_Has s2) Hwf) as (H1 & H2 & _).
    split; [exact H1|]. apply set_eq. intros k.
    change (k ∈ SliceSet.elems (SliceSet.IntersectWith s (ks_Has s2)).1
      <-> k ∈ SliceSet.elems s ∩ ks_elems s2).
    rewrite elem_of_intersection, SliceFacts.elem_of_elems, H2, list_elem_of_filter,
      <- SliceFacts.elem_of_elems.
    split; intros [Ha Hb]; [split; [done|]|split; [|done]].
    + by rewrite HH, bool_decide_eq_true in Ha.
    + by rewrite HH, bool_decide_eq_true.
Qed.
End keyset_facts.

(** ** Commands on a key set, observed from outside *)
Inductive ks_cmd := CAdd (k : string) | CDel (k : string) | CHas (k : string) | CLength.

Fixpoint ks_run {S} `{KeySetImpl S} (cmds : list ks_cmd) (s : S) : list (bool * nat) :=
  match cmds with
  | [] => []
  | CAdd k :: cmds => let r := ksi_add s k in (r.2, 0) :: ks_run cmds r.1
  | CDel k :: cmds => let r := ksi_del s k in (r.2, 0) :: ks_run cmds r.1
  | CHas k :: cmds => (ksi_has s k, 0) :: ks_run cmds s
  | CLength :: cmds => (true, ksi_length s) :: ks_run cmds s
  end.

Lemma ks_run_equiv {S1 S2} `{KeySetExact S1} `{KeySetExact S2} cmds : forall (s1 : S1) (s2 : S2),
  (forall k, @ksi_key S1 _ k) -> (forall k, @ksi_key S2 _ k) ->
  ksi_wf s1 -> ksi_wf s2 -> ksi_elems s1 = ksi_elems s2 -> ks_run cmds s1 = ks_run cmds s2.
Proof.
  induction cmds as [|c cmds IH]; intros s1 s2 K1 K2 W1 W2 He; simpl; [done|].
  assert (forall k, ksi_has s1 k = ksi_has s2 k) as Hhas.
  { intros k. by rewrite !ksi_has_spec, He by auto. }
  destruct c as [k|k|k|].
  - destruct (ksi_add_spec s1 k W1 (K1 k)) as (A1 & _ & _ & A2).
    destruct (ksi_add_spec s2 k W2 (K2 k)) as (B1 & _ & _ & B2).
    rewrite A2, B2, Hhas. f_equal. apply IH; auto. by rewrite !ksi_add_exact, He by auto.
  - destruct (ksi_del_spec s1 k W1 (K1 k)) as (A1 & A2 & A3).
    destruct (ksi_del_spec s2 k W2 (K2 k)) as (B1 & B2 & B3).
    rewrite A3, B3, Hhas. f_equal. apply IH; auto. by rewrite A2, B2, He.
  - rewrite Hhas. f_equal. by apply IH.
  - rewrite !ksi_length_spec, He by auto. f_equal. by apply IH.
Qed.

(** ** Properties *)

(** [getKeyIndex] returns, by the linear scan for up to five keys and by
    binary search above, the position at which the key is or would be stored,
    and reports whether it is stored there. *)
Theorem slice_key_index (s : SliceSet.sliceKeySet) (key : string) :
  SliceSet.wf s ->
  let '(idx, exists_) := SliceSet.getKeyIndex s key in
  lower_bound String.compare key (SliceSet.Iterate s) idx
  /\ (exists_ = true <-> key ∈ SliceSet.Iterate s)
  /\ (exists_ = true -> SliceSet.Iterate s !! idx = Some key).
Proof.
  intros Hwf. destruct (SliceFacts.getKeyIndex_spec s key Hwf) as [Hlb He].
  destruct (SliceSet.getKeyIndex s key) as [idx ex]; simpl in *. subst ex.
  rewrite bool_decide_eq_true. split_and!; [done|done|].
  apply (lower_bound_found String.compare); [apply Hwf|done].
Qed.

Definition demo_slice : SliceSet.sliceKeySet :=
  SliceSet.NewSliceBasedKeySet ["g"; "c"; "a"; "e"; "b"; "f"; "d"].

Lemma demo_slice_wf : SliceSet.wf demo_slice.
Proof. apply SliceFacts.NewSliceBasedKeySet_spec. Defined.

Example slice_key_index_witness :
  SliceSet.wf demo_slice /\ SliceSet.getKeyIndex demo_slice "e" = (4, true)
  /\ SliceSet.Iterate demo_slice !! 4 = Some "e".
Proof.
  split; [exact demo_slice_wf|]. split; [reflexivity|].
  apply (slice_key_index demo_slice "e" demo_slice_wf). reflexivity.
Defined.

(** adding to and deleting from a slice-based set keeps the slice sorted
    without duplicates and within its length, changes the represented set by
    exactly that key, and reports whether anything changed. *)
Theorem slice_add_del (s : SliceSet.sliceKeySet) (key : string) :
  SliceSet.wf s ->
  (SliceSet.wf (SliceSet.Add s key).1
   /\ SliceSet.elems (SliceSet.Add s key).1 = {[key]} ∪ SliceSet.elems s
   /\ ((SliceSet.Add s key).2 = true <-> key ∉ SliceSet.elems s))
  /\ (SliceSet.wf (SliceSet.Del s key).1
      /\ SliceSet.elems (SliceSet.Del s key).1 = SliceSet.elems s ∖ {[key]}
      /\ ((SliceSet.Del s key).2 = true <-> key ∈ SliceSet.elems s)).
Proof.
  intros Hwf. destruct (SliceFacts.Add_spec s key Hwf) as (A1 & A2 & A3).
  destruct (SliceFacts.Del_spec s key Hwf) as (D1 & D2 & D3).
  rewrite A3, D3, (SliceFacts.Has_spec s key Hwf), negb_true_iff.
  rewrite bool_decide_eq_true, bool_decide_eq_false. done.
Qed.

Example slice_add_del_witness :
  SliceSet.wf (SliceSet.Add demo_slice "cc").1
  /\ SliceSet.Iterate (SliceSet.Add demo_slice "cc").1 = ["a"; "b"; "c"; "cc"; "d"; "e"; "f"; "g"].
Proof.
  split; [|reflexivity]. apply (slice_add_del demo_slice "cc" demo_slice_wf).
Defined.

(** the merging [Subtract] of two slice-based sets, which compacts the
    slice in place, keeps exactly the keys that are not in the other set, in
    order, and reports a change iff the sets had a key in common. *)
Theorem slice_subtract (s s2 : SliceSet.sliceKeySet) :
  SliceSet.wf s -> SliceSet.wf s2 ->
  SliceSet.wf (SliceSet.SubtractSlice s s2).1
  /\ SliceSet.Iterate (SliceSet.SubtractSlice s s2).1
     = filter (fun k => k ∉ SliceSet.Iterate s2) (SliceSet.Iterate s)
  /\ ((SliceSet.SubtractSlice s s2).2 = true
      <-> exists k, k ∈ SliceSet.Iterate s /\ k ∈ SliceSet.Iterate s2).
Proof. apply SliceFacts.SubtractSlice_spec. Qed.

Example slice_subtract_witness :
  SliceSet.Iterate (SliceSet.SubtractSlice demo_slice
    (SliceSet.NewSliceBasedKeySet ["b"; "x"; "f"; "a"])).1 = ["c"; "d"; "e"; "g"]
  /\ SliceSet.wf (SliceSet.SubtractSlice demo_slice
    (SliceSet.NewSliceBasedKeySet ["b"; "x"; "f"; "a"])).1.
Proof.
  split; [reflexivity|].
  apply (slice_subtract demo_slice _ demo_slice_wf).
  apply SliceFacts.NewSliceBasedKeySet_spec.
Defined.

(** the slice-based and the map-based implementation cannot be told apart:
    any sequence of [Add], [Del], [Has] and [Length] calls on initially empty
    sets returns the same results, whatever order Go maps are iterated in. *)
Theorem slice_map_equivalent `{MO : MapOrder} (keys : list string) (cmds : list ks_cmd) :
  ks_run cmds (SliceSet.NewSliceBasedKeySet keys) = ks_run cmds (MapSet.NewMapBasedKeySet keys).
Proof.
  destruct (SliceFacts.NewSliceBasedKeySet_spec keys) as [S1 S2].
  destruct (NewMapBasedKeySet_spec keys) as [M1 M2].
  apply ks_run_equiv; [done|done|exact S1|exact M1|]. exact (eq_trans S2 (eq_sym M2)).
Qed.

(** [Subtract] and [Intersect] on the multi-key implementations compute set
    difference and intersection for every combination of implementations. *)
Theorem keyset_subtract_intersect `{MO : MapOrder} (s s2 : KeySet) :
  ks_wf s -> ks_wf s2 -> ~ is_singleton s -> "" ∉ ks_elems s ->
  ks_elems (ks_Subtract s s2).1 = ks_elems s ∖ ks_elems s2
  /\ ks_elems (ks_Intersect s s2).1 = ks_elems s ∩ ks_elems s2
  /\ ks_wf (ks_Subtract s s2).1 /\ ks_wf (ks_Intersect s s2).1.
Proof.
  intros H1 H2 H3 H4. destruct (ks_Subtract_spec s s2 H1 H2 H3) as (A & B & _).
  destruct (ks_Intersect_spec s s2 H1 H2 H3 (fun _ => H4)) as [C D]. done.
Qed.

Example keyset_subtract_intersect_witness :
  let s2 := NewMapBasedKeySet ["a"; "z"] in
  ks_elems (ks_Intersect (MO:=elements_order) (KSlice demo_slice) s2).1
    = SliceSet.elems demo_slice ∩ ks_elems s2
  /\ ks_Iterate (MO:=elements_order) (ks_Intersect (MO:=elements_order) (KSlice demo_slice) s2).1
     = ["a"].
Proof.
  split; [|reflexivity].
  apply (keyset_subtract_intersect (MO:=elements_order) (KSlice demo_slice)).
  - exact demo_slice_wf.
  - apply (NewMapBasedKeySet_spec (MO:=elements_order)).
  - intros H. exact H.
  - apply (bool_decide_unpack _). vm_compute. exact I.
Defined.
