(* ===== verification/Deps.v ===== *)
(** * Dependencies between keys

    [plugins/kvscheduler/internal/utils/dependencies.go]: the transitive
    dependency test [DependsOn] and the topological order. *)
From S2P Require Import Prelude KeySet.

Section deps.
Context `{MO : MapOrder}.

Abbreviation depmap := (gmap string KeySet).

(** Calling a method on a missing map entry (a nil interface) panics. *)
Definition nil_keyset {A} : outcome A := Panic "nil KeySet".

(** The loop over the direct dependencies, with the recursive call abstracted. *)
Fixpoint depends_loop (rec : string -> KeySet -> outcome (bool * KeySet))
    (ds : list string) (visited : KeySet) : outcome (bool * KeySet) :=
  match ds with
  | [] => Ok (false, visited)
  | dep :: ds =>
      if ks_Has visited dep then depends_loop rec ds visited
      else
        r ← rec dep visited;
        if (r.1 : bool) then Ok (true, r.2) else depends_loop rec ds r.2
  end.

Fixpoint DependsOn (fuel : nat) (k1 k2 : string) (deps : depmap) (visited : KeySet) :
    outcome (bool * KeySet) :=
  match fuel with
  | O => OutOfFuel
  | S fuel =>
      match deps !! k1 with
      | None => nil_keyset
      | Some k1Deps =>
          if ks_Has k1Deps k2 then Ok (true, visited)
          else
            depends_loop (fun dep visited => DependsOn fuel dep k2 deps visited)
              (ks_Iterate k1Deps) (ks_Add visited k1).1
      end
  end.

(** Enough fuel for a call with an empty visited set. *)
Definition depends_fuel (deps : depmap) : nat := S (size deps).

(** Restriction of the dependencies to the keys being ordered. *)
Definition remains_init (keys : KeySet) (deps : depmap) : depmap :=
  (fun keyDeps => (ks_Intersect (ks_CopyOnWrite keyDeps) keys).1)
    <$> filter (fun kd => ks_Has keys kd.1 = true) deps.

(** Can [key] come next? *)
Definition is_candidate (depFirst : bool) (remainsDeps : depmap) (key : string) : outcome bool :=
  if depFirst then
    match remainsDeps !! key with
    | None => nil_keyset
    | Some d => Ok (ks_Length d =? 0)
    end
  else Ok (negb (bool_decide (map_Exists (fun _ d => ks_Has d key = true) remainsDeps))).

(** Remove one selected key and the edges going to it. *)
Definition remove_selected (st : KeySet * depmap) (key : string) : KeySet * depmap :=
  ((ks_Del st.1 key).1, (fun d => (ks_Del d key).1) <$> delete key st.2).

Fixpoint topo_loop (fuel : nat) (deps : depmap) (depFirst handleCycle : bool)
    (remains : KeySet) (remainsDeps : depmap) : outcome (list string) :=
  if ks_Length remains =? 0 then Ok []
  else
    match fuel with
    | O => OutOfFuel
    | S fuel =>
        candidates ← outcome_filter (is_candidate depFirst remainsDeps) (ks_Iterate remains);
        selected ←
          match candidates with
          | [] =>
              if negb handleCycle then Panic "Dependency cycle!"
              else
                cyc ← outcome_filter
                  (fun key => r ← DependsOn (depends_fuel deps) key key deps (NewMapBasedKeySet []);
                              Ok r.1)
                  (ks_Iterate remains);
                Ok (sort_by String.compare id cyc)
          | _ => Ok (take 1 (sort_by String.compare id candidates))
          end;
        let '(remains', remainsDeps') := fold_left remove_selected selected (remains, remainsDeps) in
        sorted ← topo_loop fuel deps depFirst handleCycle remains' remainsDeps';
        Ok (selected ++ sorted)
    end.

Definition TopologicalOrder (keys : KeySet) (deps : depmap) (depFirst handleCycle : bool) :
    outcome (list string) :=
  topo_loop (ks_Length keys) deps depFirst handleCycle (ks_CopyOnWrite keys)
    (remains_init keys deps).

(** ** [DependsOn] decides reachability *)

Definition multi_ok (s : KeySet) : Prop := ks_wf s /\ ~ is_singleton s.

Definition deps_ok (deps : depmap) : Prop := map_Forall (fun _ d => multi_ok d) deps.

Definition dep_edge (deps : depmap) (a b : string) : Prop :=
  exists d, deps !! a = Some d /\ b ∈ ks_elems d.

(** Every dependency has an entry of its own. *)
Definition deps_closed (deps : depmap) : Prop := forall a b, dep_edge deps a b -> is_Some (deps !! b).

(** [x] has been fully explored with respect to the set [V]. *)
Definition explored (deps : depmap) (k2 : string) (V : gset string) (x : string) : Prop :=
  ~ dep_edge deps x k2 /\ forall y, dep_edge deps x y -> y ∈ V.

Lemma explored_mono deps k2 V V' x : V ⊆ V' -> explored deps k2 V x -> explored deps k2 V' x.
Proof. intros Hsub [H1 H2]. split; [done|]. intros y Hy. by apply Hsub, H2. Qed.

Definition depends_post deps k2 (V : KeySet) (start : list string)
    (r : outcome (bool * KeySet)) : Prop :=
  exists b V', r = Ok (b, V') /\ multi_ok V' /\ ks_elems V ⊆ ks_elems V' /\
    (b = true -> exists d, d ∈ start /\ tc (dep_edge deps) d k2) /\
    (b = false -> (forall d, d ∈ start -> d ∈ ks_elems V') /\
      forall x, x ∈ ks_elems V' -> x ∉ ks_elems V -> explored deps k2 (ks_elems V') x).

Lemma depends_loop_spec deps k2 rec : forall ds V,
  multi_ok V -> (forall d, d ∈ ds -> is_Some (deps !! d)) ->
  (forall d V', multi_ok V' -> ks_elems V ⊆ ks_elems V' -> d ∉ ks_elems V' ->
     is_Some (deps !! d) -> depends_post deps k2 V' [d] (rec d V')) ->
  depends_post deps k2 V ds (depends_loop rec ds V).
Proof.
  induction ds as [|d ds IH]; intros V HV Hds Hrec; cbn [depends_loop].
  { exists false, V. split_and!; try done. intros _. split; [|by intros].
    by intros d ?%not_elem_of_nil. }
  rewrite ks_Has_exact by apply HV.
  case_bool_decide as Hin.
  - destruct (IH V HV) as (b & V' & E & HV' & Hsub & Ht & Hf).
    { intros d' Hd'. apply Hds. by right. }
    { done. }
    exists b, V'. split_and!; [done..| |].
    + intros Hb. destruct (Ht Hb) as (d' & ? & ?). exists d'. split; [by right|done].
    + intros Hb. destruct (Hf Hb) as [H1 H2]. split; [|done].
      intros d' [->|?]%elem_of_cons; [by apply Hsub|auto].
  - destruct (Hrec d V) as (b & V1 & E & HV1 & Hsub1 & Ht1 & Hf1); [done|done|done|apply Hds; by left|].
    rewrite E; simpl. destruct b.
    { exists true, V1. split_and!; [done..| |done]. intros _.
      destruct (Ht1 eq_refl) as (d' & ->%list_elem_of_singleton & ?).
      exists d. split; [by left|done]. }
    destruct (Hf1 eq_refl) as [Hd1 He1].
    destruct (IH V1 HV1) as (b & V' & E' & HV' & Hsub & Ht & Hf).
    { intros d' Hd'. apply Hds. by right. }
    { intros d' V2 ? Hs. apply Hrec; [done|]. by etrans. }
    exists b, V'. split_and!; [done|done|by etrans| |].
    + intros Hb. destruct (Ht Hb) as (d' & ? & ?). exists d'. split; [by right|done].
    + intros Hb. destruct (Hf Hb) as [H1 H2]. split.
      * intros d' [->|?]%elem_of_cons; [apply Hsub, Hd1; by left|auto].
      * intros x Hx Hnx. destruct (decide (x ∈ ks_elems V1)); [|auto].
        eapply explored_mono; [exact Hsub|]. auto.
Qed.

Lemma DependsOn_spec deps k2 : deps_ok deps -> deps_closed deps ->
  forall fuel k1 V, multi_ok V -> k1 ∉ ks_elems V -> is_Some (deps !! k1) ->
    size (dom deps ∖ ks_elems V) <= fuel ->
    depends_post deps k2 V [k1] (DependsOn fuel k1 k2 deps V).
Proof.
  intros Hok Hcl. induction fuel as [|fuel IH]; intros k1 V HV Hk1 [d1 Hd1] Hf.
  { exfalso. assert (k1 ∈ dom deps ∖ ks_elems V) as Hin.
    { apply elem_of_difference. split; [|done]. apply elem_of_dom. by exists d1. }
    apply Nat.le_0_r, size_empty_inv in Hf. set_solver. }
  cbn [DependsOn]. rewrite Hd1. pose proof (Hok k1 d1 Hd1) as [Hdwf Hdns].
  rewrite ks_Has_exact by done. case_bool_decide as Hin.
  { exists true, V. split_and!; try done. intros _. exists k1. split; [by left|].
    apply tc_once. by exists d1. }
  destruct (ks_Add_exact V k1 (proj1 HV) (proj2 HV)) as (HA1 & HA2 & HA3 & _).
  destruct (depends_loop_spec deps k2 (fun dep visited => DependsOn fuel dep k2 deps visited)
    (ks_Iterate d1) (ks_Add V k1).1) as (b & V' & E & HV' & Hsub & Ht & Hfl).
  { by split. }
  { intros d Hd. apply (Hcl k1). exists d1. split; [done|]. by apply elem_of_ks_Iterate. }
  { intros d V' HV' Hs Hd Hsome. apply IH; [done..|].
    assert (size (dom deps ∖ ks_elems V') < size (dom deps ∖ ks_elems V)); [|lia].
    apply subset_size. split.
    - set_solver.
    - intros Hss. assert (k1 ∈ dom deps) by (apply elem_of_dom; by exists d1). set_solver. }
  exists b, V'. rewrite HA3 in Hsub. split_and!; [done|done|set_solver| |].
  - intros Hb. destruct (Ht Hb) as (d & Hd & Htc). exists k1. split; [by left|].
    eapply tc_l; [|done]. exists d1. split; [done|]. by apply elem_of_ks_Iterate.
  - intros Hb. destruct (Hfl Hb) as [H1 H2]. split.
    { intros d ->%list_elem_of_singleton. set_solver. }
    intros x Hx Hnx. destruct (decide (x = k1)) as [->|Hne]; [|apply H2; set_solver].
    split.
    + intros (d & Hd & Hk2). by simplify_eq.
    + intros y (d & Hd & Hy). simplify_eq. apply H1. by apply elem_of_ks_Iterate.
Qed.

Lemma explored_closed deps k2 (V : gset string) :
  (forall x, x ∈ V -> explored deps k2 V x) ->
  forall x, x ∈ V -> ~ tc (dep_edge deps) x k2.
Proof.
  intros Hex x Hx Htc. induction Htc as [x y Hxy|x y z Hxy Hyz IH].
  - by apply (proj1 (Hex x Hx)).
  - apply IH; [done|]. by apply (proj2 (Hex x Hx)).
Qed.

(** The top-level call, with nothing visited yet. *)
Lemma DependsOn_correct deps k1 k2 :
  deps_ok deps -> deps_closed deps -> is_Some (deps !! k1) ->
  exists b V, DependsOn (depends_fuel deps) k1 k2 deps (NewMapBasedKeySet []) = Ok (b, V)
    /\ (b = true <-> tc (dep_edge deps) k1 k2).
Proof.
  intros Hok Hcl Hk1. destruct (NewMapBasedKeySet_spec []) as [N1 N2].
  destruct (DependsOn_spec deps k2 Hok Hcl (depends_fuel deps) k1 (NewMapBasedKeySet []))
    as (b & V & E & _ & _ & Ht & Hf); [split; [exact N1|exact id]|rewrite N2; set_solver|done|..].
  { rewrite N2. change (list_to_set []) with (∅ : gset string).
    rewrite difference_empty_L, size_dom. unfold depends_fuel. lia. }
  exists b, V. split; [done|]. split.
  - intros Hb. by destruct (Ht Hb) as (d & ->%list_elem_of_singleton & ?).
  - intros Htc. destruct b; [done|]. exfalso. destruct (Hf eq_refl) as [H1 H2].
    eapply (explored_closed deps k2 (ks_elems V)); [|apply H1; by left|exact Htc].
    intros x Hx. apply H2; [done|]. rewrite N2. set_solver.
Qed.

(** ** Kahn's algorithm on sets

    [Topo] describes which lists the algorithm may output for the set [R] of
    remaining keys, without the data structures. *)

#[export] Instance dep_edge_dec deps a b : Decision (dep_edge deps a b).
Proof.
  destruct (deps !! a) as [d|] eqn:E.
  - destruct (decide (b ∈ ks_elems d)) as [H|H]; [left; by exists d|right].
    intros (d' & ? & ?). by simplify_eq.
  - right. intros (d' & ? & ?). congruence.
Defined.

(** A key that can come next: nothing left to wait for. *)
Definition source (deps : depmap) (depFirst : bool) (R : gset string) (x : string) : Prop :=
  if depFirst then set_Forall (fun y => ~ dep_edge deps x y) R
  else set_Forall (fun y => ~ dep_edge deps y x) R.

#[export] Instance source_dec deps depFirst R x : Decision (source deps depFirst R x).
Proof. unfold source. destruct depFirst; apply _. Defined.

Inductive Topo (deps : depmap) (depFirst handleCycle : bool) : gset string -> list string -> Prop :=
  | Topo_nil : Topo deps depFirst handleCycle ∅ []
  | Topo_source R x l :
      x ∈ R -> source deps depFirst R x ->
      (forall y, y ∈ R -> source deps depFirst R y -> cmp_le String.compare x y) ->
      Topo deps depFirst handleCycle (R ∖ {[x]}) l ->
      Topo deps depFirst handleCycle R (x :: l)
  | Topo_cycle R c l :
      handleCycle = true -> R <> ∅ -> (forall y, y ∈ R -> ~ source deps depFirst R y) ->
      ssorted String.compare c -> (forall y, y ∈ c <-> y ∈ R /\ tc (dep_edge deps) y y) ->
      Topo deps depFirst handleCycle (R ∖ list_to_set c) l ->
      Topo deps depFirst handleCycle R (c ++ l).

Lemma Topo_unique deps depFirst h R l1 :
  Topo deps depFirst h R l1 -> forall l2, Topo deps depFirst h R l2 -> l1 = l2.
Proof.
  induction 1 as [|R x l Hx Hs Hmin H IH|R c l Hh Hne Hns Hc Hcy H IH]; intros l2 H2;
    inversion H2 as [HR|R' x' l' Hx' Hs' Hmin' H'|R' c' l' Hh' Hne' Hns' Hc' Hcy' H']; subst.
  - done.
  - set_solver.
  - done.
  - set_solver.
  - assert (x = x') as -> by (apply (cmp_le_antisym String.compare); auto).
    f_equal. by apply IH.
  - by destruct (Hns' x).
  - done.
  - by destruct (Hns x').
  - assert (c = c') as -> by (apply (ssorted_unique String.compare); [done..|];
      intros y; by rewrite Hcy, Hcy').
    f_equal. by apply IH.
Qed.

Lemma Topo_perm deps depFirst h R l : Topo deps depFirst h R l -> l ≡ₚ elements R.
Proof.
  induction 1 as [|R x l Hx Hs Hmin H IH|R c l Hh Hne Hns Hc Hcy H IH].
  - by rewrite elements_empty.
  - rewrite IH. rewrite <- elements_union_singleton by set_solver.
    f_equiv. apply leibniz_equiv_iff. rewrite <- union_difference_singleton_L; done.
  - rewrite IH. apply NoDup_Permutation.
    + apply NoDup_app. split_and!; [by eapply ssorted_NoDup, Hc; apply _| |apply NoDup_elements].
      intros y Hy. rewrite elem_of_elements. set_solver.
    + apply NoDup_elements.
    + intros y. rewrite elem_of_app, !elem_of_elements, elem_of_difference, elem_of_list_to_set.
      destruct (decide (y ∈ c)) as [Hin|]; [|naive_solver].
      pose proof (proj1 (Hcy y) Hin). naive_solver.
Qed.

(** Edges between the keys of a set. *)
Definition edge_in (deps : depmap) (R : gset string) (a b : string) : Prop :=
  a ∈ R /\ b ∈ R /\ dep_edge deps a b.

Lemma tc_flip_iff {A} (E : relation A) x y : tc (fun a b => E b a) x y -> tc E y x.
Proof. induction 1; [by apply tc_once|by eapply tc_r]. Qed.

(** No source in a non-empty set means that the set contains a cycle. *)
Lemma no_source_cycle deps depFirst R x0 :
  x0 ∈ R -> (forall y, y ∈ R -> ~ source deps depFirst R y) ->
  exists x, x ∈ R /\ tc (edge_in deps R) x x.
Proof.
  intros Hx0 Hns. destruct depFirst.
  - apply (finite_cycle _ _ x0); [done|]. intros x Hx. specialize (Hns x Hx).
    apply not_Forall_not in Hns as (y & Hy & Hn); [|apply _].
    exists y. split; [done|]. by split_and!.
  - destruct (finite_cycle (fun a b => edge_in deps R b a) R x0) as (x & Hx & Htc); [done| |].
    + intros x Hx. specialize (Hns x Hx).
      apply not_Forall_not in Hns as (y & Hy & Hn); [|apply _].
      exists y. split; [done|]. by split_and!.
    + exists x. split; [done|]. by apply tc_flip_iff.
Qed.

Lemma edge_in_mono deps R R' x y : R ⊆ R' -> tc (edge_in deps R) x y -> tc (edge_in deps R') x y.
Proof.
  intros Hs Htc. induction Htc as [x y (H1 & H2 & H3)|x y z (H1 & H2 & H3) _ IH].
  - apply tc_once. split_and!; auto.
  - eapply tc_l; [|done]. split_and!; auto.
Qed.

Lemma edge_in_tc deps R x y : tc (edge_in deps R) x y -> tc (dep_edge deps) x y.
Proof.
  induction 1 as [x y (_ & _ & H3)|x y z (_ & _ & H3) _ IH]; [by apply tc_once|by eapply tc_l].
Qed.

(** ** The loop refines Kahn's algorithm on sets *)

Record topo_inv (deps : depmap) (R : gset string) (remains : KeySet) (rd : depmap) : Prop := {
  ti_remains : multi_ok remains;
  ti_elems : ks_elems remains = R;
  ti_some k : k ∈ R -> is_Some (rd !! k);
  ti_dep k d : rd !! k = Some d -> k ∈ R /\ multi_ok d /\
    exists d0, deps !! k = Some d0 /\ ks_elems d = ks_elems d0 ∩ R
}.

Lemma ks_Length_spec s : ks_wf s -> ks_Length s = size (ks_elems s).
Proof. exact (@ksi_length_spec _ keyset_impl s). Qed.

Lemma multi_ok_cow s : multi_ok s -> multi_ok (ks_CopyOnWrite s).
Proof.
  intros [H1 H2]. destruct (ks_CopyOnWrite_spec s H1) as (H3 & _ & H5).
  split; [done|]. by rewrite H5.
Qed.

Lemma multi_ok_intersect s s2 :
  multi_ok s -> multi_ok s2 ->
  multi_ok (ks_Intersect s s2).1 /\ ks_elems (ks_Intersect s s2).1 = ks_elems s ∩ ks_elems s2.
Proof.
  intros [H1 H2] [H3 H4]. destruct (ks_Intersect_spec s s2 H1 H3 H2 (fun Hs => False_ind _ (H4 Hs))) as [H5 H6].
  split; [|done]. split; [done|]. by destruct s.
Qed.

Lemma remains_init_inv keys deps :
  multi_ok keys -> deps_ok deps -> ks_elems keys ⊆ dom deps ->
  topo_inv deps (ks_elems keys) (ks_CopyOnWrite keys) (remains_init keys deps).
Proof.
  intros Hk Hd Hsub. split.
  - by apply multi_ok_cow.
  - apply ks_CopyOnWrite_spec, Hk.
  - intros k Hin. destruct (proj1 (elem_of_dom deps k) (Hsub k Hin)) as [d Hs].
    unfold remains_init. rewrite lookup_fmap, fmap_is_Some. exists d.
    apply map_lookup_filter_Some. split; [done|].
    simpl. rewrite ks_Has_exact by apply Hk. by rewrite bool_decide_eq_true.
  - intros k d. unfold remains_init. rewrite lookup_fmap, fmap_Some.
    intros (d0 & [H1 H2]%map_lookup_filter_Some & ->); simpl in H2.
    rewrite ks_Has_exact, bool_decide_eq_true in H2 by apply Hk. split; [done|].
    pose proof (Hd k d0 H1) as Hd0.
    destruct (multi_ok_intersect (ks_CopyOnWrite d0) keys (multi_ok_cow _ Hd0) Hk) as [H3 H4].
    split; [done|]. exists d0. split; [done|]. rewrite H4.
    by rewrite (proj1 (proj2 (ks_CopyOnWrite_spec d0 (proj1 Hd0)))).
Qed.

Lemma is_candidate_spec deps depFirst R remains rd x :
  topo_inv deps R remains rd -> x ∈ R ->
  is_candidate depFirst rd x = Ok (bool_decide (source deps depFirst R x)).
Proof.
  intros [Hr Hre Hs Hd] Hx. unfold is_candidate, source. destruct depFirst.
  - destruct (Hs x Hx) as [d Hdx]. rewrite Hdx. f_equal.
    destruct (Hd x d Hdx) as (_ & [Hdw _] & d0 & Hd0 & Hel).
    rewrite ks_Length_spec by done.
    apply eq_true_iff_eq. rewrite Nat.eqb_eq, bool_decide_eq_true, size_empty_iff.
    rewrite leibniz_equiv_iff, Hel. split.
    + intros He y Hy (d' & ? & ?). simplify_eq. set_solver.
    + intros Hf. apply set_eq. intros y. split; [|set_solver].
      intros [H1 H2]%elem_of_intersection. exfalso. apply (Hf y H2). by exists d0.
  - f_equal. apply eq_true_iff_eq. rewrite negb_true_iff, bool_decide_eq_false, bool_decide_eq_true.
    split.
    + intros Hn y Hy (d0 & Hd0 & Hxd). apply Hn. destruct (Hs y Hy) as [d Hdy].
      destruct (Hd y d Hdy) as (_ & [Hdw Hns] & d0' & Hd0' & Hel). simplify_eq.
      exists y, d. split; [done|]. rewrite ks_Has_exact by done.
      apply bool_decide_eq_true. set_solver.
    + intros Hf (y & d & Hdy & Hh).
      destruct (Hd y d Hdy) as (Hy & [Hdw Hns] & d0 & Hd0 & Hel).
      rewrite ks_Has_exact, bool_decide_eq_true in Hh by done.
      apply (Hf y Hy). exists d0. split; [done|]. set_solver.
Qed.

Lemma remove_selected_inv deps R remains rd x :
  topo_inv deps R remains rd ->
  topo_inv deps (R ∖ {[x]}) (remove_selected (remains, rd) x).1 (remove_selected (remains, rd) x).2.
Proof.
  intros [[Hr1 Hr2] Hre Hs Hd]. unfold remove_selected; simpl.
  destruct (ks_Del_exact remains x Hr1 Hr2) as (D1 & D2 & D3 & _). split.
  - by split.
  - by rewrite D3, Hre.
  - intros k [Hk Hne]%elem_of_difference. destruct (Hs k Hk) as [d Hdk].
    rewrite lookup_fmap, lookup_delete_ne, Hdk by set_solver. done.
  - intros k d. rewrite lookup_fmap, fmap_Some. intros (d' & Hl & ->).
    apply lookup_delete_Some in Hl as [Hne Hl].
    destruct (Hd k d' Hl) as (Hk & [Hw Hns] & d0 & Hd0 & Hel).
    destruct (ks_Del_exact d' x Hw Hns) as (E1 & E2 & E3 & _).
    split; [set_solver|]. split; [by split|]. exists d0. split; [done|]. set_solver.
Qed.

Lemma remove_selected_all_inv deps sel : forall R remains rd,
  topo_inv deps R remains rd ->
  topo_inv deps (R ∖ list_to_set sel) (fold_left remove_selected sel (remains, rd)).1
    (fold_left remove_selected sel (remains, rd)).2.
Proof.
  induction sel as [|x sel IH]; intros R remains rd Hinv; simpl.
  - by rewrite difference_empty_L.
  - pose proof (remove_selected_inv deps R remains rd x Hinv) as H.
    destruct (remove_selected (remains, rd) x) as [r' rd']; simpl in H.
    replace (R ∖ ({[x]} ∪ list_to_set sel)) with ((R ∖ {[x]}) ∖ list_to_set sel) by set_solver.
    by apply IH.
Qed.

(** The smallest of a list of strings is what sorting puts first. *)
Lemma sort_head (l : list string) x t :
  sort_by String.compare id l = x :: t -> x ∈ l /\ forall y, y ∈ l -> cmp_le String.compare x y.
Proof.
  intros Hs. pose proof (sort_by_perm String.compare id l) as Hp. rewrite Hs in Hp.
  pose proof (sort_by_sorted String.compare id l) as Hst. rewrite Hs in Hst.
  split; [rewrite <- Hp; by left|]. intros y Hy. rewrite <- Hp in Hy.
  apply elem_of_cons in Hy as [->|Hy]; [apply (cmp_le_refl String.compare)|].
  apply StronglySorted_cons in Hst as [Hst _]. rewrite Forall_forall in Hst. by apply Hst.
Qed.

Lemma sort_ssorted (l : list string) : NoDup l -> ssorted String.compare (sort_by String.compare id l).
Proof.
  intros Hnd. pose proof (sort_by_sorted String.compare id l) as Hst.
  rewrite <- (sort_by_perm String.compare id l) in Hnd. revert Hnd Hst.
  generalize (sort_by String.compare id l). clear l. induction l as [|x l IH]; intros Hnd Hst.
  - constructor.
  - apply NoDup_cons in Hnd as [Hx Hnd]. apply StronglySorted_cons in Hst as [Hf Hst].
    constructor; [by apply IH|]. rewrite Forall_forall in Hf |- *. intros y Hy.
    specialize (Hf y Hy). simpl in Hf. apply (cmp_le_lteq String.compare) in Hf as [?| ->]; done.
Qed.

(** What a run of the loop on the remaining set [R] amounts to. *)
Definition topo_result deps depFirst handle (R : gset string) (r : outcome (list string)) : Prop :=
  (exists l, r = Ok l /\ Topo deps depFirst handle R l)
  \/ (handle = false /\ r = Panic "Dependency cycle!" /\
      exists R', R' ⊆ R /\ R' <> ∅ /\ forall y, y ∈ R' -> ~ source deps depFirst R' y).

Lemma candidates_spec deps depFirst R remains rd :
  topo_inv deps R remains rd ->
  exists c, outcome_filter (is_candidate depFirst rd) (ks_Iterate remains) = Ok c /\ NoDup c /\
    forall x, x ∈ c <-> x ∈ R /\ source deps depFirst R x.
Proof.
  intros Hinv. pose proof Hinv as [Hr Hre _ _].
  rewrite (outcome_filter_Ok _ (fun x => bool_decide (source deps depFirst R x))).
  - eexists. split; [done|]. split; [apply NoDup_filter, NoDup_ks_Iterate, Hr|].
    intros x. rewrite list_elem_of_filter, bool_decide_eq_true, elem_of_ks_Iterate by apply Hr.
    rewrite Hre. tauto.
  - intros x Hx. rewrite elem_of_ks_Iterate, Hre in Hx by apply Hr. by eapply is_candidate_spec.
Qed.

Lemma cyclic_spec deps R remains :
  deps_ok deps -> deps_closed deps -> R ⊆ dom deps -> multi_ok remains -> ks_elems remains = R ->
  exists c, outcome_filter
      (fun key => r ← DependsOn (depends_fuel deps) key key deps (NewMapBasedKeySet []); Ok r.1)
      (ks_Iterate remains) = Ok c /\ NoDup c /\
    forall x, x ∈ c <-> x ∈ R /\ tc (dep_edge deps) x x.
Proof.
  intros Hok Hcl Hsub Hr Hre.
  pose (g := fun x => match DependsOn (depends_fuel deps) x x deps (NewMapBasedKeySet []) with
    | Ok r => r.1 | _ => false end).
  assert (forall x, x ∈ R -> (r ← DependsOn (depends_fuel deps) x x deps (NewMapBasedKeySet []); Ok r.1)
    = Ok (g x) /\ (g x = true <-> tc (dep_edge deps) x x)) as Hg.
  { intros x Hx. destruct (DependsOn_correct deps x x Hok Hcl) as (b & V & E & Hb).
    { by apply elem_of_dom, Hsub. }
    unfold g. by rewrite E. }
  rewrite (outcome_filter_Ok _ g).
  - eexists. split; [done|]. split; [apply NoDup_filter, NoDup_ks_Iterate, Hr|].
    intros x. rewrite list_elem_of_filter, elem_of_ks_Iterate, Hre by apply Hr.
    split; intros [H1 H2].
    + split; [done|]. by apply (proj2 (Hg x H2)).
    + split; [|done]. by apply (proj2 (Hg x H1)).
  - intros x Hx. rewrite elem_of_ks_Iterate, Hre in Hx by apply Hr. by apply Hg.
Qed.

Lemma topo_loop_spec deps depFirst handle :
  deps_ok deps -> (handle = true -> deps_closed deps) ->
  forall fuel R remains rd, topo_inv deps R remains rd -> R ⊆ dom deps -> size R <= fuel ->
    topo_result deps depFirst handle R (topo_loop fuel deps depFirst handle remains rd).
Proof.
  intros Hok Hcl. induction fuel as [|fuel IH]; intros R remains rd Hinv Hsub Hf;
    pose proof Hinv as [Hr Hre _ _]; cbn [topo_loop];
    rewrite ks_Length_spec, Hre by apply Hr.
  { left. exists []. assert (size R = 0) as Hz by lia. rewrite Hz. split; [done|].
    apply size_empty_inv, leibniz_equiv in Hz as ->. constructor. }
  destruct (Nat.eqb_spec (size R) 0) as [Hz|Hz].
  { left. exists []. split; [done|]. apply size_empty_inv, leibniz_equiv in Hz as ->. constructor. }
  assert (R <> ∅) as Hne by (intros ->; by rewrite size_empty in Hz).
  destruct (candidates_spec deps depFirst R remains rd Hinv) as (c & -> & Hnd & Hc).
  rewrite outcome_bind_ret.
  (* the recursive call, once the selected keys are known *)
  assert (forall sel, sel <> [] -> list_to_set sel ⊆ R ->
    (forall l, Topo deps depFirst handle (R ∖ list_to_set sel) l -> Topo deps depFirst handle R (sel ++ l)) ->
    topo_result deps depFirst handle R
     (let '(remains', rd') := fold_left remove_selected sel (remains, rd) in
      sorted ← topo_loop fuel deps depFirst handle remains' rd'; Ok (sel ++ sorted))) as Hrec.
  { intros sel Hn Hss Hstep. pose proof (remove_selected_all_inv deps sel R remains rd Hinv) as Hi.
    destruct (fold_left remove_selected sel (remains, rd)) as [r' rd']; simpl in Hi.
    assert (size (R ∖ list_to_set sel) < size R) as Hlt.
    { apply subset_size. destruct sel as [|x sel]; [done|]. set_solver. }
    destruct (IH _ r' rd' Hi) as [(l & -> & Hl)|(Hh & -> & R' & HR' & H2)]; [set_solver|lia|..].
    - left. exists (sel ++ l). split; [done|]. by apply Hstep.
    - right. split; [done|]. split; [done|]. exists R'. split; [set_solver|done]. }
  destruct c as [|x c].
  - assert (forall y, y ∈ R -> ~ source deps depFirst R y) as Hns.
    { intros y Hy Hs. apply (not_elem_of_nil y), Hc. by split. }
    destruct handle; simpl negb; cbv iota.
    2: { right. split; [done|]. split; [done|]. by exists R. }
    destruct (cyclic_spec deps R remains Hok (Hcl eq_refl) Hsub Hr Hre) as (cyc & -> & Hndc & Hcyc).
    rewrite !outcome_bind_ret. pose proof (sort_by_perm String.compare id cyc) as Hp. apply Hrec.
    + intros He. rewrite He in Hp.
      assert (exists x, x ∈ R) as [x0 Hx0] by (by apply set_choose_L).
      destruct (no_source_cycle deps depFirst R x0 Hx0 Hns) as (x & Hx & Htc).
      apply (not_elem_of_nil x). rewrite Hp. apply Hcyc. split; [done|]. by eapply edge_in_tc.
    + intros y Hy%elem_of_list_to_set. rewrite Hp in Hy. by apply Hcyc in Hy as [? _].
    + intros l Hl. apply Topo_cycle; [done..|by apply sort_ssorted| |done].
      intros y. rewrite Hp. apply Hcyc.
  - rewrite outcome_bind_ret. destruct (sort_by String.compare id (x :: c)) as [|m t] eqn:Es.
    { pose proof (sort_by_perm String.compare id (x :: c)) as Hp. rewrite Es in Hp.
      by apply Permutation_nil_cons in Hp. }
    destruct (sort_head _ _ _ Es) as [Hm Hmin]. apply Hc in Hm as [Hm1 Hm2].
    apply (Hrec (take 1 (m :: t))); simpl.
    + done.
    + set_solver.
    + rewrite (right_id_L ∅ (∪)). intros l Hl. apply Topo_source; [done..| |done].
      intros y H1 H2. apply Hmin, Hc. by split.
Qed.

Lemma TopologicalOrder_spec keys deps depFirst handle :
  multi_ok keys -> deps_ok deps -> ks_elems keys ⊆ dom deps -> (handle = true -> deps_closed deps) ->
  topo_result deps depFirst handle (ks_elems keys) (TopologicalOrder keys deps depFirst handle).
Proof.
  intros Hk Hd Hsub Hcl. apply topo_loop_spec; [done..| |done|].
  - by apply remains_init_inv.
  - rewrite ks_Length_spec; [done|apply Hk].
Qed.

(** ** When the order respects the dependencies *)

(** [l] lists every dependency on the required side of its dependant. *)
Definition respects (deps : depmap) (depFirst : bool) (l : list string) : Prop :=
  forall i j a b, l !! i = Some a -> l !! j = Some b -> dep_edge deps a b ->
    if depFirst then j < i else i < j.

Definition acyclic_on (deps : depmap) (R : gset string) : Prop :=
  forall x, ~ tc (edge_in deps R) x x.

Lemma acyclic_subset deps R R' : R' ⊆ R -> acyclic_on deps R -> acyclic_on deps R'.
Proof. intros Hs Ha x Hx. apply (Ha x). by eapply edge_in_mono. Qed.

Lemma respects_cons deps depFirst x l R :
  acyclic_on deps R -> x ∈ R -> source deps depFirst R x -> (forall y, y ∈ l -> y ∈ R) ->
  respects deps depFirst l -> respects deps depFirst (x :: l).
Proof.
  intros Ha Hx Hs Hl Hr [|i] [|j] a b Hi Hj He; simpl in Hi, Hj; simplify_eq.
  - exfalso. apply (Ha a). by apply tc_once.
  - destruct depFirst; [|lia]. exfalso. apply (Hs b); [|done].
    apply Hl. by eapply list_elem_of_lookup_2.
  - destruct depFirst; [lia|]. exfalso. apply (Hs a); [|done].
    apply Hl. by eapply list_elem_of_lookup_2.
  - specialize (Hr i j a b Hi Hj He). destruct depFirst; lia.
Qed.

Lemma Topo_respects deps depFirst h R l :
  Topo deps depFirst h R l -> acyclic_on deps R -> respects deps depFirst l.
Proof.
  induction 1 as [|R x l Hx Hs Hmin H IH|R c l Hh Hne Hns Hc Hcy H IH]; intros Ha.
  - intros i j a b Hi. by rewrite lookup_nil in Hi.
  - apply (respects_cons deps depFirst x l R); [done..| |].
    + intros y Hy. rewrite (Topo_perm _ _ _ _ _ H), elem_of_elements in Hy. set_solver.
    + apply IH. eapply acyclic_subset; [|done]. set_solver.
  - exfalso. apply set_choose_L in Hne as [x0 Hx0].
    destruct (no_source_cycle deps depFirst R x0 Hx0 Hns) as (x & _ & Htc). by apply (Ha x).
Qed.

(** Without cycle handling, a returned list proves the absence of cycles. *)
Lemma Topo_acyclic deps depFirst R l :
  Topo deps depFirst false R l -> acyclic_on deps R.
Proof.
  remember false as h. induction 1 as [|R x l Hx Hs Hmin H IH|R c l Hh Hne Hns Hc Hcy H IH].
  - intros x Htc. inversion Htc as [? ? (? & _)|? ? ? (? & _)]; set_solver.
  - intros a Htc.
    assert (forall p q, tc (edge_in deps R) p q -> p <> x -> q <> x ->
      tc (edge_in deps (R ∖ {[x]})) p q) as Hav.
    { intros p q Hpq. induction Hpq as [p q (H1 & H2 & H3)|p m q (H1 & H2 & H3) Hmq IHm]; intros Hp Hq.
      - apply tc_once. split_and!; [set_solver..|done].
      - destruct (decide (m = x)) as [->|Hm].
        + exfalso. destruct depFirst; simpl in Hs.
          * inversion Hmq as [? ? (_ & H5 & H6)|? m' ? (_ & H5 & H6)]; subst; by eapply Hs.
          * by apply (Hs p).
        + eapply tc_l; [|by apply IHm]. split_and!; [set_solver..|done]. }
    destruct (decide (a = x)) as [->|Hne]; [|by apply (IH a), Hav].
    destruct depFirst; simpl in Hs.
    + inversion Htc as [? ? (_ & H5 & H6)|? m' ? (_ & H5 & H6)]; subst; by eapply Hs.
    + assert (forall p q, tc (edge_in deps R) p q -> exists p', edge_in deps R p' q) as Hlast.
      { intros p q Hpq. induction Hpq as [p q ?|p m q _ _ IHm]; [by exists p|done]. }
      destruct (Hlast _ _ Htc) as (p' & H5 & _ & H6). by apply (Hs p').
  - congruence.
Qed.

Lemma dep_edge_ext deps1 deps2 :
  ks_elems <$> deps1 = ks_elems <$> deps2 -> forall a b, dep_edge deps1 a b <-> dep_edge deps2 a b.
Proof.
  assert (forall d1 d2, ks_elems <$> d1 = ks_elems <$> d2 ->
    forall a b, dep_edge d1 a b -> dep_edge d2 a b) as H; [|by split; eapply H].
  intros d1 d2 He a b (s & Hs & Hb).
  apply (f_equal (lookup a)) in He. rewrite !lookup_fmap, Hs in He; simpl in He.
  symmetry in He. apply fmap_Some in He as (s' & ? & Hs'). exists s'. split; [done|]. congruence.
Qed.

Lemma tc_ext {A} (E1 E2 : relation A) :
  (forall a b, E1 a b <-> E2 a b) -> forall a b, tc E1 a b <-> tc E2 a b.
Proof.
  intros He a b. split; (induction 1; [by apply tc_once, He|eapply tc_l; [by apply He|done]]).
Qed.

Lemma source_ext deps1 deps2 depFirst R x :
  (forall a b, dep_edge deps1 a b <-> dep_edge deps2 a b) ->
  source deps1 depFirst R x <-> source deps2 depFirst R x.
Proof.
  intros He. unfold source, set_Forall. destruct depFirst; by setoid_rewrite He.
Qed.

Lemma Topo_ext deps1 deps2 depFirst h R l :
  (forall a b, dep_edge deps1 a b <-> dep_edge deps2 a b) ->
  Topo deps2 depFirst h R l -> Topo deps1 depFirst h R l.
Proof.
  intros He. induction 1 as [|R x l Hx Hs Hmin H IH|R c l Hh Hne Hns Hc Hcy H IH].
  - constructor.
  - apply Topo_source; [done|by apply (source_ext _ _ _ _ _ He)| |done].
    intros y Hy Hsy. apply Hmin; [done|]. by apply (source_ext _ _ _ _ _ He).
  - apply Topo_cycle; [done..| |done| |done].
    + intros y Hy. rewrite (source_ext _ _ _ _ _ He). auto.
    + intros y. rewrite Hcy. by rewrite (tc_ext _ _ He).
Qed.

(** The closure condition as a decidable one. *)
Lemma deps_closed_alt (deps : depmap) :
  map_Forall (fun _ d => ks_elems d ⊆ dom deps) deps -> deps_closed deps.
Proof. intros H a b (d & Hd & Hb). apply elem_of_dom. by apply (H a d Hd). Qed.

(** A rank that decreases along the edges excludes cycles. *)
Lemma acyclic_rank (deps : depmap) (R : gset string) (rank : string -> nat) :
  set_Forall (fun a => map_Forall (fun a' d => a = a' ->
    set_Forall (fun b => rank b < rank a) (ks_elems d ∩ R)) deps) R ->
  acyclic_on deps R.
Proof.
  intros H x Hx.
  assert (forall a b, tc (edge_in deps R) a b -> rank b < rank a) as Hr.
  { assert (forall a b, edge_in deps R a b -> rank b < rank a) as H1.
    { intros a b (Ha & Hb & d & Hd & He). apply (H a Ha a d Hd eq_refl). set_solver. }
    induction 1 as [a b E|a b c E _ IH]; [auto|]. specialize (H1 a b E). lia. }
  specialize (Hr x x Hx). lia.
Qed.

(** ** Properties *)

(** C39: the transitive dependency test terminates within one call per key of
    the dependency map and decides reachability over one or more steps,
    whatever order the sets are iterated in and also when the dependencies
    are cyclic.  It is presumed that the map has an entry for the first key and for
    every key that is a dependency. *)
Theorem DependsOn_decides (deps : depmap) (k1 k2 : string) :
  deps_ok deps -> deps_closed deps -> is_Some (deps !! k1) ->
  exists b V, DependsOn (depends_fuel deps) k1 k2 deps (NewMapBasedKeySet []) = Ok (b, V)
    /\ (b = true <-> tc (dep_edge deps) k1 k2).
Proof. apply DependsOn_correct. Qed.

(** C12: with cycle handling the topological order always terminates and returns
    each key exactly once, also when the dependencies are cyclic.  It is presumed
    that the map has an entry for every key and for every dependency of an entry
    (the code panics on a missing one), and that the sets are map-based ones, as
    those that the callers make. *)
Theorem topo_order_complete (keys : KeySet) (deps : depmap) (depFirst : bool) :
  multi_ok keys -> deps_ok deps -> ks_elems keys ⊆ dom deps -> deps_closed deps ->
  exists l, TopologicalOrder keys deps depFirst true = Ok l /\ l ≡ₚ elements (ks_elems keys).
Proof.
  intros H1 H2 H3 H4.
  destruct (TopologicalOrder_spec keys deps depFirst true H1 H2 H3 (fun _ => H4))
    as [(l & E & Ht)|(? & _)]; [|done].
  exists l. split; [done|]. by eapply Topo_perm.
Qed.

(** C38: when the dependencies among the keys are acyclic, every dependency
    comes before ([depFirst]) or after (otherwise) the keys that depend on it,
    with and without cycle handling.  It is presumed that the map has an entry for
    every key, and with cycle handling for every dependency too. *)
Theorem topo_order_respects (keys : KeySet) (deps : depmap) (depFirst handle : bool) :
  multi_ok keys -> deps_ok deps -> ks_elems keys ⊆ dom deps -> (handle = true -> deps_closed deps) ->
  acyclic_on deps (ks_elems keys) ->
  exists l, TopologicalOrder keys deps depFirst handle = Ok l
    /\ l ≡ₚ elements (ks_elems keys) /\ respects deps depFirst l.
Proof.
  intros H1 H2 H3 H4 Ha.
  destruct (TopologicalOrder_spec keys deps depFirst handle H1 H2 H3 H4)
    as [(l & E & Ht)|(_ & _ & R' & Hs & Hne & Hns)].
  - exists l. split; [done|]. split; [by eapply Topo_perm|by eapply Topo_respects].
  - exfalso. apply set_choose_L in Hne as [x0 Hx0].
    destruct (no_source_cycle deps depFirst R' x0 Hx0 Hns) as (x & _ & Htc).
    apply (acyclic_subset _ _ _ Hs Ha _ Htc).
Qed.

(** without cycle handling the function panics exactly when the keys contain
    a dependency cycle. *)
Theorem topo_order_panics (keys : KeySet) (deps : depmap) (depFirst : bool) :
  multi_ok keys -> deps_ok deps -> ks_elems keys ⊆ dom deps ->
  (TopologicalOrder keys deps depFirst false = Panic "Dependency cycle!"
   <-> exists x, tc (edge_in deps (ks_elems keys)) x x).
Proof.
  intros H1 H2 H3.
  destruct (TopologicalOrder_spec keys deps depFirst false H1 H2 H3 ltac:(done))
    as [(l & E & Ht)|(_ & E & R' & Hs & Hne & Hns)]; rewrite E.
  - split; [done|]. intros [x Hx]. exfalso. by apply (Topo_acyclic _ _ _ _ Ht x).
  - split; [|done]. intros _. apply set_choose_L in Hne as [x0 Hx0].
    destruct (no_source_cycle deps depFirst R' x0 Hx0 Hns) as (x & _ & Htc).
    exists x. by eapply edge_in_mono.
Qed.
End deps.

(** the order depends only on the key set and the dependency sets: neither
    the iteration order of Go maps nor the implementation of the sets shows in
    the result. *)
Theorem topo_order_deterministic (MO1 MO2 : MapOrder) (keys1 keys2 : KeySet)
    (deps1 deps2 : gmap string KeySet) (depFirst : bool) :
  multi_ok keys1 -> multi_ok keys2 -> deps_ok deps1 -> deps_ok deps2 ->
  ks_elems keys1 = ks_elems keys2 -> ks_elems <$> deps1 = ks_elems <$> deps2 ->
  ks_elems keys1 ⊆ dom deps1 -> deps_closed deps1 ->
  TopologicalOrder (MO:=MO1) keys1 deps1 depFirst true
  = TopologicalOrder (MO:=MO2) keys2 deps2 depFirst true.
Proof.
  intros K1 K2 D1 D2 HK HD Hsub Hcl.
  assert (forall a b, dep_edge deps1 a b <-> dep_edge deps2 a b) as He by by apply dep_edge_ext.
  assert (dom deps1 = dom deps2) as Hdom.
  { apply (f_equal dom) in HD. by rewrite !dom_fmap_L in HD. }
  destruct (TopologicalOrder_spec (MO:=MO1) keys1 deps1 depFirst true K1 D1 Hsub (fun _ => Hcl))
    as [(l1 & -> & T1)|(? & _)]; [|done].
  assert (deps_closed deps2) as Hcl2.
  { intros a b Hab%He. apply elem_of_dom. rewrite <- Hdom. apply elem_of_dom. by eapply Hcl. }
  destruct (TopologicalOrder_spec (MO:=MO2) keys2 deps2 depFirst true K2 D2
    ltac:(by rewrite <- HK, <- Hdom) (fun _ => Hcl2)) as [(l2 & -> & T2)|(? & _)]; [|done].
  f_equal. rewrite <- HK in T2. eapply Topo_unique; [exact T1|]. by eapply Topo_ext.
Qed.

(** A dependency graph with a cycle between [c] and [d], and [a -> b]. *)
Definition demo_keys : KeySet := NewMapBasedKeySet ["a"; "b"; "c"; "d"].
Definition demo_deps : gmap string KeySet :=
  {[ "a" := NewMapBasedKeySet ["b"]; "b" := NewMapBasedKeySet [];
     "c" := NewMapBasedKeySet ["d"]; "d" := NewMapBasedKeySet ["c"; "b"] ]}.
Definition demo_keys_acyclic : KeySet := NewMapBasedKeySet ["a"; "b"; "c"].

Lemma map_multi_ok keys : multi_ok (NewMapBasedKeySet keys).
Proof. split; [apply (NewMapBasedKeySet_spec (MO:=elements_order))|exact id]. Defined.

Lemma demo_deps_ok : deps_ok demo_deps.
Proof.
  unfold demo_deps.
  repeat (apply map_Forall_insert_2; [apply map_multi_ok|]). apply map_Forall_empty.
Defined.

Lemma demo_deps_closed : deps_closed demo_deps.
Proof.
  apply deps_closed_alt. apply (bool_decide_unpack _). vm_compute. exact I.
Defined.

Lemma demo_keys_dom : ks_elems demo_keys ⊆ dom demo_deps.
Proof. apply (bool_decide_unpack _). vm_compute. exact I. Defined.

Example DependsOn_decides_witness :
  (exists V, DependsOn (MO:=elements_order) (depends_fuel demo_deps) "c" "b" demo_deps
    (NewMapBasedKeySet []) = Ok (true, V)) /\ tc (dep_edge demo_deps) "c" "b".
Proof.
  destruct (DependsOn_decides (MO:=elements_order) demo_deps "c" "b" demo_deps_ok demo_deps_closed
    ltac:(by eexists)) as (b & V & E & Hb).
  assert (b = true) as ->.
  { apply (f_equal (fun o => match o with Ok r => r.1 | _ => false end)) in E.
    vm_compute in E. symmetry. exact E. }
  split; [by exists V|by apply Hb].
Defined.

Example topo_order_complete_witness :
  TopologicalOrder (MO:=elements_order) demo_keys demo_deps true true = Ok ["b"; "a"; "c"; "d"]
  /\ exists l, TopologicalOrder (MO:=elements_order) demo_keys demo_deps false true = Ok l
      /\ l ≡ₚ elements (ks_elems demo_keys).
Proof.
  split; [vm_compute; reflexivity|].
  apply (topo_order_complete (MO:=elements_order) demo_keys demo_deps false).
  - apply map_multi_ok.
  - exact demo_deps_ok.
  - exact demo_keys_dom.
  - exact demo_deps_closed.
Defined.

(** Without the key [d] there is no cycle: everything points to [b], which has
    no dependency of its own. *)
Lemma demo_acyclic : acyclic_on demo_deps (ks_elems demo_keys_acyclic).
Proof.
  apply (acyclic_rank _ _ (fun x => if decide (x = "a") then 1 else 0)).
  apply (bool_decide_unpack _). vm_compute. exact I.
Defined.

Lemma demo_keys_acyclic_dom : ks_elems demo_keys_acyclic ⊆ dom demo_deps.
Proof. apply (bool_decide_unpack _). vm_compute. exact I. Defined.

Example topo_order_respects_witness :
  TopologicalOrder (MO:=elements_order) demo_keys_acyclic demo_deps true false = Ok ["b"; "a"; "c"]
  /\ exists l, TopologicalOrder (MO:=elements_order) demo_keys_acyclic demo_deps false false = Ok l
      /\ l ≡ₚ elements (ks_elems demo_keys_acyclic) /\ respects demo_deps false l.
Proof.
  split; [vm_compute; reflexivity|].
  apply (topo_order_respects (MO:=elements_order) demo_keys_acyclic demo_deps false false).
  - apply map_multi_ok.
  - exact demo_deps_ok.
  - exact demo_keys_acyclic_dom.
  - congruence.
  - exact demo_acyclic.
Defined.

Example topo_order_panics_witness :
  TopologicalOrder (MO:=elements_order) demo_keys demo_deps true false = Panic "Dependency cycle!"
  /\ exists x, tc (edge_in demo_deps (ks_elems demo_keys)) x x.
Proof.
  assert (TopologicalOrder (MO:=elements_order) demo_keys demo_deps true false
    = Panic "Dependency cycle!") as E by (vm_compute; reflexivity).
  split; [exact E|].
  apply (topo_order_panics (MO:=elements_order) demo_keys demo_deps true (map_multi_ok _)
    demo_deps_ok demo_keys_dom). exact E.
Defined.

Definition reverse_order : MapOrder :=
  {| map_order := fun s => reverse (elements s);
     map_order_perm := fun s => reverse_Permutation (elements s) |}.

Example topo_order_deterministic_witness :
  TopologicalOrder (MO:=elements_order) demo_keys demo_deps true true
  = TopologicalOrder (MO:=reverse_order)
      (NewSliceBasedKeySet ["d"; "a"; "c"; "b"]) demo_deps true true.
Proof.
  apply topo_order_deterministic.
  - apply map_multi_ok.
  - split; [apply SliceFacts.NewSliceBasedKeySet_spec|exact id].
  - exact demo_deps_ok.
  - exact demo_deps_ok.
  - apply (bool_decide_unpack _). vm_compute. exact I.
  - reflexivity.
  - exact demo_keys_dom.
  - exact demo_deps_closed.
Defined.
