(* ===== verification/Monad.v ===== *)
(** * State and panic

    The monad of the stateful parts: a computation reads and writes a state
    and may panic.  [preserves] and [ensures] are the reasoning rules the
    components share. *)
From S2P Require Import Prelude.

Definition M (S A : Type) : Type := S -> outcome (A * S).

#[export] Instance M_ret S : MRet (M S) := fun A a s => Ok (a, s).
#[export] Instance M_bind S : MBind (M S) := fun A B f m s =>
  match m s with
  | Ok (a, s') => f a s'
  | Panic e => Panic e
  | OutOfFuel => OutOfFuel
  end.

Section ops.
Context {S : Type}.

Definition get : M S S := fun s => Ok (s, s).
Definition gets {A} (f : S -> A) : M S A := fun s => Ok (f s, s).
Definition put (s : S) : M S unit := fun _ => Ok (tt, s).
Definition modify (f : S -> S) : M S unit := fun s => Ok (tt, f s).
Definition panic {A} (msg : string) : M S A := fun _ => Panic msg.
Definition no_fuel {A} : M S A := fun _ => OutOfFuel.
Definition lift {A} (o : outcome A) : M S A := fun s =>
  match o with Ok a => Ok (a, s) | Panic e => Panic e | OutOfFuel => OutOfFuel end.
(** A nil dereference, when the option is [None]. *)
Definition deref {A} (msg : string) (o : option A) : M S A := lift (from_option_panic msg o).

Definition skip : M S unit := mret tt.

Definition whenM (b : bool) (m : M S unit) : M S unit := if b then m else skip.

(** A loop over a list. *)
Fixpoint forM {A} (l : list A) (f : A -> M S unit) : M S unit :=
  match l with
  | [] => skip
  | x :: l => f x ≫= fun _ => forM l f
  end.

(** A loop that accumulates a value. *)
Fixpoint foldM {A B} (f : B -> A -> M S B) (l : list A) (b : B) : M S B :=
  match l with
  | [] => mret b
  | x :: l => f b x ≫= fun b' => foldM f l b'
  end.

Fixpoint mapM {A B} (f : A -> M S B) (l : list A) : M S (list B) :=
  match l with
  | [] => mret []
  | x :: l => f x ≫= fun y => mapM f l ≫= fun l' => mret (y :: l')
  end.

Fixpoint filterM {A} (f : A -> M S bool) (l : list A) : M S (list A) :=
  match l with
  | [] => mret []
  | x :: l => f x ≫= fun b => filterM f l ≫= fun l' => mret (if (b : bool) then x :: l' else l')
  end.
End ops.

(** Run a computation on a component of the state. *)
Definition zoom {S T A} (g : S -> T) (p : T -> S -> S) (m : M T A) : M S A := fun s =>
  match m (g s) with
  | Ok (a, t) => Ok (a, p t s)
  | Panic e => Panic e
  | OutOfFuel => OutOfFuel
  end.

(** ** Partial correctness

    [triple P m Q]: a run of [m] from a state in [P] that returns does so in
    [Q].  Panics and missing fuel are excluded by separate theorems. *)
Definition triple {S A} (P : S -> Prop) (m : M S A) (Q : A -> S -> Prop) : Prop :=
  forall s a s', P s -> m s = Ok (a, s') -> Q a s'.

Section triple_rules.
Context {S : Type}.
Implicit Types P : S -> Prop.

Lemma triple_ret {A} (a : A) P : triple P (mret a) (fun a' s => a' = a /\ P s).
Proof. intros s a' s' HP [= <- <-]. done. Qed.

Lemma triple_bind {A B} (m : M S A) (f : A -> M S B) P Q R :
  triple P m Q -> (forall a, triple (Q a) (f a) R) -> triple P (m ≫= f) R.
Proof.
  intros Hm Hf s b s' HP. unfold mbind, M_bind.
  destruct (m s) as [[a s1]|e|] eqn:E; [|done..]. intros H.
  eapply (Hf a); [by eapply Hm|done].
Qed.

Lemma triple_conseq {A} (m : M S A) P P' (Q Q' : A -> S -> Prop) :
  triple P' m Q' -> (forall s, P s -> P' s) -> (forall a s, Q' a s -> Q a s) -> triple P m Q.
Proof. intros Hm HP HQ s a s' H1 H2. eapply HQ, Hm; eauto. Qed.
End triple_rules.

(** ** Relations between the states before and after *)
Definition preserves {S A} (R : relation S) (m : M S A) : Prop :=
  forall s a s', m s = Ok (a, s') -> R s s'.

Section preserves_rules.
Context {S : Type} (R : relation S) `{!PreOrder R}.

Lemma preserves_ret {A} (a : A) : preserves R (mret a : M S A).
Proof. intros s a' s' [= <- <-]. reflexivity. Qed.

Lemma preserves_bind {A B} (m : M S A) (f : A -> M S B) :
  preserves R m -> (forall a, preserves R (f a)) -> preserves R (m ≫= f).
Proof.
  intros Hm Hf s b s'. unfold mbind, M_bind.
  destruct (m s) as [[a s1]|e|] eqn:E; [|done..]. intros H.
  transitivity s1; [by eapply Hm|by eapply Hf].
Qed.

Lemma preserves_get : preserves R (get : M S S).
Proof. intros s a s' [= <- <-]. reflexivity. Qed.

Lemma preserves_gets {A} (f : S -> A) : preserves R (gets f).
Proof. intros s a s' [= <- <-]. reflexivity. Qed.

Lemma preserves_panic {A} msg : preserves R (panic msg : M S A).
Proof. done. Qed.

Lemma preserves_no_fuel {A} : preserves R (no_fuel : M S A).
Proof. done. Qed.

Lemma preserves_lift {A} (o : outcome A) : preserves R (lift o : M S A).
Proof. intros s a s'. unfold lift. destruct o; [intros [= <- <-]; reflexivity|done..]. Qed.

Lemma preserves_deref {A} msg (o : option A) : preserves R (deref msg o : M S A).
Proof. apply preserves_lift. Qed.

Lemma preserves_skip : preserves R (skip : M S unit).
Proof. apply preserves_ret. Qed.

Lemma preserves_whenM b (m : M S unit) : preserves R m -> preserves R (whenM b m).
Proof. intros. destruct b; [done|apply preserves_skip]. Qed.

Lemma preserves_modify (f : S -> S) : (forall s, R s (f s)) -> preserves R (modify f).
Proof. intros Hf s a s' [= <- <-]. apply Hf. Qed.

Lemma preserves_forM {A} (l : list A) f : (forall x, preserves R (f x)) -> preserves R (forM l f).
Proof.
  intros Hf. induction l as [|x l IH]; simpl; [apply preserves_skip|].
  by apply preserves_bind.
Qed.

Lemma preserves_foldM {A B} (f : B -> A -> M S B) l : (forall b x, preserves R (f b x)) ->
  forall b, preserves R (foldM f l b).
Proof.
  intros Hf. induction l as [|x l IH]; intros b; simpl; [apply preserves_ret|].
  by apply preserves_bind.
Qed.

Lemma preserves_mapM {A B} (f : A -> M S B) l : (forall x, preserves R (f x)) ->
  preserves R (mapM f l).
Proof.
  intros Hf. induction l as [|x l IH]; simpl; [apply preserves_ret|].
  apply preserves_bind; [done|]. intros y. apply preserves_bind; [done|]. intros. apply preserves_ret.
Qed.

Lemma preserves_filterM {A} (f : A -> M S bool) l : (forall x, preserves R (f x)) ->
  preserves R (filterM f l).
Proof.
  intros Hf. induction l as [|x l IH]; simpl; [apply preserves_ret|].
  apply preserves_bind; [done|]. intros y. apply preserves_bind; [done|]. intros. apply preserves_ret.
Qed.
End preserves_rules.

Lemma preserves_zoom {S T A} (R : relation S) (g : S -> T) (p : T -> S -> S) (m : M T A) :
  (forall t s, R s (p t s)) -> preserves R (zoom g p m).
Proof.
  intros Hp s a s'. unfold zoom. destruct (m (g s)) as [[a' t]|e|]; [|done..].
  intros [= <- <-]. apply Hp.
Qed.

Lemma preserves_impl {S A} (R R' : relation S) (m : M S A) :
  (forall s s', R s s' -> R' s s') -> preserves R m -> preserves R' m.
Proof. intros H Hm s a s' E. by eapply H, Hm. Qed.

(** The relation "this component of the state is unchanged". *)
Definition same {S T} (f : S -> T) : relation S := fun s s' => f s = f s'.

#[export] Instance same_preorder {S T} (f : S -> T) : PreOrder (same f).
Proof. split; [done|]. intros x y z. unfold same. congruence. Qed.

Create HintDb monad discriminated.
#[export] Hint Resolve preserves_ret preserves_get preserves_gets preserves_panic
  preserves_no_fuel preserves_lift preserves_deref preserves_skip : monad.

(** Walk through a computation: one step of the proof that it preserves [R]. *)
Ltac preserves_step :=
  lazymatch goal with
  | |- forall _, _ => intro
  | |- preserves _ (let '(_, _) := ?x in _) => destruct x
  | |- preserves _ (let x := _ in _) => cbv zeta
  | |- preserves _ (match ?x with _ => _ end) => destruct x
  | |- preserves _ (mret _) => apply preserves_ret; apply _
  | |- preserves _ (_ ≫= _) => apply preserves_bind; [apply _| |intro]
  | |- preserves _ (whenM _ _) => apply preserves_whenM; [apply _|]
  | |- preserves _ (forM _ _) => apply preserves_forM; [apply _|intro]
  | |- preserves _ (foldM _ _ _) => apply preserves_foldM; [apply _|intros ? ?]
  | |- preserves _ (mapM _ _) => apply preserves_mapM; [apply _|intro]
  | |- preserves _ (filterM _ _) => apply preserves_filterM; [apply _|intro]
  | |- preserves _ (modify _) => apply preserves_modify; [intro; try reflexivity]
  | |- preserves _ _ => solve [eauto with monad typeclass_instances]
  end.
Ltac preserves_auto := repeat preserves_step.

(** ** Computations that do not run out of fuel

    [safe I m Q]: from a state in [I] the computation does not run out of fuel,
    and when it returns, the result is in [Q] and the state in [I] again. *)
Definition ofuel {A} (o : outcome A) (Q : A -> Prop) : Prop :=
  match o with Ok a => Q a | Panic _ => True | OutOfFuel => False end.

Lemma ofuel_mono {A} (o : outcome A) (P Q : A -> Prop) :
  ofuel o P -> (forall a, P a -> Q a) -> ofuel o Q.
Proof. destruct o; simpl; auto. Qed.

Lemma ofuel_bind {A B} (o : outcome A) (f : A -> outcome B) P Q :
  ofuel o P -> (forall a, P a -> ofuel (f a) Q) -> ofuel (o ≫= f) Q.
Proof. destruct o; simpl; auto. Qed.

Definition safe {S A} (I : S -> Prop) (m : M S A) (Q : A -> Prop) : Prop :=
  forall s, I s -> ofuel (m s) (fun r => Q r.1 /\ I r.2).

Section safe_rules.
Context {S : Type} (I : S -> Prop).

Lemma safe_conseq {A} (m : M S A) (P Q : A -> Prop) :
  safe I m P -> (forall a, P a -> Q a) -> safe I m Q.
Proof. intros Hm H s Hs. eapply ofuel_mono; [by apply Hm|]. intros [a s'] [? ?]. auto. Qed.

Lemma safe_ret {A} (a : A) (Q : A -> Prop) : Q a -> safe I (mret a) Q.
Proof. intros H s Hs. by split. Qed.

Lemma safe_bind {A B} (m : M S A) (f : A -> M S B) P Q :
  safe I m P -> (forall a, P a -> safe I (f a) Q) -> safe I (m ≫= f) Q.
Proof.
  intros Hm Hf s Hs. specialize (Hm s Hs). unfold mbind, M_bind.
  destruct (m s) as [[a s']|e|]; simpl in *; [destruct Hm; by apply Hf|done..].
Qed.

Lemma safe_get : safe I get I.
Proof. intros s Hs. by split. Qed.

Lemma safe_gets {A} (f : S -> A) (Q : A -> Prop) : (forall s, I s -> Q (f s)) -> safe I (gets f) Q.
Proof. intros H s Hs. split; [by apply H|done]. Qed.

Lemma safe_panic {A} msg (Q : A -> Prop) : safe I (panic msg : M S A) Q.
Proof. done. Qed.

Lemma safe_lift {A} (o : outcome A) Q : ofuel o Q -> safe I (lift o) Q.
Proof. intros Ho s Hs. unfold lift. destruct o; simpl in *; auto. Qed.

Lemma safe_deref {A} msg (o : option A) (Q : A -> Prop) :
  (forall a, o = Some a -> Q a) -> safe I (deref msg o) Q.
Proof. intros H. apply safe_lift. destruct o; simpl; auto. Qed.

Lemma safe_skip (Q : unit -> Prop) : Q tt -> safe I skip Q.
Proof. apply safe_ret. Qed.

Lemma safe_whenM b (m : M S unit) : safe I m (fun _ => True) -> safe I (whenM b m) (fun _ => True).
Proof. destruct b; [done|]. intros _. by apply safe_skip. Qed.

Lemma safe_modify (f : S -> S) : (forall s, I s -> I (f s)) -> safe I (modify f) (fun _ => True).
Proof. intros H s Hs. split; [done|by apply H]. Qed.

Lemma safe_forM {A} (l : list A) f :
  (forall x, x ∈ l -> safe I (f x) (fun _ => True)) -> safe I (forM l f) (fun _ => True).
Proof.
  induction l as [|x l IH]; simpl; intros H; [by apply safe_skip|].
  eapply safe_bind; [apply H; by apply elem_of_cons; left|]. intros _ _. apply IH.
  intros y Hy. apply H. by apply elem_of_cons; right.
Qed.

Lemma safe_foldM {A B} (f : B -> A -> M S B) (J : B -> Prop) l :
  (forall b x, x ∈ l -> J b -> safe I (f b x) J) -> forall b, J b -> safe I (foldM f l b) J.
Proof.
  induction l as [|x l IH]; simpl; intros H b Hb; [by apply safe_ret|].
  eapply safe_bind; [apply H; [by apply elem_of_cons; left|done]|]. intros b' Hb'. apply IH; [|done].
  intros b'' y Hy. apply H. by apply elem_of_cons; right.
Qed.

Lemma safe_mapM {A B} (f : A -> M S B) (P : B -> Prop) l :
  (forall x, x ∈ l -> safe I (f x) P) -> safe I (mapM f l) (Forall P).
Proof.
  induction l as [|x l IH]; simpl; intros H; [by apply safe_ret|].
  eapply safe_bind; [apply H; by apply elem_of_cons; left|]. intros b Hb.
  eapply safe_bind; [apply IH; intros; apply H; by apply elem_of_cons; right|]. intros bs Hbs.
  apply safe_ret. by constructor.
Qed.
End safe_rules.

Lemma safe_zoom {S T A} (I : S -> Prop) (J : T -> Prop) (g : S -> T) (p : T -> S -> S) (m : M T A) Q :
  safe J m Q -> (forall s, I s -> J (g s)) -> (forall s t, I s -> J t -> I (p t s)) ->
  safe I (zoom g p m) Q.
Proof.
  intros Hm Hg Hp s Hs. specialize (Hm (g s) (Hg s Hs)). unfold zoom in *.
  destruct (m (g s)) as [[a t]|e|]; simpl in *; [destruct Hm; auto|done..].
Qed.

(** Walk through a computation whose intermediate results need no property. *)
Ltac safe_step :=
  lazymatch goal with
  | |- forall _, _ => intro
  | |- safe _ (let '(_, _) := ?x in _) _ => destruct x
  | |- safe _ (let x := _ in _) _ => cbv zeta
  | |- safe _ (match ?x with _ => _ end) _ => destruct x eqn:?
  | |- safe _ (mret _) _ => apply safe_ret
  | |- safe _ skip _ => apply safe_skip
  | |- safe _ (panic _) _ => apply safe_panic
  | |- safe _ (_ ≫= _) _ => eapply safe_bind; [|intros ? ?]
  | |- safe _ (whenM _ _) _ => apply safe_whenM
  | |- safe _ (deref _ _) _ => apply (safe_deref _ _ _ (fun _ => True)); done
  | |- safe _ get _ => apply safe_get
  | |- safe _ (forM _ _) _ => apply safe_forM; intros ? ?
  end.

(** ** Total correctness

    [total s m Q]: from the state [s] the computation returns, in [Q]. *)
Definition total {S A} (s : S) (m : M S A) (Q : A -> S -> Prop) : Prop :=
  exists a s', m s = Ok (a, s') /\ Q a s'.

Section total_rules.
Context {S : Type}.
Implicit Types s : S.

Lemma total_ret {A} s (a : A) (Q : A -> S -> Prop) : Q a s -> total s (mret a) Q.
Proof. intros H. by exists a, s. Qed.

Lemma total_bind {A B} s (m : M S A) (f : A -> M S B) Q R :
  total s m Q -> (forall a s', Q a s' -> total s' (f a) R) -> total s (m ≫= f) R.
Proof.
  intros (a & s' & E & HQ) Hf. destruct (Hf a s' HQ) as (b & s'' & E' & HR).
  exists b, s''. split; [|done]. unfold mbind, M_bind. by rewrite E.
Qed.

Lemma total_conseq {A} s (m : M S A) (Q R : A -> S -> Prop) :
  total s m Q -> (forall a s', Q a s' -> R a s') -> total s m R.
Proof. intros (a & s' & E & HQ) H. exists a, s'. auto. Qed.

Lemma total_get s (Q : S -> S -> Prop) : Q s s -> total s get Q.
Proof. intros H. by exists s, s. Qed.

Lemma total_gets {A} s (f : S -> A) (Q : A -> S -> Prop) : Q (f s) s -> total s (gets f) Q.
Proof. intros H. by exists (f s), s. Qed.

Lemma total_modify s (f : S -> S) (Q : unit -> S -> Prop) : Q tt (f s) -> total s (modify f) Q.
Proof. intros H. by exists tt, (f s). Qed.

Lemma total_skip s (Q : unit -> S -> Prop) : Q tt s -> total s skip Q.
Proof. apply total_ret. Qed.

Lemma total_deref {A} s msg (o : option A) a (Q : A -> S -> Prop) :
  o = Some a -> Q a s -> total s (deref msg o) Q.
Proof. intros -> H. by exists a, s. Qed.

Lemma total_whenM s (b : bool) (m : M S unit) (Q : unit -> S -> Prop) :
  (b = true -> total s m Q) -> (b = false -> Q tt s) -> total s (whenM b m) Q.
Proof. destruct b; intros H1 H2; [by apply H1|]. by apply total_skip, H2. Qed.

(** Steps whose result is known. *)
Lemma total_get_bind {B} s (f : S -> M S B) R : total s (f s) R -> total s (get ≫= f) R.
Proof. done. Qed.
Lemma total_gets_bind {A B} s (h : S -> A) (f : A -> M S B) R : total s (f (h s)) R -> total s (gets h ≫= f) R.
Proof. done. Qed.
Lemma total_modify_bind {B} s (h : S -> S) (f : unit -> M S B) R : total (h s) (f tt) R -> total s (modify h ≫= f) R.
Proof. done. Qed.
Lemma total_ret_bind {A B} s (a : A) (f : A -> M S B) R : total s (f a) R -> total s (mret a ≫= f) R.
Proof. done. Qed.
Lemma total_deref_bind {A B} s msg (o : option A) a (f : A -> M S B) R :
  o = Some a -> total s (f a) R -> total s (deref msg o ≫= f) R.
Proof. by intros ->. Qed.
Lemma total_bind_assoc {A B C} s (m : M S A) (f : A -> M S B) (h : B -> M S C) R :
  total s (m ≫= fun a => f a ≫= h) R -> total s ((m ≫= f) ≫= h) R.
Proof. unfold total, mbind, M_bind. by destruct (m s) as [[a s']|e|]. Qed.

Lemma total_bind_join {A B C} s (m : M S A) (f : A -> M S B) (h : B -> M S C) R :
  total s ((m ≫= f) ≫= h) R -> total s (m ≫= fun a => f a ≫= h) R.
Proof. unfold total, mbind, M_bind. by destruct (m s) as [[a s']|e|]. Qed.

(** A loop with an invariant on what was done. *)
Lemma total_forM {A} (l : list A) (f : A -> M S unit) (I : list A -> S -> Prop) s :
  I [] s ->
  (forall pre x post s', l = pre ++ x :: post -> I pre s' ->
    total s' (f x) (fun _ s'' => I (pre ++ [x]) s'')) ->
  total s (forM l f) (fun _ s' => I l s').
Proof.
  intros H0 Hstep. assert (forall done todo s', l = done ++ todo -> I done s' ->
    total s' (forM todo f) (fun _ s'' => I l s'')) as Hgen; [|by apply (Hgen [] l s)].
  intros done todo. revert done. induction todo as [|x todo IH]; intros done s' Hl HI; cbn [forM].
  - rewrite app_nil_r in Hl. subst. by apply total_skip.
  - eapply total_bind; [by eapply Hstep|]. intros [] s'' HI'. apply (IH (done ++ [x])); [|exact HI'].
    by rewrite <- app_assoc.
Qed.
End total_rules.
