(* ===== verification/Api.v ===== *)
(** * The API package

    [plugins/kvscheduler/api]: errors.go, txn_options.go, the descriptor
    record of kv_descriptor_api.go, the enumerations of kv_scheduler_api.go
    and txn_record.go, and the code the scheduler takes from outside the
    repository as the parameters [Ext]. *)
From S2P Require Import Prelude.

(** Code outside the repository: protobuf messages, metadata, the named
    mappings of cn-infra, the southbound plane and the clock. *)
Class Ext := {
  (** [proto.Message]; a nil message is [None]. *)
  Value : Type;
  proto_Equal : option Value -> option Value -> bool;
  proto_MessageName : Value -> string;
  fmt_v : option Value -> string;
  (** Descriptor-owned metadata ([interface{}]); nil is [None]. *)
  Metadata : Type;
  DeepEqual : option Metadata -> option Metadata -> bool;
  (** [idxmap.NamedMappingRW]. *)
  Mapping : Type;
  nm_New : Mapping;
  nm_Put : Mapping -> string -> Metadata -> Mapping;
  nm_Delete : Mapping -> string -> Mapping;
  nm_Update : Mapping -> string -> option Metadata -> Mapping;
  nm_GetValue : Mapping -> string -> option Metadata;
  nm_ListFields : Mapping -> string -> list (string * list string);
  (** The southbound plane and the checks the scheduler makes on it. *)
  World : Type;
  netns_escaped : World -> bool;
  (** The n-th reading of the clock, in nanoseconds. *)
  clock_reading : nat -> Z;
  (** The growth of slices. *)
  ext_runtime :: Runtime
}.

(** ** Enumerations *)

(** [ValueState] and [TxnOperation] of proto/ligato/kvscheduler/value_status.proto. *)
Inductive ValueState :=
  | ValueState_NONEXISTENT | ValueState_MISSING | ValueState_UNIMPLEMENTED
  | ValueState_REMOVED | ValueState_CONFIGURED | ValueState_OBTAINED
  | ValueState_DISCOVERED | ValueState_PENDING | ValueState_INVALID
  | ValueState_FAILED | ValueState_RETRYING.

#[export] Instance ValueState_eq_dec : EqDecision ValueState.
Proof. solve_decision. Defined.

Definition ValueState_String (s : ValueState) : string :=
  match s with
  | ValueState_NONEXISTENT => "NONEXISTENT"
  | ValueState_MISSING => "MISSING"
  | ValueState_UNIMPLEMENTED => "UNIMPLEMENTED"
  | ValueState_REMOVED => "REMOVED"
  | ValueState_CONFIGURED => "CONFIGURED"
  | ValueState_OBTAINED => "OBTAINED"
  | ValueState_DISCOVERED => "DISCOVERED"
  | ValueState_PENDING => "PENDING"
  | ValueState_INVALID => "INVALID"
  | ValueState_FAILED => "FAILED"
  | ValueState_RETRYING => "RETRYING"
  end.

Inductive TxnOperation :=
  | TxnOperation_UNDEFINED | TxnOperation_VALIDATE | TxnOperation_CREATE
  | TxnOperation_UPDATE | TxnOperation_DELETE.

#[export] Instance TxnOperation_eq_dec : EqDecision TxnOperation.
Proof. solve_decision. Defined.

Definition TxnOperation_String (op : TxnOperation) : string :=
  match op with
  | TxnOperation_UNDEFINED => "UNDEFINED"
  | TxnOperation_VALIDATE => "VALIDATE"
  | TxnOperation_CREATE => "CREATE"
  | TxnOperation_UPDATE => "UPDATE"
  | TxnOperation_DELETE => "DELETE"
  end.

Inductive ValueOrigin := UnknownOrigin | FromNB | FromSB.

#[export] Instance ValueOrigin_eq_dec : EqDecision ValueOrigin.
Proof. solve_decision. Defined.

Definition ValueOrigin_String (vo : ValueOrigin) : string :=
  match vo with FromNB => "from-NB" | FromSB => "from-SB" | UnknownOrigin => "unknown" end.

Inductive View := SBView | NBView | CachedView.

#[export] Instance View_eq_dec : EqDecision View.
Proof. solve_decision. Defined.

Definition View_String (v : View) : string :=
  match v with SBView => "SB" | NBView => "NB" | CachedView => "cached" end.

Inductive ResyncType := NotResync | FullResync | UpstreamResync | DownstreamResync.

#[export] Instance ResyncType_eq_dec : EqDecision ResyncType.
Proof. solve_decision. Defined.

Definition ResyncType_String (t : ResyncType) : string :=
  match t with
  | NotResync => "NotResync"
  | FullResync => "FullResync"
  | UpstreamResync => "UpstreamResync"
  | DownstreamResync => "DownstreamResync"
  end.

(** The lookup table of [UnmarshalJSON]; unknown names give [NotResync]. *)
Definition ResyncType_of_string (s : string) : ResyncType :=
  if String.eqb s "FullResync" then FullResync
  else if String.eqb s "UpstreamResync" then UpstreamResync
  else if String.eqb s "DownstreamResync" then DownstreamResync
  else NotResync.

Inductive TxnType := SBNotification | NBTransaction | RetryFailedOps | RetryUnimplOps.

#[export] Instance TxnType_eq_dec : EqDecision TxnType.
Proof. solve_decision. Defined.

Definition TxnType_String (t : TxnType) : string :=
  match t with
  | SBNotification => "SBNotification"
  | NBTransaction => "NBTransaction"
  | RetryFailedOps => "RetryFailedOps"
  | RetryUnimplOps => "RetryUnimplOps"
  end.

(** [UnmarshalJSON] for a quoted name; [TxnType(-1)] is [None]. *)
Definition TxnType_of_string (s : string) : option TxnType :=
  if String.eqb s "SBNotification" then Some SBNotification
  else if String.eqb s "NBTransaction" then Some NBTransaction
  else if String.eqb s "RetryFailedOps" then Some RetryFailedOps
  else if String.eqb s "RetryUnimplOps" then Some RetryUnimplOps
  else None.

Definition TxnTypeToString (t : TxnType) : string :=
  match t with
  | NBTransaction => "NB Transaction"
  | SBNotification => "SB Notification"
  | RetryFailedOps => "Retry Transaction"
  | RetryUnimplOps => TxnType_String t
  end.

Definition ResyncTypeToString (t : ResyncType) : string :=
  match t with
  | NotResync => "Not Resync"
  | FullResync => "Full Resync"
  | UpstreamResync => "NB Sync"
  | DownstreamResync => "SB Sync"
  end.

(** ** Transaction options carried by the context *)

Record RetryOpt := MkRetryOpt {
  Period : Z;
  MaxCount : Z;
  ExpBackoff : bool
}.

Definition DefaultRetryPeriod : Z := 1000000000.
Definition DefaultRetryMaxCount : Z := 3.
Definition DefaultRetryBackoff : bool := true.

Inductive schedulerCtxKey :=
  | resyncCtxKey | nonBlockingTxnCtxKey | retryCtxKey | revertCtxKey
  | txnDescriptionCtxKey | txnSimulationCtxKey.

#[export] Instance schedulerCtxKey_eq_dec : EqDecision schedulerCtxKey.
Proof. solve_decision. Defined.

Inductive ctxValue :=
  | resyncOpt (resyncType : ResyncType) (verboseSBRefresh : bool)
  | nonBlockingTxnOpt
  | retryOpt (args : RetryOpt)
  | revertOpt
  | txnDescriptionOpt (description : string)
  | txnSimulationOpt.

(** [context.Context]: the innermost value of a key wins. *)
Definition Context_ := list (schedulerCtxKey * ctxValue).

Definition WithValue (ctx : Context_) (k : schedulerCtxKey) (v : ctxValue) : Context_ :=
  (k, v) :: ctx.

Fixpoint ctx_Value (ctx : Context_) (k : schedulerCtxKey) : option ctxValue :=
  match ctx with
  | [] => None
  | (k', v) :: ctx => if decide (k' = k) then Some v else ctx_Value ctx k
  end.

Definition WithResync (ctx : Context_) (resyncType : ResyncType) (verboseSBRefresh : bool) : Context_ :=
  WithValue ctx resyncCtxKey (resyncOpt resyncType verboseSBRefresh).

Definition IsResync (ctx : Context_) : ResyncType * bool :=
  match ctx_Value ctx resyncCtxKey with
  | Some (resyncOpt t v) => (t, v)
  | _ => (NotResync, false)
  end.

Definition WithoutBlocking (ctx : Context_) : Context_ :=
  WithValue ctx nonBlockingTxnCtxKey nonBlockingTxnOpt.

Definition IsNonBlockingTxn (ctx : Context_) : bool :=
  match ctx_Value ctx nonBlockingTxnCtxKey with Some nonBlockingTxnOpt => true | _ => false end.

Definition WithRetry (ctx : Context_) (period maxCount : Z) (expBackoff : bool) : Context_ :=
  WithValue ctx retryCtxKey (retryOpt (MkRetryOpt period maxCount expBackoff)).

Definition WithRetryDefault (ctx : Context_) : Context_ :=
  WithValue ctx retryCtxKey
    (retryOpt (MkRetryOpt DefaultRetryPeriod DefaultRetryMaxCount DefaultRetryBackoff)).

Definition WithRetryMaxCount (ctx : Context_) (maxCount : Z) : Context_ :=
  WithValue ctx retryCtxKey
    (retryOpt (MkRetryOpt DefaultRetryPeriod maxCount DefaultRetryBackoff)).

(** The pair [(retryArgs, withRetry)]: the flag is whether there are arguments. *)
Definition IsWithRetry (ctx : Context_) : option RetryOpt :=
  match ctx_Value ctx retryCtxKey with Some (retryOpt args) => Some args | _ => None end.

Definition WithRevert (ctx : Context_) : Context_ := WithValue ctx revertCtxKey revertOpt.

Definition IsWithRevert (ctx : Context_) : bool :=
  match ctx_Value ctx revertCtxKey with Some revertOpt => true | _ => false end.

Definition WithDescription (ctx : Context_) (description : string) : Context_ :=
  WithValue ctx txnDescriptionCtxKey (txnDescriptionOpt description).

Definition IsWithDescription (ctx : Context_) : string * bool :=
  match ctx_Value ctx txnDescriptionCtxKey with
  | Some (txnDescriptionOpt d) => (d, true)
  | _ => ("", false)
  end.

Definition WithSimulation (ctx : Context_) : Context_ :=
  WithValue ctx txnSimulationCtxKey txnSimulationOpt.

Definition IsWithSimulation (ctx : Context_) : bool :=
  match ctx_Value ctx txnSimulationCtxKey with Some txnSimulationOpt => true | _ => false end.

(** Everything [Commit] reads from a context. *)
Record txnOptions := MkTxnOptions {
  opt_resync : ResyncType * bool;
  opt_nonBlocking : bool;
  opt_retry : option RetryOpt;
  opt_revert : bool;
  opt_description : string * bool;
  opt_simulation : bool
}.

Definition read_options (ctx : Context_) : txnOptions :=
  MkTxnOptions (IsResync ctx) (IsNonBlockingTxn ctx) (IsWithRetry ctx) (IsWithRevert ctx)
    (IsWithDescription ctx) (IsWithSimulation ctx).

(** ** Errors *)

Inductive VerificationErrorType := ExpectedToExist | ExpectedToNotExist | NotEquivalent.

#[export] Instance VerificationErrorType_eq_dec : EqDecision VerificationErrorType.
Proof. solve_decision. Defined.

(** [KeyWithError], over the type of errors. *)
Record KeyWithErrorOf (E : Type) := MkKeyWithError {
  kwe_Key : string;
  kwe_TxnOperation : TxnOperation;
  kwe_Error : option E
}.
Arguments MkKeyWithError {E} _ _ _.
Arguments kwe_Key {E} _.
Arguments kwe_TxnOperation {E} _.
Arguments kwe_Error {E} _.

Section errors.
Context {X : Ext}.

(** A Go [error] that is not nil.  [Sentinel] are the package variables
    (compared by identity), [Opaque] errors come from descriptors or are built
    in place, [Wrapped] ones unwrap to another error. *)
Inductive error :=
  | Sentinel (msg : string)
  | Opaque (msg : string)
  | Wrapped (msg : string) (err : error)
  | InvalidValueErr (err : option error) (invalidFields : list string)
  | InvalidMessageErr (message : option Value) (invalidError : option error)
      (parentMessage : option Value)
  | InvalidMessagesErr (messageErrors : list error)
  | VerificationErr (key : string) (errType : VerificationErrorType)
  | TransactionErr (txnInitError : option error) (kvErrors : list (KeyWithErrorOf error)).

Definition KeyWithError := KeyWithErrorOf error.

Definition ErrCombinedDownstreamResyncWithChange : error :=
  Sentinel "downstream resync combined with data changes in one transaction".
Definition ErrRevertNotSupportedWithResync : error :=
  Sentinel "it is not supported to combine resync with revert".
Definition ErrClosedScheduler : error := Sentinel "scheduler was closed".
Definition ErrTxnWaitCanceled : error :=
  Sentinel "waiting for result of blocking transaction was canceled".
Definition ErrTxnQueueFull : error := Sentinel "transaction queue is full".
Definition ErrUnimplementedCreate : error := Sentinel "operation Create is not implemented".
Definition ErrUnimplementedDelete : error := Sentinel "operation Delete is not implemented".
Definition ErrDescriptorExists : error := Sentinel "descriptor already exist".
Definition ErrEscapedNetNs : error :=
  Sentinel "operation didn't preserve the original network namespace".

(** [errors.Is(err, target)] for a package-level target. *)
Fixpoint errors_Is (err : error) (target : string) : bool :=
  match err with
  | Sentinel m => String.eqb m target
  | Wrapped _ err => errors_Is err target
  | _ => false
  end.

(** [fmt.Sprintf] of a slice of strings with the verb v. *)
Definition fmt_strings (l : list string) : string := "[" +:+ String.concat " " l +:+ "]".

Fixpoint Error (e : error) : string :=
  match e with
  | Sentinel m | Opaque m | Wrapped m _ => m
  | InvalidValueErr None _ => ""
  | InvalidValueErr (Some err) fields =>
      match fields with
      | [] => Error err
      | [f] => "field " +:+ f +:+ " is invalid: " +:+ Error err
      | _ => "fields " +:+ fmt_strings fields +:+ " are invalid: " +:+ Error err
      end
  | InvalidMessageErr m inv parent =>
      "message is not valid due to: " +:+ (match inv with Some i => Error i | None => "" end)
        +:+ " (message=" +:+ fmt_v m +:+ ", parentMessage=" +:+ fmt_v parent +:+ ")"
  | InvalidMessagesErr es =>
      "some messages are invalid:" +:+ String (Ascii.ascii_of_nat 10) ""
        +:+ String.concat "" (map (fun e => Error e +:+ String (Ascii.ascii_of_nat 10) "") es)
  | VerificationErr _ ExpectedToExist => "value is not actually configured"
  | VerificationErr _ ExpectedToNotExist => "value is not actually removed"
  | VerificationErr _ NotEquivalent => "applied value is not equivalent with the refreshed value"
  | TransactionErr (Some err) _ => Error err
  | TransactionErr None kvs =>
      match kvs with
      | [] => ""
      | _ => "KeyErrors: [" +:+ String.concat ", "
          (map (fun kv => kwe_Key kv +:+ " (" +:+ TxnOperation_String (kwe_TxnOperation kv)
             +:+ "): " +:+ match kwe_Error kv with Some e => Error e | None => "<nil>" end) kvs)
          +:+ "]"
      end
  end.

Definition NewTransactionError (txnInitError : option error) (kvErrors : list KeyWithError) : error :=
  TransactionErr txnInitError kvErrors.

(** Methods of the error types; a nil receiver is [None]. *)
Definition GetKVErrors (e : option error) : list KeyWithError :=
  match e with Some (TransactionErr _ kvs) => kvs | _ => [] end.

Definition GetTxnInitError (e : option error) : option error :=
  match e with Some (TransactionErr i _) => i | _ => None end.

Definition NewInvalidValueError (err : option error) (invalidFields : list string) : error :=
  InvalidValueErr err invalidFields.

Definition GetInvalidFields (e : error) : list string :=
  match e with InvalidValueErr _ fields => fields | _ => [] end.

Definition GetValidationError (e : error) : option error :=
  match e with InvalidValueErr err _ => err | _ => None end.

Definition NewInvalidMessageError (message : option Value) (invalidError : option error)
    (parentMessage : option Value) : error :=
  InvalidMessageErr message invalidError parentMessage.

Definition NewInvalidMessagesError (messageErrors : list error) : error :=
  InvalidMessagesErr messageErrors.

Definition NewVerificationError (key : string) (errType : VerificationErrorType) : error :=
  VerificationErr key errType.

Definition ErrInvalidValueType (key : string) (value : option Value) : error :=
  if String.eqb key "" then Opaque ("value (" +:+ fmt_v value +:+ ") has invalid type")
  else Opaque ("value (" +:+ fmt_v value +:+ ") has invalid type for key: " +:+ key).

Definition ErrInvalidMetadataType (key : string) : error :=
  if String.eqb key "" then Opaque "metadata has invalid type"
  else Opaque ("metadata has invalid type for key: " +:+ key).

(** ** Keys, values and descriptors *)

Definition KeySelector := string -> bool.

Record KeyValuePair := MkKeyValuePair { kvp_Key : string; kvp_Value : option Value }.

Record KVWithMetadata := MkKVWithMetadata {
  kvm_Key : string;
  kvm_Value : option Value;
  kvm_Metadata : option Metadata;
  kvm_Origin : ValueOrigin
}.

Record AnyOfDependency := MkAnyOf {
  anyof_KeyPrefixes : list string;
  anyof_KeySelector : option KeySelector
}.

Record Dependency := MkDependency {
  dep_Label : string;
  dep_Key : string;
  dep_AnyOf : AnyOfDependency
}.

(** A descriptor: the callbacks are code of the southbound plugins.  [Create],
    [Delete], [Update] and [Retrieve] act on the world, the southbound plane and
    the fields of the descriptors, the others are functions of their arguments. *)
Record KVDescriptor := MkDescriptor {
  d_Name : string;
  d_KeySelector : KeySelector;
  d_KeyLabel : option (string -> string);
  d_NBKeyPrefix : string;
  d_ValueComparator : option (string -> option Value -> option Value -> bool);
  d_WithMetadata : bool;
  d_MetadataMapFactory : option Mapping;
  d_Validate : option (string -> option Value -> option error);
  d_Create : option (string -> option Value -> World -> (option Metadata * option error) * World);
  d_Delete : option (string -> option Value -> option Metadata -> World -> option error * World);
  d_Update : option (string -> option Value -> option Value -> option Metadata -> World ->
                     (option Metadata * option error) * World);
  d_UpdateWithRecreate : option (string -> option Value -> option Value -> option Metadata -> bool);
  d_Retrieve : option (list KVWithMetadata -> World -> (list KVWithMetadata * option error) * World);
  d_IsRetriableFailure : option (error -> bool);
  d_DerivedValues : option (string -> option Value -> list KeyValuePair);
  d_Dependencies : option (string -> option Value -> list Dependency);
  d_RetrieveDependencies : list string
}.

Record RecordedProtoMessage := MkRecordedMsg { rpm_Message : Value; rpm_ProtoMsgName : string }.

(** The result for a nil message is a nil pointer. *)
Definition RecordProtoMessage (msg : option Value) : option RecordedProtoMessage :=
  (fun v => MkRecordedMsg v (proto_MessageName v)) <$> msg.
End errors.

(** ** Properties *)

(** the transaction options do not interfere: each [With...] function sets
    exactly its own option, the later value replaces the earlier one, and all
    the options read from the context otherwise stay as they were. *)
Theorem txn_options_independent (ctx : Context_) :
  let o := read_options ctx in
  (forall t v, read_options (WithResync ctx t v) =
     MkTxnOptions (t, v) (opt_nonBlocking o) (opt_retry o) (opt_revert o) (opt_description o) (opt_simulation o))
  /\ read_options (WithoutBlocking ctx) =
     MkTxnOptions (opt_resync o) true (opt_retry o) (opt_revert o) (opt_description o) (opt_simulation o)
  /\ (forall p m b, read_options (WithRetry ctx p m b) =
     MkTxnOptions (opt_resync o) (opt_nonBlocking o) (Some (MkRetryOpt p m b)) (opt_revert o)
       (opt_description o) (opt_simulation o))
  /\ (forall m, read_options (WithRetryMaxCount ctx m) = read_options (WithRetry ctx DefaultRetryPeriod m true))
  /\ read_options (WithRetryDefault ctx) = read_options (WithRetryMaxCount ctx 3)
  /\ read_options (WithRevert ctx) =
     MkTxnOptions (opt_resync o) (opt_nonBlocking o) (opt_retry o) true (opt_description o) (opt_simulation o)
  /\ (forall d, read_options (WithDescription ctx d) =
     MkTxnOptions (opt_resync o) (opt_nonBlocking o) (opt_retry o) (opt_revert o) (d, true) (opt_simulation o))
  /\ read_options (WithSimulation ctx) =
     MkTxnOptions (opt_resync o) (opt_nonBlocking o) (opt_retry o) (opt_revert o) (opt_description o) true.
Proof. by split_and!. Qed.
