(* ===== verification/Registry.v ===== *)
(** * The registry of descriptors

    [plugins/kvscheduler/internal/registry]: the map of descriptors, the list
    ordered by retrieve dependencies and the bounded cache from keys to the
    descriptors that handle them. *)
From S2P Require Import Prelude KeySet Deps Monad Api.

Section registry.
Context {X : Ext} {MO : MapOrder}.

Definition maxKeyCacheSize : nat := 500.

Record cacheEntry := MkCacheEntry { ce_key : string; ce_descriptor : KVDescriptor }.

(** The elements of the doubly linked list carry an identity, which is what
    [keyToCacheEntry] points to. *)
Record registry := MkRegistry {
  reg_descriptors : gmap string KVDescriptor;
  reg_descriptorList : list KVDescriptor;
  reg_upToDateDescList : bool;
  reg_keyToCacheEntry : gmap string nat;
  reg_keyCache : list (nat * cacheEntry);
  reg_nextElem : nat
}.

Definition NewRegistry : registry := MkRegistry ∅ [] false ∅ [] 0.

Definition RegisterDescriptor (descriptor : KVDescriptor) (reg : registry) : registry :=
  MkRegistry (<[d_Name descriptor := descriptor]> (reg_descriptors reg)) (reg_descriptorList reg)
    false (reg_keyToCacheEntry reg) (reg_keyCache reg) (reg_nextElem reg).

(** The retrieve dependencies of the registered descriptors. *)
Definition retrieve_deps (reg : registry) : gmap string KeySet :=
  (fun d => NewMapBasedKeySet (d_RetrieveDependencies d)) <$> reg_descriptors reg.

Definition desc_names (reg : registry) : KeySet :=
  NewMapBasedKeySet (map_order (dom (reg_descriptors reg))).

Definition GetAllDescriptors : M registry (list KVDescriptor) := fun reg =>
  if reg_upToDateDescList reg then Ok (reg_descriptorList reg, reg)
  else
    orderedNames ← TopologicalOrder (desc_names reg) (retrieve_deps reg) true false;
    let descriptorList := omap (fun descName => reg_descriptors reg !! descName) orderedNames in
    Ok (descriptorList,
        MkRegistry (reg_descriptors reg) descriptorList true (reg_keyToCacheEntry reg)
          (reg_keyCache reg) (reg_nextElem reg)).

Definition GetDescriptor (name : string) (reg : registry) : option KVDescriptor :=
  reg_descriptors reg !! name.

(** [list.MoveToFront] and [list.Remove] of the element with identity [id]. *)
Definition remove_elem (id : nat) (l : list (nat * cacheEntry)) : list (nat * cacheEntry) :=
  filter (fun e => e.1 <> id) l.
Definition find_elem (id : nat) (l : list (nat * cacheEntry)) : option cacheEntry :=
  p ← list_find (fun e => e.1 = id) l; Some p.2.2.

(** Make room: the last used key is removed when the cache is full. *)
Definition evict (reg : registry) : registry :=
  if length (reg_keyCache reg) =? maxKeyCacheSize then
    match last (reg_keyCache reg) with
    | None => reg
    | Some (id, toRemove) =>
        MkRegistry (reg_descriptors reg) (reg_descriptorList reg) (reg_upToDateDescList reg)
          (delete (ce_key toRemove) (reg_keyToCacheEntry reg))
          (remove_elem id (reg_keyCache reg)) (reg_nextElem reg)
    end
  else reg.

(** The loop that looks for the descriptor of a key. *)
Fixpoint find_descriptor (key : string) (names : list string) (descs : gmap string KVDescriptor)
    (keyDescriptor : option KVDescriptor) : outcome (option KVDescriptor) :=
  match names with
  | [] => Ok keyDescriptor
  | n :: names =>
      match descs !! n with
      | None => find_descriptor key names descs keyDescriptor
      | Some descriptor =>
          if d_KeySelector descriptor key then
            match keyDescriptor with
            | Some kd => Panic ("key " +:+ key +:+ " is selected by both " +:+ d_Name kd
                +:+ " and " +:+ d_Name descriptor +:+ " descriptors")
            | None => find_descriptor key names descs (Some descriptor)
            end
          else find_descriptor key names descs keyDescriptor
      end
  end.

Definition GetDescriptorForKey (key : string) : M registry (option KVDescriptor) := fun reg =>
  match reg_keyToCacheEntry reg !! key with
  | Some id =>
      match find_elem id (reg_keyCache reg) with
      | None => Panic "dangling cache element"
      | Some entry =>
          Ok (Some (ce_descriptor entry),
              MkRegistry (reg_descriptors reg) (reg_descriptorList reg) (reg_upToDateDescList reg)
                (reg_keyToCacheEntry reg) ((id, entry) :: remove_elem id (reg_keyCache reg))
                (reg_nextElem reg))
      end
  | None =>
      let reg := evict reg in
      keyDescriptor ← find_descriptor key (map_order (dom (reg_descriptors reg)))
                        (reg_descriptors reg) None;
      match keyDescriptor with
      | None => Ok (None, reg)
      | Some d =>
          let id := reg_nextElem reg in
          Ok (Some d,
              MkRegistry (reg_descriptors reg) (reg_descriptorList reg) (reg_upToDateDescList reg)
                (<[key := id]> (reg_keyToCacheEntry reg))
                ((id, MkCacheEntry key d) :: reg_keyCache reg) (S id))
      end
  end.

(** ** Specification *)

(** [d] is registered and selects the key. *)
Definition selects (reg : registry) (key : string) (d : KVDescriptor) : Prop :=
  exists n, reg_descriptors reg !! n = Some d /\ d_KeySelector d key = true.

(** Descriptors are registered under their names and no key is selected twice. *)
Record reg_disjoint (reg : registry) : Prop := {
  rd_names n d : reg_descriptors reg !! n = Some d -> d_Name d = n;
  rd_unique key n1 n2 d1 d2 :
    reg_descriptors reg !! n1 = Some d1 -> reg_descriptors reg !! n2 = Some d2 ->
    d_KeySelector d1 key = true -> d_KeySelector d2 key = true -> n1 = n2
}.

(** The cache: the map and the list describe the same bounded set of entries,
    each of which is correct. *)
Record cache_ok (reg : registry) : Prop := {
  co_nodup : NoDup (reg_keyCache reg).*1;
  co_fresh id e : (id, e) ∈ reg_keyCache reg -> id < reg_nextElem reg;
  co_map key id : reg_keyToCacheEntry reg !! key = Some id <->
    exists e, (id, e) ∈ reg_keyCache reg /\ ce_key e = key;
  co_bound : length (reg_keyCache reg) <= maxKeyCacheSize;
  co_correct id e : (id, e) ∈ reg_keyCache reg -> selects reg (ce_key e) (ce_descriptor e)
}.

Lemma elem_fst_inj (l : list (nat * cacheEntry)) id e1 e2 :
  NoDup l.*1 -> (id, e1) ∈ l -> (id, e2) ∈ l -> e1 = e2.
Proof.
  intros Hnd [i Hi]%list_elem_of_lookup [j Hj]%list_elem_of_lookup.
  assert (i = j) as ->; [|congruence].
  eapply NoDup_lookup; [done|..]; by rewrite list_lookup_fmap, ?Hi, ?Hj.
Qed.

Lemma find_elem_spec id l e : NoDup l.*1 -> (id, e) ∈ l -> find_elem id l = Some e.
Proof.
  intros Hnd Hin. unfold find_elem.
  destruct (list_find (fun e => e.1 = id) l) as [[i [id' e']]|] eqn:E; simpl.
  - apply list_find_Some in E as (Hl & Hid & _); simpl in Hid; subst id'.
    apply list_elem_of_lookup_2 in Hl. f_equal. by eapply elem_fst_inj.
  - exfalso. apply list_find_None in E. rewrite Forall_forall in E. by apply (E _ Hin).
Qed.

Lemma elem_of_remove_elem id l p : p ∈ remove_elem id l <-> p.1 <> id /\ p ∈ l.
Proof. unfold remove_elem. by rewrite list_elem_of_filter. Qed.

Lemma remove_elem_fst_NoDup id l : NoDup l.*1 -> NoDup (remove_elem id l).*1.
Proof.
  intros Hnd. unfold remove_elem. induction l as [|p l IH]; [done|].
  apply NoDup_cons in Hnd as [Hp Hnd]. rewrite filter_cons. case_decide; simpl; [|by apply IH].
  apply NoDup_cons. split; [|by apply IH]. intros (q & Hq & [_ Hin]%list_elem_of_filter)%list_elem_of_fmap.
  apply Hp, list_elem_of_fmap. by exists q.
Qed.

Lemma length_remove_elem id e l : NoDup l.*1 -> (id, e) ∈ l -> S (length (remove_elem id l)) = length l.
Proof.
  unfold remove_elem. induction l as [|p l IH]; intros Hnd Hin; [by apply not_elem_of_nil in Hin|].
  apply NoDup_cons in Hnd as [Hp Hnd]. rewrite filter_cons.
  apply elem_of_cons in Hin as [<-|Hin]; simpl.
  - rewrite decide_False by (intros H; by apply H). f_equal. f_equal. apply filter_all.
    intros q Hq Heq. apply Hp. simpl. rewrite <- Heq. by apply list_elem_of_fmap_2.
  - rewrite decide_True; simpl; [by rewrite IH|].
    intros <-. apply Hp. by apply (list_elem_of_fmap_2 fst) in Hin.
Qed.

Lemma find_descriptor_spec reg key names acc :
  NoDup names -> reg_disjoint reg ->
  (forall d, acc = Some d -> exists n, n ∉ names /\ reg_descriptors reg !! n = Some d
     /\ d_KeySelector d key = true) ->
  exists r, find_descriptor key names (reg_descriptors reg) acc = Ok r /\
    (forall d, r = Some d -> selects reg key d) /\
    (r = None -> acc = None /\ forall n d, n ∈ names -> reg_descriptors reg !! n = Some d ->
       d_KeySelector d key = false).
Proof.
  intros Hnd [Hn Hu]. revert acc Hnd.
  induction names as [|n names IH]; intros acc Hnd Hacc; cbn [find_descriptor].
  { exists acc. split; [done|]. split; [|intros ->; split; [done|]; by intros ? ? ?%not_elem_of_nil].
    intros d Hd. destruct (Hacc d Hd) as (m & _ & ? & ?). by exists m. }
  apply NoDup_cons in Hnd as [Hni Hnd].
  assert (forall m d, acc = Some d -> m ∉ n :: names -> m ∉ names) as Hsub
    by (intros m d _ Hm Hin; apply Hm; by right).
  destruct (reg_descriptors reg !! n) as [d|] eqn:Ed.
  - destruct (d_KeySelector d key) eqn:Es.
    + destruct acc as [d0|].
      { exfalso. destruct (Hacc d0 eq_refl) as (m & Hm & Hl & Hs).
        apply Hm. rewrite (Hu key m n d0 d Hl Ed Hs Es). by left. }
      destruct (IH (Some d) Hnd) as (r & Er & H1 & H2).
      { intros d' [= <-]. by exists n. }
      exists r. split; [done|]. split; [done|]. intros Hr. by destruct (H2 Hr).
    + destruct (IH acc Hnd) as (r & Er & H1 & H2).
      { intros d' Hd'. destruct (Hacc d' Hd') as (m & Hm & ? & ?). exists m. split; [|done]. eauto. }
      exists r. split; [done|]. split; [done|]. intros Hr. destruct (H2 Hr) as [H3 H4].
      split; [done|]. intros m d' [->|Hm]%elem_of_cons Hl; [congruence|by eapply H4].
  - destruct (IH acc Hnd) as (r & Er & H1 & H2).
    { intros d' Hd'. destruct (Hacc d' Hd') as (m & Hm & ? & ?). exists m. split; [|done]. eauto. }
    exists r. split; [done|]. split; [done|]. intros Hr. destruct (H2 Hr) as [H3 H4].
    split; [done|]. intros m d' [->|Hm]%elem_of_cons Hl; [congruence|by eapply H4].
Qed.

Lemma evict_ok reg : cache_ok reg ->
  cache_ok (evict reg) /\ reg_descriptors (evict reg) = reg_descriptors reg
  /\ length (reg_keyCache (evict reg)) < maxKeyCacheSize
  /\ forall key, reg_keyToCacheEntry reg !! key = None -> reg_keyToCacheEntry (evict reg) !! key = None.
Proof.
  intros Hok. pose proof Hok as [Hnd Hfr Hm Hb Hc]. unfold evict.
  destruct (Nat.eqb_spec (length (reg_keyCache reg)) maxKeyCacheSize) as [He|He].
  2: { split_and!; [done..|lia|done]. }
  destruct (last (reg_keyCache reg)) as [[id e]|] eqn:El.
  2: { apply last_None in El. rewrite El in He. done. }
  assert ((id, e) ∈ reg_keyCache reg) as Hin.
  { apply last_Some in El as [l' ->]. apply elem_of_app. right. by left. }
  pose proof (length_remove_elem id e _ Hnd Hin) as Hlen.
  split_and!; [split|done|simpl; lia|].
  - by apply remove_elem_fst_NoDup.
  - intros id' e' [_ H]%elem_of_remove_elem. by eapply Hfr.
  - intros key id'; simpl. rewrite lookup_delete_Some, Hm.
    split.
    + intros (Hne & e' & Hin' & Hk). exists e'. split; [|done]. apply elem_of_remove_elem.
      split; [|done]. simpl. intros ->. apply Hne.
      rewrite <- Hk. f_equal. by eapply elem_fst_inj.
    + intros (e' & [Hne Hin']%elem_of_remove_elem & Hk). split; [|by exists e'].
      intros Heq. apply Hne. simpl.
      assert (reg_keyToCacheEntry reg !! key = Some id') as H1 by (apply Hm; by exists e').
      assert (reg_keyToCacheEntry reg !! key = Some id) as H2 by (apply Hm; by exists e). congruence.
  - simpl. lia.
  - intros id' e' [_ H]%elem_of_remove_elem. exact (Hc _ _ H).
  - intros key Hk; simpl. by apply lookup_delete_None; right.
Qed.

Lemma selects_unique reg key d1 d2 :
  reg_disjoint reg -> selects reg key d1 -> selects reg key d2 -> d1 = d2.
Proof.
  intros [_ Hu] (n1 & H1 & S1) (n2 & H2 & S2). assert (n1 = n2) as -> by (by eapply Hu). congruence.
Qed.

(** The result of a lookup and what it leaves behind. *)
Lemma GetDescriptorForKey_ok reg key :
  reg_disjoint reg -> cache_ok reg ->
  exists r reg', GetDescriptorForKey key reg = Ok (r, reg')
    /\ (forall d, r = Some d <-> selects reg key d)
    /\ cache_ok reg' /\ reg_descriptors reg' = reg_descriptors reg.
Proof.
  intros Hd Hok. pose proof Hok as [Hnd Hfr Hm Hb Hc]. unfold GetDescriptorForKey.
  destruct (reg_keyToCacheEntry reg !! key) as [id|] eqn:Ek.
  - destruct (proj1 (Hm key id) Ek) as (e & Hin & Hke).
    rewrite (find_elem_spec id _ e Hnd Hin). eexists _, _. split; [done|].
    pose proof (Hc _ _ Hin) as Hsel. rewrite Hke in Hsel.
    pose proof (length_remove_elem id e _ Hnd Hin) as Hlen. split_and!; [|split|done]; simpl.
    + intros d. split; [by intros [= <-]|]. intros Hd'. f_equal. by eapply selects_unique.
    + apply NoDup_cons. split; [|by apply remove_elem_fst_NoDup].
      by intros (q & -> & [? _]%elem_of_remove_elem)%list_elem_of_fmap.
    + intros id' e' [[= -> ->]|[_ H]%elem_of_remove_elem]%elem_of_cons; by eapply Hfr.
    + intros k id'. rewrite Hm. split; intros (e' & Hin' & Hk'); exists e'; (split; [|done]).
      * destruct (decide (id' = id)) as [->|Hne];
          [rewrite (elem_fst_inj _ _ _ _ Hnd Hin' Hin); by left|].
        right. by apply elem_of_remove_elem.
      * by apply elem_of_cons in Hin' as [[= -> ->]|[_ H]%elem_of_remove_elem].
    + lia.
    + intros id' e' [[= -> ->]|[_ H]%elem_of_remove_elem]%elem_of_cons; by eapply Hc.
  - destruct (evict_ok reg Hok) as (Hok' & Hds & Hlt & Hnone). set (reg1 := evict reg) in *.
    assert (reg_disjoint reg1) as Hd1 by (split; rewrite Hds; apply Hd).
    destruct (find_descriptor_spec reg1 key (map_order (dom (reg_descriptors reg1))) None)
      as (r & -> & H1 & H2); [apply NoDup_map_order|done|done|]. simpl.
    assert (forall d, r = Some d <-> selects reg key d) as Hr.
    { intros d. unfold selects. rewrite <- Hds. split; [apply H1|]. intros Hs.
      destruct r as [d'|]; [f_equal; eapply selects_unique; eauto|].
      exfalso. destruct (H2 eq_refl) as [_ H3]. destruct Hs as (n & Hn & Hk).
      rewrite (H3 n d) in Hk; [done| |done]. apply elem_of_map_order, elem_of_dom. by exists d. }
    destruct r as [d|]; eexists _, _; (split; [done|]); (split; [done|]); [|by split].
    split; [|done]. destruct Hok' as [Hnd1 Hfr1 Hm1 Hb1 Hc1]. split; simpl.
    + apply NoDup_cons. split; [|done]. intros ([id' e'] & Hid & Hin)%list_elem_of_fmap.
      simpl in Hid. subst id'. apply Hfr1 in Hin. lia.
    + intros id' e' [[= -> ->]|H]%elem_of_cons; [lia|]. apply Hfr1 in H. lia.
    + intros k id'. destruct (decide (k = key)) as [->|Hne].
      * rewrite lookup_insert_eq. split.
        -- intros [= <-]. eexists. split; [by left|done].
        -- intros (e' & [[= -> ->]|Hin]%elem_of_cons & Hk'); [done|]. exfalso.
           assert (reg_keyToCacheEntry reg1 !! key = Some id') as Hs by (apply Hm1; by exists e').
           by rewrite Hnone in Hs.
      * rewrite lookup_insert_ne by done. rewrite Hm1. split; intros (e' & Hin & Hk').
        -- exists e'. split; [by right|done].
        -- exists e'. split; [|done]. apply elem_of_cons in Hin as [[= -> ->]|Hin]; [|done].
           by simpl in Hk'.
    + lia.
    + intros id' e' [[= -> ->]|H]%elem_of_cons; [|exact (Hc1 _ _ H)]. simpl.
      destruct (proj1 (Hr d) eq_refl) as (n & Hn & Hs). exists n. simpl. by rewrite Hds.
Qed.

Lemma selects_insert reg d key d' :
  reg_descriptors reg !! d_Name d = None -> selects reg key d' ->
  selects (RegisterDescriptor d reg) key d'.
Proof.
  intros Hf (n & Hn & Hs). exists n. split; [|done]. simpl.
  rewrite lookup_insert_ne; [done|]. intros <-. congruence.
Qed.

Lemma RegisterDescriptor_cache_ok reg d :
  reg_descriptors reg !! d_Name d = None -> cache_ok reg -> cache_ok (RegisterDescriptor d reg).
Proof.
  intros Hf [Hnd Hfr Hm Hb Hc]. split; [done..|]. intros id e Hin.
  apply selects_insert; [done|]. by eapply Hc.
Qed.

Lemma GetAllDescriptors_frame reg l reg' :
  GetAllDescriptors reg = Ok (l, reg') ->
  reg_descriptors reg' = reg_descriptors reg /\ (cache_ok reg -> cache_ok reg').
Proof.
  unfold GetAllDescriptors. destruct (reg_upToDateDescList reg).
  { intros [= <- <-]. done. }
  rewrite outcome_bind_Ok. intros (names & _ & [= _ <-]). split; [done|]. by intros [].
Qed.

(** The list of all descriptors, as the caller sees it. *)
Definition listed (reg : registry) : outcome (list KVDescriptor) := r ← GetAllDescriptors reg; Ok r.1.

Lemma listed_fields reg reg' :
  reg_descriptors reg' = reg_descriptors reg -> reg_descriptorList reg' = reg_descriptorList reg ->
  reg_upToDateDescList reg' = reg_upToDateDescList reg -> listed reg' = listed reg.
Proof.
  intros E1 E2 E3. unfold listed, GetAllDescriptors, desc_names, retrieve_deps. rewrite E1, E2, E3.
  destruct (reg_upToDateDescList reg); [done|]. by destruct (TopologicalOrder _ _ _ _).
Qed.

Lemma GetAllDescriptors_listed reg l reg' : GetAllDescriptors reg = Ok (l, reg') -> listed reg' = listed reg.
Proof.
  intros E. unfold listed. rewrite E. revert E. unfold GetAllDescriptors.
  destruct (reg_upToDateDescList reg) eqn:Eu; [intros [= <- <-]; by rewrite Eu|].
  rewrite outcome_bind_Ok. by intros (names & _ & [= <- <-]).
Qed.

Lemma evict_listed reg : listed (evict reg) = listed reg.
Proof.
  unfold evict. destruct (_ =? _); [|done]. destruct (last (reg_keyCache reg)) as [[]|]; [|done].
  by apply listed_fields.
Qed.

Lemma GetDescriptorForKey_listed key reg r reg' :
  GetDescriptorForKey key reg = Ok (r, reg') -> listed reg' = listed reg.
Proof.
  unfold GetDescriptorForKey. destruct (reg_keyToCacheEntry reg !! key) as [id|].
  { destruct (find_elem _ _); [|done]. intros [= _ <-]. by apply listed_fields. }
  rewrite outcome_bind_Ok, <- (evict_listed reg). intros ([d|] & _ & [= _ <-]); [|done].
  by apply listed_fields.
Qed.

(** The registry as the scheduler uses it: a new descriptor must not reuse a
    name, and the descriptors must keep their key spaces apart. *)
Inductive reg_step : registry -> registry -> Prop :=
  | step_register d reg :
      reg_descriptors reg !! d_Name d = None -> reg_disjoint (RegisterDescriptor d reg) ->
      reg_step reg (RegisterDescriptor d reg)
  | step_lookup key r reg reg' : GetDescriptorForKey key reg = Ok (r, reg') -> reg_step reg reg'
  | step_all l reg reg' : GetAllDescriptors reg = Ok (l, reg') -> reg_step reg reg'.

Lemma reg_disjoint_descs reg reg' :
  reg_descriptors reg' = reg_descriptors reg -> reg_disjoint reg -> reg_disjoint reg'.
Proof. intros He [H1 H2]. split; rewrite He; done. Qed.

Lemma reg_reachable_inv reg :
  rtc reg_step NewRegistry reg -> reg_disjoint reg /\ cache_ok reg.
Proof.
  intros H. cut (forall r0, reg_disjoint r0 /\ cache_ok r0 -> rtc reg_step r0 reg ->
    reg_disjoint reg /\ cache_ok reg).
  { intros Hc. apply (Hc NewRegistry); [|done]. split; split; simpl.
    - intros n d. by rewrite lookup_empty.
    - intros key n1 n2 d1 d2. by rewrite lookup_empty.
    - constructor.
    - by intros id e ?%not_elem_of_nil.
    - intros key id. rewrite lookup_empty. split; [done|]. by intros (? & ?%not_elem_of_nil & _).
    - unfold maxKeyCacheSize. lia.
    - by intros id e ?%not_elem_of_nil. }
  clear H. intros r0 H0 Hr. induction Hr as [r|r1 r2 r3 Hs Hr IH]; [done|]. apply IH. clear IH Hr.
  destruct H0 as [Hd Hc]. destruct Hs as [d r1 Hf Hdis|key r r1 r2 E|l r1 r2 E].
  - split; [done|]. by apply RegisterDescriptor_cache_ok.
  - destruct (GetDescriptorForKey_ok r1 key Hd Hc) as (r' & reg' & E' & _ & Hc' & Hds).
    rewrite E in E'. injection E' as -> ->. split; [by eapply reg_disjoint_descs|done].
  - destruct (GetAllDescriptors_frame _ _ _ E) as [Hds Hc'].
    split; [by eapply reg_disjoint_descs|auto].
Qed.

(** ** Properties *)

(** C40: in every state the registry can reach, a lookup by key returns exactly
    the registered descriptor that selects the key (or none), from the cache or
    not, keeps the registered descriptors, and leaves at most 500 cached keys. *)
Theorem registry_lookup_correct (reg : registry) (key : string) :
  rtc reg_step NewRegistry reg ->
  exists r reg', GetDescriptorForKey key reg = Ok (r, reg')
    /\ (forall d, r = Some d <-> selects reg key d)
    /\ reg_descriptors reg' = reg_descriptors reg
    /\ length (reg_keyCache reg') <= 500 /\ rtc reg_step NewRegistry reg'.
Proof.
  intros Hr. destruct (reg_reachable_inv reg Hr) as [Hd Hc].
  destruct (GetDescriptorForKey_ok reg key Hd Hc) as (r & reg' & E & H1 & H2 & H3).
  exists r, reg'. split_and!; [done..|apply H2|].
  eapply rtc_r; [exact Hr|]. by eapply step_lookup.
Qed.

Lemma elem_of_desc_names reg k : k ∈ ks_elems (desc_names reg) <-> k ∈ dom (reg_descriptors reg).
Proof.
  unfold desc_names. rewrite (proj2 (NewMapBasedKeySet_spec _)), elem_of_list_to_set.
  apply elem_of_map_order.
Qed.

Lemma retrieve_deps_ok reg : deps_ok (retrieve_deps reg).
Proof.
  intros n d. unfold retrieve_deps. rewrite lookup_fmap. intros (d' & _ & ->)%fmap_Some.
  split; [apply NewMapBasedKeySet_spec|exact id].
Qed.

Lemma omap_lookup_names (m : gmap string KVDescriptor) (l : list string) :
  (forall n d, m !! n = Some d -> d_Name d = n) -> (forall n, n ∈ l -> is_Some (m !! n)) ->
  d_Name <$> omap (fun n => m !! n) l = l.
Proof.
  intros Hn. induction l as [|n l IH]; intros Hs; [done|]. simpl.
  destruct (Hs n) as [d Hd]; [by left|]. rewrite Hd. simpl. rewrite (Hn n d Hd). f_equal.
  apply IH. intros m' Hm'. apply Hs. by right.
Qed.

(** when the retrieve dependencies of the registered descriptors are acyclic,
    the list of all descriptors contains each of them once and every descriptor
    comes after those whose values its Retrieve needs; the list is cached and
    returned unchanged until the next registration. *)
Theorem retrieve_order (reg : registry) :
  reg_disjoint reg -> reg_upToDateDescList reg = false ->
  acyclic_on (retrieve_deps reg) (dom (reg_descriptors reg)) ->
  exists l reg', GetAllDescriptors reg = Ok (l, reg')
    /\ d_Name <$> l ≡ₚ elements (dom (reg_descriptors reg))
    /\ (forall d, d ∈ l <-> reg_descriptors reg !! d_Name d = Some d)
    /\ (forall i j d1 d2, l !! i = Some d1 -> l !! j = Some d2 ->
          d_Name d2 ∈ d_RetrieveDependencies d1 -> j < i)
    /\ GetAllDescriptors reg' = Ok (l, reg').
Proof.
  intros [Hn _] Hup Hac. unfold GetAllDescriptors. rewrite Hup.
  assert (ks_elems (desc_names reg) = dom (reg_descriptors reg)) as Hdom.
  { apply set_eq. intros k. apply elem_of_desc_names. }
  destruct (TopologicalOrder_spec (desc_names reg) (retrieve_deps reg) true false)
    as [(names & E & Ht)|(_ & _ & R' & Hs & Hne & Hns)].
  - split; [apply NewMapBasedKeySet_spec|exact id].
  - apply retrieve_deps_ok.
  - rewrite Hdom. unfold retrieve_deps. by rewrite dom_fmap_L.
  - done.
  - rewrite E; simpl. eexists _, _. split; [done|].
    pose proof (Topo_perm _ _ _ _ _ Ht) as Hp. rewrite Hdom in Hp.
    pose proof (Topo_respects _ _ _ _ _ Ht ltac:(by rewrite Hdom)) as Hres.
    assert (forall n, n ∈ names -> is_Some (reg_descriptors reg !! n)) as Hin.
    { intros n Hnn. rewrite Hp, elem_of_elements in Hnn. by apply elem_of_dom. }
    pose proof (omap_lookup_names _ names Hn Hin) as Hnames.
    set (l := omap _ names) in *. split_and!; [by rewrite Hnames| | |done].
    + intros d. unfold l. rewrite list_elem_of_omap. split.
      * intros (n & _ & Hd). by rewrite (Hn n d Hd).
      * intros Hd. exists (d_Name d). split; [|done]. rewrite Hp, elem_of_elements.
        apply elem_of_dom. by exists d.
    + intros i j d1 d2 Hi Hj Hdep.
      assert (names !! i = Some (d_Name d1)) as Hi' by (by rewrite <- Hnames, list_lookup_fmap, Hi).
      assert (names !! j = Some (d_Name d2)) as Hj' by (by rewrite <- Hnames, list_lookup_fmap, Hj).
      apply (Hres i j (d_Name d1) (d_Name d2) Hi' Hj').
      assert (reg_descriptors reg !! d_Name d1 = Some d1) as Hd1.
      { apply list_elem_of_lookup_2 in Hi. unfold l in Hi. apply list_elem_of_omap in Hi as (n & _ & Hd).
        by rewrite (Hn n d1 Hd). }
      exists (NewMapBasedKeySet (d_RetrieveDependencies d1)). split.
      * unfold retrieve_deps. by rewrite lookup_fmap, Hd1.
      * rewrite (proj2 (NewMapBasedKeySet_spec _)). by apply elem_of_list_to_set.
  - exfalso. apply set_choose_L in Hne as [x0 Hx0].
    destruct (no_source_cycle _ _ R' x0 Hx0 Hns) as (x & _ & Htc).
    rewrite Hdom in Hs. by apply (acyclic_subset _ _ _ Hs Hac x).
Qed.
End registry.

(** ** Witnesses *)

(** A trivial instance of the code outside the repository. *)
Definition unit_ext : Ext := {|
  Value := string; proto_Equal := fun a b => bool_decide (a = b);
  proto_MessageName := fun _ => "msg"; fmt_v := fun v => default "<nil>" v;
  Metadata := nat; DeepEqual := fun a b => bool_decide (a = b);
  Mapping := list (string * nat); nm_New := [];
  nm_Put := fun m k v => (k, v) :: m;
  nm_Delete := fun m k => filter (fun p => p.1 <> k) m;
  nm_Update := fun m k v => match v with Some v => (k, v) :: filter (fun p => p.1 <> k) m | None => m end;
  nm_GetValue := fun m k => p ← list_find (fun p => p.1 = k) m; Some p.2.2;
  nm_ListFields := fun _ _ => [];
  World := list string; netns_escaped := fun _ => false; clock_reading := fun n => Z.of_nat n;
  ext_runtime := doubling
|}.

Definition demo_descriptor (name prefix : string) (deps : list string) : KVDescriptor (X:=unit_ext) :=
  MkDescriptor (X:=unit_ext) name (String.prefix prefix) None prefix None true None None None None None None
    None None None None deps.

Definition demo_registry : registry (X:=unit_ext) :=
  RegisterDescriptor (demo_descriptor "route" "route/" ["iface"; "vrf"])
    (RegisterDescriptor (demo_descriptor "iface" "if/" []) NewRegistry).

Lemma demo_prefixes key :
  String.prefix "route/" key = true -> String.prefix "if/" key = true -> False.
Proof.
  destruct key as [|c key]; [discriminate|]. intros Hr Hi.
  assert (c = Ascii.ascii_of_nat 114) as ->.
  { cbn [String.prefix] in Hr. match type of Hr with context [Ascii.ascii_dec ?a c] =>
      destruct (Ascii.ascii_dec a c) as [<-|]; [reflexivity|discriminate Hr] end. }
  discriminate Hi.
Defined.

Lemma demo_registry_disjoint : reg_disjoint demo_registry.
Proof.
  split.
  - intros n d. simpl. rewrite !lookup_insert_Some, lookup_empty. naive_solver.
  - intros key n1 n2 d1 d2. simpl. rewrite !lookup_insert_Some, lookup_empty.
    intros [[<- <-]|[_ [[<- <-]|[_ [=]]]]] [[<- <-]|[_ [[<- <-]|[_ [=]]]]]; simpl; intros Ha Hb;
      [reflexivity| | |reflexivity]; exfalso; by eapply (demo_prefixes key).
Defined.

Lemma demo_iface_disjoint :
  reg_disjoint (RegisterDescriptor (demo_descriptor "iface" "if/" []) NewRegistry).
Proof.
  split.
  - intros n d. simpl. rewrite !lookup_insert_Some, lookup_empty. naive_solver.
  - intros key n1 n2 d1 d2. simpl. rewrite !lookup_insert_Some, lookup_empty.
    by intros [[<- <-]|[_ [=]]] [[<- <-]|[_ [=]]].
Defined.

Lemma demo_registry_reachable : rtc (reg_step (MO:=elements_order)) NewRegistry demo_registry.
Proof.
  eapply rtc_l; [eapply (step_register (MO:=elements_order) (demo_descriptor "iface" "if/" []));
    [reflexivity|exact demo_iface_disjoint]|].
  apply rtc_once. apply (step_register (MO:=elements_order)); [reflexivity|exact demo_registry_disjoint].
Defined.

Example registry_lookup_correct_witness :
  exists r reg', GetDescriptorForKey (MO:=elements_order) "if/eth0" demo_registry = Ok (r, reg')
    /\ (d_Name <$> r) = Some "iface" /\ length (reg_keyCache reg') <= 500.
Proof.
  destruct (registry_lookup_correct (MO:=elements_order) demo_registry "if/eth0" demo_registry_reachable)
    as (r & reg' & E & Hr & _ & Hl & _).
  exists r, reg'. split; [exact E|]. split; [|exact Hl].
  rewrite (proj2 (Hr (demo_descriptor "iface" "if/" []))); [reflexivity|].
  exists "iface". split; reflexivity.
Defined.

Example retrieve_order_witness :
  exists l reg', GetAllDescriptors (MO:=elements_order) demo_registry = Ok (l, reg')
    /\ d_Name <$> l = ["iface"; "route"]
    /\ GetAllDescriptors (MO:=elements_order) reg' = Ok (l, reg').
Proof.
  destruct (retrieve_order (MO:=elements_order) demo_registry demo_registry_disjoint) as
    (l & reg' & E & _ & _ & _ & E').
  - reflexivity.
  - apply (acyclic_rank _ _ (fun x => if decide (x = "route") then 1 else 0)).
    apply (bool_decide_unpack _). vm_compute. exact I.
  - exists l, reg'. split; [exact E|]. split; [|exact E'].
    apply (f_equal (fun o => match o with Ok p => d_Name <$> p.1 | _ => [] end)) in E.
    vm_compute in E. symmetry. exact E.
Defined.
