(* ===== verification/EdgeLookup.v ===== *)
(** * The edge lookup

    [plugins/kvscheduler/internal/graph/edge_lookup.go]: node keys and edges in
    arrays with lazily removed cells, indexed by sorted arrays of offsets; an overlay
    keeps the memory of its slices, with their capacities. *)
From S2P Require Import Prelude.

(** ** Arrays with lazily removed cells

    The first and the last loop of [gcNodeKeys] and [gcEdges] are the same code
    over [nodeKey] and [edge].  The compaction is done in place by the code; it
    writes a cell only after it has been read. *)
Section lazy_array.
Context {T : Type} (removed : T -> bool) (set_dec : nat -> T -> T) (get_dec : T -> nat).

(** For each cell determine by how much its offset will decrease. *)
Fixpoint mark_dec (decOffset : nat) (data : list T) : list T :=
  match data with
  | [] => []
  | x :: data =>
      if removed x then x :: mark_dec (S decOffset) data
      else set_dec decOffset x :: mark_dec decOffset data
  end.

(** Drop the offsets of removed cells and decrease the others. *)
Fixpoint gc_offsets (data : list T) (offsets : list nat) : list nat :=
  match offsets with
  | [] => []
  | o :: offsets =>
      match data !! o with
      | Some x => if removed x then gc_offsets data offsets
                  else (o - get_dec x) :: gc_offsets data offsets
      | None => gc_offsets data offsets
      end
  end.

Fixpoint gc_data (data : list T) : list T :=
  match data with
  | [] => []
  | x :: data => if removed x then gc_data data else x :: gc_data data
  end.
End lazy_array.

(** [append(offsets, -1)], shift right and store. *)
Definition insert_offset (idx offset : nat) (offsets : list nat) : list nat :=
  let o := offsets ++ [0] in
  <[idx := offset]> (if idx <? length o - 1 then go_copy (idx + 1) idx o else o).

(** ** Data *)

Record nodeKey := MkNodeKey { nk_key : string; nk_removed : bool; nk_decOffset : nat }.

Record edge := MkEdge {
  e_targetKey : string;
  e_isPrefix : bool;
  e_sourceNode : string;
  e_relation : string;
  e_label : string;
  e_removed : bool;
  e_decOffset : nat
}.

(** The capacities of the slices.  That of [dirDepthBounds] is left out: nothing
    that can fail depends on it. *)
Record elCaps := MkCaps {
  cap_nodeKeyData : N;
  cap_nodeKeyOffset : N;
  cap_edgeData : N;
  cap_edgeOffset : N
}.

Record edgeLookup := MkEdgeLookup {
  el_nodeKeyData : list nodeKey;
  el_nodeKeyOffset : list nat;
  el_nodeKeyMap : gmap string bool;
  el_removedNodes : nat;
  el_edgeData : list edge;
  el_edgeOffset : list nat;
  el_removedEdges : nat;
  el_dirDepthBounds : list nat;
  (** For an overlay, the [nodeKeyMap] of the lookup underneath. *)
  el_underlay : option (gmap string bool);
  el_caps : elCaps;
  (** The memory of [el.overlay], once there is one; between two uses nothing else
      of it matters. *)
  el_overlay : option elCaps
}.

Definition initNodeKeysCap : N := 1000.
Definition initEdgesCap : N := 10000.

Definition newEdgeLookup : edgeLookup :=
  MkEdgeLookup [] [] ∅ 0 [] [] 0 [] None
    (MkCaps initNodeKeysCap initNodeKeysCap initEdgesCap initEdgesCap) None.

(** The sizes of the elements, in bytes, on a 64-bit machine. *)
Definition nodeKey_size : N := 32.
Definition edge_size : N := 88.
Definition int_size : N := 8.

(** [resizeNodeKeys] and [resizeEdges], the capacities of the data and of the
    offsets: those of the data decide whether new memory is taken for both; slicing
    beyond a capacity panics. *)
Definition resize (data offset : N) (size : nat) : outcome (N * N) :=
  let size := N.of_nat size in
  let '(data, offset) := if (data <? size)%N then (size, size) else (data, offset) in
  if (size <=? data)%N && (size <=? offset)%N then Ok (data, offset) else Panic "slice bounds out of range".

Definition resize_both (caps : elCaps) (nodeKeys edges : nat) : outcome elCaps :=
  n ← resize (cap_nodeKeyData caps) (cap_nodeKeyOffset caps) nodeKeys;
  e ← resize (cap_edgeData caps) (cap_edgeOffset caps) edges;
  Ok (MkCaps n.1 n.2 e.1 e.2).

Definition set_caps (caps : elCaps) (overlay : option elCaps) (el : edgeLookup) : edgeLookup :=
  MkEdgeLookup (el_nodeKeyData el) (el_nodeKeyOffset el) (el_nodeKeyMap el) (el_removedNodes el)
    (el_edgeData el) (el_edgeOffset el) (el_removedEdges el) (el_dirDepthBounds el) (el_underlay el)
    caps overlay.

(** The memory of the overlay, which is made when there is none yet. *)
Definition overlay_caps (el : edgeLookup) : elCaps :=
  let max_len {A} (l : list A) (init : N) := N.max (N.of_nat (length l)) init in
  default (MkCaps (max_len (el_nodeKeyData el) initNodeKeysCap) (max_len (el_nodeKeyOffset el) initNodeKeysCap)
    (max_len (el_edgeData el) initEdgesCap) (max_len (el_edgeOffset el) initEdgesCap)) (el_overlay el).

(** [makeOverlay] copies the arrays and starts with an empty [nodeKeyMap].  Data and
    offsets have the same length (the garbage collection panics otherwise), to
    which the copies are sized. *)
Definition makeOverlay (el : edgeLookup) : outcome edgeLookup :=
  caps ← resize_both (overlay_caps el) (length (el_nodeKeyOffset el)) (length (el_edgeOffset el));
  Ok (MkEdgeLookup (el_nodeKeyData el) (el_nodeKeyOffset el) ∅ (el_removedNodes el)
    (el_edgeData el) (el_edgeOffset el) (el_removedEdges el) (el_dirDepthBounds el)
    (Some (el_nodeKeyMap el)) caps None).

(** Replay the remembered operations on the map underneath. *)
Definition save_map (over under : gmap string bool) : gmap string bool :=
  merge (fun o u => match o with Some true => Some true | Some false => None | None => u end)
    over under.

(** [saveOverlay]: the underlay after the overlay has been written to it. *)
Definition saveOverlay (el underlay : edgeLookup) : outcome edgeLookup :=
  caps ← resize_both (el_caps underlay) (length (el_nodeKeyOffset el)) (length (el_edgeOffset el));
  Ok (MkEdgeLookup (el_nodeKeyData el) (el_nodeKeyOffset el)
    (save_map (el_nodeKeyMap el) (el_nodeKeyMap underlay)) (el_removedNodes el)
    (el_edgeData el) (el_edgeOffset el) (el_removedEdges el) (el_dirDepthBounds el)
    (el_underlay underlay) caps (el_overlay underlay)).

(** The overlay after it was saved: its [nodeKeyMap] is cleared. *)
Definition saved_overlay (el saved : edgeLookup) : edgeLookup :=
  MkEdgeLookup (el_nodeKeyData el) (el_nodeKeyOffset el) ∅ (el_removedNodes el)
    (el_edgeData el) (el_edgeOffset el) (el_removedEdges el) (el_dirDepthBounds el)
    (Some (el_nodeKeyMap saved)) (el_caps el) (el_overlay el).

(** ** Paths *)

Definition dirSeparator : Ascii.ascii := Ascii.ascii_of_nat 47.
Definition is_sep (c : Ascii.ascii) : bool := Ascii.eqb c dirSeparator.

Fixpoint trim_leading (s : string) : string :=
  match s with
  | "" => ""
  | String c s' => if is_sep c then trim_leading s' else s
  end.

Fixpoint trim_trailing (s : string) : string :=
  match s with
  | "" => ""
  | String c s' =>
      let t := trim_trailing s' in
      if is_sep c && String.eqb t "" then "" else String c t
  end.

Definition trimTrailingDirSep (s : string) : string := trim_trailing (trim_leading s).

(** [strings.Count(s, dirSeparator)]. *)
Fixpoint count_sep (s : string) : nat :=
  match s with
  | "" => 0
  | String c s => (if is_sep c then 1 else 0) + count_sep s
  end.

Definition getDirDepth (s : string) : nat :=
  (if String.eqb s "" then 0 else 1) + count_sep s.

(** ** Node keys *)

Definition nk_set_removed (b : bool) (k : nodeKey) : nodeKey :=
  MkNodeKey (nk_key k) b (nk_decOffset k).
Definition nk_set_dec (n : nat) (k : nodeKey) : nodeKey := MkNodeKey (nk_key k) (nk_removed k) n.
Definition nk_zero : nodeKey := MkNodeKey "" false 0.

(** [el.nodeKeyData[el.nodeKeyOffset[i]]]. *)
Definition nk_at (el : edgeLookup) (i : nat) : nodeKey :=
  nth (nth i (el_nodeKeyOffset el) 0) (el_nodeKeyData el) nk_zero.

Definition nodeKeyIdx (el : edgeLookup) (key : string) : nat :=
  sort_search (length (el_nodeKeyOffset el)) (fun i => String.leb key (nk_key (nk_at el i))).

(** An append may need more capacity. *)
Definition with_nodeKeys {RT : Runtime} (el : edgeLookup) data offsets map_ removed : edgeLookup :=
  MkEdgeLookup data offsets map_ removed (el_edgeData el) (el_edgeOffset el)
    (el_removedEdges el) (el_dirDepthBounds el) (el_underlay el)
    (MkCaps (cap_for nodeKey_size (cap_nodeKeyData (el_caps el)) (length data))
       (cap_for int_size (cap_nodeKeyOffset (el_caps el)) (length offsets))
       (cap_edgeData (el_caps el)) (cap_edgeOffset (el_caps el)))
    (el_overlay el).

Definition addNodeKey {RT : Runtime} (el : edgeLookup) (key : string) : edgeLookup :=
  let map' := <[key := true]> (el_nodeKeyMap el) in
  let idx := nodeKeyIdx el key in
  let offset := nth idx (el_nodeKeyOffset el) 0 in
  if (idx <? length (el_nodeKeyOffset el)) && String.eqb (nk_key (nk_at el idx)) key then
    if nk_removed (nk_at el idx) then
      with_nodeKeys el (alter (nk_set_removed false) offset (el_nodeKeyData el))
        (el_nodeKeyOffset el) map' (el_removedNodes el - 1)
    else with_nodeKeys el (el_nodeKeyData el) (el_nodeKeyOffset el) map' (el_removedNodes el)
  else
    with_nodeKeys el (el_nodeKeyData el ++ [MkNodeKey key false 0])
      (insert_offset idx (length (el_nodeKeyData el)) (el_nodeKeyOffset el)) map'
      (el_removedNodes el).

Definition gcNodeKeys {RT : Runtime} (el : edgeLookup) : edgeLookup :=
  let data := mark_dec nk_removed nk_set_dec 0 (el_nodeKeyData el) in
  with_nodeKeys el (gc_data nk_removed data)
    (gc_offsets nk_removed nk_decOffset data (el_nodeKeyOffset el)) (el_nodeKeyMap el) 0.

Definition delNodeKey {RT : Runtime} (el : edgeLookup) (key : string) : edgeLookup :=
  let map' := match el_underlay el with
    | Some _ => <[key := false]> (el_nodeKeyMap el)
    | None => delete key (el_nodeKeyMap el)
    end in
  let idx := nodeKeyIdx el key in
  let offset := nth idx (el_nodeKeyOffset el) 0 in
  let el' := with_nodeKeys el (el_nodeKeyData el) (el_nodeKeyOffset el) map' (el_removedNodes el) in
  if (idx <? length (el_nodeKeyOffset el)) && String.eqb (nk_key (nk_at el idx)) key
     && negb (nk_removed (nk_at el idx)) then
    let el2 := with_nodeKeys el' (alter (nk_set_removed true) offset (el_nodeKeyData el))
                 (el_nodeKeyOffset el) map' (S (el_removedNodes el)) in
    if length (el_nodeKeyData el) / 2 <? el_removedNodes el2 then gcNodeKeys el2 else el2
  else el'.

(** The loop of [iterTargets] over the keys with a prefix. *)
Fixpoint iter_prefix (fuel : nat) (el : edgeLookup) (prefix : string) (i : nat) : list string :=
  match fuel with
  | O => []
  | S fuel =>
      if i <? length (el_nodeKeyOffset el) then
        if nk_removed (nk_at el i) then iter_prefix fuel el prefix (i + 1)
        else if String.prefix prefix (nk_key (nk_at el i)) then
          nk_key (nk_at el i) :: iter_prefix fuel el prefix (i + 1)
        else []
      else []
  end.

(** [iterTargets]: the keys the callback is called with, in order. *)
Definition iterTargets (el : edgeLookup) (key : string) (isPrefix : bool) : list string :=
  if String.eqb key "" && isPrefix then
    nk_key <$> gc_data nk_removed (el_nodeKeyData el)
  else if negb isPrefix then
    match el_nodeKeyMap el !! key, el_underlay el with
    | Some added, _ => if (added : bool) then [key] else []
    | None, None => []
    | None, Some under => if bool_decide (is_Some (under !! key)) then [key] else []
    end
  else
    iter_prefix (length (el_nodeKeyOffset el)) el key (nodeKeyIdx el key).

(** ** Edges *)

Definition e_set_removed (b : bool) (e : edge) : edge :=
  MkEdge (e_targetKey e) (e_isPrefix e) (e_sourceNode e) (e_relation e) (e_label e) b (e_decOffset e).
Definition e_set_dec (n : nat) (e : edge) : edge :=
  MkEdge (e_targetKey e) (e_isPrefix e) (e_sourceNode e) (e_relation e) (e_label e) (e_removed e) n.
Definition e_set_targetKey (k : string) (e : edge) : edge :=
  MkEdge k (e_isPrefix e) (e_sourceNode e) (e_relation e) (e_label e) (e_removed e) (e_decOffset e).
Definition e_zero : edge := MkEdge "" false "" "" "" false 0.

(** [compare] returns whether the edges are equal and their order. *)
Definition compare (e e2 : edge) : bool * Z :=
  if String.ltb (e_targetKey e) (e_targetKey e2) then (false, (-1)%Z)
  else if String.ltb (e_targetKey e2) (e_targetKey e) then (false, 1%Z)
  else if negb (Bool.eqb (e_isPrefix e) (e_isPrefix e2)) then
    if negb (e_isPrefix e) then (false, (-1)%Z) else (false, 1%Z)
  else if String.ltb (e_sourceNode e) (e_sourceNode e2) then (false, (-1)%Z)
  else if String.ltb (e_sourceNode e2) (e_sourceNode e) then (false, 1%Z)
  else if String.ltb (e_relation e) (e_relation e2) then (false, (-1)%Z)
  else if String.ltb (e_relation e2) (e_relation e) then (false, 1%Z)
  else if String.ltb (e_label e) (e_label e2) then (false, (-1)%Z)
  else if String.ltb (e_label e2) (e_label e) then (false, 1%Z)
  else (true, 0%Z).

Definition e_at (el : edgeLookup) (i : nat) : edge :=
  nth (nth i (el_edgeOffset el) 0) (el_edgeData el) e_zero.

Definition getDirDepthBounds (el : edgeLookup) (dirDepth : nat) : nat * nat :=
  (if dirDepth <? length (el_dirDepthBounds el) then nth dirDepth (el_dirDepthBounds el) 0
   else length (el_edgeOffset el),
   if dirDepth + 1 <? length (el_dirDepthBounds el) then nth (dirDepth + 1) (el_dirDepthBounds el) 0
   else length (el_edgeOffset el)).

Definition edgeIdx (el : edgeLookup) (e : edge) (dirDepth : nat) : nat :=
  let '(begin_, end_) := getDirDepthBounds el dirDepth in
  if begin_ =? end_ then begin_
  else begin_ + sort_search (end_ - begin_) (fun i => (snd (compare e (e_at el (begin_ + i))) <=? 0)%Z).

Definition with_edges {RT : Runtime} (el : edgeLookup) data offsets removed bounds : edgeLookup :=
  MkEdgeLookup (el_nodeKeyData el) (el_nodeKeyOffset el) (el_nodeKeyMap el) (el_removedNodes el)
    data offsets removed bounds (el_underlay el)
    (MkCaps (cap_nodeKeyData (el_caps el)) (cap_nodeKeyOffset (el_caps el))
       (cap_for edge_size (cap_edgeData (el_caps el)) (length data))
       (cap_for int_size (cap_edgeOffset (el_caps el)) (length offsets)))
    (el_overlay el).

(** The directory boundaries after an insertion at depth [dirDepth]. *)
Definition add_bounds (bounds : list nat) (dirDepth len : nat) : list nat :=
  imap (fun i b => if dirDepth <? i then S b else b) bounds
  ++ replicate (S dirDepth - length bounds) (len - 1).

Definition addEdge {RT : Runtime} (el : edgeLookup) (e : edge) : edgeLookup :=
  let e := e_set_targetKey (trimTrailingDirSep (e_targetKey e)) e in
  let dirDepth := getDirDepth (e_targetKey e) in
  let idx := edgeIdx el e dirDepth in
  let offset := nth idx (el_edgeOffset el) 0 in
  if (idx <? length (el_edgeOffset el)) && (compare e (e_at el idx)).1 then
    if e_removed (e_at el idx) then
      with_edges el (alter (e_set_removed false) offset (el_edgeData el)) (el_edgeOffset el)
        (el_removedEdges el - 1) (el_dirDepthBounds el)
    else el
  else
    let offsets := insert_offset idx (length (el_edgeData el)) (el_edgeOffset el) in
    with_edges el (el_edgeData el ++ [e_set_removed false e]) offsets (el_removedEdges el)
      (add_bounds (el_dirDepthBounds el) dirDepth (length offsets)).

(** The second loop of [gcEdges]: the offsets of each directory depth in turn. *)
Fixpoint gc_depths (data : list edge) (offsets : list nat) (bounds : list nat)
    (next : nat) : list nat * list nat :=
  match bounds with
  | [] => ([], [])
  | cur :: bounds =>
      let nextBound := match bounds with [] => length offsets | b :: _ => b end in
      let kept := gc_offsets e_removed e_decOffset data (take (nextBound - cur) (drop cur offsets)) in
      let '(bounds', offsets') := gc_depths data offsets bounds (next + length kept) in
      (next :: bounds', kept ++ offsets')
  end.

(** The last loop of [gcEdges]: drop the bounds of depths without edges. *)
Fixpoint trim_bounds (len : nat) (bounds : list nat) : list nat :=
  match bounds with
  | [] => []
  | b :: bounds =>
      match trim_bounds len bounds with
      | [] => if b <? len then [b] else []
      | bs => b :: bs
      end
  end.

Definition gcEdges {RT : Runtime} (el : edgeLookup) : edgeLookup :=
  let data := mark_dec e_removed e_set_dec 0 (el_edgeData el) in
  let '(bounds, offsets) := gc_depths data (el_edgeOffset el) (el_dirDepthBounds el) 0 in
  with_edges el (gc_data e_removed data) offsets 0 (trim_bounds (length offsets) bounds).

Definition delEdge {RT : Runtime} (el : edgeLookup) (e : edge) : edgeLookup :=
  let e := e_set_targetKey (trimTrailingDirSep (e_targetKey e)) e in
  let dirDepth := getDirDepth (e_targetKey e) in
  let idx := edgeIdx el e dirDepth in
  let offset := nth idx (el_edgeOffset el) 0 in
  if (idx <? length (el_edgeOffset el)) && (compare e (e_at el idx)).1
     && negb (e_removed (e_at el idx)) then
    let el2 := with_edges el (alter (e_set_removed true) offset (el_edgeData el)) (el_edgeOffset el)
                 (S (el_removedEdges el)) (el_dirDepthBounds el) in
    if length (el_edgeData el) / 2 <? el_removedEdges el2 then gcEdges el2 else el2
  else el.

(** The inner loop of [iterSources]. *)
Fixpoint iter_sources_at (fuel : nat) (el : edgeLookup) (target : string) (prefix : bool)
    (j end_ : nat) : list (string * string * string) :=
  match fuel with
  | O => []
  | S fuel =>
      if j <? end_ then
        let e := e_at el j in
        if negb (String.eqb (e_targetKey e) target) then []
        else if prefix && negb (e_isPrefix e) then iter_sources_at fuel el target prefix (j + 1) end_
        else if e_removed e then iter_sources_at fuel el target prefix (j + 1) end_
        else (e_sourceNode e, e_relation e, e_label e)
               :: iter_sources_at fuel el target prefix (j + 1) end_
      else []
  end.

(** One visited position: [pre] is [targetKey[:i]]. *)
Definition iter_sources_pos (el : edgeLookup) (pre : string) (prefix : bool) (dirDepth : nat) :
    list (string * string * string) :=
  let idx := edgeIdx el (e_set_targetKey pre e_zero) dirDepth in
  let end_ := (getDirDepthBounds el dirDepth).2 in
  iter_sources_at (end_ - idx) el pre prefix idx end_.

(** The loop over the positions of the target key: [pre] is what precedes the
    position and [rest] what follows it. *)
Fixpoint iter_sources_loop (el : edgeLookup) (pre rest : string) (dirDepth : nat) :
    list (string * string * string) :=
  match rest with
  | "" => iter_sources_pos el pre false dirDepth
  | String c rest' =>
      if String.eqb pre "" || is_sep c then
        iter_sources_pos el pre true dirDepth
          ++ iter_sources_loop el (pre +:+ String c "") rest' (dirDepth + 1)
      else iter_sources_loop el (pre +:+ String c "") rest' dirDepth
  end.

(** [iterSources]: the (source, relation, label) triples of the callback. *)
Definition iterSources (el : edgeLookup) (targetKey : string) : list (string * string * string) :=
  iter_sources_loop el "" (trimTrailingDirSep targetKey) 0.
