(* ===== verification/LazyArray.v ===== *)
(** * Sorted arrays with lazily removed cells

    The reasoning behind edge_lookup.go, shared by node keys and edges: an
    array of cells, an array of offsets that orders them by key, removed cells
    that stay until the garbage collection. *)
From S2P Require Import Prelude EdgeLookup.

(** What the lookup needs from its cells. *)
Class LazyCell (T K : Type) := {
  lc_key : T -> K;
  lc_removed : T -> bool;
  lc_set_removed : bool -> T -> T;
  lc_set_dec : nat -> T -> T;
  lc_get_dec : T -> nat;
  lc_key_set_removed b x : lc_key (lc_set_removed b x) = lc_key x;
  lc_removed_set_removed b x : lc_removed (lc_set_removed b x) = b;
  lc_key_set_dec n x : lc_key (lc_set_dec n x) = lc_key x;
  lc_removed_set_dec n x : lc_removed (lc_set_dec n x) = lc_removed x;
  lc_get_set_dec n x : lc_get_dec (lc_set_dec n x) = n
}.

Section lazy.
Context {T K : Type} `{!LazyCell T K} `{!EqDecision K} (cmp : K -> K -> comparison) `{!CmpOrd cmp}.
Context (zero : T).

Definition alive (x : T) : Prop := lc_removed x = false.
#[local] Instance alive_dec x : Decision (alive x).
Proof. unfold alive. apply _. Defined.

Lemma filter_alive_cons x l :
  filter alive (x :: l) = if lc_removed x then filter alive l else x :: filter alive l.
Proof.
  rewrite filter_cons. destruct (decide (alive x)) as [H|H]; unfold alive in H.
  - by rewrite H.
  - by rewrite (not_false_is_true _ H).
Qed.

Lemma filter_removed_cons x l :
  filter (fun x => ~ alive x) (x :: l)
  = if lc_removed x then x :: filter (fun x => ~ alive x) l else filter (fun x => ~ alive x) l.
Proof.
  rewrite filter_cons. destruct (decide (alive x)) as [H|H]; unfold alive in H.
  - rewrite decide_False by (intros Hn; by apply Hn). by rewrite H.
  - rewrite decide_True by done. by rewrite (not_false_is_true _ H).
Qed.

(** The cells in the order of the offsets. *)
Definition view (data : list T) (offs : list nat) : list T := (fun o => nth o data zero) <$> offs.

Record offs_ok (data : list T) (offs : list nat) : Prop := {
  oo_nodup : NoDup offs;
  oo_length : length offs = length data;
  oo_range : forall o, o ∈ offs -> o < length data
}.

Record arr_ok (data : list T) (offs : list nat) (nremoved : nat) : Prop := {
  ao_offs : offs_ok data offs;
  ao_sorted : ssorted cmp (lc_key <$> view data offs);
  ao_removed : nremoved = length (filter (fun x => ~ alive x) (view data offs))
}.

(** The keys of the cells that are not removed, in order. *)
Definition live (data : list T) (offs : list nat) : list K :=
  lc_key <$> filter alive (view data offs).

Lemma length_view data offs : length (view data offs) = length offs.
Proof. unfold view. by rewrite length_fmap. Qed.

Lemma view_lookup data offs i :
  offs_ok data offs -> i < length offs ->
  view data offs !! i = Some (nth (nth i offs 0) data zero)
  /\ data !! (nth i offs 0) = Some (nth (nth i offs 0) data zero).
Proof.
  intros [_ _ Hr] Hi. destruct (lookup_lt_is_Some_2 offs i Hi) as [o Ho].
  assert (o < length data) as Hlt by (apply Hr; by eapply list_elem_of_lookup_2).
  rewrite (nth_lookup_Some offs i 0 o Ho). unfold view. rewrite list_lookup_fmap, Ho; simpl.
  split; [done|]. destruct (lookup_lt_is_Some_2 data o Hlt) as [x Hx].
  by rewrite Hx, (nth_lookup_Some _ _ _ _ Hx).
Qed.

Lemma insert_offset_eq idx off (offs : list nat) :
  idx <= length offs -> insert_offset idx off offs = take idx offs ++ off :: drop idx offs.
Proof.
  intros Hi. unfold insert_offset. rewrite length_app; simpl.
  replace (length offs + 1 - 1) with (length offs) by lia.
  pose proof (go_copy_insert (offs ++ [0]) (length offs) idx off) as H.
  rewrite take_app_length in H. rewrite <- H; [|rewrite length_app; simpl; lia|done].
  rewrite take_ge; [done|]. rewrite length_insert.
  destruct (idx <? length offs); [rewrite length_go_copy|]; rewrite length_app; simpl; lia.
Qed.

Lemma view_take data offs n : view data (take n offs) = take n (view data offs).
Proof. unfold view. by rewrite fmap_take. Qed.
Lemma view_drop data offs n : view data (drop n offs) = drop n (view data offs).
Proof. unfold view. by rewrite fmap_drop. Qed.

Lemma view_app_data data x offs :
  (forall o, o ∈ offs -> o < length data) -> view (data ++ [x]) offs = view data offs.
Proof.
  intros Hr. unfold view. apply list_fmap_ext. intros i o Ho. rewrite app_nth1; [done|].
  apply Hr. by eapply list_elem_of_lookup_2.
Qed.

Lemma view_insert data offs idx x :
  offs_ok data offs -> idx <= length offs ->
  offs_ok (data ++ [x]) (insert_offset idx (length data) offs)
  /\ view (data ++ [x]) (insert_offset idx (length data) offs)
     = take idx (view data offs) ++ x :: drop idx (view data offs).
Proof.
  intros [Hnd Hl Hr] Hi. rewrite insert_offset_eq by done. split.
  - assert (take idx offs ++ length data :: drop idx offs ≡ₚ length data :: offs) as Hp.
    { rewrite <- Permutation_middle. by rewrite take_drop. }
    split.
    + rewrite Hp. apply NoDup_cons. split; [|done]. intros Hin%Hr. lia.
    + rewrite Hp, length_app; simpl. lia.
    + intros o. rewrite Hp, length_app. intros [->|Hin%Hr]%elem_of_cons; simpl; lia.
  - unfold view at 1. rewrite fmap_app, fmap_cons.
    change (view (data ++ [x]) (take idx offs)
      ++ nth (length data) (data ++ [x]) zero :: view (data ++ [x]) (drop idx offs)
      = take idx (view data offs) ++ x :: drop idx (view data offs)).
    rewrite !view_app_data, view_take, view_drop.
    + f_equal. f_equal. rewrite app_nth2 by lia. by rewrite Nat.sub_diag.
    + intros o Ho. apply Hr. rewrite <- (take_drop idx offs). apply elem_of_app. by right.
    + intros o Ho. apply Hr. rewrite <- (take_drop idx offs). apply elem_of_app. by left.
Qed.

Lemma view_alter f data offs i :
  offs_ok data offs -> i < length offs ->
  offs_ok (alter f (nth i offs 0) data) offs
  /\ view (alter f (nth i offs 0) data) offs = alter f i (view data offs).
Proof.
  intros Hok Hi. pose proof Hok as [Hnd Hl Hr]. split.
  { split; [done| |]; rewrite length_alter; done. }
  destruct (lookup_lt_is_Some_2 offs i Hi) as [o Ho].
  rewrite (nth_lookup_Some offs i 0 o Ho).
  apply list_eq. intros j. destruct (decide (j < length offs)) as [Hj|Hj].
  2: { rewrite !lookup_ge_None_2; [done|rewrite length_alter|]; rewrite length_view; lia. }
  destruct (lookup_lt_is_Some_2 offs j Hj) as [p Hp].
  assert (p < length data) as Hlt by (apply Hr; by eapply list_elem_of_lookup_2).
  destruct (lookup_lt_is_Some_2 data p Hlt) as [x Hx].
  assert (view data offs !! j = Some x) as Hv.
  { unfold view. rewrite list_lookup_fmap, Hp; simpl. by rewrite (nth_lookup_Some _ _ _ _ Hx). }
  unfold view at 1. rewrite list_lookup_fmap, Hp; simpl. destruct (decide (i = j)) as [<-|Hij].
  - simplify_eq. rewrite list_lookup_alter_eq, Hv; simpl. f_equal.
    apply nth_lookup_Some. by rewrite list_lookup_alter_eq, Hx.
  - rewrite list_lookup_alter_ne by done. rewrite Hv. f_equal. apply nth_lookup_Some.
    rewrite list_lookup_alter_ne; [done|]. intros ->. apply Hij. by eapply NoDup_lookup.
Qed.

(** ** Garbage collection *)

Definition cnt (data : list T) (o : nat) : nat := length (filter (fun x => ~ alive x) (take o data)).

Lemma cnt_S x data o : cnt (x :: data) (S o) = (if lc_removed x then 1 else 0) + cnt data o.
Proof.
  unfold cnt. simpl. rewrite filter_removed_cons. by destruct (lc_removed x).
Qed.

Lemma cnt_le data o : cnt data o <= o.
Proof.
  unfold cnt. etrans; [apply length_filter|]. rewrite length_take. lia.
Qed.

Lemma mark_dec_lookup data : forall d o,
  mark_dec lc_removed lc_set_dec d data !! o
  = (fun x => if lc_removed x then x else lc_set_dec (d + cnt data o) x) <$> data !! o.
Proof.
  induction data as [|x data IH]; intros d o; [done|]. simpl. destruct (lc_removed x) eqn:E.
  - destruct o as [|o]; simpl; [by rewrite E|]. rewrite IH. f_equal.
    by rewrite cnt_S, E, Nat.add_succ_l, <- Nat.add_succ_r.
  - destruct o as [|o]; simpl; [unfold cnt; by rewrite E, Nat.add_0_r|]. rewrite IH.
    by rewrite cnt_S, E.
Qed.

Lemma length_mark_dec d data : length (mark_dec lc_removed lc_set_dec d data) = length data.
Proof. revert d. induction data as [|x data IH]; intros d; simpl; [done|]. case_match; simpl; by rewrite IH. Qed.

Lemma removed_marked d data o x :
  mark_dec lc_removed lc_set_dec d data !! o = Some x -> 
  exists y, data !! o = Some y /\ lc_removed x = lc_removed y /\ lc_key x = lc_key y
    /\ (lc_removed y = false -> x = lc_set_dec (d + cnt data o) y).
Proof.
  rewrite mark_dec_lookup. intros (y & Hy & ->)%fmap_Some. exists y. split; [done|].
  destruct (lc_removed y) eqn:E; rewrite ?lc_removed_set_dec, ?lc_key_set_dec; done.
Qed.

Lemma gc_data_mark d data : forall o x,
  data !! o = Some x -> lc_removed x = false ->
  gc_data lc_removed (mark_dec lc_removed lc_set_dec d data) !! (o - cnt data o)
  = Some (lc_set_dec (d + cnt data o) x).
Proof.
  revert d. induction data as [|y data IH]; intros d o x Ho Hx; [done|].
  destruct o as [|o]; simpl in Ho.
  - simplify_eq. simpl. rewrite Hx. simpl. rewrite lc_removed_set_dec, Hx.
    unfold cnt; simpl. by rewrite Nat.add_0_r.
  - rewrite cnt_S. simpl. destruct (lc_removed y) eqn:E; simpl; rewrite ?lc_removed_set_dec, E.
    + rewrite (IH (S d) o x Ho Hx). f_equal. f_equal. lia.
    + pose proof (cnt_le data o). rewrite Nat.sub_succ_l by done. simpl. by apply IH.
Qed.

Lemma length_gc_data data : length (gc_data lc_removed data) = length (filter alive data).
Proof.
  induction data as [|x data IH]; [done|]. simpl. rewrite filter_alive_cons.
  destruct (lc_removed x); simpl; by rewrite IH.
Qed.

Lemma gc_data_alive data x : x ∈ gc_data lc_removed data -> lc_removed x = false.
Proof.
  induction data as [|y data IH]; simpl; [by intros ?%not_elem_of_nil|].
  destruct (lc_removed y) eqn:E; [done|]. by intros [->|?]%elem_of_cons; auto.
Qed.

Lemma cnt_mono data o1 o2 : o1 <= o2 -> o1 - cnt data o1 <= o2 - cnt data o2.
Proof.
  revert o1 o2. induction data as [|x data IH]; intros [|o1] [|o2] H; try lia.
  - unfold cnt. rewrite !take_nil, filter_nil. simpl length. lia.
  - rewrite !cnt_S. specialize (IH o1 o2 ltac:(lia)).
    pose proof (cnt_le data o1). pose proof (cnt_le data o2). destruct (lc_removed x); lia.
Qed.

Lemma cnt_strict data o1 o2 x :
  o1 < o2 -> data !! o1 = Some x -> lc_removed x = false -> o1 - cnt data o1 < o2 - cnt data o2.
Proof.
  intros Hlt Hx Hr. apply Nat.lt_le_trans with (S o1 - cnt data (S o1)); [|by apply cnt_mono].
  assert (cnt data (S o1) = cnt data o1) as ->.
  { unfold cnt. rewrite (take_S_r _ _ x Hx), filter_app, filter_removed_cons, Hr, filter_nil.
    by rewrite app_nil_r. }
  pose proof (cnt_le data o1). lia.
Qed.

(** The surviving offsets, in terms of the data before marking. *)
Lemma gc_offsets_elem d data offs o' :
  d = 0 ->
  o' ∈ gc_offsets lc_removed lc_get_dec (mark_dec lc_removed lc_set_dec d data) offs <->
  exists o x, o ∈ offs /\ data !! o = Some x /\ lc_removed x = false /\ o' = o - cnt data o.
Proof.
  intros ->. induction offs as [|o offs IH]; simpl.
  { split; [by intros ?%not_elem_of_nil|]. by intros (o & x & ?%not_elem_of_nil & _). }
  destruct (mark_dec lc_removed lc_set_dec 0 data !! o) as [x|] eqn:E.
  - destruct (removed_marked _ _ _ _ E) as (y & Hy & Hr & _ & Heq). destruct (lc_removed x) eqn:Ex.
    + rewrite IH. split; intros (p & z & Hp & Hz & H1 & H2); exists p, z.
      * split; [by right|done].
      * apply elem_of_cons in Hp as [->|Hp]; [|done]. simplify_eq. congruence.
    + rewrite elem_of_cons, IH. rewrite Heq, lc_get_set_dec by done. simpl. split.
      * intros [->|(p & z & Hp & Hz)]; [exists o, y; split_and!; [by left|done..]|].
        exists p, z. split; [by right|done].
      * intros (p & z & [->|Hp]%elem_of_cons & Hz & H1 & ->); [by left|]. right. by exists p, z.
  - rewrite IH. rewrite mark_dec_lookup, fmap_None in E.
    split; intros (p & z & Hp & Hz & H1 & H2); exists p, z.
    + split; [by right|done].
    + apply elem_of_cons in Hp as [->|Hp]; [congruence|done].
Qed.

Lemma gc_offsets_view data offs :
  (forall o, o ∈ offs -> o < length data) ->
  lc_key <$> view (gc_data lc_removed (mark_dec lc_removed lc_set_dec 0 data))
    (gc_offsets lc_removed lc_get_dec (mark_dec lc_removed lc_set_dec 0 data) offs)
  = lc_key <$> filter alive (view data offs).
Proof.
  induction offs as [|o offs IH]; intros Hr; [done|]. simpl.
  assert (o < length data) as Hlt by (apply Hr; by left).
  destruct (lookup_lt_is_Some_2 data o Hlt) as [x Hx].
  assert (forall p, p ∈ offs -> p < length data) as Hr' by (intros; apply Hr; by right).
  rewrite mark_dec_lookup, Hx; simpl.
  rewrite filter_alive_cons, (nth_lookup_Some _ _ _ _ Hx).
  destruct (lc_removed x) eqn:E; simpl; rewrite ?E, ?lc_removed_set_dec, ?E; [by apply IH|].
  simpl. rewrite lc_get_set_dec. simpl. f_equal; [|by apply IH].
  rewrite (nth_lookup_Some _ _ _ _ (gc_data_mark 0 data o x Hx E)). apply lc_key_set_dec.
Qed.

Lemma NoDup_gc_offsets data offs :
  offs_ok data offs ->
  NoDup (gc_offsets lc_removed lc_get_dec (mark_dec lc_removed lc_set_dec 0 data) offs).
Proof.
  intros [Hnd _ Hr]. revert Hnd Hr. induction offs as [|o offs IH]; intros Hnd Hr; [constructor|].
  apply NoDup_cons in Hnd as [Ho Hnd]. simpl. rewrite mark_dec_lookup.
  destruct (data !! o) as [x|] eqn:Hx; simpl; [|apply IH; [done|intros; apply Hr; by right]].
  destruct (lc_removed x) eqn:E; rewrite ?lc_removed_set_dec, ?E.
  { apply IH; [done|]. intros; apply Hr; by right. }
  rewrite lc_get_set_dec; simpl.
  apply NoDup_cons. split; [|apply IH; [done|intros; apply Hr; by right]].
  intros (p & y & Hp & Hy & Ey & Heq)%gc_offsets_elem; [|done].
  destruct (Nat.lt_trichotomy o p) as [Hlt|[->|Hlt]]; [|done|].
  - pose proof (cnt_strict data o p x Hlt Hx E). lia.
  - pose proof (cnt_strict data p o y Hlt Hy Ey). lia.
Qed.

Lemma length_gc_offsets data offs :
  (forall o, o ∈ offs -> o < length data) ->
  length (gc_offsets lc_removed lc_get_dec (mark_dec lc_removed lc_set_dec 0 data) offs)
  = length (filter alive (view data offs)).
Proof.
  intros Hok. pose proof (f_equal length (gc_offsets_view data offs Hok)) as H.
  rewrite !length_fmap in H. by rewrite length_view in H.
Qed.

(** The view is the data in another order. *)
Lemma view_perm data offs : offs_ok data offs -> view data offs ≡ₚ data.
Proof.
  intros [Hnd Hl Hr]. assert (offs ≡ₚ seq 0 (length data)) as Hp.
  { apply submseteq_length_Permutation.
    - apply NoDup_submseteq; [done|]. intros o Ho. apply elem_of_seq. specialize (Hr o Ho). lia.
    - rewrite length_seq. lia. }
  unfold view. rewrite Hp. clear Hp Hnd Hl Hr.
  assert (((fun o => nth o data zero) <$> seq 0 (length data)) = data) as ->; [|done].
  apply list_eq. intros i. rewrite list_lookup_fmap.
  destruct (decide (i < length data)) as [Hi|Hi].
  - rewrite lookup_seq_lt by done; simpl. destruct (lookup_lt_is_Some_2 data i Hi) as [x Hx].
    by rewrite Hx, (nth_lookup_Some _ _ _ _ Hx).
  - rewrite lookup_seq_ge by lia. simpl. symmetry. apply lookup_ge_None_2. lia.
Qed.

Lemma length_filter_marked d data :
  length (filter alive (mark_dec lc_removed lc_set_dec d data)) = length (filter alive data).
Proof.
  revert d. induction data as [|x data IH]; intros d; [done|]. simpl.
  destruct (lc_removed x) eqn:E; rewrite !filter_alive_cons, ?lc_removed_set_dec, !E; simpl;
    by rewrite IH.
Qed.

Lemma gc_ok data offs n :
  arr_ok data offs n ->
  let data' := mark_dec lc_removed lc_set_dec 0 data in
  let offs' := gc_offsets lc_removed lc_get_dec data' offs in
  arr_ok (gc_data lc_removed data') offs' 0
  /\ (lc_key <$> view (gc_data lc_removed data') offs') = live data offs
  /\ live (gc_data lc_removed data') offs' = live data offs.
Proof.
  intros [Hok Hs Hn]. cbv zeta. pose proof (gc_offsets_view data offs (oo_range _ _ Hok)) as Hv.
  assert (offs_ok (gc_data lc_removed (mark_dec lc_removed lc_set_dec 0 data))
    (gc_offsets lc_removed lc_get_dec (mark_dec lc_removed lc_set_dec 0 data) offs)) as Hok'.
  { split.
    - by apply NoDup_gc_offsets.
    - rewrite length_gc_offsets, length_gc_data, length_filter_marked by apply Hok.
      by rewrite (view_perm data offs Hok).
    - intros o' (o & x & Ho & Hx & E & ->)%gc_offsets_elem; [|done].
      eapply lookup_lt_Some. by apply (gc_data_mark 0). }
  assert (forall x, x ∈ view (gc_data lc_removed (mark_dec lc_removed lc_set_dec 0 data))
    (gc_offsets lc_removed lc_get_dec (mark_dec lc_removed lc_set_dec 0 data) offs) ->
    alive x) as Hal.
  { intros x Hx. rewrite (view_perm _ _ Hok') in Hx. by eapply gc_data_alive. }
  split_and!; [split; [done| |]| |].
  - rewrite Hv. by apply ssorted_fmap_filter.
  - destruct (filter _ (view (gc_data _ _) _)) as [|x l] eqn:E; [done|]. exfalso.
    assert (x ∈ x :: l) as Hx by (by left). rewrite <- E in Hx.
    apply list_elem_of_filter in Hx as [H1 H2]. by apply H1, Hal.
  - exact Hv.
  - unfold live at 1. by rewrite filter_all.
Qed.

(** ** Insertion and removal of a key *)

Lemma list_alter_middle' (f : T -> T) (l1 l2 : list T) x i :
  i = length l1 -> alter f i (l1 ++ x :: l2) = l1 ++ f x :: l2.
Proof. intros ->. induction l1 as [|y l1 IH]; [done|]. cbn. by rewrite <- IH. Qed.

(** Is the key stored at the position, removed or not? *)
Definition found (data : list T) (offs : list nat) (k : K) (idx : nat) : Prop :=
  idx < length offs /\ lc_key (nth (nth idx offs 0) data zero) = k.

Lemma found_iff data offs n k idx :
  arr_ok data offs n -> lower_bound cmp k (lc_key <$> view data offs) idx ->
  (found data offs k idx <-> k ∈ lc_key <$> view data offs).
Proof.
  intros [Hok Hs _] Hlb. rewrite (lower_bound_elem_of cmp k _ idx Hs Hlb). unfold found.
  rewrite list_lookup_fmap. split.
  - intros [Hi Hk]. rewrite (proj1 (view_lookup data offs idx Hok Hi)). simpl. by rewrite Hk.
  - intros (x & Hx & Hk)%fmap_Some. assert (idx < length offs) as Hi.
    { rewrite <- (length_view data). by eapply lookup_lt_Some. }
    split; [done|]. rewrite (proj1 (view_lookup data offs idx Hok Hi)) in Hx. by simplify_eq.
Qed.

Lemma elem_of_live data offs k :
  k ∈ live data offs <-> exists x, x ∈ view data offs /\ lc_removed x = false /\ lc_key x = k.
Proof.
  unfold live. rewrite list_elem_of_fmap. setoid_rewrite list_elem_of_filter.
  split; intros (x & H); exists x; unfold alive in *; naive_solver.
Qed.

(** Keys identify the cells of a well-formed array. *)
Lemma view_key_inj data offs n x y :
  arr_ok data offs n -> x ∈ view data offs -> y ∈ view data offs -> lc_key x = lc_key y -> x = y.
Proof.
  intros [_ Hs _] [i Hi]%list_elem_of_lookup [j Hj]%list_elem_of_lookup Hk.
  apply (ssorted_NoDup cmp) in Hs. assert (i = j) as ->; [|congruence].
  apply (NoDup_lookup _ i j (lc_key x) Hs); rewrite list_lookup_fmap, ?Hi, ?Hj; simpl; congruence.
Qed.

Lemma found_live data offs n k idx :
  arr_ok data offs n -> found data offs k idx ->
  (k ∈ live data offs <-> lc_removed (nth (nth idx offs 0) data zero) = false).
Proof.
  intros Hok [Hi Hk]. pose proof (view_lookup data offs idx (ao_offs _ _ _ Hok) Hi) as [Hv _].
  rewrite elem_of_live. split.
  - intros (x & Hx & Hr & Hkx). rewrite (view_key_inj data offs n _ x); [done|done| |done|congruence].
    by eapply list_elem_of_lookup_2.
  - intros Hr. eexists. split_and!; [by eapply list_elem_of_lookup_2|done|done].
Qed.

(** Flip the removed mark of the cell at [idx]. *)
Lemma alter_ok b data offs n k idx :
  arr_ok data offs n -> found data offs k idx ->
  lc_removed (nth (nth idx offs 0) data zero) = negb b ->
  arr_ok (alter (lc_set_removed b) (nth idx offs 0) data) offs (if b then S n else n - 1)
  /\ (lc_key <$> view (alter (lc_set_removed b) (nth idx offs 0) data) offs)
     = (lc_key <$> view data offs)
  /\ forall k', k' ∈ live (alter (lc_set_removed b) (nth idx offs 0) data) offs <->
      if b then k' ∈ live data offs /\ k' <> k else k' = k \/ k' ∈ live data offs.
Proof.
  intros Hok [Hi Hk] Hr. pose proof Hok as [Hoo Hs Hn].
  destruct (view_alter (lc_set_removed b) data offs idx Hoo Hi) as [Hoo' Hv].
  destruct (view_lookup data offs idx Hoo Hi) as [Hl _].
  set (x := nth (nth idx offs 0) data zero) in *.
  assert (view data offs = take idx (view data offs) ++ x :: drop (S idx) (view data offs)) as Hsplit.
  { symmetry. by apply take_drop_middle. }
  assert (view (alter (lc_set_removed b) (nth idx offs 0) data) offs
    = take idx (view data offs) ++ lc_set_removed b x :: drop (S idx) (view data offs)) as Hv'.
  { rewrite Hv. rewrite Hsplit at 1. rewrite list_alter_middle'; [done|].
    rewrite length_take, length_view. lia. }
  assert ((lc_key <$> view (alter (lc_set_removed b) (nth idx offs 0) data) offs)
     = (lc_key <$> view data offs)) as Hkeys.
  { transitivity (lc_key <$> (take idx (view data offs) ++ x :: drop (S idx) (view data offs))).
    - by rewrite Hv', !fmap_app, !fmap_cons, lc_key_set_removed.
    - by rewrite <- Hsplit. }
  split_and!; [split; [done| |]|done|].
  - by rewrite Hkeys.
  - pose proof (f_equal (fun v => length (filter (fun x => ~ alive x) v)) Hsplit) as Hlen.
    cbv beta in Hlen. rewrite filter_app, filter_removed_cons, length_app, Hr in Hlen.
    rewrite Hv', filter_app, filter_removed_cons, length_app, lc_removed_set_removed.
    rewrite <- Hn in Hlen. destruct b; simpl in *; lia.
  - intros k'.
    assert (forall y, y ∈ view data offs <->
      y ∈ take idx (view data offs) \/ y = x \/ y ∈ drop (S idx) (view data offs)) as Hin.
    { intros y. rewrite Hsplit at 1. by rewrite elem_of_app, elem_of_cons. }
    assert (forall y, y ∈ view (alter (lc_set_removed b) (nth idx offs 0) data) offs <->
      y ∈ take idx (view data offs) \/ y = lc_set_removed b x \/ y ∈ drop (S idx) (view data offs)) as Hin'.
    { intros y. rewrite Hv'. by rewrite elem_of_app, elem_of_cons. }
    assert (forall y, y ∈ take idx (view data offs) \/ y ∈ drop (S idx) (view data offs) -> lc_key y <> k) as Hne.
    { intros y Hy Hky. apply (ssorted_NoDup cmp) in Hs. rewrite Hsplit, fmap_app, fmap_cons in Hs.
      apply NoDup_app in Hs as (_ & H1 & [H2 _]%NoDup_cons). destruct Hy as [Hy|Hy].
      - apply (H1 (lc_key y)); [by apply list_elem_of_fmap_2|].
        apply elem_of_cons. left. congruence.
      - apply H2. rewrite Hk, <- Hky. by apply list_elem_of_fmap_2. }
    destruct b; simpl in Hr; rewrite !elem_of_live.
    + split.
      * intros (y & Hy%Hin' & Hry & Hky). split.
        { exists y. rewrite Hin. split; [|done]. destruct Hy as [?|[->|?]]; auto.
          by rewrite lc_removed_set_removed in Hry. }
        destruct Hy as [Hy|[->|Hy]]; [|by rewrite lc_removed_set_removed in Hry|];
          subst k'; apply Hne; auto.
      * intros [(y & Hy%Hin & Hry & Hky) Hne']. exists y. rewrite Hin'. split; [|done].
        destruct Hy as [?|[->|?]]; auto. congruence.
    + split.
      * intros (y & Hy%Hin' & Hry & Hky).
        destruct Hy as [Hy|[->|Hy]].
        -- right. exists y. rewrite Hin. auto.
        -- left. rewrite <- Hky, lc_key_set_removed. done.
        -- right. exists y. rewrite Hin. auto.
      * intros [->|(y & Hy%Hin & Hry & Hky)].
        { exists (lc_set_removed false x). rewrite Hin', lc_removed_set_removed, lc_key_set_removed. auto. }
        exists y. rewrite Hin'. destruct Hy as [?|[->|?]]; auto. congruence.
Qed.

Lemma insert_ok data offs n k idx x :
  arr_ok data offs n -> lower_bound cmp k (lc_key <$> view data offs) idx ->
  ~ found data offs k idx -> lc_key x = k -> lc_removed x = false ->
  arr_ok (data ++ [x]) (insert_offset idx (length data) offs) n
  /\ (lc_key <$> view (data ++ [x]) (insert_offset idx (length data) offs))
     = take idx (lc_key <$> view data offs) ++ k :: drop idx (lc_key <$> view data offs)
  /\ forall k', k' ∈ live (data ++ [x]) (insert_offset idx (length data) offs) <->
      k' = k \/ k' ∈ live data offs.
Proof.
  intros Hok Hlb Hnf Hk Hr. rewrite (found_iff data offs n k idx Hok Hlb) in Hnf.
  pose proof Hok as [Hoo Hs Hn]. assert (idx <= length offs) as Hi.
  { destruct Hlb as [H _]. by rewrite length_fmap, length_view in H. }
  destruct (view_insert data offs idx x Hoo Hi) as [Hoo' Hv].
  split_and!; [split; [done| |]| |].
  - rewrite Hv, fmap_app, fmap_cons, fmap_take, fmap_drop, Hk. by apply ssorted_insert.
  - rewrite Hv, filter_app, filter_removed_cons, Hr, <- filter_app, take_drop. done.
  - by rewrite Hv, fmap_app, fmap_cons, fmap_take, fmap_drop, Hk.
  - intros k'. rewrite !elem_of_live.
    assert (forall y, y ∈ view data offs <->
      y ∈ take idx (view data offs) \/ y ∈ drop idx (view data offs)) as Hin.
    { intros y. rewrite <- elem_of_app. by rewrite take_drop. }
    rewrite Hv. split.
    + intros (y & Hy & Hry & Hky). rewrite elem_of_app, elem_of_cons in Hy.
      destruct Hy as [Hy|[->|Hy]]; [right|left; congruence|right]; exists y; rewrite Hin; auto.
    + intros [->|(y & Hy%Hin & Hry & Hky)]; [exists x|exists y];
        rewrite elem_of_app, elem_of_cons; [auto|]. destruct Hy; auto.
Qed.
End lazy.

#[export] Existing Instance alive_dec.
