(* ===== verification/EdgeLookupFacts.v ===== *)
(** * Correctness of the edge lookup

    The arrays of [edgeLookup] represent a set of node keys and a set of edges;
    every operation acts on these sets as its name says, and the two iterators
    enumerate exactly the matching members; when making and
    saving an overlay panics, and what they leave behind. *)
From S2P Require Import Prelude EdgeLookup LazyArray.

(** ** Cells *)

#[export] Instance nodeKey_cell : LazyCell nodeKey string.
Proof.
  refine {| lc_key := nk_key; lc_removed := nk_removed; lc_set_removed := nk_set_removed;
    lc_set_dec := nk_set_dec; lc_get_dec := nk_decOffset |}; done.
Defined.

Definition edgeKey : Type := string * bool * string * string * string.

Definition ekey (e : edge) : edgeKey :=
  (e_targetKey e, e_isPrefix e, e_sourceNode e, e_relation e, e_label e).

Definition ecmp : edgeKey -> edgeKey -> comparison :=
  cmp_lex (cmp_lex (cmp_lex (cmp_lex String.compare bool_cmp) String.compare) String.compare)
    String.compare.

#[export] Instance ecmp_ord : CmpOrd ecmp.
Proof. unfold ecmp. apply _. Qed.

(** Edges are ordered by the directory depth first. *)
Definition dcmp : nat * edgeKey -> nat * edgeKey -> comparison := cmp_lex Nat.compare ecmp.

#[export] Instance dcmp_ord : CmpOrd dcmp.
Proof. unfold dcmp. apply _. Qed.

Definition dkey (e : edge) : nat * edgeKey := (getDirDepth (e_targetKey e), ekey e).

#[export] Instance edge_cell : LazyCell edge (nat * edgeKey).
Proof.
  refine {| lc_key := dkey; lc_removed := e_removed; lc_set_removed := e_set_removed;
    lc_set_dec := e_set_dec; lc_get_dec := e_decOffset |}; done.
Defined.

(** [compare] decides the lexicographic order. *)
Lemma compare_spec e e2 :
  compare e e2 = match ecmp (ekey e) (ekey e2) with
    | Lt => (false, (-1)%Z) | Eq => (true, 0%Z) | Gt => (false, 1%Z) end.
Proof.
  destruct e as [t p s r l ? ?], e2 as [t2 p2 s2 r2 l2 ? ?].
  unfold compare, ecmp, cmp_lex, ekey; simpl. unfold String.ltb.
  rewrite (String.compare_antisym t2 t), (String.compare_antisym s2 s),
    (String.compare_antisym r2 r), (String.compare_antisym l2 l).
  destruct (String.compare t t2), p, p2, (String.compare s s2), (String.compare r r2),
    (String.compare l l2); reflexivity.
Qed.

(** ** Representation *)

Definition nk_live (el : edgeLookup) : list string :=
  live nk_zero (el_nodeKeyData el) (el_nodeKeyOffset el).
Definition e_view (el : edgeLookup) : list edge :=
  view e_zero (el_edgeData el) (el_edgeOffset el).
Definition e_live (el : edgeLookup) : list (nat * edgeKey) :=
  live e_zero (el_edgeData el) (el_edgeOffset el).

(** The sets the lookup stands for. *)
Definition el_nodes (el : edgeLookup) : gset string := list_to_set (nk_live el).
Definition el_edges (el : edgeLookup) : gset edgeKey := list_to_set (snd <$> e_live el).

(** Membership of a full key, as [iterTargets] tests it. *)
Definition el_has (el : edgeLookup) (key : string) : bool :=
  match el_nodeKeyMap el !! key, el_underlay el with
  | Some added, _ => added
  | None, None => false
  | None, Some under => bool_decide (is_Some (under !! key))
  end.

Record nodes_ok (el : edgeLookup) : Prop := {
  no_arr : arr_ok String.compare nk_zero (el_nodeKeyData el) (el_nodeKeyOffset el) (el_removedNodes el);
  no_map key : el_has el key = true <-> key ∈ nk_live el;
  no_true key b : el_underlay el = None -> el_nodeKeyMap el !! key = Some b -> b = true
}.

(** The number of keys at a smaller directory depth. *)
Definition count_lt (d : nat) (l : list (nat * edgeKey)) : nat :=
  length (filter (fun k => k.1 < d) l).

Definition bounds_ok (bounds : list nat) (keys : list (nat * edgeKey)) : Prop :=
  (forall d b, bounds !! d = Some b -> b = count_lt d keys)
  /\ (forall k, k ∈ keys -> k.1 < length bounds).

Record edges_ok (el : edgeLookup) : Prop := {
  eo_arr : arr_ok dcmp e_zero (el_edgeData el) (el_edgeOffset el) (el_removedEdges el);
  eo_bounds : bounds_ok (el_dirDepthBounds el) (dkey <$> e_view el)
}.

Definition el_ok (el : edgeLookup) : Prop := nodes_ok el /\ edges_ok el.

(** ** Node keys *)

Lemma nk_view_length el : length (nk_key <$> view nk_zero (el_nodeKeyData el) (el_nodeKeyOffset el))
  = length (el_nodeKeyOffset el).
Proof. by rewrite length_fmap, length_view. Qed.

Lemma nth_nk_view el i (d : string) :
  nodes_ok el -> i < length (el_nodeKeyOffset el) ->
  nth i (nk_key <$> view nk_zero (el_nodeKeyData el) (el_nodeKeyOffset el)) d = nk_key (nk_at el i).
Proof.
  intros Hok Hi. apply nth_lookup_Some. rewrite list_lookup_fmap.
  by rewrite (proj1 (view_lookup nk_zero _ _ i (ao_offs _ _ _ _ _ (no_arr _ Hok)) Hi)).
Qed.

Lemma nodeKeyIdx_spec el key :
  nodes_ok el ->
  lower_bound String.compare key
    (nk_key <$> view nk_zero (el_nodeKeyData el) (el_nodeKeyOffset el)) (nodeKeyIdx el key).
Proof.
  intros Hok. eapply (search_post_lower_bound String.compare) with (d := "").
  - exact (ao_sorted _ _ _ _ _ (no_arr _ Hok)).
  - rewrite nk_view_length. eapply search_post_ext; [|apply sort_search_post].
    intros i Hi; simpl. by rewrite nth_nk_view.
Qed.

(** The test of the code for "the key is stored at its index". *)
Lemma nk_found el key :
  nodes_ok el ->
  ((nodeKeyIdx el key <? length (el_nodeKeyOffset el))
     && String.eqb (nk_key (nk_at el (nodeKeyIdx el key))) key = true
   <-> found nk_zero (el_nodeKeyData el) (el_nodeKeyOffset el) key (nodeKeyIdx el key)).
Proof.
  intros _. rewrite andb_true_iff, Nat.ltb_lt, String.eqb_eq. done.
Qed.

Lemma nk_found_dec el key :
  nodes_ok el ->
  ((nodeKeyIdx el key <? length (el_nodeKeyOffset el))
     && String.eqb (nk_key (nk_at el (nodeKeyIdx el key))) key = false) ->
  ~ found nk_zero (el_nodeKeyData el) (el_nodeKeyOffset el) key (nodeKeyIdx el key).
Proof. intros Hok E Hf. apply (nk_found el key Hok) in Hf. congruence. Qed.

Lemma el_has_insert el el' key k b :
  el_nodeKeyMap el' = <[key := b]> (el_nodeKeyMap el) -> el_underlay el' = el_underlay el ->
  el_has el' k = if decide (k = key) then b else el_has el k.
Proof.
  unfold el_has. intros -> ->. destruct (decide (k = key)) as [->|Hne].
  - by rewrite lookup_insert_eq.
  - by rewrite lookup_insert_ne.
Qed.

Lemma el_has_delete el el' key k :
  el_underlay el = None ->
  el_nodeKeyMap el' = delete key (el_nodeKeyMap el) -> el_underlay el' = el_underlay el ->
  el_has el' k = if decide (k = key) then false else el_has el k.
Proof.
  unfold el_has. intros Hu -> ->. rewrite Hu. destruct (decide (k = key)) as [->|Hne].
  - by rewrite lookup_delete_eq.
  - by rewrite lookup_delete_ne.
Qed.

Section operations.
Context {RT : Runtime}.

Lemma addNodeKey_map el key k : el_has (addNodeKey el key) k = true <-> k = key \/ el_has el k = true.
Proof.
  rewrite (el_has_insert el _ key _ true); [case_decide; intuition congruence|..];
    unfold addNodeKey; by repeat case_match.
Qed.

Lemma addNodeKey_ok el key :
  nodes_ok el ->
  nodes_ok (addNodeKey el key)
  /\ forall k, k ∈ nk_live (addNodeKey el key) <-> k = key \/ k ∈ nk_live el.
Proof.
  intros Hok. pose proof (nodeKeyIdx_spec el key Hok) as Hlb. pose proof Hok as [Harr Hmap Htrue].
  assert (arr_ok String.compare nk_zero (el_nodeKeyData (addNodeKey el key))
      (el_nodeKeyOffset (addNodeKey el key)) (el_removedNodes (addNodeKey el key))
    /\ forall k, k ∈ nk_live (addNodeKey el key) <-> k = key \/ k ∈ nk_live el) as [H1 H2].
  { unfold addNodeKey.
    destruct ((nodeKeyIdx el key <? _) && _) eqn:E.
    - apply (nk_found el key Hok) in E. destruct (nk_removed (nk_at el (nodeKeyIdx el key))) eqn:Er.
      + destruct (alter_ok String.compare nk_zero false _ _ _ key _ Harr E Er) as (A1 & _ & A3).
        by split.
      + split; [done|]. intros k. split; [by right|]. intros [->|?]; [|done].
        by apply (found_live String.compare nk_zero _ _ _ _ _ Harr E).
    - apply (nk_found_dec el key Hok) in E.
      destruct (insert_ok String.compare nk_zero _ _ _ key _ (MkNodeKey key false 0) Harr Hlb E)
        as (A1 & _ & A3); [done..|]. by split. }
  split; [split; [done| |]|done].
  - intros k. rewrite addNodeKey_map, H2, Hmap. done.
  - intros k b. unfold addNodeKey. repeat case_match; simpl; intros Hu;
      (destruct (decide (k = key)) as [->|Hne];
       [rewrite lookup_insert_eq; congruence|rewrite lookup_insert_ne by done; by apply Htrue]).
Qed.

Lemma delNodeKey_map el key k :
  el_has (delNodeKey el key) k = true <-> k <> key /\ el_has el k = true.
Proof.
  destruct (el_underlay el) as [u|] eqn:Eu.
  - rewrite (el_has_insert el _ key _ false); [case_decide; intuition congruence|..];
      unfold delNodeKey; rewrite Eu; by repeat case_match.
  - rewrite (el_has_delete el _ key _ Eu); [case_decide; intuition congruence|..];
      unfold delNodeKey; rewrite Eu; by repeat case_match.
Qed.

Lemma gcNodeKeys_ok el :
  arr_ok String.compare nk_zero (el_nodeKeyData el) (el_nodeKeyOffset el) (el_removedNodes el) ->
  arr_ok String.compare nk_zero (el_nodeKeyData (gcNodeKeys el)) (el_nodeKeyOffset (gcNodeKeys el))
    (el_removedNodes (gcNodeKeys el))
  /\ nk_live (gcNodeKeys el) = nk_live el.
Proof.
  intros Harr. destruct (gc_ok String.compare nk_zero _ _ _ Harr) as (H1 & _ & H3). by split.
Qed.

Lemma delNodeKey_ok el key :
  nodes_ok el ->
  nodes_ok (delNodeKey el key)
  /\ forall k, k ∈ nk_live (delNodeKey el key) <-> k ∈ nk_live el /\ k <> key.
Proof.
  intros Hok. pose proof (nodeKeyIdx_spec el key Hok) as Hlb. pose proof Hok as [Harr Hmap Htrue].
  assert (arr_ok String.compare nk_zero (el_nodeKeyData (delNodeKey el key))
      (el_nodeKeyOffset (delNodeKey el key)) (el_removedNodes (delNodeKey el key))
    /\ forall k, k ∈ nk_live (delNodeKey el key) <-> k ∈ nk_live el /\ k <> key) as [H1 H2].
  { unfold delNodeKey.
    destruct ((nodeKeyIdx el key <? _) && _) eqn:E; simpl.
    - apply (nk_found el key Hok) in E. destruct (nk_removed (nk_at el (nodeKeyIdx el key))) eqn:Er; simpl.
      + split; [done|]. intros k. split; [|by intros [? _]]. intros Hk. split; [done|]. intros ->.
        apply (found_live String.compare nk_zero _ _ _ _ _ Harr E) in Hk.
        change (nk_removed (nk_at el (nodeKeyIdx el key)) = false) in Hk. congruence.
      + destruct (alter_ok String.compare nk_zero true _ _ _ key _ Harr E Er) as (A1 & _ & A3).
        case_match; [|by split].
        match goal with |- context [gcNodeKeys ?e] => destruct (gcNodeKeys_ok e A1) as [G1 G2] end.
        split; [exact G1|]. intros k. rewrite G2. apply A3.
    - apply (nk_found_dec el key Hok) in E. split; [done|]. intros k. split; [|by intros [? _]].
      intros Hk. split; [done|]. intros ->. apply E, (found_iff String.compare nk_zero _ _ _ _ _ Harr Hlb).
      apply (elem_of_live nk_zero) in Hk as (x & Hx & _ & <-). by apply list_elem_of_fmap_2. }
  split; [split; [done| |]|done].
  - intros k. rewrite delNodeKey_map, H2, Hmap. tauto.
  - intros k b. unfold delNodeKey. destruct (el_underlay el) as [u|] eqn:Eu.
    + repeat case_match; unfold gcNodeKeys; simpl; congruence.
    + repeat case_match; unfold gcNodeKeys; simpl; intros _ [_ Hl]%lookup_delete_Some;
        by eapply Htrue.
Qed.

(** Keys with a common prefix are next to each other. *)
Lemma prefix_between p a b :
  cmp_le String.compare p a -> cmp_le String.compare a b ->
  String.prefix p b = true -> String.prefix p a = true.
Proof.
  unfold cmp_le. revert a b.
  induction p as [|c p IH]; intros [|x a] [|y b] H1 H2 H; simpl in *; try done.
  destruct (Ascii.ascii_dec c y) as [<-|]; [|done].
  destruct (Ascii.compare c x) eqn:E1; [| |done].
  - apply (cmp_eq (cmp:=Ascii.compare)) in E1 as <-.
    rewrite (proj2 (cmp_eq (cmp:=Ascii.compare) c c) eq_refl) in H2.
    destruct (Ascii.ascii_dec c c); [|done]. by eapply IH.
  - rewrite (cmp_opp (cmp:=Ascii.compare) c x), E1 in H2. done.
Qed.

Lemma prefix_le p a : String.prefix p a = true -> cmp_le String.compare p a.
Proof.
  unfold cmp_le. revert a. induction p as [|c p IH]; intros [|x a] H; simpl in *; try done.
  destruct (Ascii.ascii_dec c x) as [<-|]; [|done].
  rewrite (proj2 (cmp_eq (cmp:=Ascii.compare) c c) eq_refl). by apply IH.
Qed.

(** The loop of [iterTargets] on the list of the cells from the index on. *)
Fixpoint iter_list (p : string) (l : list nodeKey) : list string :=
  match l with
  | [] => []
  | x :: l =>
      if nk_removed x then iter_list p l
      else if String.prefix p (nk_key x) then nk_key x :: iter_list p l else []
  end.

Lemma drop_view_cons el i :
  nodes_ok el -> i < length (el_nodeKeyOffset el) ->
  drop i (view nk_zero (el_nodeKeyData el) (el_nodeKeyOffset el))
  = nk_at el i :: drop (S i) (view nk_zero (el_nodeKeyData el) (el_nodeKeyOffset el)).
Proof.
  intros Hok Hi. apply drop_S.
  exact (proj1 (view_lookup nk_zero _ _ i (ao_offs _ _ _ _ _ (no_arr _ Hok)) Hi)).
Qed.

Lemma iter_prefix_list el p fuel : forall i,
  nodes_ok el -> length (el_nodeKeyOffset el) - i <= fuel ->
  iter_prefix fuel el p i = iter_list p (drop i (view nk_zero (el_nodeKeyData el) (el_nodeKeyOffset el))).
Proof.
  induction fuel as [|fuel IH]; intros i Hok Hf; simpl.
  - rewrite drop_ge; [done|]. rewrite length_view. lia.
  - destruct (Nat.ltb_spec i (length (el_nodeKeyOffset el))) as [Hi|Hi].
    + rewrite drop_view_cons by done. simpl. rewrite !Nat.add_1_r.
      rewrite IH by (done || lia). done.
    + rewrite drop_ge; [done|]. rewrite length_view. lia.
Qed.

Lemma iter_list_filter p l :
  ssorted String.compare (nk_key <$> l) -> Forall (fun k => cmp_le String.compare p k) (nk_key <$> l) ->
  iter_list p l = filter (fun k => String.prefix p k = true) (nk_key <$> filter alive l).
Proof.
  induction l as [|x l IH]; intros Hs Hge; [done|].
  rewrite fmap_cons in Hs, Hge. apply StronglySorted_cons in Hs as [Hf Hs].
  apply Forall_cons in Hge as [Hx Hge]. simpl. rewrite filter_alive_cons.
  change (lc_removed x) with (nk_removed x). destruct (nk_removed x); [by apply IH|].
  rewrite fmap_cons, filter_cons. destruct (String.prefix p (nk_key x)) eqn:E.
  - rewrite decide_True by done. f_equal. by apply IH.
  - rewrite decide_False by done. symmetry.
    destruct (filter _ (nk_key <$> filter alive l)) as [|k r] eqn:Ef; [done|]. exfalso.
    assert (k ∈ k :: r) as Hk by (by left). rewrite <- Ef in Hk.
    apply list_elem_of_filter in Hk as [Hp Hk].
    assert (k ∈ nk_key <$> l) as Hin.
    { apply list_elem_of_fmap in Hk as (y & -> & [_ Hy]%list_elem_of_filter). by apply list_elem_of_fmap_2. }
    rewrite Forall_forall in Hf. rewrite (prefix_between p (nk_key x) k) in E; [done|done| |done].
    apply (cmp_lt_le String.compare), Hf, Hin.
Qed.

(** [iterTargets] with a non-empty prefix: the matching keys in order. *)
Lemma iterTargets_prefix el p :
  nodes_ok el -> p <> "" ->
  iterTargets el p true = filter (fun k => String.prefix p k = true) (nk_live el).
Proof.
  intros Hok Hp. unfold iterTargets. rewrite (proj2 (String.eqb_neq p "") Hp). simpl.
  destruct (nodeKeyIdx_spec el p Hok) as (Hi & Hlo & Hhi).
  set (v := view nk_zero (el_nodeKeyData el) (el_nodeKeyOffset el)) in *.
  rewrite iter_prefix_list by (done || lia). fold v.
  pose proof (ao_sorted _ _ _ _ _ (no_arr _ Hok)) as Hs. fold v in Hs.
  change (ssorted String.compare (nk_key <$> v)) in Hs.
  rewrite iter_list_filter.
  - unfold nk_live, live. fold v. rewrite <- (take_drop (nodeKeyIdx el p) v) at 2.
    rewrite filter_app, fmap_app, filter_app.
    destruct (filter _ (lc_key <$> filter alive (take _ v))) as [|k r] eqn:Ef; [done|]. exfalso.
    assert (k ∈ k :: r) as Hk by (by left). rewrite <- Ef in Hk.
    apply list_elem_of_filter in Hk as [Hpk Hk].
    apply list_elem_of_fmap in Hk as (y & -> & [_ Hy]%list_elem_of_filter).
    rewrite <- fmap_take in Hlo. rewrite Forall_forall in Hlo.
    apply (cmp_lt_irrefl String.compare p). eapply (cmp_le_lt_trans String.compare).
    + by apply prefix_le.
    + apply Hlo. by apply (list_elem_of_fmap_2 nk_key).
  - rewrite <- (take_drop (nodeKeyIdx el p) v) in Hs. rewrite fmap_app in Hs.
    by apply StronglySorted_app in Hs as (_ & _ & ?).
  - by rewrite <- fmap_drop in Hhi.
Qed.

Lemma gc_data_filter (l : list nodeKey) : gc_data nk_removed l = filter alive l.
Proof.
  induction l as [|x l IH]; [done|]. simpl. rewrite filter_alive_cons, IH. done.
Qed.

Lemma iterTargets_full el key : iterTargets el key false = if el_has el key then [key] else [].
Proof.
  unfold iterTargets, el_has. rewrite andb_false_r. simpl. by repeat case_match.
Qed.

Lemma nk_live_NoDup el : nodes_ok el -> NoDup (nk_live el).
Proof.
  intros Hok. eapply (ssorted_NoDup String.compare), ssorted_fmap_filter.
  exact (ao_sorted _ _ _ _ _ (no_arr _ Hok)).
Qed.

(** The members that [iterTargets] reports. *)
Definition target_match (key : string) (isPrefix : bool) (k : string) : bool :=
  if isPrefix then String.prefix key k else String.eqb key k.

Lemma iterTargets_spec el key isPrefix :
  nodes_ok el ->
  NoDup (iterTargets el key isPrefix)
  /\ forall k, k ∈ iterTargets el key isPrefix <-> k ∈ nk_live el /\ target_match key isPrefix k = true.
Proof.
  intros Hok. pose proof (nk_live_NoDup el Hok) as Hnd. destruct isPrefix; simpl.
  - destruct (decide (key = "")) as [->|Hne].
    + assert (iterTargets el "" true ≡ₚ nk_live el) as Hp.
      { unfold iterTargets, nk_live, live; simpl. rewrite gc_data_filter.
        by rewrite (view_perm nk_zero _ _ (ao_offs _ _ _ _ _ (no_arr _ Hok))). }
      rewrite Hp. split; [done|]. intros k. rewrite Hp. by destruct k; simpl; intuition.
    + rewrite iterTargets_prefix by done. split; [by apply NoDup_filter|].
      intros k. rewrite list_elem_of_filter. tauto.
  - rewrite iterTargets_full. destruct (el_has el key) eqn:E.
    + split; [apply NoDup_singleton|]. intros k. rewrite list_elem_of_singleton, String.eqb_eq.
      split; [|by intros [_ ->]]. intros ->. split; [|done]. by apply (no_map _ Hok).
    + split; [constructor|]. intros k. split; [by intros ?%not_elem_of_nil|].
      rewrite String.eqb_eq. intros [Hk <-]. apply (no_map _ Hok) in Hk. congruence.
Qed.

(** ** Edges *)

Lemma count_lt_app d l1 l2 : count_lt d (l1 ++ l2) = count_lt d l1 + count_lt d l2.
Proof. unfold count_lt. by rewrite filter_app, length_app. Qed.

Lemma length_filter_mono {A} (P Q : A -> Prop) `{!forall x, Decision (P x)} `{!forall x, Decision (Q x)} l :
  (forall x, P x -> Q x) -> length (filter P l) <= length (filter Q l).
Proof.
  intros HPQ. induction l as [|x l IH]; [done|]. rewrite !filter_cons.
  destruct (decide (P x)), (decide (Q x)); simpl; try lia. exfalso. auto.
Qed.

Lemma count_lt_le d l : count_lt d l <= length l.
Proof. apply length_filter. Qed.

Lemma count_lt_all d l : (forall k, k ∈ l -> k.1 < d) -> count_lt d l = length l.
Proof. intros Hall. unfold count_lt. by rewrite filter_all. Qed.

Lemma dcmp_le_depth k1 k2 : cmp_lt dcmp k1 k2 -> k1.1 <= k2.1.
Proof.
  unfold cmp_lt, dcmp, cmp_lex. destruct (Nat.compare k1.1 k2.1) eqn:E; [| |done].
  - apply Nat.compare_eq_iff in E. lia.
  - apply Nat.compare_lt_iff in E. lia.
Qed.

(** In the sorted sequence the depths below [d] come first. *)
Lemma count_lt_lookup d l i k :
  ssorted dcmp l -> l !! i = Some k -> (k.1 < d <-> i < count_lt d l).
Proof.
  revert i. induction l as [|x l IH]; intros i Hs Hi; [done|].
  apply StronglySorted_cons in Hs as [Hf Hs]. rewrite Forall_forall in Hf.
  unfold count_lt. rewrite filter_cons. destruct (decide (x.1 < d)) as [Hx|Hx].
  - destruct i as [|i]; simpl in *; [simplify_eq; lia|].
    rewrite (IH i Hs Hi). unfold count_lt. lia.
  - assert (count_lt d l = 0) as Hz.
    { unfold count_lt. destruct (filter _ l) as [|y r] eqn:Ef; [done|]. exfalso.
      assert (y ∈ y :: r) as Hy by (by left). rewrite <- Ef in Hy.
      apply list_elem_of_filter in Hy as [H1 H2]. apply Hf, dcmp_le_depth in H2. lia. }
    unfold count_lt in Hz. rewrite Hz. destruct i as [|i]; simpl in *; [simplify_eq; lia|].
    apply list_elem_of_lookup_2 in Hi. apply Hf, dcmp_le_depth in Hi. lia.
Qed.

Definition e_keys (el : edgeLookup) : list (nat * edgeKey) := dkey <$> e_view el.

Lemma length_e_keys el : length (e_keys el) = length (el_edgeOffset el).
Proof. unfold e_keys, e_view. by rewrite length_fmap, length_view. Qed.

Lemma e_keys_lookup el i :
  edges_ok el -> i < length (el_edgeOffset el) ->
  e_view el !! i = Some (e_at el i) /\ e_keys el !! i = Some (dkey (e_at el i)).
Proof.
  intros Hok Hi. unfold e_keys. rewrite list_lookup_fmap.
  pose proof (proj1 (view_lookup e_zero _ _ i (ao_offs _ _ _ _ _ (eo_arr _ Hok)) Hi)) as H.
  unfold e_view. rewrite H. by split.
Qed.

Lemma getDirDepthBounds_spec el d :
  edges_ok el ->
  getDirDepthBounds el d = (count_lt d (e_keys el), count_lt (S d) (e_keys el)).
Proof.
  intros [_ [Hb Hlt]]. unfold getDirDepthBounds. fold (e_keys el) in Hb, Hlt.
  assert (forall d, (if d <? length (el_dirDepthBounds el) then nth d (el_dirDepthBounds el) 0
    else length (el_edgeOffset el)) = count_lt d (e_keys el)) as H.
  { intros d'. destruct (Nat.ltb_spec d' (length (el_dirDepthBounds el))) as [Hd|Hd].
    - destruct (lookup_lt_is_Some_2 _ _ Hd) as [b Hb']. rewrite (nth_lookup_Some _ _ _ _ Hb'). by apply Hb.
    - rewrite count_lt_all; [by rewrite length_e_keys|]. intros k Hk%Hlt. lia. }
  by rewrite (H d), (H (d + 1)), Nat.add_1_r.
Qed.

Lemma dcmp_leb_depth k1 k2 :
  cmp_leb dcmp k1 k2
  = if k1.1 <? k2.1 then true else if k1.1 =? k2.1 then cmp_leb ecmp k1.2 k2.2 else false.
Proof.
  unfold cmp_leb, dcmp, cmp_lex.
  destruct (Nat.compare k1.1 k2.1) eqn:E.
  - apply Nat.compare_eq_iff in E. destruct (Nat.ltb_spec k1.1 k2.1); [lia|].
    by rewrite (proj2 (Nat.eqb_eq _ _) E).
  - apply Nat.compare_lt_iff in E. by destruct (Nat.ltb_spec k1.1 k2.1); [|lia].
  - apply Nat.compare_gt_iff in E. destruct (Nat.ltb_spec k1.1 k2.1); [lia|].
    by destruct (Nat.eqb_spec k1.1 k2.1); [lia|].
Qed.

Lemma edgeIdx_spec el e d :
  edges_ok el -> d = getDirDepth (e_targetKey e) ->
  lower_bound dcmp (dkey e) (e_keys el) (edgeIdx el e d).
Proof.
  intros Hok Hd. pose proof (ao_sorted _ _ _ _ _ (eo_arr _ Hok)) as Hs.
  change (ssorted dcmp (e_keys el)) in Hs.
  eapply (search_post_lower_bound dcmp) with (d := dkey e); [exact Hs|].
  unfold edgeIdx. rewrite getDirDepthBounds_spec by done.
  set (keys := e_keys el) in *. set (b := count_lt d keys). set (n := count_lt (S d) keys).
  assert (b <= n /\ n <= length keys) as [Hbn Hnl].
  { split; [|apply count_lt_le]. unfold b, n, count_lt.
    apply length_filter_mono. intros; lia. }
  assert (forall i, i < length keys -> nth i keys (dkey e) = dkey (e_at el i)
    /\ (getDirDepth (e_targetKey (e_at el i)) < d <-> i < b)
    /\ (getDirDepth (e_targetKey (e_at el i)) < S d <-> i < n)) as Hat.
  { intros i Hi. destruct (e_keys_lookup el i Hok) as [_ H]; [by rewrite <- length_e_keys|].
    split; [by apply nth_lookup_Some|].
    split; [exact (count_lt_lookup d keys i _ Hs H)|exact (count_lt_lookup (S d) keys i _ Hs H)]. }
  assert (forall r, (forall k, r = S k -> (snd (compare e (e_at el (b + k))) <=? 0)%Z = false) -> b + r <= n ->
    (b + r < n -> (snd (compare e (e_at el (b + r))) <=? 0)%Z = true) ->
    search_post (length keys) (fun i => cmp_leb dcmp (dkey e) (nth i keys (dkey e))) (b + r)) as Hpost.
  { intros r Hlo Hr Hhi. split; [lia|]. split.
    - intros k Hk. destruct (Hat k) as (-> & Hlt1 & Hlt2); [lia|].
      rewrite dcmp_leb_depth; simpl. rewrite <- Hd. destruct r as [|r].
      + destruct (Nat.ltb_spec d (getDirDepth (e_targetKey (e_at el k)))); [lia|].
        destruct (Nat.eqb_spec d (getDirDepth (e_targetKey (e_at el k)))); [lia|done].
      + replace k with (b + r) in * by lia. specialize (Hlo r eq_refl).
        destruct (Nat.ltb_spec d (getDirDepth (e_targetKey (e_at el (b + r))))); [lia|].
        destruct (Nat.eqb_spec d (getDirDepth (e_targetKey (e_at el (b + r))))); [|done].
        rewrite compare_spec in Hlo. unfold cmp_leb. by destruct (ecmp (ekey e) _).
    - intros Hlt. destruct (Hat (b + r)) as (-> & Hlt1 & Hlt2); [lia|].
      rewrite dcmp_leb_depth; simpl. rewrite <- Hd.
      destruct (Nat.ltb_spec d (getDirDepth (e_targetKey (e_at el (b + r))))); [done|].
      destruct (Nat.eqb_spec d (getDirDepth (e_targetKey (e_at el (b + r))))) as [He|]; [|lia].
      specialize (Hhi ltac:(lia)). rewrite compare_spec in Hhi. unfold cmp_leb.
      by destruct (ecmp (ekey e) _). }
  destruct (Nat.eqb_spec b n) as [He|He].
  - replace b with (b + 0) by lia. apply Hpost; lia.
  - destruct (sort_search_post (n - b) (fun i => (snd (compare e (e_at el (b + i))) <=? 0)%Z))
      as (H1 & H2 & H3). apply Hpost; [done|lia|]. intros Hlt. apply H3. lia.
Qed.

Lemma compare_equal e e2 : (compare e e2).1 = true <-> dkey e2 = dkey e.
Proof.
  rewrite compare_spec. unfold dkey. destruct (ecmp (ekey e) (ekey e2)) eqn:E; simpl.
  - apply (cmp_eq (cmp:=ecmp)) in E. split; [|done]. intros _. injection E as H1 H2 H3 H4 H5.
    unfold ekey. congruence.
  - split; [done|]. intros [= _ H1 H2 H3 H4 H5].
    rewrite (proj2 (cmp_eq (cmp:=ecmp) (ekey e) (ekey e2))) in E; [done|]. unfold ekey. congruence.
  - split; [done|]. intros [= _ H1 H2 H3 H4 H5].
    rewrite (proj2 (cmp_eq (cmp:=ecmp) (ekey e) (ekey e2))) in E; [done|]. unfold ekey. congruence.
Qed.

(** The edge as it is stored: with the separators around the target trimmed. *)
Definition stored (e : edge) : edge := e_set_targetKey (trimTrailingDirSep (e_targetKey e)) e.

Lemma e_found el e idx :
  (idx <? length (el_edgeOffset el)) && (compare e (e_at el idx)).1 = true
  <-> found e_zero (el_edgeData el) (el_edgeOffset el) (dkey e) idx.
Proof. rewrite andb_true_iff, Nat.ltb_lt, compare_equal. done. Qed.

Lemma e_found_dec el e idx :
  (idx <? length (el_edgeOffset el)) && (compare e (e_at el idx)).1 = false ->
  ~ found e_zero (el_edgeData el) (el_edgeOffset el) (dkey e) idx.
Proof. intros E Hf%e_found. congruence. Qed.

Lemma count_lt_perm d l1 l2 : l1 ≡ₚ l2 -> count_lt d l1 = count_lt d l2.
Proof. intros Hp. unfold count_lt. by rewrite Hp. Qed.

Lemma count_lt_one d k : count_lt d [k] = if decide (k.1 < d) then 1 else 0.
Proof. unfold count_lt. rewrite filter_cons, filter_nil. by case_decide. Qed.

Lemma add_bounds_ok bounds keys k keys' :
  bounds_ok bounds keys -> keys' ≡ₚ k :: keys ->
  bounds_ok (add_bounds bounds k.1 (S (length keys))) keys'.
Proof.
  intros [Hb Hlt] Hp. unfold add_bounds. split.
  - intros d b. rewrite (count_lt_perm d keys' (k :: keys) Hp).
    change (k :: keys) with ([k] ++ keys). rewrite count_lt_app.
    destruct (decide (d < length bounds)) as [Hd|Hd].
    + rewrite lookup_app_l by (by rewrite length_imap). rewrite list_lookup_imap.
      intros (b0 & Hb0 & ->)%fmap_Some. rewrite (Hb d b0 Hb0), count_lt_one.
      destruct (Nat.ltb_spec k.1 d).
      * by rewrite decide_True.
      * by rewrite decide_False by lia.
    + rewrite lookup_app_r by (rewrite length_imap; lia). rewrite length_imap.
      intros [-> Hd']%lookup_replicate. rewrite (count_lt_all d keys).
      * rewrite count_lt_one, decide_False by lia. lia.
      * intros k' Hk'%Hlt. lia.
  - intros k'. rewrite Hp, length_app, length_imap, length_replicate.
    intros [->|Hk'%Hlt]%elem_of_cons; lia.
Qed.

Lemma addEdge_ok el e :
  edges_ok el ->
  edges_ok (addEdge el e)
  /\ forall k, k ∈ e_live (addEdge el e) <-> k = dkey (stored e) \/ k ∈ e_live el.
Proof.
  intros Hok. pose proof (edgeIdx_spec el (stored e) _ Hok eq_refl) as Hlb.
  pose proof Hok as [Harr Hbo]. unfold addEdge. fold (stored e).
  set (idx := edgeIdx el (stored e) (getDirDepth (e_targetKey (stored e)))) in *.
  destruct (_ && _) eqn:E.
  - apply e_found in E. destruct (e_removed (e_at el idx)) eqn:Er.
    + destruct (alter_ok dcmp e_zero false _ _ _ _ _ Harr E Er) as (A1 & A2 & A3).
      split; [split; [exact A1|]|exact A3]. unfold e_view; simpl.
      change (bounds_ok (el_dirDepthBounds el) (lc_key <$> view e_zero
        (alter (lc_set_removed false) (nth idx (el_edgeOffset el) 0) (el_edgeData el)) (el_edgeOffset el))).
      by rewrite A2.
    + split; [done|]. intros k. split; [by right|]. intros [->|?]; [|done].
      by apply (found_live dcmp e_zero _ _ _ _ _ Harr E).
  - apply e_found_dec in E.
    destruct (insert_ok dcmp e_zero _ _ _ _ _ (e_set_removed false (stored e)) Harr Hlb E)
      as (A1 & A2 & A3); [done..|]. split; [split; [exact A1|]|exact A3].
    unfold e_view; simpl.
    change (bounds_ok (add_bounds (el_dirDepthBounds el) (dkey (stored e)).1
      (length (insert_offset idx (length (el_edgeData el)) (el_edgeOffset el))))
      (lc_key <$> view e_zero (el_edgeData el ++ [e_set_removed false (stored e)])
        (insert_offset idx (length (el_edgeData el)) (el_edgeOffset el)))).
    rewrite A2.
    pose proof (oo_length _ _ (ao_offs _ _ _ _ _ Harr)) as Hl.
    pose proof (oo_length _ _ (ao_offs _ _ _ _ _ A1)) as Hl'. rewrite length_app in Hl'. simpl in Hl'.
    replace (length (insert_offset idx (length (el_edgeData el)) (el_edgeOffset el)))
      with (S (length (e_keys el))) by (rewrite length_e_keys; lia).
    apply add_bounds_ok; [done|]. rewrite <- Permutation_middle. by rewrite take_drop.
Qed.

(** *** Garbage collection of edges *)

Lemma gc_offsets_app (data : list edge) l1 l2 :
  gc_offsets e_removed e_decOffset data (l1 ++ l2)
  = gc_offsets e_removed e_decOffset data l1 ++ gc_offsets e_removed e_decOffset data l2.
Proof.
  induction l1 as [|o l1 IH]; simpl; [done|]. repeat case_match; simpl; by rewrite IH.
Qed.

(** The offsets depth by depth are the offsets all at once, and the new bounds
    count the survivors before each old bound. *)
Lemma gc_depths_spec data offs bounds : forall cur next,
  (forall b, bounds !! 0 = Some b -> b = cur) -> (bounds = [] -> cur = length offs) ->
  (forall i j b c, i <= j -> bounds !! i = Some b -> bounds !! j = Some c -> b <= c) ->
  (forall i b, bounds !! i = Some b -> b <= length offs) ->
  next = length (gc_offsets e_removed e_decOffset data (take cur offs)) ->
  gc_depths data offs bounds next
  = ((fun b => length (gc_offsets e_removed e_decOffset data (take b offs))) <$> bounds,
     gc_offsets e_removed e_decOffset data (drop cur offs)).
Proof.
  induction bounds as [|b bounds IH]; intros cur next Hc Hnil Hm Hle Hn; simpl.
  - rewrite Hnil, drop_all by done. done.
  - assert (b = cur) as -> by (by apply Hc).
    set (nb := match bounds with [] => length offs | b :: _ => b end).
    assert (cur <= nb /\ nb <= length offs) as [H1 H2].
    { unfold nb. destruct bounds as [|c bounds']; [split; [by apply (Hle 0)|done]|].
      split; [apply (Hm 0 1); [lia|done|done]|by apply (Hle 1)]. }
    assert (take nb offs = take cur offs ++ take (nb - cur) (drop cur offs)) as Ht.
    { rewrite <- (take_drop cur (take nb offs)). rewrite take_take, Nat.min_l by done.
      by rewrite skipn_firstn_comm. }
    rewrite (IH nb).
    + f_equal; [by rewrite Hn|]. rewrite <- gc_offsets_app. f_equal.
      replace (drop nb offs) with (drop (nb - cur) (drop cur offs)); [by rewrite take_drop|].
      rewrite drop_drop. f_equal. lia.
    + unfold nb. intros c. destruct bounds; simpl; [done|]. by intros [= ->].
    + unfold nb. by intros ->.
    + intros i j c d Hij Hi Hj. by apply (Hm (S i) (S j)); [lia|..].
    + intros i c Hi. by apply (Hle (S i)).
    + rewrite Ht, gc_offsets_app, length_app. lia.
Qed.

Lemma trim_bounds_spec len bounds :
  exists m, trim_bounds len bounds = take m bounds /\ m <= length bounds
    /\ forall i b, m <= i -> bounds !! i = Some b -> len <= b.
Proof.
  induction bounds as [|b bounds (m & Ht & Hm & Hge)]; simpl.
  { exists 0. split_and!; [done|done|]. intros i b _. by rewrite lookup_nil. }
  rewrite Ht. destruct (take m bounds) as [|c bs] eqn:E.
  - destruct (Nat.ltb_spec b len).
    + exists 1. split_and!; [done|simpl; lia|]. intros [|i] c Hi; simpl; [lia|].
      intros Hl. apply (Hge i); [|done]. destruct m; [lia|]. destruct bounds; [by rewrite lookup_nil in Hl|done].
    + exists 0. split_and!; [done|simpl; lia|]. intros [|i] c Hi; simpl; [by intros [= <-]|].
      intros Hl. apply (Hge i); [|done]. destruct m; [lia|]. destruct bounds; [by rewrite lookup_nil in Hl|done].
  - exists (S m). simpl. rewrite E. split_and!; [done|lia|]. intros [|i] d Hi; simpl; [lia|].
    apply Hge. lia.
Qed.

Lemma take_filter_depth d l :
  ssorted dcmp l -> filter (fun k => k.1 < d) l = take (count_lt d l) l.
Proof.
  induction l as [|x l IH]; intros Hs; [done|]. pose proof Hs as Hs0.
  apply StronglySorted_cons in Hs as [Hf Hs].
  destruct (decide (x.1 < d)) as [Hx|Hx].
  - rewrite filter_cons_True by done. unfold count_lt. rewrite filter_cons_True by done. simpl.
    f_equal. by apply IH.
  - assert (count_lt d (x :: l) = 0) as Hz.
    { destruct (count_lt d (x :: l)) eqn:E; [done|]. exfalso. apply Hx.
      apply (count_lt_lookup d (x :: l) 0 x Hs0 eq_refl). lia. }
    rewrite Hz. simpl. apply length_zero_iff_nil. exact Hz.
Qed.

Lemma count_lt_zero d l : (forall k, k ∈ l -> d <= k.1) -> count_lt d l = 0.
Proof.
  intros Hall. unfold count_lt. destruct (filter _ l) as [|y r] eqn:Ef; [done|]. exfalso.
  assert (y ∈ y :: r) as Hy by (by left). rewrite <- Ef in Hy.
  apply list_elem_of_filter in Hy as [H1 H2]. apply Hall in H2. lia.
Qed.

(** The bounds computed by the collection count the survivors. *)
Lemma gc_bound_count (el : edgeLookup) n d :
  arr_ok dcmp e_zero (el_edgeData el) (el_edgeOffset el) n ->
  length (gc_offsets e_removed e_decOffset (mark_dec e_removed e_set_dec 0 (el_edgeData el))
    (take (count_lt d (e_keys el)) (el_edgeOffset el))) = count_lt d (e_live el).
Proof.
  intros [[Hnd Hl Hr] Hs _]. change (ssorted dcmp (e_keys el)) in Hs.
  set (b := count_lt d (e_keys el)).
  pose proof (length_gc_offsets e_zero (el_edgeData el) (take b (el_edgeOffset el))) as Hlen.
  simpl in Hlen. rewrite Hlen; [|intros o Ho; apply Hr; rewrite <- (take_drop b (el_edgeOffset el)); apply elem_of_app; by left].
  rewrite (view_take e_zero). fold (e_view el).
  unfold e_live, live. fold (e_view el). rewrite <- (take_drop b (e_view el)) at 2.
  assert (Forall (fun k => k.1 < d) (dkey <$> take b (e_view el))) as H1.
  { rewrite fmap_take. change (dkey <$> e_view el) with (e_keys el). unfold b.
    rewrite <- take_filter_depth by done. apply Forall_forall. by intros k [? _]%list_elem_of_filter. }
  assert (Forall (fun k => d <= k.1) (dkey <$> drop b (e_view el))) as H2.
  { rewrite fmap_drop. change (dkey <$> e_view el) with (e_keys el). apply Forall_lookup.
    intros i k. rewrite lookup_drop. intros Hk. apply (count_lt_lookup d _ _ _ Hs) in Hk. unfold b in Hk. lia. }
  rewrite Forall_forall in H1, H2.
  rewrite filter_app, fmap_app, count_lt_app. rewrite count_lt_all, count_lt_zero.
  - by rewrite length_fmap, Nat.add_0_r.
  - intros k (x & -> & [_ Hx]%list_elem_of_filter)%list_elem_of_fmap. apply H2. by apply (list_elem_of_fmap_2 dkey).
  - intros k (x & -> & [_ Hx]%list_elem_of_filter)%list_elem_of_fmap. apply H1. by apply (list_elem_of_fmap_2 dkey).
Qed.

Lemma count_lt_mono c d l : c <= d -> count_lt c l <= count_lt d l.
Proof. intros Hcd. apply length_filter_mono. intros; lia. Qed.

Lemma gc_depths_all el :
  bounds_ok (el_dirDepthBounds el) (e_keys el) ->
  gc_depths (mark_dec e_removed e_set_dec 0 (el_edgeData el)) (el_edgeOffset el) (el_dirDepthBounds el) 0
  = ((fun b => length (gc_offsets e_removed e_decOffset (mark_dec e_removed e_set_dec 0 (el_edgeData el))
        (take b (el_edgeOffset el)))) <$> el_dirDepthBounds el,
     gc_offsets e_removed e_decOffset (mark_dec e_removed e_set_dec 0 (el_edgeData el)) (el_edgeOffset el)).
Proof.
  intros [Hb Hlt]. rewrite (gc_depths_spec _ _ _ 0); [by rewrite drop_0|..].
  - intros b Hb0. rewrite (Hb 0 b Hb0). apply count_lt_zero. lia.
  - intros He. rewrite <- length_e_keys. destruct (e_keys el) as [|k l]; [done|]. exfalso.
    specialize (Hlt k ltac:(by left)). rewrite He in Hlt. simpl in Hlt. lia.
  - intros i j b c Hij Hi Hj. rewrite (Hb i b Hi), (Hb j c Hj). by apply count_lt_mono.
  - intros i b Hi. rewrite (Hb i b Hi), <- length_e_keys. apply count_lt_le.
  - done.
Qed.

Lemma gcEdges_ok el n :
  arr_ok dcmp e_zero (el_edgeData el) (el_edgeOffset el) n ->
  bounds_ok (el_dirDepthBounds el) (e_keys el) ->
  edges_ok (gcEdges el) /\ e_live (gcEdges el) = e_live el.
Proof.
  intros Harr Hbo. destruct (gc_ok dcmp e_zero _ _ _ Harr) as (H1 & H2 & H3). simpl in H1, H2, H3.
  unfold gcEdges. rewrite gc_depths_all by done. split; [split; [exact H1|]|exact H3].
  unfold e_view; simpl. rewrite H2. fold (e_live el).
  pose proof (length_gc_offsets e_zero _ _ (oo_range _ _ (ao_offs _ _ _ _ _ Harr))) as Hlen. simpl in Hlen.
  rewrite Hlen. replace (length (filter alive _)) with (length (e_live el)) by (unfold e_live, live; by rewrite length_fmap).
  destruct Hbo as [Hb Hlt].
  destruct (trim_bounds_spec (length (e_live el)) ((fun b => length (gc_offsets e_removed e_decOffset
    (mark_dec e_removed e_set_dec 0 (el_edgeData el)) (take b (el_edgeOffset el)))) <$> el_dirDepthBounds el))
    as (m & -> & Hm & Hge). rewrite length_fmap in Hm. split.
  - intros d b. rewrite lookup_take_Some, list_lookup_fmap. intros [(b0 & Hb0 & ->)%fmap_Some _].
    rewrite (Hb d b0 Hb0). by eapply gc_bound_count.
  - intros k Hk. rewrite length_take, length_fmap, Nat.min_l by done.
    destruct (decide (k.1 < m)) as [|Hkm]; [done|]. exfalso.
    assert (k.1 < length (el_dirDepthBounds el)) as Hkl.
    { apply Hlt. apply (elem_of_live e_zero) in Hk as (x & Hx & _ & <-). by apply (list_elem_of_fmap_2 dkey). }
    destruct (lookup_lt_is_Some_2 _ _ Hkl) as [b Hkb].
    specialize (Hge k.1 (length (gc_offsets e_removed e_decOffset
      (mark_dec e_removed e_set_dec 0 (el_edgeData el)) (take b (el_edgeOffset el))))).
    rewrite list_lookup_fmap, Hkb in Hge. specialize (Hge ltac:(lia) eq_refl).
    rewrite (Hb _ _ Hkb), (gc_bound_count el n k.1 Harr) in Hge.
    unfold count_lt in Hge. apply list_elem_of_split in Hk as (l1 & l2 & Hl). rewrite Hl in Hge.
    rewrite filter_app, filter_cons, decide_False in Hge by lia. rewrite !length_app in Hge. simpl in Hge.
    pose proof (length_filter (fun k' => k'.1 < k.1) l1). pose proof (length_filter (fun k' => k'.1 < k.1) l2). lia.
Qed.

Lemma delEdge_ok el e :
  edges_ok el ->
  edges_ok (delEdge el e)
  /\ forall k, k ∈ e_live (delEdge el e) <-> k ∈ e_live el /\ k <> dkey (stored e).
Proof.
  intros Hok. pose proof (edgeIdx_spec el (stored e) _ Hok eq_refl) as Hlb.
  pose proof Hok as [Harr Hbo]. unfold delEdge. fold (stored e).
  set (idx := edgeIdx el (stored e) (getDirDepth (e_targetKey (stored e)))) in *.
  destruct ((idx <? _) && _) eqn:E; simpl.
  - apply e_found in E. destruct (e_removed (e_at el idx)) eqn:Er; simpl.
    + split; [done|]. intros k. split; [|by intros [? _]]. intros Hk. split; [done|]. intros ->.
      apply (found_live dcmp e_zero _ _ _ _ _ Harr E) in Hk.
      change (e_removed (e_at el idx) = false) in Hk. congruence.
    + destruct (alter_ok dcmp e_zero true _ _ _ _ _ Harr E Er) as (A1 & A2 & A3).
      match goal with |- context [with_edges ?a ?b ?c ?d ?e] => set (el2 := with_edges a b c d e) in * end.
      assert (bounds_ok (el_dirDepthBounds el2) (e_keys el2)) as Hbo2.
      { change (bounds_ok (el_dirDepthBounds el) (lc_key <$> view e_zero
          (alter (lc_set_removed true) (nth idx (el_edgeOffset el) 0) (el_edgeData el)) (el_edgeOffset el))).
        by rewrite A2. }
      case_match.
      * destruct (gcEdges_ok el2 _ A1 Hbo2) as [G1 G2]. split; [exact G1|]. intros k. rewrite G2. apply A3.
      * split; [by split|exact A3].
  - apply e_found_dec in E. split; [done|]. intros k. split; [|by intros [? _]].
    intros Hk. split; [done|]. intros ->. apply E, (found_iff dcmp e_zero _ _ _ _ _ Harr Hlb).
    apply (elem_of_live e_zero) in Hk as (x & Hx & _ & <-). by apply list_elem_of_fmap_2.
Qed.

(** ** The sources of a target *)

Definition triple_of (e : edge) : string * string * string := (e_sourceNode e, e_relation e, e_label e).

Lemma iter_sources_at_spec fuel el target prefix end_ x : forall j,
  end_ - j <= fuel ->
  (x ∈ iter_sources_at fuel el target prefix j end_ <->
   exists i, j <= i < end_ /\ (forall m, j <= m <= i -> e_targetKey (e_at el m) = target)
     /\ (prefix = true -> e_isPrefix (e_at el i) = true) /\ e_removed (e_at el i) = false
     /\ x = triple_of (e_at el i)).
Proof.
  induction fuel as [|fuel IH]; intros j Hf; simpl.
  { split; [by intros ?%not_elem_of_nil|]. intros (i & ? & _). lia. }
  destruct (Nat.ltb_spec j end_) as [Hj|Hj].
  2: { split; [by intros ?%not_elem_of_nil|]. intros (i & ? & _). lia. }
  specialize (IH (j + 1) ltac:(lia)).
  destruct (String.eqb_spec (e_targetKey (e_at el j)) target) as [He|He]; simpl.
  2: { split; [by intros ?%not_elem_of_nil|]. intros (i & ? & Hm & _). exfalso. apply He, Hm. lia. }
  assert ((exists i, j + 1 <= i < end_ /\ (forall m, j + 1 <= m <= i -> e_targetKey (e_at el m) = target)
     /\ (prefix = true -> e_isPrefix (e_at el i) = true) /\ e_removed (e_at el i) = false
     /\ x = triple_of (e_at el i)) ->
   exists i, j <= i < end_ /\ (forall m, j <= m <= i -> e_targetKey (e_at el m) = target)
     /\ (prefix = true -> e_isPrefix (e_at el i) = true) /\ e_removed (e_at el i) = false
     /\ x = triple_of (e_at el i)) as Hup.
  { intros (i & Hi & Hm & Hrest). exists i. split; [lia|]. split; [|done].
    intros m Hm'. destruct (decide (m = j)) as [->|]; [done|]. apply Hm. lia. }
  assert (forall i, j <= i < end_ /\ (forall m, j <= m <= i -> e_targetKey (e_at el m) = target)
     /\ (prefix = true -> e_isPrefix (e_at el i) = true) /\ e_removed (e_at el i) = false
     /\ x = triple_of (e_at el i) -> i = j \/
     x ∈ iter_sources_at fuel el target prefix (j + 1) end_) as Hdown.
  { intros i (Hi & Hm & Hrest). destruct (decide (i = j)) as [->|]; [by left|]. right. apply IH.
    exists i. split; [lia|]. split; [|done]. intros m Hm'. apply Hm. lia. }
  destruct (prefix && negb (e_isPrefix (e_at el j))) eqn:Ep.
  { rewrite IH. split; [exact Hup|]. intros (i & Hi). destruct (Hdown i Hi) as [->|Hin]; [|by apply IH].
    exfalso. destruct Hi as (_ & _ & Hpre & _). apply andb_true_iff in Ep as [-> Ep].
    by rewrite (Hpre eq_refl) in Ep. }
  destruct (e_removed (e_at el j)) eqn:Er.
  { rewrite IH. split; [exact Hup|]. intros (i & Hi). destruct (Hdown i Hi) as [->|Hin]; [|by apply IH].
    exfalso. destruct Hi as (_ & _ & _ & Hr & _). congruence. }
  rewrite elem_of_cons. split.
  - intros [->|Hin]; [|by apply Hup, IH]. exists j. split; [lia|]. split_and!; [|..|done|done].
    + intros m Hm. by replace m with j by lia.
    + intros ->. simpl in Ep. by destruct (e_isPrefix (e_at el j)).
  - intros (i & Hi). destruct (Hdown i Hi) as [->|Hin]; [|by right]. left. apply Hi.
Qed.

Lemma elem_of_e_live el k :
  k ∈ e_live el <-> exists e, e ∈ e_view el /\ e_removed e = false /\ dkey e = k.
Proof. exact (elem_of_live e_zero (el_edgeData el) (el_edgeOffset el) k). Qed.

(** The smallest key with a given target. *)
Lemma min_key_le t e : e_targetKey e = t -> cmp_le dcmp (dkey (e_set_targetKey t e_zero)) (dkey e).
Proof.
  intros <-. unfold cmp_le, dcmp, cmp_lex, dkey; simpl. rewrite Nat.compare_refl. simpl.
  unfold ecmp, cmp_lex, ekey; simpl. rewrite (cmp_refl String.compare).
  destruct (e_isPrefix e); simpl; [done|].
  destruct (e_sourceNode e); simpl; [|done]. destruct (e_relation e); simpl; [|done].
  by destruct (e_label e).
Qed.

Lemma ecmp_target a b : cmp_le ecmp a b -> cmp_le String.compare a.1.1.1.1 b.1.1.1.1.
Proof.
  unfold cmp_le, ecmp, cmp_lex. destruct (String.compare _ _); [done|done|]. by intros.
Qed.

Lemma iter_sources_pos_spec el pre prefix x :
  edges_ok el ->
  (x ∈ iter_sources_pos el pre prefix (getDirDepth pre) <->
   exists e, e ∈ e_view el /\ e_removed e = false /\ e_targetKey e = pre
     /\ (prefix = true -> e_isPrefix e = true) /\ x = triple_of e).
Proof.
  intros Hok. unfold iter_sources_pos. rewrite getDirDepthBounds_spec by done; simpl.
  destruct (edgeIdx_spec el (e_set_targetKey pre e_zero) (getDirDepth pre) Hok eq_refl) as (Hi & Hlo & Hhi).
  set (idx := edgeIdx el (e_set_targetKey pre e_zero) (getDirDepth pre)) in *.
  pose proof (ao_sorted _ _ _ _ _ (eo_arr _ Hok)) as Hs. change (ssorted dcmp (e_keys el)) in Hs.
  rewrite iter_sources_at_spec by lia. split.
  - intros (i & [Hi1 Hi2] & Hm & Hp & Hr & ->). exists (e_at el i).
    assert (i < length (el_edgeOffset el)) as Hlt.
    { rewrite <- length_e_keys. pose proof (count_lt_le (S (getDirDepth pre)) (e_keys el)). lia. }
    split_and!; [|done|apply Hm; lia|done|done].
    eapply list_elem_of_lookup_2. by apply (e_keys_lookup el i).
  - intros (e & He & Hr & Ht & Hp & ->). apply list_elem_of_lookup in He as [i Hl].
    assert (i < length (el_edgeOffset el)) as Hlt.
    { rewrite <- (length_view e_zero (el_edgeData el)). by eapply lookup_lt_Some. }
    destruct (e_keys_lookup el i Hok Hlt) as [Hv Hk]. rewrite Hv in Hl. injection Hl as Hl.
    assert (idx <= i) as Hle.
    { apply Nat.nlt_ge. intros Hlt'. rewrite Forall_lookup in Hlo.
      specialize (Hlo i (dkey (e_at el i))). rewrite lookup_take_lt in Hlo by done. specialize (Hlo Hk).
      apply (cmp_lt_irrefl dcmp (dkey (e_at el i))). eapply (cmp_lt_le_trans dcmp); [exact Hlo|].
      apply min_key_le. by rewrite Hl. }
    exists i. split; [split; [done|]|].
    { apply (count_lt_lookup _ _ i _ Hs Hk). simpl. rewrite Hl, Ht. lia. }
    rewrite Hl. split_and!; [|done|done|done]. intros m [Hm1 Hm2].
    destruct (decide (m = i)) as [->|Hne]; [by rewrite Hl|].
    destruct (e_keys_lookup el m Hok ltac:(lia)) as [_ Hkm].
    assert (cmp_le dcmp (dkey (e_set_targetKey pre e_zero)) (dkey (e_at el m))) as H1.
    { rewrite Forall_lookup in Hhi. apply (Hhi (m - idx)). rewrite lookup_drop.
      by replace (idx + (m - idx)) with m by lia. }
    assert (cmp_lt dcmp (dkey (e_at el m)) (dkey (e_at el i))) as H2.
    { apply (ssorted_lookup_lt dcmp _ m i _ _ Hs); [lia|done|done]. }
    apply (cmp_lt_le dcmp) in H2. rewrite <- !(cmp_leb_le dcmp), !dcmp_leb_depth in *.
    simpl in H1, H2. rewrite Hl, Ht in H2.
    assert (getDirDepth (e_targetKey (e_at el m)) = getDirDepth pre) as Hd.
    { destruct (Nat.ltb_spec (getDirDepth pre) (getDirDepth (e_targetKey (e_at el m)))).
      - destruct (Nat.ltb_spec (getDirDepth (e_targetKey (e_at el m))) (getDirDepth pre)); [lia|].
        destruct (Nat.eqb_spec (getDirDepth (e_targetKey (e_at el m))) (getDirDepth pre)); [lia|done].
      - destruct (Nat.eqb_spec (getDirDepth pre) (getDirDepth (e_targetKey (e_at el m)))); [lia|done]. }
    rewrite Hd, Nat.ltb_irrefl, Nat.eqb_refl in H1, H2.
    apply (cmp_leb_le ecmp), ecmp_target in H1. apply (cmp_leb_le ecmp), ecmp_target in H2.
    simpl in H1, H2. rewrite Ht in H2. by apply (cmp_le_antisym String.compare).
Qed.

Lemma str_app_nil_r s : s +:+ "" = s.
Proof. induction s as [|c s IH]; [done|]. exact (f_equal (String c) IH). Qed.

Lemma str_app_assoc a b c : (a +:+ b) +:+ c = a +:+ (b +:+ c).
Proof. induction a as [|x a IH]; [done|]. exact (f_equal (String x) IH). Qed.

Lemma count_sep_app a b : count_sep (a +:+ b) = count_sep a + count_sep b.
Proof. induction a as [|x a IH]; [done|]. simpl. rewrite IH. lia. Qed.

Lemma str_app_eq_nil a b : a +:+ b = "" <-> a = "" /\ b = "".
Proof.
  destruct a; simpl; [tauto|]. split; [done|]. by intros [? _].
Qed.

Lemma prefix_iff p s : String.prefix p s = true <-> exists b, s = p +:+ b.
Proof.
  revert s. induction p as [|c p IH]; intros s.
  - split; [by exists s|]. by destruct s.
  - destruct s as [|x s]; simpl; [split; [done|by intros [b Hb]]|].
    destruct (Ascii.ascii_dec c x) as [<-|Hne].
    + rewrite IH. split; intros [b Hb]; exists b; [by rewrite Hb|].
      change (String c s = String c (p +:+ b)) in Hb. congruence.
    + split; [done|]. intros [b Hb]. change (String x s = String c (p +:+ b)) in Hb. congruence.
Qed.

Lemma is_sep_true c : is_sep c = true <-> c = dirSeparator.
Proof. unfold is_sep. apply Ascii.eqb_eq. Qed.

(** The positions the loop of [iterSources] visits. *)
Definition visited (pre rest tk : string) : Prop :=
  exists a c b, rest = a +:+ String c b /\ tk = pre +:+ a /\ (pre +:+ a = "" \/ is_sep c = true).

Definition source_at (el : edgeLookup) (P : edge -> Prop) (x : string * string * string) : Prop :=
  exists e, e ∈ e_view el /\ e_removed e = false /\ P e /\ x = triple_of e.

Lemma iter_sources_loop_spec el x : edges_ok el -> forall rest pre,
  (pre = "" -> forall c r, rest = String c r -> is_sep c = false) ->
  x ∈ iter_sources_loop el pre rest (getDirDepth pre) <->
  source_at el (fun e => e_targetKey e = pre +:+ rest
    \/ e_isPrefix e = true /\ visited pre rest (e_targetKey e)) x.
Proof.
  intros Hok. induction rest as [|c rest IH]; intros pre Hsep; simpl.
  { rewrite (iter_sources_pos_spec el pre false x Hok), str_app_nil_r. split.
    - intros (e & He & Hr & Ht & _ & Hx). exists e. split_and!; [done|done|by left|done].
    - intros (e & He & Hr & [Ht|[_ (a & c & b & Hn & _)]] & Hx); [by exists e|].
      symmetry in Hn. by apply str_app_eq_nil in Hn as [_ ?]. }
  assert (pre +:+ String c rest = (pre +:+ String c "") +:+ rest) as Hfull by (by rewrite str_app_assoc).
  assert (pre +:+ String c "" <> "") as Hnn by (by intros [_ ?]%str_app_eq_nil).
  specialize (IH (pre +:+ String c "") ltac:(done)).
  (* the positions after the first one *)
  assert (forall tk, visited pre (String c rest) tk <->
    (tk = pre /\ (pre = "" \/ is_sep c = true)) \/ visited (pre +:+ String c "") rest tk) as Hvis.
  { intros tk. split.
    - intros ([|c' a] & c2 & b & Hr & Ht & Hs); simpl in Hr; injection Hr as -> ->.
      + left. by rewrite str_app_nil_r in Ht, Hs.
      + right. exists a, c2, b. split; [done|]. rewrite str_app_assoc; simpl. by split.
    - intros [[-> Hs]|(a & c2 & b & -> & -> & Hs)].
      + exists "", c, rest. by rewrite str_app_nil_r.
      + exists (String c a), c2, b. rewrite str_app_assoc in Hs |- *. by simpl in *. }
  assert (getDirDepth (pre +:+ String c "") =
    if String.eqb pre "" || is_sep c then getDirDepth pre + 1 else getDirDepth pre) as Hd.
  { unfold getDirDepth. rewrite (proj2 (String.eqb_neq _ _) Hnn), count_sep_app; simpl.
    destruct (String.eqb_spec pre "") as [->|Hne]; simpl.
    - rewrite (Hsep eq_refl c rest eq_refl). simpl. lia.
    - destruct (is_sep c); simpl; lia. }
  rewrite Hd in IH. rewrite Hfull.
  destruct (String.eqb pre "" || is_sep c) eqn:Ev.
  - rewrite elem_of_app, IH, (iter_sources_pos_spec el pre true x Hok).
    assert (pre = "" \/ is_sep c = true) as Hv.
    { apply orb_true_iff in Ev as [?%String.eqb_eq|?]; auto. }
    split.
    + intros [(e & He & Hr & Ht & Hp & Hx)|(e & He & Hr & Hm & Hx)]; exists e; (split_and!; [done|done| |done]).
      * right. split; [auto|]. apply Hvis. by left.
      * destruct Hm as [?|[Hp Hm]]; [by left|]. right. split; [done|]. apply Hvis. by right.
    + intros (e & He & Hr & [Ht|[Hp Hm%Hvis]] & Hx).
      * right. exists e. split_and!; [done|done|by left|done].
      * destruct Hm as [[Ht _]|Hm]; [left|right]; exists e; split_and!; auto.
  - rewrite IH. assert (~ (pre = "" \/ is_sep c = true)) as Hv.
    { intros [->|H]; [done|]. by rewrite H, orb_true_r in Ev. }
    split; intros (e & He & Hr & Hm & Hx); exists e; (split_and!; [done|done| |done]);
      (destruct Hm as [?|[Hp Hm]]; [by left|right; split; [done|]]).
    + apply Hvis. by right.
    + by apply Hvis in Hm as [[_ ?]|?].
Qed.

Lemma trim_leading_head s c r : trim_leading s = String c r -> is_sep c = false.
Proof.
  induction s as [|x s IH]; simpl; [done|]. destruct (is_sep x) eqn:E; [done|]. by intros [= -> _].
Qed.

Lemma trimmed_head s c r : trimTrailingDirSep s = String c r -> is_sep c = false.
Proof.
  unfold trimTrailingDirSep. destruct (trim_leading s) as [|x t] eqn:E; simpl; [done|].
  apply trim_leading_head in E. rewrite E. simpl. by intros [= -> _].
Qed.

(** When an edge with this key points to the given target. *)
Definition source_match (target : string) (k : edgeKey) : Prop :=
  let '(tk, isPrefix, _, _, _) := k in
  tk = target \/ isPrefix = true /\ (tk = "" \/ String.prefix (tk +:+ "/") target = true).

Lemma iterSources_spec el target x :
  edges_ok el ->
  (x ∈ iterSources el target <->
   exists tk p, (tk, p, x.1.1, x.1.2, x.2) ∈ el_edges el
     /\ source_match (trimTrailingDirSep target) (tk, p, x.1.1, x.1.2, x.2)).
Proof.
  intros Hok. unfold iterSources.
  rewrite (iter_sources_loop_spec el x Hok (trimTrailingDirSep target) "").
  2: { intros _ c r. apply trimmed_head. }
  assert (forall tk, tk = trimTrailingDirSep target \/ visited "" (trimTrailingDirSep target) tk <->
     tk = trimTrailingDirSep target \/ (tk = "" \/ String.prefix (tk +:+ "/") (trimTrailingDirSep target) = true)) as Hv.
  { generalize (trimTrailingDirSep target). intros t tk. rewrite prefix_iff. split.
    - intros [?|(a & c & b & -> & -> & [Ha|Hc%is_sep_true])]; [by left|right; by left|].
      subst c. right. right. exists b. by rewrite str_app_assoc.
    - intros [?|[->|[b ->]]]; [by left| |].
      + destruct t as [|c t]; [by left|]. right. exists "", c, t. split_and!; [done|done|by left].
      + right. exists tk, dirSeparator, b. rewrite str_app_assoc. split_and!; [done|done|by right]. }
  unfold el_edges. setoid_rewrite elem_of_list_to_set. split.
  - intros (e & He & Hr & Hm & ->). exists (e_targetKey e), (e_isPrefix e). split.
    + apply list_elem_of_fmap. exists (dkey e). split; [done|]. apply elem_of_e_live. by exists e.
    + simpl. destruct Hm as [?|[Hp Hm]]; [by left|].
      destruct (proj1 (Hv (e_targetKey e)) (or_intror Hm)) as [?|?]; [by left|by right].
  - intros (tk & p & Hin & Hm). apply list_elem_of_fmap in Hin as (k & Hk & Hin).
    apply elem_of_e_live in Hin as (e & He & Hr & <-). unfold dkey, ekey in Hk; simpl in Hk.
    injection Hk as -> -> H1 H2 H3. exists e. split_and!; [done|done| |].
    + simpl in Hm. destruct Hm as [?|[Hp Hm]]; [by left|].
      destruct (proj2 (Hv (e_targetKey e)) (or_intror Hm)) as [?|?]; [by left|by right].
    + unfold triple_of. rewrite <- H1, <- H2, <- H3. by destruct x as [[? ?] ?].
Qed.

(** ** Operations on the represented sets *)

Lemma elem_of_el_nodes el k : k ∈ el_nodes el <-> k ∈ nk_live el.
Proof. unfold el_nodes. apply elem_of_list_to_set. Qed.

Lemma elem_of_el_edges el k :
  k ∈ el_edges el <-> exists e, e ∈ e_view el /\ e_removed e = false /\ ekey e = k.
Proof.
  unfold el_edges. rewrite elem_of_list_to_set, list_elem_of_fmap. split.
  - intros (d & -> & (e & He & Hr & <-)%elem_of_e_live). by exists e.
  - intros (e & He & Hr & <-). exists (dkey e). split; [done|]. apply elem_of_e_live. by exists e.
Qed.

Lemma dkey_ekey e1 e2 : dkey e1 = dkey e2 <-> ekey e1 = ekey e2.
Proof.
  split; [by intros [= _ H1 H2 H3 H4 H5]; unfold ekey; congruence|].
  intros H. unfold dkey. rewrite H. f_equal. unfold ekey in H. congruence.
Qed.

Lemma elem_of_e_live_dkey el e : dkey e ∈ e_live el <-> ekey e ∈ el_edges el.
Proof.
  rewrite elem_of_e_live, elem_of_el_edges.
  split; intros (e' & H1 & H2 & H3); exists e'; (split_and!; [done|done|]); by apply dkey_ekey.
Qed.

Lemma same_edges el el' :
  el_edgeData el' = el_edgeData el -> el_edgeOffset el' = el_edgeOffset el ->
  el_removedEdges el' = el_removedEdges el -> el_dirDepthBounds el' = el_dirDepthBounds el ->
  el_edges el' = el_edges el /\ (edges_ok el -> edges_ok el').
Proof.
  intros H1 H2 H3 H4. unfold el_edges, e_live. rewrite H1, H2. split; [done|].
  intros [A B]. split; [by rewrite H1, H2, H3|]. unfold e_view in *. by rewrite H1, H2, H4.
Qed.

Lemma same_nodes el el' :
  el_nodeKeyData el' = el_nodeKeyData el -> el_nodeKeyOffset el' = el_nodeKeyOffset el ->
  el_removedNodes el' = el_removedNodes el -> el_nodeKeyMap el' = el_nodeKeyMap el ->
  el_underlay el' = el_underlay el ->
  el_nodes el' = el_nodes el /\ (nodes_ok el -> nodes_ok el').
Proof.
  intros H1 H2 H3 H4 H5. unfold el_nodes, nk_live. rewrite H1, H2. split; [done|].
  intros [A B C]. split; [by rewrite H1, H2, H3| |by rewrite H4, H5].
  intros k. unfold el_has, nk_live. rewrite H1, H2, H4, H5. apply B.
Qed.

Lemma addNodeKey_spec el key :
  el_ok el -> el_ok (addNodeKey el key) /\ el_nodes (addNodeKey el key) = {[key]} ∪ el_nodes el
    /\ el_edges (addNodeKey el key) = el_edges el.
Proof.
  intros [Hn He]. destruct (addNodeKey_ok el key Hn) as [H1 H2].
  destruct (same_edges el (addNodeKey el key)) as [H3 H4];
    [unfold addNodeKey; by repeat case_match..|].
  split_and!; [split; [done|auto]| |done].
  apply set_eq. intros k. rewrite elem_of_union, elem_of_singleton, !elem_of_el_nodes. apply H2.
Qed.

Lemma delNodeKey_spec el key :
  el_ok el -> el_ok (delNodeKey el key) /\ el_nodes (delNodeKey el key) = el_nodes el ∖ {[key]}
    /\ el_edges (delNodeKey el key) = el_edges el.
Proof.
  intros [Hn He]. destruct (delNodeKey_ok el key Hn) as [H1 H2].
  destruct (same_edges el (delNodeKey el key)) as [H3 H4];
    [unfold delNodeKey; by repeat case_match..|].
  split_and!; [split; [done|auto]| |done].
  apply set_eq. intros k. rewrite elem_of_difference, elem_of_singleton, !elem_of_el_nodes. apply H2.
Qed.

Lemma addEdge_spec el e :
  el_ok el -> el_ok (addEdge el e) /\ el_nodes (addEdge el e) = el_nodes el
    /\ el_edges (addEdge el e) = {[ekey (stored e)]} ∪ el_edges el.
Proof.
  intros [Hn He]. destruct (addEdge_ok el e He) as [H1 H2].
  destruct (same_nodes el (addEdge el e)) as [H3 H4]; [unfold addEdge; by repeat case_match..|].
  split_and!; [split; [auto|done]|done|].
  apply set_eq. intros k. rewrite elem_of_union, elem_of_singleton. split.
  - intros (e' & He' & Hr & <-)%elem_of_el_edges.
    assert (dkey e' ∈ e_live (addEdge el e)) as Hin by (apply elem_of_e_live; by exists e').
    apply H2 in Hin as [Hd|Hin]; [left; by apply dkey_ekey|right]. by apply elem_of_e_live_dkey.
  - intros [->|(e' & He' & Hr & <-)%elem_of_el_edges]; apply elem_of_e_live_dkey, H2; [by left|].
    right. apply elem_of_e_live. by exists e'.
Qed.

Lemma delEdge_spec el e :
  el_ok el -> el_ok (delEdge el e) /\ el_nodes (delEdge el e) = el_nodes el
    /\ el_edges (delEdge el e) = el_edges el ∖ {[ekey (stored e)]}.
Proof.
  intros [Hn He]. destruct (delEdge_ok el e He) as [H1 H2].
  destruct (same_nodes el (delEdge el e)) as [H3 H4].
  1-5: unfold delEdge, gcEdges; repeat case_match; done.
  split_and!; [split; [auto|done]|done|].
  apply set_eq. intros k. rewrite elem_of_difference, elem_of_singleton. split.
  - intros (e' & He' & Hr & <-)%elem_of_el_edges.
    assert (dkey e' ∈ e_live (delEdge el e)) as Hin by (apply elem_of_e_live; by exists e').
    apply H2 in Hin as [Hin Hne]. split; [by apply elem_of_e_live_dkey|].
    intros Heq. by apply Hne, dkey_ekey.
  - intros [(e' & He' & Hr & <-)%elem_of_el_edges Hne]. apply elem_of_e_live_dkey, H2. split.
    + apply elem_of_e_live. by exists e'.
    + by intros ?%dkey_ekey.
Qed.

Lemma newEdgeLookup_ok : el_ok newEdgeLookup.
Proof.
  split; split; simpl.
  - split; [split; [constructor|done|by intros o ?%not_elem_of_nil]|constructor|done].
  - intros key. unfold el_has, nk_live; simpl. rewrite lookup_empty.
    split; [done|]. by intros ?%not_elem_of_nil.
  - intros key b _. by rewrite lookup_empty.
  - split; [split; [constructor|done|by intros o ?%not_elem_of_nil]|constructor|done].
  - split; [by intros d b|]. by intros k ?%not_elem_of_nil.
Qed.

(** ** The specification: two sets *)

Inductive el_cmd :=
  | AddNodeKey (key : string) | DelNodeKey (key : string)
  | AddEdge (e : edge) | DelEdge (e : edge).

Definition el_step (el : edgeLookup) (c : el_cmd) : edgeLookup :=
  match c with
  | AddNodeKey key => addNodeKey el key
  | DelNodeKey key => delNodeKey el key
  | AddEdge e => addEdge el e
  | DelEdge e => delEdge el e
  end.

Definition spec_step (s : gset string * gset edgeKey) (c : el_cmd) : gset string * gset edgeKey :=
  match c with
  | AddNodeKey key => ({[key]} ∪ s.1, s.2)
  | DelNodeKey key => (s.1 ∖ {[key]}, s.2)
  | AddEdge e => (s.1, {[ekey (stored e)]} ∪ s.2)
  | DelEdge e => (s.1, s.2 ∖ {[ekey (stored e)]})
  end.

Lemma el_step_refines el c :
  el_ok el -> el_ok (el_step el c)
    /\ (el_nodes (el_step el c), el_edges (el_step el c)) = spec_step (el_nodes el, el_edges el) c.
Proof.
  intros Hok. destruct c as [key|key|e|e]; simpl.
  - destruct (addNodeKey_spec el key Hok) as (H1 & -> & ->). done.
  - destruct (delNodeKey_spec el key Hok) as (H1 & -> & ->). done.
  - destruct (addEdge_spec el e Hok) as (H1 & -> & ->). done.
  - destruct (delEdge_spec el e Hok) as (H1 & -> & ->). done.
Qed.

Lemma el_run_refines cmds : forall el,
  el_ok el -> el_ok (fold_left el_step cmds el)
    /\ (el_nodes (fold_left el_step cmds el), el_edges (fold_left el_step cmds el))
       = fold_left spec_step cmds (el_nodes el, el_edges el).
Proof.
  induction cmds as [|c cmds IH]; intros el Hok; simpl; [done|].
  destruct (el_step_refines el c Hok) as [H1 H2]. rewrite <- H2. by apply IH.
Qed.

(** A lookup with the same contents; only the memory differs. *)
Lemma set_caps_ok caps mem el : el_ok el -> el_ok (set_caps caps mem el).
Proof.
  intros [[Hn Hm Ht] He]. split; [by split|]. destruct (same_edges el (set_caps caps mem el)) as [_ H]; auto.
Qed.

Lemma makeOverlay_spec el over :
  el_ok el -> el_underlay el = None -> makeOverlay el = Ok over ->
  el_ok over /\ el_nodes over = el_nodes el /\ el_edges over = el_edges el
  /\ el_underlay over = Some (el_nodeKeyMap el).
Proof.
  intros [[Hn Hm Ht] He] Hu (caps & _ & [= <-])%outcome_bind_Ok.
  set (over := MkEdgeLookup _ _ _ _ _ _ _ _ _ _ _). split_and!; [|done..]. split; [split; [done| |done]|].
  - intros key. unfold el_has, over; simpl. rewrite lookup_empty, bool_decide_eq_true.
    etrans; [|apply (Hm key)]. unfold el_has. rewrite Hu.
    destruct (el_nodeKeyMap el !! key) as [b|] eqn:E.
    + rewrite (Ht key b Hu E). split; [done|]. by eexists.
    + split; [by intros [? [=]]|done].
  - destruct (same_edges el over) as [_ H]; auto.
Qed.

Lemma el_step_underlay el c : el_underlay (el_step el c) = el_underlay el.
Proof.
  destruct c; simpl; unfold addNodeKey, delNodeKey, gcNodeKeys, addEdge, delEdge, gcEdges;
    repeat case_match; done.
Qed.

Lemma el_run_underlay cmds el : el_underlay (fold_left el_step cmds el) = el_underlay el.
Proof.
  revert el. induction cmds as [|c cmds IH]; intros el; simpl; [done|].
  by rewrite IH, el_step_underlay.
Qed.

Lemma saveOverlay_spec over el saved :
  el_ok over -> el_ok el -> el_underlay el = None -> el_underlay over = Some (el_nodeKeyMap el) ->
  saveOverlay over el = Ok saved ->
  el_ok saved /\ el_nodes saved = el_nodes over /\ el_edges saved = el_edges over.
Proof.
  intros [[Hn Hm _] He] [[_ _ Ht] _] Hu Ho (caps & _ & [= <-])%outcome_bind_Ok.
  set (saved := MkEdgeLookup _ _ _ _ _ _ _ _ _ _ _). split_and!; [|done|done]. split; [split; [done| |]|].
  - intros key. etrans; [|apply (Hm key)]. unfold el_has, saved, save_map; simpl.
    rewrite Hu, Ho, lookup_merge. unfold diag_None.
    destruct (el_nodeKeyMap over !! key) as [[]|] eqn:E1; simpl.
    + by destruct (el_nodeKeyMap el !! key).
    + by destruct (el_nodeKeyMap el !! key).
    + destruct (el_nodeKeyMap el !! key) as [b|] eqn:E2; simpl.
      * by rewrite (Ht key b Hu E2).
      * done.
  - intros key b _. unfold saved, save_map; simpl. rewrite lookup_merge. unfold diag_None.
    destruct (el_nodeKeyMap over !! key) as [[]|] eqn:E1; simpl.
    + destruct (el_nodeKeyMap el !! key); by intros [= <-].
    + by destruct (el_nodeKeyMap el !! key).
    + destruct (el_nodeKeyMap el !! key) as [b'|] eqn:E2; simpl; [|done].
      intros [= <-]. by apply (Ht key).
  - destruct (same_edges over saved) as [_ H]; auto.
Qed.

(** ** Capacities *)

(** Re-slicing [n] node keys and [e] edges panics: the memory of the data suffices
    and that of the offsets does not. *)
Definition diverged (caps : elCaps) (n e : nat) : Prop :=
  (cap_nodeKeyOffset caps < N.of_nat n <= cap_nodeKeyData caps)%N
  \/ (cap_edgeOffset caps < N.of_nat e <= cap_edgeData caps)%N.

Lemma resize_cases d o n : match resize d o n with
  | Ok (d', o') => (N.of_nat n <= d' /\ N.of_nat n <= o' /\ ~ (o < N.of_nat n <= d) /\ (d = o -> d' = o'))%N
  | Panic _ => (o < N.of_nat n <= d)%N
  | OutOfFuel => False
  end.
Proof.
  unfold resize. destruct (N.ltb_spec d (N.of_nat n)).
  - rewrite N.leb_refl. cbn. lia.
  - destruct (N.leb_spec (N.of_nat n) d), (N.leb_spec (N.of_nat n) o); cbn; lia.
Qed.

Lemma resize_both_cases caps n e : match resize_both caps n e with
  | Ok _ => ~ diverged caps n e
  | Panic _ => diverged caps n e
  | OutOfFuel => False
  end.
Proof.
  unfold resize_both, diverged. pose proof (resize_cases (cap_nodeKeyData caps) (cap_nodeKeyOffset caps) n) as H1.
  destruct (resize _ _ n) as [[d o]|msg|]; cbn; [|by left|done].
  pose proof (resize_cases (cap_edgeData caps) (cap_edgeOffset caps) e) as H2.
  destruct (resize _ _ e) as [[d' o']|msg|]; cbn; [|by right|done]. tauto.
Qed.

Lemma makeOverlay_cases el : match makeOverlay el with
  | Ok _ => ~ diverged (overlay_caps el) (length (el_nodeKeyOffset el)) (length (el_edgeOffset el))
  | Panic _ => diverged (overlay_caps el) (length (el_nodeKeyOffset el)) (length (el_edgeOffset el))
  | OutOfFuel => False
  end.
Proof.
  unfold makeOverlay. pose proof (resize_both_cases (overlay_caps el) (length (el_nodeKeyOffset el)) (length (el_edgeOffset el))) as H.
  by destruct (resize_both _ _ _).
Qed.

Lemma saveOverlay_cases over el : match saveOverlay over el with
  | Ok _ => ~ diverged (el_caps el) (length (el_nodeKeyOffset over)) (length (el_edgeOffset over))
  | Panic _ => diverged (el_caps el) (length (el_nodeKeyOffset over)) (length (el_edgeOffset over))
  | OutOfFuel => False
  end.
Proof.
  unfold saveOverlay. pose proof (resize_both_cases (el_caps el) (length (el_nodeKeyOffset over)) (length (el_edgeOffset over))) as H.
  by destruct (resize_both _ _ _).
Qed.

(** Data and offsets have the same capacities. *)
Definition agree (caps : elCaps) : Prop :=
  cap_nodeKeyData caps = cap_nodeKeyOffset caps /\ cap_edgeData caps = cap_edgeOffset caps.

Lemma agree_resize caps n e : agree caps -> exists caps', resize_both caps n e = Ok caps'.
Proof.
  intros [H1 H2]. pose proof (resize_both_cases caps n e) as H. destruct (resize_both caps n e) as [caps'|msg|]; [by exists caps'| |done].
  destruct H; lia.
Qed.

(** The runtime grows slices of all elements alike. *)
Definition uniform : Prop := forall size size' cap_ needed, append_cap size cap_ needed = append_cap size' cap_ needed.

Lemma agree_with_nodeKeys el data offs m r : uniform -> agree (el_caps el) -> length offs = length data ->
  agree (el_caps (with_nodeKeys el data offs m r)).
Proof. intros Hu [H1 H2] Hl. split; [|done]. cbn. unfold cap_for. by rewrite H1, Hl, (Hu nodeKey_size int_size). Qed.

Lemma agree_with_edges el data offs r bounds : uniform -> agree (el_caps el) -> length offs = length data ->
  agree (el_caps (with_edges el data offs r bounds)).
Proof. intros Hu [H1 H2] Hl. split; [done|]. cbn. unfold cap_for. by rewrite H2, Hl, (Hu edge_size int_size). Qed.

Lemma el_ok_lengths el : el_ok el -> length (el_nodeKeyOffset el) = length (el_nodeKeyData el)
  /\ length (el_edgeOffset el) = length (el_edgeData el).
Proof. intros [[Hn _ _] [He _]]. split; eapply oo_length, ao_offs; done. Qed.

Lemma agree_step el c : uniform -> el_ok el -> agree (el_caps el) -> agree (el_caps (el_step el c)).
Proof.
  intros Hu Hok Ha. destruct (el_ok_lengths el Hok) as [Ln Le].
  destruct (el_ok_lengths _ (proj1 (el_step_refines el c Hok))) as [Ln' Le'].
  destruct c as [key|key|e|e]; cbn [el_step] in *.
  - revert Ln'. unfold addNodeKey. destruct (_ && _); [destruct (nk_removed _)|]; intros Ln'; cbn in Ln';
      eapply agree_with_nodeKeys; rewrite ?length_alter; done.
  - revert Ln'. unfold delNodeKey, gcNodeKeys. cbv zeta. destruct (_ && _); [destruct (_ <? _)|]; intros Ln'; cbn in Ln';
      repeat (apply agree_with_nodeKeys; [done| |by rewrite ?length_alter]); done.
  - revert Le'. unfold addEdge. cbv zeta. destruct (_ && _); [destruct (e_removed _)|]; intros Le'; cbn in Le'; [|done|];
      apply agree_with_edges; rewrite ?length_alter; done.
  - revert Le'. unfold delEdge, gcEdges. cbv zeta.
    destruct (_ && _); [destruct (_ <? _)|]; [destruct (gc_depths _ _ _ _)|..]; intros Le'; cbn in Le'; try done;
      repeat (apply agree_with_edges; [done| |by rewrite ?length_alter]); done.
Qed.

Lemma agree_run cmds : uniform -> forall el, el_ok el -> agree (el_caps el) -> agree (el_caps (fold_left el_step cmds el)).
Proof.
  intros Hu. induction cmds as [|c cmds IH]; intros el Hok Ha; [done|]. cbn [fold_left].
  apply IH; [by apply el_step_refines|by apply agree_step].
Qed.

(** ** Properties *)

(** C4: the arrays of offsets with lazy removal and garbage collection implement
    two sets: after any sequence of additions and removals from the empty
    lookup, [iterTargets] reports each matching node key once, and
    [iterSources] reports exactly the edges whose target is the key, or whose
    prefix is empty or a whole number of leading path components of the key. *)
Theorem edge_lookup_refines (cmds : list el_cmd) (key target : string) (isPrefix : bool)
    (source relation label : string) :
  let el := fold_left el_step cmds newEdgeLookup in
  let spec := fold_left spec_step cmds (∅, ∅) in
  NoDup (iterTargets el key isPrefix)
  /\ (forall k, k ∈ iterTargets el key isPrefix <-> k ∈ spec.1 /\ target_match key isPrefix k = true)
  /\ ((source, relation, label) ∈ iterSources el target <->
      exists tk p, (tk, p, source, relation, label) ∈ spec.2
        /\ source_match (trimTrailingDirSep target) (tk, p, source, relation, label)).
Proof.
  cbv zeta. destruct (el_run_refines cmds newEdgeLookup newEdgeLookup_ok) as [[Hn He] Hs].
  change (el_nodes newEdgeLookup) with (∅ : gset string) in Hs.
  change (el_edges newEdgeLookup) with (∅ : gset edgeKey) in Hs. rewrite <- Hs. simpl.
  destruct (iterTargets_spec _ key isPrefix Hn) as [H1 H2]. split_and!; [done| |].
  - intros k. by rewrite H2, elem_of_el_nodes.
  - apply (iterSources_spec _ target (source, relation, label) He).
Qed.

(** C10: Working on an overlay and saving it is the same as working on the lookup
    itself, whatever memory previous overlays have left: the overlay and the saved
    lookup are well-formed and represent the same sets as the lookup on which all
    operations were made, and until the save the lookup underneath is not touched.
    That holds if both calls return.  They panic exactly if the memory for the data
    of node keys or edges suffices for the new size and that for their offsets does
    not, which the code does not look at: capacities of slices whose elements differ
    in size can grow apart.  With a runtime that grows all slices alike both return. *)
Theorem overlay_save (mem : option elCaps) (cmds1 cmds2 : list el_cmd) :
  let el0 := fold_left el_step cmds1 newEdgeLookup in
  let el := set_caps (el_caps el0) mem el0 in
  let direct := fold_left el_step (cmds1 ++ cmds2) newEdgeLookup in
  match makeOverlay el with
  | Ok over0 =>
      let over := fold_left el_step cmds2 over0 in
      ~ diverged (overlay_caps el) (length (el_nodeKeyOffset el)) (length (el_edgeOffset el))
      /\ el_ok over /\ el_nodes over = el_nodes direct /\ el_edges over = el_edges direct
      /\ match saveOverlay over el with
         | Ok saved =>
             ~ diverged (el_caps el) (length (el_nodeKeyOffset over)) (length (el_edgeOffset over))
             /\ el_ok saved /\ el_nodes saved = el_nodes direct /\ el_edges saved = el_edges direct
             /\ forall key, iterTargets saved key false = iterTargets direct key false
         | Panic _ => diverged (el_caps el) (length (el_nodeKeyOffset over)) (length (el_edgeOffset over))
         | OutOfFuel => False
         end
  | Panic _ => diverged (overlay_caps el) (length (el_nodeKeyOffset el)) (length (el_edgeOffset el))
  | OutOfFuel => False
  end
  /\ (uniform -> (forall caps, mem = Some caps -> agree caps) ->
      exists over0 saved, makeOverlay el = Ok over0 /\ saveOverlay (fold_left el_step cmds2 over0) el = Ok saved).
Proof.
  cbv zeta. destruct (el_run_refines cmds1 newEdgeLookup newEdgeLookup_ok) as [H0 _].
  pose proof (el_run_underlay cmds1 newEdgeLookup) as Hu0. rewrite fold_left_app.
  pose proof (fun Hu => agree_run cmds1 Hu newEdgeLookup newEdgeLookup_ok (conj eq_refl eq_refl)) as Ha.
  set (el0 := fold_left el_step cmds1 newEdgeLookup) in *.
  set (el := set_caps (el_caps el0) mem el0). assert (el_ok el) as H1 by by apply set_caps_ok.
  assert (el_underlay el = None) as Hu by exact Hu0.
  destruct (el_run_refines cmds2 el0 H0) as [D1 D2].
  change (el_nodes el0) with (el_nodes el) in D2. change (el_edges el0) with (el_edges el) in D2. split.
  - pose proof (makeOverlay_cases el) as Hc. destruct (makeOverlay el) as [over0|msg|] eqn:E; [|done..].
    destruct (makeOverlay_spec el over0 H1 Hu E) as (O1 & O2 & O3 & O4).
    destruct (el_run_refines cmds2 over0 O1) as [R1 R2]. rewrite O2, O3, <- D2 in R2. injection R2 as Rn Re.
    set (over := fold_left el_step cmds2 over0) in *.
    split_and!; try done. pose proof (saveOverlay_cases over el) as Hs.
    destruct (saveOverlay over el) as [saved|msg|] eqn:Es; [|done..].
    destruct (saveOverlay_spec over el saved R1 H1 Hu) as (S1 & S2 & S3); [unfold over; by rewrite el_run_underlay|done|].
    split_and!; [done..|congruence|congruence|]. intros key. rewrite !iterTargets_full.
    assert (el_has saved key = el_has (fold_left el_step cmds2 el0) key) as ->; [|done].
    apply eq_true_iff_eq. rewrite (no_map _ (proj1 S1)), (no_map _ (proj1 D1)), <- !elem_of_el_nodes. by rewrite S2, Rn.
  - intros Hun Hmem. specialize (Ha Hun). assert (agree (overlay_caps el)) as Hoc.
    { unfold overlay_caps. destruct (el_ok_lengths el H1) as [L1 L2]. change (el_overlay el) with mem.
      destruct mem as [caps|]; [by apply Hmem|]. cbn in L1, L2. split; cbn; congruence. }
    destruct (agree_resize (overlay_caps el) (length (el_nodeKeyOffset el)) (length (el_edgeOffset el)) Hoc) as [caps E].
    unfold makeOverlay. rewrite E. cbn [mbind outcome_bind]. eexists. unfold saveOverlay.
    set (over := fold_left el_step cmds2 _).
    destruct (agree_resize (el_caps el) (length (el_nodeKeyOffset over)) (length (el_edgeOffset over)) Ha) as [caps' ->].
    by eexists.
Qed.

Lemma trim_trailing_app a : trim_trailing (a +:+ "/") = trim_trailing a.
Proof.
  induction a as [|c a IH]; [done|].
  change (trim_trailing (String c a +:+ "/")) with
    (if is_sep c && String.eqb (trim_trailing (a +:+ "/")) "" then ""
     else String c (trim_trailing (a +:+ "/"))).
  by rewrite IH.
Qed.

Lemma trim_add_sep q : trimTrailingDirSep q = q -> trimTrailingDirSep (q +:+ "/") = q.
Proof.
  intros Hq. destruct q as [|c r]; [done|]. pose proof (trimmed_head (String c r) c r Hq) as Hc.
  unfold trimTrailingDirSep in *. simpl trim_leading in Hq |- *. rewrite Hc in Hq |- *.
  change (String c (r +:+ "/")) with (String c r +:+ "/"). by rewrite trim_trailing_app.
Qed.

(** for a key prefix that ends with the directory separator it does not
    matter whether the edge or the node comes first: an existing node is among
    the targets of the prefix iff the edge, once added, is reported when the
    node looks for its sources.  The node key must be trimmed and different from
    the directory itself. *)
Theorem selector_order_irrelevant (el : edgeLookup) (q k source relation label : string) :
  el_ok el -> trimTrailingDirSep q = q -> q <> "" -> trimTrailingDirSep k = k -> k <> q ->
  k ∈ el_nodes el -> (source, relation, label) ∉ iterSources el k ->
  k ∈ iterTargets el (q +:+ "/") true
  <-> (source, relation, label) ∈ iterSources (addEdge el (MkEdge (q +:+ "/") true source relation label false 0)) k.
Proof.
  intros Hok Hq Hqn Hk Hkq Hin Hns.
  rewrite (proj2 (iterTargets_spec el _ true (proj1 Hok)) k), <- elem_of_el_nodes. simpl.
  destruct (addEdge_spec el (MkEdge (q +:+ "/") true source relation label false 0) Hok) as ([_ He] & _ & Hed).
  rewrite (iterSources_spec _ k _ He), Hed, Hk. simpl. unfold stored, ekey; simpl.
  rewrite (trim_add_sep q Hq).
  rewrite (iterSources_spec el k _ (proj2 Hok)), Hk in Hns. split.
  - intros [_ Hp]. exists q, true. split; [set_solver|]. right. auto.
  - intros (tk & p & Hel & Hm). split; [done|]. apply elem_of_union in Hel as [Hel|Hel].
    + apply elem_of_singleton in Hel. injection Hel as -> ->.
      destruct Hm as [->|[_ [?|?]]]; done.
    + exfalso. apply Hns. by exists tk, p.
Qed.

End operations.

#[local] Existing Instance doubling.

Definition demo_cmds : list el_cmd :=
  [AddNodeKey "if/eth0"; AddNodeKey "if/eth1"; AddNodeKey "route/1"; DelNodeKey "if/eth1";
   AddEdge (MkEdge "if/eth0" false "route/1" "depends-on" "iface" false 0)].

Example overlay_save_witness :
  exists over0 saved, makeOverlay (fold_left el_step demo_cmds newEdgeLookup) = Ok over0
    /\ saveOverlay (fold_left el_step demo_cmds over0) (fold_left el_step demo_cmds newEdgeLookup) = Ok saved.
Proof.
  apply (overlay_save None demo_cmds demo_cmds); [intros size size' cap_ needed; reflexivity|by intros caps [=]].
Defined.

(** A runtime that grows slices by a quarter, rounded up to whole pages of memory. *)
Definition paged : Runtime.
Proof.
  refine {| append_cap := fun size cap_ needed =>
    N.max needed ((((cap_ + cap_ / 4) * size + 8191) / 8192 * 8192) / size) |}. lia.
Defined.

(** The capacity of a slice of [size]-byte elements after it grew to [n] of them. *)
Definition grown (size init : N) (n : nat) : N := fold_left (cap_for (RT := paged) size) (seq 1 n) init.

(** Appending 1800 node keys one by one leaves room for 2304 in the data and for
    2048 in the offsets: an overlay with 2100 keys cannot be saved. *)
Example capacities_diverge :
  let caps := MkCaps (grown nodeKey_size initNodeKeysCap 1800) (grown int_size initNodeKeysCap 1800) initEdgesCap initEdgesCap in
  (cap_nodeKeyData caps, cap_nodeKeyOffset caps) = (2304, 2048)%N
  /\ resize_both caps 2100 0 = Panic "slice bounds out of range".
Proof. split; vm_compute; reflexivity. Qed.

Definition demo_el : edgeLookup := fold_left el_step demo_cmds newEdgeLookup.

Example selector_order_irrelevant_witness :
  iterTargets demo_el ("if" +:+ "/") true = ["if/eth0"]
  /\ ("acl/1", "depends-on", "any") ∈
     iterSources (addEdge demo_el (MkEdge "if/" true "acl/1" "depends-on" "any" false 0)) "if/eth0".
Proof.
  split; [vm_compute; reflexivity|].
  apply (selector_order_irrelevant demo_el "if" "if/eth0" "acl/1" "depends-on" "any").
  - apply el_run_refines, newEdgeLookup_ok.
  - reflexivity.
  - discriminate.
  - reflexivity.
  - discriminate.
  - apply (bool_decide_unpack _). vm_compute. exact I.
  - apply (bool_decide_unpack _). vm_compute. exact I.
  - apply (bool_decide_unpack _). vm_compute. exact I.
Defined.

(** Without the separator at the end the order matters: the same node and the
    same selector are connected only when the node comes first, and a node at
    the directory itself only when it comes last. *)
Lemma selector_order_matters :
  iterTargets (addNodeKey newEdgeLookup "a/bc") "a/b" true = ["a/bc"]
  /\ iterSources (addEdge newEdgeLookup (MkEdge "a/b" true "s" "r" "l" false 0)) "a/bc" = []
  /\ iterTargets (addNodeKey newEdgeLookup "a") "a/" true = []
  /\ iterSources (addEdge newEdgeLookup (MkEdge "a/" true "s" "r" "l" false 0)) "a" = [("s", "r", "l")].
Proof. vm_compute. done. Qed.
