(* ===== verification/Flags.v ===== *)
(** * Value flags

    [plugins/kvscheduler/value_flags.go] and the flag interface of the graph. *)
From stdpp Require Import pretty.
From S2P Require Import Prelude Api.

Definition LastUpdateFlagName : string := "last-update".
Definition LastUpdateFlagIndex : nat := 0.
Definition ErrorFlagName : string := "error".
Definition ErrorFlagIndex : nat := 1.
Definition ValueStateFlagName : string := "value-state".
Definition ValueStateFlagIndex : nat := 2.
Definition UnavailValueFlagName : string := "unavailable".
Definition UnavailValueFlagIndex : nat := 3.
Definition DescriptorFlagName : string := "descriptor".
Definition DescriptorFlagIndex : nat := 4.
Definition DerivedFlagName : string := "derived".
Definition DerivedFlagIndex : nat := 5.

(** The result -1 of the code is [None]. *)
Definition flagNameToIndex (flagName : string) : option nat :=
  if String.eqb flagName LastUpdateFlagName then Some LastUpdateFlagIndex
  else if String.eqb flagName ErrorFlagName then Some ErrorFlagIndex
  else if String.eqb flagName ValueStateFlagName then Some ValueStateFlagIndex
  else if String.eqb flagName UnavailValueFlagName then Some UnavailValueFlagIndex
  else if String.eqb flagName DescriptorFlagName then Some DescriptorFlagIndex
  else if String.eqb flagName DerivedFlagName then Some DerivedFlagIndex
  else None.

Section flags.
Context {X : Ext}.

Record LastUpdate := MkLastUpdate {
  lu_txnSeqNum : N;
  lu_txnOp : TxnOperation;
  lu_value : option Value;
  lu_revert : bool;
  lu_retryEnabled : bool;
  lu_retryArgs : option RetryOpt
}.

Inductive Flag :=
  | LastUpdateFlag (u : LastUpdate)
  | ErrorFlag (err : option error) (retriable : bool)
  | ValueStateFlag (valueState : ValueState)
  | UnavailValueFlag
  | DescriptorFlag (descriptorName : string)
  | DerivedFlag (baseKey : string).

Definition flag_GetIndex (f : Flag) : nat :=
  match f with
  | LastUpdateFlag _ => LastUpdateFlagIndex
  | ErrorFlag _ _ => ErrorFlagIndex
  | ValueStateFlag _ => ValueStateFlagIndex
  | UnavailValueFlag => UnavailValueFlagIndex
  | DescriptorFlag _ => DescriptorFlagIndex
  | DerivedFlag _ => DerivedFlagIndex
  end.

Definition flag_GetName (f : Flag) : string :=
  match f with
  | LastUpdateFlag _ => LastUpdateFlagName
  | ErrorFlag _ _ => ErrorFlagName
  | ValueStateFlag _ => ValueStateFlagName
  | UnavailValueFlag => UnavailValueFlagName
  | DescriptorFlag _ => DescriptorFlagName
  | DerivedFlag _ => DerivedFlagName
  end.

Definition flag_GetValue (f : Flag) : string :=
  match f with
  | LastUpdateFlag u => "TXN-" +:+ pretty (lu_txnSeqNum u)
  | ErrorFlag None _ => ""
  | ErrorFlag (Some err) _ => Error err
  | ValueStateFlag s => ValueState_String s
  | UnavailValueFlag => ""
  | DescriptorFlag n => n
  | DerivedFlag b => b
  end.

(** The array of flags of a node: at most one flag per index. *)
Abbreviation flagArray := (gmap nat Flag).

Definition set_flags (fs : list Flag) (flags : flagArray) : flagArray :=
  fold_left (fun acc f => <[flag_GetIndex f := f]> acc) fs flags.
Definition del_flags (idxs : list nat) (flags : flagArray) : flagArray :=
  fold_left (fun acc i => delete i acc) idxs flags.

(** Every flag is stored at its own index. *)
Definition flags_ok (flags : flagArray) : Prop := map_Forall (fun i f => flag_GetIndex f = i) flags.

(** [FlagSelector]: nodes with, or without, the listed flags. *)
Record FlagSelector := MkFlagSelector { fs_with : bool; fs_flags : list Flag }.

Definition WithFlags (flags : list Flag) : FlagSelector := MkFlagSelector true flags.
Definition WithoutFlags (flags : list Flag) : FlagSelector := MkFlagSelector false flags.

(** The flag part of [GetNodes]. *)
Definition has_flag (flags : flagArray) (flag : Flag) : bool :=
  match flags !! flag_GetIndex flag with
  | None => false
  | Some nodeFlag =>
      String.eqb (flag_GetValue flag) "" || String.eqb (flag_GetValue nodeFlag) (flag_GetValue flag)
  end.

Definition flags_selected (flags : flagArray) (selectors : list FlagSelector) : bool :=
  forallb (fun sel => forallb (fun flag => Bool.eqb (has_flag flags flag) (fs_with sel)) (fs_flags sel))
    selectors.

Lemma set_flags_ok fs flags : flags_ok flags -> flags_ok (set_flags fs flags).
Proof.
  unfold set_flags. revert flags. induction fs as [|f fs IH]; intros flags H; simpl; [done|].
  apply IH. by apply map_Forall_insert_2.
Qed.

Lemma del_flags_ok idxs flags : flags_ok flags -> flags_ok (del_flags idxs flags).
Proof.
  unfold del_flags. revert flags. induction idxs as [|i idxs IH]; intros flags H; simpl; [done|].
  apply IH. by apply map_Forall_delete.
Qed.
End flags.
