(* ===== verification/Graph.v ===== *)
(** * The graph: targets and nodes

    [plugins/kvscheduler/internal/graph]: graph_api.go, node_read.go and
    node_write.go.  Nodes live in a heap, because the scheduler keeps handles of
    nodes that may meanwhile be deleted from the graph. *)
From S2P Require Import Prelude KeySet Monad Api Flags EdgeLookup.

Section graph.
Context {X : Ext} {MO : MapOrder}.

(** ** Targets *)

Record TargetSelector := MkTargetSelector {
  sel_KeyPrefixes : list string;
  sel_KeySelector : option KeySelector
}.

Record RelationTargetDef := MkTargetDef {
  rtd_Relation : string;
  rtd_Label : string;
  rtd_Key : string;
  rtd_Selector : TargetSelector
}.

(** [Compare]: equality except for key selectors, and the order by relation and
    label; the order is 0 when only the definition differs. *)
Definition Compare (t t2 : RelationTargetDef) : bool * Z :=
  if String.ltb (rtd_Relation t) (rtd_Relation t2) then (false, (-1)%Z)
  else if String.ltb (rtd_Relation t2) (rtd_Relation t) then (false, 1%Z)
  else if String.ltb (rtd_Label t) (rtd_Label t2) then (false, (-1)%Z)
  else if String.ltb (rtd_Label t2) (rtd_Label t) then (false, 1%Z)
  else if negb (String.eqb (rtd_Key t) (rtd_Key t2)) then (false, 0%Z)
  else if negb (length (sel_KeyPrefixes (rtd_Selector t)) =? length (sel_KeyPrefixes (rtd_Selector t2)))
  then (false, 0%Z)
  else if negb (forallb (fun p => String.eqb p.1 p.2)
      (zip (sel_KeyPrefixes (rtd_Selector t)) (sel_KeyPrefixes (rtd_Selector t2)))) then (false, 0%Z)
  else (true, 0%Z).

Definition WithKeySelector (t : RelationTargetDef) : bool :=
  String.eqb (rtd_Key t) "" && bool_decide (is_Some (sel_KeySelector (rtd_Selector t))).

Definition Singleton_ (t : RelationTargetDef) : bool :=
  negb (String.eqb (rtd_Key t) "")
  || (bool_decide (sel_KeySelector (rtd_Selector t) = None)
      && (length (sel_KeyPrefixes (rtd_Selector t)) =? 0)).

Definition expectedKey (target : RelationTargetDef) : string :=
  if negb (String.eqb (rtd_Key target) "") then rtd_Key target
  else String.concat " | " (map (fun p => p +:+ "*") (sel_KeyPrefixes (rtd_Selector target))).

Record Target := MkTarget {
  tg_Relation : string;
  tg_Label : string;
  tg_ExpectedKey : string;
  tg_MatchingKeys : KeySet
}.

Definition tg_with_keys (t : Target) (ks : KeySet) : Target :=
  MkTarget (tg_Relation t) (tg_Label t) (tg_ExpectedKey t) ks.
Definition tg_with_expected (t : Target) (k : string) : Target :=
  MkTarget (tg_Relation t) (tg_Label t) k (tg_MatchingKeys t).

Definition Targets := list Target.

Definition tg_zero : Target := MkTarget "" "" "" (NewSingletonKeySet "").

Definition lookupIdx (ts : Targets) (relation label : string) : nat :=
  sort_search (length ts) (fun i =>
    let t := nth i ts tg_zero in
    if String.ltb relation (tg_Relation t) then true
    else if String.eqb relation (tg_Relation t) && String.leb label (tg_Label t) then true
    else false).

(** The target is a reference into the array: here whether it is there, and
    its index. *)
Definition GetTargetForLabel (ts : Targets) (relation label : string) : option Target * nat :=
  let idx := lookupIdx ts relation label in
  match ts !! idx with
  | Some t =>
      if String.eqb (tg_Relation t) relation && String.eqb (tg_Label t) label then (Some t, idx)
      else (None, idx)
  | None => (None, idx)
  end.

Definition RelationBegin (ts : Targets) (relation : string) : nat :=
  let idx := lookupIdx ts relation "" in
  match ts !! idx with
  | Some t => if String.eqb (tg_Relation t) relation then idx else length ts
  | None => length ts
  end.

(** [copy]: the key sets are copied on write. *)
Definition Targets_copy (ts : Targets) : Targets :=
  map (fun t => tg_with_keys t (ks_CopyOnWrite (tg_MatchingKeys t))) ts.

(** The targets of one relation: a block that starts at [RelationBegin]. *)
Fixpoint take_relation (relation : string) (ts : Targets) : Targets :=
  match ts with
  | [] => []
  | t :: ts => if String.eqb (tg_Relation t) relation then t :: take_relation relation ts else []
  end.
Definition relation_targets (ts : Targets) (relation : string) : Targets :=
  take_relation relation (drop (RelationBegin ts relation) ts).

(** [append], shift right and store; shift left and cut the end. *)
Definition insert_target (idx : nat) (t : Target) (ts : Targets) : Targets :=
  let ts' := ts ++ [tg_zero] in
  <[idx := t]> (if idx <? length ts' - 1 then go_copy (idx + 1) idx ts' else ts').
Definition remove_target (idx : nat) (ts : Targets) : Targets :=
  take (length ts - 1) (if idx <? length ts - 1 then go_copy idx (idx + 1) ts else ts).

(** ** Nodes *)

Record RuntimeTarget := MkRuntimeTarget { rt_Label : string; rt_Nodes : list (option nat) }.

(** [node] together with the embedded [nodeR]. *)
Record node := MkNode {
  n_key : string;
  n_label : string;
  n_value : option Value;
  n_flags : gmap nat Flag;
  n_metadata : option Metadata;
  n_metadataAdded : bool;
  n_metadataMap : string;
  n_targets : Targets;
  n_targetsDef : list RelationTargetDef;
  n_sources : Targets;
  n_metaInSync : bool;
  n_dataUpdated : bool;
  n_targetsUpdated : bool;
  n_sourcesUpdated : bool
}.

(** A completely new node. *)
Definition newNode (key : string) : node :=
  MkNode key "" None ∅ None false "" [] [] [] true true false false.

Definition nset_label l (n : node) := MkNode (n_key n) l (n_value n) (n_flags n) (n_metadata n)
  (n_metadataAdded n) (n_metadataMap n) (n_targets n) (n_targetsDef n) (n_sources n)
  (n_metaInSync n) true (n_targetsUpdated n) (n_sourcesUpdated n).
Definition nset_value v (n : node) := MkNode (n_key n) (n_label n) v (n_flags n) (n_metadata n)
  (n_metadataAdded n) (n_metadataMap n) (n_targets n) (n_targetsDef n) (n_sources n)
  (n_metaInSync n) true (n_targetsUpdated n) (n_sourcesUpdated n).
Definition nset_flags f (n : node) := MkNode (n_key n) (n_label n) (n_value n) f (n_metadata n)
  (n_metadataAdded n) (n_metadataMap n) (n_targets n) (n_targetsDef n) (n_sources n)
  (n_metaInSync n) true (n_targetsUpdated n) (n_sourcesUpdated n).
Definition nset_metadata m (n : node) := MkNode (n_key n) (n_label n) (n_value n) (n_flags n) m
  (n_metadataAdded n) (n_metadataMap n) (n_targets n) (n_targetsDef n) (n_sources n)
  false true (n_targetsUpdated n) (n_sourcesUpdated n).
Definition nset_metadataMap m (n : node) := MkNode (n_key n) (n_label n) (n_value n) (n_flags n)
  (n_metadata n) (n_metadataAdded n) m (n_targets n) (n_targetsDef n) (n_sources n)
  false true (n_targetsUpdated n) (n_sourcesUpdated n).
Definition nset_synced added (n : node) := MkNode (n_key n) (n_label n) (n_value n) (n_flags n)
  (n_metadata n) added (n_metadataMap n) (n_targets n) (n_targetsDef n) (n_sources n)
  true (n_dataUpdated n) (n_targetsUpdated n) (n_sourcesUpdated n).
Definition nset_targets ts updated (n : node) := MkNode (n_key n) (n_label n) (n_value n) (n_flags n)
  (n_metadata n) (n_metadataAdded n) (n_metadataMap n) ts (n_targetsDef n) (n_sources n)
  (n_metaInSync n) (n_dataUpdated n) (updated || n_targetsUpdated n) (n_sourcesUpdated n).
Definition nset_sources ss updated (n : node) := MkNode (n_key n) (n_label n) (n_value n) (n_flags n)
  (n_metadata n) (n_metadataAdded n) (n_metadataMap n) (n_targets n) (n_targetsDef n) ss
  (n_metaInSync n) (n_dataUpdated n) (n_targetsUpdated n) (updated || n_sourcesUpdated n).
Definition nset_targetsDef td (n : node) := MkNode (n_key n) (n_label n) (n_value n) (n_flags n)
  (n_metadata n) (n_metadataAdded n) (n_metadataMap n) (n_targets n) td (n_sources n)
  (n_metaInSync n) true (n_targetsUpdated n) (n_sourcesUpdated n).

(** [nodeR.copy] followed by [newNode] of the copy. *)
Definition node_copy (n : node) : node :=
  MkNode (n_key n) (n_label n) (n_value n) (n_flags n) (n_metadata n) (n_metadataAdded n)
    (n_metadataMap n) (Targets_copy (n_targets n)) (n_targetsDef n) (Targets_copy (n_sources n))
    true false false false.

(** ** The graph a node belongs to *)

(** A revision of a node kept in the timeline. *)
Record RecordedNode := MkRecordedNode {
  rn_Since : Z;
  rn_Until : option Z;
  rn_Key : string;
  rn_Label : string;
  rn_Value : option RecordedProtoMessage;
  rn_Flags : gmap nat Flag;
  rn_MetadataFields : list (string * list string);
  rn_Targets : Targets;
  rn_TargetUpdateOnly : bool
}.

Record graphR := MkGraphR {
  g_edgeLookup : edgeLookup;
  g_heap : gmap nat node;
  g_next : nat;
  g_nodes : gmap string nat;
  g_mappings : gmap string Mapping;
  g_timeline : gmap string (list RecordedNode);
  g_wCopy : bool;
  g_unsaved : KeySet
}.

Definition gset_edgeLookup el (g : graphR) := MkGraphR el (g_heap g) (g_next g) (g_nodes g)
  (g_mappings g) (g_timeline g) (g_wCopy g) (g_unsaved g).
Definition gset_heap h (g : graphR) := MkGraphR (g_edgeLookup g) h (g_next g) (g_nodes g)
  (g_mappings g) (g_timeline g) (g_wCopy g) (g_unsaved g).
Definition gset_nodes ns (g : graphR) := MkGraphR (g_edgeLookup g) (g_heap g) (g_next g) ns
  (g_mappings g) (g_timeline g) (g_wCopy g) (g_unsaved g).
Definition gset_mappings ms (g : graphR) := MkGraphR (g_edgeLookup g) (g_heap g) (g_next g) (g_nodes g)
  ms (g_timeline g) (g_wCopy g) (g_unsaved g).
Definition gset_timeline tl (g : graphR) := MkGraphR (g_edgeLookup g) (g_heap g) (g_next g) (g_nodes g)
  (g_mappings g) tl (g_wCopy g) (g_unsaved g).
Definition gset_unsaved u (g : graphR) := MkGraphR (g_edgeLookup g) (g_heap g) (g_next g) (g_nodes g)
  (g_mappings g) (g_timeline g) (g_wCopy g) u.
(** Allocate a node. *)
Definition galloc (n : node) (g : graphR) := MkGraphR (g_edgeLookup g) (<[g_next g := n]> (g_heap g))
  (S (g_next g)) (<[n_key n := g_next g]> (g_nodes g)) (g_mappings g) (g_timeline g) (g_wCopy g)
  (g_unsaved g).

Definition G := M graphR.

(** Dereference a node handle; [nil] panics. *)
Definition node_at (r : nat) : G node :=
  g ← get; deref "nil pointer dereference" (g_heap g !! r).
Definition node_upd (r : nat) (f : node -> node) : G unit :=
  n ← node_at r; modify (fun g => gset_heap (<[r := f n]> (g_heap g)) g).
Definition the_node (r : option nat) : G nat := deref "nil pointer dereference" r.

(** [node.graph.nodes[key]]. *)
Definition node_ref (key : string) : G (option nat) := gets (fun g => g_nodes g !! key).

Definition add_unsaved (key : string) : G unit :=
  modify (fun g => gset_unsaved (ks_Add (g_unsaved g) key).1 g).

(** ** node_read.go *)

Definition targets_to_runtime (nodes : gmap string nat) (ts : Targets) : list RuntimeTarget :=
  map (fun t => MkRuntimeTarget (tg_Label t)
         (map (fun key => nodes !! key) (ks_Iterate (tg_MatchingKeys t)))) ts.

Definition GetTargets (r : nat) (relation : string) : G (list RuntimeTarget) :=
  n ← node_at r; g ← get;
  mret (targets_to_runtime (g_nodes g) (relation_targets (n_targets n) relation)).

Definition GetSources (r : nat) (relation : string) : G (list RuntimeTarget) :=
  n ← node_at r; g ← get;
  mret (targets_to_runtime (g_nodes g) (relation_targets (n_sources n) relation)).

(** ** node_write.go *)

Definition SetLabel (r : nat) (label : string) : G unit := node_upd r (nset_label label).
Definition SetValue (r : nat) (value : option Value) : G unit := node_upd r (nset_value value).
Definition SetFlags (r : nat) (flags : list Flag) : G unit :=
  node_upd r (fun n => nset_flags (set_flags flags (n_flags n)) n).
Definition DelFlags (r : nat) (idxs : list nat) : G unit :=
  node_upd r (fun n => nset_flags (del_flags idxs (n_flags n)) n).

(** [syncMetadata] applies metadata changes to the associated mapping. *)
Definition syncMetadata (r : nat) : G unit :=
  n ← node_at r; g ← get;
  if n_metaInSync n then skip
  else
    match g_mappings g !! n_metadataMap n with
    | None => node_upd r (nset_synced (n_metadataAdded n))
    | Some mapping =>
        let set_mapping m := modify (fun g => gset_mappings (<[n_metadataMap n := m]> (g_mappings g)) g) in
        if n_metadataAdded n then
          match n_metadata n with
          | None =>
              set_mapping (nm_Delete mapping (n_label n)) ;; node_upd r (nset_synced false)
          | Some _ =>
              whenM (negb (DeepEqual (nm_GetValue mapping (n_label n)) (n_metadata n)))
                (set_mapping (nm_Update mapping (n_label n) (n_metadata n))) ;;
              node_upd r (nset_synced true)
          end
        else
          match n_metadata n with
          | None => node_upd r (nset_synced false)
          | Some md =>
              set_mapping (nm_Put mapping (n_label n) md) ;; node_upd r (nset_synced true)
          end
    end.

Definition SetMetadataMap (r : nat) (mapName : string) : G unit :=
  n ← node_at r;
  if String.eqb (n_metadataMap n) "" then
    node_upd r (nset_metadataMap mapName) ;;
    g ← get; whenM (negb (g_wCopy g)) (syncMetadata r)
  else skip.

Definition SetMetadata (r : nat) (metadata : option Metadata) : G unit :=
  node_upd r (nset_metadata metadata) ;;
  g ← get; whenM (negb (g_wCopy g)) (syncMetadata r).

(** [addToSources] adds node2 into the sources of the node [r]. *)
Definition addToSources (r : nat) (key2 : string) (relation label : string) : G unit :=
  n ← node_at r;
  let '(s, idx) := GetTargetForLabel (n_sources n) relation label in
  let sources := match s with
    | Some _ => n_sources n
    | None => insert_target idx (MkTarget relation label "" (NewSliceBasedKeySet [])) (n_sources n)
    end in
  t ← deref "index out of range" (sources !! idx);
  let '(ks, updated) := ks_Add (tg_MatchingKeys t) key2 in
  node_upd r (nset_sources (<[idx := tg_with_keys t ks]> sources) updated) ;;
  whenM updated (add_unsaved (n_key n)).

(** [addToTargets] adds node [r2] into the [i]-th target of node [r]. *)
Definition addToTargets (r r2 i : nat) : G unit :=
  n ← node_at r; n2 ← node_at r2;
  target ← deref "nil pointer dereference" (n_targets n !! i);
  let '(ks, updated) := ks_Add (tg_MatchingKeys target) (n_key n2) in
  node_upd r (nset_targets (<[i := tg_with_keys target ks]> (n_targets n)) updated) ;;
  if (updated : bool) then
    add_unsaved (n_key n) ;;
    addToSources r2 (n_key n) (tg_Relation target) (tg_Label target)
  else skip.

(** [removeFromTarget] removes the key from the target; sources are not updated. *)
Definition removeFromTarget (r : nat) (key relation label : string) : G unit :=
  n ← node_at r;
  let '(t, idx) := GetTargetForLabel (n_targets n) relation label in
  target ← deref "nil pointer dereference" t;
  let '(ks, updated) := ks_Del (tg_MatchingKeys target) key in
  node_upd r (nset_targets (<[idx := tg_with_keys target ks]> (n_targets n)) updated) ;;
  whenM updated (add_unsaved (n_key n)).

(** [removeFromSources] removes the key from the sources of the relation; an
    empty entry is removed. *)
Definition removeFromSources (r : nat) (relation label key : string) : G unit :=
  n ← node_at r;
  let '(t, idx) := GetTargetForLabel (n_sources n) relation label in
  source ← deref "nil pointer dereference" t;
  let '(ks, updated) := ks_Del (tg_MatchingKeys source) key in
  if (updated : bool) then
    node_upd r (nset_sources
      (if ks_Length ks =? 0 then remove_target idx (n_sources n)
       else <[idx := tg_with_keys source ks]> (n_sources n)) true) ;;
    add_unsaved (n_key n)
  else node_upd r (nset_sources (<[idx := tg_with_keys source ks]> (n_sources n)) false).

(** The edges of a target definition. *)
Definition target_edges (key : string) (target : RelationTargetDef) : list edge :=
  let mk k p := MkEdge k p key (rtd_Relation target) (rtd_Label target) false 0 in
  if negb (String.eqb (rtd_Key target) "") then [mk (rtd_Key target) false]
  else match sel_KeyPrefixes (rtd_Selector target) with
    | [] => [mk "" true]
    | ps => map (fun p => mk p true) ps
    end.

Definition addDelEdges (r : nat) (target : RelationTargetDef) (del : bool) : G unit :=
  n ← node_at r;
  forM (target_edges (n_key n) target) (fun e =>
    modify (fun g => gset_edgeLookup
      ((if del then delEdge else addEdge) (g_edgeLookup g) e) g)).

(** [iterEveryEdge]: the keys the callback is called with. *)
Definition iterEveryEdge (el : edgeLookup) (target : RelationTargetDef) : list string :=
  let checkTarget key :=
    negb (WithKeySelector target)
    || match sel_KeySelector (rtd_Selector target) with Some f => f key | None => true end in
  let keys :=
    if negb (String.eqb (rtd_Key target) "") then iterTargets el (rtd_Key target) false
    else match sel_KeyPrefixes (rtd_Selector target) with
      | [] => iterTargets el "" true
      | ps => concat (map (fun p => iterTargets el p true) ps)
      end in
  filter (fun k => checkTarget k = true) keys.

Definition connect_targets (r i : nat) (target : RelationTargetDef) : G unit :=
  g ← get;
  forM (iterEveryEdge (g_edgeLookup g) target) (fun key =>
    ref ← node_ref key; r2 ← the_node ref; addToTargets r r2 i).

Definition new_matching (singleton : bool) : KeySet :=
  if singleton then NewSingletonKeySet "" else NewSliceBasedKeySet [].

Definition upd_target (r i : nat) (f : Target -> Target) : G unit :=
  n ← node_at r;
  t ← deref "index out of range" (n_targets n !! i);
  node_upd r (nset_targets (<[i := f t]> (n_targets n)) false).

(** Remove the node from the sources of all nodes its [i]-th target matches. *)
Definition disconnect_targets (r i : nat) : G unit :=
  n ← node_at r;
  target ← deref "index out of range" (n_targets n !! i);
  forM (ks_Iterate (tg_MatchingKeys target)) (fun key =>
    ref ← node_ref key; r2 ← the_node ref;
    removeFromSources r2 (tg_Relation target) (tg_Label target) (n_key n)).

(** The same target definition: only a key selector needs to be run again. *)
Definition st_equal (r i : nat) (td : RelationTargetDef) : G unit :=
  if WithKeySelector td then
    n ← node_at r;
    target ← deref "index out of range" (n_targets n !! i);
    forM (filter (fun key => match sel_KeySelector (rtd_Selector td) with
            | Some f => negb (f key) | None => false end = true)
          (ks_Iterate (tg_MatchingKeys target)))
      (fun key =>
        upd_target r i (fun t => tg_with_keys t (ks_Del (tg_MatchingKeys t) key).1) ;;
        ref ← node_ref key; r2 ← the_node ref;
        removeFromSources r2 (tg_Relation target) (tg_Label target) (n_key n)) ;;
    connect_targets r i td
  else skip.

(** An updated target definition: previous edges are replaced. *)
Definition st_update (r i : nat) (td oldTd : RelationTargetDef) : G unit :=
  upd_target r i (fun t => tg_with_expected t (expectedKey td)) ;;
  disconnect_targets r i ;;
  addDelEdges r oldTd true ;;
  upd_target r i (fun t => tg_with_keys t (new_matching (Singleton_ td))) ;;
  addDelEdges r td false ;;
  connect_targets r i td.

Definition st_new (r i : nat) (td : RelationTargetDef) : G unit :=
  addDelEdges r td false ;;
  node_upd r (fun n => nset_targets
    (insert_target i (MkTarget (rtd_Relation td) (rtd_Label td) "" (new_matching (Singleton_ td)))
       (n_targets n)) false n) ;;
  upd_target r i (fun t => tg_with_expected t (expectedKey td)) ;;
  connect_targets r i td.

Definition st_obsolete (r i : nat) (oldTd : RelationTargetDef) : G unit :=
  disconnect_targets r i ;;
  addDelEdges r oldTd true ;;
  node_upd r (fun n => nset_targets (remove_target i (n_targets n)) false n).

(** The merge of the new and the old target definitions. *)
Fixpoint set_targets_loop (fuel : nat) (r i : nat) (tds old : list RelationTargetDef) : G unit :=
  match fuel with
  | O => no_fuel
  | S fuel =>
      match tds, old with
      | [], [] => skip
      | td :: tds', o :: old' =>
          let '(equal, order) := Compare td o in
          if (equal : bool) then st_equal r i td ;; set_targets_loop fuel r (S i) tds' old'
          else if (order =? 0)%Z then st_update r i td o ;; set_targets_loop fuel r (S i) tds' old'
          else if (order =? -1)%Z then st_new r i td ;; set_targets_loop fuel r (S i) tds' old
          else st_obsolete r i o ;; set_targets_loop fuel r i tds old'
      | td :: tds', [] => st_new r i td ;; set_targets_loop fuel r (S i) tds' old
      | [], o :: old' => st_obsolete r i o ;; set_targets_loop fuel r i tds old'
      end
  end.

Definition SetTargets (r : nat) (targetsDef : list RelationTargetDef) : G unit :=
  let sorted := sort_by (cmp_lex String.compare String.compare)
    (fun td => (rtd_Relation td, rtd_Label td)) targetsDef in
  n ← node_at r;
  set_targets_loop (S (length sorted + length (n_targetsDef n))) r 0 sorted (n_targetsDef n) ;;
  node_upd r (nset_targetsDef sorted) ;;
  n ← node_at r;
  if length (n_targetsDef n) =? length (n_targets n) then skip
  else panic "SetTargets: len(node.targetsDef) != len(node.targets)".
End graph.
