(* ===== verification/GraphRW.v ===== *)
(** * The graph: read and write access

    [plugins/kvscheduler/internal/graph]: graph_read.go, graph_write.go and
    graph_impl.go. *)
From S2P Require Import Prelude KeySet Monad Api Flags EdgeLookup Graph.

Section graph_rw.
Context {X : Ext} {MO : MapOrder}.

(** ** graph_read.go *)

Definition newGraphR : graphR :=
  MkGraphR newEdgeLookup ∅ 0 ∅ ∅ ∅ false (NewSliceBasedKeySet []).

Definition GetMetadataMap (g : graphR) (mapName : string) : option Mapping := g_mappings g !! mapName.

Definition GetNode (g : graphR) (key : string) : option nat := g_nodes g !! key.

(** The node of a key, through the heap. *)
Definition lookup_node (g : graphR) (key : string) : option node := g_nodes g !! key ≫= fun r => g_heap g !! r.

Definition node_selected (keySelector : option KeySelector) (selectors : list FlagSelector)
    (key : string) (n : node) : bool :=
  match keySelector with Some f => f key | None => true end && flags_selected (n_flags n) selectors.

Definition GetNodes (g : graphR) (keySelector : option KeySelector) (selectors : list FlagSelector) :
    list nat :=
  omap (fun key => r ← g_nodes g !! key; n ← g_heap g !! r;
          if node_selected keySelector selectors key n then Some r else None)
    (map_order (dom (g_nodes g))).

Definition GetNodeTimeline (g : graphR) (key : string) : list RecordedNode :=
  default [] (g_timeline g !! key).

(** [GetFlagStats]: the total count and the count per flag value. *)
Definition count_record (flagIndex : nat) (stats : nat * gmap string nat) (record : RecordedNode) :
    nat * gmap string nat :=
  if rn_TargetUpdateOnly record then stats
  else
    match rn_Flags record !! flagIndex with
    | None => stats
    | Some flag =>
        let v := flag_GetValue flag in
        (S stats.1, <[v := S (default 0 (stats.2 !! v))]> stats.2)
    end.

Definition GetFlagStats (g : graphR) (flagIndex : nat) (selector : option KeySelector) :
    nat * gmap string nat :=
  fold_left (fun stats key =>
      if match selector with Some f => f key | None => true end
      then fold_left (count_record flagIndex) (GetNodeTimeline g key) stats else stats)
    (map_order (dom (g_timeline g))) (0, ∅).

(** The revision valid at a given time. *)
Definition valid_at (t : Z) (record : RecordedNode) : bool :=
  (rn_Since record <? t)%Z && match rn_Until record with None => true | Some u => (t <? u)%Z end.

Definition GetSnapshot (g : graphR) (time : Z) : list RecordedNode :=
  omap (fun key => p ← list_find (fun r => valid_at time r = true) (GetNodeTimeline g key); Some p.2)
    (map_order (dom (g_timeline g))).

Definition GetKeys (g : graphR) : list string :=
  sort_by String.compare id (map_order (dom (g_nodes g))).

(** [ValidateEdges]: one direction for one node; [own] and [other] select targets
    and sources or the reverse. *)
Definition validate_side (g : graphR) (own other : node -> Targets) (broken missing : string)
    (key : string) (n : node) : option error :=
  foldr (fun target acc =>
    foldr (fun otherKey acc =>
      match lookup_node g otherKey with
      | None => Some (Opaque (broken +:+ key +:+ " -> " +:+ otherKey))
      | Some on =>
          match (GetTargetForLabel (other on) (tg_Relation target) (tg_Label target)).1 with
          | Some t => if ks_Has (tg_MatchingKeys t) key then acc
                      else Some (Opaque (missing +:+ key +:+ " -> " +:+ otherKey))
          | None => Some (Opaque (missing +:+ key +:+ " -> " +:+ otherKey))
          end
      end) acc (ks_Iterate (tg_MatchingKeys target))) None (own n).

Definition ValidateEdges (g : graphR) : option error :=
  foldr (fun key acc =>
    match lookup_node g key with
    | None => acc
    | Some n =>
        match validate_side g n_targets n_sources "broken target " "missing source for target " key n with
        | Some e => Some e
        | None =>
            match validate_side g n_sources n_targets "broken source " "missing target for source " key n with
            | Some e => Some e
            | None => acc
            end
        end
    end) None (map_order (dom (g_nodes g))).

(** [copyNodesOnly]: a deep copy of the nodes, without timelines and mappings. *)
Definition copyNodesOnly (g : graphR) : outcome graphR :=
  overlay ← makeOverlay (g_edgeLookup g);
  Ok (MkGraphR overlay (node_copy <$> g_heap g) (g_next g) (g_nodes g) ∅ ∅ true
    (NewSliceBasedKeySet [])).

(** ** graph_impl.go *)

Record kvgraph := MkKvGraph {
  kg_graph : graphR;
  kg_startTime : Z;
  kg_lastRevTrimming : Z;
  kg_recordOldRevs : bool;
  kg_recordAgeLimit : Z;
  kg_permanentInitPeriod : Z;
  kg_ticks : nat   (* readings of the clock so far *)
}.

Definition kgset_graph g (k : kvgraph) := MkKvGraph g (kg_startTime k) (kg_lastRevTrimming k)
  (kg_recordOldRevs k) (kg_recordAgeLimit k) (kg_permanentInitPeriod k) (kg_ticks k).

Definition Minute : Z := 60000000000.
Definition oldRevsTrimmingPeriod : Z := Minute.

Record Opts := MkOpts {
  opts_RecordOldRevs : bool;
  opts_RecordAgeLimit : Z;
  opts_PermanentInitPeriod : Z
}.

Definition NewGraph (opts : Opts) : kvgraph :=
  MkKvGraph newGraphR (clock_reading 0) (clock_reading 1) (opts_RecordOldRevs opts)
    (i64 (opts_RecordAgeLimit opts * Minute)) (i64 (opts_PermanentInitPeriod opts * Minute)) 2.

(** [time.Now()]. *)
Definition time_now : M kvgraph Z := fun k =>
  Ok (clock_reading (kg_ticks k),
      MkKvGraph (kg_graph k) (kg_startTime k) (kg_lastRevTrimming k) (kg_recordOldRevs k)
        (kg_recordAgeLimit k) (kg_permanentInitPeriod k) (S (kg_ticks k))).

(** ** graph_write.go *)

(** A write handle.  With [rw_wInPlace] the graph of the handle is the graph
    itself, which nobody else reads until the release. *)
Record graphRW := MkGraphRW {
  rw_graph : graphR;
  rw_record : bool;
  rw_wInPlace : bool;
  rw_newRevs : gmap string bool
}.

Definition rwset_graph g (w : graphRW) := MkGraphRW g (rw_record w) (rw_wInPlace w) (rw_newRevs w).
Definition rwset_newRevs r (w : graphRW) := MkGraphRW (rw_graph w) (rw_record w) (rw_wInPlace w) r.

Definition newGraphRW (graph : graphR) (wInPlace recordChanges : bool) : outcome graphRW :=
  gR ← (if wInPlace then Ok graph else copyNodesOnly graph);
  Ok (MkGraphRW (gset_unsaved (NewSliceBasedKeySet []) gR) recordChanges wInPlace ∅).

Definition Write (k : kvgraph) (inPlace record : bool) : outcome graphRW := newGraphRW (kg_graph k) inPlace record.

Definition RegisterMetadataMap (mapName : string) (mapping : Mapping) : G unit :=
  modify (fun g => gset_mappings (<[mapName := mapping]> (g_mappings g)) g).

(** The callback of [SetNode]: connect one source with the new node. *)
Definition connect_source (key : string) (r : nat) (x : string * string * string) : G unit :=
  let '(sourceNodeKey, relation, label) := x in
  ref ← node_ref sourceNodeKey; sr ← the_node ref; sourceNode ← node_at sr;
  let '(target, targetIdx) := GetTargetForLabel (n_targets sourceNode) relation label in
  td ← deref "index out of range" (n_targetsDef sourceNode !! targetIdx);
  if match sel_KeySelector (rtd_Selector td) with Some f => negb (f key) | None => false end then skip
  else
    _ ← deref "nil pointer dereference" target;
    addToTargets sr r targetIdx.

Definition SetNode (key : string) : G nat :=
  add_unsaved key ;;
  has ← node_ref key;
  match has with
  | Some r => mret r
  | None =>
      r ← gets g_next;
      modify (galloc (newNode key)) ;;
      modify (fun g => gset_edgeLookup (addNodeKey (g_edgeLookup g) key) g) ;;
      g ← get;
      forM (iterSources (g_edgeLookup g) key) (connect_source key r) ;;
      mret r
  end.

(** The callback of [DeleteNode]: drop the node from the targets of a source. *)
Definition disconnect_source (key : string) (x : string * string * string) : G unit :=
  let '(sourceNodeKey, relation, label) := x in
  ref ← node_ref sourceNodeKey; sr ← the_node ref; removeFromTarget sr key relation label.

Definition DeleteNode (wInPlace : bool) (key : string) : G bool :=
  has ← node_ref key;
  match has with
  | None => mret false
  | Some r =>
      SetTargets r [] ;;
      g ← get;
      forM (iterSources (g_edgeLookup g) key) (disconnect_source key) ;;
      modify (fun g => gset_edgeLookup (delNodeKey (g_edgeLookup g) key) g) ;;
      modify (fun g => gset_nodes (delete key (g_nodes g)) g) ;;
      n ← node_at r;
      g ← get;
      whenM (wInPlace && n_metadataAdded n)
        match g_mappings g !! n_metadataMap n with
        | Some mapping =>
            modify (fun g => gset_mappings
              (<[n_metadataMap n := nm_Delete mapping (n_label n)]> (g_mappings g)) g)
        | None => skip
        end ;;
      add_unsaved key ;;
      mret true
  end.

(** *** Save *)

(** The write handle and the graph it belongs to. *)
Definition SaveSt : Type := graphRW * kvgraph.

Definition handle_graph : M SaveSt graphR := gets (fun s => rw_graph s.1).
Definition in_handle {A} (m : G A) : M SaveSt A :=
  zoom (fun s => rw_graph s.1) (fun g s => (rwset_graph g s.1, s.2)) m.
Definition in_dest {A} (m : G A) : M SaveSt A :=
  zoom (fun s => kg_graph s.2) (fun g s => (s.1, kgset_graph g s.2)) m.
Definition in_clock {A} (m : M kvgraph A) : M SaveSt A :=
  zoom (fun s => s.2) (fun k s => (s.1, k)) m.

Definition nset_saved added targets sources (n : node) : node :=
  MkNode (n_key n) (n_label n) (n_value n) (n_flags n) (n_metadata n) added (n_metadataMap n)
    targets (n_targetsDef n) sources true false false false.

(** A deleted node: it disappears from the destination graph. *)
Definition save_deleted (key : string) : M SaveSt unit :=
  in_dest (
    has ← node_ref key;
    match has with
    | None => skip
    | Some r =>
        n ← node_at r; g ← get;
        whenM (n_metadataAdded n)
          match g_mappings g !! n_metadataMap n with
          | Some mapping =>
              modify (fun g => gset_mappings
                (<[n_metadataMap n := nm_Delete mapping (n_label n)]> (g_mappings g)) g)
          | None => skip
          end ;;
        modify (fun g => gset_nodes (delete key (g_nodes g)) g)
    end).

Definition nset_metaInSync b (n : node) := MkNode (n_key n) (n_label n) (n_value n) (n_flags n)
  (n_metadata n) (n_metadataAdded n) (n_metadataMap n) (n_targets n) (n_targetsDef n) (n_sources n)
  b (n_dataUpdated n) (n_targetsUpdated n) (n_sourcesUpdated n).

(** A changed node is copied to the destination; the handle keeps the
    copy-on-write targets and sources. *)
Definition save_copy (r : nat) (n : node) : M SaveSt node :=
  let nodeCopy := nset_metaInSync (n_metaInSync n) (node_copy n) in
  dr ← in_dest (dr ← gets g_next; modify (galloc nodeCopy) ;; syncMetadata dr ;; mret dr);
  synced ← in_dest (node_at dr);
  in_dest (node_upd dr (fun c => nset_saved (n_metadataAdded c) (n_targets n) (n_sources n) c)) ;;
  mret (nset_saved (n_metadataAdded synced) (n_targets synced) (n_sources synced) n).

Definition save_key (key : string) : M SaveSt unit :=
  s ← get;
  let w := s.1 in
  match g_nodes (rw_graph w) !! key with
  | None =>
      whenM (negb (rw_wInPlace w)) (save_deleted key) ;;
      modify (fun s => (rwset_newRevs (<[key := true]> (rw_newRevs s.1)) s.1, s.2))
  | Some r =>
      n ← in_handle (node_at r);
      if negb (n_dataUpdated n) && negb (n_targetsUpdated n) && negb (n_sourcesUpdated n) then skip
      else
        whenM (n_dataUpdated n || n_targetsUpdated n)
          (modify (fun s => (rwset_newRevs
             (<[key := default false (rw_newRevs s.1 !! key) || n_dataUpdated n]> (rw_newRevs s.1)) s.1,
             s.2))) ;;
        n' ← (if rw_wInPlace w
              then mret (nset_saved (n_metadataAdded n) (n_targets n) (n_sources n) n)
              else save_copy r n);
        in_handle (node_upd r (fun _ => n'))
  end.

(** Mappings registered by the handle which the graph does not have yet. *)
Definition save_mappings (new old : gmap string Mapping) : gmap string Mapping := old ∪ new.

Definition Save : M SaveSt unit :=
  s ← get;
  whenM (negb (rw_wInPlace s.1)) (
    let over := g_edgeLookup (rw_graph s.1) in
    let dest := kg_graph s.2 in
    modify (fun s => (s.1, kgset_graph
      (gset_mappings (save_mappings (g_mappings (rw_graph s.1)) (g_mappings dest)) dest) s.2)) ;;
    saved ← lift (saveOverlay over (g_edgeLookup dest));
    modify (fun s => (s.1, kgset_graph (gset_edgeLookup saved (kg_graph s.2)) s.2)) ;;
    (* the overlay starts again from the saved state *)
    modify (fun s => (rwset_graph (gset_edgeLookup (saved_overlay over saved) (rw_graph s.1)) s.1, s.2))) ;;
  forM (ks_Iterate (g_unsaved (rw_graph s.1))) save_key ;;
  modify (fun s => (rwset_graph (gset_unsaved (NewSliceBasedKeySet []) (rw_graph s.1)) s.1, s.2)) ;;
  (* in place, the graph of the handle is the graph *)
  whenM (rw_wInPlace s.1) (modify (fun s => (s.1, kgset_graph (rw_graph s.1) s.2))).

(** *** Release *)

Definition getMetadataFields (g : graphR) (n : node) : outcome (list (string * list string)) :=
  if n_metadataAdded n then
    match g_mappings g !! n_metadataMap n with
    | Some mapping => Ok (nm_ListFields mapping (n_label n))
    | None => Panic "nil pointer dereference"
    end
  else Ok [].

Definition recordNode (r : nat) (targetUpdateOnly : bool) : M SaveSt RecordedNode :=
  n ← in_dest (node_at r);
  in_dest (node_upd r (nset_targets (Targets_copy (n_targets n)) false)) ;;
  now ← in_clock time_now;
  s ← get;
  fields ← lift (getMetadataFields (kg_graph s.2) n);
  mret (MkRecordedNode now None (n_key n) (n_label n) (RecordProtoMessage (n_value n)) (n_flags n)
          fields (n_targets n) targetUpdateOnly).

Definition rn_close (now : Z) (record : RecordedNode) : RecordedNode :=
  MkRecordedNode (rn_Since record)
    (match rn_Until record with None => Some now | u => u end) (rn_Key record) (rn_Label record)
    (rn_Value record) (rn_Flags record) (rn_MetadataFields record) (rn_Targets record)
    (rn_TargetUpdateOnly record).

(** Close the last revision if it is still open. *)
Fixpoint close_last (now : Z) (records : list RecordedNode) : list RecordedNode :=
  match records with
  | [] => []
  | [r] => [rn_close now r]
  | r :: records => r :: close_last now records
  end.

Definition set_timeline (key : string) (records : list RecordedNode) : M SaveSt unit :=
  in_dest (modify (fun g => gset_timeline (<[key := records]> (g_timeline g)) g)).

Definition record_key (key : string) (dataUpdated : bool) : M SaveSt unit :=
  s ← get;
  let dest := kg_graph s.2 in
  let node_ := g_nodes dest !! key in
  match g_timeline dest !! key, node_ with
  | None, None => skip   (* deleted, but never recorded *)
  | timeline, _ =>
      let records := default [] timeline in
      records' ← (match last records with
        | Some r => match rn_Until r with
            | None => now ← in_clock time_now; mret (close_last now records)
            | Some _ => mret records
            end
        | None => mret records
        end);
      set_timeline key records' ;;
      match node_ with
      | Some r => record ← recordNode r (negb dataUpdated); set_timeline key (records' ++ [record])
      | None => skip
      end
  end.

(** Remove the revisions that are too old: those after the initial period, from
    the oldest on, whose age is over the limit. *)
Definition trim_records (now start initPeriod ageLimit : Z) (records : list RecordedNode) :
    list RecordedNode :=
  let i := length (take_while (fun r => negb (initPeriod <? rn_Since r - start)%Z) records) in
  let expired r := match rn_Until r with
    | None => false | Some u => negb (now - u <=? ageLimit)%Z end in
  let j := i + length (take_while expired (drop i records)) in
  if i <? j then take i records ++ drop j records else records.

Definition trim_timeline (now : Z) (k : kvgraph) (timeline : gmap string (list RecordedNode)) :
    gmap string (list RecordedNode) :=
  filter (fun kv => kv.2 <> [])
    (trim_records now (kg_startTime k) (kg_permanentInitPeriod k) (kg_recordAgeLimit k) <$> timeline).

(** The memory of the overlay stays with the graph, for the next handle. *)
Definition keep_overlay (s : SaveSt) : SaveSt :=
  let dest := kg_graph s.2 in
  let el := g_edgeLookup dest in
  (s.1, kgset_graph (gset_edgeLookup
     (set_caps (el_caps el) (Some (el_caps (g_edgeLookup (rw_graph s.1)))) el) dest) s.2).

Definition Release : M SaveSt unit :=
  s0 ← get;
  whenM (rw_wInPlace s0.1) Save ;;
  whenM (negb (rw_wInPlace s0.1)) (modify keep_overlay) ;;
  s ← get;
  if rw_record s.1 && kg_recordOldRevs s.2 then
    forM (map_order (dom (rw_newRevs s.1)))
      (fun key => match rw_newRevs s.1 !! key with
        | Some dataUpdated => record_key key dataUpdated | None => skip end) ;;
    now ← in_clock time_now;
    s ← get;
    if (oldRevsTrimmingPeriod <=? now - kg_lastRevTrimming s.2)%Z then
      modify (fun s => (s.1, MkKvGraph
        (gset_timeline (trim_timeline now s.2 (g_timeline (kg_graph s.2))) (kg_graph s.2))
        (kg_startTime s.2) now (kg_recordOldRevs s.2) (kg_recordAgeLimit s.2)
        (kg_permanentInitPeriod s.2) (kg_ticks s.2)))
    else skip
  else skip.
End graph_rw.
