(* ===== verification/Descriptor.v ===== *)
(** * The descriptor handler

    [plugins/kvscheduler/descriptor_handler.go]: access to the callbacks of a
    descriptor, with a default result for the ones that are not provided. *)
From S2P Require Import Prelude Monad Api.

Section handler.
Context {X : Ext}.

(** [descriptorHandler]: the descriptor may be nil. *)
Definition descriptorHandler := option KVDescriptor.

Definition newDescriptorHandler (descr : option KVDescriptor) : descriptorHandler := descr.

(** The initial content of the global list; [AddNonRetryableError] extends it. *)
Definition nonRetryableErrors : list error :=
  [ErrUnimplementedCreate; ErrUnimplementedDelete; ErrEscapedNetNs].

Definition AddNonRetryableError (errs known : list error) : list error := known ++ errs.

(** [errors.Is] for a target that is a package variable. *)
Definition errors_IsErr (err target : error) : bool :=
  match target with Sentinel m => errors_Is err m | _ => false end.

Definition IsNonRetryableError (known : list error) (err : error) : bool :=
  existsb (errors_IsErr err) known.

Definition checkNetNs (w : World) : option error :=
  if netns_escaped w then Some ErrEscapedNetNs else None.

(** [if nsErr := checkNetNs(); nsErr != nil { err = nsErr }]. *)
Definition after_netns (w : World) (err : option error) : option error :=
  match checkNetNs w with Some nsErr => Some nsErr | None => err end.

Definition keyLabel (h : descriptorHandler) (key : string) : string :=
  match h with
  | None => key
  | Some d => match d_KeyLabel d with None => key | Some f => f key end
  end.

Definition equivalentValues (h : descriptorHandler) (key : string) (oldValue newValue : option Value) :
    bool :=
  match h with
  | None => proto_Equal oldValue newValue
  | Some d => match d_ValueComparator d with
      | None => proto_Equal oldValue newValue
      | Some f => f key oldValue newValue
      end
  end.

Definition validate (h : descriptorHandler) (key : string) (value : option Value) : option error :=
  match h with
  | None => None
  | Some d => match d_Validate d with None => None | Some f => f key value end
  end.

Definition create (h : descriptorHandler) (key : string) (value : option Value) :
    M World (option Metadata * option error) := fun w =>
  match h with
  | None => Ok ((None, None), w)
  | Some d => match d_Create d with
      | None => Ok ((None, Some ErrUnimplementedCreate), w)
      | Some f => let '((md, err), w') := f key value w in Ok ((md, after_netns w' err), w')
      end
  end.

(** A missing [Update] callback of an existing descriptor is called here. *)
Definition update (h : descriptorHandler) (key : string) (oldValue newValue : option Value)
    (oldMetadata : option Metadata) : M World (option Metadata * option error) := fun w =>
  match h with
  | None => Ok ((oldMetadata, None), w)
  | Some d => match d_Update d with
      | None => Panic "nil pointer dereference"
      | Some f =>
          let '((md, err), w') := f key oldValue newValue oldMetadata w in
          Ok ((md, after_netns w' err), w')
      end
  end.

Definition updateWithRecreate (h : descriptorHandler) (key : string) (oldValue newValue : option Value)
    (metadata : option Metadata) : bool :=
  match h with
  | None => false
  | Some d => match d_Update d with
      | None => true
      | Some _ => match d_UpdateWithRecreate d with
          | None => false
          | Some f => f key oldValue newValue metadata
          end
      end
  end.

Definition delete_ (h : descriptorHandler) (key : string) (value : option Value)
    (metadata : option Metadata) : M World (option error) := fun w =>
  match h with
  | None => Ok (None, w)
  | Some d => match d_Delete d with
      | None => Ok (Some ErrUnimplementedDelete, w)
      | Some f => let '(err, w') := f key value metadata w in Ok (after_netns w' err, w')
      end
  end.

Definition isRetriableFailure (known : list error) (h : descriptorHandler) (err : error) : bool :=
  if IsNonRetryableError known err then false
  else match h with
  | None => true
  | Some d => match d_IsRetriableFailure d with None => true | Some f => f err end
  end.

Definition dependencies (h : descriptorHandler) (key : string) (value : option Value) :
    list Dependency :=
  match h with
  | None => []
  | Some d => match d_Dependencies d with None => [] | Some f => f key value end
  end.

Definition derivedValues (h : descriptorHandler) (key : string) (value : option Value) :
    list KeyValuePair :=
  match h with
  | None => []
  | Some d => match d_DerivedValues d with None => [] | Some f => f key value end
  end.

(** The values, [ableToRetrieve] and the error. *)
Definition retrieve (h : descriptorHandler) (correlate : list KVWithMetadata) :
    M World (list KVWithMetadata * bool * option error) := fun w =>
  match h with
  | None => Ok (([], false, None), w)
  | Some d => match d_Retrieve d with
      | None => Ok (([], false, None), w)
      | Some f => let '((values, err), w') := f correlate w in Ok ((values, true, after_netns w' err), w')
      end
  end.

(** ** Properties *)

(** what the scheduler assumes of the handler holds for every descriptor:
    without [Update] every change is a re-creation, so a descriptor whose change
    is not a re-creation has the callback that [update] calls; the errors of the
    handler itself are never retried, whatever the descriptor says; and leaving
    the network namespace overrides the result of a call. *)
Theorem handler_contract (h : descriptorHandler) (key : string) (v1 v2 : option Value)
    (md : option Metadata) (w : World) :
  (updateWithRecreate h key v1 v2 md = false -> exists r, update h key v1 v2 md w = Ok r)
  /\ (forall err, err = ErrUnimplementedCreate \/ err = ErrUnimplementedDelete \/ err = ErrEscapedNetNs ->
        isRetriableFailure nonRetryableErrors h err = false)
  /\ (forall known msg err, isRetriableFailure (AddNonRetryableError [Sentinel msg] known) h
        (Wrapped err (Sentinel msg)) = false)
  /\ (forall md' err w', create h key v1 w = Ok ((md', err), w') -> h <> None ->
        netns_escaped w' = true -> err = Some ErrEscapedNetNs \/ err = Some ErrUnimplementedCreate)
  /\ (forall err w', delete_ h key v1 md w = Ok (err, w') -> h <> None ->
        netns_escaped w' = true -> err = Some ErrEscapedNetNs \/ err = Some ErrUnimplementedDelete).
Proof.
  split_and!.
  - destruct h as [d|]; unfold updateWithRecreate, update; [|eauto].
    destruct (d_Update d) as [f|]; [|done]. intros _.
    destruct (f key v1 v2 md w) as [[? ?] ?]. eauto.
  - intros err [->|[->| ->]]; reflexivity.
  - intros known msg err. unfold isRetriableFailure, IsNonRetryableError, AddNonRetryableError.
    rewrite existsb_app. simpl. rewrite String.eqb_refl. by rewrite orb_true_r.
  - intros md' err w'. destruct h as [d|]; unfold create; [|done].
    destruct (d_Create d) as [f|]; [|intros [= <- <- <-]; by right].
    destruct (f key v1 w) as [[md1 err1] w1]. intros [= <- <- <-] _ Hns. left.
    unfold after_netns, checkNetNs. by rewrite Hns.
  - intros err w'. destruct h as [d|]; unfold delete_; [|done].
    destruct (d_Delete d) as [f|]; [|intros [= <- <-]; by right].
    destruct (f key v1 md w) as [err1 w1]. intros [= <- <-] _ Hns. left.
    unfold after_netns, checkNetNs. by rewrite Hns.
Qed.
End handler.
