(* ===== verification/Adapter.v ===== *)
(** * Type-safe descriptors

    The code that [plugins/kvscheduler/descriptor-adapter] generates for every
    descriptor from one template: a descriptor over the messages and metadata of
    its own type, adapted to the descriptors of the scheduler.  The types are the
    parameters of the template, given as instances of two classes. *)
From S2P Require Import Prelude Api.

(** The values of a type among all messages: the type assertion and the
    conversion to the interface. *)
Class ValueType {X : Ext} (V : Type) := {
  as_value : Value -> option V;
  of_value : V -> Value
}.

(** The metadata of a type: what a nil interface is cast to, the type assertion,
    and the conversion to an interface. *)
Class MetadataType {X : Ext} (Md : Type) := {
  nil_metadata : Md;
  as_metadata : Metadata -> option Md;
  of_metadata : Md -> option Metadata
}.

(** Descriptors without metadata of their own pass the interface on. *)
#[export] Instance any_metadata {X : Ext} : MetadataType (option Metadata) := {|
  nil_metadata := None;
  as_metadata := fun m => Some (Some m);
  of_metadata := id
|}.

(** Pointers to structures: a nil pointer in an interface is not a nil interface. *)
Definition pointer_metadata {X : Ext} {P : Type} (as_p : Metadata -> option (option P))
    (of_p : option P -> Metadata) : MetadataType (option P) := {|
  nil_metadata := None;
  as_metadata := as_p;
  of_metadata := fun p => Some (of_p p)
|}.

Section adapter.
Context {X : Ext} {V Md : Type} {VT : ValueType V} {MT : MetadataType Md}.

Record TypedKVWithMetadata := MkTypedKV {
  tkv_Key : string;
  tkv_Value : V;
  tkv_Metadata : Md;
  tkv_Origin : ValueOrigin
}.

Record TypedDescriptor := MkTypedDescriptor {
  td_Name : string;
  td_KeySelector : KeySelector;
  td_KeyLabel : option (string -> string);
  td_ValueComparator : option (string -> V -> V -> bool);
  td_NBKeyPrefix : string;
  td_WithMetadata : bool;
  td_MetadataMapFactory : option Mapping;
  td_Validate : option (string -> V -> option error);
  td_Create : option (string -> V -> World -> (Md * option error) * World);
  td_Delete : option (string -> V -> Md -> World -> option error * World);
  td_Update : option (string -> V -> V -> Md -> World -> (Md * option error) * World);
  td_UpdateWithRecreate : option (string -> V -> V -> Md -> bool);
  td_Retrieve : option (list TypedKVWithMetadata -> World -> (list TypedKVWithMetadata * option error) * World);
  td_IsRetriableFailure : option (error -> bool);
  td_DerivedValues : option (string -> V -> list KeyValuePair);
  td_Dependencies : option (string -> V -> list Dependency);
  td_RetrieveDependencies : list string
}.

Definition castValue (key : string) (value : option Value) : V + error :=
  match value ≫= as_value with Some v => inl v | None => inr (ErrInvalidValueType key value) end.

Definition castMetadata (key : string) (metadata : option Metadata) : Md + error :=
  match metadata with
  | None => inl nil_metadata
  | Some m => match as_metadata m with Some md => inl md | None => inr (ErrInvalidMetadataType key) end
  end.

(** The methods of the adapter, given the callback of the typed descriptor. *)
Definition ad_ValueComparator f (key : string) (oldValue newValue : option Value) : bool :=
  match castValue key oldValue, castValue key newValue with
  | inl v1, inl v2 => f key v1 v2
  | _, _ => false
  end.

Definition ad_Validate f (key : string) (value : option Value) : option error :=
  match castValue key value with inl v => f key v | inr err => Some err end.

Definition ad_Create f (key : string) (value : option Value) (w : World) :
    (option Metadata * option error) * World :=
  match castValue key value with
  | inr err => ((None, Some err), w)
  | inl v => let '((md, err), w) := f key v w in ((of_metadata md, err), w)
  end.

Definition ad_Update f (key : string) (oldValue newValue : option Value) (oldMetadata : option Metadata)
    (w : World) : (option Metadata * option error) * World :=
  match castValue key oldValue, castValue key newValue, castMetadata key oldMetadata with
  | inr err, _, _ => ((None, Some err), w)
  | _, inr err, _ => ((None, Some err), w)
  | _, _, inr err => ((None, Some err), w)
  | inl v1, inl v2, inl md =>
      let '((md, err), w) := f key v1 v2 md w in ((of_metadata md, err), w)
  end.

Definition ad_Delete f (key : string) (value : option Value) (metadata : option Metadata) (w : World) :
    option error * World :=
  match castValue key value, castMetadata key metadata with
  | inr err, _ => (Some err, w)
  | _, inr err => (Some err, w)
  | inl v, inl md => f key v md w
  end.

Definition ad_UpdateWithRecreate f (key : string) (oldValue newValue : option Value)
    (metadata : option Metadata) : bool :=
  match castValue key oldValue, castValue key newValue, castMetadata key metadata with
  | inl v1, inl v2, inl md => f key v1 v2 md
  | _, _, _ => true
  end.

(** Pairs of other types are left out. *)
Definition typed_kv (kv : KVWithMetadata) : option TypedKVWithMetadata :=
  match castValue (kvm_Key kv) (kvm_Value kv), castMetadata (kvm_Key kv) (kvm_Metadata kv) with
  | inl v, inl md => Some (MkTypedKV (kvm_Key kv) v md (kvm_Origin kv))
  | _, _ => None
  end.

Definition untyped_kv (kv : TypedKVWithMetadata) : KVWithMetadata :=
  MkKVWithMetadata (tkv_Key kv) (Some (of_value (tkv_Value kv))) (of_metadata (tkv_Metadata kv)) (tkv_Origin kv).

Definition ad_Retrieve f (correlate : list KVWithMetadata) (w : World) :
    (list KVWithMetadata * option error) * World :=
  let '((typedValues, err), w) := f (omap typed_kv correlate) w in
  match err : option error with
  | Some err => (([], Some err), w)
  | None => ((map untyped_kv typedValues, None), w)
  end.

Definition ad_DerivedValues f (key : string) (value : option Value) : list KeyValuePair :=
  match castValue key value with inl v => f key v | inr _ => [] end.

Definition ad_Dependencies f (key : string) (value : option Value) : list Dependency :=
  match castValue key value with inl v => f key v | inr _ => [] end.

(** [New...Descriptor]. *)
Definition NewDescriptor (td : TypedDescriptor) : KVDescriptor := {|
  d_Name := td_Name td;
  d_KeySelector := td_KeySelector td;
  d_KeyLabel := td_KeyLabel td;
  d_NBKeyPrefix := td_NBKeyPrefix td;
  d_ValueComparator := ad_ValueComparator <$> td_ValueComparator td;
  d_WithMetadata := td_WithMetadata td;
  d_MetadataMapFactory := td_MetadataMapFactory td;
  d_Validate := ad_Validate <$> td_Validate td;
  d_Create := ad_Create <$> td_Create td;
  d_Delete := ad_Delete <$> td_Delete td;
  d_Update := ad_Update <$> td_Update td;
  d_UpdateWithRecreate := ad_UpdateWithRecreate <$> td_UpdateWithRecreate td;
  d_Retrieve := ad_Retrieve <$> td_Retrieve td;
  d_IsRetriableFailure := td_IsRetriableFailure td;
  d_DerivedValues := ad_DerivedValues <$> td_DerivedValues td;
  d_Dependencies := ad_Dependencies <$> td_Dependencies td;
  d_RetrieveDependencies := td_RetrieveDependencies td
|}.
End adapter.
Arguments TypedKVWithMetadata : clear implicits.
Arguments TypedDescriptor {X} V Md.

(** Messages and metadata that the assertions recognise. *)
Class ValueLaws {X : Ext} {V : Type} (VT : ValueType V) : Prop := {
  as_of_value : forall v : V, as_value (of_value v) = Some v;
  of_as_value : forall (m : Value) (v : V), as_value m = Some v -> m = of_value v
}.
Class MetadataLaws {X : Ext} {Md : Type} (MT : MetadataType Md) : Prop :=
  cast_of_metadata : forall (key : string) (md : Md), castMetadata key (of_metadata md) = inl md.

#[export] Instance any_metadata_laws {X : Ext} : MetadataLaws any_metadata.
Proof. by intros key []. Qed.

Section adapter_facts.
Context {X : Ext} {V Md : Type} {VT : ValueType V} {MT : MetadataType Md}.
Context {VL : ValueLaws VT} {ML : MetadataLaws MT}.

Lemma castValue_of key (v : V) : castValue key (Some (of_value v)) = inl v.
Proof. unfold castValue. cbn. by rewrite as_of_value. Qed.

Lemma castValue_inl key (m : option Value) (v : V) : castValue key m = inl v -> m = Some (of_value v).
Proof.
  unfold castValue. destruct m as [m|]; [|done]. cbn. destruct (as_value m) as [v'|] eqn:E; [|done].
  intros [= <-]. f_equal. by apply of_as_value.
Qed.

Lemma typed_untyped (kv : TypedKVWithMetadata V Md) : typed_kv (untyped_kv kv) = Some kv.
Proof.
  destruct kv as [k v md o]. unfold typed_kv, untyped_kv. cbn. by rewrite castValue_of, cast_of_metadata.
Qed.

Lemma omap_typed_untyped (l : list (TypedKVWithMetadata V Md)) : omap typed_kv (map untyped_kv l) = l.
Proof. induction l as [|kv l IH]; [done|]. cbn. rewrite typed_untyped. f_equal. exact IH. Qed.
End adapter_facts.
