(* ===== verification/NodeUtils.v ===== *)
(** * Nodes as the scheduler sees them

    [plugins/kvscheduler/node_utils.go], and [IterTargets] of node_read.go.  A
    [graph.Node] that may be nil is an [option]. *)
From S2P Require Import Prelude KeySet Monad Api Flags EdgeLookup Graph GraphRW.

Definition DependencyRelation : string := "depends-on".
Definition DerivesRelation : string := "derives".

Section node_utils.
Context {X : Ext} {MO : MapOrder}.

(** ** Flags of a node *)

Definition GetFlag (n : node) (flagIndex : nat) : option Flag := n_flags n !! flagIndex.

Definition getNodeState (n : option node) : ValueState :=
  match n ≫= fun n => GetFlag n ValueStateFlagIndex with
  | Some (ValueStateFlag s) => s
  | _ => ValueState_NONEXISTENT
  end.

Definition valueStateToOrigin (state : ValueState) : ValueOrigin :=
  match state with
  | ValueState_NONEXISTENT => UnknownOrigin
  | ValueState_OBTAINED => FromSB
  | _ => FromNB
  end.

Definition getNodeOrigin (n : option node) : ValueOrigin := valueStateToOrigin (getNodeState n).

Definition getNodeError (n : option node) : bool * option error :=
  match n ≫= fun n => GetFlag n ErrorFlagIndex with
  | Some (ErrorFlag err retriable) => (retriable, err)
  | _ => (false, None)
  end.

Definition err_string (e : option error) : string := match e with Some e => Error e | None => "" end.

Definition getNodeErrorString (n : option node) : string := err_string (getNodeError n).2.

Definition getNodeLastUpdate (n : option node) : option LastUpdate :=
  match n ≫= fun n => GetFlag n LastUpdateFlagIndex with
  | Some (LastUpdateFlag u) => Some u
  | _ => None
  end.

Definition getNodeLastAppliedValue (n : option node) : option Value :=
  u ← getNodeLastUpdate n; lu_value u.

Definition getNodeLastOperation (n : option node) : TxnOperation :=
  match n with
  | Some _ =>
      if decide (getNodeState n = ValueState_OBTAINED) then TxnOperation_UNDEFINED
      else match getNodeLastUpdate n with
        | Some u => lu_txnOp u
        | None => TxnOperation_UNDEFINED
        end
  | None => TxnOperation_UNDEFINED
  end.

Definition isNodeDerived (n : node) : bool := bool_decide (is_Some (GetFlag n DerivedFlagIndex)).

Definition getNodeBaseKey (n : node) : string :=
  match GetFlag n DerivedFlagIndex with
  | Some (DerivedFlag b) => b
  | _ => n_key n
  end.

Definition isNodeAvailable (n : option node) : bool :=
  match n with
  | None => false
  | Some n => bool_decide (GetFlag n UnavailValueFlagIndex = None)
  end.

Definition canNodeHaveMetadata (n : node) : bool := negb (isNodeDerived n).

Definition nodeToKVPairWithMetadata (n : node) : KVWithMetadata :=
  MkKVWithMetadata (n_key n) (n_value n) (n_metadata n) (getNodeOrigin (Some n)).

Definition nodesToKVPairsWithMetadata (nodes : list node) : list KVWithMetadata :=
  map nodeToKVPairWithMetadata nodes.

(** ** Relations *)

Definition dep_target (dep : Dependency) : RelationTargetDef :=
  MkTargetDef DependencyRelation (dep_Label dep) (dep_Key dep)
    (MkTargetSelector (anyof_KeyPrefixes (dep_AnyOf dep)) (anyof_KeySelector (dep_AnyOf dep))).

Definition derived_target (derived : KeyValuePair) : RelationTargetDef :=
  MkTargetDef DerivesRelation (kvp_Key derived) (kvp_Key derived) (MkTargetSelector [] None).

Definition constructTargets (deps : list Dependency) (derives : list KeyValuePair) :
    list RelationTargetDef :=
  map dep_target deps ++ map derived_target derives.

(** A node behind a pointer taken from the graph's map: nil panics. *)
Definition pnode (g : graphR) (r : option nat) : outcome node :=
  from_option_panic "nil pointer dereference" (r ≫= fun r => g_heap g !! r).

Fixpoint pnodes (g : graphR) (rs : list (option nat)) : outcome (list node) :=
  match rs with
  | [] => Ok []
  | r :: rs => n ← pnode g r; ns ← pnodes g rs; Ok (n :: ns)
  end.

(** [GetTargets] and [GetSources] for read access, with the nodes resolved. *)
Fixpoint runtime_nodes (g : graphR) (rts : list RuntimeTarget) : outcome (list (string * list node)) :=
  match rts with
  | [] => Ok []
  | rt :: rts => ns ← pnodes g (rt_Nodes rt); l ← runtime_nodes g rts; Ok ((rt_Label rt, ns) :: l)
  end.

Definition targets_of (g : graphR) (n : node) (relation : string) : outcome (list (string * list node)) :=
  runtime_nodes g (targets_to_runtime (g_nodes g) (relation_targets (n_targets n) relation)).
Definition sources_of (g : graphR) (n : node) (relation : string) : outcome (list (string * list node)) :=
  runtime_nodes g (targets_to_runtime (g_nodes g) (relation_targets (n_sources n) relation)).

Definition getDerivedNodes (g : graphR) (n : node) : outcome (list node) :=
  l ← targets_of g n DerivesRelation; Ok (concat l.*2).

Definition getDerivedKeys (g : graphR) (n : node) : outcome KeySet :=
  derived ← getDerivedNodes g n;
  Ok (fold_left (fun set d => (ks_Add set (n_key d)).1) derived (NewSliceBasedKeySet [])).

(** ** Iteration over targets

    The callback gets a node, or nil at the end of a label, and returns
    [(skipLabel, abort)]. *)
Section iter_targets.
Context {St : Type} (callback : option node -> string -> St -> outcome (bool * bool * St)).

(** The nodes of one label; the result tells whether to abort. *)
Fixpoint iter_label (g : graphR) (label : string) (keys : list string) (st : St) : outcome (bool * St) :=
  match keys with
  | [] => Ok (false, st)
  | key :: keys =>
      n ← pnode g (g_nodes g !! key);
      r ← callback (Some n) label st;
      let '(skipLabel, abort, st) := r in
      if (abort : bool) then Ok (true, st)
      else if (skipLabel : bool) then Ok (false, st)
      else iter_label g label keys st
  end.

Fixpoint iter_targets (g : graphR) (ts : Targets) (st : St) : outcome St :=
  match ts with
  | [] => Ok st
  | t :: ts =>
      r ← iter_label g (tg_Label t) (ks_Iterate (tg_MatchingKeys t)) st;
      let '(abort, st) := r in
      if (abort : bool) then Ok st
      else
        r ← callback None (tg_Label t) st;
        let '(_, abort, st) := r in
        if (abort : bool) then Ok st else iter_targets g ts st
  end.

Definition IterTargets (g : graphR) (n : node) (relation : string) (st : St) : outcome St :=
  iter_targets g (relation_targets (n_targets n) relation) st.
End iter_targets.

(** ** Readiness *)

(** The variables the callback of [isNodeReadyRec] assigns. *)
Record readySt := MkReadySt { rs_ready : bool; rs_satisfiedLabel : bool; rs_cycleDepth : nat }.

(** The callback; [rec] is the recursive call on a target one level deeper. *)
Definition ready_cb (rec : node -> outcome (bool * nat)) (depth : nat) (checkSCC : bool)
    (target : option node) (label : string) (st : readySt) : outcome (bool * bool * readySt) :=
  match target with
  | None =>
      if rs_satisfiedLabel st then Ok (false, false, MkReadySt (rs_ready st) false (rs_cycleDepth st))
      else Ok (false, true, MkReadySt false false (rs_cycleDepth st))
  | Some t =>
      if decide (getNodeState (Some t) = ValueState_REMOVED) then Ok (false, false, st)
      else
        let available := isNodeAvailable (Some t) in
        let st := if available then MkReadySt (rs_ready st) true (rs_cycleDepth st) else st in
        if available && negb checkSCC then Ok (true, false, st)
        else
          r ← rec t;
          let '(targetReady, targetCycleDepth) := r in
          if (targetReady : bool) && (targetCycleDepth <=? depth)
          then Ok (false, false, MkReadySt (rs_ready st) true
                 (if targetCycleDepth <? rs_cycleDepth st then targetCycleDepth else rs_cycleDepth st))
          else Ok (false, false, st)
  end.

(** The fuel bounds the depth of the recursion; [visited] is restored by the
    deferred delete, hence passed down by value. *)
Fixpoint isNodeReadyRec (fuel : nat) (g : graphR) (n : node) (depth : nat) (visited : gmap string nat)
    (checkSCC : bool) : outcome (bool * nat) :=
  match fuel with
  | O => OutOfFuel
  | S fuel =>
      match visited !! n_key n with
      | Some targetDepth => Ok (true, targetDepth)
      | None =>
          let visited := <[n_key n := depth]> visited in
          st ← IterTargets
            (ready_cb (fun t => isNodeReadyRec fuel g t (S depth) visited true) depth checkSCC)
            g n DependencyRelation (MkReadySt true false depth);
          Ok (rs_ready st, rs_cycleDepth st)
      end
  end.

(** Enough for the depth of any path of distinct keys. *)
Definition ready_fuel (g : graphR) : nat := S (S (size (g_heap g))).

Definition isNodeReady (g : graphR) (n : node) : outcome bool :=
  if decide (getNodeOrigin (Some n) = FromSB) then Ok true
  else r ← isNodeReadyRec (ready_fuel g) g n 0 ∅ false; Ok r.1.

(** ** Value status *)

Definition equalValueDetails (details1 details2 : list string) : bool :=
  if negb (length details1 =? length details2) then false
  else forallb (fun d1 => existsb (fun d2 => String.eqb d1 d2) details2) details1.

Definition getValueDetails (g : graphR) (n : option node) : outcome (list string) :=
  let state := getNodeState n in
  let err := (getNodeError n).2 in
  match state, err, n with
  | ValueState_INVALID, Some (InvalidValueErr e fields), _ => Ok (GetInvalidFields (InvalidValueErr e fields))
  | ValueState_PENDING, _, Some n =>
      l ← targets_of g n DependencyRelation;
      Ok (map fst (filter (fun p => existsb (fun t => isNodeAvailable (Some t)) p.2 = false) l))
  | _, _, _ => Ok []
  end.

Record ValueStatus := MkValueStatus {
  vs_Key : string;
  vs_State : ValueState;
  vs_Error : string;
  vs_LastOperation : TxnOperation;
  vs_Details : list string
}.

Record BaseValueStatus := MkBaseValueStatus {
  bvs_Value : ValueStatus;
  bvs_DerivedValues : list ValueStatus
}.

Definition nodeStatus (g : graphR) (n : option node) (key : string) : outcome ValueStatus :=
  let state := getNodeState n in
  if decide (state = ValueState_NONEXISTENT)
  then Ok (MkValueStatus key state "" TxnOperation_UNDEFINED [])
  else
    details ← getValueDetails g n;
    Ok (MkValueStatus key state (getNodeErrorString n) (getNodeLastOperation n) details).

(** Derived values do not derive further: the recursion of the code is unfolded
    up to the fuel. *)
Fixpoint getValueStatus (fuel : nat) (g : graphR) (n : option node) (key : string) :
    outcome BaseValueStatus :=
  match fuel with
  | O => OutOfFuel
  | S fuel =>
      status ← nodeStatus g n key;
      match n with
      | Some n =>
          if decide (getNodeState (Some n) = ValueState_NONEXISTENT) then Ok (MkBaseValueStatus status [])
          else if isNodeDerived n then Ok (MkBaseValueStatus status [])
          else
            derived ← getDerivedNodes g n;
            (fix go (ds : list node) (acc : list ValueStatus) : outcome BaseValueStatus :=
               match ds with
               | [] => Ok (MkBaseValueStatus status acc)
               | d :: ds =>
                   s ← getValueStatus fuel g (Some d) (n_key d); go ds (acc ++ [bvs_Value s])
               end) derived []
      | None => Ok (MkBaseValueStatus status [])
      end
  end.

(** ** Selectors *)

Definition nbBaseValsSelectors : list FlagSelector :=
  [WithoutFlags [DerivedFlag ""]; WithoutFlags [ValueStateFlag ValueState_OBTAINED]].

Definition sbBaseValsSelectors : list FlagSelector :=
  [WithoutFlags [DerivedFlag ""]; WithFlags [ValueStateFlag ValueState_OBTAINED]].

Definition descrValsSelectors (descriptor : string) (onlyAvailable : bool) : list FlagSelector :=
  if onlyAvailable
  then [WithFlags [DescriptorFlag descriptor]; WithoutFlags [DerivedFlag ""]; WithoutFlags [UnavailValueFlag]]
  else [WithFlags [DescriptorFlag descriptor]; WithoutFlags [DerivedFlag ""]].
End node_utils.
