(* ===== verification/TxnOps.v ===== *)
(** * Recorded operations and transactions

    The records of api/txn_record.go, and [compressTxnOps] and the statistics of
    plugins/kvscheduler (txn_exec.go, stats.go). *)
From S2P Require Import Prelude Monad Api.

Section txn_ops.
Context {X : Ext}.

Record RecordedTxnOp := MkTxnOp {
  op_Operation : TxnOperation;
  op_Key : string;
  op_NewState : ValueState;
  op_NewValue : option RecordedProtoMessage;
  op_NewErr : option error;
  op_NewErrMsg : string;
  op_PrevState : ValueState;
  op_PrevValue : option RecordedProtoMessage;
  op_PrevErr : option error;
  op_PrevErrMsg : string;
  op_NOOP : bool;
  op_IsDerived : bool;
  op_IsProperty : bool;
  op_IsRevert : bool;
  op_IsRetry : bool;
  op_IsRecreate : bool
}.

Definition opset_operation o (op : RecordedTxnOp) := MkTxnOp o (op_Key op) (op_NewState op)
  (op_NewValue op) (op_NewErr op) (op_NewErrMsg op) (op_PrevState op) (op_PrevValue op) (op_PrevErr op)
  (op_PrevErrMsg op) (op_NOOP op) (op_IsDerived op) (op_IsProperty op) (op_IsRevert op) (op_IsRetry op)
  (op_IsRecreate op).
Definition opset_new st v err msg (op : RecordedTxnOp) := MkTxnOp (op_Operation op) (op_Key op) st
  v err msg (op_PrevState op) (op_PrevValue op) (op_PrevErr op)
  (op_PrevErrMsg op) (op_NOOP op) (op_IsDerived op) (op_IsProperty op) (op_IsRevert op) (op_IsRetry op)
  (op_IsRecreate op).
Definition opset_prev st v err msg (op : RecordedTxnOp) := MkTxnOp (op_Operation op) (op_Key op)
  (op_NewState op) (op_NewValue op) (op_NewErr op) (op_NewErrMsg op) st v err msg
  (op_NOOP op) (op_IsDerived op) (op_IsProperty op) (op_IsRevert op) (op_IsRetry op) (op_IsRecreate op).
Definition opset_noop b (op : RecordedTxnOp) := MkTxnOp (op_Operation op) (op_Key op)
  (op_NewState op) (op_NewValue op) (op_NewErr op) (op_NewErrMsg op) (op_PrevState op) (op_PrevValue op)
  (op_PrevErr op) (op_PrevErrMsg op) b (op_IsDerived op) (op_IsProperty op) (op_IsRevert op)
  (op_IsRetry op) (op_IsRecreate op).

Definition opset_newState st (op : RecordedTxnOp) :=
  opset_new st (op_NewValue op) (op_NewErr op) (op_NewErrMsg op) op.
Definition opset_newValue v (op : RecordedTxnOp) :=
  opset_new (op_NewState op) v (op_NewErr op) (op_NewErrMsg op) op.
Definition opset_prevValue v (op : RecordedTxnOp) :=
  opset_prev (op_PrevState op) v (op_PrevErr op) (op_PrevErrMsg op) op.
(** [NewErr], [NewErrMsg] and [NewState] of a failed operation. *)
Definition opset_failed st (err : error) (op : RecordedTxnOp) :=
  opset_new st (op_NewValue op) (Some err) (Error err) op.

Record RecordedKVPair := MkRecordedKVPair {
  rkv_Key : string;
  rkv_Value : option RecordedProtoMessage;
  rkv_Origin : ValueOrigin
}.

Record RecordedTxn := MkRecordedTxn {
  rt_PreRecord : bool;
  rt_WithSimulation : bool;
  rt_Start : Z;
  rt_Stop : Z;
  rt_SeqNum : N;
  rt_TxnType : TxnType;
  rt_ResyncType : ResyncType;
  rt_Description : string;
  rt_RetryForTxn : N;
  rt_RetryAttempt : Z;
  rt_Values : list RecordedKVPair;
  rt_Planned : list RecordedTxnOp;
  rt_Executed : list RecordedTxnOp
}.

(** ** Rendering of an operation *)

Definition flag_if (b : bool) (s : string) : list string := if b then [s] else [].

Definition st_eqb (a b : ValueState) : bool := bool_decide (a = b).

(** The flags listed by [StringWithOpts]. *)
Definition op_flags (op : RecordedTxnOp) : list string :=
  let prev := op_PrevState op in
  let new := op_NewState op in
  flag_if (op_IsDerived op && negb (op_IsProperty op)) "DERIVED"
  ++ flag_if (op_IsProperty op) "PROPERTY"
  ++ flag_if (op_NOOP op) "NOOP"
  ++ flag_if (op_IsRevert op && negb (op_IsProperty op)) "REVERT"
  ++ flag_if (op_IsRetry op && negb (op_IsProperty op)) "RETRY"
  ++ flag_if (op_IsRecreate op) "RECREATE"
  ++ flag_if (st_eqb new ValueState_OBTAINED) "OBTAINED"
  ++ flag_if (st_eqb prev ValueState_OBTAINED && negb (st_eqb prev new)) "WAS-OBTAINED"
  ++ flag_if (st_eqb new ValueState_UNIMPLEMENTED) "UNIMPLEMENTED"
  ++ flag_if (st_eqb prev ValueState_UNIMPLEMENTED && negb (st_eqb prev new)) "WAS-UNIMPLEMENTED"
  ++ flag_if (st_eqb prev ValueState_REMOVED && bool_decide (op_Operation op = TxnOperation_DELETE))
       "ALREADY-REMOVED"
  ++ (if st_eqb prev ValueState_MISSING
      then (if st_eqb new ValueState_REMOVED then ["ALREADY-MISSING"] else ["WAS-MISSING"]) else [])
  ++ flag_if (st_eqb prev ValueState_DISCOVERED) "DISCOVERED"
  ++ (if st_eqb prev ValueState_PENDING
      then (if st_eqb new ValueState_PENDING then ["STILL-PENDING"] else ["WAS-PENDING"])
      else flag_if (st_eqb new ValueState_PENDING) "IS-PENDING")
  ++ (if st_eqb prev ValueState_FAILED
      then (if st_eqb new ValueState_FAILED then ["STILL-FAILING"]
            else flag_if (st_eqb new ValueState_CONFIGURED) "FIXED")
      else flag_if (st_eqb new ValueState_FAILED) "FAILED")
  ++ (if st_eqb prev ValueState_INVALID
      then (if st_eqb new ValueState_INVALID then ["STILL-INVALID"]
            else flag_if (st_eqb new ValueState_CONFIGURED) "FIXED")
      else flag_if (st_eqb new ValueState_INVALID) "INVALID").

(** ** [compressTxnOps] *)

Definition is_op (o : TxnOperation) (op : RecordedTxnOp) : bool := bool_decide (op_Operation op = o).

(** The next operation of the same key: when it is an [o] too, it is changed by
    [f]; otherwise there is nothing to compress. *)
Fixpoint absorb (key : string) (o : TxnOperation) (f : RecordedTxnOp -> RecordedTxnOp)
    (ops : list RecordedTxnOp) : option (list RecordedTxnOp) :=
  match ops with
  | [] => None
  | op :: ops =>
      if String.eqb (op_Key op) key then (if is_op o op then Some (f op :: ops) else None)
      else cons op <$> absorb key o f ops
  end.

(** One pass: drop the operations [o] that are pending and followed by another
    [o] of the same key, which [f] completes.  The fuel is the length. *)
Fixpoint compress_pass (fuel : nat) (o : TxnOperation) (pending : RecordedTxnOp -> bool)
    (f : RecordedTxnOp -> RecordedTxnOp -> RecordedTxnOp) (ops : list RecordedTxnOp) :
    list RecordedTxnOp :=
  match fuel, ops with
  | S fuel, op :: ops =>
      if is_op o op && pending op then
        match absorb (op_Key op) o (f op) ops with
        | Some ops' => compress_pass fuel o pending f ops'
        | None => op :: compress_pass fuel o pending f ops
        end
      else op :: compress_pass fuel o pending f ops
  | _, _ => ops
  end.

Definition create_pending (op : RecordedTxnOp) : bool := st_eqb (op_NewState op) ValueState_PENDING.
Definition delete_pending (op : RecordedTxnOp) : bool := st_eqb (op_PrevState op) ValueState_PENDING.

(** [executed[j]] takes over the previous value and state of the dropped one. *)
Definition merge_create (op next : RecordedTxnOp) : RecordedTxnOp :=
  opset_prev (op_PrevState op) (op_PrevValue op) (op_PrevErr op)
    (match op_PrevErr op with Some e => Error e | None => op_PrevErrMsg next end) next.
(** [compressed[j]] takes over the new value and state of the dropped one. *)
Definition merge_delete (op prev : RecordedTxnOp) : RecordedTxnOp :=
  opset_new (op_NewState op) (op_NewValue op) (op_NewErr op)
    (match op_NewErr op with Some e => Error e | None => op_NewErrMsg prev end) prev.

Definition compress_creates (ops : list RecordedTxnOp) : list RecordedTxnOp :=
  compress_pass (length ops) TxnOperation_CREATE create_pending merge_create ops.
(** The second loop runs from the end. *)
Definition compress_deletes (ops : list RecordedTxnOp) : list RecordedTxnOp :=
  rev (compress_pass (length ops) TxnOperation_DELETE delete_pending merge_delete (rev ops)).

Definition compressTxnOps (executed : list RecordedTxnOp) : list RecordedTxnOp :=
  compress_deletes (compress_creates executed).

(** ** Statistics *)

Record TxnStats := MkTxnStats {
  ts_TotalProcessed : N;
  ts_OperationCount : gmap string N;
  ts_ValueStateCount : gmap string N;
  ts_ErrorCount : N
}.

Definition u64_incr (n : N) : N := (n + 1) mod 2 ^ 64.

Definition count_up (k : string) (m : gmap string N) : gmap string N :=
  <[k := u64_incr (default 0%N (m !! k))]> m.

Definition stats_op (st : TxnStats) (op : RecordedTxnOp) : TxnStats :=
  MkTxnStats (ts_TotalProcessed st)
    (count_up (TxnOperation_String (op_Operation op)) (ts_OperationCount st))
    (count_up (ValueState_String (op_NewState op)) (ts_ValueStateCount st))
    (match op_NewErr op with Some _ => u64_incr (ts_ErrorCount st) | None => ts_ErrorCount st end).

Definition updateTransactionStats (execOps : list RecordedTxnOp) (st : TxnStats) : TxnStats :=
  fold_left stats_op execOps
    (MkTxnStats (u64_incr (ts_TotalProcessed st)) (ts_OperationCount st) (ts_ValueStateCount st)
       (ts_ErrorCount st)).
End txn_ops.
