(* ===== verification/CompressFacts.v ===== *)
(** * The net effect of [compressTxnOps]

    Per key, a pass of the compression is a fold over the operations of the key;
    from this follows what the compression keeps. *)
From S2P Require Import Prelude Monad Api TxnOps.

Section compress.
Context {X : Ext}.

Definition of_key (k : string) (ops : list RecordedTxnOp) : list RecordedTxnOp :=
  filter (fun op => op_Key op = k) ops.

(** [a] is directly followed by [b]. *)
Definition adjacent {A} (a b : A) (l : list A) : Prop := exists l1 l2, l = l1 ++ a :: b :: l2.

Lemma adjacent_cons {A} (a b x : A) l :
  adjacent a b (x :: l) <-> (a = x /\ head l = Some b) \/ adjacent a b l.
Proof.
  split.
  - intros ([|y l1] & l2 & Hl); simplify_eq/=; [by left|right; by exists l1, l2].
  - intros [[-> Hh]|(l1 & l2 & ->)]; [|by exists (x :: l1), l2].
    destruct l as [|y l]; simplify_eq/=. by exists [], l.
Qed.

Lemma adjacent_reverse {A} (a b : A) l : adjacent a b (rev l) <-> adjacent b a l.
Proof.
  assert (forall (a b : A) l, adjacent b a l -> adjacent a b (rev l)) as H.
  { intros a' b' l' (l1 & l2 & ->). exists (rev l2), (rev l1).
    rewrite rev_app_distr. simpl. by rewrite <- !app_assoc. }
  split; [|apply H]. intros Hr%H. by rewrite rev_involutive in Hr.
Qed.

Section pass.
Context (o : TxnOperation) (pending : RecordedTxnOp -> bool)
  (f : RecordedTxnOp -> RecordedTxnOp -> RecordedTxnOp).
Context (f_key : forall op nx, op_Key (f op nx) = op_Key nx).
Context (f_op : forall op nx, op_Operation (f op nx) = op_Operation nx).

(** The compression of the operations of one key. *)
Fixpoint squash_from (cur : RecordedTxnOp) (rest : list RecordedTxnOp) : list RecordedTxnOp :=
  match rest with
  | [] => [cur]
  | nx :: rest =>
      if is_op o cur && pending cur && is_op o nx then squash_from (f cur nx) rest
      else cur :: squash_from nx rest
  end.
Definition squash (l : list RecordedTxnOp) : list RecordedTxnOp :=
  match l with [] => [] | c :: r => squash_from c r end.

Lemma absorb_Some key g ops ops' :
  absorb key o g ops = Some ops' ->
  exists l1 nx l2, ops = l1 ++ nx :: l2 /\ of_key key l1 = [] /\ op_Key nx = key
    /\ is_op o nx = true /\ ops' = l1 ++ g nx :: l2.
Proof.
  revert ops'. induction ops as [|op ops IH]; intros ops'; simpl; [done|].
  destruct (String.eqb_spec (op_Key op) key) as [Heq|Hne].
  - destruct (is_op o op) eqn:E; [|done]. intros [= <-]. by exists [], op, ops.
  - rewrite fmap_Some. intros (ops1 & H1 & ->).
    destruct (IH _ H1) as (l1 & nx & l2 & -> & Hl1 & ? & ? & ->).
    exists (op :: l1), nx, l2. split_and!; [done| |done..].
    unfold of_key. by rewrite filter_cons_False.
Qed.

Lemma absorb_None key g ops :
  absorb key o g ops = None -> forall nx, head (of_key key ops) = Some nx -> is_op o nx = false.
Proof.
  induction ops as [|op ops IH]; simpl; [done|]. unfold of_key. rewrite filter_cons.
  destruct (String.eqb_spec (op_Key op) key) as [Heq|Hne].
  - rewrite decide_True by done. destruct (is_op o op) eqn:E; [done|]. by intros _ nx [= <-].
  - rewrite decide_False by done. rewrite fmap_None. apply IH.
Qed.

Lemma squash_stop c l :
  (forall nx, head l = Some nx -> is_op o c && pending c && is_op o nx = false) ->
  squash_from c l = c :: squash l.
Proof. destruct l as [|nx l]; [done|]. simpl. intros H. by rewrite H. Qed.

Lemma of_key_pass k fuel : forall ops, length ops <= fuel ->
  of_key k (compress_pass fuel o pending f ops) = squash (of_key k ops).
Proof.
  induction fuel as [|fuel IH]; intros [|op ops] Hf; simpl in Hf; try lia; [done..|].
  cbn [compress_pass].
  assert (forall c, is_op o op && pending op = c ->
    (c = true -> absorb (op_Key op) o (f op) ops = None) ->
    of_key k (op :: compress_pass fuel o pending f ops) = squash (of_key k (op :: ops))) as Hkeep.
  { intros c Hc Hn. unfold of_key. rewrite !filter_cons. case_decide as Hk; [|apply IH; lia].
    simpl. rewrite squash_stop; [f_equal; apply IH; lia|]. intros nx Hnx. rewrite Hc.
    destruct c; [simpl|done]. subst k. by eapply absorb_None; [apply Hn|]. }
  destruct (is_op o op && pending op) eqn:Ec; [|by apply (Hkeep false)].
  destruct (absorb _ _ _ _) as [ops'|] eqn:Ea; [|by apply (Hkeep true)].
  apply absorb_Some in Ea as (l1 & nx & l2 & -> & Hl1 & Hnx & Ho & ->).
  rewrite IH by (rewrite !length_app in *; simpl in *; lia).
  unfold of_key in *. rewrite !filter_cons, !filter_app, !filter_cons, f_key, Hnx.
  case_decide as Hk; [|done]. subst k. rewrite Hl1. simpl. by rewrite Ec, Ho.
Qed.

Lemma squash_first {B} (p : RecordedTxnOp -> B) (Hp : forall op nx, p (f op nx) = p op) l :
  p <$> head (squash l) = p <$> head l.
Proof.
  destruct l as [|c l]; [done|]. simpl. revert c. induction l as [|nx l IH]; intros c; simpl; [done|].
  destruct (_ && _); [|done]. by rewrite IH, Hp.
Qed.

Lemma squash_last {B} (q : RecordedTxnOp -> B) (Hq : forall op nx, q (f op nx) = q nx) l :
  q <$> last (squash l) = q <$> last l.
Proof.
  destruct l as [|c l]; [done|]. simpl squash. revert c. induction l as [|nx l IH]; intros c; [done|].
  cbn [squash_from]. destruct (_ && _).
  - rewrite IH. destruct l as [|y l]; simpl; [by rewrite Hq|done].
  - rewrite (last_cons c (nx :: l)), (last_cons c (squash_from nx l)).
    specialize (IH nx). destruct (last (squash_from nx l)), (last (nx :: l)) eqn:E; simplify_eq/=;
      congruence.
Qed.

Lemma squash_from_head c l : exists c', head (squash_from c l) = Some c' /\ op_Operation c' = op_Operation c.
Proof.
  revert c. induction l as [|nx l IH]; intros c; simpl; [by exists c|].
  destruct (is_op o c) eqn:E1; simpl; [|by exists c].
  destruct (pending c); simpl; [|by exists c].
  destruct (is_op o nx) eqn:E2; simpl; [|by exists c].
  destruct (IH (f c nx)) as (c' & ? & Hc'). exists c'. split; [done|].
  rewrite Hc', f_op. unfold is_op in *. rewrite bool_decide_eq_true in E1, E2. congruence.
Qed.

Lemma squash_Forall (P : RecordedTxnOp -> Prop) (Hf : forall op nx, P nx -> P (f op nx)) l :
  Forall P l -> Forall P (squash l).
Proof.
  destruct l as [|c l]; [done|]. simpl squash. revert c.
  induction l as [|nx l IH]; intros c Hall; simpl; [done|].
  inversion_clear Hall as [|?? H1 Hall']. inversion_clear Hall' as [|?? H2 H3].
  destruct (_ && _); [apply IH; constructor; auto|]. constructor; auto.
Qed.

(** Nothing is left to compress. *)
Lemma squash_settled l a b :
  adjacent a b (squash l) -> is_op o a && pending a && is_op o b = false.
Proof.
  destruct l as [|c l]; [intros ([|] & ? & ?); simplify_eq|]. simpl squash.
  revert c. induction l as [|nx l IH]; intros c; simpl.
  - intros H%adjacent_cons. destruct H as [[? ?]|([|] & ? & ?)]; simplify_eq.
  - destruct (is_op o c && pending c && is_op o nx) eqn:Ec; [apply IH|].
    rewrite adjacent_cons. intros [[-> Hb]|Hab]; [|by eapply IH].
    destruct (squash_from_head nx l) as (c' & Hc' & Ho). simplify_eq.
    unfold is_op in *. by rewrite Ho.
Qed.

(** A pass for one operation leaves the pairs of another operation alone. *)
Lemma squash_other o' (Ho : o' <> o) l a b :
  adjacent a b (squash l) -> is_op o' a = true -> is_op o' b = true -> adjacent a b l.
Proof.
  destruct l as [|c l]; [done|]. simpl squash. revert c.
  induction l as [|nx l IH]; intros c; simpl; [done|].
  destruct (is_op o c && pending c && is_op o nx) eqn:Ec.
  - intros Hab Ha Hb. specialize (IH _ Hab Ha Hb). rewrite adjacent_cons in IH |- *.
    destruct IH as [[-> _]|Hl].
    + exfalso. unfold is_op in *. rewrite f_op in Ha.
      apply bool_decide_eq_true in Ha. apply andb_true_iff in Ec as [_ Ec%bool_decide_eq_true].
      congruence.
    + right. rewrite adjacent_cons. by right.
  - rewrite !(adjacent_cons a b c). intros [[-> Hb]|Hab] Ha Hb'.
    + left. split; [done|]. simpl. destruct l as [|y l]; simpl in Hb; [done|].
      destruct (is_op o nx && pending nx && is_op o y) eqn:Ey; [|done].
      exfalso. destruct (squash_from_head (f nx y) l) as (c' & Hc' & Hoc). rewrite Hb in Hc'.
      injection Hc' as <-. unfold is_op in *. rewrite Hoc, f_op in Hb'.
      apply bool_decide_eq_true in Hb'. apply andb_true_iff in Ey as [_ Ey%bool_decide_eq_true].
      congruence.
    + right. by apply IH.
Qed.

(** Operations of another kind stay, in their order and unchanged. *)
Lemma pass_other o' (Ho : o' <> o) fuel : forall ops, length ops <= fuel ->
  filter (fun op => op_Operation op = o') (compress_pass fuel o pending f ops)
  = filter (fun op => op_Operation op = o') ops.
Proof.
  induction fuel as [|fuel IH]; intros [|op ops] Hf; simpl in Hf; try lia; [done..|].
  cbn [compress_pass].
  assert (filter (fun op => op_Operation op = o') (op :: compress_pass fuel o pending f ops)
    = filter (fun op => op_Operation op = o') (op :: ops)) as Hkeep.
  { rewrite !filter_cons. case_decide; [f_equal|]; apply IH; lia. }
  destruct (is_op o op) eqn:Eo; simpl; [|done]. destruct (pending op); [|done].
  destruct (absorb _ _ _ _) as [ops'|] eqn:Ea; [|done].
  apply absorb_Some in Ea as (l1 & nx & l2 & -> & Hl1 & Hnx & Hno & ->).
  rewrite IH by (rewrite !length_app in *; simpl in *; lia).
  unfold is_op in *. rewrite bool_decide_eq_true in Eo, Hno.
  rewrite !filter_cons, !filter_app, !filter_cons, f_op.
  rewrite (decide_False (P := op_Operation op = o')) by congruence.
  by rewrite !(decide_False (P := op_Operation nx = o')) by congruence.
Qed.
End pass.

Lemma filter_rev {A} (P : A -> Prop) `{!forall x, Decision (P x)} (l : list A) :
  filter P (rev l) = rev (filter P l).
Proof.
  induction l as [|x l IH]; [done|]. simpl. rewrite filter_app, IH, !filter_cons.
  case_decide; simpl; [done|]. by rewrite app_nil_r.
Qed.

Lemma of_key_rev k ops : of_key k (rev ops) = rev (of_key k ops).
Proof. apply filter_rev. Qed.

Lemma last_rev {A} (l : list A) : last (rev l) = head l.
Proof. destruct l as [|x l]; [done|]. simpl. by rewrite last_snoc. Qed.

Lemma head_rev {A} (l : list A) : head (rev l) = last l.
Proof. by rewrite <- (rev_involutive l) at 2; rewrite last_rev. Qed.

Lemma of_key_compress k ops :
  of_key k (compressTxnOps ops)
  = rev (squash TxnOperation_DELETE delete_pending merge_delete
           (rev (squash TxnOperation_CREATE create_pending merge_create (of_key k ops)))).
Proof.
  unfold compressTxnOps, compress_deletes, compress_creates.
  rewrite of_key_rev, of_key_pass, of_key_rev, of_key_pass; [done|done|done|done|].
  by rewrite length_rev.
Qed.

Lemma Forall_head {A} (P : A -> Prop) l a : Forall P l -> head l = Some a -> P a.
Proof. intros [|x l' H _]; simpl; [done|]. by intros [= <-]. Qed.

(** What an operation starts from and what it ends with. *)
Definition op_from (op : RecordedTxnOp) := (op_Key op, op_PrevState op, op_PrevValue op, op_PrevErr op).
Definition op_to (op : RecordedTxnOp) := (op_NewState op, op_NewValue op, op_NewErr op).

(** C9: compressing the executed operations does not change what they amount
    to: the first operation of each key still starts from the same state, value
    and error and the last one still ends in the same ones; updates are kept as
    they were; and in the result no pending creation is followed, for the same
    key, by another creation, and no deletion by one of a pending value. *)
Theorem compress_net_effect (executed : list RecordedTxnOp) (k : string) :
  let compressed := compressTxnOps executed in
  op_from <$> head (of_key k compressed) = op_from <$> head (of_key k executed)
  /\ op_to <$> last (of_key k compressed) = op_to <$> last (of_key k executed)
  /\ filter (fun op => op_Operation op = TxnOperation_UPDATE) compressed
     = filter (fun op => op_Operation op = TxnOperation_UPDATE) executed
  /\ (forall a b, adjacent a b (of_key k compressed) ->
        ~ (op_Operation a = TxnOperation_CREATE /\ op_NewState a = ValueState_PENDING
           /\ op_Operation b = TxnOperation_CREATE)
        /\ ~ (op_Operation a = TxnOperation_DELETE
           /\ op_Operation b = TxnOperation_DELETE /\ op_PrevState b = ValueState_PENDING)).
Proof.
  cbv zeta. rewrite of_key_compress.
  set (l := squash TxnOperation_CREATE create_pending merge_create (of_key k executed)).
  split_and!.
  - rewrite head_rev.
    assert (Forall (fun op => op_Key op = k) (of_key k executed)) as Hk0.
    { apply Forall_forall. by intros op [H _]%list_elem_of_filter. }
    assert (Forall (fun op => op_Key op = k) l) as Hk by by apply squash_Forall.
    pose proof (squash_last TxnOperation_DELETE delete_pending merge_delete op_from
      ltac:(done) (rev l)) as H1. rewrite H1, last_rev.
    pose proof (squash_first TxnOperation_CREATE create_pending merge_create
      (fun op => (op_PrevState op, op_PrevValue op, op_PrevErr op)) ltac:(done) (of_key k executed)) as H2.
    fold l in H2. destruct (head l) as [a|] eqn:Ea, (head (of_key k executed)) as [b|] eqn:Eb;
      simplify_eq/=; [|done]. unfold op_from. rewrite (Forall_head _ _ a Hk Ea), (Forall_head _ _ b Hk0 Eb).
    congruence.
  - rewrite last_rev.
    pose proof (squash_first TxnOperation_DELETE delete_pending merge_delete op_to ltac:(done) (rev l)) as H1.
    rewrite H1, head_rev. apply squash_last. done.
  - unfold compressTxnOps, compress_deletes.
    rewrite filter_rev, pass_other, filter_rev, rev_involutive; [|done..|by rewrite length_rev].
    by apply pass_other.
  - intros a b Hab%adjacent_reverse. rewrite rev_involutive in Hab. split.
    + intros (Ha & Hp & Hb).
      assert (adjacent a b l) as Hl.
      { apply adjacent_reverse. apply (squash_other TxnOperation_DELETE delete_pending merge_delete ltac:(done) TxnOperation_CREATE);
          [done|exact Hab|..]; unfold is_op; by apply bool_decide_eq_true. }
      apply squash_settled in Hl; [|done]. unfold is_op, create_pending, st_eqb in Hl.
      by rewrite !bool_decide_eq_true_2 in Hl.
    + intros (Ha & Hb & Hp). apply squash_settled in Hab; [|done].
      unfold is_op, delete_pending, st_eqb in Hab. by rewrite !bool_decide_eq_true_2 in Hab.
Qed.
End compress.
