(* ===== verification/ExecState.v ===== *)
(** * Transactions and the state they execute in

    The transaction types of plugins/kvscheduler/txn_process.go, and the part of
    the scheduler a transaction works on: the graph with the write handle in use,
    the registry, the southbound plane and the set of updated states. *)
From S2P Require Import Prelude KeySet Monad Api Registry Flags EdgeLookup Graph GraphRW.
From S2P Require Import NodeUtils Descriptor TxnOps.

Section exec_state.
Context {X : Ext} {MO : MapOrder}.

Record kvForTxn := MkKvForTxn {
  kv_key : string;
  kv_value : option Value;
  kv_metadata : option Metadata;
  kv_origin : ValueOrigin;
  kv_isRevert : bool
}.

(** The channel for the result of a blocking transaction is an output of the
    post-processing. *)
Record nbTxn := MkNbTxn {
  nb_resyncType : ResyncType;
  nb_verboseRefresh : bool;
  nb_isBlocking : bool;
  nb_retryEnabled : bool;
  nb_retryArgs : option RetryOpt;
  nb_revertOnFailure : bool;
  nb_withSimulation : bool;
  nb_description : string
}.

(** The channel that announces the registration is left out. *)
Record implTxn := MkImplTxn {
  impl_txnSeqNum : N;
  impl_keyPrefix : string;
  impl_keys : gmap string N
}.

Record retryTxnMeta := MkRetryMeta { rm_txnSeqNum : N; rm_delay : Z; rm_attempt : Z }.

#[export] Instance retryTxnMeta_eq_dec : EqDecision retryTxnMeta.
Proof. solve_decision. Defined.

Record retryTxn := MkRetryTxn { rtx_meta : retryTxnMeta; rtx_keys : gmap string N }.

Record transaction := MkTransaction {
  txn_seqNum : N;
  txn_txnType : TxnType;
  txn_values : list kvForTxn;
  txn_nb : option nbTxn;
  txn_retry : option retryTxn;
  txn_impl : option implTxn
}.

Definition txnset_values vs (t : transaction) :=
  MkTransaction (txn_seqNum t) (txn_txnType t) vs (txn_nb t) (txn_retry t) (txn_impl t).
Definition txnset_seqNum n (t : transaction) :=
  MkTransaction n (txn_txnType t) (txn_values t) (txn_nb t) (txn_retry t) (txn_impl t).

(** [txn.nb] and [txn.retry]: nil panics. *)
Definition the_nb {S} (t : transaction) : M S nbTxn := deref "nil pointer dereference" (txn_nb t).
Definition the_retry {S} (t : transaction) : M S retryTxn := deref "nil pointer dereference" (txn_retry t).

(** ** The state *)

Record ExecSt := MkExec {
  x_graph : kvgraph;
  x_rw : graphRW;
  x_registry : registry;
  x_world : World;
  x_updatedStates : KeySet;
  x_nonRetryable : list error
}.

Definition xset_graph k (x : ExecSt) := MkExec k (x_rw x) (x_registry x) (x_world x)
  (x_updatedStates x) (x_nonRetryable x).
Definition xset_rw w (x : ExecSt) := MkExec (x_graph x) w (x_registry x) (x_world x)
  (x_updatedStates x) (x_nonRetryable x).
Definition xset_registry r (x : ExecSt) := MkExec (x_graph x) (x_rw x) r (x_world x)
  (x_updatedStates x) (x_nonRetryable x).
Definition xset_world w (x : ExecSt) := MkExec (x_graph x) (x_rw x) (x_registry x) w
  (x_updatedStates x) (x_nonRetryable x).
Definition xset_updatedStates u (x : ExecSt) := MkExec (x_graph x) (x_rw x) (x_registry x) (x_world x)
  u (x_nonRetryable x).

Definition E := M ExecSt.

(** Operations on the graph of the write handle. *)
Definition cur_graph (x : ExecSt) : graphR := rw_graph (x_rw x).
Definition in_rw {A} (m : G A) : E A :=
  zoom cur_graph (fun g x => xset_rw (rwset_graph g (x_rw x)) x) m.
(** Operations on the registry. *)
Definition in_registry {A} (m : M registry A) : E A := zoom x_registry xset_registry m.
(** Calls of a descriptor. *)
Definition in_world {A} (m : M World A) : E A := zoom x_world xset_world m.
(** Save and release of the handle. *)
Definition in_handle_and_graph {A} (m : M SaveSt A) : E A :=
  zoom (fun x => (x_rw x, x_graph x)) (fun s x => xset_graph s.2 (xset_rw s.1 x)) m.

Definition rnode (r : nat) : E node := in_rw (node_at r).
(** A result computed from the graph of the handle. *)
Definition in_graph {A} (f : graphR -> outcome A) : E A := x ← get; lift (f (cur_graph x)).

(** [graphW.GetNode(key)]. *)
Definition xGetNode (key : string) : E (option node) :=
  gets (fun x => lookup_node (cur_graph x) key).
Definition xSetNode (key : string) : E nat := in_rw (SetNode key).
Definition xDeleteNode (key : string) : E unit :=
  x ← get; in_rw (DeleteNode (rw_wInPlace (x_rw x)) key) ;; skip.

Definition descriptor_for (key : string) : E (option KVDescriptor) :=
  in_registry (GetDescriptorForKey key).

Definition add_updated (key : string) : E unit :=
  modify (fun x => xset_updatedStates (ks_Add (x_updatedStates x) key).1 x).

(** [graphW.Release(); graphW = s.graph.Write(inPlace, record)]. *)
Definition xRelease : E unit := in_handle_and_graph Release.
Definition xWrite (inPlace record : bool) : E unit :=
  x ← get; w ← lift (Write (x_graph x) inPlace record); modify (xset_rw w).

(** [updateNodeState] and [refreshNodeState]. *)
Definition updateNodeState (r : nat) (newState : ValueState) : E unit :=
  n ← rnode r;
  if decide (getNodeState (Some n) = newState) then skip
  else in_rw (SetFlags r [ValueStateFlag newState]).
End exec_state.
