(* ===== verification/Refresh.v ===== *)
(** * Refresh of the graph

    [plugins/kvscheduler/refresh.go]: the values in the graph are brought to
    the state retrieved from the southbound plane.  The set of refreshed keys is
    passed on and returned. *)
From S2P Require Import Prelude KeySet Monad Api Registry Flags EdgeLookup Graph GraphRW.
From S2P Require Import NodeUtils Descriptor TxnOps ExecState.

Section refresh.
Context {X : Ext} {MO : MapOrder}.

Record resyncData := MkResyncData { rd_first : bool; rd_values : list kvForTxn }.

Definition refreshNodeState (r : nat) (newState : ValueState) : E unit := updateNodeState r newState.

Definition mark (refreshed : KeySet) (key : string) : KeySet := (ks_Add refreshed key).1.

(** [skipRefresh]: mark the nodes and the ones derived from them. *)
Definition skipRefresh (nodes : list nat) (except : option KeySet) (refreshed : KeySet) : E KeySet :=
  foldM (fun refreshed r =>
    n ← rnode r;
    if match except with Some ks => ks_Has ks (n_key n) | None => false end then mret refreshed
    else
      derived ← in_graph (fun g => getDerivedNodes g n);
      mret (fold_left (fun acc d => mark acc (n_key d)) derived (mark refreshed (n_key n))))
    nodes refreshed.

Definition validRetrievedKV (kv : KVWithMetadata) (descriptor : KVDescriptor) (refreshed : KeySet) : bool :=
  if String.eqb (kvm_Key kv) "" then false
  else if ks_Has refreshed (kvm_Key kv) then false
  else if bool_decide (is_Some (kvm_Value kv)) then d_KeySelector descriptor (kvm_Key kv)
  else false.

(** A value retrieved more than once only gives a warning here. *)
Definition validRetrievedDerivedKV (n : node) : bool := bool_decide (is_Some (n_value n)).

Definition refreshAvailNode (r : nat) (origin : ValueOrigin) (derived : bool) (baseKey : string)
    (refreshed : KeySet) : E KeySet :=
  n ← rnode r;
  descriptor ← descriptor_for (n_key n);
  if derived && negb (validRetrievedDerivedKV n) then
    xDeleteNode (n_key n) ;; mret refreshed
  else
    whenM (negb (isNodeAvailable (Some n)))
      (add_updated baseKey ;; in_rw (DelFlags r [UnavailValueFlagIndex])) ;;
    let refreshed := mark refreshed (n_key n) in
    n ← rnode r;
    whenM (bool_decide (getNodeState (Some n) = ValueState_NONEXISTENT))
      (refreshNodeState r
         (if decide (origin = FromSB) then ValueState_OBTAINED else ValueState_DISCOVERED)) ;;
    n ← rnode r;
    whenM (bool_decide (getNodeState (Some n) = ValueState_PENDING))
      (refreshNodeState r ValueState_CONFIGURED) ;;
    match descriptor with
    | Some d => in_rw (SetFlags r [DescriptorFlag (d_Name d)])
    | None => in_rw (DelFlags r [DescriptorFlagIndex])
    end ;;
    (if (derived : bool) then in_rw (SetFlags r [DerivedFlag baseKey])
     else in_rw (DelFlags r [DerivedFlagIndex])) ;;
    mret refreshed.

Definition refreshUnavailNode (r : nat) (refreshed : KeySet) : E KeySet :=
  n ← rnode r;
  let refreshed := mark refreshed (n_key n) in
  whenM (isNodeAvailable (Some n)) (add_updated (getNodeBaseKey n)) ;;
  let state := getNodeState (Some n) in
  if decide (getNodeOrigin (Some n) = FromSB) then xDeleteNode (n_key n) ;; mret refreshed
  else if decide (state = ValueState_DISCOVERED) then xDeleteNode (n_key n) ;; mret refreshed
  else
    nodeW ← xSetNode (n_key n);
    n ← rnode r;
    whenM (isNodeAvailable (Some n)) (in_rw (SetFlags nodeW [UnavailValueFlag])) ;;
    if decide (state = ValueState_UNIMPLEMENTED) then mret refreshed
    else if decide (state = ValueState_CONFIGURED) then
      n ← rnode r;
      u ← deref "nil pointer dereference" (getNodeLastUpdate (Some n));
      refreshNodeState nodeW
        (match lu_value u with None => ValueState_REMOVED | Some _ => ValueState_MISSING end) ;;
      mret refreshed
    else mret refreshed.

(** One derived value of [refreshValue]. *)
Definition refresh_derived (origin : ValueOrigin) (baseKey : string) (obsolete : KeySet)
    (refreshed : KeySet) (kv : KeyValuePair) : E KeySet :=
  let isObsolete := ks_Has obsolete (kvp_Key kv) in
  derNode ← xSetNode (kvp_Key kv);
  if (isObsolete : bool) then refreshUnavailNode derNode refreshed
  else
    derDescr ← descriptor_for (kvp_Key kv);
    let derHandler := newDescriptorHandler derDescr in
    in_rw (SetValue derNode (kvp_Value kv)) ;;
    dn ← rnode derNode;
    in_rw (SetTargets derNode (constructTargets (dependencies derHandler (n_key dn) (n_value dn)) [])) ;;
    refreshAvailNode derNode origin true baseKey refreshed.

Definition refreshValue (retrievedKV : KVWithMetadata) (descriptor : KVDescriptor) (refreshed : KeySet) :
    E KeySet :=
  let handler := newDescriptorHandler (Some descriptor) in
  r ← xSetNode (kvm_Key retrievedKV);
  in_rw (SetLabel r (keyLabel handler (kvm_Key retrievedKV))) ;;
  in_rw (SetValue r (kvm_Value retrievedKV)) ;;
  whenM (d_WithMetadata descriptor)
    (in_rw (SetMetadataMap r (d_Name descriptor)) ;; in_rw (SetMetadata r (kvm_Metadata retrievedKV))) ;;
  refreshed ← refreshAvailNode r (kvm_Origin retrievedKV) false (kvm_Key retrievedKV) refreshed;
  n ← rnode r;
  derivedKeys ← in_graph (fun g => getDerivedKeys g n);
  let derives := derivedValues handler (n_key n) (n_value n) in
  let obsolete := fold_left (fun acc d => (ks_Del acc (kvp_Key d)).1) derives derivedKeys in
  let derives := derives ++ map (fun key => MkKeyValuePair key None) (ks_Iterate obsolete) in
  in_rw (SetTargets r (constructTargets (dependencies handler (n_key n) (n_value n)) derives)) ;;
  foldM (refresh_derived (kvm_Origin retrievedKV) (n_key n) obsolete) derives refreshed.

(** The origin of a retrieved value: given, or the one of the value used for
    correlation, or the one of the last revision, or the southbound plane. *)
Definition retrieved_origin (correlate : list KVWithMetadata) (kv : KVWithMetadata) : E ValueOrigin :=
  if decide (kvm_Origin kv = UnknownOrigin) then
    let origin := match list_find (fun c => kvm_Key c = kvm_Key kv) correlate with
      | Some (_, c) => kvm_Origin c | None => UnknownOrigin end in
    if decide (origin = UnknownOrigin) then
      x ← get;
      match last (GetNodeTimeline (cur_graph x) (kvm_Key kv)) with
      | None => mret FromSB
      | Some lastRev =>
          match rn_Flags lastRev !! ValueStateFlagIndex with
          | Some (ValueStateFlag s) =>
              mret (if decide (valueStateToOrigin s = UnknownOrigin) then FromSB else valueStateToOrigin s)
          | _ => panic "interface conversion"
          end
      end
    else mret origin
  else mret (kvm_Origin kv).

Definition nonempty_keys (keys : option KeySet) : bool :=
  match keys with Some ks => negb (ks_Length ks =? 0) | None => false end.

(** One retrieved key-value pair. *)
Definition refresh_retrieved (keys : option KeySet) (correlate : list KVWithMetadata)
    (descriptor : KVDescriptor) (refreshed : KeySet) (kv : KVWithMetadata) : E KeySet :=
  if nonempty_keys keys && negb (match keys with Some ks => ks_Has ks (kvm_Key kv) | None => true end)
  then mret refreshed
  else if negb (validRetrievedKV kv descriptor refreshed) then mret refreshed
  else
    origin ← retrieved_origin correlate kv;
    refreshValue (MkKVWithMetadata (kvm_Key kv) (kvm_Value kv) (kvm_Metadata kv) origin)
      descriptor refreshed.

(** The values used for correlation. *)
Definition correlate_values (resync : option resyncData) (descriptor : KVDescriptor)
    (descrNodes : list nat) : E (list KVWithMetadata) :=
  match resync with
  | Some rd =>
      if rd_first rd then
        mret (map (fun kv => MkKVWithMetadata (kv_key kv) (kv_value kv) None (kv_origin kv))
                (filter (fun kv => d_KeySelector descriptor (kv_key kv) = true) (rd_values rd)))
      else
        ns ← mapM rnode descrNodes;
        mret (map nodeToKVPairWithMetadata (filter (fun n => isNodeAvailable (Some n) = true) ns))
  | None =>
      ns ← mapM rnode descrNodes;
      mret (map nodeToKVPairWithMetadata (filter (fun n => isNodeAvailable (Some n) = true) ns))
  end.

(** Base values of the descriptor that were not retrieved lose their metadata. *)
Definition unset_metadata (refreshed : KeySet) (r : nat) : E unit :=
  n ← rnode r;
  if ks_Has refreshed (n_key n) then skip
  else if decide (getNodeOrigin (Some n) = FromNB) then
    match n_metadata n with
    | Some _ => missing ← xSetNode (n_key n); in_rw (SetMetadata missing None)
    | None => skip
    end
  else skip.

Definition refresh_descriptor (keys : option KeySet) (resync : option resyncData) (refreshed : KeySet)
    (descriptor : KVDescriptor) : E KeySet :=
  x ← get;
  let descrNodes := GetNodes (cur_graph x) None (descrValsSelectors (d_Name descriptor) false) in
  let skipped := match keys with
    | Some ks => negb (ks_Length ks =? 0) && negb (existsb (d_KeySelector descriptor) (ks_Iterate ks))
    | None => false end in
  if skipped then skipRefresh descrNodes None refreshed
  else
    correlate ← correlate_values resync descriptor descrNodes;
    result ← in_world (retrieve (newDescriptorHandler (Some descriptor)) correlate);
    match result with
    | (retrieved, true, None) =>
        refreshed ← (if nonempty_keys keys then skipRefresh descrNodes keys refreshed else mret refreshed);
        refreshed ← foldM (refresh_retrieved keys correlate descriptor) retrieved refreshed;
        forM descrNodes (unset_metadata refreshed) ;;
        mret refreshed
    | _ => skipRefresh descrNodes None refreshed
    end.

Definition refresh_missing (refreshed : KeySet) (r : nat) : E KeySet :=
  n ← rnode r;
  if ks_Has refreshed (n_key n) then mret refreshed else refreshUnavailNode r refreshed.

(** [verbose] only affects the log. *)
Definition refreshGraph (keys : option KeySet) (resync : option resyncData) (verbose : bool) : E unit :=
  descriptors ← in_registry GetAllDescriptors;
  refreshed ← foldM (refresh_descriptor keys resync) descriptors (NewMapBasedKeySet []);
  x ← get;
  foldM refresh_missing (GetNodes (cur_graph x) None []) refreshed ;;
  skip.
End refresh.
