(* ===== verification/TxnExec.v ===== *)
(** * Execution of a transaction

    [plugins/kvscheduler/txn_exec.go] and [preRecordTxnOp] of txn_record.go.

    The sets [applied] and [branch] are passed by value: [applied] only grows
    between the values of a transaction, and what [applyValue] adds to [branch]
    is deleted when it returns.  [applyValue] takes fuel; everything it calls
    gets the recursive call as [rec]. *)
From S2P Require Import Prelude KeySet Monad Api Registry Flags EdgeLookup Graph GraphRW.
From S2P Require Import NodeUtils Descriptor TxnOps ExecState Refresh.

Section txn_exec.
Context {X : Ext} {MO : MapOrder}.

Record applyValueArgs := MkArgs {
  a_txn : transaction;
  a_kv : kvForTxn;
  a_baseKey : string;
  a_applied : KeySet;
  a_recreating : option KeySet;
  a_isRetry : bool;
  a_dryRun : bool;
  a_isDepUpdate : bool;
  a_isDerived : bool;
  a_branch : KeySet
}.

Definition aset_recreating ks (a : applyValueArgs) := MkArgs (a_txn a) (a_kv a) (a_baseKey a)
  (a_applied a) ks (a_isRetry a) (a_dryRun a) (a_isDepUpdate a) (a_isDerived a) (a_branch a).
Definition aset_branch b (a : applyValueArgs) := MkArgs (a_txn a) (a_kv a) (a_baseKey a)
  (a_applied a) (a_recreating a) (a_isRetry a) (a_dryRun a) (a_isDepUpdate a) (a_isDerived a) b.
(** The copies of the arguments made for derived and for dependent values. *)
Definition derived_args kv (a : applyValueArgs) := MkArgs (a_txn a) kv (a_baseKey a) (a_applied a)
  (a_recreating a) (a_isRetry a) (a_dryRun a) false true (a_branch a).
Definition dep_args kv baseKey isDerived (a : applyValueArgs) := MkArgs (a_txn a) kv baseKey
  (a_applied a) (a_recreating a) (a_isRetry a) (a_dryRun a) true isDerived (a_branch a).

Definition Ops := list RecordedTxnOp.
(** The executed operations and the error. *)
Definition Res : Type := Ops * option error.
(** [applyValue] also returns the previous value. *)
Definition ValueRes : Type := Ops * KeyValuePair * option error.
Definition vr_res (r : ValueRes) : Res := (r.1.1, r.2).

Definition preRecordTxnOp (args : applyValueArgs) (n : node) : E RecordedTxnOp :=
  let state := getNodeState (Some n) in
  let prevErr := (getNodeError (Some n)).2 in
  isProperty ← (if a_isDerived args
                then d ← descriptor_for (kv_key (a_kv args)); mret (bool_decide (d = None))
                else mret false);
  mret (MkTxnOp TxnOperation_UNDEFINED (kv_key (a_kv args)) ValueState_NONEXISTENT
    (RecordProtoMessage (kv_value (a_kv args))) None "" state
    (if decide (state = ValueState_REMOVED) then None else RecordProtoMessage (n_value n))
    prevErr (err_string prevErr) false (a_isDerived args) isProperty (kv_isRevert (a_kv args))
    (a_isRetry args)
    (match a_recreating args with Some ks => ks_Has ks (kv_key (a_kv args)) | None => false end)).

(** The value is part of the transaction, or derived from one that is. *)
Definition from_txn (args : applyValueArgs) (n : node) : bool :=
  ks_Has (a_applied args) (getNodeBaseKey n).

Definition isNBTxn (t : transaction) : bool := bool_decide (txn_txnType t = NBTransaction).

(** Whether another attempt is allowed for a value. *)
Definition consider_retry (r : nat) (txn : transaction) : E ValueState :=
  n ← rnode r;
  retried ← (if decide (txn_txnType txn = RetryFailedOps) then
      rtx ← the_retry txn;
      mret (if decide (is_Some (rtx_keys rtx !! getNodeBaseKey n))
            then Some (rm_attempt (rtx_meta rtx)) else None)
    else mret None);
  let attempt := match retried with Some a => i64 (a + 1) | None => 1%Z end in
  u ← deref "nil pointer dereference" (getNodeLastUpdate (Some n));
  mret (match lu_retryArgs u with
    | Some ra =>
        if lu_retryEnabled u && ((MaxCount ra =? 0) || (attempt <=? MaxCount ra))%Z
        then ValueState_RETRYING else ValueState_FAILED
    | None => ValueState_FAILED
    end).

(** [FAILED] or [RETRYING]. *)
Definition markFailedValue (r : nat) (args : applyValueArgs) (err : error) (retriableErr : bool) :
    E ValueState :=
  let txn := a_txn args in
  revertOnFailure ← (if isNBTxn txn then nb ← the_nb txn; mret (nb_revertOnFailure nb) else mret false);
  let toBeReverted := revertOnFailure && negb (kv_isRevert (a_kv args)) in
  newState ← (if retriableErr && negb toBeReverted then consider_retry r txn else mret ValueState_FAILED);
  updateNodeState r newState ;;
  in_rw (SetFlags r [ErrorFlag (Some err) retriableErr]) ;;
  mret newState.

(** The error reported for a value: dropped when the value is not part of the
    transaction. *)
Definition own_error (args : applyValueArgs) (r : nat) (err : error) : E (option error) :=
  n ← rnode r; mret (if from_txn args n then Some err else None).

(** The value failed: an operation and its error. *)
Definition failed_op (args : applyValueArgs) (r : nat) (txnOp : RecordedTxnOp) (err : error)
    (retriableErr : bool) : E (RecordedTxnOp * option error) :=
  newState ← markFailedValue r args err retriableErr;
  e ← own_error args r err;
  mret (opset_failed newState err txnOp, e).

(** An invalid value. *)
Definition invalid_op (args : applyValueArgs) (r : nat) (txnOp : RecordedTxnOp) (err : error) : E Res :=
  in_rw (SetFlags r [UnavailValueFlag]) ;;
  updateNodeState r ValueState_INVALID ;;
  in_rw (SetFlags r [ErrorFlag (Some err) false]) ;;
  e ← own_error args r err;
  mret ([opset_noop true (opset_failed ValueState_INVALID err txnOp)], e).

Definition validDerivedKV (kv : kvForTxn) : E bool :=
  n ← xGetNode (kv_key kv);
  mret (match kv_value kv, n with
    | None, _ => false
    | Some _, Some n => isNodeDerived n
    | Some _, None => true
    end).

Definition mk_derived (args : applyValueArgs) (key : string) (value : option Value) : kvForTxn :=
  MkKvForTxn key value None (kv_origin (a_kv args)) (kv_isRevert (a_kv args)).

(** What [determineDepUpdateOperation] sets. *)
Definition determineDepUpdateOperation (n : node) : E TxnOperation :=
  ready ← in_graph (fun g => isNodeReady g n);
  mret (if negb (isNodeAvailable (Some n)) then
          if (ready : bool) then TxnOperation_CREATE else TxnOperation_UNDEFINED
        else if (ready : bool) then TxnOperation_UNDEFINED else TxnOperation_DELETE).

Section apply.
(** The recursive call of [applyValue]. *)
Context (rec : applyValueArgs -> E ValueRes).

(** [executed = append(executed, ops...)], and the last error wins. *)
Definition collect (acc : Res) (ops : Ops) (err : option error) : Res :=
  (acc.1 ++ ops, match err with Some e => Some e | None => acc.2 end).

Definition applyDerived (derivedVals : list kvForTxn) (args : applyValueArgs) (check : bool) : E Res :=
  foldM (fun acc derived =>
    valid ← (if check then validDerivedKV derived else mret true);
    if (valid : bool) then
      r ← rec (derived_args derived args);
      mret (collect acc (vr_res r).1 (vr_res r).2)
    else mret acc)
    (sort_by String.compare kv_key derivedVals) ([], None).

(** The nodes that depend on the given one, sorted by key. *)
Definition dep_nodes (r : nat) : E (list nat) :=
  srcs ← in_rw (GetSources r DependencyRelation);
  refs ← mapM (fun ref => in_rw (the_node ref)) (concat (map rt_Nodes srcs));
  keyed ← mapM (fun ref => n ← rnode ref; mret (n_key n, ref)) refs;
  mret (map snd (sort_by String.compare fst keyed)).

Definition dep_update (args : applyValueArgs) (forUnavailable : bool) (acc : Res) (dep : nat) : E Res :=
  n ← rnode dep;
  if negb (bool_decide (getNodeOrigin (Some n) = FromNB)) then mret acc
  else if negb (Bool.eqb (negb (isNodeAvailable (Some n))) forUnavailable) then mret acc
  else
    let value := match getNodeLastUpdate (Some n) with Some u => lu_value u | None => n_value n end in
    r ← rec (dep_args (MkKvForTxn (n_key n) value None (getNodeOrigin (Some n)) (kv_isRevert (a_kv args)))
               (getNodeBaseKey n) (isNodeDerived n) args);
    mret (collect acc (vr_res r).1 (vr_res r).2).

Definition runDepUpdates (r : nat) (args : applyValueArgs) (forUnavailable : bool) : E Res :=
  deps ← dep_nodes r;
  foldM (dep_update args forUnavailable) deps ([], None).

(** The deferred function of [applyDelete]. *)
Definition delete_return (r : nat) (prevState : ValueState) (txnOp : RecordedTxnOp) (args : applyValueArgs)
    (pending recreate : bool) (executed : Ops) (err inheritedErr : option error) (retriableErr : bool) :
    E Res :=
  match inheritedErr, err with
  | Some _, _ =>
      (* revert back to available, a derived value failed instead *)
      in_rw (DelFlags r [UnavailValueFlagIndex]) ;;
      updateNodeState r prevState ;;
      mret (executed, err)
  | None, None =>
      in_rw (DelFlags r [ErrorFlagIndex]) ;;
      let newState := if pending then ValueState_PENDING else ValueState_REMOVED in
      (if negb pending && (a_isDerived args && negb recreate) then xDeleteNode (kv_key (a_kv args))
       else updateNodeState r newState) ;;
      mret (executed ++ [opset_newState newState txnOp], None)
  | None, Some e =>
      p ← failed_op args r txnOp e retriableErr;
      mret (executed ++ [p.1], p.2)
  end.

(** The call of the descriptor: the error, and whether it is retriable. *)
Definition execute_delete (r : nat) (args : applyValueArgs) : E (option error * bool) :=
  n ← rnode r;
  descriptor ← descriptor_for (n_key n);
  let handler := newDescriptorHandler descriptor in
  match descriptor with
  | Some d =>
      if a_dryRun args then mret (None, false)
      else
        err ← (if decide (kv_origin (a_kv args) <> FromSB)
               then in_world (delete_ handler (n_key n) (n_value n) (n_metadata n)) else mret None);
        match err with
        | Some e => x ← get; mret (Some e, isRetriableFailure (x_nonRetryable x) handler e)
        | None =>
            whenM (canNodeHaveMetadata n && d_WithMetadata d) (in_rw (SetMetadata r None)) ;;
            mret (None, false)
        end
  | None => mret (None, false)
  end.

Definition applyDelete (r : nat) (txnOp : RecordedTxnOp) (args : applyValueArgs) (pending recreate : bool) :
    E Res :=
  n ← rnode r;
  match n_value n with
  | None => xDeleteNode (kv_key (a_kv args)) ;; mret ([], None)
  | Some _ =>
      let prevState := getNodeState (Some n) in
      let return_ := delete_return r prevState in
      if negb (isNodeAvailable (Some n)) then
        return_ (opset_noop true txnOp) args pending recreate [] None None false
      else
        in_rw (SetFlags r [UnavailValueFlag]) ;;
        whenM (negb pending) (updateNodeState r ValueState_REMOVED) ;;
        (* remove derived values *)
        der ← (if a_isDerived args then mret ([], None)
               else
                 n ← rnode r;
                 derived ← in_graph (fun g => getDerivedNodes g n);
                 applyDerived (map (fun d => mk_derived args (n_key d) None) derived) args false);
        match der with
        | (executed, Some e) => return_ txnOp args pending recreate executed (Some e) (Some e) false
        | (executed, None) =>
            (* update values that depend on this kv-pair *)
            dep ← runDepUpdates r args false;
            let executed := executed ++ dep.1 in
            match dep.2 with
            | Some e => return_ txnOp args pending recreate executed (Some e) (Some e) false
            | None =>
                x ← execute_delete r args;
                return_ txnOp args pending recreate executed x.1 None x.2
            end
        end
  end.

Definition kv_keys (l : list KeyValuePair) : KeySet :=
  fold_left (fun acc kv => (ks_Add acc (kvp_Key kv)).1) l (NewSliceBasedKeySet []).

Definition applyNewRelations (r : nat) (handler : descriptorHandler) (prevValue : option Value)
    (updateDeps : bool) (args : applyValueArgs) : E (list KeyValuePair * Res) :=
  if a_isDerived args && negb updateDeps then mret ([], ([], None))
  else
    n ← rnode r;
    let prevDerivedKeys := match prevValue with
      | Some _ => if a_isDerived args then kv_keys [] else kv_keys (derivedValues handler (n_key n) prevValue)
      | None => kv_keys [] end in
    let derivedVals := if a_isDerived args then [] else derivedValues handler (n_key n) (n_value n) in
    let newDerivedKeys := kv_keys derivedVals in
    let updateDerived := negb (ks_Equals prevDerivedKeys newDerivedKeys) in
    whenM (updateDeps || updateDerived)
      (in_rw (SetTargets r (constructTargets (dependencies handler (n_key n) (n_value n)) derivedVals))) ;;
    let obsolete := ks_Iterate (ks_Subtract prevDerivedKeys newDerivedKeys).1 in
    if updateDerived && negb (length obsolete =? 0) then
      res ← applyDerived (map (fun key => mk_derived args key None) obsolete) args false;
      mret (derivedVals, res)
    else mret (derivedVals, ([], None)).

Definition derived_kvs (args : applyValueArgs) (derives : list KeyValuePair) : list kvForTxn :=
  map (fun kv => mk_derived args (kvp_Key kv) (kvp_Value kv)) derives.

Definition applied_state (args : applyValueArgs) : ValueState :=
  if decide (kv_origin (a_kv args) = FromSB) then ValueState_OBTAINED else ValueState_CONFIGURED.

(** The call of [Create]: [Some] error, or the metadata is added to the map. *)
Definition execute_create (r : nat) (descriptor : option KVDescriptor) (args : applyValueArgs) :
    E (option (error * bool)) :=
  match descriptor with
  | Some d =>
      if a_dryRun args then mret None
      else
        n ← rnode r;
        let handler := newDescriptorHandler descriptor in
        res ← (if decide (kv_origin (a_kv args) <> FromSB)
               then in_world (create handler (n_key n) (n_value n))
               else mret (kv_metadata (a_kv args), None));
        match res with
        | (_, Some e) =>
            in_rw (SetFlags r [UnavailValueFlag]) ;;
            x ← get; mret (Some (e, isRetriableFailure (x_nonRetryable x) handler e))
        | (metadata, None) =>
            n ← rnode r;
            whenM (canNodeHaveMetadata n && d_WithMetadata d)
              (in_rw (SetMetadataMap r (d_Name d)) ;; in_rw (SetMetadata r metadata)) ;;
            mret None
        end
  | None => mret None
  end.

(** Everything after a successful [Create]: dependent and derived values. *)
Definition create_finish (r : nat) (txnOp : RecordedTxnOp) (args : applyValueArgs) (executed : Ops)
    (derives : list KeyValuePair) : E Res :=
  in_rw (DelFlags r [ErrorFlagIndex; UnavailValueFlagIndex]) ;;
  updateNodeState r (applied_state args) ;;
  let executed := executed ++ [opset_newState (applied_state args) txnOp] in
  dep ← runDepUpdates r args true;
  let executed := executed ++ dep.1 in
  match dep.2 with
  | Some e => mret (executed, Some e)
  | None =>
      if a_isDerived args then mret (executed, None)
      else
        der ← applyDerived (derived_kvs args derives) args true;
        mret (executed ++ der.1, der.2)
  end.

Definition create_known (r : nat) (txnOp : RecordedTxnOp) (args : applyValueArgs)
    (descriptor : option KVDescriptor) : E Res :=
  let handler := newDescriptorHandler descriptor in
  rel ← applyNewRelations r handler None true args;
  let '(derives, (updateExecs, inheritedErr)) := rel in
  match inheritedErr with
  | Some e => mret (updateExecs, Some e)
  | None =>
      n ← rnode r;
      ready ← in_graph (fun g => isNodeReady g n);
      if negb ready then
        in_rw (SetFlags r [UnavailValueFlag]) ;;
        in_rw (DelFlags r [ErrorFlagIndex]) ;;
        updateNodeState r ValueState_PENDING ;;
        mret ([opset_noop true (opset_newState ValueState_PENDING txnOp)], None)
      else
        failure ← execute_create r descriptor args;
        match failure with
        | Some (e, retriableErr) => p ← failed_op args r txnOp e retriableErr; mret ([p.1], p.2)
        | None => create_finish r txnOp args updateExecs derives
        end
  end.

Definition applyCreate (r : nat) (txnOp : RecordedTxnOp) (args : applyValueArgs) : E Res :=
  let kv := a_kv args in
  in_rw (SetValue r (kv_value kv)) ;;
  descriptor ← descriptor_for (kv_key kv);
  let handler := newDescriptorHandler descriptor in
  match descriptor with
  | Some d =>
      in_rw (SetFlags r [DescriptorFlag (d_Name d)]) ;; in_rw (SetLabel r (keyLabel handler (kv_key kv)))
  | None => skip
  end ;;
  n ← rnode r;
  if bool_decide (kv_origin kv = FromNB) && negb (a_isDerived args) && bool_decide (descriptor = None) then
    (* unimplemented value *)
    if decide (getNodeState (Some n) = ValueState_UNIMPLEMENTED) then mret ([], None)
    else
      in_rw (SetFlags r [UnavailValueFlag]) ;;
      in_rw (DelFlags r [ErrorFlagIndex]) ;;
      updateNodeState r ValueState_UNIMPLEMENTED ;;
      mret ([opset_newState ValueState_UNIMPLEMENTED (opset_noop true txnOp)], None)
  else
    whenM (a_isDerived args) (in_rw (SetFlags r [DerivedFlag (a_baseKey args)])) ;;
    match (if negb (a_dryRun args) && bool_decide (kv_origin kv = FromNB)
           then validate handler (n_key n) (n_value n) else None) with
    | Some e => invalid_op args r txnOp e
    | None => create_known r txnOp args descriptor
    end.

(** The call of [Update]. *)
Definition execute_update (r : nat) (descriptor : option KVDescriptor) (prevValue : option Value)
    (args : applyValueArgs) : E (option (error * bool)) :=
  match descriptor with
  | Some d =>
      n ← rnode r;
      let handler := newDescriptorHandler descriptor in
      res ← (if decide (kv_origin (a_kv args) <> FromSB)
             then in_world (update handler (n_key n) prevValue (n_value n) (n_metadata n))
             else mret (kv_metadata (a_kv args), None));
      match res with
      | (_, Some e) => x ← get; mret (Some (e, isRetriableFailure (x_nonRetryable x) handler e))
      | (newMetadata, None) =>
          n ← rnode r;
          whenM (canNodeHaveMetadata n && d_WithMetadata d) (in_rw (SetMetadata r newMetadata)) ;;
          mret None
      end
  | None => mret None
  end.

(** The operation is recorded when the value was modified or its state changed,
    unless it only confirms that a discovered value is in sync. *)
Definition record_update (equivalent : bool) (txnOp : RecordedTxnOp) : Ops :=
  if negb equivalent || negb (st_eqb (op_PrevState txnOp) (op_NewState txnOp)) then
    if equivalent && st_eqb (op_PrevState txnOp) ValueState_DISCOVERED
         && st_eqb (op_NewState txnOp) ValueState_CONFIGURED
    then [] else [opset_noop equivalent txnOp]
  else [].

Definition update_finish (r : nat) (txnOp : RecordedTxnOp) (args : applyValueArgs) (equivalent : bool)
    (executed : Ops) (derives : list KeyValuePair) : E Res :=
  in_rw (DelFlags r [ErrorFlagIndex; UnavailValueFlagIndex]) ;;
  updateNodeState r (applied_state args) ;;
  let executed := executed ++ record_update equivalent (opset_newState (applied_state args) txnOp) in
  if a_isDerived args then mret (executed, None)
  else
    der ← applyDerived (derived_kvs args derives) args true;
    mret (executed ++ der.1, der.2).

(** Re-creation: the value is deleted and created again. *)
Definition update_recreate (r : nat) (args : applyValueArgs) : E Res :=
  n ← rnode r;
  derivedKeys ← in_graph (fun g => getDerivedKeys g n);
  let args := aset_recreating (Some (ks_Add derivedKeys (n_key n)).1) args in
  delOp ← preRecordTxnOp args n;
  del ← applyDelete r (opset_newValue None (opset_operation TxnOperation_DELETE delOp)) args false true;
  match del.2 with
  | Some e => mret (del.1, Some e)
  | None =>
      r ← xSetNode (kv_key (a_kv args));
      n ← rnode r;
      createOp ← preRecordTxnOp args n;
      cr ← applyCreate r (opset_prevValue None (opset_operation TxnOperation_CREATE createOp)) args;
      mret (del.1 ++ cr.1, cr.2)
  end.

Definition update_in_place (r : nat) (txnOp : RecordedTxnOp) (args : applyValueArgs)
    (descriptor : option KVDescriptor) (equivalent : bool) : E Res :=
  let kv := a_kv args in
  n ← rnode r;
  let prevValue := n_value n in
  in_rw (SetValue r (kv_value kv)) ;;
  rel ← applyNewRelations r (newDescriptorHandler descriptor) prevValue (negb equivalent) args;
  let '(derives, (executed, inheritedErr)) := rel in
  match inheritedErr with
  | Some e => in_rw (SetValue r prevValue) ;; mret (executed, Some e)
  | None =>
      n ← rnode r;
      ready ← (if equivalent then mret true else in_graph (fun g => isNodeReady g n));
      if negb ready then
        (* delete the original value and set the new one as pending *)
        in_rw (SetValue r prevValue) ;;
        del ← applyDelete r txnOp args true false;
        in_rw (SetValue r (kv_value kv)) ;;
        mret (executed ++ del.1, del.2)
      else
        failure ← (if negb (a_dryRun args) && negb equivalent
                   then execute_update r descriptor prevValue args else mret None);
        match failure with
        | Some (e, retriableErr) =>
            p ← failed_op args r txnOp e retriableErr; mret (executed ++ [p.1], p.2)
        | None => update_finish r txnOp args equivalent executed derives
        end
  end.

Definition applyUpdate (r : nat) (txnOp : RecordedTxnOp) (args : applyValueArgs) : E Res :=
  let kv := a_kv args in
  descriptor ← descriptor_for (kv_key kv);
  let handler := newDescriptorHandler descriptor in
  n ← rnode r;
  match (if negb (a_dryRun args) && bool_decide (kv_origin kv = FromNB)
         then validate handler (n_key n) (kv_value kv) else None) with
  | Some e => in_rw (SetValue r (kv_value kv)) ;; invalid_op args r txnOp e
  | None =>
      let equivalent := equivalentValues handler (n_key n) (n_value n) (kv_value kv) in
      let recreate := negb equivalent && negb (bool_decide (kv_origin kv = FromSB))
        && updateWithRecreate handler (kv_key kv) (n_value n) (kv_value kv) (n_metadata n) in
      if recreate then update_recreate r args
      else update_in_place r txnOp args descriptor equivalent
  end.

(** *** [applyValue] *)

(** What is remembered of a node to detect and notify about changes. *)
Record valueView := MkView {
  vw_state : ValueState;
  vw_op : TxnOperation;
  vw_err : string;
  vw_details : list string
}.

Definition value_view (n : option node) : E valueView :=
  details ← in_graph (fun g => getValueDetails g n);
  mret (MkView (getNodeState n) (getNodeLastOperation n) (getNodeErrorString n) details).

(** The details are only looked at when the rest is the same. *)
Definition view_changed (prev : valueView) (nodeR : option node) : E bool :=
  if negb (bool_decide (vw_state prev = getNodeState nodeR))
     || negb (bool_decide (vw_op prev = getNodeLastOperation nodeR))
     || negb (String.eqb (vw_err prev) (getNodeErrorString nodeR))
  then mret true
  else
    details ← in_graph (fun g => getValueDetails g nodeR);
    mret (negb (equalValueDetails (vw_details prev) details)).

(** The operation for a value that is not a dependency update. *)
Definition value_operation (kv : kvForTxn) (n : node) : TxnOperation :=
  match kv_value kv with
  | None => TxnOperation_DELETE
  | Some _ =>
      match n_value n with
      | None => TxnOperation_CREATE
      | Some _ => if isNodeAvailable (Some n) then TxnOperation_UPDATE else TxnOperation_CREATE
      end
  end.

(** The last-update flag: retry arguments come from the transaction, from the
    last update of the value or from the one of the parent. *)
Definition new_last_update (op : TxnOperation) (args : applyValueArgs) (prevUpdate : option LastUpdate) :
    E LastUpdate :=
  let txn := a_txn args in
  let mk en ra := MkLastUpdate (txn_seqNum txn) op (kv_value (a_kv args)) (kv_isRevert (a_kv args)) en ra in
  if isNBTxn txn then nb ← the_nb txn; mret (mk (nb_retryEnabled nb) (nb_retryArgs nb))
  else match prevUpdate with
  | Some u => mret (mk (lu_retryEnabled u) (lu_retryArgs u))
  | None =>
      if a_isDerived args then
        parent ← xGetNode (a_baseKey args);
        mret (match getNodeLastUpdate parent with
          | Some u => mk (lu_retryEnabled u) (lu_retryArgs u)
          | None => mk false None
          end)
      else mret (mk false None)
  end.

(** The value is already broken by this transaction. *)
Definition already_broken (args : applyValueArgs) (prevState : ValueState) (prevUpdate : option LastUpdate) :
    bool :=
  (st_eqb prevState ValueState_FAILED || st_eqb prevState ValueState_RETRYING
   || st_eqb prevState ValueState_UNIMPLEMENTED)
  && negb (kv_isRevert (a_kv args))
  && match prevUpdate with Some u => (lu_txnSeqNum u =? txn_seqNum (a_txn args))%N | None => false end.

Definition run_operation (r : nat) (txnOp : RecordedTxnOp) (args : applyValueArgs) : E Res :=
  match op_Operation txnOp with
  | TxnOperation_DELETE => applyDelete r txnOp args (a_isDepUpdate args) false
  | TxnOperation_CREATE => applyCreate r txnOp args
  | TxnOperation_UPDATE => applyUpdate r txnOp args
  | _ => mret ([], None)
  end.

(** Detect value state changes. *)
Definition detect_changes (args : applyValueArgs) (prevUpdate : option LastUpdate)
    (prev : valueView) : E unit :=
  if a_dryRun args then skip
  else
    nodeR ← xGetNode (kv_key (a_kv args));
    changed ← (match prevUpdate with
      | None => mret true
      | Some _ => view_changed prev nodeR
      end);
    whenM changed (add_updated (a_baseKey args)).

Definition apply_operation (r : nat) (txnOp : RecordedTxnOp) (args : applyValueArgs)
    (prev : valueView) (prevValue : KeyValuePair) : E ValueRes :=
  n ← rnode r;
  let prevUpdate := getNodeLastUpdate (Some n) in
  u ← new_last_update (op_Operation txnOp) args prevUpdate;
  in_rw (SetFlags r [LastUpdateFlag u]) ;;
  if already_broken args (vw_state prev) prevUpdate then
    n ← rnode r; mret ([], prevValue, (getNodeError (Some n)).2)
  else
    res ← run_operation r txnOp args;
    detect_changes args prevUpdate prev ;;
    mret (res.1, prevValue, res.2).

Definition applyValue_body (args : applyValueArgs) : E ValueRes :=
  let kv := a_kv args in
  r ← xSetNode (kv_key kv);
  n ← rnode r;
  let prevValue := MkKeyValuePair (n_key n) (n_value n) in
  prev ← value_view (Some n);
  txnOp ← preRecordTxnOp args n;
  if a_isDepUpdate args then
    op ← determineDepUpdateOperation n;
    if decide (op = TxnOperation_UNDEFINED) then
      whenM (bool_decide (n_value n = None)) (xDeleteNode (kv_key kv)) ;;
      mret ([], prevValue, None)
    else apply_operation r (opset_operation op txnOp) args prev prevValue
  else apply_operation r (opset_operation (value_operation kv n) txnOp) args prev prevValue.
End apply.

(** The key of the value is added to the branch for the nested calls; a key that
    is on the branch already closes a cycle. *)
Fixpoint applyValue (fuel : nat) (args : applyValueArgs) : E ValueRes :=
  match fuel with
  | O => no_fuel
  | S fuel =>
      if ks_Has (a_branch args) (kv_key (a_kv args)) then mret ([], MkKeyValuePair "" None, None)
      else applyValue_body (applyValue fuel)
             (aset_branch (ks_Add (a_branch args) (kv_key (a_kv args))).1 args)
  end.

(** ** [executeTransaction] *)

Definition txn_args (txn : transaction) (kv : kvForTxn) (applied : KeySet) (isRetry dryRun : bool) :
    applyValueArgs :=
  MkArgs txn kv (kv_key kv) applied None isRetry dryRun false false (NewMapBasedKeySet []).

(** The values, up to the first failure when the transaction is to be reverted:
    the operations, the previous values (the last first), whether to revert, and
    the set of applied keys. *)
Fixpoint exec_values (fuel : nat) (txn : transaction) (dryRun isRetry : bool) (values : list kvForTxn)
    (applied : KeySet) (executed : Ops) (prevValues : list KeyValuePair) :
    E (Ops * list KeyValuePair * bool * KeySet) :=
  match values with
  | [] => mret (executed, prevValues, false, applied)
  | kv :: values =>
      let applied := (ks_Add applied (kv_key kv)).1 in
      res ← applyValue fuel (txn_args txn kv applied isRetry dryRun);
      let '(ops, prevValue, err) := res in
      let executed := executed ++ ops in
      let prevValues := prevValue :: prevValues in
      revert ← (match err with
        | Some _ => if isNBTxn txn then nb ← the_nb txn; mret (nb_revertOnFailure nb) else mret false
        | None => mret false
        end);
      if (revert : bool) then
        refreshGraph (Some (NewSingletonKeySet (kv_key kv))) None true ;;
        mret (executed, prevValues, true, applied)
      else exec_values fuel txn dryRun isRetry values applied executed prevValues
  end.

Definition revert_value (fuel : nat) (txn : transaction) (dryRun : bool) (applied : KeySet) (executed : Ops)
    (kvPair : KeyValuePair) : E Ops :=
  res ← applyValue fuel
    (txn_args txn (MkKvForTxn (kvp_Key kvPair) (kvp_Value kvPair) None FromNB true) applied false dryRun);
  mret (executed ++ res.1.1).

(** The new handle is local to [executeTransaction]: the caller is left with its
    own one, which in place refers to the same graph, and otherwise to the same
    overlay of the edge lookup. *)
Definition xCaller (caller : graphRW) : E unit :=
  modify (fun x => xset_rw (rwset_graph (if rw_wInPlace caller then cur_graph x
    else gset_edgeLookup (g_edgeLookup (cur_graph x)) (rw_graph caller)) caller) x).

Definition executeTransaction (fuel : nat) (txn : transaction) (dryRun : bool) : E Ops :=
  let isRetry := bool_decide (txn_txnType txn = RetryFailedOps)
    || bool_decide (txn_txnType txn = RetryUnimplOps) in
  res ← exec_values fuel txn dryRun isRetry (txn_values txn) (NewMapBasedKeySet []) [] [];
  let '(executed, prevValues, revert, applied) := res in
  executed ← (if (revert : bool) then
      xRelease ;;
      caller ← gets x_rw;
      xWrite (negb dryRun) true ;;
      executed ← foldM (revert_value fuel txn dryRun applied) prevValues executed;
      xCaller caller ;;
      mret executed
    else mret executed);
  mret (compressTxnOps executed).
End txn_exec.
