(* ===== verification/Scheduler.v ===== *)
(** * The state of the scheduler

    The scheduler record of plugins/kvscheduler/plugin_scheduler.go, the history
    of transactions (txn_record.go) and the ordering of values (txn_order.go). *)
From S2P Require Import Prelude KeySet Monad Api Registry Flags EdgeLookup Graph GraphRW.
From S2P Require Import NodeUtils Descriptor TxnOps ExecState Refresh TxnExec.

Section scheduler.
Context {X : Ext} {MO : MapOrder}.

Record Config := MkConfig {
  cfg_RecordTransactionHistory : bool;
  cfg_TransactionHistoryAgeLimit : Z;      (* in minutes *)
  cfg_PermanentlyRecordedInitPeriod : Z;   (* in minutes *)
  cfg_EnableTxnSimulation : bool
}.

Definition defaultConfig : Config := MkConfig true (24 * 60) 60 false.

Definition txnQueueCapacity : nat := 200.

(** What the scheduler asks the registry of models (package models). *)
Record Models := MkModels {
  mod_isDynamic : Value -> bool;
  (** the model of a dynamic message: an error, or whether it has a Go type *)
  mod_GetModelFor : Value -> error + bool;
  mod_Convert : Value -> error + Value;
  mod_GetKey : Value -> error + string;
  (** the key prefix of the model of a key *)
  mod_KeyPrefixFor : string -> option string
}.

(** The fields of [Scheduler].  Channels are lists: the queued transactions, the
    results of blocking transactions, the scheduled retries and the value states
    offered to the watchers. *)
Record sched := MkSched {
  s_config : Config;
  s_models : Models;
  s_verifyMode : bool;
  s_graph : kvgraph;
  s_registry : registry;
  s_world : World;
  s_updatedStates : KeySet;
  s_nonRetryable : list error;
  s_keyPrefixes : gset string;
  s_subs : gset string;
  s_txnQueue : list transaction;
  s_txnSeqNumber : N;
  s_resyncCount : N;
  s_watchers : list (option KeySelector);
  s_txnHistory : list RecordedTxn;
  s_startTime : Z;
  s_stats : TxnStats;
  s_results : list (N * option error);
  s_retries : list retryTxn;
  s_impls : list implTxn;
  s_notified : list (nat * BaseValueStatus);
  s_closed : bool
}.

Definition sset_exec (x : ExecSt) (s : sched) := MkSched (s_config s) (s_models s) (s_verifyMode s)
  (x_graph x) (x_registry x) (x_world x) (x_updatedStates x) (s_nonRetryable s) (s_keyPrefixes s)
  (s_subs s) (s_txnQueue s) (s_txnSeqNumber s) (s_resyncCount s) (s_watchers s) (s_txnHistory s)
  (s_startTime s) (s_stats s) (s_results s) (s_retries s) (s_impls s) (s_notified s) (s_closed s).
Definition sset_graph (k : kvgraph) (s : sched) := MkSched (s_config s) (s_models s) (s_verifyMode s)
  k (s_registry s) (s_world s) (s_updatedStates s) (s_nonRetryable s) (s_keyPrefixes s)
  (s_subs s) (s_txnQueue s) (s_txnSeqNumber s) (s_resyncCount s) (s_watchers s) (s_txnHistory s)
  (s_startTime s) (s_stats s) (s_results s) (s_retries s) (s_impls s) (s_notified s) (s_closed s).
Definition sset_registry (r : registry) (s : sched) := MkSched (s_config s) (s_models s) (s_verifyMode s)
  (s_graph s) r (s_world s) (s_updatedStates s) (s_nonRetryable s) (s_keyPrefixes s)
  (s_subs s) (s_txnQueue s) (s_txnSeqNumber s) (s_resyncCount s) (s_watchers s) (s_txnHistory s)
  (s_startTime s) (s_stats s) (s_results s) (s_retries s) (s_impls s) (s_notified s) (s_closed s).
Definition sset_world (w : World) (s : sched) := MkSched (s_config s) (s_models s) (s_verifyMode s)
  (s_graph s) (s_registry s) w (s_updatedStates s) (s_nonRetryable s) (s_keyPrefixes s)
  (s_subs s) (s_txnQueue s) (s_txnSeqNumber s) (s_resyncCount s) (s_watchers s) (s_txnHistory s)
  (s_startTime s) (s_stats s) (s_results s) (s_retries s) (s_impls s) (s_notified s) (s_closed s).
Definition sset_updatedStates (u : KeySet) (s : sched) := MkSched (s_config s) (s_models s) (s_verifyMode s)
  (s_graph s) (s_registry s) (s_world s) u (s_nonRetryable s) (s_keyPrefixes s)
  (s_subs s) (s_txnQueue s) (s_txnSeqNumber s) (s_resyncCount s) (s_watchers s) (s_txnHistory s)
  (s_startTime s) (s_stats s) (s_results s) (s_retries s) (s_impls s) (s_notified s) (s_closed s).
Definition sset_keyPrefixes (kp : gset string) (s : sched) := MkSched (s_config s) (s_models s)
  (s_verifyMode s) (s_graph s) (s_registry s) (s_world s) (s_updatedStates s) (s_nonRetryable s) kp
  (s_subs s) (s_txnQueue s) (s_txnSeqNumber s) (s_resyncCount s) (s_watchers s) (s_txnHistory s)
  (s_startTime s) (s_stats s) (s_results s) (s_retries s) (s_impls s) (s_notified s) (s_closed s).
Definition sset_subs (sb : gset string) (s : sched) := MkSched (s_config s) (s_models s)
  (s_verifyMode s) (s_graph s) (s_registry s) (s_world s) (s_updatedStates s) (s_nonRetryable s)
  (s_keyPrefixes s) sb (s_txnQueue s) (s_txnSeqNumber s) (s_resyncCount s) (s_watchers s) (s_txnHistory s)
  (s_startTime s) (s_stats s) (s_results s) (s_retries s) (s_impls s) (s_notified s) (s_closed s).
Definition sset_txnQueue (q : list transaction) (s : sched) := MkSched (s_config s) (s_models s)
  (s_verifyMode s) (s_graph s) (s_registry s) (s_world s) (s_updatedStates s) (s_nonRetryable s)
  (s_keyPrefixes s) (s_subs s) q (s_txnSeqNumber s) (s_resyncCount s) (s_watchers s) (s_txnHistory s)
  (s_startTime s) (s_stats s) (s_results s) (s_retries s) (s_impls s) (s_notified s) (s_closed s).
Definition sset_counters (seq resync : N) (s : sched) := MkSched (s_config s) (s_models s)
  (s_verifyMode s) (s_graph s) (s_registry s) (s_world s) (s_updatedStates s) (s_nonRetryable s)
  (s_keyPrefixes s) (s_subs s) (s_txnQueue s) seq resync (s_watchers s) (s_txnHistory s)
  (s_startTime s) (s_stats s) (s_results s) (s_retries s) (s_impls s) (s_notified s) (s_closed s).
Definition sset_watchers (w : list (option KeySelector)) (s : sched) := MkSched (s_config s) (s_models s)
  (s_verifyMode s) (s_graph s) (s_registry s) (s_world s) (s_updatedStates s) (s_nonRetryable s)
  (s_keyPrefixes s) (s_subs s) (s_txnQueue s) (s_txnSeqNumber s) (s_resyncCount s) w (s_txnHistory s)
  (s_startTime s) (s_stats s) (s_results s) (s_retries s) (s_impls s) (s_notified s) (s_closed s).
Definition sset_txnHistory (h : list RecordedTxn) (s : sched) := MkSched (s_config s) (s_models s)
  (s_verifyMode s) (s_graph s) (s_registry s) (s_world s) (s_updatedStates s) (s_nonRetryable s)
  (s_keyPrefixes s) (s_subs s) (s_txnQueue s) (s_txnSeqNumber s) (s_resyncCount s) (s_watchers s) h
  (s_startTime s) (s_stats s) (s_results s) (s_retries s) (s_impls s) (s_notified s) (s_closed s).
Definition sset_stats (st : TxnStats) (s : sched) := MkSched (s_config s) (s_models s)
  (s_verifyMode s) (s_graph s) (s_registry s) (s_world s) (s_updatedStates s) (s_nonRetryable s)
  (s_keyPrefixes s) (s_subs s) (s_txnQueue s) (s_txnSeqNumber s) (s_resyncCount s) (s_watchers s)
  (s_txnHistory s) (s_startTime s) st (s_results s) (s_retries s) (s_impls s) (s_notified s) (s_closed s).
Definition sset_outputs results retries impls notified (s : sched) := MkSched (s_config s) (s_models s)
  (s_verifyMode s) (s_graph s) (s_registry s) (s_world s) (s_updatedStates s) (s_nonRetryable s)
  (s_keyPrefixes s) (s_subs s) (s_txnQueue s) (s_txnSeqNumber s) (s_resyncCount s) (s_watchers s)
  (s_txnHistory s) (s_startTime s) (s_stats s) results retries impls notified (s_closed s).

Definition Sch := M sched.

Definition s_now : Sch Z := zoom s_graph sset_graph time_now.
(** [s.graph.Read()]. *)
Definition s_read : Sch graphR := gets (fun s => kg_graph (s_graph s)).
Definition s_descriptor_for (key : string) : Sch (option KVDescriptor) :=
  zoom s_registry sset_registry (GetDescriptorForKey key).

(** [graphW := s.graph.Write(inPlace, record)], work, and the release at the end
    of [m]. *)
Definition with_write {A} (inPlace record : bool) (m : E A) : Sch A := fun s =>
  graphW ← Write (s_graph s) inPlace record;
  r ← m (MkExec (s_graph s) graphW (s_registry s) (s_world s) (s_updatedStates s) (s_nonRetryable s));
  Ok (r.1, sset_exec r.2 s).

(** ** txn_order.go *)

Inductive valueClass := ClassDelete | ClassRecreate | ClassCreate | ClassUpdate.

#[export] Instance valueClass_eq_dec : EqDecision valueClass.
Proof. solve_decision. Defined.

Definition value_class (g : graphR) (descriptor : option KVDescriptor) (kv : kvForTxn) : valueClass :=
  match kv_value kv, lookup_node g (kv_key kv) with
  | None, _ => ClassDelete
  | Some _, None => ClassCreate
  | Some _, Some n =>
      match GetFlag n UnavailValueFlagIndex with
      | Some _ => ClassCreate
      | None =>
          if updateWithRecreate (newDescriptorHandler descriptor) (kv_key kv) (n_value n) (kv_value kv)
               (n_metadata n)
          then ClassRecreate else ClassUpdate
      end
  end.

Definition of_class (c : valueClass) (l : list (kvForTxn * valueClass)) : list kvForTxn :=
  map fst (filter (fun p => p.2 = c) l).

Definition orderValuesByOp (values : list kvForTxn) : Sch (list kvForTxn) :=
  g ← s_read;
  classified ← mapM (fun kv =>
      d ← s_descriptor_for (kv_key kv); mret (kv, value_class g d kv))
    (sort_by String.compare kv_key values);
  mret (of_class ClassDelete classified ++ of_class ClassRecreate classified
        ++ of_class ClassCreate classified ++ of_class ClassUpdate classified).

(** ** The history of transactions *)

(** The records that started before [since], and those after [until]. *)
Definition count_before (since : Z) (txns : list RecordedTxn) : nat :=
  length (take_while (fun t => rt_Start t <? since)%Z txns).
Definition count_after (until : Z) (txns : list RecordedTxn) : nat :=
  length (take_while (fun t => until <? rt_Start t)%Z (rev txns)).

(** A zero timestamp is [None]. *)
Definition GetTransactionHistory (since until : option Z) (txns : list RecordedTxn) :
    outcome (list RecordedTxn) :=
  if match since, until with Some f, Some u => (u <? f)%Z | _, _ => false end then Ok []
  else
    let first := match since with Some f => count_before f txns | None => 0 end in
    let firstAfter := length txns - match until with Some u => count_after u txns | None => 0 end in
    if first <=? firstAfter then Ok (drop first (take firstAfter txns))
    else Panic "slice bounds out of range".

Definition GetRecordedTransaction (seqNum : N) (txns : list RecordedTxn) : option RecordedTxn :=
  snd <$> list_find (fun t => rt_SeqNum t = seqNum) txns.

(** One round of [transactionHistoryTrimming]. *)
Definition trim_history (now start initPeriod ageLimit : Z) (txns : list RecordedTxn) : list RecordedTxn :=
  let i := length (take_while (fun t => negb (initPeriod <? rt_Start t - start)%Z) txns) in
  let j := i + length (take_while (fun t => negb (now - rt_Stop t <=? ageLimit)%Z) (drop i txns)) in
  if i <? j then take i txns ++ drop j txns else txns.

Definition transactionHistoryTrimming : Sch unit :=
  now ← s_now;
  modify (fun s => sset_txnHistory
    (trim_history now (s_startTime s) (i64 (cfg_PermanentlyRecordedInitPeriod (s_config s) * Minute))
       (i64 (cfg_TransactionHistoryAgeLimit (s_config s) * Minute)) (s_txnHistory s)) s).

Definition preRecordTransaction (txn : transaction) (planned : Ops) (skippedSimulation : bool) :
    Sch RecordedTxn :=
  nb ← (if isNBTxn txn then nb ← the_nb txn; mret (Some nb) else mret None);
  rtx ← (if decide (txn_txnType txn = RetryFailedOps) then r ← the_retry txn; mret (Some r) else mret None);
  impl ← (if decide (txn_txnType txn = RetryUnimplOps)
          then i ← deref "nil pointer dereference" (txn_impl txn); mret (Some i) else mret None);
  let values := sort_by String.compare rkv_Key
    (map (fun kv => MkRecordedKVPair (kv_key kv) (RecordProtoMessage (kv_value kv)) (kv_origin kv))
       (txn_values txn)) in
  mret (MkRecordedTxn true (negb skippedSimulation) 0 0 (txn_seqNum txn) (txn_txnType txn)
    (match nb with Some nb => nb_resyncType nb | None => NotResync end)
    (match nb with Some nb => nb_description nb | None => "" end)
    (match rtx, impl with
     | Some r, _ => rm_txnSeqNum (rtx_meta r)
     | None, Some i => impl_txnSeqNum i
     | None, None => 0%N end)
    (match rtx with Some r => rm_attempt (rtx_meta r) | None => 0%Z end)
    (match nb with
     | Some nb => if decide (nb_resyncType nb = DownstreamResync) then [] else values
     | None => values end)
    planned []).

Definition recordTransaction (txnRecord : RecordedTxn) (executed : Ops) (start stop : Z) : Sch unit :=
  let rec_ := MkRecordedTxn false (rt_WithSimulation txnRecord) start stop (rt_SeqNum txnRecord)
    (rt_TxnType txnRecord) (rt_ResyncType txnRecord) (rt_Description txnRecord)
    (rt_RetryForTxn txnRecord) (rt_RetryAttempt txnRecord) (rt_Values txnRecord)
    (rt_Planned txnRecord) executed in
  modify (fun s => if cfg_RecordTransactionHistory (s_config s)
                   then sset_txnHistory (s_txnHistory s ++ [rec_]) s else s).
End scheduler.
