(* ===== verification/TxnProcess.v ===== *)
(** * Processing of a transaction

    [plugins/kvscheduler/txn_process.go] and txn_queue.go: pre-processing,
    ordering, simulation, execution, recording and post-processing. *)
From S2P Require Import Prelude KeySet Monad Api Registry Flags EdgeLookup Graph GraphRW.
From S2P Require Import NodeUtils Descriptor TxnOps ExecState Refresh TxnExec Scheduler.

Section txn_process.
Context {X : Ext} {MO : MapOrder}.

(** ** Pre-processing *)

Definition filterNotification (g : graphR) (key : string) : Sch bool :=
  descriptor ← s_descriptor_for key;
  match descriptor with
  | None => mret true
  | Some _ =>
      mret (match lookup_node g key with
        | Some n => bool_decide (getNodeOrigin (Some n) = FromNB)
        | None => false end)
  end.

(** Only the first value is looked at. *)
Definition preProcessNotification (txn : transaction) : Sch bool :=
  g ← s_read;
  kv ← deref "index out of range" (head (txn_values txn));
  filterNotification g (kv_key kv).

Definition nodes_of (g : graphR) (refs : list nat) : list node := omap (fun r => g_heap g !! r) refs.

(** The values of a downstream resync: what was last applied from NB. *)
Definition downstream_values : E (list kvForTxn) :=
  x ← get;
  mapM (fun n =>
      u ← deref "nil pointer dereference" (getNodeLastUpdate (Some n));
      mret (MkKvForTxn (n_key n) (lu_value u) None FromNB (lu_revert u)))
    (nodes_of (cur_graph x) (GetNodes (cur_graph x) None nbBaseValsSelectors)).

(** Values for the nodes that match the selectors and are not in NB. *)
Definition resync_extra (nbKeys : KeySet) (selectors : list FlagSelector) (mk : node -> kvForTxn) :
    E (list kvForTxn) :=
  x ← get;
  mret (map mk (filter (fun n => ks_Has nbKeys (n_key n) = false)
    (nodes_of (cur_graph x) (GetNodes (cur_graph x) None selectors)))).

Definition resync_values (nb : nbTxn) (first : bool) (values : list kvForTxn) : E (list kvForTxn) :=
  extra ← (if decide (nb_resyncType nb = DownstreamResync) then downstream_values else mret []);
  let values := values ++ extra in
  let nbKeys := fold_left (fun acc kv => (ks_Add acc (kv_key kv)).1) values (NewMapBasedKeySet []) in
  whenM (negb (bool_decide (nb_resyncType nb = UpstreamResync)))
    (refreshGraph None (Some (MkResyncData first values)) (nb_verboseRefresh nb)) ;;
  deletes ← resync_extra nbKeys nbBaseValsSelectors (fun n => MkKvForTxn (n_key n) None None FromNB false);
  let values := values ++ deletes in
  sb ← resync_extra nbKeys sbBaseValsSelectors
    (fun n => MkKvForTxn (n_key n) (n_value n) None FromSB false);
  xRelease ;;
  mret (values ++ sb).

Definition preProcessNBTransaction (txn : transaction) : Sch (bool * transaction) :=
  nb ← the_nb txn;
  if decide (nb_resyncType nb = NotResync) then mret (false, txn)
  else
    modify (fun s => sset_counters (s_txnSeqNumber s) (u64_incr (s_resyncCount s)) s) ;;
    s ← get;
    values ← with_write true false
      (resync_values nb (s_resyncCount s =? 1)%N (txn_values txn));
    mret (length values =? 0, txnset_values values txn).

(** One key of a retry: obsolete when the value was updated since the failure. *)
Definition retry_value (g : graphR) (key : string) (retryRev : N) : option kvForTxn :=
  n ← lookup_node g key;
  u ← getNodeLastUpdate (Some n);
  if (retryRev <? lu_txnSeqNum u)%N then None
  else Some (MkKvForTxn key (lu_value u) None FromNB (lu_revert u)).

Definition preProcessRetryTxn (txn : transaction) (keyRevs : gmap string N) : Sch (bool * transaction) :=
  g ← s_read;
  let values := txn_values txn ++
    omap (fun key => rev ← keyRevs !! key; retry_value g key rev) (map_order (dom keyRevs)) in
  mret (length values =? 0, txnset_values values txn).

Record preprocessed := MkPre {
  pre_skipExec : bool;
  pre_skipSimulation : bool;
  pre_record : bool;
  pre_txn : transaction
}.

Definition preProcessTransaction (txn : transaction) : Sch preprocessed :=
  s ← get;
  let txn := txnset_seqNum (s_txnSeqNumber s) txn in
  modify (fun s => sset_counters (u64_incr (s_txnSeqNumber s)) (s_resyncCount s) s) ;;
  match txn_txnType txn with
  | SBNotification =>
      skip ← preProcessNotification txn;
      mret (MkPre skip (negb (cfg_EnableTxnSimulation (s_config s))) true txn)
  | NBTransaction =>
      p ← preProcessNBTransaction txn;
      nb ← the_nb txn;
      mret (MkPre p.1 (p.1 || negb (nb_withSimulation nb))
              (negb (bool_decide (nb_resyncType nb = DownstreamResync))) p.2)
  | RetryFailedOps =>
      rtx ← the_retry txn;
      p ← preProcessRetryTxn txn (rtx_keys rtx);
      mret (MkPre p.1 p.1 true p.2)
  | RetryUnimplOps =>
      impl ← deref "nil pointer dereference" (txn_impl txn);
      p ← preProcessRetryTxn txn (impl_keys impl);
      mret (MkPre p.1 p.1 true p.2)
  end.

(** ** Post-processing *)

(** The base keys to retry, to refresh and to implement, and whether an error
    made the refresh necessary. *)
Record collected := MkCollected {
  c_toRetry : KeySet;
  c_toRefresh : KeySet;
  c_toImpl : KeySet;
  c_afterErr : bool
}.

Definition collect_op (g : graphR) (verifyMode : bool) (c : collected) (op : RecordedTxnOp) : collected :=
  match lookup_node g (op_Key op) with
  | None => c
  | Some n =>
      let state := getNodeState (Some n) in
      let base := getNodeBaseKey n in
      let add b ks := if (b : bool) then (ks_Add ks base).1 else ks in
      let unimpl := st_eqb state ValueState_UNIMPLEMENTED in
      let failed := st_eqb state ValueState_FAILED in
      let retrying := st_eqb state ValueState_RETRYING in
      MkCollected (add retrying (c_toRetry c))
        (add (unimpl || failed || retrying || verifyMode) (c_toRefresh c))
        (add unimpl (c_toImpl c)) (unimpl || failed || retrying || c_afterErr c)
  end.

Definition collect_ops (g : graphR) (verifyMode : bool) (executed : Ops) : collected :=
  fold_left (collect_op g verifyMode) executed
    (MkCollected (NewSliceBasedKeySet []) (NewSliceBasedKeySet []) (NewSliceBasedKeySet []) false).

(** The retry of one value: its metadata and the revision of the value. *)
Definition retry_meta (txn : transaction) (retryKey : string) (u : LastUpdate) : E retryTxnMeta :=
  retried ← (if decide (txn_txnType txn = RetryFailedOps) then
      rtx ← the_retry txn;
      mret (if decide (is_Some (rtx_keys rtx !! retryKey)) then Some (rtx_meta rtx) else None)
    else mret None);
  ra ← deref "nil pointer dereference" (lu_retryArgs u);
  mret (match retried with
    | Some m => MkRetryMeta (rm_txnSeqNum m) (if ExpBackoff ra then i64 (rm_delay m * 2) else Period ra)
                  (i64 (rm_attempt m + 1))
    | None => MkRetryMeta (txn_seqNum txn) (Period ra) 1
    end)%Z.

(** [retryTxns]: the transactions by their metadata. *)
Fixpoint add_retry (meta : retryTxnMeta) (key : string) (rev : N) (l : list retryTxn) : list retryTxn :=
  match l with
  | [] => [MkRetryTxn meta {[key := rev]}]
  | t :: l =>
      if decide (rtx_meta t = meta) then MkRetryTxn meta (<[key := rev]> (rtx_keys t)) :: l
      else t :: add_retry meta key rev l
  end.

Definition scheduleRetries (txn : transaction) (toRetry : KeySet) : E (list retryTxn) :=
  foldM (fun acc retryKey =>
    n ← xGetNode retryKey;
    u ← deref "nil pointer dereference" (getNodeLastUpdate n);
    meta ← retry_meta txn retryKey u;
    mret (add_retry meta retryKey (lu_txnSeqNum u) acc)) (ks_Iterate toRetry) [].

(** The unimplemented values, with the key prefix to wait for. *)
Definition scheduleUnimpl (models : Models) (txn : transaction) (toImpl : KeySet) : E (list implTxn) :=
  if decide (txn_txnType txn = RetryUnimplOps) then mret []
  else foldM (fun acc key =>
    match mod_KeyPrefixFor models key with
    | None => mret acc
    | Some keyPrefix =>
        n ← xGetNode key;
        u ← deref "nil pointer dereference" (getNodeLastUpdate n);
        mret (acc ++ [MkImplTxn (txn_seqNum txn) keyPrefix {[key := lu_txnSeqNum u]}])
    end) (ks_Iterate toImpl) [].

(** The verification of one operation: [None] when the effect is as expected. *)
Definition verify_op (n : node) (equivalent : bool) : option VerificationErrorType :=
  let state := getNodeState (Some n) in
  if st_eqb state ValueState_RETRYING || st_eqb state ValueState_FAILED then None
  else
    let expValue := getNodeLastAppliedValue (Some n) in
    let expToNotExist := bool_decide (expValue = None) || st_eqb state ValueState_PENDING
      || st_eqb state ValueState_INVALID in
    let available := isNodeAvailable (Some n) in
    if expToNotExist && available then Some ExpectedToNotExist
    else if bool_decide (expValue = None) then None
    else if negb expToNotExist && negb available then Some ExpectedToExist
    else if negb equivalent then Some NotEquivalent
    else None.

Definition verifyTransaction (executed : Ops) : E (list KeyWithError) :=
  foldM (fun acc op =>
    n ← xGetNode (op_Key op);
    match n with
    | None => mret acc
    | Some n =>
        (* the comparison is only made when nothing else is wrong *)
        e ← (match verify_op n false with
          | Some NotEquivalent =>
              d ← descriptor_for (op_Key op);
              mret (verify_op n (equivalentValues (newDescriptorHandler d) (op_Key op) (n_value n)
                (getNodeLastAppliedValue (Some n))))
          | e => mret e
          end);
        mret (match e with
          | Some e => acc ++ [MkKeyWithError (op_Key op) (getNodeLastOperation (Some n))
                                (Some (NewVerificationError (op_Key op) e))]
          | None => acc end)
    end) executed [].

(** [WatchNBKeyPrefixRegistration]: whether the prefix is registered already. *)
Definition WatchNBKeyPrefixRegistration (keyPrefix : string) : Sch bool :=
  s ← get;
  if decide (keyPrefix ∈ s_keyPrefixes s) then mret true
  else modify (fun s => sset_subs (s_subs s ∪ {[keyPrefix]}) s) ;; mret false.

(** The refresh after the transaction. *)
Definition post_refresh (txn : transaction) (models : Models) (verifyMode : bool) (c : collected)
    (executed : Ops) : E (list retryTxn * list implTxn * list KeyWithError) :=
  refreshGraph (Some (c_toRefresh c)) None (c_afterErr c) ;;
  retries ← scheduleRetries txn (c_toRetry c);
  impls ← scheduleUnimpl models txn (c_toImpl c);
  kvErrors ← (if (verifyMode : bool) then verifyTransaction executed else mret []);
  xRelease ;;
  mret (retries, impls, kvErrors).

Definition op_errors (executed : Ops) : list KeyWithError :=
  omap (fun op => e ← op_NewErr op; Some (MkKeyWithError (op_Key op) (op_Operation op) (Some e))) executed.

Definition txn_error (kvErrors : list KeyWithError) : option error :=
  match kvErrors with [] => None | _ => Some (NewTransactionError None kvErrors) end.

(** The states offered to the watchers: (watcher, status). *)
Definition notifications (watchers : list (option KeySelector)) (updates : list BaseValueStatus) :
    list (nat * BaseValueStatus) :=
  concat (imap (fun i sel =>
    map (pair i) (filter (fun st => match sel with
      | Some f => f (vs_Key (bvs_Value st)) | None => true end = true) updates)) watchers).

(** Fuel for the status of a value and the values derived from it. *)
Definition status_fuel (g : graphR) : nat := S (S (size (g_heap g))).

Definition postProcessTransaction (txn : transaction) (executed : Ops) : Sch unit :=
  g ← s_read;
  s ← get;
  let c := collect_ops g (s_verifyMode s) executed in
  kvErrors ← (if 0 <? ks_Length (c_toRefresh c) then
      res ← with_write (c_afterErr c) false
        (post_refresh txn (s_models s) (s_verifyMode s) c executed);
      let '(retries, impls, kvErrors) := res in
      forM impls (fun i => WatchNBKeyPrefixRegistration (impl_keyPrefix i) ;; skip) ;;
      modify (fun s => sset_outputs (s_results s) (s_retries s ++ retries) (s_impls s ++ impls)
                         (s_notified s) s) ;;
      mret kvErrors
    else mret []);
  (* collect state updates *)
  g ← s_read;
  s ← get;
  stateUpdates ← mapM (fun key => lift (getValueStatus (status_fuel g) g (lookup_node g key) key))
    (ks_Iterate (s_updatedStates s));
  let removed := map (fun st => vs_Key (bvs_Value st))
    (filter (fun st => vs_State (bvs_Value st) = ValueState_REMOVED) stateUpdates) in
  modify (sset_updatedStates (NewSliceBasedKeySet [])) ;;
  (* build and deliver the error *)
  let txnErr := txn_error (kvErrors ++ op_errors executed) in
  isBlocking ← (if isNBTxn txn then nb ← the_nb txn; mret (nb_isBlocking nb) else mret false);
  modify (fun s => sset_outputs
    (s_results s ++ (if (isBlocking : bool) then [(txn_seqNum txn, txnErr)] else []))
    (s_retries s) (s_impls s) (s_notified s ++ notifications (s_watchers s) stateUpdates) s) ;;
  (* delete removed values *)
  match removed with
  | [] => skip
  | _ => with_write true true (forM removed xDeleteNode ;; xRelease)
  end.

(** ** [processTransaction] *)

(** The simulation; the result tells whether nothing is to be executed. *)
Definition simulate (fuel : nat) (txn : transaction) : E (Ops * bool) :=
  simulatedOps ← executeTransaction fuel txn true;
  whenM (length simulatedOps =? 0) (in_handle_and_graph Save) ;;
  xRelease ;;
  mret (simulatedOps, length simulatedOps =? 0).

Definition processTransaction (fuel : nat) (txn : transaction) : Sch unit :=
  startTime ← s_now;
  pre ← preProcessTransaction txn;
  let txn := pre_txn pre in
  values ← (if pre_skipExec pre then mret (txn_values txn) else orderValuesByOp (txn_values txn));
  let txn := txnset_values values txn in
  sim ← (if pre_skipSimulation pre then mret ([], false)
         else with_write false (pre_record pre) (simulate fuel txn));
  record ← preRecordTransaction txn sim.1 (pre_skipSimulation pre);
  executedOps ← (if pre_skipExec pre || sim.2 then mret []
    else with_write true (pre_record pre)
      (ops ← executeTransaction fuel txn false; xRelease ;; mret ops));
  stopTime ← s_now;
  recordTransaction record executedOps startTime stopTime ;;
  postProcessTransaction txn executedOps ;;
  modify (fun s => sset_stats (updateTransactionStats executedOps (s_stats s)) s).

(** ** The queue *)

Inductive enqueueResult := Enqueued | Rejected (e : error) | WouldBlock.

(** When both the closing and the queue are ready, either may be [choose]n. *)
Definition enqueueTxn (choose : bool) (txn : transaction) : Sch enqueueResult :=
  s ← get;
  isBlocking ← (if isNBTxn txn then nb ← the_nb txn; mret (nb_isBlocking nb) else mret false);
  let full := txnQueueCapacity <=? length (s_txnQueue s) in
  if s_closed s && (full || choose) then mret (Rejected ErrClosedScheduler)
  else if full then mret (if (isBlocking : bool) then WouldBlock else Rejected ErrTxnQueueFull)
  else modify (fun s => sset_txnQueue (s_txnQueue s ++ [txn]) s) ;; mret Enqueued.

Definition dequeueTxn (choose : bool) : Sch (option transaction) :=
  s ← get;
  match s_txnQueue s with
  | [] => mret None
  | txn :: q =>
      if s_closed s && choose then mret None
      else modify (sset_txnQueue q) ;; mret (Some txn)
  end.

(** [delayRetry] and [waitForImpl], once the time or the registration has come;
    a transaction that cannot be enqueued is scheduled again as a retry. *)
Definition delayRetry (choose : bool) (args : retryTxn) : Sch unit :=
  s ← get;
  if s_closed s then skip
  else
    res ← enqueueTxn choose (MkTransaction 0 RetryFailedOps [] None (Some args) None);
    match res with
    | Enqueued => skip
    | _ => modify (fun s => sset_outputs (s_results s) (s_retries s ++ [args]) (s_impls s) (s_notified s) s)
    end.

Definition waitForImpl (choose : bool) (args : implTxn) : Sch unit :=
  s ← get;
  if s_closed s then skip
  else
    res ← enqueueTxn choose (MkTransaction 0 RetryUnimplOps [] None None (Some args));
    match res with
    | Enqueued => skip
    | _ => modify (fun s => sset_outputs (s_results s)
             (s_retries s ++ [MkRetryTxn (MkRetryMeta (impl_txnSeqNum args) DefaultRetryPeriod 1)
                                (impl_keys args)]) (s_impls s) (s_notified s) s)
    end.

(** One round of [consumeTransactions]. *)
Definition consume_one (fuel : nat) (choose : bool) : Sch bool :=
  txn ← dequeueTxn choose;
  match txn with
  | None => mret false
  | Some txn => processTransaction fuel txn ;; mret true
  end.
End txn_process.
