(* ===== verification/Plugin.v ===== *)
(** * The API of the scheduler

    [plugins/kvscheduler/plugin_scheduler.go] and validation.go: registration of
    descriptors, transactions from NB, notifications from SB, and dumps. *)
From S2P Require Import Prelude KeySet Monad Api Registry Flags EdgeLookup Graph GraphRW.
From S2P Require Import NodeUtils Descriptor TxnOps ExecState Refresh TxnExec Scheduler.
From S2P Require Import TxnProcess.

Section plugin.
Context {X : Ext} {MO : MapOrder}.

(** [Init]: the state of a new scheduler with the loaded configuration. *)
Definition Init (config : Config) (models : Models) (verifyMode : bool) (world : World) : sched :=
  let graph := NewGraph (MkOpts (cfg_RecordTransactionHistory config)
    (cfg_TransactionHistoryAgeLimit config) (cfg_PermanentlyRecordedInitPeriod config)) in
  MkSched config models verifyMode graph NewRegistry world (NewSliceBasedKeySet []) nonRetryableErrors
    ∅ ∅ [] 0 0 [] [] (clock_reading (kg_ticks graph)) (MkTxnStats 0 ∅ ∅ 0) [] [] [] [] false.

(** ** Registration *)

(** Subscribers of the key prefix are woken up: the subscription is removed. *)
Definition registerKVDescriptor (descriptor : KVDescriptor) : Sch (option error) :=
  s ← get;
  match GetDescriptor (d_Name descriptor) (s_registry s) with
  | Some _ => mret (Some ErrDescriptorExists)
  | None =>
      modify (fun s => sset_registry (RegisterDescriptor descriptor (s_registry s)) s) ;;
      whenM (negb (String.eqb (d_NBKeyPrefix descriptor) ""))
        (modify (fun s => sset_keyPrefixes (s_keyPrefixes s ∪ {[d_NBKeyPrefix descriptor]}) s)) ;;
      whenM (d_WithMetadata descriptor)
        (with_write true false
           (in_rw (RegisterMetadataMap (d_Name descriptor)
              (match d_MetadataMapFactory descriptor with Some m => m | None => nm_New end)) ;;
            xRelease)) ;;
      modify (fun s => sset_subs (s_subs s ∖ {[d_NBKeyPrefix descriptor]}) s) ;;
      mret None
  end.

Fixpoint RegisterKVDescriptor (descriptors : list KVDescriptor) : Sch (option error) :=
  match descriptors with
  | [] => mret None
  | d :: descriptors =>
      err ← registerKVDescriptor d;
      match err with Some e => mret (Some e) | None => RegisterKVDescriptor descriptors end
  end.

Definition GetRegisteredNBKeyPrefixes (s : sched) : list string := map_order (s_keyPrefixes s).

(** ** Transactions and notifications *)

(** [SchedulerTxn]: the values by key, a nil value is a deletion. *)
Definition SchedulerTxn := gmap string (option Value).

Definition StartNBTransaction : SchedulerTxn := ∅.

Definition txn_SetValue (key : string) (value : option Value) (txn : SchedulerTxn) : SchedulerTxn :=
  <[key := value]> txn.

(** The transaction data of [Commit], before the options are validated. *)
Definition commit_nb (ctx : Context_) (config : Config) : nbTxn :=
  MkNbTxn (IsResync ctx).1 (IsResync ctx).2 (negb (IsNonBlockingTxn ctx))
    (bool_decide (is_Some (IsWithRetry ctx))) (IsWithRetry ctx) (IsWithRevert ctx)
    (cfg_EnableTxnSimulation config || IsWithSimulation ctx) (IsWithDescription ctx).1.

Definition commit_values (txn : SchedulerTxn) : list kvForTxn :=
  omap (fun key => (fun v => MkKvForTxn key v None FromNB false) <$> txn !! key) (map_order (dom txn)).

Definition commit_txn (ctx : Context_) (config : Config) (txn : SchedulerTxn) : transaction :=
  MkTransaction 0 NBTransaction (commit_values txn) (Some (commit_nb ctx config)) None None.

(** The validation of the options. *)
Definition commit_error (ctx : Context_) (txn : SchedulerTxn) : option error :=
  if bool_decide ((IsResync ctx).1 = DownstreamResync) && negb (bool_decide (txn = ∅))
  then Some (NewTransactionError (Some ErrCombinedDownstreamResyncWithChange) [])
  else if IsWithRevert ctx && negb (bool_decide ((IsResync ctx).1 = NotResync))
  then Some (NewTransactionError (Some ErrRevertNotSupportedWithResync) [])
  else None.

(** What [Commit] did: an error, the transaction is queued (and awaited when it
    is blocking), or the caller waits for the queue. *)
Inductive commitResult := CommitError (e : error) | CommitQueued | CommitWaits.

Definition Commit (choose : bool) (ctx : Context_) (txn : SchedulerTxn) : Sch commitResult :=
  s ← get;
  match commit_error ctx txn with
  | Some e => mret (CommitError e)
  | None =>
      res ← enqueueTxn choose (commit_txn ctx (s_config s) txn);
      mret (match res with
        | Enqueued => CommitQueued
        | Rejected e => CommitError (NewTransactionError (Some e) [])
        | WouldBlock => CommitWaits
        end)
  end.

Definition notification_txn (notif : list KVWithMetadata) : transaction :=
  MkTransaction 0 SBNotification
    (map (fun v => MkKvForTxn (kvm_Key v) (kvm_Value v) (kvm_Metadata v) FromSB false) notif)
    None None None.

(** [Close] cancels the context and waits for the goroutines. *)
Definition Close : Sch unit :=
  modify (fun s => MkSched (s_config s) (s_models s) (s_verifyMode s) (s_graph s) (s_registry s) (s_world s)
    (s_updatedStates s) (s_nonRetryable s) (s_keyPrefixes s) (s_subs s) (s_txnQueue s) (s_txnSeqNumber s)
    (s_resyncCount s) (s_watchers s) (s_txnHistory s) (s_startTime s) (s_stats s) (s_results s) (s_retries s)
    (s_impls s) (s_notified s) true).

Definition PushSBNotification (choose : bool) (notif : list KVWithMetadata) : Sch (option error) :=
  res ← enqueueTxn choose (notification_txn notif);
  mret (match res with Rejected e => Some e | _ => None end).

(** ** Reading *)

Definition s_GetMetadataMap (descriptor : string) (s : sched) : option Mapping :=
  GetMetadataMap (kg_graph (s_graph s)) descriptor.

Definition GetValueStatus (key : string) : Sch BaseValueStatus :=
  g ← s_read; lift (getValueStatus (status_fuel g) g (lookup_node g key) key).

Definition WatchValueStatus (keySelector : option KeySelector) : Sch unit :=
  modify (fun s => sset_watchers (s_watchers s ++ [keySelector]) s).

(** The intended state: what was last requested from NB. *)
Definition nb_view (descriptor : string) (g : graphR) : list KVWithMetadata :=
  omap (fun n =>
      u ← getNodeLastUpdate (Some n); v ← lu_value u;
      Some (MkKVWithMetadata (n_key n) (Some v) (n_metadata n) FromNB))
    (nodes_of g (GetNodes g None
       [WithFlags [DescriptorFlag descriptor];
        WithoutFlags [DerivedFlag ""; ValueStateFlag ValueState_OBTAINED]])).

Definition in_memory (descriptor : string) (g : graphR) : list KVWithMetadata :=
  nodesToKVPairsWithMetadata (nodes_of g (GetNodes g None (descrValsSelectors descriptor true))).

Definition DumpValuesByDescriptor (descriptor : string) (view : View) :
    Sch (list KVWithMetadata * option error) := fun s =>
  let g := kg_graph (s_graph s) in
  match view with
  | NBView => Ok ((nb_view descriptor g, None), s)
  | CachedView => Ok ((in_memory descriptor g, None), s)
  | SBView =>
      match GetDescriptor descriptor (s_registry s) with
      | None => Ok (([], Some (Opaque "descriptor is not registered")), s)
      | Some kvDescriptor =>
          match d_Retrieve kvDescriptor with
          | None => Ok (([], Some (Opaque "descriptor does not support Retrieve operation")), s)
          | Some f => let '(r, w) := f (in_memory descriptor g) (s_world s) in Ok (r, sset_world w s)
          end
      end
  end.

(** The last descriptor with the key prefix. *)
Definition getDescriptorForKeyPrefix (keyPrefix : string) : Sch string :=
  descriptors ← zoom s_registry sset_registry GetAllDescriptors;
  mret (fold_left (fun name d => if String.eqb (d_NBKeyPrefix d) keyPrefix then d_Name d else name)
          descriptors "").

Definition DumpValuesByKeyPrefix (keyPrefix : string) (view : View) :
    Sch (list KVWithMetadata * option error) :=
  name ← getDescriptorForKeyPrefix keyPrefix;
  if String.eqb name "" then mret ([], Some (Opaque "no descriptor found matching the key prefix"))
  else DumpValuesByDescriptor name view.

(** ** Semantic validation *)

(** The error for an invalid value; only [InvalidValueError]s describe invalid
    data, other errors are wrapped. *)
Definition invalid_message (message : option Value) (err : error) (parent : option Value) : error :=
  match err with
  | InvalidValueErr _ _ => NewInvalidMessageError message (Some err) parent
  | _ => NewInvalidMessageError message (Some (NewInvalidValueError (Some err) [""])) parent
  end.

Definition validate_kv (key : string) (message reported parent : option Value) :
    Sch (option descriptorHandler * list error) :=
  descriptor ← s_descriptor_for key;
  match descriptor with
  | None => mret (None, [])
  | Some d =>
      let h := newDescriptorHandler (Some d) in
      mret (Some h, match validate h key message with
        | Some err => [invalid_message reported err parent] | None => [] end)
  end.

(** The static message of a dynamic one: an error, or nothing to validate. *)
Definition static_message (models : Models) (message : Value) : error + option Value :=
  if mod_isDynamic models message then
    match mod_GetModelFor models message with
    | inl e => inl (Opaque ("can't get model for message due to: " +:+ Error e
        +:+ " (message=" +:+ fmt_v (Some message) +:+ ")"))
    | inr false => inr None
    | inr true =>
        match mod_Convert models message with
        | inl e => inl (Opaque ("can't convert dynamic message to model proto message due to: "
            +:+ Error e +:+ " (dynamic message=" +:+ fmt_v (Some message) +:+ ")"))
        | inr m => inr (Some m)
        end
    end
  else inr (Some message).

(** One message: an error of the call, or the errors of the message. *)
Definition validate_message (models : Models) (originalMessage : Value) : Sch (error + list error) :=
  match static_message models originalMessage with
  | inl e => mret (inl e)
  | inr None => mret (inr [])
  | inr (Some message) =>
      match mod_GetKey models message with
      | inl e => mret (inl (Opaque ("can't get message key due to: " +:+ Error e
          +:+ " (message=" +:+ fmt_v (Some message) +:+ ")")))
      | inr key =>
          base ← validate_kv key (Some message) (Some originalMessage) None;
          match base with
          | (None, _) => mret (inr [])
          | (Some h, errs) =>
              derived ← foldM (fun acc kv =>
                r ← validate_kv (kvp_Key kv) (kvp_Value kv) (kvp_Value kv) (Some originalMessage);
                mret (acc ++ r.2)) (derivedValues h key (Some message)) [];
              mret (inr (errs ++ derived))
          end
      end
  end.

Fixpoint validate_messages (models : Models) (messages : list Value) (acc : list error) :
    Sch (option error) :=
  match messages with
  | [] => mret (match acc with [] => None | _ => Some (NewInvalidMessagesError acc) end)
  | m :: messages =>
      r ← validate_message models m;
      match r with
      | inl e => mret (Some e)
      | inr errs => validate_messages models messages (acc ++ errs)
      end
  end.

Definition ValidateSemantically (messages : list Value) : Sch (option error) :=
  s ← get; validate_messages (s_models s) messages [].
End plugin.
