(* ===== verification/Dispatcher.v ===== *)
(** * The orchestrator

    [plugins/orchestrator]: the store of store.go, the dispatcher of
    dispatcher.go, and the handling of events and labels of orchestrator.go.  The
    dispatcher works with any scheduler that has the interface [KVScheduler]. *)
From stdpp Require Import pretty.
From S2P Require Import Prelude Monad Api Flags NodeUtils.

Section orchestrator.
Context {X : Ext} {MO : MapOrder}.

(** ** store.go *)

Abbreviation KVPairs := (gmap string Value).
Abbreviation Labels := (gmap string string).

Record memStore := MkMemStore {
  ms_db : gmap string KVPairs;
  ms_ldb : gmap string Labels
}.

Definition newMemStore : memStore := MkMemStore ∅ ∅.

Definition msset_db db (s : memStore) := MkMemStore db (ms_ldb s).
Definition msset_ldb ldb (s : memStore) := MkMemStore (ms_db s) ldb.

(** [for k, v := range m { pairs[k] = v }]. *)
Definition copy_into {A} (m pairs : gmap string A) : gmap string A :=
  fold_left (fun acc k => match m !! k with Some v => <[k := v]> acc | None => acc end)
    (map_order (dom m)) pairs.

Definition List_ (s : memStore) (dataSrc : string) : KVPairs :=
  copy_into (default ∅ (ms_db s !! dataSrc)) ∅.

Definition ListAll (s : memStore) : KVPairs :=
  fold_left (fun pairs dataSrc => copy_into (List_ s dataSrc) pairs)
    (sort_by String.compare id (map_order (dom (ms_db s)))) ∅.

Definition Update (dataSrc key : string) (val : Value) (s : memStore) : memStore :=
  msset_db (<[dataSrc := <[key := val]> (default ∅ (ms_db s !! dataSrc))]> (ms_db s)) s.

Definition Delete (dataSrc key : string) (s : memStore) : memStore :=
  msset_db (alter (delete key) dataSrc (ms_db s)) s.

Definition Reset_ (dataSrc : string) (s : memStore) : memStore :=
  msset_db (delete dataSrc (ms_db s)) s.

Definition ListLabels (key : string) (s : memStore) : Labels :=
  copy_into (default ∅ (ms_ldb s !! key)) ∅.

Definition AddLabel (key lkey lval : string) (s : memStore) : memStore :=
  msset_ldb (<[key := <[lkey := lval]> (default ∅ (ms_ldb s !! key))]> (ms_ldb s)) s.

Definition HasLabel (key lkey : string) (s : memStore) : bool :=
  bool_decide (is_Some (default ∅ (ms_ldb s !! key) !! lkey)).

Definition DeleteLabel (key lkey : string) (s : memStore) : memStore :=
  msset_ldb (alter (delete lkey) key (ms_ldb s)) s.

Definition ResetLabels (key : string) (s : memStore) : memStore :=
  msset_ldb (delete key (ms_ldb s)) s.

(** ** The scheduler the dispatcher needs *)

Class KVScheduler (S : Type) := {
  kvs_Commit : Context_ -> gmap string (option Value) -> M S (N * option error);
  kvs_TransactionBarrier : M S unit;
  kvs_GetValueStatus : string -> M S BaseValueStatus;
  kvs_GetRegisteredNBKeyPrefixes : M S (list string);
  kvs_DumpValuesByKeyPrefix : string -> View -> M S (list KVWithMetadata * option error)
}.

(** ** dispatcher.go *)

Record KeyVal := MkKeyVal { kval_Key : string; kval_Val : option Value }.

Record Result_ := MkResult { res_Key : string; res_Status : ValueStatus }.

(** The context of the caller, with the data source it may carry. *)
Record dispCtx := MkDispCtx { dc_ctx : Context_; dc_dataSrc : option string }.

Definition DataSrcContext (ctx : dispCtx) (dataSrc : string) : dispCtx := MkDispCtx (dc_ctx ctx) (Some dataSrc).

(** [models.Key], which panics when the model of a message is not registered. *)
Context (models_Key : Value -> outcome string).

(** The keys are unique and match the values. *)
Fixpoint check_pairs (kvPairs : list KeyVal) (uniq : gmap string (option Value)) :
    outcome (error + gmap string (option Value)) :=
  match kvPairs with
  | [] => Ok (inr uniq)
  | kv :: kvPairs =>
      mismatch ← (match kval_Val kv with
        | Some v => k ← models_Key v; Ok (if String.eqb k (kval_Key kv) then None else Some k)
        | None => Ok None end);
      match mismatch with
      | Some k => Ok (inl (Opaque ("given key " +:+ kval_Key kv
          +:+ " does not match with key generated from value: " +:+ k +:+ " (value: "
          +:+ fmt_v (kval_Val kv) +:+ ")")))
      | None =>
          match uniq !! kval_Key kv with
          | Some oldVal => Ok (inl (Opaque ("found multiple key-value pairs with same key: "
              +:+ kval_Key kv +:+ " (value 1: " +:+ fmt_v (kval_Val kv) +:+ ", value 2: "
              +:+ fmt_v oldVal +:+ ")")))
          | None => check_pairs kvPairs (<[kval_Key kv := kval_Val kv]> uniq)
          end
      end
  end.

Definition add_labels (key : string) (labels : Labels) (s : memStore) : memStore :=
  fold_left (fun s lkey => match labels !! lkey with Some lval => AddLabel key lkey lval s | None => s end)
    (map_order (dom labels)) s.
Definition delete_labels (key : string) (labels : Labels) (s : memStore) : memStore :=
  fold_left (fun s lkey => DeleteLabel key lkey s) (map_order (dom labels)) s.

Definition labels_of (keyLabels : gmap string Labels) (key : string) : Labels :=
  default ∅ (keyLabels !! key).

Definition store_put (dataSrc : string) (keyLabels : gmap string Labels) (key : string) (val : Value)
    (s : memStore) : memStore :=
  add_labels key (labels_of keyLabels key) (ResetLabels key (Update dataSrc key val s)).

Definition store_delete (dataSrc : string) (keyLabels : gmap string Labels) (key : string) (s : memStore) :
    memStore :=
  delete_labels key (labels_of keyLabels key) (Delete dataSrc key s).

(** A full resync: the source is replaced, and everything is set. *)
Definition resync_store (dataSrc : string) (keyLabels : gmap string Labels) (kvPairs : list KeyVal)
    (s : memStore) : memStore :=
  fold_left (fun s kv => match kval_Val kv with
    | None => s
    | Some v => store_put dataSrc keyLabels (kval_Key kv) v s end) kvPairs (Reset_ dataSrc s).

Definition resync_txn (s : memStore) : gmap string (option Value) :=
  Some <$> copy_into (ListAll s) ∅.

(** A change: the source is updated, and the changes are set. *)
Definition change_store (dataSrc : string) (keyLabels : gmap string Labels) (kvPairs : list KeyVal)
    (s : memStore) : memStore :=
  fold_left (fun s kv => match kval_Val kv with
    | None => store_delete dataSrc keyLabels (kval_Key kv) s
    | Some v => store_put dataSrc keyLabels (kval_Key kv) v s end) kvPairs s.

Definition change_txn (kvPairs : list KeyVal) : gmap string (option Value) :=
  fold_left (fun txn kv => <[kval_Key kv := kval_Val kv]> txn) kvPairs ∅.

Section dispatcher.
Context {S : Type} {KS : KVScheduler S}.

Record dispatcher := MkDispatcher { disp_db : memStore; disp_kvs : S }.

Definition D := M dispatcher.
Definition in_kvs {A} (m : M S A) : D A :=
  zoom disp_kvs (fun s d => MkDispatcher (disp_db d) s) m.
Definition disp_store (f : memStore -> memStore) : D unit :=
  modify (fun d => MkDispatcher (f (disp_db d)) (disp_kvs d)).

Definition ListData (d : dispatcher) : KVPairs := ListAll (disp_db d).

Definition GetStatus (key : string) : D ValueStatus :=
  s ← in_kvs (kvs_GetValueStatus key); mret (bvs_Value s).

(** The data source, and the transaction prepared from it. *)
Definition prepare_data (ctx : dispCtx) (kvPairs : list KeyVal) (keyLabels : gmap string Labels) :
    D (gmap string (option Value)) :=
  let dataSrc := default "global" (dc_dataSrc ctx) in
  if decide ((IsResync (dc_ctx ctx)).1 = FullResync) then
    disp_store (resync_store dataSrc keyLabels kvPairs) ;;
    d ← get; mret (resync_txn (disp_db d))
  else
    disp_store (change_store dataSrc keyLabels kvPairs) ;;
    mret (change_txn kvPairs).

Definition seqnum_status (seqID : N) : ValueStatus :=
  MkValueStatus "" ValueState_NONEXISTENT "" TxnOperation_UNDEFINED [pretty seqID].

(** The results of a committed transaction. *)
Definition push_results (uniq : gmap string (option Value)) (res : N * option error) :
    D (list Result_ * option error) :=
  in_kvs kvs_TransactionBarrier ;;
  statuses ← mapM (fun key => s ← GetStatus key; mret (MkResult key s)) (map_order (dom uniq));
  let results := MkResult "seqnum" (seqnum_status res.1) :: statuses in
  mret (match res.2 with
    | None => (results, None)
    | Some err =>
        match GetKVErrors (Some err) with
        | [] => ([], Some err)
        | _ => (results, Some err)
        end
    end).

Definition PushData (ctx : dispCtx) (kvPairs : list KeyVal) (keyLabels : gmap string Labels) :
    D (list Result_ * option error) :=
  checked ← lift (check_pairs kvPairs ∅);
  match checked with
  | inl e => mret ([], Some e)
  | inr uniq =>
      txn ← prepare_data ctx kvPairs keyLabels;
      res ← in_kvs (kvs_Commit (dc_ctx ctx) txn);
      push_results uniq res
  end.

Definition ListState : D (gmap string (option Value) * option error) :=
  prefixes ← in_kvs kvs_GetRegisteredNBKeyPrefixes;
  (fix go (prefixes : list string) (pairs : gmap string (option Value)) :
      D (gmap string (option Value) * option error) :=
     match prefixes with
     | [] => mret (pairs, None)
     | prefix :: prefixes =>
         r ← in_kvs (kvs_DumpValuesByKeyPrefix prefix CachedView);
         match r.2 with
         | Some err => mret (∅, Some err)
         | None => go prefixes (fold_left (fun acc kv => <[kvm_Key kv := kvm_Value kv]> acc) r.1 pairs)
         end
     end) prefixes ∅.

(** ** orchestrator.go *)

(** A change of a datasync event: the value cannot always be decoded. *)
Record Change := MkChange {
  ch_key : string;
  ch_delete : bool;
  ch_value : option Value;          (* [None]: decoding failed *)
  ch_labels : option Labels
}.

Definition with_dataSrc (ctx : dispCtx) : dispCtx :=
  match dc_dataSrc ctx with Some _ => ctx | None => DataSrcContext ctx "datasync" end.

(** The key-value pairs of the changes that could be decoded, and their labels. *)
Fixpoint change_pairs (changes : list Change) : list KeyVal * gmap string Labels :=
  match changes with
  | [] => ([], ∅)
  | x :: changes =>
      let '(pairs, labels) := change_pairs changes in
      let labels' := match ch_labels x with
        | Some l => if decide (is_Some (labels !! ch_key x)) then labels else <[ch_key x := l]> labels
        | None => labels end in
      if ch_delete x then (MkKeyVal (ch_key x) None :: pairs, labels')
      else match ch_value x with
        | None => (pairs, labels)
        | Some v => (MkKeyVal (ch_key x) (Some v) :: pairs, labels')
        end
  end.

(** A change event; the result is what [e.Done] is called with. *)
Definition handle_change (ctx : dispCtx) (changes : list Change) : D (option error) :=
  let '(kvPairs, labels) := change_pairs changes in
  match kvPairs with
  | [] => mret None
  | _ =>
      let ctx := with_dataSrc ctx in
      res ← PushData (MkDispCtx (WithRetryDefault (dc_ctx ctx)) (dc_dataSrc ctx)) kvPairs labels;
      mret res.2
  end.

(** A resync event: all its values, none of them deleted. *)
Definition handle_resync (ctx : dispCtx) (values : list Change) : D (option error) :=
  let '(kvPairs, labels) := change_pairs values in
  let ctx := with_dataSrc ctx in
  res ← PushData (MkDispCtx (WithRetryDefault (WithResync (dc_ctx ctx) FullResync true)) (dc_dataSrc ctx))
          kvPairs labels;
  mret res.2.
End dispatcher.

(** *** Labels and items *)

Definition excluded_key (wk : string) : option string :=
  match wk with String c rest => if Ascii.eqb c (Ascii.ascii_of_nat 33) then Some rest else None | _ => None end.

(** The split of the wanted labels: with an exclamation mark they are excluded. *)
Definition include_labels (want : Labels) : Labels :=
  filter (fun p => excluded_key p.1 = None) want.
Definition exclude_labels (want : Labels) : Labels :=
  fold_left (fun acc wk => match excluded_key wk, want !! wk with
      | Some k, Some wl => <[k := wl]> acc
      | _, _ => acc end) (map_order (dom want)) ∅.

Definition include_ok (have : Labels) (ik iv : string) : bool :=
  match have !! ik with
  | None => false
  | Some hv => String.eqb iv "" || String.eqb iv hv
  end.
Definition exclude_ok (have : Labels) (ek ev : string) : bool :=
  match have !! ek with
  | None => true
  | Some hv => negb (String.eqb ev hv) && negb (String.eqb ev "")
  end.

Definition HasCorrectLabels (want have : Labels) : bool :=
  bool_decide (map_Forall (fun k v => include_ok have k v = true) (include_labels want))
  && bool_decide (map_Forall (fun k v => exclude_ok have k v = true) (exclude_labels want)).

Record ItemID := MkItemID { it_Model : string; it_Name : string }.

Definition ContainsItemID (want : list ItemID) (have : ItemID) : bool :=
  match want with
  | [] => true
  | _ => existsb (fun w => String.eqb (it_Model w) (it_Model have) && String.eqb (it_Name w) (it_Name have)) want
  end.
End orchestrator.
