(* ===== verification/Demo.v ===== *)
(** * A concrete instance

    Numbers as values, a log of calls as the southbound plane, and three
    descriptors: interfaces with addresses derived from them, routes that depend
    on an interface, and peers that depend on any route.  The witnesses of the
    properties evaluate the definitions on it. *)
From stdpp Require Import pretty.
From S2P Require Import Prelude KeySet Monad Api Registry Flags EdgeLookup Graph GraphRW.
From S2P Require Import NodeUtils Descriptor TxnOps ExecState Refresh TxnExec Scheduler.
From S2P Require Import TxnProcess Plugin.

Definition demo_ext : Ext := {|
  Value := nat;
  proto_Equal := fun a b => bool_decide (a = b);
  proto_MessageName := fun _ => "demo.Value";
  fmt_v := fun v => match v with Some n => pretty n | None => "<nil>" end;
  Metadata := string;
  DeepEqual := fun a b => bool_decide (a = b);
  Mapping := gmap string string;
  nm_New := ∅;
  nm_Put := fun m k v => <[k := v]> m;
  nm_Delete := fun m k => delete k m;
  nm_Update := fun m k v => match v with Some v => <[k := v]> m | None => m end;
  nm_GetValue := fun m k => m !! k;
  nm_ListFields := fun m k => [];
  World := list string;
  netns_escaped := fun _ => false;
  clock_reading := fun n => Z.of_nat n;
  ext_runtime := doubling
|}.

#[export] Existing Instance demo_ext.
#[export] Existing Instance elements_order.

(** Creation fails for the value 13. *)
Definition demo_create (key : string) (value : option nat) (w : list string) :
    (option string * option error) * list string :=
  let w := w ++ ["create " +:+ key +:+ "=" +:+ fmt_v value] in
  if bool_decide (value = Some 13) then ((None, Some (Opaque "failure")), w)
  else ((Some key, None), w).

Definition demo_delete (key : string) (value : option nat) (md : option string) (w : list string) :
    option error * list string := (None, w ++ ["delete " +:+ key]).

Definition demo_update (key : string) (old new : option nat) (md : option string) (w : list string) :
    (option string * option error) * list string :=
  ((md, None), w ++ ["update " +:+ key +:+ "=" +:+ fmt_v new]).

Definition demo_desc (name prefix : string) (derives : string -> option nat -> list KeyValuePair)
    (deps : string -> option nat -> list Dependency) : KVDescriptor :=
  MkDescriptor name (String.prefix prefix) None prefix None true None None (Some demo_create)
    (Some demo_delete) (Some demo_update) None None None (Some derives) (Some deps) [].

Definition iface_derives (key : string) (value : option nat) : list KeyValuePair :=
  match value with
  | Some (S n) => if String.prefix "if/" key then [MkKeyValuePair ("addr/" +:+ key) (Some n)] else []
  | _ => []
  end.

Definition no_derives (key : string) (value : option nat) : list KeyValuePair := [].
Definition no_deps (key : string) (value : option nat) : list Dependency := [].
Definition dep_key (label key : string) : Dependency := MkDependency label key (MkAnyOf [] None).
Definition dep_any (label prefix : string) : Dependency := MkDependency label "" (MkAnyOf [prefix] None).

Definition demo_iface : KVDescriptor := demo_desc "iface" "if/" iface_derives no_deps.
Definition demo_route : KVDescriptor :=
  demo_desc "route" "route/" no_derives (fun _ _ => [dep_key "interface" "if/eth0"]).
Definition demo_peer : KVDescriptor :=
  demo_desc "peer" "peer/" no_derives (fun _ _ => [dep_any "routes" "route/"]).

Definition demo_models : Models :=
  MkModels (fun _ => false) (fun _ => inr true) (fun v => inr v) (fun v => inr ("if/" +:+ pretty v))
    (fun key => if String.prefix "other/" key then Some "other/" else None).

(** The state a computation ends in, if it returns. *)
Definition run_state {S A} (m : M S A) (s : S) : S :=
  match m s with Ok (_, s') => s' | _ => s end.
Definition run_value {S A} (m : M S A) (s : S) : option A :=
  match m s with Ok (a, _) => Some a | _ => None end.

Definition demo_sched : sched :=
  run_state (RegisterKVDescriptor [demo_iface; demo_route; demo_peer])
    (Init defaultConfig demo_models false []).

Definition demo_fuel : nat := 20.

(** A transaction from NB, processed at once. *)
Definition demo_nb : nbTxn := MkNbTxn NotResync false true false None false true "demo".
Definition demo_txn (nb : nbTxn) (values : list (string * option nat)) : transaction :=
  MkTransaction 0 NBTransaction
    (map (fun kv => MkKvForTxn kv.1 kv.2 None FromNB false) values) (Some nb) None None.
Definition demo_commit (values : list (string * option nat)) : Sch unit :=
  processTransaction demo_fuel (demo_txn demo_nb values).

(** A handle on the graph of the scheduler. *)
Definition demo_handle (s : sched) (inPlace record : bool) : graphRW :=
  match Write (s_graph s) inPlace record with
  | Ok w => w
  | _ => MkGraphRW (kg_graph (s_graph s)) record inPlace ∅
  end.

(** The states of the nodes, by key. *)
Definition demo_states (s : sched) : list (string * ValueState) :=
  omap (fun k => (fun n => (k, getNodeState (Some n))) <$> lookup_node (kg_graph (s_graph s)) k)
    (GetKeys (kg_graph (s_graph s))).

Example demo_route_waits :
  let s := run_state (demo_commit [("route/1", Some 1)]) demo_sched in
  s_world s = [] /\ demo_states s = [("route/1", ValueState_PENDING)].
Proof. vm_compute. done. Qed.

(** A route is created with its interface, and then the peer. *)
Example demo_route_created :
  let s := run_state (demo_commit [("peer/1", Some 2); ("route/1", Some 1)]) demo_sched in
  let s := run_state (demo_commit [("if/eth0", Some 4)]) s in
  s_world s = ["create if/eth0=4"; "create route/1=1"; "create peer/1=2"]
  /\ demo_states s = [("addr/if/eth0", ValueState_CONFIGURED); ("if/eth0", ValueState_CONFIGURED);
       ("peer/1", ValueState_CONFIGURED); ("route/1", ValueState_CONFIGURED)].
Proof. vm_compute. done. Qed.
