(* ===== verification/DryRun.v ===== *)
(** * Simulation leaves no trace

    What a dry run of a transaction may touch: only the write handle, which is
    then a copy of the graph, and the registry's cache. *)
From S2P Require Import Prelude KeySet Monad Api Registry Flags EdgeLookup Graph GraphRW.
From S2P Require Import NodeUtils Descriptor TxnOps ExecState Refresh TxnExec Scheduler.
From S2P Require Import TxnProcess Plugin Demo.

Section dry_run.
Context {X : Ext} {MO : MapOrder}.

(** Everything but the handle and the cache of the registry. *)
Definition outside (x : ExecSt) : kvgraph * World * KeySet * list error * outcome (list KVDescriptor) :=
  (x_graph x, x_world x, x_updatedStates x, x_nonRetryable x, listed (x_registry x)).

Abbreviation quiet m := (preserves (same outside) m).

Lemma quiet_in_rw {A} (m : G A) : quiet (in_rw m).
Proof. by apply preserves_zoom. Qed.
Lemma quiet_in_registry {A} (m : M registry A) :
  (forall reg a reg', m reg = Ok (a, reg') -> listed reg' = listed reg) -> quiet (in_registry m).
Proof.
  intros Hm x a x'. unfold in_registry, zoom. destruct (m (x_registry x)) as [[a1 reg]|e|] eqn:E; [|done..].
  intros [= <- <-]. unfold same, outside. cbn. by rewrite (Hm _ _ _ E).
Qed.
Lemma quiet_GetAllDescriptors : quiet (in_registry GetAllDescriptors).
Proof. apply quiet_in_registry, GetAllDescriptors_listed. Qed.
Lemma quiet_in_graph {A} (f : graphR -> outcome A) : quiet (in_graph f).
Proof. unfold in_graph. preserves_auto. Qed.
Lemma quiet_rnode r : quiet (rnode r).
Proof. apply quiet_in_rw. Qed.
Lemma quiet_descriptor_for key : quiet (descriptor_for key).
Proof. apply quiet_in_registry, GetDescriptorForKey_listed. Qed.
Lemma quiet_xGetNode key : quiet (xGetNode key).
Proof. unfold xGetNode. preserves_auto. Qed.
Lemma quiet_xSetNode key : quiet (xSetNode key).
Proof. apply quiet_in_rw. Qed.
Hint Resolve quiet_in_rw quiet_GetAllDescriptors quiet_in_graph quiet_rnode quiet_descriptor_for
  quiet_xGetNode quiet_xSetNode : monad.

Lemma quiet_xDeleteNode key : quiet (xDeleteNode key).
Proof. unfold xDeleteNode. preserves_auto. Qed.
Lemma quiet_updateNodeState r st : quiet (updateNodeState r st).
Proof. unfold updateNodeState. preserves_auto. Qed.
Hint Resolve quiet_xDeleteNode quiet_updateNodeState : monad.

Lemma quiet_the_nb t : quiet (the_nb t).
Proof. apply preserves_deref, _. Qed.
Lemma quiet_the_retry t : quiet (the_retry t).
Proof. apply preserves_deref, _. Qed.
Hint Resolve quiet_the_nb quiet_the_retry : monad.

Lemma quiet_preRecordTxnOp args n : quiet (preRecordTxnOp args n).
Proof. unfold preRecordTxnOp. preserves_auto. Qed.
Lemma quiet_markFailedValue r args err b : quiet (markFailedValue r args err b).
Proof. unfold markFailedValue, consider_retry. preserves_auto. Qed.
Lemma quiet_own_error args r err : quiet (own_error args r err).
Proof. unfold own_error. preserves_auto. Qed.
Hint Resolve quiet_preRecordTxnOp quiet_markFailedValue quiet_own_error : monad.
Lemma quiet_failed_op args r op err b : quiet (failed_op args r op err b).
Proof. unfold failed_op. preserves_auto. Qed.
Lemma quiet_invalid_op args r op err : quiet (invalid_op args r op err).
Proof. unfold invalid_op. preserves_auto. Qed.
Lemma quiet_validDerivedKV kv : quiet (validDerivedKV kv).
Proof. unfold validDerivedKV. preserves_auto. Qed.
Lemma quiet_determine n : quiet (determineDepUpdateOperation n).
Proof. unfold determineDepUpdateOperation. preserves_auto. Qed.
Lemma quiet_dep_nodes r : quiet (dep_nodes r).
Proof. unfold dep_nodes. preserves_auto. Qed.
Lemma quiet_value_view n : quiet (value_view n).
Proof. unfold value_view. preserves_auto. Qed.
Lemma quiet_new_last_update op args u : quiet (new_last_update op args u).
Proof. unfold new_last_update. preserves_auto. Qed.
Hint Resolve quiet_failed_op quiet_invalid_op quiet_validDerivedKV quiet_determine quiet_dep_nodes
  quiet_value_view quiet_new_last_update : monad.

Section rec.
Context (rec : applyValueArgs -> E ValueRes).
Context (Hrec : forall args, a_dryRun args = true -> quiet (rec args)).

Lemma quiet_applyDerived vs args b : a_dryRun args = true -> quiet (applyDerived rec vs args b).
Proof. intros H. unfold applyDerived. preserves_auto. Qed.

Lemma quiet_runDepUpdates r args b : a_dryRun args = true -> quiet (runDepUpdates rec r args b).
Proof. intros H. unfold runDepUpdates, dep_update. preserves_auto. Qed.

Lemma quiet_delete_return r st op args p rc ex err inh rt :
  quiet (delete_return r st op args p rc ex err inh rt).
Proof. unfold delete_return. preserves_auto. Qed.

Lemma quiet_execute_delete r args : a_dryRun args = true -> quiet (execute_delete r args).
Proof. intros H. unfold execute_delete. rewrite H. preserves_auto. Qed.
Hint Resolve quiet_applyDerived quiet_runDepUpdates quiet_delete_return quiet_execute_delete : monad.

Lemma quiet_applyDelete r op args p rc : a_dryRun args = true -> quiet (applyDelete rec r op args p rc).
Proof. intros H. unfold applyDelete. preserves_auto. Qed.

Lemma quiet_applyNewRelations r h v b args :
  a_dryRun args = true -> quiet (applyNewRelations rec r h v b args).
Proof. intros H. unfold applyNewRelations. preserves_auto. Qed.

Lemma quiet_execute_create r d args : a_dryRun args = true -> quiet (execute_create r d args).
Proof. intros H. unfold execute_create. rewrite H. preserves_auto. Qed.

Lemma quiet_create_finish r op args ex ds :
  a_dryRun args = true -> quiet (create_finish rec r op args ex ds).
Proof. intros H. unfold create_finish. preserves_auto. Qed.
Hint Resolve quiet_applyDelete quiet_applyNewRelations quiet_execute_create quiet_create_finish : monad.

Lemma quiet_create_known r op args d : a_dryRun args = true -> quiet (create_known rec r op args d).
Proof. intros H. unfold create_known. preserves_auto. Qed.
Hint Resolve quiet_create_known : monad.

Lemma quiet_applyCreate r op args : a_dryRun args = true -> quiet (applyCreate rec r op args).
Proof. intros H. unfold applyCreate. preserves_auto. Qed.
Hint Resolve quiet_applyCreate : monad.

Lemma quiet_update_finish r op args eq ex ds :
  a_dryRun args = true -> quiet (update_finish rec r op args eq ex ds).
Proof. intros H. unfold update_finish. preserves_auto. Qed.

Lemma quiet_update_recreate r args : a_dryRun args = true -> quiet (update_recreate rec r args).
Proof. intros H. unfold update_recreate. preserves_auto. Qed.
Hint Resolve quiet_update_finish quiet_update_recreate : monad.

Lemma quiet_update_in_place r op args d eq :
  a_dryRun args = true -> quiet (update_in_place rec r op args d eq).
Proof. intros H. unfold update_in_place. rewrite H. cbn [negb andb]. preserves_auto. Qed.
Hint Resolve quiet_update_in_place : monad.

Lemma quiet_applyUpdate r op args : a_dryRun args = true -> quiet (applyUpdate rec r op args).
Proof. intros H. unfold applyUpdate. preserves_auto. Qed.
Hint Resolve quiet_applyUpdate : monad.

Lemma quiet_detect_changes args u v : a_dryRun args = true -> quiet (detect_changes args u v).
Proof. intros H. unfold detect_changes. rewrite H. preserves_auto. Qed.

Lemma quiet_run_operation r op args : a_dryRun args = true -> quiet (run_operation rec r op args).
Proof. intros H. unfold run_operation. preserves_auto. Qed.
Hint Resolve quiet_detect_changes quiet_run_operation : monad.

Lemma quiet_apply_operation r op args v pv :
  a_dryRun args = true -> quiet (apply_operation rec r op args v pv).
Proof. intros H. unfold apply_operation. preserves_auto. Qed.
Hint Resolve quiet_apply_operation : monad.

Lemma quiet_applyValue_body args : a_dryRun args = true -> quiet (applyValue_body rec args).
Proof. intros H. unfold applyValue_body. preserves_auto. Qed.
End rec.

Lemma quiet_applyValue fuel : forall args, a_dryRun args = true -> quiet (applyValue fuel args).
Proof.
  induction fuel as [|fuel IH]; intros args H; simpl; [apply preserves_no_fuel|].
  preserves_auto. by apply quiet_applyValue_body.
Qed.
(** ** The whole simulation *)

(** What Retrieve may not change: [p] projects the world to the southbound plane,
    the rest are the fields of the descriptors. *)
Section plane.
Context {P : Type} (p : World -> P) (w0 : World).

Definition reads_only (d : KVDescriptor) : Prop :=
  forall f c w, d_Retrieve d = Some f -> p (f c w).2 = p w.

Definition plane_kept (x : ExecSt) : Prop :=
  (forall l, listed (x_registry x) = Ok l -> Forall reads_only l) /\ p (x_world x) = p w0.
Definition keeps_plane (x x' : ExecSt) : Prop := plane_kept x -> plane_kept x'.

#[local] Instance keeps_plane_preorder : PreOrder keeps_plane.
Proof. split; [intros x Hx; exact Hx|]. intros x y z H1 H2 H. by apply H2, H1. Qed.

Abbreviation wsame m := (preserves keeps_plane m).

(** A computation that keeps the world and the descriptors. *)
Lemma quiet_wsame {A} (m : E A) : preserves (same (fun x => (x_world x, listed (x_registry x)))) m -> wsame m.
Proof.
  apply preserves_impl. unfold same, keeps_plane, plane_kept. intros x x' [= <- <-]. done.
Qed.
Lemma quiet_calm {A} (m : E A) : quiet m -> preserves (same (fun x => (x_world x, listed (x_registry x)))) m.
Proof. apply preserves_impl. unfold same, outside. by intros x x' [= _ <- _ _ <-]. Qed.

Lemma wsame_retrieve d c : reads_only d -> wsame (in_world (retrieve (newDescriptorHandler (Some d)) c)).
Proof.
  intros Hd x a x'. unfold in_world, zoom, retrieve, newDescriptorHandler.
  destruct (d_Retrieve d) as [f|] eqn:E; [|intros [= <- <-]; exact (fun H => H)].
  pose proof (Hd f c (x_world x) E) as Hf. destruct (f c (x_world x)) as [[vs err] w]. intros [= <- <-].
  intros [H1 H2]. split; [exact H1|]. cbn in *. congruence.
Qed.

Lemma wsame_in_handle {A} (m : M SaveSt A) : wsame (in_handle_and_graph m).
Proof. by apply quiet_wsame, preserves_zoom. Qed.
Lemma wsame_add_updated key : wsame (add_updated key).
Proof. apply quiet_wsame. unfold add_updated. preserves_auto. Qed.
Lemma wsame_xWrite b c : wsame (xWrite b c).
Proof. apply quiet_wsame. unfold xWrite. preserves_auto. Qed.
Hint Extern 1 (preserves keeps_plane _) => (apply quiet_wsame, quiet_calm; solve [eauto with monad]) : monad.
Hint Resolve wsame_in_handle wsame_add_updated wsame_xWrite : monad.

Lemma wsame_skipRefresh l o k : wsame (skipRefresh l o k).
Proof. unfold skipRefresh. preserves_auto. Qed.
Lemma wsame_refreshNodeState r st : wsame (refreshNodeState r st).
Proof. apply quiet_wsame, quiet_calm, quiet_updateNodeState. Qed.
Hint Resolve wsame_skipRefresh wsame_refreshNodeState : monad.
Lemma wsame_refreshAvailNode r o b k ks : wsame (refreshAvailNode r o b k ks).
Proof. unfold refreshAvailNode. preserves_auto. Qed.
Lemma wsame_refreshUnavailNode r ks : wsame (refreshUnavailNode r ks).
Proof. unfold refreshUnavailNode. preserves_auto. Qed.
Hint Resolve wsame_refreshAvailNode wsame_refreshUnavailNode : monad.
Lemma wsame_refresh_derived o b k ks kv : wsame (refresh_derived o b k ks kv).
Proof. unfold refresh_derived. preserves_auto. Qed.
Hint Resolve wsame_refresh_derived : monad.
Lemma wsame_refreshValue kv d ks : wsame (refreshValue kv d ks).
Proof. unfold refreshValue. preserves_auto. Qed.
Lemma wsame_retrieved_origin c kv : wsame (retrieved_origin c kv).
Proof. unfold retrieved_origin. preserves_auto. Qed.
Lemma wsame_correlate_values o d l : wsame (correlate_values o d l).
Proof. unfold correlate_values. preserves_auto. Qed.
Lemma wsame_unset_metadata ks r : wsame (unset_metadata ks r).
Proof. unfold unset_metadata. preserves_auto. Qed.
Hint Resolve wsame_refreshValue wsame_retrieved_origin wsame_correlate_values wsame_unset_metadata : monad.
Lemma wsame_refresh_retrieved ks c d rf kv : wsame (refresh_retrieved ks c d rf kv).
Proof. unfold refresh_retrieved. preserves_auto. Qed.
Hint Resolve wsame_refresh_retrieved : monad.
Lemma wsame_refresh_descriptor ks o rf d : reads_only d -> wsame (refresh_descriptor ks o rf d).
Proof.
  intros Hd. pose proof (wsame_retrieve d) as Hr. unfold refresh_descriptor. preserves_auto.
Qed.
Lemma wsame_refresh_missing rf r : wsame (refresh_missing rf r).
Proof. unfold refresh_missing. preserves_auto. Qed.
Hint Resolve wsame_refresh_descriptor wsame_refresh_missing : monad.
Lemma wsame_refresh_all ks o ds : Forall reads_only ds -> forall rf, wsame (foldM (refresh_descriptor ks o) ds rf).
Proof.
  induction 1 as [|d ds Hd _ IH]; intros rf; cbn [foldM]; [preserves_auto|].
  apply preserves_bind; [apply _|by apply wsame_refresh_descriptor|done].
Qed.
Lemma wsame_all_descriptors {B} (rest : list KVDescriptor -> E B) :
  (forall ds, Forall reads_only ds -> wsame (rest ds)) -> wsame (in_registry GetAllDescriptors ≫= rest).
Proof.
  intros Hrest x b x' E Hx. revert E. unfold mbind, M_bind.
  destruct (in_registry GetAllDescriptors x) as [[ds x1]|e|] eqn:E1; [|done..].
  assert (Forall reads_only ds) as Hds.
  { apply Hx. revert E1. unfold in_registry, zoom, listed.
    destruct (GetAllDescriptors (x_registry x)) as [[l reg]|e|]; [|done..]. by intros [= -> _]. }
  intros E. apply (Hrest ds Hds x1 b x' E).
  by eapply (quiet_wsame _ (quiet_calm _ quiet_GetAllDescriptors)).
Qed.
Lemma wsame_refreshGraph ks o b : wsame (refreshGraph ks o b).
Proof.
  apply wsame_all_descriptors. intros ds Hds. apply preserves_bind; [apply _|by apply wsame_refresh_all|]. preserves_auto.
Qed.
Hint Resolve wsame_refreshGraph : monad.

Lemma wsame_applyValue fuel args : a_dryRun args = true -> wsame (applyValue fuel args).
Proof. intros H. by apply quiet_wsame, quiet_calm, quiet_applyValue. Qed.
Hint Resolve wsame_applyValue : monad.

Lemma wsame_exec_values fuel txn isRetry vs : forall ap ex pv,
  wsame (exec_values fuel txn true isRetry vs ap ex pv).
Proof. induction vs as [|kv vs IH]; intros ap ex pv; simpl; preserves_auto. Qed.
Hint Resolve wsame_exec_values : monad.

Lemma wsame_revert_value fuel txn ap ex kv : wsame (revert_value fuel txn true ap ex kv).
Proof. unfold revert_value. preserves_auto. Qed.
Lemma wsame_xCaller w : wsame (xCaller w).
Proof. apply quiet_wsame. unfold xCaller. preserves_auto. Qed.
Hint Resolve wsame_revert_value wsame_xCaller : monad.

Lemma wsame_executeTransaction fuel txn : wsame (executeTransaction fuel txn true).
Proof. unfold executeTransaction. preserves_auto. Qed.

End plane.

(** ** Properties *)

(** C3: applying a value in a dry run, with everything that this triggers for
    derived and dependent values, does not touch the southbound plane, the graph
    or the set of values whose state changed: all it changes is the write
    handle, which is thrown away. *)
Theorem dry_run_no_effect (fuel : nat) (args : applyValueArgs) (x x' : ExecSt) (r : ValueRes) :
  a_dryRun args = true -> applyValue fuel args x = Ok (r, x') ->
  x_world x' = x_world x /\ x_graph x' = x_graph x /\ x_updatedStates x' = x_updatedStates x.
Proof.
  intros H Hr. pose proof (quiet_applyValue fuel args H x r x' Hr) as Hs.
  unfold same, outside in Hs. by injection Hs.
Qed.

(** C7: simulating a whole transaction, even one whose failure makes it refresh
    the graph and revert, executes no operation of any descriptor other than
    Retrieve, which a revert calls: when these read the southbound plane without
    changing it, [p] of the world, the plane stays as it is, whatever fields of
    the descriptors they refresh. *)
Theorem simulation_no_effect {P : Type} (p : World -> P) (fuel : nat) (txn : transaction) (x x' : ExecSt) (ops : Ops) :
  (forall ds, listed (x_registry x) = Ok ds -> Forall (reads_only p) ds) ->
  executeTransaction fuel txn true x = Ok (ops, x') -> p (x_world x') = p (x_world x).
Proof.
  intros Hd H. by apply (wsame_executeTransaction p (x_world x) fuel txn x ops x' H).
Qed.
End dry_run.

(** ** Witnesses *)

Definition demo_copy : ExecSt :=
  MkExec (s_graph demo_sched) (demo_handle demo_sched false true) (s_registry demo_sched)
    (s_world demo_sched) (s_updatedStates demo_sched) (s_nonRetryable demo_sched).

Definition demo_dry : applyValueArgs :=
  MkArgs (demo_txn demo_nb []) (MkKvForTxn "if/eth0" (Some 4) None FromNB false) "if/eth0"
    (NewMapBasedKeySet ["if/eth0"]) None false true false false (NewMapBasedKeySet []).

Definition returns {A} (o : outcome A) : bool := match o with Ok _ => true | _ => false end.

Example dry_run_no_effect_witness :
  exists r x', applyValue 5 demo_dry demo_copy = Ok (r, x') /\ a_dryRun demo_dry = true
    /\ x_world x' = x_world demo_copy /\ x_graph x' = x_graph demo_copy
    /\ x_updatedStates x' = x_updatedStates demo_copy.
Proof.
  assert (returns (applyValue 5 demo_dry demo_copy) = true) as Hr by (vm_compute; reflexivity).
  destruct (applyValue 5 demo_dry demo_copy) as [[r x']|msg|] eqn:E; [|discriminate Hr..].
  exists r, x'. split; [reflexivity|]. split; [reflexivity|].
  apply (dry_run_no_effect 5 demo_dry demo_copy x' r eq_refl E).
Defined.

(** The second value fails in the execution, not in the simulation. *)
Definition demo_revert_txn : transaction :=
  demo_txn (MkNbTxn NotResync false true false None true true "") [("if/eth0", Some 4); ("if/eth1", Some 13)].

Definition no_retrieve (d : KVDescriptor) : bool := match d_Retrieve d with None => true | Some _ => false end.

Example simulation_no_effect_witness :
  exists ops x', executeTransaction 5 demo_revert_txn true demo_copy = Ok (ops, x')
    /\ x_world x' = x_world demo_copy.
Proof.
  assert (returns (executeTransaction 5 demo_revert_txn true demo_copy) = true) as Hr
    by (vm_compute; reflexivity).
  destruct (executeTransaction 5 demo_revert_txn true demo_copy) as [[ops x']|msg|] eqn:E;
    [|discriminate Hr..].
  exists ops, x'. split; [reflexivity|].
  apply (simulation_no_effect id 5 demo_revert_txn demo_copy x' ops); [|exact E].
  assert (match listed (x_registry demo_copy) with Ok ds => forallb no_retrieve ds | _ => true end = true) as Hn
    by (vm_compute; reflexivity).
  clear E Hr. intros ds Hds. rewrite Hds in Hn. apply Forall_forall. intros d Hd f c w Hf. exfalso.
  apply list_elem_of_In in Hd. rewrite forallb_forall in Hn. specialize (Hn d Hd).
  unfold no_retrieve in Hn. rewrite Hf in Hn. discriminate Hn.
Defined.
