(* ===== verification/GraphSafe.v ===== *)
(** * The graph operations terminate

    Every operation of the graph runs with the fuel it is given, whatever the
    nodes are, and keeps a property of the nodes that depends only on their key,
    value and last update. *)
From S2P Require Import Prelude KeySet Monad Api Registry Flags EdgeLookup Graph GraphRW.
From S2P Require Import NodeUtils EdgeLookupFacts.

Section graph_safe.
Context {X : Ext} {MO : MapOrder}.

(** What the scheduler's recursion depends on in a node. *)
Definition core (n : node) : string * option Value * option Flag :=
  (n_key n, n_value n, n_flags n !! LastUpdateFlagIndex).

Context (P : string * option Value * option Flag -> Prop).

Definition node_in (n : node) : Prop := P (core n).
Definition graph_in (g : graphR) : Prop := map_Forall (fun _ n => node_in n) (g_heap g).

Abbreviation gsafe m := (safe graph_in m (fun _ => True)).

Lemma gsafe_node_at r : safe graph_in (node_at r) node_in.
Proof.
  unfold node_at. eapply safe_bind; [apply safe_get|]. intros g Hg.
  apply safe_deref. intros n Hn. by eapply Hg.
Qed.

Lemma graph_in_heap g h : map_Forall (fun _ n => node_in n) h -> graph_in (gset_heap h g).
Proof. done. Qed.

Lemma gsafe_node_upd r f : (forall n, node_in n -> node_in (f n)) -> gsafe (node_upd r f).
Proof.
  intros Hf. unfold node_upd. eapply safe_bind; [apply gsafe_node_at|]. intros n Hn.
  apply safe_modify. intros g Hg. apply graph_in_heap. apply map_Forall_insert_2; auto.
Qed.

(** An update of a node that keeps its core. *)
Lemma gsafe_keep r f : (forall n, core (f n) = core n) -> gsafe (node_upd r f).
Proof. intros Hf. apply gsafe_node_upd. intros n. unfold node_in. by rewrite Hf. Qed.

Lemma gsafe_modify f : (forall g, g_heap (f g) = g_heap g) -> gsafe (modify f).
Proof. intros Hf. apply safe_modify. intros g Hg. unfold graph_in. by rewrite Hf. Qed.

Lemma gsafe_gets {A} (f : graphR -> A) : gsafe (gets f).
Proof. by apply safe_gets. Qed.

Lemma gsafe_node_ref key : gsafe (node_ref key).
Proof. apply gsafe_gets. Qed.

Lemma gsafe_the_node o : gsafe (the_node o).
Proof. by apply safe_deref. Qed.

Lemma gsafe_add_unsaved key : gsafe (add_unsaved key).
Proof. by apply gsafe_modify. Qed.

Ltac gsafe_step :=
  first
  [ safe_step
  | apply gsafe_node_at | apply gsafe_node_ref | apply gsafe_the_node | apply gsafe_add_unsaved
  | apply gsafe_keep; done | apply gsafe_modify; done | apply gsafe_gets | done ].
Ltac gsafe_auto := repeat gsafe_step.

Lemma gsafe_syncMetadata r : gsafe (syncMetadata r).
Proof. unfold syncMetadata. gsafe_auto. Qed.

Lemma gsafe_SetMetadataMap r s : gsafe (SetMetadataMap r s).
Proof. unfold SetMetadataMap. gsafe_auto. apply gsafe_syncMetadata. Qed.

Lemma gsafe_SetMetadata r md : gsafe (SetMetadata r md).
Proof. unfold SetMetadata. gsafe_auto. apply gsafe_syncMetadata. Qed.

Lemma gsafe_SetLabel r l : gsafe (SetLabel r l).
Proof. by apply gsafe_keep. Qed.

Lemma gsafe_addToSources r k rel lab : gsafe (addToSources r k rel lab).
Proof. unfold addToSources. gsafe_auto. Qed.

Lemma gsafe_addToTargets r r2 i : gsafe (addToTargets r r2 i).
Proof. unfold addToTargets. gsafe_auto. apply gsafe_addToSources. Qed.

Lemma gsafe_removeFromTarget r k rel lab : gsafe (removeFromTarget r k rel lab).
Proof. unfold removeFromTarget. gsafe_auto. Qed.

Lemma gsafe_removeFromSources r rel lab k : gsafe (removeFromSources r rel lab k).
Proof. unfold removeFromSources. gsafe_auto. Qed.

Lemma gsafe_addDelEdges r td b : gsafe (addDelEdges r td b).
Proof. unfold addDelEdges. gsafe_auto. Qed.

Lemma gsafe_connect_targets r i td : gsafe (connect_targets r i td).
Proof. unfold connect_targets. gsafe_auto. apply gsafe_addToTargets. Qed.

Lemma gsafe_upd_target r i f : gsafe (upd_target r i f).
Proof. unfold upd_target. gsafe_auto. Qed.

Lemma gsafe_disconnect_targets r i : gsafe (disconnect_targets r i).
Proof. unfold disconnect_targets. gsafe_auto. apply gsafe_removeFromSources. Qed.

Lemma gsafe_st_equal r i td : gsafe (st_equal r i td).
Proof.
  unfold st_equal.
  gsafe_auto; first [apply gsafe_upd_target|apply gsafe_removeFromSources|apply gsafe_connect_targets].
Qed.

Lemma gsafe_st_update r i td o : gsafe (st_update r i td o).
Proof.
  unfold st_update. gsafe_auto;
    first [apply gsafe_upd_target|apply gsafe_disconnect_targets|apply gsafe_addDelEdges
          |apply gsafe_connect_targets].
Qed.

Lemma gsafe_st_new r i td : gsafe (st_new r i td).
Proof.
  unfold st_new. gsafe_auto;
    first [apply gsafe_upd_target|apply gsafe_addDelEdges|apply gsafe_connect_targets].
Qed.

Lemma gsafe_st_obsolete r i o : gsafe (st_obsolete r i o).
Proof.
  unfold st_obsolete. gsafe_auto; first [apply gsafe_disconnect_targets|apply gsafe_addDelEdges].
Qed.

(** Every round consumes a definition. *)
Lemma gsafe_set_targets_loop r fuel : forall i tds old,
  length tds + length old < fuel -> gsafe (set_targets_loop fuel r i tds old).
Proof.
  induction fuel as [|fuel IH]; intros i tds old Hf; [lia|].
  cbn [set_targets_loop]. destruct tds as [|td tds], old as [|o old]; simpl in Hf.
  - by apply safe_skip.
  - eapply safe_bind; [apply gsafe_st_obsolete|]. intros _ _. apply IH. simpl. lia.
  - eapply safe_bind; [apply gsafe_st_new|]. intros _ _. apply IH. simpl. lia.
  - destruct (Compare td o) as [[] order].
    { eapply safe_bind; [apply gsafe_st_equal|]. intros _ _. apply IH. lia. }
    destruct (order =? 0)%Z.
    { eapply safe_bind; [apply gsafe_st_update|]. intros _ _. apply IH. lia. }
    destruct (order =? -1)%Z.
    + eapply safe_bind; [apply gsafe_st_new|]. intros _ _. apply IH. simpl. lia.
    + eapply safe_bind; [apply gsafe_st_obsolete|]. intros _ _. apply IH. simpl. lia.
Qed.

Lemma gsafe_SetTargets r tds : gsafe (SetTargets r tds).
Proof.
  unfold SetTargets. gsafe_auto. apply gsafe_set_targets_loop. lia.
Qed.

Lemma gsafe_connect_source key r x : gsafe (connect_source key r x).
Proof. unfold connect_source. gsafe_auto. apply gsafe_addToTargets. Qed.

Lemma gsafe_SetNode key : P (key, None, None) -> gsafe (SetNode key).
Proof.
  intros HP. unfold SetNode. gsafe_auto; [|apply gsafe_connect_source].
  apply safe_modify. intros g Hg. unfold graph_in. simpl. by apply map_Forall_insert_2.
Qed.

Lemma gsafe_disconnect_source key x : gsafe (disconnect_source key x).
Proof. unfold disconnect_source. gsafe_auto. apply gsafe_removeFromTarget. Qed.

Lemma gsafe_DeleteNode b key : gsafe (DeleteNode b key).
Proof.
  unfold DeleteNode. gsafe_auto; first [apply gsafe_SetTargets|apply gsafe_disconnect_source].
Qed.

Lemma gsafe_SetValue r v :
  (forall n, node_in n -> P (n_key n, v, n_flags n !! LastUpdateFlagIndex)) -> gsafe (SetValue r v).
Proof. intros H. apply gsafe_node_upd. intros n Hn. exact (H n Hn). Qed.

Lemma set_flags_lookup fs flags i :
  (forall f, f ∈ fs -> flag_GetIndex f <> i) -> set_flags fs flags !! i = flags !! i.
Proof.
  unfold set_flags. revert flags. induction fs as [|f fs IH]; intros flags H; simpl; [done|].
  rewrite IH by (intros; apply H; by apply elem_of_cons; right).
  rewrite lookup_insert_ne; [done|]. apply H. by apply elem_of_cons; left.
Qed.

Lemma del_flags_lookup idxs flags i :
  i ∉ idxs -> del_flags idxs flags !! i = flags !! i.
Proof.
  unfold del_flags. revert flags. induction idxs as [|j idxs IH]; intros flags H; simpl; [done|].
  apply not_elem_of_cons in H as [H1 H2]. rewrite IH by done. by rewrite lookup_delete_ne.
Qed.

(** Flags other than the last update. *)
Lemma gsafe_SetFlag r f : flag_GetIndex f <> LastUpdateFlagIndex -> gsafe (SetFlags r [f]).
Proof.
  intros Hf. apply gsafe_keep. intros n. unfold core. simpl. rewrite lookup_insert_ne; done.
Qed.

Lemma gsafe_SetLastUpdate r u :
  (forall n, node_in n -> P (n_key n, n_value n, Some (LastUpdateFlag u))) ->
  gsafe (SetFlags r [LastUpdateFlag u]).
Proof.
  intros H. apply gsafe_node_upd. intros n Hn. unfold node_in, core. simpl.
  rewrite lookup_insert_eq. by apply H.
Qed.

Lemma gsafe_DelFlags r idxs : LastUpdateFlagIndex ∉ idxs -> gsafe (DelFlags r idxs).
Proof.
  intros Hf. apply gsafe_keep. intros n. unfold core. simpl. by rewrite del_flags_lookup.
Qed.

(** The overlay of the edge lookup is made and saved, or the slices do not fit. *)
Lemma ofuel_makeOverlay el : ofuel (makeOverlay el) (fun _ => True).
Proof. pose proof (makeOverlay_cases el) as H. by destruct (makeOverlay el). Qed.
Lemma ofuel_saveOverlay over el : ofuel (saveOverlay over el) (fun _ => True).
Proof. pose proof (saveOverlay_cases over el) as H. by destruct (saveOverlay over el). Qed.

(** ** Saving and releasing a handle

    Both the graph of the handle and the one it was taken from keep the property. *)
Definition save_in (s : SaveSt) : Prop := graph_in (rw_graph s.1) /\ graph_in (kg_graph s.2).

Abbreviation ssafe m := (safe save_in m (fun _ => True)).

Lemma ssafe_in_handle {A} (m : G A) Q : safe graph_in m Q -> safe save_in (in_handle m) Q.
Proof. intros H. eapply safe_zoom; [done|by intros ? []|]. intros s t [_ Hs] Ht. by split. Qed.
Lemma ssafe_in_dest {A} (m : G A) Q : safe graph_in m Q -> safe save_in (in_dest m) Q.
Proof. intros H. eapply safe_zoom; [done|by intros ? []|]. intros s t [Hs _] Ht. by split. Qed.

Lemma ssafe_time : ssafe (in_clock time_now).
Proof.
  eapply (safe_zoom _ (fun k => graph_in (kg_graph k))); [|by intros ? []|intros s t [Hs _] Ht; by split].
  intros k Hk. by split.
Qed.

Lemma ssafe_modify f : (forall s, save_in s -> save_in (f s)) -> ssafe (modify f).
Proof. by apply safe_modify. Qed.

Lemma gsafe_alloc n : node_in n -> gsafe (modify (galloc n)).
Proof. intros Hn. apply safe_modify. intros g Hg. unfold graph_in. cbn. by apply map_Forall_insert_2. Qed.

Ltac ssafe_leaf :=
  first
  [ safe_step | apply ssafe_time
  | apply ssafe_in_handle; gsafe_auto | apply ssafe_in_dest; gsafe_auto
  | apply ssafe_modify; intros ? []; split; done
  | done ].
Ltac ssafe_step :=
  lazymatch goal with
  | |- safe _ (_ ≫= _) _ => apply (safe_bind _ _ _ (fun _ => True)); [|intros ? _]
  | _ => ssafe_leaf
  end.
Ltac ssafe_auto := repeat ssafe_step.

Lemma ssafe_save_deleted key : ssafe (save_deleted key).
Proof. unfold save_deleted. ssafe_auto. Qed.

Lemma ssafe_save_copy r n : node_in n -> safe save_in (save_copy r n) node_in.
Proof.
  intros Hn. unfold save_copy. cbv zeta. apply (safe_bind _ _ _ (fun _ => True)).
  { apply ssafe_in_dest. eapply safe_bind; [apply gsafe_gets|]. intros dr _.
    apply (safe_bind _ _ _ (fun _ => True)); [by apply gsafe_alloc|]. intros _ _.
    apply (safe_bind _ _ _ (fun _ => True)); [apply gsafe_syncMetadata|]. intros _ _. by apply safe_ret. }
  intros dr _. apply (safe_bind _ _ _ (fun _ => True)).
  { eapply safe_conseq; [apply ssafe_in_dest, gsafe_node_at|done]. }
  intros synced _. apply (safe_bind _ _ _ (fun _ => True)); [by apply ssafe_in_dest, gsafe_keep|]. intros _ _.
  by apply safe_ret.
Qed.

Lemma ssafe_save_key key : ssafe (save_key key).
Proof.
  unfold save_key. eapply safe_bind; [apply safe_get|]. intros s _. cbv zeta.
  destruct (g_nodes _ !! key) as [r|]; [|ssafe_auto; apply ssafe_save_deleted].
  eapply safe_bind; [apply ssafe_in_handle, gsafe_node_at|]. intros n Hn.
  destruct (_ && _); [by apply safe_skip|]. apply (safe_bind _ _ _ (fun _ => True)); [ssafe_auto|]. intros _ _.
  eapply (safe_bind _ _ _ node_in); [destruct (rw_wInPlace s.1); [by apply safe_ret|by apply ssafe_save_copy]|].
  intros n' Hn'. by apply ssafe_in_handle, gsafe_node_upd.
Qed.

Lemma ssafe_Save : ssafe Save.
Proof.
  unfold Save. eapply safe_bind; [apply safe_get|]. intros s [Hw Hg].
  apply (safe_bind _ _ _ (fun _ => True)).
  { apply safe_whenM. cbv zeta. apply (safe_bind _ _ _ (fun _ => True)).
    { apply ssafe_modify. intros s' [Hs' _]. split; [done|exact Hg]. }
    intros _ _. apply (safe_bind _ _ _ (fun _ => True)); [apply safe_lift, ofuel_saveOverlay|]. intros saved _. ssafe_auto. }
  intros _ _. apply (safe_bind _ _ _ (fun _ => True)); [apply safe_forM; intros key _; apply ssafe_save_key|]. intros _ _.
  apply (safe_bind _ _ _ (fun _ => True)); [ssafe_auto|]. intros _ _. apply safe_whenM. ssafe_auto.
Qed.

Lemma ssafe_recordNode r b : ssafe (recordNode r b).
Proof.
  unfold recordNode. eapply safe_bind; [apply ssafe_in_dest, gsafe_node_at|]. intros n _.
  apply (safe_bind _ _ _ (fun _ => True)); [by apply ssafe_in_dest, gsafe_keep|]. intros _ _.
  apply (safe_bind _ _ _ (fun _ => True)); [apply ssafe_time|]. intros now _.
  eapply safe_bind; [apply safe_get|]. intros s _.
  apply (safe_bind _ _ _ (fun _ => True)); [|intros fields _; by apply safe_ret].
  apply safe_lift. unfold getMetadataFields. destruct (n_metadataAdded n); [|done]. by destruct (_ !! _).
Qed.

Lemma ssafe_record_key key b : ssafe (record_key key b).
Proof.
  unfold record_key, set_timeline. ssafe_auto; try apply ssafe_recordNode.
Qed.

Lemma ssafe_Release : ssafe Release.
Proof.
  unfold Release. eapply safe_bind; [apply safe_get|]. intros s0 _.
  apply (safe_bind _ _ _ (fun _ => True)); [apply safe_whenM, ssafe_Save|]. intros _ _.
  apply (safe_bind _ _ _ (fun _ => True)); [apply safe_whenM; ssafe_auto|]. intros _ _.
  eapply safe_bind; [apply safe_get|]. intros s _. destruct (_ && _); [|by apply safe_skip].
  apply (safe_bind _ _ _ (fun _ => True)).
  { apply safe_forM. intros key _. destruct (_ !! _); [apply ssafe_record_key|by apply safe_skip]. }
  intros _ _. apply (safe_bind _ _ _ (fun _ => True)); [apply ssafe_time|]. intros now _.
  eapply safe_bind; [apply safe_get|]. intros s' _. destruct (_ <=? _)%Z; ssafe_auto.
Qed.

(** A new handle on a graph. *)
Lemma graph_in_Write k inPlace record : graph_in (kg_graph k) ->
  ofuel (Write k inPlace record) (fun w => graph_in (rw_graph w)).
Proof.
  intros Hk. unfold Write, newGraphRW, copyNodesOnly. destruct inPlace; [exact Hk|].
  pose proof (ofuel_makeOverlay (g_edgeLookup (kg_graph k))) as H. destruct (makeOverlay _) as [over|msg|]; [|done..].
  unfold graph_in. cbn. apply map_Forall_fmap. eapply map_Forall_impl; [exact Hk|]. by intros i n Hn.
Qed.

(** ** Reading the graph *)

Lemma ofuel_pnode g r : graph_in g -> ofuel (pnode g r) (fun n => node_in n /\ exists i, g_heap g !! i = Some n).
Proof.
  intros Hg. unfold pnode. destruct r as [r|]; simpl; [|done].
  destruct (g_heap g !! r) as [n|] eqn:E; simpl; [|done]. split; [by eapply Hg|by exists r].
Qed.

Lemma ofuel_pnodes g rs : graph_in g -> ofuel (pnodes g rs) (Forall node_in).
Proof.
  intros Hg. induction rs as [|r rs IH]; simpl; [done|].
  eapply ofuel_bind; [by apply ofuel_pnode|]. intros n [Hn _].
  eapply ofuel_bind; [exact IH|]. intros ns Hns. by constructor.
Qed.

Lemma ofuel_runtime_nodes g rts :
  graph_in g -> ofuel (runtime_nodes g rts) (Forall (fun p => Forall node_in p.2)).
Proof.
  intros Hg. induction rts as [|rt rts IH]; simpl; [done|].
  eapply ofuel_bind; [by apply ofuel_pnodes|]. intros ns Hns.
  eapply ofuel_bind; [exact IH|]. intros l Hl. by constructor.
Qed.

Lemma ofuel_getDerivedNodes g n : graph_in g -> ofuel (getDerivedNodes g n) (Forall node_in).
Proof.
  intros Hg. unfold getDerivedNodes, targets_of.
  eapply ofuel_bind; [by apply ofuel_runtime_nodes|]. intros l Hl. simpl.
  rewrite Forall_concat, Forall_fmap. by eapply Forall_impl.
Qed.

Lemma ofuel_getDerivedKeys g n : graph_in g -> ofuel (getDerivedKeys g n) (fun _ => True).
Proof.
  intros Hg. unfold getDerivedKeys. by eapply ofuel_bind; [by apply ofuel_getDerivedNodes|].
Qed.

Lemma ofuel_getValueDetails g n : graph_in g -> ofuel (getValueDetails g n) (fun _ => True).
Proof.
  intros Hg. unfold getValueDetails.
  destruct (getNodeState n), (getNodeError n).2 as [[]|], n as [n|]; try done;
    (eapply ofuel_bind; [by apply ofuel_runtime_nodes|done]).
Qed.

(** *** Readiness: the recursion follows distinct keys *)

Definition heap_keys (g : graphR) : gset string :=
  list_to_set (n_key <$> (map_to_list (g_heap g)).*2).

Lemma heap_keys_spec g i n : g_heap g !! i = Some n -> n_key n ∈ heap_keys g.
Proof.
  intros Hi. apply elem_of_list_to_set, list_elem_of_fmap_2, list_elem_of_fmap.
  exists (i, n). by rewrite elem_of_map_to_list.
Qed.

Lemma heap_keys_size g : size (heap_keys g) <= size (g_heap g).
Proof.
  unfold heap_keys. rewrite <- length_map_to_list.
  rewrite <- (length_fmap snd), <- (length_fmap n_key).
  apply submseteq_length, NoDup_submseteq; [apply NoDup_elements|].
  intros k. by rewrite elem_of_elements, elem_of_list_to_set.
Qed.

Section iter.
Context {St : Type} (cb : option node -> string -> St -> outcome (bool * bool * St)) (g : graphR).
Context (Hg : graph_in g).
Context (Hcb : forall n l st, match n with
  | Some n => exists i, g_heap g !! i = Some n | None => True end -> ofuel (cb n l st) (fun _ => True)).

Lemma ofuel_iter_label label keys : forall st, ofuel (iter_label cb g label keys st) (fun _ => True).
Proof.
  induction keys as [|k keys IH]; intros st; simpl; [done|].
  eapply ofuel_bind; [by apply ofuel_pnode|]. intros n [_ Hn].
  eapply ofuel_bind; [by apply (Hcb (Some n))|]. intros [[skip abort] st'] _.
  destruct abort; [done|]. destruct skip; [done|]. apply IH.
Qed.

Lemma ofuel_iter_targets ts : forall st, ofuel (iter_targets cb g ts st) (fun _ => True).
Proof.
  induction ts as [|t ts IH]; intros st; simpl; [done|].
  eapply ofuel_bind; [apply ofuel_iter_label|]. intros [abort st'] _.
  destruct abort; [done|]. eapply ofuel_bind; [by apply (Hcb None)|]. intros [[a b] st''] _.
  destruct b; [done|]. apply IH.
Qed.
End iter.

Lemma ofuel_isNodeReadyRec g (K : gset string) (Hg : graph_in g) (HK : heap_keys g ⊆ K) fuel :
  forall n depth visited b,
  n_key n ∈ K -> dom visited ⊆ K -> size K < fuel + size (dom visited) ->
  ofuel (isNodeReadyRec fuel g n depth visited b) (fun _ => True).
Proof.
  induction fuel as [|fuel IH]; intros n depth visited b Hn Hv Hs; simpl.
  { apply subseteq_size in Hv. lia. }
  destruct (visited !! n_key n) as [d|] eqn:E; [done|].
  apply not_elem_of_dom in E.
  eapply ofuel_bind; [|done].
  apply ofuel_iter_targets; [done|]. intros t l st Ht.
  destruct t as [t|]; simpl; [|by destruct (rs_satisfiedLabel st)].
  destruct (decide _); [done|]. destruct (_ && _); [done|].
  eapply ofuel_bind; [apply IH|].
  - destruct Ht as [i Hi]. apply HK. by eapply heap_keys_spec.
  - rewrite dom_insert_L. set_solver.
  - rewrite dom_insert_L, size_union by set_solver. rewrite size_singleton. lia.
  - intros [ready cyc] _. by destruct (_ && _).
Qed.

Lemma ofuel_isNodeReady g n : graph_in g -> ofuel (isNodeReady g n) (fun _ => True).
Proof.
  intros Hg. unfold isNodeReady. destruct (decide _); [done|].
  eapply ofuel_bind; [|done].
  apply (ofuel_isNodeReadyRec g ({[n_key n]} ∪ heap_keys g)); [done|set_solver|set_solver|set_solver|].
  unfold ready_fuel. rewrite dom_empty_L, size_empty.
  pose proof (heap_keys_size g).
  assert (size ({[n_key n]} ∪ heap_keys g : gset string) <= 1 + size (heap_keys g)).
  { rewrite size_union_alt, size_singleton. apply Nat.add_le_mono_l, subseteq_size. set_solver. }
  lia.
Qed.
End graph_safe.
