(* ===== verification/Termination.v ===== *)
(** * Applying a value terminates

    [applyValue] recurses into derived values and into dependent values.  The
    keys on a branch of the recursion are distinct, so the recursion ends when
    the keys that can occur are finitely many. *)
From S2P Require Import Prelude KeySet Deps Monad Api Registry Flags EdgeLookup Graph GraphRW.
From S2P Require Import NodeUtils Descriptor TxnOps ExecState Refresh TxnExec GraphSafe.
From S2P Require Import Scheduler TxnProcess Plugin Demo.

Section termination.
Context {X : Ext} {MO : MapOrder}.

(** The keys and values that can occur: deriving values does not lead out. *)
Record universe := MkUniverse {
  u_keys : gset string;
  u_vals : option Value -> Prop
}.

Context (U : universe).

Definition kv_in (key : string) (value : option Value) : Prop := key ∈ u_keys U /\ u_vals U value.

Definition desc_in (d : KVDescriptor) : Prop :=
  forall k v kv, kv_in k v -> kv ∈ derivedValues (Some d) k v -> kv_in (kvp_Key kv) (kvp_Value kv).

(** Nor does retrieving values. *)
Definition retrieves_in (d : KVDescriptor) : Prop :=
  forall f correlate w, d_Retrieve d = Some f ->
    Forall (fun kv => kv_in (kvm_Key kv) (kvm_Value kv)) (f correlate w).1.1.

Definition core_in (c : string * option Value * option Flag) : Prop :=
  kv_in c.1.1 c.1.2
  /\ match c.2 with Some (LastUpdateFlag u) => u_vals U (lu_value u) | _ => True end.

Record reg_in (reg : registry) : Prop := {
  ri_descriptors : map_Forall (fun _ d => desc_in d) (reg_descriptors reg);
  ri_cache : Forall (fun e => desc_in (ce_descriptor e.2)) (reg_keyCache reg);
  ri_retrieves : map_Forall (fun _ d => retrieves_in d) (reg_descriptors reg);
  ri_list : Forall (fun d => desc_in d /\ retrieves_in d) (reg_descriptorList reg)
}.

(** The graph of the handle, and the one that it was taken from. *)
Record st_in (x : ExecSt) : Prop := {
  si_graph : graph_in core_in (cur_graph x);
  si_registry : reg_in (x_registry x);
  si_saved : graph_in core_in (kg_graph (x_graph x))
}.

(** Deletions can occur. *)
Context (Hnil : u_vals U None).

Abbreviation esafe m Q := (safe st_in m Q).
Abbreviation trivial m := (safe st_in m (fun _ => True)).

(** ** Components of the state *)

Lemma esafe_in_rw {A} (m : G A) Q : safe (graph_in core_in) m Q -> esafe (in_rw m) Q.
Proof. intros Hm. eapply safe_zoom; [done|by intros ? []|]. intros s t [] Ht. by constructor. Qed.

Lemma esafe_in_world {A} (m : M World A) Q : safe (fun _ => True) m Q -> esafe (in_world m) Q.
Proof. intros Hm. eapply safe_zoom; [done|done|]. intros s t [] Ht. by constructor. Qed.

Lemma esafe_in_graph {A} (f : graphR -> outcome A) Q :
  (forall g, graph_in core_in g -> ofuel (f g) Q) -> esafe (in_graph f) Q.
Proof.
  intros H. unfold in_graph. eapply safe_bind; [apply safe_get|]. intros x [Hx _ _].
  by apply safe_lift, H.
Qed.

Lemma esafe_rnode r : esafe (rnode r) (node_in core_in).
Proof. apply esafe_in_rw, gsafe_node_at. Qed.

Lemma find_descriptor_in key names descs :
  map_Forall (fun _ d => desc_in d) descs ->
  forall kd, (forall d, kd = Some d -> desc_in d) ->
  ofuel (find_descriptor key names descs kd) (fun r => forall d, r = Some d -> desc_in d).
Proof.
  intros Hd. induction names as [|n names IH]; intros kd Hkd; simpl; [done|].
  destruct (descs !! n) as [d|] eqn:E; [|by apply IH].
  destruct (d_KeySelector d key); [|by apply IH].
  destruct kd; simpl; [done|]. apply IH. intros d' [= <-]. by eapply Hd.
Qed.

Lemma evict_in reg : reg_in reg -> reg_in (evict reg).
Proof.
  intros [H1 H2 H3 H4]. unfold evict. destruct (_ =? _); [|by constructor].
  destruct (last _) as [[id e]|]; [|by constructor]. constructor; simpl; [done| |done..].
  unfold remove_elem. by apply Forall_filter.
Qed.

Lemma safe_GetDescriptorForKey key :
  safe reg_in (GetDescriptorForKey key) (fun r => forall d, r = Some d -> desc_in d).
Proof.
  intros reg Hreg. unfold GetDescriptorForKey.
  destruct (reg_keyToCacheEntry reg !! key) as [id|].
  - destruct (find_elem id (reg_keyCache reg)) as [e|] eqn:E; simpl; [|done].
    destruct Hreg as [H1 H2 H3 H4].
    assert (desc_in (ce_descriptor e)) as He.
    { unfold find_elem in E. destruct (list_find _ _) as [[i p]|] eqn:Ef; simplify_eq/=.
      apply list_find_Some in Ef as (Hi & _). rewrite Forall_lookup in H2. by apply (H2 i p). }
    split; [by intros d [= <-]|]. constructor; simpl; [done| |done..].
    constructor; [done|]. by apply Forall_filter.
  - pose proof (evict_in reg Hreg) as [H1 H2 H3 H4].
    pose proof (find_descriptor_in key (map_order (dom (reg_descriptors (evict reg))))
      (reg_descriptors (evict reg)) H1 None ltac:(done)) as Hf.
    destruct (find_descriptor _ _ _ _) as [[d|]|e|]; simpl in *; [|by split; [|constructor]|done..].
    split; [done|]. constructor; simpl; [done| |done..]. constructor; [by apply Hf|done].
Qed.

Lemma esafe_descriptor_for key : esafe (descriptor_for key) (fun r => forall d, r = Some d -> desc_in d).
Proof.
  eapply safe_zoom; [apply safe_GetDescriptorForKey|by intros ? []|].
  intros s t [] Ht. by constructor.
Qed.

Lemma esafe_xGetNode key : trivial (xGetNode key).
Proof. by apply safe_gets. Qed.

Lemma esafe_xSetNode key : key ∈ u_keys U -> trivial (xSetNode key).
Proof. intros Hk. apply esafe_in_rw, gsafe_SetNode. by repeat split. Qed.

Lemma esafe_xDeleteNode key : trivial (xDeleteNode key).
Proof.
  unfold xDeleteNode. eapply safe_bind; [apply safe_get|]. intros x _.
  eapply safe_bind; [apply esafe_in_rw, gsafe_DeleteNode|]. intros _ _. by apply safe_skip.
Qed.

Lemma esafe_SetFlag r f : flag_GetIndex f <> LastUpdateFlagIndex -> trivial (in_rw (SetFlags r [f])).
Proof. intros. by apply esafe_in_rw, gsafe_SetFlag. Qed.

Lemma esafe_DelFlags r idxs : LastUpdateFlagIndex ∉ idxs -> trivial (in_rw (DelFlags r idxs)).
Proof. intros. by apply esafe_in_rw, gsafe_DelFlags. Qed.

Lemma esafe_SetTargets r tds : trivial (in_rw (SetTargets r tds)).
Proof. apply esafe_in_rw, gsafe_SetTargets. Qed.

Lemma esafe_SetValue r v : u_vals U v -> trivial (in_rw (SetValue r v)).
Proof. intros Hv. apply esafe_in_rw, gsafe_SetValue. intros n [[Hk _] Hu]. by repeat split. Qed.

Lemma esafe_SetLastUpdate r u : u_vals U (lu_value u) -> trivial (in_rw (SetFlags r [LastUpdateFlag u])).
Proof. intros Hv. apply esafe_in_rw, gsafe_SetLastUpdate. intros n [Hkv _]. by split. Qed.

Lemma esafe_SetMetadata r md : trivial (in_rw (SetMetadata r md)).
Proof. apply esafe_in_rw, gsafe_SetMetadata. Qed.
Lemma esafe_SetMetadataMap r s : trivial (in_rw (SetMetadataMap r s)).
Proof. apply esafe_in_rw, gsafe_SetMetadataMap. Qed.
Lemma esafe_SetLabel r l : trivial (in_rw (SetLabel r l)).
Proof. apply esafe_in_rw, gsafe_SetLabel. Qed.

Lemma esafe_add_updated key : trivial (add_updated key).
Proof. apply safe_modify. intros x []. by constructor. Qed.

Lemma esafe_handler (m : M World (option Metadata * option error)) :
  (forall w, ofuel (m w) (fun _ => True)) -> trivial (in_world m).
Proof.
  intros H. apply esafe_in_world. intros w _. eapply ofuel_mono; [apply H|]. done.
Qed.

Lemma esafe_create h k v : trivial (in_world (create h k v)).
Proof.
  apply esafe_handler. intros w. destruct h as [d|]; simpl; [|done].
  destruct (d_Create d) as [f|]; simpl; [|done]. by destruct (f k v w) as [[? ?] ?].
Qed.

Lemma esafe_update h k v v' md : trivial (in_world (update h k v v' md)).
Proof.
  apply esafe_handler. intros w. destruct h as [d|]; simpl; [|done].
  destruct (d_Update d) as [f|]; simpl; [|done]. by destruct (f k v v' md w) as [[? ?] ?].
Qed.

Lemma esafe_delete h k v md : trivial (in_world (delete_ h k v md)).
Proof.
  apply esafe_in_world. intros w _. destruct h as [d|]; simpl; [|done].
  destruct (d_Delete d) as [f|]; simpl; [|done]. by destruct (f k v md w) as [? ?].
Qed.

Lemma node_in_kv n : node_in core_in n -> kv_in (n_key n) (n_value n).
Proof. by intros [H _]. Qed.

Lemma node_in_last_update n u :
  node_in core_in n -> getNodeLastUpdate (Some n) = Some u -> u_vals U (lu_value u).
Proof.
  intros [_ H]. unfold getNodeLastUpdate, core, GetFlag in *. simpl in *.
  destruct (n_flags n !! LastUpdateFlagIndex) as [[]|]; intros [= <-]. done.
Qed.
(** ** The operations of the execution *)

Lemma esafe_in_graph_ready n : trivial (in_graph (fun g => isNodeReady g n)).
Proof. apply esafe_in_graph. intros g Hg. by eapply ofuel_isNodeReady. Qed.
Lemma esafe_in_graph_details n : trivial (in_graph (fun g => getValueDetails g n)).
Proof. apply esafe_in_graph. intros g Hg. by eapply ofuel_getValueDetails. Qed.
Lemma esafe_in_graph_derived n : esafe (in_graph (fun g => getDerivedNodes g n)) (Forall (node_in core_in)).
Proof. apply esafe_in_graph. intros g Hg. by apply ofuel_getDerivedNodes. Qed.
Lemma esafe_in_graph_keys n : trivial (in_graph (fun g => getDerivedKeys g n)).
Proof. apply esafe_in_graph. intros g Hg. by eapply ofuel_getDerivedKeys. Qed.

Lemma esafe_updateNodeState r st : trivial (updateNodeState r st).
Proof.
  unfold updateNodeState. eapply safe_bind; [apply esafe_rnode|]. intros n _.
  destruct (decide _); [by apply safe_skip|]. by apply esafe_SetFlag.
Qed.

Ltac esafe_leaf :=
  first
  [ safe_step
  | apply esafe_rnode | apply esafe_descriptor_for | apply esafe_xGetNode | apply esafe_xDeleteNode
  | apply esafe_updateNodeState | apply esafe_SetTargets | apply esafe_SetMetadata
  | apply esafe_SetMetadataMap | apply esafe_SetLabel | apply esafe_add_updated
  | apply esafe_create | apply esafe_update | apply esafe_delete
  | apply esafe_in_graph_ready | apply esafe_in_graph_details | apply esafe_in_graph_derived
  | apply esafe_in_graph_keys
  | apply esafe_SetFlag; done
  | apply esafe_DelFlags; by repeat (apply not_elem_of_cons; split); [..|apply not_elem_of_nil]
  | done ].
Ltac esafe_step :=
  lazymatch goal with
  | |- safe _ (rnode _ ≫= _) _ => eapply safe_bind; [apply esafe_rnode|intros ? ?]
  | |- safe _ (descriptor_for _ ≫= _) _ => eapply safe_bind; [apply esafe_descriptor_for|intros ? ?]
  | |- safe _ (get ≫= _) _ => eapply safe_bind; [apply safe_get|intros ? ?]
  | |- safe _ (_ ≫= _) _ => apply (safe_bind _ _ _ (fun _ => True)); [|intros ? _]
  | _ => esafe_leaf
  end.
Ltac esafe_auto := repeat esafe_step.

Lemma esafe_the_nb t : trivial (the_nb t).
Proof. by apply safe_deref. Qed.
Lemma esafe_the_retry t : trivial (the_retry t).
Proof. by apply safe_deref. Qed.

Lemma esafe_preRecordTxnOp args n : trivial (preRecordTxnOp args n).
Proof. unfold preRecordTxnOp. esafe_auto. Qed.

Lemma esafe_markFailedValue r args err b : trivial (markFailedValue r args err b).
Proof. unfold markFailedValue, consider_retry. esafe_auto; first [apply esafe_the_nb|apply esafe_the_retry|idtac]. Qed.

Lemma esafe_own_error args r err : trivial (own_error args r err).
Proof. unfold own_error. esafe_auto. Qed.

Lemma esafe_failed_op args r op err b : trivial (failed_op args r op err b).
Proof. unfold failed_op. esafe_auto; [apply esafe_markFailedValue|apply esafe_own_error]. Qed.

Lemma esafe_invalid_op args r op err : trivial (invalid_op args r op err).
Proof. unfold invalid_op. esafe_auto. apply esafe_own_error. Qed.

Lemma esafe_validDerivedKV kv : trivial (validDerivedKV kv).
Proof. unfold validDerivedKV. esafe_auto. Qed.

Lemma esafe_determine n : trivial (determineDepUpdateOperation n).
Proof. unfold determineDepUpdateOperation. esafe_auto. Qed.

Lemma esafe_value_view n : trivial (value_view n).
Proof. unfold value_view. esafe_auto. Qed.

Lemma esafe_dep_nodes r : trivial (dep_nodes r).
Proof.
  unfold dep_nodes. apply (safe_bind _ _ _ (fun _ => True)).
  { apply esafe_in_rw. unfold GetSources. eapply safe_bind; [apply gsafe_node_at|]. intros n _.
    eapply safe_bind; [apply safe_get|]. intros g _. by apply safe_ret. }
  intros srcs _. eapply safe_bind.
  { apply (safe_mapM _ _ (fun _ => True)). intros ref _. apply esafe_in_rw, gsafe_the_node. }
  intros refs _. eapply safe_bind.
  { apply (safe_mapM _ _ (fun _ => True)). intros ref _. esafe_auto. }
  intros keyed _. by apply safe_ret.
Qed.

Lemma esafe_new_last_update op args u :
  u_vals U (kv_value (a_kv args)) -> esafe (new_last_update op args u) (fun v => u_vals U (lu_value v)).
Proof.
  intros Hv. unfold new_last_update. destruct (isNBTxn _).
  - eapply safe_bind; [apply esafe_the_nb|]. intros nb _. by apply safe_ret.
  - destruct u as [u|]; [by apply safe_ret|]. destruct (a_isDerived args); [|by apply safe_ret].
    eapply safe_bind; [apply esafe_xGetNode|]. intros parent _. apply safe_ret.
    by destruct (getNodeLastUpdate parent).
Qed.

Lemma elem_of_sort_by {A K} (cmp : K -> K -> comparison) (key : A -> K) l x :
  x ∈ sort_by cmp key l <-> x ∈ l.
Proof. by rewrite sort_by_perm. Qed.

(** The keys of derived values. *)
Lemma kv_keys_spec l :
  ks_wf (kv_keys l) /\ ~ is_singleton (kv_keys l)
  /\ forall k, k ∈ ks_elems (kv_keys l) -> exists kv, kv ∈ l /\ kvp_Key kv = k.
Proof.
  unfold kv_keys.
  assert (forall l' acc, ks_wf acc -> ~ is_singleton acc ->
    (forall k, k ∈ ks_elems acc -> exists kv, kv ∈ l /\ kvp_Key kv = k) ->
    (forall kv, kv ∈ l' -> kv ∈ l) ->
    let r := fold_left (fun acc kv => (ks_Add acc (kvp_Key kv)).1) l' acc in
    ks_wf r /\ ~ is_singleton r
    /\ forall k, k ∈ ks_elems r -> exists kv, kv ∈ l /\ kvp_Key kv = k) as Hgen.
  { induction l' as [|kv l' IH]; intros acc Hwf Hs Hk Hl; simpl; [done|].
    destruct (ks_Add_exact acc (kvp_Key kv) Hwf Hs) as (Hwf' & Hs' & He & _).
    apply IH; [done|done| |].
    - intros k. rewrite He, elem_of_union, elem_of_singleton. intros [->|Hin]; [|by apply Hk].
      exists kv. split; [apply Hl; by apply elem_of_cons; left|done].
    - intros kv' Hin. apply Hl. by apply elem_of_cons; right. }
  apply Hgen; [| |by intros k ?%elem_of_empty|done].
  - by apply SliceFacts.NewSliceBasedKeySet_spec.
  - by intros [].
Qed.
(** ** The recursion *)

Definition kvs_in (l : list kvForTxn) : Prop := forall kv, kv ∈ l -> kv_in (kv_key kv) (kv_value kv).
Definition derives_in (l : list KeyValuePair) : Prop :=
  forall kv, kv ∈ l -> kv_in (kvp_Key kv) (kvp_Value kv).
Definition handler_in (h : descriptorHandler) : Prop := forall d, h = Some d -> desc_in d.

Lemma derived_kvs_in args ds : derives_in ds -> kvs_in (derived_kvs args ds).
Proof. intros H kv (d & -> & Hd)%list_elem_of_fmap. by apply H. Qed.

Lemma derivedValues_in h k v : handler_in h -> kv_in k v -> derives_in (derivedValues h k v).
Proof. destruct h as [d|]; [|by intros _ _ kv ?%not_elem_of_nil]. intros H Hkv kv Hin. by eapply (H d). Qed.

(** ** The refresh of the graph *)

(** The keys of derived nodes are those of nodes. *)
Lemma esafe_derived_keys n : esafe (in_graph (fun g => getDerivedKeys g n))
  (fun ks => ks_wf ks /\ ~ is_singleton ks /\ forall k, k ∈ ks_elems ks -> k ∈ u_keys U).
Proof.
  apply esafe_in_graph. intros g Hg. unfold getDerivedKeys.
  eapply ofuel_bind; [by apply ofuel_getDerivedNodes|]. intros ds Hds.
  set (J := fun ks => ks_wf ks /\ ~ is_singleton ks /\ forall k, k ∈ ks_elems ks -> k ∈ u_keys U).
  assert (forall acc, J acc -> J (fold_left (fun set d => (ks_Add set (n_key d)).1) ds acc)) as H.
  { induction Hds as [|d ds Hd Hds IH]; intros acc (W & S & K); [done|]. cbn [fold_left]. apply IH.
    destruct (ks_Add_exact acc (n_key d) W S) as (W' & S' & E & _). split_and!; [done|done|].
    intros k. rewrite E, elem_of_union, elem_of_singleton. intros [->|Hk]; [apply (node_in_kv d Hd)|by apply K]. }
  apply H. split_and!; [by apply SliceFacts.NewSliceBasedKeySet_spec|by intros []|by intros k ?%elem_of_empty].
Qed.

Lemma obsolete_keys ds ks : ks_wf ks -> ~ is_singleton ks -> (forall k, k ∈ ks_elems ks -> k ∈ u_keys U) ->
  forall k, k ∈ ks_Iterate (fold_left (fun acc d => (ks_Del acc (kvp_Key d)).1) ds ks) -> k ∈ u_keys U.
Proof.
  revert ks. induction ds as [|d ds IH]; intros ks W S K k; cbn [fold_left]; [by rewrite elem_of_ks_Iterate by done; apply K|].
  destruct (ks_Del_exact ks (kvp_Key d) W S) as (W' & S' & E & _). apply IH; [done|done|].
  intros k'. rewrite E. intros [Hk _]%elem_of_difference. by apply K.
Qed.

Lemma esafe_skipRefresh nodes except refreshed : trivial (skipRefresh nodes except refreshed).
Proof.
  unfold skipRefresh. apply (safe_foldM _ _ (fun _ => True)); [|done]. intros acc r _ _.
  esafe_auto; eapply safe_conseq; [apply esafe_in_graph_derived|done].
Qed.

Lemma esafe_refreshAvailNode r origin derived baseKey refreshed :
  trivial (refreshAvailNode r origin derived baseKey refreshed).
Proof. unfold refreshAvailNode, refreshNodeState. esafe_auto. Qed.

Lemma esafe_refreshUnavailNode r refreshed : trivial (refreshUnavailNode r refreshed).
Proof.
  unfold refreshUnavailNode, refreshNodeState. eapply safe_bind; [apply esafe_rnode|]. intros n Hn.
  esafe_auto. apply esafe_xSetNode. by apply (node_in_kv n).
Qed.

Lemma esafe_refresh_derived origin baseKey obsolete refreshed kv : kv_in (kvp_Key kv) (kvp_Value kv) ->
  trivial (refresh_derived origin baseKey obsolete refreshed kv).
Proof.
  intros [Hk Hv]. unfold refresh_derived.
  esafe_auto; first [by apply esafe_xSetNode|apply esafe_refreshUnavailNode|by apply esafe_SetValue|apply esafe_refreshAvailNode].
Qed.

Lemma esafe_refreshValue kv d refreshed : kv_in (kvm_Key kv) (kvm_Value kv) -> desc_in d ->
  trivial (refreshValue kv d refreshed).
Proof.
  intros [Hk Hv] Hd. unfold refreshValue. cbv zeta.
  apply (safe_bind _ _ _ (fun _ => True)); [by apply esafe_xSetNode|]. intros r _.
  do 2 (apply (safe_bind _ _ _ (fun _ => True)); [first [apply esafe_SetLabel|by apply esafe_SetValue]|]; intros _ _).
  apply (safe_bind _ _ _ (fun _ => True)); [esafe_auto|]. intros _ _.
  apply (safe_bind _ _ _ (fun _ => True)); [apply esafe_refreshAvailNode|]. intros refreshed' _.
  eapply safe_bind; [apply esafe_rnode|]. intros n Hn. destruct (node_in_kv n Hn) as [Hnk Hnv].
  eapply safe_bind; [apply esafe_derived_keys|]. intros ks (W & S & K).
  apply (safe_bind _ _ _ (fun _ => True)); [apply esafe_SetTargets|]. intros _ _.
  apply (safe_foldM _ _ (fun _ => True)); [|done]. intros acc kv' Hkv' _. apply esafe_refresh_derived.
  apply elem_of_app in Hkv' as [Hkv'|(k & -> & Hk')%list_elem_of_fmap].
  - by apply (derivedValues_in (Some d) (n_key n) (n_value n)); [intros d' [= <-]|..].
  - split; [|exact Hnil]. cbn [kvp_Key]. by eapply obsolete_keys.
Qed.

Lemma esafe_retrieved_origin correlate kv : trivial (retrieved_origin correlate kv).
Proof. unfold retrieved_origin. esafe_auto. Qed.

Lemma esafe_refresh_retrieved keys correlate d refreshed kv : kv_in (kvm_Key kv) (kvm_Value kv) -> desc_in d ->
  trivial (refresh_retrieved keys correlate d refreshed kv).
Proof.
  intros Hkv Hd. unfold refresh_retrieved. esafe_auto; [apply esafe_retrieved_origin|by apply esafe_refreshValue].
Qed.

Lemma esafe_correlate_values resync d nodes : trivial (correlate_values resync d nodes).
Proof.
  assert (trivial (mapM rnode nodes)) as H.
  { eapply safe_conseq; [|done]. apply (safe_mapM _ _ (node_in core_in)). intros r _. apply esafe_rnode. }
  unfold correlate_values. destruct resync as [rd|]; [destruct (rd_first rd)|]; esafe_auto; exact H.
Qed.

Lemma esafe_retrieve d correlate : retrieves_in d ->
  esafe (in_world (retrieve (Some d) correlate)) (fun r => Forall (fun kv => kv_in (kvm_Key kv) (kvm_Value kv)) r.1.1).
Proof.
  intros Hd. apply esafe_in_world. intros w _. cbn. destruct (d_Retrieve d) as [f|] eqn:E; [|by split].
  pose proof (Hd f correlate w E) as H. destruct (f correlate w) as [[values err] w']. by split.
Qed.

Lemma esafe_unset_metadata refreshed r : trivial (unset_metadata refreshed r).
Proof.
  unfold unset_metadata. eapply safe_bind; [apply esafe_rnode|]. intros n Hn. esafe_auto.
  apply esafe_xSetNode. by apply (node_in_kv n).
Qed.

Lemma esafe_refresh_descriptor keys resync refreshed d : desc_in d -> retrieves_in d ->
  trivial (refresh_descriptor keys resync refreshed d).
Proof.
  intros Hd Hr. unfold refresh_descriptor. eapply safe_bind; [apply safe_get|]. intros x _. cbv zeta.
  destruct (match keys with Some _ => _ | None => _ end); [apply esafe_skipRefresh|].
  apply (safe_bind _ _ _ (fun _ => True)); [apply esafe_correlate_values|]. intros correlate _.
  eapply safe_bind; [by apply esafe_retrieve|]. intros [[retrieved []] [err|]] Hkvs; try apply esafe_skipRefresh.
  cbn [fst snd] in Hkvs. rewrite Forall_forall in Hkvs.
  apply (safe_bind _ _ _ (fun _ => True)); [destruct (nonempty_keys keys); [apply esafe_skipRefresh|by apply safe_ret]|].
  intros refreshed1 _. apply (safe_bind _ _ _ (fun _ => True)).
  { apply (safe_foldM _ _ (fun _ => True)); [|done]. intros acc kv Hkv _. by apply esafe_refresh_retrieved; [apply Hkvs|]. }
  intros refreshed2 _. apply (safe_bind _ _ _ (fun _ => True)); [|intros _ _; by apply safe_ret].
  apply safe_forM. intros r _. apply esafe_unset_metadata.
Qed.

Lemma safe_GetAllDescriptors : safe reg_in GetAllDescriptors (Forall (fun d => desc_in d /\ retrieves_in d)).
Proof.
  intros reg Hreg. pose proof Hreg as [H1 H2 H3 H4]. unfold GetAllDescriptors. destruct (reg_upToDateDescList reg); [by split|].
  destruct (TopologicalOrder_spec (desc_names reg) (retrieve_deps reg) true false) as [(l & E & _)|(_ & E & _)].
  - split; [apply NewMapBasedKeySet_spec|by intros []].
  - apply retrieve_deps_ok.
  - unfold retrieve_deps, desc_names. rewrite dom_fmap_L, (proj2 (NewMapBasedKeySet_spec _)). intros k.
    by rewrite elem_of_list_to_set, map_order_perm, elem_of_elements.
  - done.
  - rewrite E. cbn. assert (Forall (fun d => desc_in d /\ retrieves_in d) (omap (fun n => reg_descriptors reg !! n) l)) as Hl.
    { apply Forall_forall. intros d (n & _ & Hn)%list_elem_of_omap. split; [by eapply H1|by eapply H3]. }
    split; [done|]. by constructor.
  - by rewrite E.
Qed.

Lemma esafe_refresh_missing refreshed r : trivial (refresh_missing refreshed r).
Proof. unfold refresh_missing. esafe_auto. apply esafe_refreshUnavailNode. Qed.

Lemma esafe_refreshGraph keys resync verbose : trivial (refreshGraph keys resync verbose).
Proof.
  unfold refreshGraph. eapply safe_bind.
  { eapply safe_zoom; [apply safe_GetAllDescriptors|by intros ? []|]. intros s t [] Ht. by constructor. }
  intros ds Hds. rewrite Forall_forall in Hds. apply (safe_bind _ _ _ (fun _ => True)).
  { apply (safe_foldM _ _ (fun _ => True)); [|done]. intros acc d Hd _. destruct (Hds d Hd). by apply esafe_refresh_descriptor. }
  intros refreshed _. eapply safe_bind; [apply safe_get|]. intros x _.
  apply (safe_bind _ _ _ (fun _ => True)); [|intros; by apply safe_skip].
  apply (safe_foldM _ _ (fun _ => True)); [|done]. intros acc r _ _. apply esafe_refresh_missing.
Qed.

(** ** Handles *)

Lemma esafe_xRelease : trivial xRelease.
Proof.
  eapply safe_zoom; [apply (ssafe_Release core_in)|by intros x []|]. intros x s [] []. by constructor.
Qed.

Lemma esafe_xWrite inPlace record : trivial (xWrite inPlace record).
Proof.
  unfold xWrite. eapply safe_bind; [apply safe_get|]. intros x Hx.
  eapply safe_bind; [apply safe_lift, graph_in_Write, Hx|]. intros w Hw.
  apply safe_modify. intros y []. by constructor.
Qed.

Section rec.
Context (b : KeySet) (rec : applyValueArgs -> E ValueRes).
Context (Hrec : forall args, kv_in (kv_key (a_kv args)) (kv_value (a_kv args)) -> a_branch args = b ->
  trivial (rec args)).

Lemma esafe_applyDerived vs args c :
  kvs_in vs -> a_branch args = b -> trivial (applyDerived rec vs args c).
Proof.
  intros Hvs Hb. unfold applyDerived. apply (safe_foldM _ _ (fun _ => True)); [|done].
  intros acc kv Hkv%elem_of_sort_by _.
  apply (safe_bind _ _ _ (fun _ => True)); [destruct c; [apply esafe_validDerivedKV|by apply safe_ret]|].
  intros valid _. destruct valid; [|by apply safe_ret].
  apply (safe_bind _ _ _ (fun _ => True)); [|intros; by apply safe_ret].
  apply Hrec; [|done]. by apply Hvs.
Qed.

Lemma esafe_runDepUpdates r args c : a_branch args = b -> trivial (runDepUpdates rec r args c).
Proof.
  intros Hb. unfold runDepUpdates. eapply safe_bind; [apply esafe_dep_nodes|]. intros deps _.
  apply (safe_foldM _ _ (fun _ => True)); [|done]. intros acc dep _ _.
  unfold dep_update. eapply safe_bind; [apply esafe_rnode|]. intros n Hn.
  destruct (negb _); [by apply safe_ret|]. destruct (negb _); [by apply safe_ret|].
  apply (safe_bind _ _ _ (fun _ => True)); [|intros; by apply safe_ret].
  apply Hrec; [|done]. simpl. destruct (node_in_kv n Hn) as [Hk Hv]. split; [done|].
  destruct (getNodeLastUpdate (Some n)) as [u|] eqn:E; [|done]. by eapply node_in_last_update.
Qed.

Lemma esafe_delete_return r st op args p rc ex err inh rt :
  trivial (delete_return r st op args p rc ex err inh rt).
Proof. unfold delete_return. esafe_auto. apply esafe_failed_op. Qed.

Lemma esafe_execute_delete r args : trivial (execute_delete r args).
Proof. unfold execute_delete. esafe_auto. Qed.

Lemma esafe_applyDelete r op args p rc : a_branch args = b -> trivial (applyDelete rec r op args p rc).
Proof.
  intros Hb. unfold applyDelete. eapply safe_bind; [apply esafe_rnode|]. intros n Hn.
  destruct (n_value n); [|by esafe_auto]. cbv zeta.
  destruct (negb _); [apply esafe_delete_return|].
  apply (safe_bind _ _ _ (fun _ => True)); [by apply esafe_SetFlag|]. intros _ _.
  apply (safe_bind _ _ _ (fun _ => True)); [esafe_auto|]. intros _ _.
  apply (safe_bind _ _ _ (fun _ => True)).
  { destruct (a_isDerived args); [by apply safe_ret|].
    eapply safe_bind; [apply esafe_rnode|]. intros n' Hn'.
    eapply safe_bind; [apply esafe_in_graph_derived|]. intros ds Hds.
    apply esafe_applyDerived; [|done]. intros kv (d & -> & Hd)%list_elem_of_fmap. simpl.
    rewrite Forall_forall in Hds. split; [by apply (node_in_kv d), Hds|done]. }
  intros [executed [e|]] _; [apply esafe_delete_return|].
  eapply safe_bind; [by apply esafe_runDepUpdates|]. intros dep _.
  destruct dep.2; [apply esafe_delete_return|].
  eapply safe_bind; [apply esafe_execute_delete|]. intros x _. apply esafe_delete_return.
Qed.

Lemma esafe_applyNewRelations r h v c args :
  handler_in h -> u_vals U v -> a_branch args = b ->
  esafe (applyNewRelations rec r h v c args) (fun res => derives_in res.1).
Proof.
  intros Hh Hv Hb. unfold applyNewRelations.
  destruct (_ && _); [apply safe_ret; by intros ? ?%not_elem_of_nil|].
  eapply safe_bind; [apply esafe_rnode|]. intros n Hn. cbv zeta.
  destruct (node_in_kv n Hn) as [Hk Hnv].
  set (prev := match v with Some _ => _ | None => _ end).
  set (derived := if a_isDerived args then _ else _).
  assert (derives_in derived) as Hder.
  { subst derived. destruct (a_isDerived args); [by intros ? ?%not_elem_of_nil|].
    by apply derivedValues_in. }
  apply (safe_bind _ _ _ (fun _ => True)); [esafe_auto|]. intros _ _.
  destruct (_ && _); [|by apply safe_ret].
  apply (safe_bind _ _ _ (fun _ => True)); [|intros; by apply safe_ret].
  apply esafe_applyDerived; [|done]. intros kv (k & -> & Hk')%list_elem_of_fmap. simpl.
  split; [|done].
  assert (exists l, prev = kv_keys l /\ derives_in l) as (l & -> & Hl).
  { subst prev. destruct v as [v|]; [destruct (a_isDerived args)|]; (eexists; split; [done|]);
      first [by intros ? ?%not_elem_of_nil|by apply derivedValues_in]. }
  destruct (kv_keys_spec l) as (W1 & S1 & K1). destruct (kv_keys_spec derived) as (W2 & _ & _).
  destruct (ks_Subtract_spec (kv_keys l) (kv_keys derived) W1 W2 S1) as (W & He & _).
  apply elem_of_ks_Iterate in Hk'; [|done].
  rewrite He in Hk'. apply elem_of_difference in Hk' as [Hk' _].
  destruct (K1 k Hk') as (kv & Hkv & <-). by apply Hl.
Qed.

Lemma esafe_execute_create r d args : trivial (execute_create r d args).
Proof. unfold execute_create. esafe_auto. Qed.

Lemma esafe_create_finish r op args ex ds :
  derives_in ds -> a_branch args = b -> trivial (create_finish rec r op args ex ds).
Proof.
  intros Hds Hb. unfold create_finish.
  esafe_auto; [by apply esafe_runDepUpdates|].
  apply esafe_applyDerived; [by apply derived_kvs_in|done].
Qed.

Lemma esafe_create_known r op args d :
  handler_in d -> a_branch args = b -> trivial (create_known rec r op args d).
Proof.
  intros Hd Hb. unfold create_known. cbv zeta.
  eapply safe_bind; [by apply esafe_applyNewRelations|]. intros [ds [ex [e|]]] Hds; [by apply safe_ret|].
  esafe_auto; first [apply esafe_execute_create|apply esafe_failed_op|by apply esafe_create_finish].
Qed.

Lemma esafe_applyCreate r op args :
  u_vals U (kv_value (a_kv args)) -> a_branch args = b -> trivial (applyCreate rec r op args).
Proof.
  intros Hv Hb. unfold applyCreate.
  esafe_auto; first [by apply esafe_SetValue|apply esafe_invalid_op|by apply esafe_create_known].
Qed.

Lemma esafe_execute_update r d v args : trivial (execute_update r d v args).
Proof. unfold execute_update. esafe_auto. Qed.

Lemma esafe_update_finish r op args c ex ds :
  derives_in ds -> a_branch args = b -> trivial (update_finish rec r op args c ex ds).
Proof.
  intros Hds Hb. unfold update_finish. esafe_auto.
  apply esafe_applyDerived; [by apply derived_kvs_in|done].
Qed.

Lemma esafe_update_recreate r args :
  kv_in (kv_key (a_kv args)) (kv_value (a_kv args)) -> a_branch args = b ->
  trivial (update_recreate rec r args).
Proof.
  intros [Hk Hv] Hb. unfold update_recreate.
  esafe_auto; first [apply esafe_preRecordTxnOp|by apply esafe_applyDelete|by apply esafe_xSetNode
    |by apply esafe_applyCreate].
Qed.

Lemma esafe_update_in_place r op args d c :
  handler_in d -> kv_in (kv_key (a_kv args)) (kv_value (a_kv args)) -> a_branch args = b ->
  trivial (update_in_place rec r op args d c).
Proof.
  intros Hd [Hk Hv] Hb. unfold update_in_place. cbv zeta.
  eapply safe_bind; [apply esafe_rnode|]. intros n Hn. destruct (node_in_kv n Hn) as [_ Hnv].
  apply (safe_bind _ _ _ (fun _ => True)); [by apply esafe_SetValue|]. intros _ _.
  eapply safe_bind; [by apply esafe_applyNewRelations|]. intros [ds [ex [e|]]] Hds.
  { apply (safe_bind _ _ _ (fun _ => True)); [by apply esafe_SetValue|]. intros _ _. by apply safe_ret. }
  esafe_auto; first [by apply esafe_SetValue|by apply esafe_applyDelete|apply esafe_execute_update
    |apply esafe_failed_op|by apply esafe_update_finish].
Qed.

Lemma esafe_applyUpdate r op args :
  kv_in (kv_key (a_kv args)) (kv_value (a_kv args)) -> a_branch args = b ->
  trivial (applyUpdate rec r op args).
Proof.
  intros Hkv Hb. pose proof (proj2 Hkv) as Hv. unfold applyUpdate.
  esafe_auto; first [by apply esafe_SetValue|apply esafe_invalid_op|by apply esafe_update_recreate
    |by apply esafe_update_in_place].
Qed.

Lemma esafe_view_changed v n : trivial (view_changed v n).
Proof. unfold view_changed. esafe_auto. Qed.

Lemma esafe_detect_changes args u v : trivial (detect_changes args u v).
Proof. unfold detect_changes. esafe_auto. apply esafe_view_changed. Qed.

Lemma esafe_run_operation r op args :
  kv_in (kv_key (a_kv args)) (kv_value (a_kv args)) -> a_branch args = b ->
  trivial (run_operation rec r op args).
Proof.
  intros Hkv Hb. unfold run_operation. destruct (op_Operation op); try (by apply safe_ret).
  - apply esafe_applyCreate; [by destruct Hkv|done].
  - by apply esafe_applyUpdate.
  - by apply esafe_applyDelete.
Qed.

(** The previous value, as the result reports it. *)
Definition prev_in (res : ValueRes) : Prop := kv_in (kvp_Key res.1.2) (kvp_Value res.1.2).

Lemma esafe_apply_operation r op args v pv :
  kv_in (kv_key (a_kv args)) (kv_value (a_kv args)) -> a_branch args = b -> kv_in (kvp_Key pv) (kvp_Value pv) ->
  esafe (apply_operation rec r op args v pv) prev_in.
Proof.
  intros Hkv Hb Hpv. unfold apply_operation.
  eapply safe_bind; [apply esafe_rnode|]. intros n _. cbv zeta.
  eapply safe_bind; [apply esafe_new_last_update; by destruct Hkv|]. intros u Hu.
  apply (safe_bind _ _ _ (fun _ => True)); [by apply esafe_SetLastUpdate|]. intros _ _.
  esafe_auto; first [by apply esafe_run_operation|apply esafe_detect_changes].
Qed.

Lemma esafe_applyValue_body args :
  kv_in (kv_key (a_kv args)) (kv_value (a_kv args)) -> a_branch args = b ->
  esafe (applyValue_body rec args) prev_in.
Proof.
  intros Hkv Hb. unfold applyValue_body. cbv zeta.
  apply (safe_bind _ _ _ (fun _ => True)); [apply esafe_xSetNode; by destruct Hkv|]. intros r _.
  eapply safe_bind; [apply esafe_rnode|]. intros n Hn%node_in_kv.
  esafe_auto; first [apply esafe_value_view|apply esafe_preRecordTxnOp|apply esafe_determine|by apply esafe_apply_operation].
Qed.
End rec.

(** The fuel only has to exceed the number of keys that are not on the branch. *)
Lemma esafe_applyValue fuel : forall args,
  kv_in (kv_key (a_kv args)) (kv_value (a_kv args)) ->
  ks_wf (a_branch args) -> ~ is_singleton (a_branch args) ->
  size (u_keys U ∖ ks_elems (a_branch args)) < fuel ->
  esafe (applyValue fuel args) (fun res => prev_in res \/ ks_Has (a_branch args) (kv_key (a_kv args)) = true).
Proof.
  induction fuel as [|fuel IH]; intros args Hkv Hwf Hs Hf; [lia|]. simpl.
  destruct (ks_Has _ _) eqn:E; [apply safe_ret; by right|].
  rewrite ks_Has_exact, bool_decide_eq_false in E by done.
  destruct (ks_Add_exact (a_branch args) (kv_key (a_kv args)) Hwf Hs) as (Hwf' & Hs' & He & _).
  eapply safe_conseq; [eapply esafe_applyValue_body; [|done|done]|by left]. intros args' Hkv' Hb'.
  eapply safe_conseq; [|done]. apply IH; rewrite ?Hb'; [done|done|done|]. simpl. rewrite He.
  assert (size (u_keys U ∖ ({[kv_key (a_kv args)]} ∪ ks_elems (a_branch args)))
    < size (u_keys U ∖ ks_elems (a_branch args))); [|lia].
  apply subset_size. destruct Hkv as [Hk _]. set_solver.
Qed.

(** ** Whole transactions *)

(** The transaction is executed in the best-effort mode. *)
Definition best_effort (txn : transaction) : Prop :=
  isNBTxn txn = true -> forall nb, txn_nb txn = Some nb -> nb_revertOnFailure nb = false.

(** A value of the transaction, or one that is put back. *)
Lemma esafe_apply_top fuel txn kv applied isRetry dryRun : size (u_keys U) < fuel -> kv_in (kv_key kv) (kv_value kv) ->
  esafe (applyValue fuel (txn_args txn kv applied isRetry dryRun)) prev_in.
Proof.
  intros Hf Hkv. eapply safe_conseq.
  - apply esafe_applyValue; [done|apply NewMapBasedKeySet_spec|by intros []|].
    simpl. eapply Nat.le_lt_trans; [|exact Hf]. apply subseteq_size. set_solver.
  - intros res [H|H]; [exact H|]. cbn [a_branch a_kv txn_args] in H.
    rewrite ks_Has_exact, bool_decide_eq_true in H by (apply NewMapBasedKeySet_spec || by intros []).
    rewrite (proj2 (NewMapBasedKeySet_spec [])) in H. by apply elem_of_empty in H.
Qed.

Lemma esafe_exec_values fuel txn dryRun isRetry : size (u_keys U) < fuel ->
  forall values applied executed prevValues, kvs_in values -> derives_in prevValues ->
  esafe (exec_values fuel txn dryRun isRetry values applied executed prevValues) (fun r => derives_in r.1.1.2).
Proof.
  intros Hf. induction values as [|kv values IH]; intros applied executed prevValues Hkvs Hprev; simpl;
    [by apply safe_ret|].
  eapply safe_bind; [apply esafe_apply_top; [done|]; apply Hkvs; by apply elem_of_cons; left|].
  intros [[ops prev] err] Hp. assert (derives_in (prev :: prevValues)) as Hprev'.
  { intros kv' [->|Hkv']%elem_of_cons; [exact Hp|by apply Hprev]. }
  apply (safe_bind _ _ _ (fun _ => True)).
  { destruct err; [|by apply safe_ret]. destruct (isNBTxn txn); [|by apply safe_ret].
    apply (safe_bind _ _ _ (fun _ => True)); [apply esafe_the_nb|]. intros nb _. by apply safe_ret. }
  intros [] _.
  - apply (safe_bind _ _ _ (fun _ => True)); [apply esafe_refreshGraph|]. intros _ _. by apply safe_ret.
  - apply IH; [|done]. intros kv' H. apply Hkvs. by apply elem_of_cons; right.
Qed.

Lemma esafe_executeTransaction fuel txn dryRun :
  size (u_keys U) < fuel -> kvs_in (txn_values txn) -> trivial (executeTransaction fuel txn dryRun).
Proof.
  intros Hf Hkvs. unfold executeTransaction. cbv zeta.
  eapply safe_bind; [by apply esafe_exec_values; [..|by intros ? ?%not_elem_of_nil]|].
  intros [[[ops prevs] revert] applied] Hprevs. cbn [fst snd] in Hprevs.
  apply (safe_bind _ _ _ (fun _ => True)); [|intros ops' _; by apply safe_ret].
  destruct revert; [|by apply safe_ret].
  apply (safe_bind _ _ _ (fun _ => True)); [apply esafe_xRelease|]. intros _ _.
  apply (safe_bind _ _ _ (fun caller => graph_in core_in (rw_graph caller))); [by apply safe_gets; intros x []|]. intros caller Hc.
  apply (safe_bind _ _ _ (fun _ => True)); [apply esafe_xWrite|]. intros _ _.
  apply (safe_bind _ _ _ (fun _ => True)).
  { apply (safe_foldM _ _ (fun _ => True)); [|done]. intros acc prev Hprev _. unfold revert_value.
    eapply safe_bind; [apply esafe_apply_top; [done|]; by apply Hprevs|]. intros res _. by apply safe_ret. }
  intros ops' _. apply (safe_bind _ _ _ (fun _ => True)); [|intros _ _; by apply safe_ret].
  apply safe_modify. intros x [H1 H2 H3]. constructor; [by destruct (rw_wInPlace caller)|done|done].
Qed.
End termination.

(** ** Property *)

(** C8: executing, or simulating, a transaction terminates, also one that fails
    and is reverted (the failed value is refreshed from the southbound plane,
    what was written is released and the previous values are applied again): when only
    finitely many keys can occur (neither deriving values nor retrieving them
    leads to more), any fuel greater than their number is enough for the whole
    recursion through derived and dependent values, dependency cycles included;
    and no node outside these keys is ever created. *)
Theorem transaction_terminates {X : Ext} {MO : MapOrder} (U : universe) (fuel : nat) (txn : transaction)
    (dryRun : bool) (x : ExecSt) :
  u_vals U None -> st_in U x -> kvs_in U (txn_values txn) ->
  size (u_keys U) < fuel ->
  (exists ops x', executeTransaction fuel txn dryRun x = Ok (ops, x') /\ st_in U x')
  \/ (exists msg, executeTransaction fuel txn dryRun x = Panic msg).
Proof.
  intros Hnil Hx Hkvs Hf.
  pose proof (esafe_executeTransaction U Hnil fuel txn dryRun Hf Hkvs x Hx) as H.
  destruct (executeTransaction fuel txn dryRun x) as [[ops x']|msg|]; simpl in H; [left|right|done].
  - destruct H. eauto.
  - eauto.
Qed.

(** The keys of the demonstration; any value can occur. *)
Definition demo_universe : universe :=
  MkUniverse {["if/eth0"; "addr/if/eth0"; "route/1"; "peer/1"]} (fun _ => True).

Definition demo_exec (s : sched) : ExecSt :=
  MkExec (s_graph s) (demo_handle s true true) (s_registry s) (s_world s) (s_updatedStates s)
    (s_nonRetryable s).

Lemma demo_iface_in : desc_in demo_universe demo_iface.
Proof.
  intros k v kv [Hk _] Hkv. split; [|done]. simpl in Hkv. unfold iface_derives in Hkv.
  destruct v as [[|v]|]; [by apply not_elem_of_nil in Hkv| |by apply not_elem_of_nil in Hkv].
  simpl in Hk. rewrite !elem_of_union, !elem_of_singleton in Hk.
  destruct Hk as [[[->| ->]| ->]| ->]; simpl in Hkv; try (by apply not_elem_of_nil in Hkv).
  apply list_elem_of_singleton in Hkv as ->. simpl. set_solver.
Qed.

Lemma demo_reg_in : reg_in demo_universe (s_registry demo_sched).
Proof.
  assert (forall n d, reg_descriptors (s_registry demo_sched) !! n = Some d ->
    d = demo_iface \/ d = demo_route \/ d = demo_peer) as Hd.
  { assert (reg_descriptors (s_registry demo_sched) =
      <["peer" := demo_peer]> (<["route" := demo_route]> {["iface" := demo_iface]})) as ->
      by reflexivity.
    intros n d. rewrite !lookup_insert_Some, lookup_singleton_Some. intuition congruence. }
  constructor.
  - intros n d Hn. destruct (Hd n d Hn) as [->|[->| ->]]; [apply demo_iface_in| |];
      by intros k v kv _ ?%not_elem_of_nil.
  - by assert (reg_keyCache (s_registry demo_sched) = []) as -> by reflexivity.
  - intros n d Hn. by destruct (Hd n d Hn) as [->|[->| ->]].
  - by assert (reg_descriptorList (s_registry demo_sched) = []) as -> by reflexivity.
Qed.

Lemma demo_st_in : st_in demo_universe (demo_exec demo_sched).
Proof.
  constructor; [|exact demo_reg_in|].
  - unfold graph_in. assert (g_heap (cur_graph (demo_exec demo_sched)) = ∅) as -> by reflexivity.
    apply map_Forall_empty.
  - unfold graph_in. assert (g_heap (kg_graph (x_graph (demo_exec demo_sched))) = ∅) as -> by reflexivity.
    apply map_Forall_empty.
Qed.

(** A transaction that is reverted: the creation of the route fails. *)
Example revert_effect :
  match executeTransaction 5 (demo_txn (MkNbTxn NotResync false true false None true true "")
    [("if/eth0", Some 4); ("route/1", Some 13)]) false (demo_exec demo_sched) with
  | Ok (ops, x') => x_world x' = ["create if/eth0=4"; "create route/1=13"; "delete if/eth0"]
  | _ => False
  end.
Proof. vm_compute. reflexivity. Qed.

Example transaction_terminates_witness :
  let txn := demo_txn (MkNbTxn NotResync false true false None true true "") [("if/eth0", Some 4); ("route/1", Some 13)] in
  (exists ops x', executeTransaction 5 txn false (demo_exec demo_sched) = Ok (ops, x')
     /\ st_in demo_universe x')
  \/ (exists msg, executeTransaction 5 txn false (demo_exec demo_sched) = Panic msg).
Proof.
  intros txn. apply (transaction_terminates demo_universe 5 txn false (demo_exec demo_sched)).
  - exact I.
  - exact demo_st_in.
  - intros kv Hkv. simpl in Hkv.
    repeat (apply elem_of_cons in Hkv as [->|Hkv]; [split; [simpl; set_solver|exact I]|]).
    by apply not_elem_of_nil in Hkv.
  - vm_compute. lia.
Defined.
