(* ===== verification/NodeFacts.v ===== *)
(** * Readiness and details of values

    What [isNodeReady] and [equalValueDetails] of node_utils.go decide. *)
From S2P Require Import Prelude KeySet Monad Api Registry Flags EdgeLookup Graph GraphRW.
From S2P Require Import NodeUtils Descriptor TxnOps ExecState Refresh TxnExec GraphSafe.
From S2P Require Import Scheduler TxnProcess Plugin Demo.

Section ready.
Context {X : Ext} {MO : MapOrder}.

(** A target that satisfies a dependency by itself. *)
Definition satisfies (t : node) : bool :=
  negb (bool_decide (getNodeState (Some t) = ValueState_REMOVED)) && isNodeAvailable (Some t).

(** Every dependency label has such a target. *)
Definition deps_satisfied (l : list (string * list node)) : bool :=
  forallb (fun p => existsb satisfies p.2) l.

(** Every edge of the graph leads to a node. *)
Definition no_dangling (g : graphR) : Prop :=
  forall i n, g_heap g !! i = Some n -> exists l, targets_of g n DependencyRelation = Ok l.

(** Dependencies lead to keys of a lower rank: there are no cycles. *)
Definition acyclic (g : graphR) (rank : string -> nat) : Prop :=
  forall i n l p t, g_heap g !! i = Some n -> targets_of g n DependencyRelation = Ok l ->
  p ∈ l -> t ∈ p.2 -> rank (n_key t) < rank (n_key n).

Section iter.
Context (g : graphR) (rec : node -> outcome (bool * nat)) (depth : nat) (checkSCC : bool).

(** The recursive calls find no cycle. *)
Definition no_cycle (ns : list node) : Prop :=
  forall t, t ∈ ns -> exists ready, rec t = Ok (ready, S depth).

Lemma ready_cb_target t label st ready :
  rec t = Ok (ready, S depth) ->
  ready_cb rec depth checkSCC (Some t) label st
  = Ok (satisfies t && negb checkSCC, false,
        MkReadySt (rs_ready st) (rs_satisfiedLabel st || satisfies t) (rs_cycleDepth st)).
Proof.
  intros Hr. unfold ready_cb, satisfies. generalize (isNodeAvailable (Some t)). intros available.
  destruct st as [rd sat cyc]. cbn [rs_ready rs_satisfiedLabel rs_cycleDepth].
  destruct (decide (getNodeState (Some t) = ValueState_REMOVED)) as [Hrem|Hrem].
  { rewrite bool_decide_eq_true_2 by done. simpl. by rewrite orb_false_r. }
  rewrite bool_decide_eq_false_2 by done. rewrite Hr.
  assert ((S depth <=? depth) = false) as Hle by (apply Nat.leb_gt; lia).
  destruct available, checkSCC; cbn -[Nat.leb Nat.ltb]; rewrite ?Hle;
    rewrite ?andb_false_r, ?orb_true_r, ?orb_false_r; done.
Qed.

Lemma iter_label_ready label keys : forall ns st,
  pnodes g (map (fun k => g_nodes g !! k) keys) = Ok ns -> no_cycle ns ->
  iter_label (ready_cb rec depth checkSCC) g label keys st
  = Ok (false, MkReadySt (rs_ready st) (rs_satisfiedLabel st || existsb satisfies ns) (rs_cycleDepth st)).
Proof.
  induction keys as [|k keys IH]; intros ns st; cbn [iter_label map pnodes].
  { intros [= <-] _. destruct st. by rewrite orb_false_r. }
  destruct (pnode g (g_nodes g !! k)) as [t|m|]; [rewrite !outcome_bind_ret|done..].
  destruct (pnodes g _) as [ns'|m|] eqn:E; [rewrite outcome_bind_ret|done..]. intros [= <-] Hc.
  assert (no_cycle ns') as Hc' by (intros t' Ht'; apply Hc; by apply elem_of_cons; right).
  destruct (Hc t) as [ready Hr]; [by apply elem_of_cons; left|].
  rewrite (ready_cb_target t label st ready Hr). cbn [existsb]. destruct (satisfies t), checkSCC eqn:Ec; simpl; rewrite ?orb_true_r;
    [|done|..]; rewrite (IH ns') by done; simpl; by rewrite ?orb_false_r, ?orb_true_r.
Qed.

Lemma iter_targets_ready ts : forall l st,
  runtime_nodes g (targets_to_runtime (g_nodes g) ts) = Ok l ->
  (forall p, p ∈ l -> no_cycle p.2) -> rs_satisfiedLabel st = false ->
  exists st', iter_targets (ready_cb rec depth checkSCC) g ts st = Ok st'
    /\ rs_ready st' = rs_ready st && deps_satisfied l /\ rs_cycleDepth st' = rs_cycleDepth st.
Proof.
  induction ts as [|t ts IH]; intros l st; simpl.
  { intros [= <-] _ _. exists st. by rewrite andb_true_r. }
  destruct (pnodes g _) as [ns|m|] eqn:Ens; simpl; [|done..].
  destruct (runtime_nodes g _) as [l'|m|] eqn:El; simpl; [|done..]. intros [= <-] Hc Hs.
  rewrite (iter_label_ready _ _ ns st Ens) by (apply (Hc (tg_Label t, ns)); by apply elem_of_cons; left).
  simpl. rewrite Hs. simpl. destruct (existsb satisfies ns) eqn:Esat; simpl.
  - destruct (IH l' (MkReadySt (rs_ready st) false (rs_cycleDepth st))) as (st' & H1 & H2 & H3);
      [done|intros p Hp; apply Hc; by apply elem_of_cons; right|done|]. by exists st'.
  - eexists. split; [reflexivity|]. simpl. by rewrite andb_false_r.
Qed.
End iter.

Lemma isNodeReadyRec_acyclic g rank (Hd : no_dangling g) (Ha : acyclic g rank) fuel :
  forall i n depth visited b l,
  g_heap g !! i = Some n -> targets_of g n DependencyRelation = Ok l ->
  dom visited ⊆ heap_keys g -> (forall k, k ∈ dom visited -> rank (n_key n) < rank k) ->
  size (heap_keys g) < fuel + size (dom visited) ->
  isNodeReadyRec fuel g n depth visited b = Ok (deps_satisfied l, depth).
Proof.
  induction fuel as [|fuel IH]; intros i n depth visited b l Hi Hl Hv Hr Hf; simpl.
  { apply subseteq_size in Hv. lia. }
  assert (n_key n ∉ dom visited) as Hn by (intros H; specialize (Hr _ H); lia).
  rewrite (proj1 (not_elem_of_dom _ _) Hn). unfold IterTargets.
  assert (forall p, p ∈ l ->
    no_cycle (fun t => isNodeReadyRec fuel g t (S depth) (<[n_key n:=depth]> visited) true) depth p.2) as Hc.
  { intros p Hp t Ht.
    assert (exists j, g_heap g !! j = Some t) as [j Hj].
    { unfold targets_of in Hl. revert l Hl p Hp Ht.
      generalize (targets_to_runtime (g_nodes g) (relation_targets (n_targets n) DependencyRelation)).
      intros rts. induction rts as [|rt rts IHr]; simpl; intros l; [by intros [= <-] p ?%not_elem_of_nil|].
      destruct (pnodes g (rt_Nodes rt)) as [ns|m|] eqn:Ens; simpl; [|done..].
      destruct (runtime_nodes g rts) as [l'|m|]; simpl; [|done..]. intros [= <-] p Hp Ht.
      apply elem_of_cons in Hp as [->|Hp]; [|by eapply IHr]. simpl in Ht.
      clear IHr. revert ns Ens Ht. generalize (rt_Nodes rt). intros rs.
      induction rs as [|r rs IHs]; simpl; intros ns; [by intros [= <-] ?%not_elem_of_nil|].
      destruct (pnode g r) as [t'|m|] eqn:Et; simpl; [|done..].
      destruct (pnodes g rs) as [ns'|m|]; simpl; [|done..]. intros [= <-].
      intros [->|Ht]%elem_of_cons; [|by eapply IHs].
      unfold pnode in Et. destruct r as [r|]; simpl in Et; [|done].
      destruct (g_heap g !! r) eqn:E; simplify_eq/=. by exists r. }
    destruct (Hd j t Hj) as [lt Hlt]. eexists. eapply IH; [exact Hj|exact Hlt| | |].
    - rewrite dom_insert_L. pose proof (heap_keys_spec g i n Hi). set_solver.
    - pose proof (Ha i n l p t Hi Hl Hp Ht) as Hlow. intros k. rewrite dom_insert_L, elem_of_union, elem_of_singleton.
      intros [->|Hk]; [done|]. specialize (Hr k Hk). lia.
    - rewrite dom_insert_L, size_union by set_solver. rewrite size_singleton. lia. }
  destruct (iter_targets_ready g _ depth b (relation_targets (n_targets n) DependencyRelation) l
    (MkReadySt true false depth) Hl Hc eq_refl) as (st' & H1 & H2 & H3).
  rewrite H1. simpl. by rewrite H2, H3.
Qed.

(** [equalValueDetails]: an inclusion between lists of the same length. *)
Lemma equalValueDetails_incl d1 d2 :
  equalValueDetails d1 d2 = true <-> length d1 = length d2 /\ forall d, d ∈ d1 -> d ∈ d2.
Proof.
  unfold equalValueDetails. destruct (Nat.eqb_spec (length d1) (length d2)) as [Hl|Hl]; simpl;
    [|naive_solver].
  rewrite forallb_forall. setoid_rewrite existsb_exists. split.
  - intros H. split; [done|]. intros d Hd. destruct (H d) as (d' & Hd' & ->%String.eqb_eq);
      [by apply list_elem_of_In|]. by apply list_elem_of_In.
  - intros [_ H] d Hd. exists d. split; [|by apply String.eqb_refl].
    apply list_elem_of_In, H. by apply list_elem_of_In.
Qed.

(** ** Properties *)

(** without dependency cycles a node is ready exactly when every dependency
    label has a target that is available and not being removed; values from SB
    are always ready.  The search for cycles, which visits unavailable targets
    recursively, neither fails nor changes the answer. *)
Theorem isNodeReady_acyclic (g : graphR) (rank : string -> nat) (i : nat) (n : node)
    (l : list (string * list node)) :
  no_dangling g -> acyclic g rank -> g_heap g !! i = Some n ->
  targets_of g n DependencyRelation = Ok l ->
  isNodeReady g n = Ok (bool_decide (getNodeOrigin (Some n) = FromSB) || deps_satisfied l).
Proof.
  intros Hd Ha Hi Hl. unfold isNodeReady. case_bool_decide as Ho;
    [by rewrite decide_True|rewrite decide_False by done].
  rewrite (isNodeReadyRec_acyclic g rank Hd Ha _ i n 0 ∅ false l Hi Hl); [done|set_solver|set_solver|].
  rewrite dom_empty_L, size_empty. unfold ready_fuel. pose proof (heap_keys_size g). lia.
Qed.

(** for details without repetitions, as the labels of the unsatisfied
    dependencies of a node are, [equalValueDetails] decides equality up to the
    order. *)
Theorem equalValueDetails_perm (d1 d2 : list string) :
  NoDup d1 -> NoDup d2 -> (equalValueDetails d1 d2 = true <-> d1 ≡ₚ d2).
Proof.
  intros H1 H2. rewrite equalValueDetails_incl. split.
  - intros [Hl Hin]. apply submseteq_length_Permutation; [|lia].
    by apply NoDup_submseteq.
  - intros Hp. split; [by rewrite Hp|]. intros d. by rewrite Hp.
Qed.

Example equalValueDetails_perm_witness :
  equalValueDetails ["a"; "b"] ["b"; "a"] = true <-> ["a"; "b"] ≡ₚ ["b"; "a"].
Proof.
  apply (equalValueDetails_perm ["a"; "b"] ["b"; "a"]);
    by apply (bool_decide_unpack (NoDup _)).
Defined.
End ready.

(** ** Witness *)

Definition demo_rank (key : string) : nat :=
  if String.prefix "peer/" key then 2 else if String.prefix "route/" key then 1 else 0.

(** Executable forms of the hypotheses. *)
Definition check_nodes (g : graphR) (rank : string -> nat) : bool :=
  forallb (fun p => match targets_of g p.2 DependencyRelation with
    | Ok l => forallb (fun q => forallb (fun t => rank (n_key t) <? rank (n_key p.2)) q.2) l
    | _ => false end) (map_to_list (g_heap g)).

Lemma check_nodes_spec g rank : check_nodes g rank = true -> no_dangling g /\ acyclic g rank.
Proof.
  unfold check_nodes. rewrite forallb_forall. intros H.
  assert (forall i n, g_heap g !! i = Some n -> In (i, n) (map_to_list (g_heap g))) as Hin.
  { intros i n Hi. by apply list_elem_of_In, elem_of_map_to_list. }
  split.
  - intros i n Hi. specialize (H _ (Hin i n Hi)). simpl in H.
    destruct (targets_of g n DependencyRelation) as [l|?|]; [by exists l|done..].
  - intros i n l p t Hi Hl Hp Ht. specialize (H _ (Hin i n Hi)). simpl in H. rewrite Hl in H.
    rewrite forallb_forall in H. specialize (H p (proj1 (list_elem_of_In _ _) Hp)).
    rewrite forallb_forall in H. specialize (H t (proj1 (list_elem_of_In _ _) Ht)).
    by apply Nat.ltb_lt in H.
Qed.

Definition demo_graph : graphR :=
  kg_graph (s_graph (run_state (demo_commit [("peer/1", Some 2); ("route/1", Some 1)]) demo_sched)).

Example isNodeReady_acyclic_witness :
  exists i n l, g_heap demo_graph !! i = Some n /\ n_key n = "peer/1"
    /\ targets_of demo_graph n DependencyRelation = Ok l
    /\ isNodeReady demo_graph n = Ok (bool_decide (getNodeOrigin (Some n) = FromSB) || deps_satisfied l)
    /\ deps_satisfied l = false.
Proof.
  assert (check_nodes demo_graph demo_rank = true) as Hc by (vm_compute; reflexivity).
  destruct (check_nodes_spec demo_graph demo_rank Hc) as [Hd Ha].
  assert (match g_heap demo_graph !! 0 with
    | Some n => n_key n = "peer/1" /\ match targets_of demo_graph n DependencyRelation with
        | Ok l => deps_satisfied l = false | _ => False end
    | None => False end) as H by (vm_compute; by split).
  destruct (g_heap demo_graph !! 0) as [n|] eqn:En; [|contradiction]. destruct H as [Hk H].
  destruct (targets_of demo_graph n DependencyRelation) as [l|?|] eqn:El; [|contradiction..].
  exists 0, n, l. split; [exact En|]. split; [exact Hk|]. split; [exact El|].
  split; [|exact H]. exact (isNodeReady_acyclic demo_graph demo_rank 0 n l Hd Ha En El).
Defined.

(** Two routes through each other's interface would wait for ever: nodes of a
    dependency cycle are ready together. *)
Definition cycle_desc : KVDescriptor :=
  demo_desc "node" "node/" no_derives
    (fun key _ => [dep_key "other" (if String.eqb key "node/a" then "node/b" else "node/a")]).

Example dependency_cycle_created :
  let s := run_state (RegisterKVDescriptor [cycle_desc]) (Init defaultConfig demo_models false []) in
  let s := run_state (demo_commit [("node/a", Some 1)]) s in
  demo_states s = [("node/a", ValueState_PENDING)]
  /\ demo_states (run_state (demo_commit [("node/b", Some 1)]) s)
     = [("node/a", ValueState_CONFIGURED); ("node/b", ValueState_CONFIGURED)].
Proof. vm_compute. done. Qed.
