(* ===== verification/RetryFacts.v ===== *)
(** * Failures and retries

    When a failed value is to be retried, what is scheduled for it, and how
    often. *)
From S2P Require Import Prelude KeySet Monad Api Registry Flags EdgeLookup Graph GraphRW NodeUtils.
From S2P Require Import Descriptor TxnOps ExecState Refresh TxnExec Scheduler TxnProcess Plugin Demo.

Section retry.
Context {X : Ext} {MO : MapOrder}.

(** ** One node of the graph of the handle *)

Definition xnode (x : ExecSt) (r : nat) : option node := g_heap (cur_graph x) !! r.
Definition xset_node (r : nat) (n : node) (x : ExecSt) : ExecSt :=
  xset_rw (rwset_graph (gset_heap (<[r := n]> (g_heap (cur_graph x))) (cur_graph x)) (x_rw x)) x.

Lemma xnode_set r n x : xnode (xset_node r n x) r = Some n.
Proof. apply lookup_insert_eq. Qed.

Lemma xset_node_twice r n n' x : xset_node r n' (xset_node r n x) = xset_node r n' x.
Proof. unfold xset_node, cur_graph. simpl. by rewrite insert_insert_eq. Qed.

Lemma xset_node_same r n x : xnode x r = Some n -> xset_node r n x = x.
Proof.
  unfold xnode, xset_node, cur_graph. intros H. rewrite insert_id by done.
  by destruct x as [? [[]] ? ? ? ?].
Qed.

Lemma rnode_eq r n x : xnode x r = Some n -> rnode r x = Ok (n, x).
Proof.
  unfold xnode, rnode, in_rw, zoom, node_at, mbind, M_bind, get, deref, lift, cur_graph.
  intros ->. simpl. by destruct x as [? [] ? ? ? ?].
Qed.

Lemma upd_eq r n f x : xnode x r = Some n -> in_rw (node_upd r f) x = Ok (tt, xset_node r (f n) x).
Proof.
  unfold xnode, in_rw, zoom, node_upd, node_at, mbind, M_bind, get, deref, lift, cur_graph.
  by intros ->.
Qed.

(** ** The state of a failed value *)

(** The transaction has the data of its type. *)
Definition txn_ok (txn : transaction) : Prop :=
  match txn_txnType txn with
  | NBTransaction => is_Some (txn_nb txn)
  | RetryFailedOps => is_Some (txn_retry txn)
  | _ => True
  end.

Definition reverts_failures (txn : transaction) : bool :=
  isNBTxn txn && match txn_nb txn with Some nb => nb_revertOnFailure nb | None => false end.

(** The attempt that a failure of the key ends: the next one, when the
    transaction is a retry of it. *)
Definition retried_attempt (txn : transaction) (key : string) : option retryTxnMeta :=
  match txn_txnType txn, txn_retry txn with
  | RetryFailedOps, Some rtx => if rtx_keys rtx !! key is Some _ then Some (rtx_meta rtx) else None
  | _, _ => None
  end.
Definition next_attempt (txn : transaction) (key : string) : Z :=
  match retried_attempt txn key with Some m => i64 (rm_attempt m + 1) | None => 1 end.

(** The options of the value allow another attempt. *)
Definition retry_allowed (u : LastUpdate) (attempt : Z) : bool :=
  lu_retryEnabled u && match lu_retryArgs u with
    | Some ra => ((MaxCount ra =? 0) || (attempt <=? MaxCount ra))%Z
    | None => false
    end.

Definition failed_state (args : applyValueArgs) (n : node) (u : LastUpdate) (retriable : bool) : ValueState :=
  if retriable && negb (reverts_failures (a_txn args) && negb (kv_isRevert (a_kv args)))
     && retry_allowed u (next_attempt (a_txn args) (getNodeBaseKey n))
  then ValueState_RETRYING else ValueState_FAILED.

Definition with_flags (fs : list Flag) (n : node) : node := nset_flags (set_flags fs (n_flags n)) n.

Lemma SetFlags_eq r n fs x :
  xnode x r = Some n -> in_rw (SetFlags r fs) x = Ok (tt, xset_node r (with_flags fs n) x).
Proof. apply upd_eq. Qed.

Lemma updateNodeState_eq r n st x : xnode x r = Some n -> 
  exists n', updateNodeState r st x = Ok (tt, xset_node r n' x)
    /\ n' = (if decide (getNodeState (Some n) = st) then n else with_flags [ValueStateFlag st] n).
Proof.
  intros Hn. eexists. split; [|done]. unfold updateNodeState, mbind, M_bind. rewrite (rnode_eq r n x Hn).
  case_decide as Hs; [by rewrite xset_node_same|]. by apply upd_eq.
Qed.

Lemma isNBTxn_eq txn : isNBTxn txn = true <-> txn_txnType txn = NBTransaction.
Proof. apply bool_decide_eq_true. Qed.

Lemma revert_flag_eq txn (x : ExecSt) : txn_ok txn ->
  (if isNBTxn txn then nb ← the_nb txn; mret (nb_revertOnFailure nb) else mret false) x
  = Ok (reverts_failures txn, x).
Proof.
  unfold reverts_failures, txn_ok. intros H. destruct (isNBTxn txn) eqn:E; [|done].
  apply isNBTxn_eq in E. rewrite E in H. destruct H as [nb Hnb].
  unfold the_nb, mbind, M_bind, deref, lift. by rewrite Hnb.
Qed.

Lemma attempt_eq txn key (x : ExecSt) : txn_ok txn ->
  (if decide (txn_txnType txn = RetryFailedOps) then
     rtx ← the_retry txn;
     mret (if decide (is_Some (rtx_keys rtx !! key)) then Some (rm_attempt (rtx_meta rtx)) else None)
   else mret None) x = Ok (rm_attempt <$> retried_attempt txn key, x).
Proof.
  unfold txn_ok, retried_attempt. intros H. case_decide as E.
  - rewrite E in H |- *. destruct H as [rtx Hr]. unfold the_retry, mbind, M_bind, deref, lift. rewrite Hr.
    simpl. destruct (rtx_keys rtx !! key); [rewrite decide_True by eauto|rewrite decide_False by by intros []];
      done.
  - by destruct (txn_txnType txn).
Qed.

Lemma consider_retry_eq r txn x n u :
  txn_ok txn -> xnode x r = Some n -> getNodeLastUpdate (Some n) = Some u ->
  consider_retry r txn x
  = Ok (if retry_allowed u (next_attempt txn (getNodeBaseKey n)) then ValueState_RETRYING
        else ValueState_FAILED, x).
Proof.
  intros Hok Hn Hu. unfold consider_retry, mbind, M_bind. rewrite (rnode_eq r n x Hn).
  pose proof (attempt_eq txn (getNodeBaseKey n) x Hok) as Ha.
  unfold mbind, M_bind in Ha. rewrite Ha. unfold deref, lift. rewrite Hu. simpl.
  unfold retry_allowed, next_attempt. destruct (retried_attempt _ _); simpl;
    destruct (lu_retryArgs u); simpl; by rewrite ?andb_false_r.
Qed.

Lemma markFailedValue_eq r args err retriable x n u :
  txn_ok (a_txn args) -> xnode x r = Some n -> getNodeLastUpdate (Some n) = Some u ->
  let st := failed_state args n u retriable in
  exists n', markFailedValue r args err retriable x = Ok (st, xset_node r n' x)
    /\ n_flags n' !! ErrorFlagIndex = Some (ErrorFlag (Some err) retriable)
    /\ getNodeState (Some n') = st
    /\ (forall i, i <> ErrorFlagIndex -> i <> ValueStateFlagIndex -> n_flags n' !! i = n_flags n !! i)
    /\ n_key n' = n_key n /\ n_value n' = n_value n /\ n_targets n' = n_targets n
    /\ n_sources n' = n_sources n /\ n_metadata n' = n_metadata n.
Proof.
  intros Hok Hn Hu st.
  destruct (updateNodeState_eq r n st x Hn) as (n1 & E1 & Hn1).
  assert (getNodeState (Some n1) = st) as Hst.
  { rewrite Hn1. case_decide as Hd; [done|]. unfold getNodeState, GetFlag, with_flags. simpl.
    by rewrite lookup_insert_eq. }
  exists (with_flags [ErrorFlag (Some err) retriable] n1). split_and!.
  - unfold markFailedValue, mbind at 1, M_bind at 1. rewrite revert_flag_eq by done. cbv beta iota.
    assert ((if retriable && negb (reverts_failures (a_txn args) && negb (kv_isRevert (a_kv args)))
      then consider_retry r (a_txn args) else mret ValueState_FAILED) x = Ok (st, x)) as Hmid.
    { unfold st, failed_state. destruct (retriable && _); [|done]. by apply consider_retry_eq. }
    unfold mbind, M_bind. rewrite Hmid, E1.
    rewrite (SetFlags_eq r n1) by apply xnode_set. by rewrite xset_node_twice.
  - apply lookup_insert_eq.
  - unfold getNodeState, GetFlag, with_flags in *. simpl in *. by rewrite lookup_insert_ne.
  - intros i Hi1 Hi2. unfold with_flags. simpl. rewrite lookup_insert_ne by done.
    rewrite Hn1. case_decide; [done|]. simpl. by rewrite lookup_insert_ne.
  - rewrite Hn1. by case_decide.
  - rewrite Hn1. by case_decide.
  - rewrite Hn1. by case_decide.
  - rewrite Hn1. by case_decide.
  - rewrite Hn1. by case_decide.
Qed.
End retry.

(** ** What is scheduled *)

Section schedule.
Context {X : Ext} {MO : MapOrder}.

(** The metadata of the next retry of a value. *)
Definition meta_of (txn : transaction) (key : string) (ra : RetryOpt) : retryTxnMeta :=
  match retried_attempt txn key with
  | Some m => MkRetryMeta (rm_txnSeqNum m) (if ExpBackoff ra then i64 (rm_delay m * 2) else Period ra)
                (i64 (rm_attempt m + 1))
  | None => MkRetryMeta (txn_seqNum txn) (Period ra) 1
  end.

(** The retry of a key and the revision it is for; [None] when the key has no
    node, was never updated, or its update has no retry options. *)
Definition retry_of (x : ExecSt) (txn : transaction) (key : string) : option (retryTxnMeta * N) :=
  n ← lookup_node (cur_graph x) key;
  u ← getNodeLastUpdate (Some n);
  ra ← lu_retryArgs u;
  Some (meta_of txn key ra, lu_txnSeqNum u).

(** The retry [meta] covers [key] at the revision [rev]. *)
Definition covers (l : list retryTxn) (meta : retryTxnMeta) (key : string) (rev : N) : Prop :=
  exists t, t ∈ l /\ rtx_meta t = meta /\ rtx_keys t !! key = Some rev.

Lemma add_retry_metas meta key rev l m :
  m ∈ map rtx_meta (add_retry meta key rev l) <-> m = meta \/ m ∈ map rtx_meta l.
Proof.
  induction l as [|t l IH]; simpl.
  - rewrite elem_of_cons. tauto.
  - case_decide as Hm; simpl; rewrite !elem_of_cons; [subst; tauto|]. rewrite IH. tauto.
Qed.

Lemma add_retry_NoDup meta key rev l :
  NoDup (map rtx_meta l) -> NoDup (map rtx_meta (add_retry meta key rev l)).
Proof.
  induction l as [|t l IH]; simpl; intros Hn; [repeat constructor; set_solver|].
  apply NoDup_cons in Hn as [Ht Hn]. case_decide as Hm; simpl; [subst; by constructor|].
  constructor; [|by apply IH]. rewrite add_retry_metas. by intros [?|?].
Qed.

Lemma covers_cons t l m k r :
  covers (t :: l) m k r <-> (rtx_meta t = m /\ rtx_keys t !! k = Some r) \/ covers l m k r.
Proof.
  unfold covers. setoid_rewrite elem_of_cons. naive_solver.
Qed.

Lemma add_retry_covers meta key rev l m k r :
  NoDup (map rtx_meta l) ->
  (covers (add_retry meta key rev l) m k r
   <-> (m = meta /\ k = key /\ r = rev) \/ (~ (m = meta /\ k = key) /\ covers l m k r)).
Proof.
  induction l as [|t l IH]; cbn [add_retry map].
  - intros _. rewrite covers_cons. simpl. rewrite lookup_singleton_Some.
    assert (covers [] m k r <-> False) as -> by (split; [intros (? & ?%not_elem_of_nil & _)|]; done).
    naive_solver.
  - intros [Ht Hn]%NoDup_cons. case_decide as Hm.
    + rewrite !covers_cons. simpl. rewrite lookup_insert_Some.
      assert (covers l meta k r -> False) as Hno.
      { intros (t' & Hin & Hm' & _). apply Ht. rewrite Hm, <- Hm'. by apply list_elem_of_fmap_2. }
      subst meta. destruct (decide (m = rtx_meta t)) as [->|]; naive_solver.
    + rewrite !covers_cons, IH by done. naive_solver.
Qed.

Lemma retry_meta_eq txn key u ra (x : ExecSt) : txn_ok txn -> lu_retryArgs u = Some ra ->
  retry_meta txn key u x = Ok (meta_of txn key ra, x).
Proof.
  intros Hok Hra. unfold retry_meta.
  assert ((if decide (txn_txnType txn = RetryFailedOps) then
      rtx ← the_retry txn;
      mret (if decide (is_Some (rtx_keys rtx !! key)) then Some (rtx_meta rtx) else None)
    else mret None) x = Ok (retried_attempt txn key, x)) as H.
  { unfold txn_ok, retried_attempt in *. case_decide as E.
    - rewrite E in Hok |- *. destruct Hok as [rtx Hr]. unfold the_retry, mbind, M_bind, deref, lift. rewrite Hr.
      simpl. destruct (rtx_keys rtx !! key);
        [rewrite decide_True by eauto|rewrite decide_False by by intros []]; done.
    - by destruct (txn_txnType txn). }
  unfold mbind, M_bind in H |- *. rewrite H. unfold deref, lift. rewrite Hra. simpl.
  unfold meta_of. by destruct (retried_attempt txn key).
Qed.

Lemma schedule_fold txn (x : ExecSt) keys : txn_ok txn ->
  (forall k, k ∈ keys -> is_Some (retry_of x txn k)) -> forall acc, NoDup (map rtx_meta acc) ->
  exists l, foldM (fun acc retryKey =>
      n ← xGetNode retryKey;
      u ← deref "nil pointer dereference" (getNodeLastUpdate n);
      meta ← retry_meta txn retryKey u;
      mret (add_retry meta retryKey (lu_txnSeqNum u) acc)) keys acc x = Ok (l, x)
    /\ NoDup (map rtx_meta l)
    /\ forall m k r, covers l m k r
         <-> (k ∈ keys /\ retry_of x txn k = Some (m, r))
             \/ (covers acc m k r /\ (k ∈ keys -> forall r', retry_of x txn k <> Some (m, r'))).
Proof.
  intros Hok. induction keys as [|key keys IH]; intros Hk acc Hn; cbn [foldM].
  - exists acc. split; [done|]. split; [done|]. intros m k r. set_solver.
  - destruct (Hk key ltac:(apply list_elem_of_here)) as [[m0 r0] Hr].
    pose proof Hr as Hr0. unfold retry_of in Hr0.
    destruct (lookup_node (cur_graph x) key) as [n|] eqn:En; [|done].
    cbn [mbind option_bind] in Hr0. destruct (getNodeLastUpdate (Some n)) as [u|] eqn:Eu; [|done].
    cbn [mbind option_bind] in Hr0. destruct (lu_retryArgs u) as [ra|] eqn:Ea; [|done].
    cbn [mbind option_bind] in Hr0. injection Hr0 as <- <-.
    destruct (IH ltac:(intros; apply Hk; by apply list_elem_of_further)
      (add_retry (meta_of txn key ra) key (lu_txnSeqNum u) acc) (add_retry_NoDup _ _ _ _ Hn))
      as (l & E & Hnl & Hl).
    exists l. split_and!; [|done|].
    + unfold mbind, M_bind, xGetNode, gets in E |- *. rewrite En. unfold deref, lift in E |- *. rewrite Eu. simpl.
      pose proof (retry_meta_eq txn key u ra x Hok Ea) as Hm. rewrite Hm. exact E.
    + intros m k r. rewrite Hl, add_retry_covers by done. rewrite elem_of_cons.
      destruct (decide (k = key)) as [->|]; [|naive_solver].
      rewrite Hr. destruct (decide (m = meta_of txn key ra)) as [->|]; [|naive_solver].
      destruct (decide (key ∈ keys)); naive_solver.
Qed.

(** C15: the values to retry are grouped into one retry per sequence of attempts:
    the retries have different metadata, together they cover each key exactly
    once, with the revision that failed, and nothing else is touched. *)
Theorem retries_scheduled (txn : transaction) (toRetry : KeySet) (x : ExecSt) (Hok : txn_ok txn)
    (Hk : forall k, k ∈ ks_Iterate toRetry -> is_Some (retry_of x txn k)) :
  exists l, scheduleRetries txn toRetry x = Ok (l, x)
    /\ NoDup (map rtx_meta l)
    /\ forall meta key rev, covers l meta key rev
         <-> key ∈ ks_Iterate toRetry /\ retry_of x txn key = Some (meta, rev).
Proof.
  destruct (schedule_fold txn x (ks_Iterate toRetry) Hok Hk [] NoDup_nil_2) as (l & E & Hn & Hl).
  exists l. split; [exact E|]. split; [done|]. intros m k r. rewrite Hl.
  split; [|by left]. intros [H|[(t & ?%not_elem_of_nil & _) _]]; done.
Qed.

(** ** A sequence of failing retries *)

(** The transaction of a retry, as [delayRetry] enqueues it. *)
Definition retry_txn (seqNum : N) (meta : retryTxnMeta) (key : string) (rev : N) : transaction :=
  txnset_seqNum seqNum (MkTransaction 0 RetryFailedOps [] None (Some (MkRetryTxn meta {[key := rev]})) None).

(** The metadata after [n] more failures: [seqNum i] and [rev i] are those of the
    i-th retry. *)
Fixpoint nth_retry (txn : transaction) (key : string) (ra : RetryOpt) (seqNum rev : nat -> N) (n : nat) :
    retryTxnMeta :=
  match n with
  | O => meta_of txn key ra
  | S n => meta_of (retry_txn (seqNum n) (nth_retry txn key ra seqNum rev n) key (rev n)) key ra
  end.

Lemma retried_retry_txn seqNum m key rev : retried_attempt (retry_txn seqNum m key rev) key = Some m.
Proof. unfold retried_attempt, retry_txn. simpl. by rewrite lookup_singleton_eq. Qed.

Lemma nth_retry_eq txn key ra seqNum rev n :
  retried_attempt txn key = None -> (0 <= Period ra)%Z ->
  (Period ra * 2 ^ Z.of_nat n < 2 ^ 63)%Z -> (Z.of_nat n < 2 ^ 63 - 1)%Z ->
  nth_retry txn key ra seqNum rev n
  = MkRetryMeta (txn_seqNum txn) (if ExpBackoff ra then Period ra * 2 ^ Z.of_nat n else Period ra)%Z
      (Z.of_nat n + 1).
Proof.
  intros Htxn Hp. induction n as [|n IH]; intros Hd Hn; cbn [nth_retry]; unfold meta_of.
  - rewrite Htxn. simpl. f_equal. by rewrite Z.mul_1_r; destruct (ExpBackoff ra).
  - rewrite Nat2Z.inj_succ, Z.pow_succ_r in Hd by lia.
    rewrite retried_retry_txn, IH by nia. cbn [rm_txnSeqNum rm_delay rm_attempt].
    f_equal; [|rewrite i64_id; lia]. destruct (ExpBackoff ra); [|done].
    rewrite i64_id by nia. rewrite Nat2Z.inj_succ, Z.pow_succ_r by lia. lia.
Qed.

(** a value whose retries keep failing is retried with the numbers 1, 2, ...
    for the transaction that set it, at the configured period, doubled each time
    with back-off and without overflow while it fits into 63 bits; the retry
    number [n+1] marks the value for yet another one exactly when the maximum is
    0 (no limit) or at least [n+2]: there are never more than the maximum. *)
Theorem retry_sequence (txn : transaction) (key : string) (ra : RetryOpt) (seqNum rev : nat -> N) (n : nat)
    (args : applyValueArgs) (err : error) (x : ExecSt) (r : nat) (node : node) (u : LastUpdate)
    (Htxn : retried_attempt txn key = None) (Hp : (0 <= Period ra)%Z)
    (Hd : (Period ra * 2 ^ Z.of_nat n < 2 ^ 63)%Z) (Hn : (Z.of_nat n < 2 ^ 63 - 2)%Z)
    (Hargs : a_txn args = retry_txn (seqNum n) (nth_retry txn key ra seqNum rev n) key (rev n))
    (Hnode : xnode x r = Some node) (Hkey : getNodeBaseKey node = key)
    (Hu : getNodeLastUpdate (Some node) = Some u)
    (Hra : lu_retryArgs u = Some ra) (Hen : lu_retryEnabled u = true) :
  nth_retry txn key ra seqNum rev n
  = MkRetryMeta (txn_seqNum txn) (if ExpBackoff ra then Period ra * 2 ^ Z.of_nat n else Period ra)%Z
      (Z.of_nat n + 1)
  /\ exists x', markFailedValue r args err true x
       = Ok (if ((MaxCount ra =? 0) || (Z.of_nat n + 2 <=? MaxCount ra))%Z
             then ValueState_RETRYING else ValueState_FAILED, x').
Proof.
  pose proof (nth_retry_eq txn key ra seqNum rev n Htxn Hp Hd ltac:(lia)) as Hm. split; [exact Hm|].
  destruct (markFailedValue_eq r args err true x node u) as (n' & E & _); [|done..|].
  { rewrite Hargs. by eexists. }
  exists (xset_node r n' x). rewrite E. f_equal. f_equal. unfold failed_state. rewrite Hargs. simpl.
  unfold reverts_failures, isNBTxn. simpl. rewrite Hkey. unfold next_attempt.
  rewrite retried_retry_txn, Hm. simpl. unfold retry_allowed. rewrite Hra, Hen. simpl.
  rewrite i64_id by lia. by replace (Z.of_nat n + 1 + 1)%Z with (Z.of_nat n + 2)%Z by lia.
Qed.
End schedule.


(** ** Witnesses *)

Definition demo_retry_opt : RetryOpt := MkRetryOpt 1000 3 true.
Definition demo_retry_nb : nbTxn := MkNbTxn NotResync false true true (Some demo_retry_opt) false false "retry".
Definition demo_failed : transaction :=
  demo_txn demo_retry_nb [("if/x", Some 13); ("if/y", Some 13); ("if/z", Some 1)].
(** The state after two of the interfaces failed. *)
Definition demo_retry_sched : sched := run_state (processTransaction demo_fuel demo_failed) demo_sched.
Definition demo_exec_of (s : sched) : ExecSt :=
  MkExec (s_graph s) (demo_handle s true false) (s_registry s) (s_world s) (s_updatedStates s)
    (s_nonRetryable s).

Lemma demo_retry_of :
  let x := demo_exec_of demo_retry_sched in
  let m := MkRetryMeta 0 1000 1 in
  retry_of x demo_failed "if/x" = Some (m, 0%N) /\ retry_of x demo_failed "if/y" = Some (m, 0%N).
Proof. vm_compute. done. Defined.

Example retries_scheduled_witness :
  exists l, scheduleRetries demo_failed (NewSliceBasedKeySet ["if/x"; "if/y"]) (demo_exec_of demo_retry_sched)
      = Ok (l, demo_exec_of demo_retry_sched)
    /\ covers l (MkRetryMeta 0 1000 1) "if/x" 0 /\ covers l (MkRetryMeta 0 1000 1) "if/y" 0.
Proof.
  destruct demo_retry_of as [Hx Hy]. revert Hx Hy. generalize (demo_exec_of demo_retry_sched). intros x Hx Hy.
  assert (ks_Iterate (NewSliceBasedKeySet ["if/x"; "if/y"]) = ["if/x"; "if/y"]) as Hi by reflexivity.
  destruct (retries_scheduled demo_failed (NewSliceBasedKeySet ["if/x"; "if/y"]) x) as (l & E & _ & Hl).
  - by eexists.
  - intros k Hk. rewrite Hi in Hk.
    apply elem_of_cons in Hk as [->|Hk]; [by rewrite Hx|].
    apply list_elem_of_singleton in Hk as ->. by rewrite Hy.
  - exists l. split; [exact E|]. split.
    + apply Hl. rewrite Hi. split; [apply list_elem_of_here|exact Hx].
    + apply Hl. rewrite Hi. split; [apply list_elem_of_further, list_elem_of_here|exact Hy].
Defined.

(** The scheduler itself schedules the retries of the two interfaces together. *)
Example demo_retries :
  map (fun t => (rtx_meta t, map_to_list (rtx_keys t))) (s_retries demo_retry_sched)
  = [(MkRetryMeta 0 1000 1, [("if/y", 0%N); ("if/x", 0%N)])].
Proof. vm_compute. reflexivity. Qed.

Definition demo_retry_args (txn : transaction) (key : string) : applyValueArgs :=
  txn_args txn (MkKvForTxn key (Some 13) None FromNB false) (NewMapBasedKeySet [key]) true false.

(** The third retry is the last one: three are allowed. *)
Example retry_sequence_witness :
  let m := nth_retry demo_failed "if/x" demo_retry_opt N.of_nat N.of_nat 2 in
  m = MkRetryMeta 0 4000 3
  /\ exists x', markFailedValue 0 (demo_retry_args (retry_txn 2 m "if/x" 2) "if/x") (Opaque "failure") true
         (demo_exec_of demo_retry_sched) = Ok (ValueState_FAILED, x').
Proof.
  assert (match xnode (demo_exec_of demo_retry_sched) 0 with
    | Some n => getNodeBaseKey n = "if/x" /\ match getNodeLastUpdate (Some n) with
        | Some u => lu_retryArgs u = Some demo_retry_opt /\ lu_retryEnabled u = true | None => False end
    | None => False end) as H by (vm_compute; done).
  revert H. generalize (demo_exec_of demo_retry_sched). intros x H.
  destruct (xnode x 0) as [n|] eqn:En; [|contradiction]. destruct H as [Hk H].
  destruct (getNodeLastUpdate (Some n)) as [u|] eqn:Eu; [|contradiction]. destruct H as [Hra Hen].
  exact (retry_sequence demo_failed "if/x" demo_retry_opt N.of_nat N.of_nat 2
    (demo_retry_args (retry_txn 2 (nth_retry demo_failed "if/x" demo_retry_opt N.of_nat N.of_nat 2) "if/x" 2)
       "if/x") (Opaque "failure") x 0 n u eq_refl ltac:(done) ltac:(done) ltac:(done) eq_refl En Hk Eu Hra Hen).
Defined.
