(* ===== verification/OrderFacts.v ===== *)
(** * The order of the values of a transaction

    What [orderValuesByOp] of txn_order.go returns. *)
From S2P Require Import Prelude KeySet Monad Api Registry Flags EdgeLookup Graph GraphRW NodeUtils.
From S2P Require Import Descriptor TxnOps ExecState Refresh TxnExec Scheduler TxnProcess Plugin Demo.

Section order.
Context {X : Ext} {MO : MapOrder}.

(** The descriptor of a key, found without the cache. *)
Definition selected (reg : registry) (key : string) : option KVDescriptor :=
  snd <$> find (fun p => d_KeySelector p.2 key) (map_to_list (reg_descriptors reg)).

Lemma selected_spec reg key d : reg_disjoint reg -> (selected reg key = Some d <-> selects reg key d).
Proof.
  intros Hd. unfold selected.
  assert (forall d, selected reg key = Some d -> selects reg key d) as H.
  { intros d' ([n d''] & [Hin Hs]%find_some & ->)%fmap_Some. exists n. split; [|done].
    by apply elem_of_map_to_list, list_elem_of_In. }
  split; [apply H|]. intros Hs. fold (selected reg key).
  destruct (selected reg key) as [d'|] eqn:E.
  - f_equal. eapply selects_unique; [exact Hd|by apply H|exact Hs].
  - unfold selected in E. apply fmap_None in E. destruct Hs as (n & Hn & Hk).
    pose proof (find_none _ _ E (n, d)) as Hf. simpl in Hf. rewrite Hf in Hk; [done|].
    by apply list_elem_of_In, elem_of_map_to_list.
Qed.

Lemma selected_descriptors reg reg' key :
  reg_descriptors reg' = reg_descriptors reg -> selected reg' key = selected reg key.
Proof. unfold selected. by intros ->. Qed.

(** What a look-up of a descriptor does to the scheduler. *)
Lemma s_descriptor_for_spec (s : sched) key :
  rtc reg_step NewRegistry (s_registry s) ->
  exists reg', s_descriptor_for key s = Ok (selected (s_registry s) key, sset_registry reg' s)
    /\ reg_descriptors reg' = reg_descriptors (s_registry s) /\ rtc reg_step NewRegistry reg'.
Proof.
  intros Hr. destruct (reg_reachable_inv _ Hr) as [Hd Hc].
  destruct (GetDescriptorForKey_ok (s_registry s) key Hd Hc) as (r & reg' & E & H1 & H2 & H3).
  assert (r = selected (s_registry s) key) as ->.
  { apply option_eq. intros d. by rewrite H1, selected_spec. }
  exists reg'. split_and!; [|done|].
  - unfold s_descriptor_for, zoom. by rewrite E.
  - eapply rtc_r; [exact Hr|]. by eapply step_lookup.
Qed.

(** The class of a value and its place in the order. *)
Definition class_in (s : sched) (kv : kvForTxn) : valueClass :=
  value_class (kg_graph (s_graph s)) (selected (s_registry s) (kv_key kv)) kv.
Definition class_rank (c : valueClass) : nat :=
  match c with ClassDelete => 0 | ClassRecreate => 1 | ClassCreate => 2 | ClassUpdate => 3 end.
Definition executed_before (s : sched) (a b : kvForTxn) : Prop :=
  class_rank (class_in s a) < class_rank (class_in s b)
  \/ (class_in s a = class_in s b /\ cmp_le String.compare (kv_key a) (kv_key b)).

Definition classify (g : graphR) (kv : kvForTxn) : Sch (kvForTxn * valueClass) :=
  d ← s_descriptor_for (kv_key kv); mret (kv, value_class g d kv).

Lemma classify_spec (s : sched) l : forall reg,
  reg_descriptors reg = reg_descriptors (s_registry s) -> rtc reg_step NewRegistry reg ->
  exists reg', mapM (classify (kg_graph (s_graph s))) l (sset_registry reg s)
      = Ok (map (fun kv => (kv, class_in s kv)) l, sset_registry reg' s)
    /\ reg_descriptors reg' = reg_descriptors (s_registry s) /\ rtc reg_step NewRegistry reg'.
Proof.
  induction l as [|kv l IH]; intros reg Hd Hr; simpl; [by exists reg|].
  destruct (s_descriptor_for_spec (sset_registry reg s) (kv_key kv) Hr) as (reg1 & E & Hd1 & Hr1).
  destruct (IH reg1 ltac:(simpl in Hd1; congruence) Hr1) as (reg' & E' & Hd' & Hr').
  exists reg'. split; [|done].
  unfold mbind, M_bind, classify at 1. unfold mbind, M_bind. rewrite E. simpl.
  change (sset_registry reg1 (sset_registry reg s)) with (sset_registry reg1 s). rewrite E'.
  simpl. unfold class_in. by rewrite (selected_descriptors _ _ _ Hd).
Qed.

Lemma of_class_map (cl : kvForTxn -> valueClass) c l :
  of_class c (map (fun kv => (kv, cl kv)) l) = filter (fun kv => cl kv = c) l.
Proof.
  unfold of_class. induction l as [|kv l IH]; simpl; [done|].
  rewrite !filter_cons. simpl. case_decide; simpl; by rewrite IH.
Qed.

Definition in_order (cl : kvForTxn -> valueClass) (l : list kvForTxn) : list kvForTxn :=
  filter (fun kv => cl kv = ClassDelete) l ++ filter (fun kv => cl kv = ClassRecreate) l
  ++ filter (fun kv => cl kv = ClassCreate) l ++ filter (fun kv => cl kv = ClassUpdate) l.

Lemma in_order_perm cl l : in_order cl l ≡ₚ l.
Proof.
  unfold in_order. induction l as [|kv l IH]; [done|]. rewrite !filter_cons.
  destruct (cl kv) eqn:E; repeat (rewrite decide_True by done || rewrite decide_False by done); simpl;
    rewrite <- IH at 5; solve_Permutation.
Qed.

Lemma in_order_sorted cl (le : kvForTxn -> kvForTxn -> Prop) l :
  StronglySorted le l ->
  StronglySorted (fun a b => class_rank (cl a) < class_rank (cl b) \/ (cl a = cl b /\ le a b)) (in_order cl l).
Proof.
  intros Hs. set (R := fun a b => _ \/ _).
  assert (forall c, StronglySorted R (filter (fun kv => cl kv = c) l)) as Hc.
  { intros c. induction Hs as [|kv l Hs IH Hf]; [constructor|]. rewrite filter_cons.
    case_decide as Hk; [|done]. constructor; [done|]. apply Forall_forall.
    intros b [Hb Hin]%list_elem_of_filter. right. split; [congruence|].
    by eapply Forall_forall in Hf. }
  assert (forall c a, a ∈ filter (fun kv => cl kv = c) l -> cl a = c) as Hin.
  { intros c a [? _]%list_elem_of_filter. done. }
  unfold in_order.
  repeat (apply StronglySorted_app_2; [|apply Hc|]); try apply Hc;
    intros a b Ha Hb; left; repeat setoid_rewrite elem_of_app in Hb;
    repeat match goal with H : _ \/ _ |- _ => destruct H end;
    repeat match goal with H : _ ∈ filter _ l |- _ => apply Hin in H; rewrite H end; simpl; lia.
Qed.

(** C13: ordering always succeeds, keeps all the values, and executes the
    deletions first, then the values to be re-created, then new (or unavailable)
    ones and the updates last, each group by key; nothing but the cache of the
    registry changes. *)
Theorem order_values (s : sched) (values : list kvForTxn) (Hr : rtc reg_step NewRegistry (s_registry s)) :
  exists ordered reg', orderValuesByOp values s = Ok (ordered, sset_registry reg' s)
    /\ ordered ≡ₚ values
    /\ StronglySorted (executed_before s) ordered
    /\ reg_descriptors reg' = reg_descriptors (s_registry s) /\ rtc reg_step NewRegistry reg'.
Proof.
  destruct (classify_spec s (sort_by String.compare kv_key values) (s_registry s) eq_refl Hr)
    as (reg' & E & Hd & Hr').
  assert (sset_registry (s_registry s) s = s) as Hs by by destruct s.
  rewrite Hs in E. exists (in_order (class_in s) (sort_by String.compare kv_key values)), reg'.
  split_and!; [| | |done..].
  - unfold orderValuesByOp, s_read, gets, mbind, M_bind. fold (classify (kg_graph (s_graph s))).
    unfold mbind, M_bind in E. unfold classify, mbind, M_bind in E |- *. rewrite E.
    unfold mret, M_ret, in_order. by rewrite !of_class_map.
  - rewrite in_order_perm. apply sort_by_perm.
  - pose proof (in_order_sorted (class_in s) _ _ (sort_by_sorted String.compare kv_key values)) as H.
    exact H.
Qed.
End order.

(** ** Witness *)

Lemma prefix_head c p key : String.prefix (String c p) key = true -> String.get 0 key = Some c.
Proof. destruct key as [|a key]; simpl; [done|]. by destruct (Ascii.ascii_dec c a) as [->|]. Defined.

Lemma demo_disjoint l (ds := [demo_iface; demo_route; demo_peer]) :
  l ⊆ ds -> reg_disjoint (fold_right RegisterDescriptor NewRegistry l).
Proof.
  intros Hl.
  assert (forall n d, reg_descriptors (fold_right RegisterDescriptor NewRegistry l) !! n = Some d ->
    d_Name d = n /\ d ∈ ds) as H.
  { intros n d. induction l as [|a l IH]; simpl; [by rewrite lookup_empty|].
    rewrite lookup_insert_Some. intros [[<- <-]|[_ Hn]]; [set_solver|].
    apply IH; [set_solver|done]. }
  split; [intros n d Hn; by apply H|].
  intros key n1 n2 d1 d2 [<- H1]%H [<- H2]%H. unfold ds in H1, H2.
  rewrite !elem_of_cons in H1, H2.
  destruct H1 as [->|[->|[->|[]%not_elem_of_nil]]], H2 as [->|[->|[->|[]%not_elem_of_nil]]];
    simpl; intros ?%prefix_head ?%prefix_head; congruence.
Defined.

Lemma demo_sched_reachable : rtc reg_step NewRegistry (s_registry demo_sched).
Proof.
  change (s_registry demo_sched)
    with (fold_right RegisterDescriptor NewRegistry [demo_peer; demo_route; demo_iface]).
  eapply rtc_l; [apply (step_register demo_iface); [reflexivity|]|].
  { apply (demo_disjoint [demo_iface]). set_solver. }
  eapply rtc_l; [apply (step_register demo_route); [reflexivity|]|].
  { apply (demo_disjoint [demo_route; demo_iface]). set_solver. }
  apply rtc_once, (step_register demo_peer); [reflexivity|].
  apply (demo_disjoint [demo_peer; demo_route; demo_iface]). set_solver.
Defined.

Example order_values_witness :
  let values := map (fun kv => MkKvForTxn kv.1 kv.2 None FromNB false)
    [("route/2", Some 1); ("if/b", None); ("if/a", Some 2)] in
  exists ordered reg', orderValuesByOp values demo_sched = Ok (ordered, sset_registry reg' demo_sched)
    /\ map kv_key ordered = ["if/b"; "if/a"; "route/2"].
Proof.
  intros values. destruct (order_values demo_sched values demo_sched_reachable)
    as (ordered & reg' & E & _). exists ordered, reg'. split; [exact E|].
  apply (f_equal (fun o => match o with Ok p => map kv_key p.1 | _ => [] end)) in E.
  vm_compute in E. symmetry. exact E.
Defined.
