(* ===== verification/HistoryFacts.v ===== *)
(** * The history of transactions

    Queries and trimming of the history, as filters of the recorded
    transactions. *)
From S2P Require Import Prelude KeySet Monad Api Registry Flags EdgeLookup Graph GraphRW NodeUtils.
From S2P Require Import Descriptor TxnOps CompressFacts ExecState Refresh TxnExec Scheduler TxnProcess.
From S2P Require Import Plugin Demo.

Lemma filter_none {A} (P : A -> Prop) `{!forall x, Decision (P x)} (l : list A) :
  Forall (fun x => ~ P x) l -> filter P l = [].
Proof. induction 1 as [|x l Hx Hl IH]; [done|]. by rewrite filter_cons, decide_False. Qed.

(** A prefix of the list satisfies [p]. *)
Definition closed_prefix {A} (p : A -> bool) (l : list A) : Prop :=
  StronglySorted (fun a b => p b = true -> p a = true) l.

Lemma take_while_filter {A} (p : A -> bool) l :
  closed_prefix p l ->
  take_while p l = filter (fun x => p x = true) l
  /\ drop (length (take_while p l)) l = filter (fun x => p x = false) l.
Proof.
  induction 1 as [|x l Hs IH Hf]; [done|]. rewrite !filter_cons. cbn [take_while].
  destruct (p x) eqn:E.
  - destruct IH as [IH1 IH2]. rewrite decide_True, decide_False by congruence. simpl. split; [by rewrite IH1|exact IH2].
  - assert (Forall (fun y => p y = false) l) as Hn.
    { eapply Forall_impl; [done|]. cbv beta. intros y Hy.
      destruct (p y); [by specialize (Hy eq_refl)|done]. }
    rewrite decide_False, decide_True by congruence. split.
    + symmetry. apply filter_none. eapply Forall_impl; [done|]. simpl. intros y ->. done.
    + simpl. f_equal. symmetry. apply filter_all. by apply Forall_forall.
Qed.

Lemma StronglySorted_filter {A} (R : relation A) (P : A -> Prop) `{!forall x, Decision (P x)} l :
  StronglySorted R l -> StronglySorted R (filter P l).
Proof.
  induction 1 as [|x l Hs IH Hf]; [constructor|]. rewrite filter_cons. case_decide; [|done].
  constructor; [done|]. by apply Forall_filter.
Qed.

Lemma StronglySorted_rev {A} (R : relation A) l :
  StronglySorted R l -> StronglySorted (flip R) (rev l).
Proof.
  induction 1 as [|x l Hs IH Hf]; simpl; [constructor|].
  apply StronglySorted_app_2; [|done|repeat constructor].
  intros a b Ha%list_elem_of_In%in_rev ->%list_elem_of_singleton. rewrite Forall_forall in Hf.
  by apply Hf, list_elem_of_In.
Qed.

Lemma closed_prefix_mono {A} (R : relation A) (p : A -> bool) l :
  (forall a b, R a b -> p b = true -> p a = true) -> StronglySorted R l -> closed_prefix p l.
Proof.
  intros Hp. induction 1 as [|x l Hs IH Hf]; constructor; [done|].
  eapply Forall_impl; [done|]. intros y. apply Hp.
Qed.

Lemma take_while_end {A} (p : A -> bool) l :
  closed_prefix p (rev l) ->
  take (length l - length (take_while p (rev l))) l = filter (fun x => p x = false) l.
Proof.
  intros Hp. pose proof (proj2 (take_while_filter p (rev l) Hp)) as Hd.
  apply (f_equal (@rev A)) in Hd. rewrite skipn_rev, rev_involutive in Hd.
  by rewrite Hd, filter_rev, rev_involutive.
Qed.

Lemma take_take_while {A} (p : A -> bool) l : take (length (take_while p l)) l = take_while p l.
Proof. induction l as [|x l IH]; simpl; [done|]. destruct (p x); simpl; by rewrite ?IH. Qed.

Section history.
Context {X : Ext}.

(** Transactions are recorded one after another. *)
Definition earlier (a b : RecordedTxn) : Prop := (rt_Start a <= rt_Start b)%Z /\ (rt_Stop a <= rt_Stop b)%Z.

Definition in_window (since until : option Z) (t : RecordedTxn) : Prop :=
  match since with Some f => (f <= rt_Start t)%Z | None => True end
  /\ match until with Some u => (rt_Start t <= u)%Z | None => True end.

#[export] Instance in_window_dec since until t : Decision (in_window since until t).
Proof. unfold in_window. destruct since, until; apply _. Defined.

Lemma history_filter (since until : option Z) (txns : list RecordedTxn) :
  StronglySorted earlier txns ->
  GetTransactionHistory since until txns = Ok (filter (in_window since until) txns).
Proof.
  intros Hs. unfold GetTransactionHistory.
  set (bad := match since, until with Some f, Some u => (u <? f)%Z | _, _ => false end).
  destruct bad eqn:Eb.
  { unfold bad in Eb. destruct since as [f|], until as [u|]; try done. apply Z.ltb_lt in Eb. f_equal. symmetry.
    apply filter_none, Forall_forall. intros t _ [H1 H2]. lia. }
  (* the records up to [until] *)
  set (n := length txns - match until with Some u => count_after u txns | None => 0 end).
  assert (take n txns = filter (in_window None until) txns) as Hn.
  { unfold n. destruct until as [u|].
    - unfold count_after. set (p := fun t => (u <? rt_Start t)%Z).
      assert (closed_prefix p (rev txns)) as Hp.
      { apply (closed_prefix_mono (flip earlier)); [|by apply StronglySorted_rev].
        unfold earlier, flip, p. intros a b [H _]. rewrite !Z.ltb_lt. lia. }
      fold p. rewrite (take_while_end p txns Hp).
      apply list_filter_iff. intros t. unfold p, in_window. rewrite Z.ltb_ge. tauto.
    - rewrite Nat.sub_0_r, take_ge by done. symmetry. apply filter_all. by intros t _. }
  set (l := filter (in_window None until) txns) in *.
  destruct since as [f|]; simpl.
  - unfold count_before. set (p := fun t => (rt_Start t <? f)%Z).
    assert (forall l', StronglySorted earlier l' -> closed_prefix p l') as Hp.
    { intros l'. apply closed_prefix_mono. unfold earlier, p. intros a b [H _]. rewrite !Z.ltb_lt. lia. }
    assert (take_while p txns = take_while p l) as Ht.
    { rewrite (proj1 (take_while_filter p txns (Hp _ Hs))).
      rewrite (proj1 (take_while_filter p l (Hp _ (StronglySorted_filter _ _ _ Hs)))).
      unfold l. rewrite list_filter_filter. apply list_filter_iff. intros t. split; [|by intros [H _]].
      intros H. split; [done|]. split; [done|]. destruct until as [u|]; [|done].
      unfold bad in Eb. unfold p in H. apply Z.ltb_ge in Eb. apply Z.ltb_lt in H. lia. }
    rewrite Ht.
    assert (length (take_while p l) <= n) as Hle.
    { rewrite (proj1 (take_while_filter p l (Hp _ (StronglySorted_filter _ _ _ Hs)))).
      etrans; [apply length_filter|]. fold l. rewrite <- Hn, length_take. lia. }
    rewrite (proj2 (Nat.leb_le _ _) Hle), Hn. f_equal.
    rewrite (proj2 (take_while_filter p l (Hp _ (StronglySorted_filter _ _ _ Hs)))).
    unfold l. rewrite list_filter_filter. apply list_filter_iff. intros t. unfold p, in_window.
    rewrite Z.ltb_ge. tauto.
  - by rewrite Hn.
Qed.

(** on a history in the order of recording, a query for a time window never
    fails and returns exactly the transactions that started in it, in order. *)
Theorem history_window (since until : option Z) (txns : list RecordedTxn)
    (Hs : StronglySorted earlier txns) :
  GetTransactionHistory since until txns = Ok (filter (in_window since until) txns).
Proof. by apply history_filter. Qed.

(** Recorded in the initial period, or young enough. *)
Definition kept (now start initPeriod ageLimit : Z) (t : RecordedTxn) : Prop :=
  (rt_Start t - start <= initPeriod)%Z \/ (now - rt_Stop t <= ageLimit)%Z.

#[export] Instance kept_dec now start initPeriod ageLimit t : Decision (kept now start initPeriod ageLimit t).
Proof. unfold kept. apply _. Defined.

Lemma trim_history_filter now start initPeriod ageLimit l :
  StronglySorted earlier l ->
  trim_history now start initPeriod ageLimit l = filter (kept now start initPeriod ageLimit) l.
Proof.
  intros Hs. unfold trim_history.
  set (p := fun t => negb (initPeriod <? rt_Start t - start)%Z).
  set (q := fun t => negb (now - rt_Stop t <=? ageLimit)%Z).
  assert (forall t, p t = true <-> (rt_Start t - start <= initPeriod)%Z) as Hp.
  { intros t. unfold p. rewrite negb_true_iff, Z.ltb_ge. lia. }
  assert (forall t, q t = true <-> ~ (now - rt_Stop t <= ageLimit)%Z) as Hq.
  { intros t. unfold q. rewrite negb_true_iff, Z.leb_gt. lia. }
  pose proof (take_while_filter p l) as H1. destruct H1 as [Hp1 Hp2].
  { apply (closed_prefix_mono earlier); [|done]. intros a b [? _]. rewrite !Hp. lia. }
  pose proof (take_while_filter q (drop (length (take_while p l)) l)) as H2. destruct H2 as [Hq1 Hq2].
  { apply (closed_prefix_mono earlier); [intros a b [_ ?]; rewrite !Hq; lia|].
    rewrite Hp2. by apply StronglySorted_filter. }
  set (i := length (take_while p l)) in *. set (c := length (take_while q (drop i l))) in *.
  rewrite drop_drop in Hq2.
  assert (take i l ++ drop (i + c) l = filter (kept now start initPeriod ageLimit) l) as Hres.
  { rewrite Hq2, Hp2. unfold i. rewrite take_take_while, Hp1.
    clear -Hp Hq Hs. induction Hs as [|t l Hs IH Hf]; [done|]. rewrite !filter_cons.
    unfold kept at 1. destruct (p t) eqn:Et.
    - rewrite decide_True by done. rewrite decide_False by done.
      rewrite decide_True by (left; by apply Hp). simpl. by rewrite IH.
    - assert (filter (fun x => p x = true) l = []) as Hnil.
      { apply filter_none. eapply Forall_impl; [exact Hf|]. intros y [Hy _]. rewrite Hp.
        apply not_true_iff_false in Et. rewrite Hp in Et. lia. }
      rewrite (decide_False (P := false = true)), decide_True by done. rewrite filter_cons.
      rewrite Hnil in IH |- *. simpl in IH |- *. apply not_true_iff_false in Et. rewrite Hp in Et.
      destruct (q t) eqn:Eq.
      + apply Hq in Eq. rewrite (decide_False (P := true = false)), decide_False by (done || unfold kept; lia). exact IH.
      + apply not_true_iff_false in Eq. rewrite Hq in Eq.
        rewrite (decide_True (P := false = false)), decide_True by (done || unfold kept; lia). by rewrite IH. }
  destruct (Nat.ltb_spec i (i + c)) as [Hlt|Hge]; [exact Hres|].
  assert (c = 0) as Hc by lia. rewrite Hc, Nat.add_0_r, take_drop in Hres. exact Hres.
Qed.

(** on a history in the order of recording, one round of trimming drops
    exactly the transactions after the initial period that are too old: queries
    see the others as before, and trimming again at the same time does nothing. *)
Theorem history_trimmed (now start initPeriod ageLimit : Z) (txns : list RecordedTxn)
    (Hs : StronglySorted earlier txns) :
  let trimmed := trim_history now start initPeriod ageLimit txns in
  trimmed = filter (kept now start initPeriod ageLimit) txns
  /\ trim_history now start initPeriod ageLimit trimmed = trimmed
  /\ forall since until, GetTransactionHistory since until trimmed
       = Ok (filter (kept now start initPeriod ageLimit) (filter (in_window since until) txns)).
Proof.
  cbv zeta. rewrite (trim_history_filter _ _ _ _ txns Hs).
  assert (StronglySorted earlier (filter (kept now start initPeriod ageLimit) txns)) as Hs'
    by by apply StronglySorted_filter.
  split_and!; [done| |].
  - rewrite trim_history_filter by done. apply filter_all. by intros t [H _]%list_elem_of_filter.
  - intros since until. rewrite history_filter by done. f_equal.
    rewrite !list_filter_filter. apply list_filter_iff. tauto.
Qed.
End history.

(** ** Witnesses *)

Definition demo_record (start stop : Z) : RecordedTxn :=
  MkRecordedTxn false false start stop 0 NBTransaction NotResync "" 0 0 [] [] [].
Definition demo_history : list RecordedTxn :=
  [demo_record 1 2; demo_record 3 5; demo_record 6 9; demo_record 20 30].

Lemma demo_history_sorted : StronglySorted earlier demo_history.
Proof. unfold demo_history. repeat constructor; simpl; lia. Defined.

Example history_window_witness :
  GetTransactionHistory (Some 3%Z) (Some 10%Z) demo_history = Ok [demo_record 3 5; demo_record 6 9].
Proof.
  rewrite (history_window (Some 3%Z) (Some 10%Z) demo_history demo_history_sorted).
  reflexivity.
Defined.

Example history_trimmed_witness :
  trim_history 40 0 2 20 demo_history = [demo_record 1 2; demo_record 20 30].
Proof.
  rewrite (proj1 (history_trimmed 40 0 2 20 demo_history demo_history_sorted)).
  reflexivity.
Defined.
