(* ===== verification/QueueFacts.v ===== *)
(** * The queue of transactions

    Transactions are processed in the order in which they were queued, none is
    lost, and a blocking one gets its result.  The next round is that of the
    oldest transaction, whatever its outcome; an empty notification panics. *)
From S2P Require Import Prelude KeySet Monad Api Registry Flags EdgeLookup Graph GraphRW.
From S2P Require Import NodeUtils Descriptor TxnOps ExecState Refresh TxnExec Scheduler TxnProcess Plugin Demo.

Section queue.
Context {X : Ext} {MO : MapOrder}.

(** The queue, the number of the next transaction, and whether the scheduler is
    closed; the results are looked at separately. *)
Definition queue_state (s : sched) : list transaction * N * bool := (s_txnQueue s, s_txnSeqNumber s, s_closed s).
Definition chan_state (s : sched) : list transaction * N * bool * list (N * option error) := (queue_state s, s_results s).

Abbreviation chans m := (preserves (same chan_state) m).

Lemma chans_s_now : chans s_now.
Proof. by apply preserves_zoom. Qed.
Lemma chans_s_read : chans s_read.
Proof. unfold s_read. preserves_auto. Qed.
Lemma chans_descriptor_for key : chans (s_descriptor_for key).
Proof. by apply preserves_zoom. Qed.
Lemma chans_with_write {A} b r (m : E A) : chans (with_write b r m).
Proof.
  intros s a s'. unfold with_write. destruct (Write _ _ _) as [w|e|]; [|done..]. cbn.
  destruct (m _) as [[a' x]|e|]; [|done..]. by intros [= <- <-].
Qed.
Lemma chans_the_nb txn : chans (the_nb (S := sched) txn).
Proof. unfold the_nb. preserves_auto. Qed.
Lemma chans_the_retry txn : chans (the_retry (S := sched) txn).
Proof. unfold the_retry. preserves_auto. Qed.
Hint Resolve chans_s_now chans_s_read chans_descriptor_for chans_with_write chans_the_nb chans_the_retry : monad.

Lemma chans_order values : chans (orderValuesByOp values).
Proof. unfold orderValuesByOp. preserves_auto. Qed.
Lemma chans_preRecord txn planned b : chans (preRecordTransaction txn planned b).
Proof. unfold preRecordTransaction. preserves_auto. Qed.
Lemma chans_record rt ops a b : chans (recordTransaction rt ops a b).
Proof. unfold recordTransaction. preserves_auto. by destruct (cfg_RecordTransactionHistory _). Qed.
Lemma chans_preRetry txn keyRevs : chans (preProcessRetryTxn txn keyRevs).
Proof. unfold preProcessRetryTxn. preserves_auto. Qed.
Lemma chans_preNotification txn : chans (preProcessNotification txn).
Proof. unfold preProcessNotification, filterNotification. preserves_auto. Qed.
Lemma chans_preNB txn : chans (preProcessNBTransaction txn).
Proof. unfold preProcessNBTransaction. preserves_auto. Qed.
Lemma chans_watch p : chans (WatchNBKeyPrefixRegistration p).
Proof. unfold WatchNBKeyPrefixRegistration. preserves_auto. Qed.
Hint Resolve chans_order chans_preRecord chans_record chans_preRetry chans_preNotification chans_preNB chans_watch : monad.

(** Whether someone waits for the result. *)
Definition blocking (txn : transaction) : bool :=
  isNBTxn txn && match txn_nb txn with Some nb => nb_isBlocking nb | None => false end.

Lemma the_blocking txn (s s' : sched) b :
  (if isNBTxn txn then nb ← the_nb txn; mret (nb_isBlocking nb) else mret false) s = Ok (b, s') ->
  b = blocking txn /\ s' = s.
Proof.
  unfold blocking, the_nb. destruct (isNBTxn txn); [|by intros [= <- <-]]. destruct (txn_nb txn) as [nb|]; [|done].
  by intros [= <- <-].
Qed.

Lemma bind_inv {S A B} (m : M S A) (f : A -> M S B) s b s' : (m ≫= f) s = Ok (b, s') ->
  exists a s1, m s = Ok (a, s1) /\ f a s1 = Ok (b, s').
Proof. unfold mbind, M_bind. destruct (m s) as [[a s1]|e|]; [|done..]. by eauto. Qed.

(** The same transaction to the queue: its number and whether it is blocking. *)
Definition alike (t t' : transaction) : Prop := txn_seqNum t = txn_seqNum t' /\ blocking t = blocking t'.

Lemma alike_values vs t : alike (txnset_values vs t) t.
Proof. done. Qed.

Lemma alike_preRetry txn keyRevs s p s' : preProcessRetryTxn txn keyRevs s = Ok (p, s') -> alike p.2 txn.
Proof. unfold preProcessRetryTxn. intros (g & s1 & _ & [= <- _])%bind_inv. apply alike_values. Qed.

Lemma alike_preNB txn s p s' : preProcessNBTransaction txn s = Ok (p, s') -> alike p.2 txn.
Proof.
  unfold preProcessNBTransaction. intros (nb & s1 & _ & E)%bind_inv. destruct (decide _); [by injection E as <- _|].
  apply bind_inv in E as (? & s2 & _ & (s3 & s4 & _ & (vs & s5 & _ & [= <- _])%bind_inv)%bind_inv). apply alike_values.
Qed.

Lemma pre_chans txn s pre s' : preProcessTransaction txn s = Ok (pre, s') ->
  chan_state s' = (s_txnQueue s, u64_incr (s_txnSeqNumber s), s_closed s, s_results s)
  /\ txn_seqNum (pre_txn pre) = s_txnSeqNumber s /\ blocking (pre_txn pre) = blocking txn.
Proof.
  unfold preProcessTransaction. intros (s0 & s1 & [= <- <-] & (u & s2 & [= _ <-] & E)%bind_inv)%bind_inv.
  set (txn0 := txnset_seqNum _ txn) in E. set (s2 := sset_counters _ _ s) in E.
  assert (alike (pre_txn pre) txn0 /\ chan_state s' = chan_state s2) as [[H1 H2] H3]; [|by rewrite H3, H1, H2].
  destruct (txn_txnType txn0) eqn:Et.
  - apply bind_inv in E as (b & s3 & E & [= <- <-]). split; [done|]. symmetry. by eapply chans_preNotification.
  - apply bind_inv in E as (p & s3 & E & (nb & s4 & E' & [= <- <-])%bind_inv). split; [by eapply alike_preNB|].
    apply chans_preNB in E. apply chans_the_nb in E'. unfold same in *. congruence.
  - apply bind_inv in E as (rtx & s3 & E & (p & s4 & E' & [= <- <-])%bind_inv). split; [by eapply alike_preRetry|].
    apply chans_the_retry in E. apply chans_preRetry in E'. unfold same in *. congruence.
  - apply bind_inv in E as (rtx & s3 & E & (p & s4 & E' & [= <- <-])%bind_inv). split; [by eapply alike_preRetry|].
    apply (preserves_deref (same chan_state)) in E. apply chans_preRetry in E'. unfold same in *. congruence.
Qed.

(** One result for a blocking transaction, none for others. *)
Definition results_of (txn : transaction) (seqNum : N) (err : option error) : list (N * option error) :=
  if blocking txn then [(seqNum, err)] else [].

Lemma post_chans txn executed s u s' : postProcessTransaction txn executed s = Ok (u, s') ->
  exists err, chan_state s' = (queue_state s, s_results s ++ results_of txn (txn_seqNum txn) err).
Proof.
  unfold postProcessTransaction. intros (g & s1 & E1 & (s1' & s2 & [= <- <-] & E)%bind_inv)%bind_inv.
  apply bind_inv in E as (kvErrors & s3 & E3 & E). apply bind_inv in E as (g' & s4 & E4 & E).
  apply bind_inv in E as (s4' & s5 & [= <- <-] & E). apply bind_inv in E as (upd & s6 & E6 & E).
  apply bind_inv in E as (u1 & s7 & [= _ <-] & E). apply bind_inv in E as (b & s8 & [-> ->]%the_blocking & E).
  apply bind_inv in E as (u2 & s9 & E9 & E). exists (txn_error (kvErrors ++ op_errors executed)).
  assert (chan_state s' = chan_state s9) as ->.
  { symmetry. revert E. destruct (map _ (filter _ upd)); [by intros [= _ <-]|]. intros E. by apply chans_with_write in E. }
  injection E9 as _ <-.
  assert (chan_state s6 = chan_state s) as H.
  { transitivity (chan_state s4).
    - apply (preserves_mapM (same chan_state)) in E6; [by symmetry|]. intros. apply preserves_lift. apply _.
    - apply chans_s_read in E4, E1. transitivity (chan_state s3); [by symmetry|]. transitivity (chan_state s1); [|by symmetry].
      destruct (0 <? _); [|by injection E3 as _ <-].
      apply bind_inv in E3 as ([[retries impls] errs] & t1 & E5%chans_with_write & E3).
      apply bind_inv in E3 as (u3 & t2 & Ew & (u4 & t3 & [= _ <-] & [= _ <-])%bind_inv).
      apply (preserves_forM (same chan_state)) in Ew; [|intros; preserves_auto]. unfold same in *.
      change (chan_state t2 = chan_state s1). congruence. }
  unfold chan_state, queue_state in *. cbn. injection H as -> -> -> ->. reflexivity.
Qed.

(** What one processed transaction does to the queue and the results. *)
Lemma process_chans fuel txn s u s' : processTransaction fuel txn s = Ok (u, s') ->
  exists err, chan_state s' = (s_txnQueue s, u64_incr (s_txnSeqNumber s), s_closed s,
    s_results s ++ results_of txn (s_txnSeqNumber s) err).
Proof.
  unfold processTransaction. intros (t0 & s1 & E1%chans_s_now & E)%bind_inv.
  apply bind_inv in E as (pre & s2 & (Hc & Hs & Hb)%pre_chans & E).
  set (txn1 := pre_txn pre) in *.
  apply bind_inv in E as (values & s3 & E3 & E).
  assert (chan_state s2 = chan_state s3) as H3.
  { destruct (pre_skipExec pre); [by injection E3 as _ <-|by apply chans_order in E3]. }
  apply bind_inv in E as (sim & s4 & E4 & E).
  assert (chan_state s3 = chan_state s4) as H4.
  { destruct (pre_skipSimulation pre); [by injection E4 as _ <-|by apply chans_with_write in E4]. }
  apply bind_inv in E as (rec & s5 & E5%chans_preRecord & E).
  apply bind_inv in E as (ops & s6 & E6 & E).
  assert (chan_state s5 = chan_state s6) as H6.
  { destruct (_ || _); [by injection E6 as _ <-|by apply chans_with_write in E6]. }
  apply bind_inv in E as (t1 & s7 & E7%chans_s_now & E).
  apply bind_inv in E as (u1 & s8 & E8%chans_record & E).
  apply bind_inv in E as (u2 & s9 & (err & E9)%post_chans & [= _ <-]). exists err.
  change (chan_state s9 = (s_txnQueue s, u64_incr (s_txnSeqNumber s), s_closed s,
    s_results s ++ results_of txn (s_txnSeqNumber s) err)).
  unfold same in *. assert (chan_state s8 = chan_state s2) as H8 by congruence.
  unfold results_of in *. change (blocking (txnset_values values txn1)) with (blocking txn1) in E9.
  change (txn_seqNum (txnset_values values txn1)) with (txn_seqNum txn1) in E9. rewrite Hs, Hb in E9.
  unfold chan_state, queue_state in *. injection E1 as G1 G2 G3 G4. rewrite G1, G2, G3, G4.
  injection Hc as Hq Hn Hcl Hr. injection H8 as H81 H82 H83 H84. injection E9 as E91 E92 E93 E94. congruence.
Qed.

(** ** Runs of the scheduler *)

(** What the other goroutines do between two rounds of the loop. *)
Inductive call : sched -> sched -> Prop :=
  | call_commit choose ctx txn r s s' : Commit choose ctx txn s = Ok (r, s') -> call s s'
  | call_push choose notif r s s' : PushSBNotification choose notif s = Ok (r, s') -> call s s'
  | call_retry choose args r s s' : delayRetry choose args s = Ok (r, s') -> call s s'
  | call_impl choose args r s s' : waitForImpl choose args s = Ok (r, s') -> call s s'
  | call_register ds r s s' : RegisterKVDescriptor ds s = Ok (r, s') -> call s s'
  | call_watch sel r s s' : WatchValueStatus sel s = Ok (r, s') -> call s s'
  | call_status key r s s' : GetValueStatus key s = Ok (r, s') -> call s s'
  | call_dump keyPrefix view r s s' : DumpValuesByKeyPrefix keyPrefix view s = Ok (r, s') -> call s s'
  | call_validate messages r s s' : ValidateSemantically messages s = Ok (r, s') -> call s s'
  | call_trim r s s' : transactionHistoryTrimming s = Ok (r, s') -> call s s'
  | call_close r s s' : Close s = Ok (r, s') -> call s s'.

(** From one state to another: the transactions that were queued, the number of
    rounds of the loop, and the transactions that were processed. *)
Inductive run (fuel : nat) : sched -> list transaction -> nat -> list transaction -> sched -> Prop :=
  | run_nil s : run fuel s [] 0 [] s
  | run_call s s1 queued n processed s' : call s s1 -> run fuel s1 queued n processed s' ->
      run fuel s (drop (length (s_txnQueue s)) (s_txnQueue s1) ++ queued) n processed s'
  | run_round choose s b s1 queued n processed s' :
      consume_one fuel choose s = Ok (b, s1) -> run fuel s1 queued n processed s' ->
      run fuel s queued (S n) ((if (b : bool) then take 1 (s_txnQueue s) else []) ++ processed) s'.

(** Transactions are only added, at the end, and a closed scheduler stays so. *)
Definition appends (s s' : sched) : Prop :=
  s_txnQueue s `prefix_of` s_txnQueue s' /\ s_txnSeqNumber s' = s_txnSeqNumber s /\ s_results s' = s_results s
  /\ (s_closed s = true -> s_closed s' = true).

#[local] Instance appends_preorder : PreOrder appends.
Proof.
  split; [by intros s; split_and!|]. intros s1 s2 s3 (P1 & N1 & R1 & C1) (P2 & N2 & R2 & C2).
  split_and!; [by etrans|congruence|congruence|auto].
Qed.

Lemma appends_chans {A} (m : Sch A) : chans m -> preserves appends m.
Proof.
  apply preserves_impl. intros s s' [= E1 E2 E3 E4]. unfold appends. rewrite E1, E2, E3, E4. by split_and!.
Qed.

Lemma appends_enqueue choose txn : preserves appends (enqueueTxn choose txn).
Proof.
  unfold enqueueTxn, the_nb. preserves_auto. cbn. split_and!; try done. by apply prefix_app_r.
Qed.
Hint Resolve appends_enqueue : monad.

Lemma chans_register ds : chans (RegisterKVDescriptor ds).
Proof.
  induction ds as [|d ds IH]; cbn [RegisterKVDescriptor]; unfold registerKVDescriptor; preserves_auto.
Qed.
Lemma chans_validate models l : forall acc, chans (validate_messages models l acc).
Proof.
  induction l as [|v l IH]; intros acc; cbn [validate_messages]; unfold validate_message, validate_kv; preserves_auto.
Qed.

Lemma chans_dump_descriptor name view : chans (DumpValuesByDescriptor name view).
Proof.
  intros s r s'. unfold DumpValuesByDescriptor. destruct view; [|by intros [= _ <-]..].
  destruct (GetDescriptor _ _) as [d|]; [|by intros [= _ <-]]. destruct (d_Retrieve d) as [f|]; [|by intros [= _ <-]].
  destruct (f _ _). by intros [= _ <-].
Qed.
Lemma chans_dump keyPrefix view : chans (DumpValuesByKeyPrefix keyPrefix view).
Proof.
  assert (chans (zoom s_registry sset_registry GetAllDescriptors)) by by apply preserves_zoom.
  pose proof chans_dump_descriptor. unfold DumpValuesByKeyPrefix, getDescriptorForKeyPrefix. preserves_auto.
Qed.

Lemma call_appends s s' : call s s' -> appends s s'.
Proof.
  intros []; match goal with E : ?m ?s0 = Ok (_, ?s1) |- appends ?s0 ?s1 =>
    cut (preserves appends m); [intros P; exact (P _ _ _ E)|clear E] end.
  - unfold Commit. preserves_auto.
  - unfold PushSBNotification. preserves_auto.
  - unfold delayRetry. preserves_auto; by split_and!.
  - unfold waitForImpl. preserves_auto; by split_and!.
  - apply appends_chans, chans_register.
  - apply appends_chans. unfold WatchValueStatus. preserves_auto.
  - apply appends_chans. unfold GetValueStatus. preserves_auto.
  - apply appends_chans, chans_dump.
  - apply appends_chans. unfold ValidateSemantically. pose proof chans_validate. preserves_auto.
  - apply appends_chans. unfold transactionHistoryTrimming. preserves_auto.
  - unfold Close. preserves_auto; by split_and!.
Qed.

Lemma consume_chans fuel choose s b s' : consume_one fuel choose s = Ok (b, s') ->
  if b then exists txn q err, s_txnQueue s = txn :: q
    /\ chan_state s' = (q, u64_incr (s_txnSeqNumber s), s_closed s, s_results s ++ results_of txn (s_txnSeqNumber s) err)
  else s' = s /\ (s_closed s = true \/ s_txnQueue s = []).
Proof.
  unfold consume_one, dequeueTxn. intros (r & s1 & E & E')%bind_inv.
  apply bind_inv in E as (s0 & s0' & [= <- <-] & E). destruct (s_txnQueue s) as [|txn q] eqn:Eq.
  { injection E as <- <-. injection E' as <- <-. auto. }
  destruct (s_closed s) eqn:Ec, choose; cbn [andb] in E.
  1: { injection E as <- <-. injection E' as <- <-. auto. }
  all: injection E as <- <-; apply bind_inv in E' as (u & s2 & (err & E')%process_chans & [= <- <-]);
    exists txn, q, err; split; [done|]; rewrite E'; cbn; by rewrite Ec.
Qed.

Lemma run_closed fuel s queued n processed s' : run fuel s queued n processed s' -> s_closed s' = false -> s_closed s = false.
Proof.
  induction 1 as [s|s s1 queued n processed s' Hc _ IH|choose s b s1 queued n processed s' Hc _ IH]; intros Hcl; [done|..].
  - specialize (IH Hcl). apply call_appends in Hc as (_ & _ & _ & H). destruct (s_closed s); [|done]. by rewrite H in IH.
  - specialize (IH Hcl). apply consume_chans in Hc. destruct b; [|by destruct Hc as [-> _]].
    destruct Hc as (txn & q & err & _ & [= _ _ H _]). congruence.
Qed.

Lemma run_served fuel s queued n processed s' :
  run fuel s queued n processed s' -> s_closed s' = false ->
  s_results s `prefix_of` s_results s' /\ processed ++ s_txnQueue s' = s_txnQueue s ++ queued
  /\ (forall i txn, s_txnQueue s !! i = Some txn -> i < n -> processed !! i = Some txn)
  /\ (forall i txn, processed !! i = Some txn -> blocking txn = true ->
       exists err, (Nat.iter i u64_incr (s_txnSeqNumber s), err) ∈ s_results s').
Proof.
  intros Hr Hcl.
  induction Hr as [s|s s1 queued n processed s' Hc Hr IH|choose s b s1 queued n processed s' Hc Hr IH].
  - split_and!; [done|by rewrite app_nil_r|lia|by intros].
  - apply call_appends in Hc as ([l Hl] & Hn & Hres & _). destruct (IH Hcl) as (H0 & H1 & H2 & H3). rewrite Hl in *.
    rewrite drop_app_length. split_and!; [by rewrite <- Hres|by rewrite H1, <- app_assoc| |by rewrite <- Hn].
    intros i txn Hi. apply H2. by apply lookup_app_l_Some.
  - pose proof (run_closed _ _ _ _ _ _ Hr Hcl) as Hopen. destruct (IH Hcl) as (H0 & H1 & H2 & H3).
    apply consume_chans in Hc. destruct b.
    + destruct Hc as (txn & q & err & Hq & [= E1 E2 E3 E4]). rewrite Hq. cbn [take app]. rewrite firstn_O. cbn [app].
      rewrite E1, E2, E4 in *. split_and!.
      * etrans; [|exact H0]. by apply prefix_app_r.
      * by rewrite H1.
      * intros [|i] t Ht Hi; [done|]. cbn. apply H2; [done|lia].
      * intros [|i] t Ht Hb; cbn in *.
        -- injection Ht as <-. exists err. unfold results_of in H0. rewrite Hb in H0. destruct H0 as [k ->]. set_solver.
        -- destruct (H3 i t Ht Hb) as [err' He]. exists err'. by rewrite Nat.iter_swap in He.
    + destruct Hc as [-> [Hx|Hx]]; [congruence|]. cbn [app]. split_and!; try done. intros i txn Hi. by rewrite Hx in Hi.
Qed.

(** The next round of the loop is that of the oldest transaction, whatever happens in it. *)
Lemma consume_next fuel choose s : s_closed s = false ->
  consume_one fuel choose s = match s_txnQueue s with
    | [] => Ok (false, s)
    | txn :: q => match processTransaction fuel txn (sset_txnQueue q s) with
        | Ok (_, s') => Ok (true, s')
        | Panic msg => Panic msg
        | OutOfFuel => OutOfFuel
        end
    end.
Proof.
  intros Hc. unfold consume_one, dequeueTxn, mbind, M_bind. cbn. destruct (s_txnQueue s) as [|txn q]; [done|].
  rewrite Hc. cbn. by destruct (processTransaction fuel txn (sset_txnQueue q s)) as [[[] s']|msg|].
Qed.

(** A notification without values. *)
Definition empty_notification (txn : transaction) : bool :=
  bool_decide (txn_txnType txn = SBNotification) && bool_decide (txn_values txn = []).

Lemma empty_notification_panics fuel txn s : empty_notification txn = true ->
  exists msg, processTransaction fuel txn s = Panic msg.
Proof.
  unfold empty_notification. rewrite andb_true_iff, !bool_decide_eq_true. intros [Ht Hv].
  unfold processTransaction, preProcessTransaction, preProcessNotification, s_now, zoom, mbind, M_bind. cbn.
  rewrite Ht. cbn. rewrite Hv. cbn. by eexists.
Qed.

(** C6: As long as the scheduler is not closed and the rounds of the loop return,
    every transaction that was queued is processed: in every run, whatever is
    called between the rounds, the transactions are processed in the order they
    were queued, none is lost and none overtakes another, one that is at position
    [i] of the queue is processed after [i+1] more rounds at the latest, and the
    i-th processed one gets the i-th next sequence number, under which the result
    of a blocking one is delivered.

    The loop cannot stop otherwise: after every run the next round idles if the
    queue is empty, and if not its outcome is that of processing the oldest
    transaction, so it fails to return only if that panics or does not end.  An
    SB notification without values is such a transaction: when it is the oldest,
    the loop panics and what is queued behind it is not served. *)
Theorem queue_served fuel s queued n processed s' :
  run fuel s queued n processed s' -> s_closed s' = false ->
  processed ++ s_txnQueue s' = s_txnQueue s ++ queued
  /\ (forall i txn, s_txnQueue s !! i = Some txn -> i < n -> processed !! i = Some txn)
  /\ (forall i txn, processed !! i = Some txn -> blocking txn = true ->
       exists err, (Nat.iter i u64_incr (s_txnSeqNumber s), err) ∈ s_results s')
  /\ (forall choose, consume_one fuel choose s' = match s_txnQueue s' with
       | [] => Ok (false, s')
       | txn :: q => match processTransaction fuel txn (sset_txnQueue q s') with
           | Ok (_, s'') => Ok (true, s'')
           | Panic msg => Panic msg
           | OutOfFuel => OutOfFuel
           end
       end)
  /\ (forall choose txn q, s_txnQueue s' = txn :: q -> empty_notification txn = true ->
       exists msg, consume_one fuel choose s' = Panic msg).
Proof.
  intros Hr Hcl. destruct (run_served fuel s queued n processed s' Hr Hcl) as (_ & H1 & H2 & H3).
  split_and!; [done..| |].
  - intros choose. by apply consume_next.
  - intros choose txn q Hq He. rewrite (consume_next _ _ _ Hcl), Hq.
    destruct (empty_notification_panics fuel txn (sset_txnQueue q s') He) as [msg ->]. by exists msg.
Qed.
End queue.

(** ** A run *)

(** A blocking transaction in the queue of a fresh scheduler. *)
Definition queued_txn : transaction :=
  demo_txn (MkNbTxn NotResync false true false None false false "") [("if/eth0", Some 4)].
Definition queued_sched : sched := sset_txnQueue [queued_txn; queued_txn] demo_sched.

Lemma queued_round : match consume_one demo_fuel false queued_sched with
  | Ok (true, s) => s_closed s = false | _ => False end.
Proof. vm_compute. reflexivity. Qed.

Example queue_served_witness :
  exists s', run demo_fuel queued_sched [] 1 [queued_txn] s'
    /\ s_txnQueue s' = [queued_txn] /\ exists err, (s_txnSeqNumber queued_sched, err) ∈ s_results s'.
Proof.
  pose proof queued_round as H. destruct (consume_one demo_fuel false queued_sched) as [[[] s']|e|] eqn:E;
    [|destruct H..].
  assert (run demo_fuel queued_sched [] 1 [queued_txn] s') as Hr.
  { exact (run_round demo_fuel false queued_sched true s' [] 0 [] s' E (run_nil demo_fuel s')). }
  exists s'. split; [exact Hr|]. destruct (queue_served demo_fuel queued_sched [] 1 [queued_txn] s' Hr H) as (Hq & _ & Hb & _).
  split; [by injection Hq|]. exact (Hb 0 queued_txn eq_refl eq_refl).
Defined.

(** The same queue behind an empty notification: the loop panics. *)
Example empty_notification_example :
  match consume_one demo_fuel false (sset_txnQueue (notification_txn [] :: [queued_txn]) demo_sched) with
  | Panic _ => True | _ => False end.
Proof. by vm_compute. Qed.
