(* ===== verification/DispatcherFacts.v ===== *)
(** * What the dispatcher stores and sends to the scheduler

    The store as a function from data sources and keys to values, the
    transaction of [PushData], and the selection by labels. *)
From S2P Require Import Prelude Monad Api Flags NodeUtils Dispatcher.

Section store.
Context {X : Ext} {MO : MapOrder}.

(** The abstract store. *)
Definition stored (s : memStore) (dataSrc key : string) : option Value :=
  default ∅ (ms_db s !! dataSrc) !! key.
Definition labels_at (s : memStore) (key : string) : gmap string string := default ∅ (ms_ldb s !! key).

(** The value of the greatest data source that has the key. *)
Definition winner (s : memStore) (key : string) (o : option Value) : Prop :=
  match o with
  | Some v => exists src, stored s src key = Some v
      /\ forall src', is_Some (stored s src' key) -> cmp_le String.compare src' src
  | None => forall src, stored s src key = None
  end.

Lemma copy_keys_lookup {A} (m : gmap string A) ks k : forall acc : gmap string A,
  fold_left (fun acc k => match m !! k with Some v => <[k := v]> acc | None => acc end) ks acc !! k
  = if decide (k ∈ ks) then match m !! k with Some v => Some v | None => acc !! k end else acc !! k.
Proof.
  induction ks as [|k' ks IH]; intros acc; cbn [fold_left].
  - by rewrite decide_False by apply not_elem_of_nil.
  - rewrite IH. destruct (decide (k = k')) as [->|Hne].
    + rewrite (decide_True (P := k' ∈ k' :: ks)) by apply list_elem_of_here.
      destruct (m !! k'); [|by case_decide]. rewrite lookup_insert_eq. by case_decide.
    + rewrite (decide_ext (k ∈ k' :: ks) (k ∈ ks)) by set_solver.
      destruct (m !! k'); [|done]. by rewrite lookup_insert_ne.
Qed.

Lemma copy_into_lookup {A} (m pairs : gmap string A) k :
  copy_into m pairs !! k = match m !! k with Some v => Some v | None => pairs !! k end.
Proof.
  unfold copy_into. rewrite copy_keys_lookup. case_decide as Hk; [done|].
  destruct (m !! k) eqn:E; [|done]. destruct Hk. rewrite elem_of_map_order, elem_of_dom. by exists a.
Qed.

Lemma copy_into_empty {A} (m : gmap string A) : copy_into m ∅ = m.
Proof. apply map_eq. intros k. rewrite copy_into_lookup, lookup_empty. by destruct (m !! k). Qed.

Lemma List_lookup s src k : List_ s src !! k = stored s src k.
Proof. unfold List_, stored. by rewrite copy_into_empty. Qed.

Lemma ListAll_fold s k srcs : forall acc : gmap string Value,
  StronglySorted (cmp_le String.compare) srcs ->
  match fold_left (fun pairs dataSrc => copy_into (List_ s dataSrc) pairs) srcs acc !! k with
  | Some v => (exists src, src ∈ srcs /\ stored s src k = Some v
      /\ forall src', src' ∈ srcs -> is_Some (stored s src' k) -> cmp_le String.compare src' src)
      \/ (acc !! k = Some v /\ forall src, src ∈ srcs -> stored s src k = None)
  | None => acc !! k = None /\ forall src, src ∈ srcs -> stored s src k = None
  end.
Proof.
  induction srcs as [|a srcs IH]; intros acc Hs; simpl.
  - destruct (acc !! k); [right|]; split; set_solver.
  - inversion Hs as [|? ? Hs' Ha]; subst. specialize (IH (copy_into (List_ s a) acc) Hs').
    rewrite copy_into_lookup, List_lookup in IH. rewrite Forall_forall in Ha.
    destruct (fold_left _ _ _ !! k) as [v|].
    + destruct IH as [(src & Hin & Hv & Hmax)|[Hacc Hnone]].
      * left. exists src. split; [set_solver|]. split; [done|].
        intros src' [->|Hin']%elem_of_cons Hsome; [by apply Ha|by apply Hmax].
      * destruct (stored s a k) as [v'|] eqn:Es; simplify_eq.
        -- left. exists a. split; [set_solver|]. split; [done|].
           intros src' [->|Hin']%elem_of_cons Hsome; [by apply cmp_le_refl; apply _|].
           rewrite Hnone in Hsome by done. by destruct Hsome.
        -- right. split; [done|]. intros src [->|?]%elem_of_cons; auto.
    + destruct IH as [Hacc Hnone]. destruct (stored s a k) eqn:Es; [done|].
      split; [done|]. intros src [->|?]%elem_of_cons; auto.
Qed.

Lemma ListAll_winner s k : winner s k (ListAll s !! k).
Proof.
  assert (forall src, is_Some (stored s src k) ->
    src ∈ sort_by String.compare id (map_order (dom (ms_db s)))) as Hin.
  { intros src [v Hv]. rewrite sort_by_perm, elem_of_map_order, elem_of_dom.
    unfold stored in Hv. destruct (ms_db s !! src); [by eexists|done]. }
  pose proof (ListAll_fold s k (sort_by String.compare id (map_order (dom (ms_db s)))) ∅) as H.
  specialize (H (sort_by_sorted String.compare id _)). unfold ListAll.
  destruct (fold_left _ _ _ !! k) as [v|]; simpl.
  - destruct H as [(src & _ & Hv & Hmax)|[H _]]; [|done]. exists src. split; [done|].
    intros src' Hsome. apply Hmax; auto.
  - destruct H as [_ H]. intros src. destruct (stored s src k) eqn:E; [|done].
    rewrite <- E. apply H, Hin. rewrite E. by eexists.
Qed.

Lemma winner_unique s k o1 o2 : winner s k o1 -> winner s k o2 -> o1 = o2.
Proof.
  destruct o1 as [v1|], o2 as [v2|]; simpl; [| | |done].
  - intros (s1 & H1 & M1) (s2 & H2 & M2).
    assert (s1 = s2) as ->; [|congruence].
    apply (cmp_le_antisym String.compare); [apply M2|apply M1]; by eexists.
  - intros (s1 & H1 & _) H. by rewrite H in H1.
  - intros H (s1 & H1 & _). by rewrite H in H1.
Qed.

(** ** One update of the store *)

Lemma stored_Update s src key v src' k :
  stored (Update src key v s) src' k = if decide (src' = src /\ k = key) then Some v else stored s src' k.
Proof.
  unfold stored, Update. simpl. destruct (decide (src' = src)) as [->|Hs].
  - rewrite lookup_insert_eq. simpl. destruct (decide (k = key)) as [->|Hk].
    + by rewrite lookup_insert_eq, decide_True.
    + rewrite lookup_insert_ne by done. by rewrite decide_False by tauto.
  - rewrite lookup_insert_ne by done. by rewrite decide_False by tauto.
Qed.

Lemma stored_Delete s src key src' k :
  stored (Delete src key s) src' k = if decide (src' = src /\ k = key) then None else stored s src' k.
Proof.
  unfold stored, Delete. simpl. destruct (decide (src' = src)) as [->|Hs].
  - rewrite lookup_alter_eq. destruct (ms_db s !! src) as [m|]; simpl; [|by case_decide].
    destruct (decide (k = key)) as [->|Hk].
    + by rewrite lookup_delete_eq, decide_True.
    + rewrite lookup_delete_ne by done. by rewrite decide_False by tauto.
  - rewrite lookup_alter_ne by done. by rewrite decide_False by tauto.
Qed.

Lemma stored_Reset s src src' k :
  stored (Reset_ src s) src' k = if decide (src' = src) then None else stored s src' k.
Proof.
  unfold stored, Reset_. simpl. case_decide as Hs; [subst; by rewrite lookup_delete_eq|].
  by rewrite lookup_delete_ne.
Qed.

Lemma labels_AddLabel s key lk lv k :
  labels_at (AddLabel key lk lv s) k
  = if decide (k = key) then <[lk := lv]> (labels_at s k) else labels_at s k.
Proof.
  unfold labels_at, AddLabel. simpl. case_decide as Hk; [subst; by rewrite lookup_insert_eq|].
  by rewrite lookup_insert_ne.
Qed.

Lemma labels_DeleteLabel s key lk k :
  labels_at (DeleteLabel key lk s) k
  = if decide (k = key) then delete lk (labels_at s k) else labels_at s k.
Proof.
  unfold labels_at, DeleteLabel. simpl. case_decide as Hk.
  - subst. rewrite lookup_alter_eq. destruct (ms_ldb s !! key); [done|]. simpl. by rewrite delete_empty.
  - by rewrite lookup_alter_ne.
Qed.

Lemma labels_Reset s key k :
  labels_at (ResetLabels key s) k = if decide (k = key) then ∅ else labels_at s k.
Proof.
  unfold labels_at, ResetLabels. simpl. case_decide as Hk; [subst; by rewrite lookup_delete_eq|].
  by rewrite lookup_delete_ne.
Qed.

(** Labels are added and deleted one by one. *)
Lemma add_labels_keys key (labels : gmap string string) ks : forall s,
  let s' := fold_left (fun s lk => match labels !! lk with Some lv => AddLabel key lk lv s | None => s end) ks s in
  ms_db s' = ms_db s /\ forall k, labels_at s' k = if decide (k = key)
    then fold_left (fun acc lk => match labels !! lk with Some lv => <[lk := lv]> acc | None => acc end) ks
           (labels_at s k)
    else labels_at s k.
Proof.
  induction ks as [|lk ks IH]; intros s; simpl; [by split; [|intros; case_decide]|].
  destruct (labels !! lk) as [lv|]; [|apply IH].
  destruct (IH (AddLabel key lk lv s)) as [IH1 IH2]. split; [by rewrite IH1|].
  intros k. rewrite IH2, labels_AddLabel. by case_decide.
Qed.

Lemma add_labels_spec key labels s :
  ms_db (add_labels key labels s) = ms_db s
  /\ forall k, labels_at (add_labels key labels s) k
       = if decide (k = key) then copy_into labels (labels_at s k) else labels_at s k.
Proof. apply add_labels_keys. Qed.

Lemma delete_labels_keys key ks : forall s,
  let s' := fold_left (fun s lk => DeleteLabel key lk s) ks s in
  ms_db s' = ms_db s /\ forall k, labels_at s' k = if decide (k = key)
    then filter (fun p => p.1 ∉ ks) (labels_at s k) else labels_at s k.
Proof.
  induction ks as [|lk ks IH]; intros s; simpl.
  - split; [done|]. intros k. case_decide; [|done]. symmetry. apply map_filter_id. set_solver.
  - destruct (IH (DeleteLabel key lk s)) as [IH1 IH2]. split; [by rewrite IH1|].
    intros k. rewrite IH2, labels_DeleteLabel. case_decide as Hk; [|done].
    apply map_eq. intros i. apply option_eq. intros v.
    rewrite !map_lookup_filter_Some. simpl. rewrite lookup_delete_Some, not_elem_of_cons. naive_solver.
Qed.

Lemma delete_labels_spec key labels s :
  ms_db (delete_labels key labels s) = ms_db s
  /\ forall k, labels_at (delete_labels key labels s) k
       = if decide (k = key) then filter (fun p => p.1 ∉ dom labels) (labels_at s k) else labels_at s k.
Proof.
  destruct (delete_labels_keys key (map_order (dom labels)) s) as [H1 H2].
  split; [apply H1|]. intros k. unfold delete_labels. rewrite H2. case_decide; [|done].
  apply map_filter_ext. intros i v _. simpl. by rewrite elem_of_map_order.
Qed.

Lemma stored_db s s' : ms_db s = ms_db s' -> stored s = stored s'.
Proof. unfold stored. by intros ->. Qed.
End store.

Section push.
Context {X : Ext} {MO : MapOrder} (models_Key : Value -> outcome string).

(** The pairs as a map. *)
Definition pairs_map (kvPairs : list KeyVal) : gmap string (option Value) :=
  list_to_map (map (fun kv => (kval_Key kv, kval_Val kv)) kvPairs).

(** The key of the value of a pair. *)
Definition own_key (kv : KeyVal) : outcome string :=
  match kval_Val kv with Some v => models_Key v | None => Ok (kval_Key kv) end.

Definition key_matches (kv : KeyVal) : Prop := match own_key kv with Ok k => k = kval_Key kv | _ => False end.

#[export] Instance key_matches_dec kv : Decision (key_matches kv).
Proof. unfold key_matches. destruct (own_key kv); apply _. Defined.

(** The first pair that is not accepted, and what it leads to. *)
Definition refused (uniq0 : gmap string (option Value)) (kvPairs : list KeyVal) (e : error + outcome unit) : Prop :=
  exists pre kv post, kvPairs = pre ++ kv :: post /\ Forall key_matches pre /\ NoDup (map kval_Key pre)
    /\ (forall kv', kv' ∈ pre -> uniq0 !! kval_Key kv' = None)
    /\ match own_key kv with
       | Ok k => (k <> kval_Key kv \/ kval_Key kv ∈ map kval_Key pre \/ is_Some (uniq0 !! kval_Key kv))
                 /\ exists err, e = inl err
       | Panic msg => e = inr (Panic msg)
       | OutOfFuel => e = inr OutOfFuel
       end.

Definition outcome_of (r : outcome (error + gmap string (option Value))) : error + outcome unit :=
  match r with Ok (inl err) => inl err | Ok (inr _) => inr (Ok tt) | Panic msg => inr (Panic msg) | OutOfFuel => inr OutOfFuel end.

Lemma refused_cons uniq0 kv kvPairs e : key_matches kv -> uniq0 !! kval_Key kv = None ->
  refused (<[kval_Key kv := kval_Val kv]> uniq0) kvPairs e -> refused uniq0 (kv :: kvPairs) e.
Proof.
  intros Hm Hu (pre & kv' & post & -> & Hf & Hn & Hd & He). exists (kv :: pre), kv', post. split_and!.
  - done.
  - by constructor.
  - constructor; [|done]. intros (kv2 & E & Hin)%list_elem_of_fmap. specialize (Hd kv2 Hin).
    rewrite E, lookup_insert_eq in Hd. done.
  - intros kv2 [->|Hin]%elem_of_cons; [done|]. specialize (Hd kv2 Hin). by apply lookup_insert_None in Hd as [? _].
  - destruct (own_key kv'); [|done..]. destruct He as [Ho He]. split; [|done].
    destruct Ho as [?|[?|[x Hx]]]; [by left|right; left; by right|].
    apply lookup_insert_Some in Hx as [[E _]|[_ ?]]; [|right; right; by eexists].
    right. left. cbn [map]. rewrite E. left.
Qed.

Lemma check_pairs_spec kvPairs : forall uniq0,
  match check_pairs models_Key kvPairs uniq0 with
  | Ok (inr uniq) => Forall key_matches kvPairs /\ NoDup (map kval_Key kvPairs)
      /\ (forall kv, kv ∈ kvPairs -> uniq0 !! kval_Key kv = None) /\ uniq = pairs_map kvPairs ∪ uniq0
  | r => refused uniq0 kvPairs (outcome_of r)
  end.
Proof.
  induction kvPairs as [|kv kvPairs IH]; intros uniq0; cbn [check_pairs].
  - unfold pairs_map. simpl. rewrite (left_id_L ∅ (∪)). by repeat (constructor || intros ? ?%not_elem_of_nil).
  - assert (match kval_Val kv with
        | Some v => k ← models_Key v; Ok (if String.eqb k (kval_Key kv) then None else Some k)
        | None => Ok None end = k ← own_key kv; Ok (if String.eqb k (kval_Key kv) then None else Some k)) as ->.
    { unfold own_key. destruct (kval_Val kv); [done|]. cbn. by rewrite String.eqb_refl. }
    assert (forall e, match own_key kv with
       | Ok k => (k <> kval_Key kv \/ is_Some (uniq0 !! kval_Key kv)) /\ exists err, e = inl err
       | Panic msg => e = inr (Panic msg) | OutOfFuel => e = inr OutOfFuel end -> refused uniq0 (kv :: kvPairs) e) as Hr.
    { intros e He. exists [], kv, kvPairs. split_and!; [done|constructor|constructor|by intros ? ?%elem_of_nil|].
      destruct (own_key kv); [|done..]. split; [tauto|apply He]. }
    destruct (own_key kv) as [k|msg|] eqn:Ek; cbn [mbind outcome_bind]; [|by apply Hr..].
    destruct (String.eqb_spec k (kval_Key kv)) as [E|E]; [|apply Hr; eauto].
    assert (key_matches kv) as Hm by (unfold key_matches; by rewrite Ek).
    destruct (uniq0 !! kval_Key kv) as [old|] eqn:Eu; [apply Hr; eauto|].
    specialize (IH (<[kval_Key kv := kval_Val kv]> uniq0)).
    destruct (check_pairs _ _ _) as [[err|uniq]|msg|]; try by apply refused_cons.
    destruct IH as (Hf & Hn & Hd & ->).
    assert (kval_Key kv ∉ map kval_Key kvPairs /\ forall kv', kv' ∈ kvPairs -> uniq0 !! kval_Key kv' = None) as [Hk Hd'].
    { setoid_rewrite lookup_insert_None in Hd. rewrite list_elem_of_fmap.
      split; [intros (kv' & Hk & Hin); by apply (Hd kv')|intros; by apply Hd]. }
    split_and!.
    + by constructor.
    + by constructor.
    + intros kv' [->|Hin]%elem_of_cons; auto.
    + unfold pairs_map. simpl. rewrite <- insert_union_l. symmetry. apply insert_union_r.
      apply not_elem_of_list_to_map_1. rewrite <- list_fmap_compose. done.
Qed.

Lemma refused_not kvPairs e : Forall key_matches kvPairs /\ NoDup (map kval_Key kvPairs) -> ~ refused ∅ kvPairs e.
Proof.
  intros [Hf Hn] (pre & kv & post & -> & _ & _ & _ & He). apply Forall_app in Hf as [_ [Hm _]%Forall_cons].
  unfold key_matches in Hm. destruct (own_key kv) as [k|msg|]; [|done..].
  destruct He as [[?|[Hin|[x Hx]]] _]; [done| |by rewrite lookup_empty in Hx].
  rewrite map_app, NoDup_app in Hn. destruct Hn as (_ & Hn & _). apply (Hn _ Hin). left.
Qed.

(** An observation of the store that every pair changes at its own key only. *)
Lemma fold_pairs {B} (step : memStore -> KeyVal -> memStore) (obs : memStore -> string -> B)
    (upd : option Value -> string -> B -> B) kvPairs k :
  (forall s kv k, obs (step s kv) k
     = if decide (k = kval_Key kv) then upd (kval_Val kv) k (obs s k) else obs s k) ->
  NoDup (map kval_Key kvPairs) -> forall s,
  obs (fold_left step kvPairs s) k
  = match pairs_map kvPairs !! k with Some o => upd o k (obs s k) | None => obs s k end.
Proof.
  intros Hstep. unfold pairs_map. induction kvPairs as [|kv kvPairs IH]; simpl; [done|].
  intros [Hk Hn]%NoDup_cons s. rewrite IH, Hstep by done.
  destruct (decide (k = kval_Key kv)) as [->|Hne].
  - rewrite lookup_insert_eq.
    rewrite (not_elem_of_list_to_map_1 _ (kval_Key kv)); [done|]. by rewrite <- list_fmap_compose.
  - by rewrite lookup_insert_ne.
Qed.

(** *** The steps of both kinds of transactions *)

Lemma store_put_stored dataSrc kl key v s src k :
  stored (store_put dataSrc kl key v s) src k
  = if decide (k = key) then (if decide (src = dataSrc) then Some v else stored s src k) else stored s src k.
Proof.
  unfold store_put.
  rewrite (stored_db _ (Update dataSrc key v s)) by (by rewrite (proj1 (add_labels_spec _ _ _))).
  rewrite stored_Update. repeat case_decide; tauto.
Qed.

Lemma store_delete_stored dataSrc kl key s src k :
  stored (store_delete dataSrc kl key s) src k
  = if decide (k = key) then (if decide (src = dataSrc) then None else stored s src k) else stored s src k.
Proof.
  unfold store_delete.
  rewrite (stored_db _ (Delete dataSrc key s)) by apply delete_labels_spec.
  rewrite stored_Delete. repeat case_decide; tauto.
Qed.

Lemma store_put_labels dataSrc kl key v s k :
  labels_at (store_put dataSrc kl key v s) k
  = if decide (k = key) then labels_of kl k else labels_at s k.
Proof.
  unfold store_put. rewrite (proj2 (add_labels_spec _ _ _)), labels_Reset. case_decide; [|done].
  subst. apply copy_into_empty.
Qed.

Lemma store_delete_labels dataSrc kl key s k :
  labels_at (store_delete dataSrc kl key s) k
  = if decide (k = key) then filter (fun p => p.1 ∉ dom (labels_of kl k)) (labels_at s k) else labels_at s k.
Proof.
  unfold store_delete. rewrite (proj2 (delete_labels_spec _ _ _)). by case_decide; subst.
Qed.

(** The value of a key in the updated data source, and its labels. *)
Definition pushed_value (resync : bool) (pairs : gmap string (option Value)) (old : option Value) (k : string) :
    option Value :=
  match pairs !! k with Some o => o | None => if resync then None else old end.
Definition pushed_labels (resync : bool) (pairs : gmap string (option Value))
    (kl : gmap string (gmap string string)) (old : gmap string string) (k : string) : gmap string string :=
  match pairs !! k with
  | Some (Some _) => labels_of kl k
  | Some None => if resync then old else filter (fun p => p.1 ∉ dom (labels_of kl k)) old
  | None => old
  end.

Lemma resync_store_spec dataSrc kl kvPairs s (Hn : NoDup (map kval_Key kvPairs)) k :
  (forall src, stored (resync_store dataSrc kl kvPairs s) src k
     = if decide (src = dataSrc) then pushed_value true (pairs_map kvPairs) None k else stored s src k)
  /\ labels_at (resync_store dataSrc kl kvPairs s) k
     = pushed_labels true (pairs_map kvPairs) kl (labels_at s k) k.
Proof.
  unfold resync_store. split.
  - intros src. rewrite (fold_pairs _ (fun s => stored s src)
      (fun o _ old => match o with Some v => if decide (src = dataSrc) then Some v else old | None => old end));
      [|intros s' kv k'; destruct (kval_Val kv); [by rewrite store_put_stored|by case_decide]|done].
    rewrite stored_Reset. unfold pushed_value. destruct (pairs_map kvPairs !! k) as [[|]|]; by case_decide.
  - rewrite (fold_pairs _ labels_at
      (fun o k old => match o with Some v => labels_of kl k | None => old end));
      [|intros s' kv k'; destruct (kval_Val kv); [by rewrite store_put_labels|by case_decide]|done].
    unfold pushed_labels. by destruct (pairs_map kvPairs !! k) as [[|]|].
Qed.

Lemma change_store_spec dataSrc kl kvPairs s (Hn : NoDup (map kval_Key kvPairs)) k :
  (forall src, stored (change_store dataSrc kl kvPairs s) src k
     = if decide (src = dataSrc) then pushed_value false (pairs_map kvPairs) (stored s src k) k
       else stored s src k)
  /\ labels_at (change_store dataSrc kl kvPairs s) k
     = pushed_labels false (pairs_map kvPairs) kl (labels_at s k) k.
Proof.
  unfold change_store. split.
  - intros src. rewrite (fold_pairs _ (fun s => stored s src)
      (fun o _ old => if decide (src = dataSrc) then o else old));
      [|intros s' kv k'; destruct (kval_Val kv); [by rewrite store_put_stored|by rewrite store_delete_stored]|done].
    unfold pushed_value. destruct (pairs_map kvPairs !! k) as [[|]|]; by case_decide.
  - rewrite (fold_pairs _ labels_at
      (fun o k old => match o with Some v => labels_of kl k
         | None => filter (fun p => p.1 ∉ dom (labels_of kl k)) old end));
      [|intros s' kv k'; destruct (kval_Val kv); [by rewrite store_put_labels|by rewrite store_delete_labels]|done].
    unfold pushed_labels. by destruct (pairs_map kvPairs !! k) as [[|]|].
Qed.

Lemma change_txn_map kvPairs : NoDup (map kval_Key kvPairs) -> change_txn kvPairs = pairs_map kvPairs.
Proof.
  intros Hn. unfold change_txn.
  assert (forall acc, fold_left (fun txn kv => <[kval_Key kv := kval_Val kv]> txn) kvPairs acc
    = pairs_map kvPairs ∪ acc) as H; [|by rewrite H, (right_id_L ∅ (∪))].
  unfold pairs_map. induction kvPairs as [|kv kvPairs IH]; simpl; intros acc; [by rewrite (left_id_L ∅ (∪))|].
  apply NoDup_cons in Hn as [Hk Hn]. rewrite IH by done. rewrite <- insert_union_l. symmetry.
  apply insert_union_r. apply not_elem_of_list_to_map_1. by rewrite <- list_fmap_compose.
Qed.

Section dispatcher.
Context {S : Type} {KS : KVScheduler S}.

(** C5: [PushData] accepts pairs with distinct keys that match the values, and
    nothing else; what it rejects changes neither the store nor the scheduler.  The
    first pair that is not accepted decides: one with a key that is not that of its
    value, or was given before, is reported as an error, and one whose value has no
    registered model makes it panic ([models.Key]).
    What it accepts it commits in one transaction, and it is left with one new store:
    the data source has the pushed values (a full resync drops its other ones), other
    data sources are as before, and keys with a value have the given labels.  The
    transaction of a change is the pushed pairs; the one of a full resync has,
    for every key, the value from the greatest data source that has it. *)
Theorem push_data (ctx : dispCtx) (kvPairs : list KeyVal) (kl : gmap string (gmap string string))
    (d : dispatcher (S := S)) :
  let dataSrc := default "global" (dc_dataSrc ctx) in
  let resync := bool_decide ((IsResync (dc_ctx ctx)).1 = FullResync) in
  let pairs := pairs_map kvPairs in
  if decide (Forall key_matches kvPairs /\ NoDup (map kval_Key kvPairs)) then
    exists db' txn,
      PushData models_Key ctx kvPairs kl d
      = (res ← in_kvs (kvs_Commit (dc_ctx ctx) txn); push_results pairs res)
          (MkDispatcher db' (disp_kvs d))
      /\ (forall k src, stored db' src k
            = if decide (src = dataSrc) then pushed_value resync pairs (stored (disp_db d) src k) k
              else stored (disp_db d) src k)
      /\ (forall k, labels_at db' k = pushed_labels resync pairs kl (labels_at (disp_db d) k) k)
      /\ (if resync then forall k o, winner db' k o -> txn !! k = Some <$> o else txn = pairs)
  else exists pre kv post, kvPairs = pre ++ kv :: post /\ Forall key_matches pre /\ NoDup (map kval_Key pre)
    /\ match own_key kv with
       | Ok k => (k <> kval_Key kv \/ kval_Key kv ∈ map kval_Key pre)
                 /\ exists e, PushData models_Key ctx kvPairs kl d = Ok (([], Some e), d)
       | Panic msg => PushData models_Key ctx kvPairs kl d = Panic msg
       | OutOfFuel => PushData models_Key ctx kvPairs kl d = OutOfFuel
       end.
Proof.
  cbv zeta. pose proof (check_pairs_spec kvPairs ∅) as Hc.
  assert (PushData models_Key ctx kvPairs kl d = match check_pairs models_Key kvPairs ∅ with
    | Ok (inl e) => Ok (([], Some e), d)
    | Ok (inr uniq) => (txn ← prepare_data ctx kvPairs kl; res ← in_kvs (kvs_Commit (dc_ctx ctx) txn); push_results uniq res) d
    | Panic msg => Panic msg | OutOfFuel => OutOfFuel end) as ->.
  { unfold PushData, lift, mbind, M_bind. by destruct (check_pairs models_Key kvPairs ∅) as [[e|uniq]|msg|]. }
  case_decide as Hd.
  - destruct (check_pairs models_Key kvPairs ∅) as [[e|uniq]|msg|];
      [by destruct (refused_not kvPairs _ Hd Hc)| |by destruct (refused_not kvPairs _ Hd Hc)..].
    destruct Hc as (Hf & Hn & _ & ->). rewrite (right_id_L ∅ (∪)). unfold prepare_data.
    destruct (decide ((IsResync (dc_ctx ctx)).1 = FullResync)) as [Hr|Hr].
    + rewrite (bool_decide_eq_true_2 _ Hr).
      pose proof (fun k => proj1 (resync_store_spec (default "global" (dc_dataSrc ctx)) kl kvPairs (disp_db d) Hn k)) as H1.
      pose proof (fun k => proj2 (resync_store_spec (default "global" (dc_dataSrc ctx)) kl kvPairs (disp_db d) Hn k)) as H2.
      eexists _, _. split_and!; [reflexivity|exact H1|exact H2|].
      intros k o Ho. unfold resync_txn. rewrite lookup_fmap, copy_into_empty. f_equal.
      apply (winner_unique (resync_store (default "global" (dc_dataSrc ctx)) kl kvPairs (disp_db d)) k);
        [apply ListAll_winner|exact Ho].
    + rewrite (bool_decide_eq_false_2 _ Hr).
      pose proof (fun k => proj1 (change_store_spec (default "global" (dc_dataSrc ctx)) kl kvPairs (disp_db d) Hn k)) as H1.
      pose proof (fun k => proj2 (change_store_spec (default "global" (dc_dataSrc ctx)) kl kvPairs (disp_db d) Hn k)) as H2.
      eexists _, _. split_and!; [reflexivity|exact H1|exact H2|]. by apply change_txn_map.
  - destruct (check_pairs models_Key kvPairs ∅) as [[e|uniq]|msg|]; [|by destruct Hd; split; apply Hc|..];
      destruct Hc as (pre & kv & post & E & Hf & Hn & _ & He); exists pre, kv, post; (split_and!; [done..|]);
      destruct (own_key kv); try done; try discriminate He; try (by destruct He as (_ & ? & ?)).
    + destruct He as [Ho _]. split; [|by eexists]. rewrite lookup_empty in Ho. destruct Ho as [?|[?|[? [=]]]]; auto.
    + by injection He as ->.
Qed.
End dispatcher.
End push.

(** ** Labels *)

Section labels.
Context {MO : MapOrder}.

Definition excl (k : string) : string := "!" +:+ k.

Lemma excl_inj k k' : excl k = excl k' -> k = k'.
Proof. by injection 1. Qed.

Lemma excluded_key_spec wk k : excluded_key wk = Some k <-> wk = excl k.
Proof.
  unfold excl. destruct wk as [|c rest]; [done|]. unfold excluded_key.
  destruct (Ascii.eqb_spec c (Ascii.ascii_of_nat 33)) as [->|Hc].
  - split; [by intros [= ->]|by intros [= ->]].
  - split; [done|]. intros [= -> _]. by destruct Hc.
Qed.

Lemma exclude_fold (want : gmap string string) ks k : forall acc : gmap string string,
  fold_left (fun acc wk => match excluded_key wk, want !! wk with
      | Some k, Some wl => <[k := wl]> acc
      | _, _ => acc end) ks acc !! k
  = if decide (excl k ∈ ks) then match want !! excl k with Some v => Some v | None => acc !! k end
    else acc !! k.
Proof.
  induction ks as [|wk ks IH]; intros acc; cbn [fold_left].
  - by rewrite decide_False by apply not_elem_of_nil.
  - rewrite IH. destruct (decide (wk = excl k)) as [->|Hne].
    + rewrite (proj2 (excluded_key_spec (excl k) k)) by done.
      rewrite (decide_True (P := excl k ∈ excl k :: ks)) by apply list_elem_of_here.
      destruct (want !! excl k) eqn:E; [|by case_decide]. rewrite lookup_insert_eq. by case_decide.
    + rewrite (decide_ext (excl k ∈ wk :: ks) (excl k ∈ ks)) by set_solver.
      destruct (excluded_key wk) as [k'|] eqn:Ek; [|done]. destruct (want !! wk); [|done].
      rewrite lookup_insert_ne; [done|]. intros ->. by apply excluded_key_spec in Ek.
Qed.

Lemma exclude_labels_lookup want k : exclude_labels want !! k = want !! excl k.
Proof.
  unfold exclude_labels. rewrite exclude_fold, lookup_empty.
  destruct (want !! excl k) eqn:E; case_decide as Hd; [done| |done..].
  destruct Hd. rewrite elem_of_map_order, elem_of_dom. by eexists.
Qed.

(** a value with the labels [have] is selected exactly when every wanted
    label that starts with an exclamation mark names a label that is absent (or
    has another value, when one is given), and every other wanted label is
    present (with the wanted value, when one is given). *)
Theorem labels_selected (want have : gmap string string) :
  HasCorrectLabels want have = true <->
  forall wk wv, want !! wk = Some wv ->
    (exists k, wk = excl k /\ (have !! k = None \/ (wv <> "" /\ have !! k <> Some wv)))
    \/ ((forall k, wk <> excl k) /\ exists hv, have !! wk = Some hv /\ (wv = "" \/ wv = hv)).
Proof.
  unfold HasCorrectLabels. rewrite andb_true_iff, !bool_decide_eq_true. split.
  - intros [Hi He] wk wv Hw. destruct (excluded_key wk) as [k|] eqn:Ek.
    + apply excluded_key_spec in Ek as ->. left. exists k. split; [done|].
      assert (exclude_labels want !! k = Some wv) as Hx by by rewrite exclude_labels_lookup.
      specialize (He k wv Hx). simpl in He. unfold exclude_ok in He.
      destruct (have !! k) as [hv|]; [|by left]. right.
      apply andb_true_iff in He as [H1 H2]. apply negb_true_iff in H1, H2.
      apply String.eqb_neq in H1, H2. split; congruence.
    + right. split; [intros k Hk; by apply excluded_key_spec in Hk; congruence|].
      assert (include_labels want !! wk = Some wv) as Hx by by apply map_lookup_filter_Some.
      specialize (Hi wk wv Hx). simpl in Hi. unfold include_ok in Hi.
      destruct (have !! wk) as [hv|]; [|done]. exists hv. split; [done|].
      apply orb_true_iff in Hi as [H|H]; apply String.eqb_eq in H; tauto.
  - intros H. split.
    + intros wk wv [Hw Hk]%map_lookup_filter_Some. simpl in Hk. unfold include_ok.
      destruct (H wk wv Hw) as [(k & -> & _)|(_ & hv & -> & Hv)].
      * by rewrite (proj2 (excluded_key_spec (excl k) k)) in Hk.
      * apply orb_true_iff. destruct Hv as [->| ->]; [left|right]; apply String.eqb_refl.
    + intros k wv Hx. rewrite exclude_labels_lookup in Hx. unfold exclude_ok.
      destruct (H _ _ Hx) as [(k' & Heq & Hk)|(Hk & _)]; [|by destruct (Hk k)]. apply excl_inj in Heq as <-.
      destruct (have !! k) as [hv|]; [|done]. destruct Hk as [|[H1 H2]]; [done|].
      apply andb_true_iff. split; apply negb_true_iff, String.eqb_neq; congruence.
Qed.
End labels.
