(* ===== verification/GoStrings.v ===== *)
(** * Go strings

    What the keys and names of the agent use of the packages strings and strconv:
    splitting, joining, replacing, prefixes, case, and decimal numbers. *)
From Stdlib Require Import DecimalString DecimalZ DecimalN DecimalPos.
From S2P Require Import Prelude.

(** ** Definitions *)

Definition slash : Ascii.ascii := Ascii.Ascii true true true true false true false false.

Definition is_empty (s : string) : bool := String.eqb s "".

(** [strings.HasPrefix], [TrimPrefix], [HasSuffix] and [TrimSuffix]. *)
Definition str_drop (n : nat) (s : string) : string := String.substring n (String.length s - n) s.
Definition TrimPrefix (s p : string) : string :=
  if String.prefix p s then str_drop (String.length p) s else s.
Fixpoint HasSuffix (s suf : string) : bool :=
  String.eqb s suf || match s with "" => false | String _ s => HasSuffix s suf end.
Fixpoint TrimSuffix (s suf : string) : string :=
  if String.eqb s suf then ""
  else match s with "" => "" | String c s => String c (TrimSuffix s suf) end.

(** [strings.Split] with a separator of one character. *)
Fixpoint split_on (c : Ascii.ascii) (s : string) : list string :=
  match s with
  | "" => [""]
  | String a s =>
      if Ascii.eqb a c then "" :: split_on c s
      else match split_on c s with p :: ps => String a p :: ps | [] => [String a ""] end
  end.
Definition Split (s : string) : list string := split_on slash s.
Definition Join (l : list string) : string := String.concat "/" l.

(** [strings.Replace(s, old, new, 1)]: the first occurrence. *)
Fixpoint Replace1 (s old new : string) : string :=
  if String.prefix old s then new +:+ str_drop (String.length old) s
  else match s with "" => "" | String c s => String c (Replace1 s old new) end.

(** [strings.Replace(s, ".", "/", -1)]. *)
Fixpoint replace_char (a b : Ascii.ascii) (s : string) : string :=
  match s with
  | "" => ""
  | String c s => String (if Ascii.eqb c a then b else c) (replace_char a b s)
  end.

(** [strings.ToUpper] and [ToLower], as far as a comparison with ASCII text can
    tell: dotless i and long s are the characters that have ASCII upper case. *)
Definition upper_char (c : Ascii.ascii) : Ascii.ascii :=
  let n := Ascii.nat_of_ascii c in
  if (97 <=? n) && (n <=? 122) then Ascii.ascii_of_nat (n - 32) else c.
Definition lower_char (c : Ascii.ascii) : Ascii.ascii :=
  let n := Ascii.nat_of_ascii c in
  if (65 <=? n) && (n <=? 90) then Ascii.ascii_of_nat (n + 32) else c.

Fixpoint ToUpper (s : string) : string :=
  match s with
  | "" => ""
  | String c s' =>
      match s' with
      | String c2 s2 =>
          if (Ascii.nat_of_ascii c =? 196) && (Ascii.nat_of_ascii c2 =? 177)
          then String (Ascii.ascii_of_nat 73) (ToUpper s2)
          else if (Ascii.nat_of_ascii c =? 197) && (Ascii.nat_of_ascii c2 =? 191)
          then String (Ascii.ascii_of_nat 83) (ToUpper s2)
          else String (upper_char c) (ToUpper s')
      | "" => String (upper_char c) ""
      end
  end.
(** Used on ASCII text only. *)
Fixpoint ToLower (s : string) : string :=
  match s with "" => "" | String c s => String (lower_char c) (ToLower s) end.

(** [strconv.Itoa], [Atoi] and [ParseUint(s, 10, 32)]. *)
Definition Itoa (z : Z) : string := NilZero.string_of_int (Z.to_int z).
Definition Atoi (s : string) : option Z :=
  let digits := match s with
    | String c s' => if Ascii.eqb c (Ascii.ascii_of_nat 43)
        then (u ← NilZero.uint_of_string s'; Some (Decimal.Pos u)) else NilZero.int_of_string s
    | "" => None end in
  d ← digits;
  let z := Z.of_int d in
  if ((- 2 ^ 63 <=? z) && (z <? 2 ^ 63))%Z then Some z else None.
Definition ParseUint32 (s : string) : option Z :=
  u ← NilZero.uint_of_string s;
  let z := Z.of_uint u in if (z <? 2 ^ 32)%Z then Some z else None.

(** Indices and slices with Go's bounds: -1 stands for "not found". *)
Definition go_index {A} (l : list A) (i : Z) : outcome A :=
  if (i <? 0)%Z then Panic "index out of range"
  else from_option_panic "index out of range" (l !! Z.to_nat i).
Definition go_slice {A} (l : list A) (lo hi : Z) : outcome (list A) :=
  if ((0 <=? lo) && (lo <=? hi) && (hi <=? Z.of_nat (length l)))%Z
  then Ok (drop (Z.to_nat lo) (take (Z.to_nat hi) l)) else Panic "slice bounds out of range".

(** Loops for the first and the last index of a part. *)
Definition first_index (p : string) (l : list string) : Z :=
  match list_find (fun x => x = p) l with Some (i, _) => Z.of_nat i | None => (-1)%Z end.
Fixpoint last_index_from (i : nat) (p : string) (l : list string) (acc : Z) : Z :=
  match l with
  | [] => acc
  | x :: l => last_index_from (S i) p l (if String.eqb x p then Z.of_nat i else acc)
  end.
Definition last_index (p : string) (l : list string) : Z := last_index_from 0 p l (-1)%Z.

(** ** Facts *)

#[local] Arguments String.append !_ _ / : simpl nomatch.

(** A character that does not occur. *)
Fixpoint no_char (c : Ascii.ascii) (s : string) : bool :=
  match s with "" => true | String a s => negb (Ascii.eqb a c) && no_char c s end.
Definition no_slash (s : string) : Prop := no_char slash s = true.

Lemma no_char_app c a b : no_char c (a +:+ b) = no_char c a && no_char c b.
Proof. induction a as [|x a IH]; simpl; [done|]. by rewrite IH, andb_assoc. Qed.

Lemma append_nil_r s : s +:+ "" = s.
Proof. induction s as [|c s IH]; simpl; [done|]. by f_equal. Qed.
Lemma append_assoc a b c : (a +:+ b) +:+ c = a +:+ (b +:+ c).
Proof. induction a as [|x a IH]; simpl; [done|]. by f_equal. Qed.
Lemma append_length a b : String.length (a +:+ b) = String.length a + String.length b.
Proof. induction a as [|x a IH]; simpl; [done|]. by f_equal. Qed.

Lemma substring_all s : String.substring 0 (String.length s) s = s.
Proof. induction s as [|c s IH]; simpl; [done|]. by f_equal. Qed.

Lemma str_drop_app p s : str_drop (String.length p) (p +:+ s) = s.
Proof.
  unfold str_drop. rewrite append_length, Nat.add_comm, Nat.add_sub.
  induction p as [|c p IH]; simpl; [apply substring_all|]. exact IH.
Qed.

Lemma prefix_app p s : String.prefix p (p +:+ s) = true.
Proof. induction p as [|c p IH]; simpl; [by destruct s|]. by destruct (Ascii.ascii_dec c c). Qed.

Lemma prefix_spec p s : String.prefix p s = true <-> exists b, s = p +:+ b.
Proof.
  split; [|intros [b ->]; apply prefix_app].
  revert s. induction p as [|c p IH]; intros [|c' s]; simpl; [by exists ""|by eexists|done|].
  destruct (Ascii.ascii_dec c c') as [<-|]; [|done]. intros [b ->]%IH. by exists b.
Qed.

Lemma TrimPrefix_app p s : TrimPrefix (p +:+ s) p = s.
Proof. unfold TrimPrefix. by rewrite prefix_app, str_drop_app. Qed.

Lemma TrimPrefix_changes p s : p <> "" -> TrimPrefix (p +:+ s) p <> p +:+ s.
Proof.
  intros Hp. rewrite TrimPrefix_app. intros H. apply (f_equal String.length) in H.
  rewrite append_length in H. destruct p; [done|]. simpl in H. lia.
Qed.

Lemma HasSuffix_app s suf : HasSuffix (s +:+ suf) suf = true.
Proof.
  induction s as [|c s IH]; simpl.
  - destruct suf; simpl; [done|]. by rewrite Ascii.eqb_refl, String.eqb_refl.
  - rewrite IH. by rewrite orb_true_r.
Qed.

Lemma HasSuffix_spec s suf : HasSuffix s suf = true <-> exists a, s = a +:+ suf.
Proof.
  split; [|intros [a ->]; apply HasSuffix_app].
  induction s as [|c s IH]; cbn [HasSuffix]; intros [H|H]%orb_true_iff.
  - apply String.eqb_eq in H. by exists "".
  - done.
  - apply String.eqb_eq in H. by exists "".
  - destruct (IH H) as [a ->]. by exists (String c a).
Qed.

Lemma TrimSuffix_app s suf : TrimSuffix (s +:+ suf) suf = s.
Proof.
  induction s as [|c s IH].
  - simpl. destruct suf; [done|]. unfold TrimSuffix. by rewrite String.eqb_refl.
  - change (String c s +:+ suf) with (String c (s +:+ suf)). cbn [TrimSuffix].
    assert (String c (s +:+ suf) <> suf) as Hne.
    { intros H. apply (f_equal String.length) in H. simpl in H. rewrite append_length in H. lia. }
    rewrite (proj2 (String.eqb_neq _ _) Hne). by f_equal.
Qed.

Lemma TrimSuffix_changed s suf : TrimSuffix s suf = s \/ exists a, s = a +:+ suf.
Proof.
  induction s as [|c s IH]; cbn [TrimSuffix].
  - destruct (String.eqb_spec "" suf) as [<-|]; by left.
  - destruct (String.eqb_spec (String c s) suf) as [<-|]; [right; by exists ""|].
    destruct IH as [->|[a ->]]; [by left|right; by exists (String c a)].
Qed.

(** *** Splitting and joining *)

Lemma split_ne c s : split_on c s <> [].
Proof. induction s as [|a s IH]; simpl; [done|]. destruct (Ascii.eqb a c); [done|]. by destruct (split_on c s). Qed.

Lemma split_no_char c s : no_char c s = true -> split_on c s = [s].
Proof.
  induction s as [|a s IH]; simpl; [done|]. intros [Ha Hs]%andb_true_iff.
  apply negb_true_iff in Ha. by rewrite Ha, IH.
Qed.

Lemma split_sep c a b : split_on c (a +:+ String c b) = split_on c a ++ split_on c b.
Proof.
  induction a as [|x a IH]; simpl; [by rewrite Ascii.eqb_refl|].
  destruct (Ascii.eqb x c); [by rewrite IH|]. rewrite IH.
  pose proof (split_ne c a). by destruct (split_on c a).
Qed.

Lemma Split_sep a b : Split (a +:+ "/" +:+ b) = Split a ++ Split b.
Proof. apply split_sep. Qed.
Lemma Split_cons p b : no_slash p -> Split (p +:+ "/" +:+ b) = p :: Split b.
Proof. intros H. rewrite Split_sep. unfold Split at 1. by rewrite split_no_char. Qed.
Lemma Split_last p : no_slash p -> Split p = [p].
Proof. apply split_no_char. Qed.

Lemma Split_ne s : Split s <> [].
Proof. apply split_ne. Qed.

Lemma Join_cons p l : l <> [] -> Join (p :: l) = p +:+ "/" +:+ Join l.
Proof. by destruct l. Qed.

Lemma Join_Split s : Join (Split s) = s.
Proof.
  unfold Join, Split. induction s as [|a s IH]; simpl; [done|].
  destruct (Ascii.eqb_spec a slash) as [->|Ha].
  - pose proof (split_ne slash s) as Hne. destruct (split_on slash s) eqn:E; [done|].
    change (String.concat "/" ("" :: s0 :: l)) with ("" +:+ "/" +:+ String.concat "/" (s0 :: l)).
    by rewrite IH.
  - pose proof (split_ne slash s) as Hne. destruct (split_on slash s) as [|p ps] eqn:E; [done|].
    rewrite <- IH. destruct ps; reflexivity.
Qed.

Lemma split_parts c s p : p ∈ split_on c s -> no_char c p = true.
Proof.
  revert p. induction s as [|a s IH]; intros p; simpl; [by intros ->%list_elem_of_singleton|].
  destruct (Ascii.eqb a c) eqn:E.
  - intros [->|H]%elem_of_cons; [done|by apply IH].
  - destruct (split_on c s) as [|q ps]; [intros ->%list_elem_of_singleton; simpl; by rewrite E|].
    intros [->|H]%elem_of_cons; [|apply IH; by apply list_elem_of_further].
    simpl. rewrite E. simpl. apply IH, list_elem_of_here.
Qed.

Lemma Split_Join l : l <> [] -> Forall no_slash l -> Split (Join l) = l.
Proof.
  intros Hne Hf. induction Hf as [|p l Hp Hf IH]; [done|]. destruct l as [|q l].
  - by apply Split_last.
  - rewrite Join_cons by done. rewrite Split_cons by done. by rewrite IH.
Qed.

(** *** Templates *)

Definition brace : Ascii.ascii := Ascii.Ascii true true false true true true true false.
Definition no_brace (s : string) : Prop := no_char brace s = true.

Lemma prefix_other c c' p s : c <> c' -> String.prefix (String c p) (String c' s) = false.
Proof. intros H. simpl. by destruct (Ascii.ascii_dec c c'). Qed.

(** A placeholder after text without braces is replaced. *)
Lemma Replace1_at a old new rest :
  no_brace a -> Replace1 (a +:+ String brace old +:+ rest) (String brace old) new = a +:+ new +:+ rest.
Proof.
  unfold no_brace. induction a as [|x a IH]; intros Ha.
  - change ("" +:+ String brace old +:+ rest) with (String brace old +:+ rest).
    change ("" +:+ new +:+ rest) with (new +:+ rest).
    pose proof (prefix_app (String brace old) rest) as Hp.
    pose proof (str_drop_app (String brace old) rest) as Hd.
    change (String brace old +:+ rest) with (String brace (old +:+ rest)) in *.
    cbn [Replace1]. rewrite Hp. by rewrite Hd.
  - simpl in Ha. apply andb_true_iff in Ha as [Hx Ha]. apply negb_true_iff, Ascii.eqb_neq in Hx.
    change (String x a +:+ String brace old +:+ rest) with (String x (a +:+ String brace old +:+ rest)).
    cbn [Replace1]. rewrite prefix_other by done. rewrite IH by done. reflexivity.
Qed.

Lemma Replace1_fill s a old new rest :
  s = a +:+ String brace old +:+ rest -> no_brace a -> Replace1 s (String brace old) new = a +:+ new +:+ rest.
Proof. intros -> Ha. by apply Replace1_at. Qed.

Lemma no_brace_app a b : no_brace a -> no_brace b -> no_brace (a +:+ b).
Proof. unfold no_brace. rewrite no_char_app. by intros -> ->. Qed.

(** *** Indices *)

Lemma first_index_app p l1 l2 : p ∉ l1 -> first_index p (l1 ++ p :: l2) = Z.of_nat (length l1).
Proof.
  intros H. unfold first_index.
  rewrite list_find_app_r by (by apply list_find_None, Forall_forall; intros x Hx ->).
  simpl. by rewrite decide_True by done.
Qed.
Lemma first_index_none p l : p ∉ l -> first_index p l = (-1)%Z.
Proof.
  intros H. unfold first_index. assert (list_find (fun x => x = p) l = None) as ->; [|done].
  apply list_find_None, Forall_forall. by intros x Hx ->.
Qed.

Lemma last_index_from_none p l : p ∉ l -> forall i acc, last_index_from i p l acc = acc.
Proof.
  induction l as [|x l IH]; intros H i acc; [done|]. apply not_elem_of_cons in H as [Hx Hl]. simpl.
  rewrite (proj2 (String.eqb_neq x p)) by congruence. by apply IH.
Qed.
Lemma last_index_from_app p l1 l2 i acc : p ∉ l2 ->
  last_index_from i p (l1 ++ p :: l2) acc = Z.of_nat (i + length l1).
Proof.
  intros H. revert i acc. induction l1 as [|x l1 IH]; intros i acc; simpl.
  - rewrite String.eqb_refl, last_index_from_none by done. f_equal. lia.
  - rewrite IH. f_equal. lia.
Qed.
Lemma last_index_app p l1 l2 : p ∉ l2 -> last_index p (l1 ++ p :: l2) = Z.of_nat (length l1).
Proof. intros H. unfold last_index. by rewrite last_index_from_app. Qed.
Lemma last_index_none p l : p ∉ l -> last_index p l = (-1)%Z.
Proof. intros H. unfold last_index. by apply last_index_from_none. Qed.

Lemma go_slice_app {A} (l1 l2 l3 : list A) lo hi :
  lo = Z.of_nat (length l1) -> hi = Z.of_nat (length l1 + length l2) ->
  go_slice (l1 ++ l2 ++ l3) lo hi = Ok l2.
Proof.
  intros -> ->. unfold go_slice. rewrite !length_app.
  rewrite (proj2 (Z.leb_le 0 _)), (proj2 (Z.leb_le _ (Z.of_nat (length l1 + length l2)))),
    (proj2 (Z.leb_le _ _)) by lia.
  simpl. f_equal. rewrite !Nat2Z.id, app_assoc.
  replace (length l1 + length l2) with (length (l1 ++ l2)) by apply length_app.
  by rewrite take_app_length, drop_app_length.
Qed.
Lemma go_slice_to_end {A} (l1 l2 : list A) lo hi :
  lo = Z.of_nat (length l1) -> hi = Z.of_nat (length (l1 ++ l2)) -> go_slice (l1 ++ l2) lo hi = Ok l2.
Proof.
  intros -> ->. rewrite <- (app_nil_r l2) at 1. apply go_slice_app; [done|]. by rewrite length_app.
Qed.
Lemma go_index_app {A} (l1 l2 : list A) x i :
  i = Z.of_nat (length l1) -> go_index (l1 ++ x :: l2) i = Ok x.
Proof.
  intros ->. unfold go_index. rewrite (proj2 (Z.ltb_ge _ _)) by lia.
  by rewrite Nat2Z.id, list_lookup_middle.
Qed.

(** *** Numbers *)

Lemma int_string_roundtrip z : NilZero.int_of_string (Itoa z) = Some (Z.to_int z).
Proof.
  unfold Itoa. pose proof (DecimalZ.to_of (Z.to_int z)) as Hn. rewrite DecimalZ.of_to in Hn.
  apply NilZero.isi; intros H; rewrite H in Hn; discriminate Hn.
Qed.

Lemma uint_string_digits c s d : NilEmpty.uint_of_string s = Some d ->
  (forall o, uint_of_char c o = None) -> no_char c s = true.
Proof.
  intros Hs Hc. revert d Hs. induction s as [|a s IH]; intros d; simpl; [done|].
  destruct (Ascii.eqb_spec a c) as [->|Ha]; [by rewrite Hc|].
  destruct (NilEmpty.uint_of_string s) as [d'|]; [intros _; by apply (IH d')|].
  by destruct a as [[] [] [] [] [] [] [] []].
Qed.

Lemma int_string_digits c s d : NilZero.int_of_string s = Some d ->
  (forall o, uint_of_char c o = None) -> c <> Ascii.ascii_of_nat 45 -> no_char c s = true.
Proof.
  intros Hs Hc Hm. destruct s as [|a s]; [done|]. unfold NilZero.int_of_string in Hs.
  destruct (Ascii.eqb_spec a (Ascii.Ascii true false true true false true false false)) as [->|Ha].
  - assert (no_char c s = true) as Hn.
    { destruct s as [|b s]; [done|]. unfold NilZero.uint_of_string in Hs.
      destruct (NilEmpty.uint_of_string (String b s)) eqn:E; [|done]. exact (uint_string_digits c _ _ E Hc). }
    cbn [no_char]. rewrite Hn. destruct (Ascii.eqb_spec (Ascii.Ascii true false true true false true false false) c); [|done].
    by destruct Hm.
  - change (option_map Decimal.Pos (NilEmpty.uint_of_string (String a s)) = Some d) in Hs.
    destruct (NilEmpty.uint_of_string (String a s)) eqn:E; [|done]. exact (uint_string_digits c _ _ E Hc).
Qed.

Lemma Itoa_no_slash z : no_slash (Itoa z).
Proof. eapply int_string_digits; [apply int_string_roundtrip|by intros []|done]. Qed.
Lemma Itoa_no_brace z : no_brace (Itoa z).
Proof. eapply int_string_digits; [apply int_string_roundtrip|by intros []|done]. Qed.

Lemma Atoi_Itoa z : (- 2 ^ 63 <= z < 2 ^ 63)%Z -> Atoi (Itoa z) = Some z.
Proof.
  intros Hz. pose proof (int_string_roundtrip z) as Hr.
  assert (Atoi (Itoa z) = (d ← NilZero.int_of_string (Itoa z);
    if ((- 2 ^ 63 <=? Z.of_int d) && (Z.of_int d <? 2 ^ 63))%Z then Some (Z.of_int d) else None)) as ->.
  { unfold Atoi. pose proof (int_string_digits (Ascii.ascii_of_nat 43) _ _ Hr) as Hp.
    specialize (Hp ltac:(by intros []) ltac:(done)).
    destruct (Itoa z) as [|c s]; [done|]. cbn [no_char] in Hp.
    by destruct (Ascii.eqb c (Ascii.ascii_of_nat 43)). }
  rewrite Hr. cbn [mbind option_bind]. rewrite DecimalZ.of_to.
  assert (((- 2 ^ 63 <=? z) && (z <? 2 ^ 63))%Z = true) as ->; [|done].
  rewrite andb_true_iff, Z.leb_le, Z.ltb_lt. lia.
Qed.

(** Fill the placeholder [old] that follows [a] in a template. *)
Ltac fill old a rest :=
  erewrite (Replace1_fill _ a old _ rest);
    [|rewrite ?append_assoc; reflexivity
     |repeat apply no_brace_app; first [assumption|reflexivity|apply Itoa_no_brace]];
  rewrite ?append_assoc.

(** Positions in a list of parts, whatever way it is grouped. *)
Lemma last_index_at p parts l1 l2 : parts = l1 ++ p :: l2 -> p ∉ l2 ->
  last_index p parts = Z.of_nat (length l1).
Proof. intros ->. apply last_index_app. Qed.
Lemma first_index_at p parts l1 l2 : parts = l1 ++ p :: l2 -> p ∉ l1 ->
  first_index p parts = Z.of_nat (length l1).
Proof. intros ->. apply first_index_app. Qed.
Lemma index_at {A} (parts : list A) l1 x l2 i : parts = l1 ++ x :: l2 -> i = Z.of_nat (length l1) ->
  go_index parts i = Ok x.
Proof. intros ->. apply go_index_app. Qed.
Lemma slice_at {A} (parts : list A) l1 l2 l3 lo hi : parts = l1 ++ l2 ++ l3 ->
  lo = Z.of_nat (length l1) -> hi = Z.of_nat (length l1 + length l2) -> go_slice parts lo hi = Ok l2.
Proof. intros ->. apply go_slice_app. Qed.

Lemma Itoa_not_word z w : NilZero.int_of_string w = None -> Itoa z <> w.
Proof. intros Hw H. pose proof (int_string_roundtrip z) as Hr. congruence. Qed.

(** Solve the side conditions of these lemmas for [H : parts = ...]. *)
Ltac parts_at H :=
  rewrite ?H, ?length_app, <- ?app_assoc; cbn [length]; first [reflexivity | lia | set_solver].
