(* ===== verification/NetallocProto.v ===== *)
(** * Messages and constants of the network allocation

    [proto/ligato/netalloc]: the enumerations and the message of the protobuf
    definition, the form of references to allocated addresses, and the keys. *)
From S2P Require Import Prelude GoStrings.

(** Sources of addresses (an open enumeration). *)
Definition IPAddressSource_ALLOC_REF : Z := 3.
Definition IPAddressSource_String (source : Z) : string :=
  match source with
  | 0%Z => "UNDEFINED_SOURCE" | 1%Z => "STATIC" | 2%Z => "FROM_DHCP" | 3%Z => "ALLOC_REF" | 4%Z => "EXISTING"
  | z => Itoa z
  end.
Definition IPAddressSource_value (s : string) : option Z :=
  if String.eqb s "UNDEFINED_SOURCE" then Some 0%Z else if String.eqb s "STATIC" then Some 1%Z
  else if String.eqb s "FROM_DHCP" then Some 2%Z else if String.eqb s "ALLOC_REF" then Some 3%Z
  else if String.eqb s "EXISTING" then Some 4%Z else None.

(** Forms of addresses; the numbers outside the enumeration are [OtherForm]. *)
Inductive IPAddressForm :=
  | UNDEFINED_FORM | ADDR_ONLY | ADDR_WITH_MASK | ADDR_NET | SINGLE_ADDR_NET | OtherForm (n : Z).

#[export] Instance IPAddressForm_eq : EqDecision IPAddressForm.
Proof. solve_decision. Defined.

Record IPAllocation := MkIPAllocation {
  NetworkName : string;
  InterfaceName : string;
  Address : string;
  Gw : string
}.

#[export] Instance IPAllocation_eq : EqDecision IPAllocation.
Proof. solve_decision. Defined.

Definition AllocRefPrefix : string := "alloc:".
Definition AllocRefGWSuffix : string := "/GW".

Definition neighGwKeyTemplate : string := "netalloc/neigh-gw/network/{network}/interface/{iface}".

Definition NeighGwKey (network iface : string) : string :=
  let key := Replace1 neighGwKeyTemplate "{network}" network in
  Replace1 key "{iface}" iface.
