(* ===== verification/GoNet.v ===== *)
(** * Go's net package

    What the network allocation uses of the package net: addresses and masks as
    slices of bytes, parsing of addresses and of the CIDR notation, masking, and
    whether a network contains an address.  A nil slice is the empty list. *)
From Stdlib Require Import DecimalString.
From S2P Require Import Prelude GoStrings.

(** ** Addresses and masks *)

Record IPNet := MkIPNet { IP : list Z; Mask : list Z }.

#[export] Instance IPNet_eq : EqDecision IPNet.
Proof. solve_decision. Defined.

Definition v4InV6Prefix : list Z := [0; 0; 0; 0; 0; 0; 0; 0; 0; 0; 255; 255]%Z.

Definition To4 (ip : list Z) : list Z :=
  if length ip =? 4 then ip
  else if (length ip =? 16) && bool_decide (take 12 ip = v4InV6Prefix) then drop 12 ip else [].

(** [ip.To4() != nil]. *)
Definition is_v4 (ip : list Z) : bool := negb (length (To4 ip) =? 0).

(** [ones] bits, in [len] bytes. *)
Fixpoint mask_bytes (len ones : nat) : list Z :=
  match len with
  | O => []
  | S len => (256 - 2 ^ (8 - Z.of_nat (ones `min` 8)))%Z :: mask_bytes len (ones - 8)
  end.

(** [net.CIDRMask]: nil unless the bits are those of an address and enough. *)
Definition CIDRMask (ones bits : Z) : list Z :=
  if negb ((bits =? 32) || (bits =? 128))%Z then []
  else if ((ones <? 0) || (bits <? ones))%Z then []
  else mask_bytes (Z.to_nat (bits / 8)) (Z.to_nat ones).

(** [IPMask.Size]: the number of bits that lead the mask, zero when the ones are
    not all in front; the number of all bits. *)
Fixpoint simpleMaskLength (mask : list Z) : option nat :=
  match mask with
  | [] => Some 0
  | v :: mask =>
      if (v =? 255)%Z then (fun n => 8 + n) <$> simpleMaskLength mask
      else
        n ← fst <$> list_find (fun n => v = 256 - 2 ^ (8 - Z.of_nat n))%Z (seq 0 8);
        if forallb (Z.eqb 0) mask then Some n else None
  end.
Definition Mask_Size (mask : list Z) : Z * Z :=
  match simpleMaskLength mask with
  | Some n => (Z.of_nat n, 8 * Z.of_nat (length mask))%Z
  | None => (0, 0)%Z
  end.

Definition allFF (b : list Z) : bool := forallb (Z.eqb 255) b.

Definition and_bytes (ip mask : list Z) : list Z := zip_with Z.land ip mask.

(** [IP.Mask]. *)
Definition ip_Mask (ip mask : list Z) : list Z :=
  let mask := if (length mask =? 16) && (length ip =? 4) && allFF (take 12 mask) then drop 12 mask else mask in
  let ip := if (length mask =? 4) && (length ip =? 16) && bool_decide (take 12 ip = v4InV6Prefix)
            then drop 12 ip else ip in
  if negb (length ip =? length mask) then [] else and_bytes ip mask.

Definition networkNumberAndMask (n : IPNet) : list Z * list Z :=
  let ip := if length (To4 (IP n)) =? 0 then IP n else To4 (IP n) in
  if (length (To4 (IP n)) =? 0) && negb (length ip =? 16) then ([], [])
  else
    let m := Mask n in
    if length m =? 4 then (if negb (length ip =? 4) then ([], []) else (ip, m))
    else if length m =? 16 then (if length ip =? 4 then (ip, drop 12 m) else (ip, m))
    else ([], []).

(** [IPNet.Contains]. *)
Definition Contains (n : IPNet) (ip : list Z) : bool :=
  let '(nn, m) := networkNumberAndMask n in
  let ip := if length (To4 ip) =? 0 then ip else To4 ip in
  if negb (length ip =? length nn) then false
  else bool_decide (and_bytes nn m = and_bytes ip m).

Example mask_sizes : map Mask_Size [[255; 255; 240; 0]; [0; 0; 0; 0]; [255; 0; 255; 0]; [253]; []; replicate 16 255]%Z
  = [(20, 32); (0, 32); (0, 0); (0, 0); (0, 0); (128, 128)]%Z.
Proof. reflexivity. Qed.

(** ** Parsing *)

Definition colon : Ascii.ascii := Ascii.ascii_of_nat 58.
Definition period : Ascii.ascii := Ascii.ascii_of_nat 46.
Definition zero_digit : Ascii.ascii := Ascii.ascii_of_nat 48.

(** Digits only, leading zeros included. *)
Definition dtoi (s : string) : option Z := Z.of_uint <$> NilZero.uint_of_string s.

(** A part of a dotted address: no leading zeros, at most 255. *)
Definition parse_octet (s : string) : option Z :=
  n ← dtoi s;
  let leading := match s with String c (String _ _) => Ascii.eqb c zero_digit | _ => false end in
  if leading || (255 <? n)%Z then None else Some n.

Definition parseIPv4 (s : string) : option (list Z) :=
  match split_on period s with
  | [a; b; c; d] =>
      a ← parse_octet a; b ← parse_octet b; c ← parse_octet c; d ← parse_octet d;
      Some [a; b; c; d]
  | _ => None
  end.

Definition hex_digit (c : Ascii.ascii) : option Z :=
  let n := Z.of_nat (Ascii.nat_of_ascii c) in
  if ((48 <=? n) && (n <=? 57))%Z then Some (n - 48)%Z
  else if ((97 <=? n) && (n <=? 102))%Z then Some (n - 87)%Z
  else if ((65 <=? n) && (n <=? 70))%Z then Some (n - 55)%Z
  else None.

Fixpoint hex_value (s : string) (acc : Z) : option Z :=
  match s with
  | "" => Some acc
  | String c s => d ← hex_digit c; hex_value s (acc * 16 + d)%Z
  end.

(** One to four hexadecimal digits. *)
Definition parse_group (s : string) : option Z :=
  if is_empty s || (4 <? String.length s) then None else hex_value s 0.

(** The groups between the colons: [done] are the bytes read, [ellipsis] their
    number where the double colon was. *)
Fixpoint parse_groups (parts : list string) (done : list Z) (ellipsis : option nat) :
    option (list Z * option nat) :=
  match parts with
  | [] => None
  | p :: rest =>
      if 16 <=? length done then None
      else if negb (no_char period p) then
        (* the last four bytes as a dotted address *)
        match rest with
        | [] =>
            if (match ellipsis with None => negb (length done =? 12) | Some _ => 12 <? length done end) then None
            else ip4 ← parseIPv4 p; Some (done ++ ip4, ellipsis)
        | _ => None
        end
      else
        n ← parse_group p;
        let bytes := done ++ [n / 256; n mod 256]%Z in
        match rest with
        | [] => Some (bytes, ellipsis)
        | "" :: rest' =>
            match rest', ellipsis with
            | [], _ | _, Some _ => None
            | [""], None => Some (bytes, Some (length bytes))
            | _, None => parse_groups rest' bytes (Some (length bytes))
            end
        | _ => parse_groups rest bytes ellipsis
        end
  end.

Definition parseIPv6 (s : string) : option (list Z) :=
  r ← match split_on colon s with
      | "" :: "" :: [""] => Some ([], Some 0)
      | "" :: "" :: rest => parse_groups rest [] (Some 0)
      | parts => parse_groups parts [] None
      end;
  let '(bytes, ellipsis) := r in
  match ellipsis with
  | None => if length bytes =? 16 then Some bytes else None
  | Some e =>
      if 16 <=? length bytes then None
      else Some (take e bytes ++ replicate (16 - length bytes) 0%Z ++ drop e bytes)
  end.

(** The first dot or colon tells the family. *)
Fixpoint ip_family (s : string) : option bool :=
  match s with
  | "" => None
  | String c s => if Ascii.eqb c period then Some false else if Ascii.eqb c colon then Some true else ip_family s
  end.

(** [net.ParseIP]: sixteen bytes, or nil. *)
Definition ParseIP (s : string) : list Z :=
  match ip_family s with
  | None => []
  | Some false => match parseIPv4 s with Some ip4 => v4InV6Prefix ++ ip4 | None => [] end
  | Some true => match parseIPv6 s with Some ip => ip | None => [] end
  end.

(** The text before and after the first slash. *)
Fixpoint cut_slash (s : string) : option (string * string) :=
  match s with
  | "" => None
  | String c s =>
      if Ascii.eqb c slash then Some ("", s)
      else '(a, b) ← cut_slash s; Some (String c a, b)
  end.

(** [net.ParseCIDR]: the address and the network, or an error. *)
Definition ParseCIDR (s : string) : option (list Z * IPNet) :=
  '(addr, mask) ← cut_slash s;
  let ip := ParseIP addr in
  let bits := (match ip_family addr with Some false => 32 | _ => 128 end)%Z in
  n ← dtoi mask;
  if (length ip =? 0) || (bits <? n)%Z then None
  else let m := CIDRMask n bits in Some (ip, MkIPNet (ip_Mask ip m) m).

Example parse_v4 : ParseIP "192.168.2.5" = v4InV6Prefix ++ [192; 168; 2; 5]%Z.
Proof. reflexivity. Qed.
Example parse_v6 : ParseIP "fe80::a:1" = [254; 128; 0; 0; 0; 0; 0; 0; 0; 0; 0; 0; 0; 10; 0; 1]%Z.
Proof. reflexivity. Qed.
Example parse_mapped : ParseIP "::ffff:10.0.0.1" = v4InV6Prefix ++ [10; 0; 0; 1]%Z.
Proof. reflexivity. Qed.
Example parse_bad : Forall (fun s => ParseIP s = [])
  ["1.2.3"; "1.2.3.04"; "1.2.3.256"; "1.2.3.4."; ":1"; "1:"; "1::2::3"; "12345::"; "1:2:3:4:5:6:7:8:9"; "fe80::1%eth0"; "";
   "1:2:3:4:5:6:7:8::"; "1:::2"; "::1.2.3"; "1:2:3:4:5:6:7:1.2.3.4"; "1.2.3.4:5"].
Proof. repeat constructor. Qed.
Example parse_good : map ParseIP ["::"; "1::"; "1:2:3:4:5:6:7::"; "1:2:3:4:5:6:1.2.3.4"; "1:2:3:4:5::1.2.3.4"]
  = [replicate 16 0; 0 :: 1 :: replicate 14 0; [0;1;0;2;0;3;0;4;0;5;0;6;0;7;0;0]; [0;1;0;2;0;3;0;4;0;5;0;6;1;2;3;4];
     [0;1;0;2;0;3;0;4;0;5;0;0;1;2;3;4]]%Z.
Proof. reflexivity. Qed.
Example parse_cidr : ParseCIDR "10.1.2.3/16" =
  Some (v4InV6Prefix ++ [10; 1; 2; 3]%Z, MkIPNet [10; 1; 0; 0]%Z [255; 255; 0; 0]%Z).
Proof. reflexivity. Qed.
