(* ===== verification/GoNetFacts.v ===== *)
(** * Facts about addresses and networks

    Masking keeps the first bits of an address; a network contains the addresses
    that share its first bits; what the parsers return is well formed. *)
From Stdlib Require Import DecimalString.
From S2P Require Import Prelude GoStrings GoNet.

(** ** Bits *)

Definition is_byte (b : Z) : Prop := (0 <= b < 256)%Z.

(** The most significant bit first. *)
Definition byte_bits (b : Z) : list bool := Z.testbit b <$> [7; 6; 5; 4; 3; 2; 1; 0]%Z.
Definition ip_bits (ip : list Z) : list bool := ip ≫= byte_bits.

Definition mask_byte (k : nat) : Z := (256 - 2 ^ (8 - Z.of_nat (k `min` 8)))%Z.

(** The byte with the given first bits. *)
Fixpoint byte_of (w : Z) (bits : list bool) : Z :=
  match bits with [] => 0 | b :: bits => ((if b then w else 0) + byte_of (w / 2) bits)%Z end.

Lemma all_bytes (P : Z -> bool) : forallb P (Z.of_nat <$> seq 0 256) = true -> forall b, is_byte b -> P b = true.
Proof.
  intros H b Hb. rewrite forallb_forall in H. apply H, list_elem_of_In, list_elem_of_fmap.
  exists (Z.to_nat b). unfold is_byte in Hb. split; [lia|]. apply elem_of_seq. lia.
Qed.

Lemma mask_byte_bits k b : is_byte b -> k <= 8 ->
  Z.land b (mask_byte k) = byte_of 128 (take k (byte_bits b))
  /\ take k (byte_bits (Z.land b (mask_byte k))) = take k (byte_bits b)
  /\ is_byte (Z.land b (mask_byte k)).
Proof.
  intros Hb Hk.
  pose (P := fun b => forallb (fun k => (Z.land b (mask_byte k) =? byte_of 128 (take k (byte_bits b)))%Z
    && bool_decide (take k (byte_bits (Z.land b (mask_byte k))) = take k (byte_bits b))
    && ((0 <=? Z.land b (mask_byte k)) && (Z.land b (mask_byte k) <? 256))%Z) (seq 0 9)).
  assert (P b = true) as H by (apply all_bytes; [by vm_compute|done]). unfold P in H.
  rewrite forallb_forall in H. specialize (H k). rewrite !andb_true_iff, Z.eqb_eq, bool_decide_eq_true, Z.leb_le, Z.ltb_lt in H.
  apply and_assoc, H, in_seq. lia.
Qed.

(** Masking compares the first bits. *)
Lemma mask_byte_eq k b b' : is_byte b -> is_byte b' ->
  Z.land b (mask_byte k) = Z.land b' (mask_byte k) <-> take k (byte_bits b) = take k (byte_bits b').
Proof.
  intros Hb Hb'.
  assert (forall k, k <= 8 -> Z.land b (mask_byte k) = Z.land b' (mask_byte k) <-> take k (byte_bits b) = take k (byte_bits b')) as H.
  { clear k. intros k Hk. destruct (mask_byte_bits k b Hb Hk) as (E1 & E2 & _).
    destruct (mask_byte_bits k b' Hb' Hk) as (E1' & E2' & _).
    split; intros E; [by rewrite <- E2, <- E2', E|by rewrite E1, E1', E]. }
  destruct (decide (k <= 8)) as [Hk|Hk]; [by apply H|].
  assert (mask_byte k = mask_byte 8) as -> by (unfold mask_byte; do 2 f_equal; lia).
  rewrite H by done. rewrite !take_ge; [done|cbn; lia..].
Qed.

Lemma length_byte_bits b : length (byte_bits b) = 8.
Proof. reflexivity. Qed.

Lemma mask_bytes_cons l n : mask_bytes (S l) n = mask_byte n :: mask_bytes l (n - 8).
Proof. reflexivity. Qed.

Lemma length_mask_bytes l n : length (mask_bytes l n) = l.
Proof. revert n. induction l as [|l IH]; intros n; [done|]. rewrite mask_bytes_cons. cbn [length]. by rewrite IH. Qed.

Lemma and_bytes_eq n ip ip' : length ip = length ip' -> Forall is_byte ip -> Forall is_byte ip' ->
  and_bytes ip (mask_bytes (length ip) n) = and_bytes ip' (mask_bytes (length ip) n)
  <-> take n (ip_bits ip) = take n (ip_bits ip').
Proof.
  revert n ip'. induction ip as [|b ip IH]; intros n [|b' ip'] Hl H H'; try done.
  apply Forall_cons in H as [Hb H], H' as [Hb' H']. injection Hl as Hl. cbn [length]. rewrite mask_bytes_cons.
  unfold ip_bits. cbn [mbind list_bind]. rewrite !take_app, !length_byte_bits.
  change (and_bytes (?a :: ?l) (?m :: ?k)) with (Z.land a m :: and_bytes l k).
  split.
  - intros [= E1 E2]. f_equal; [by apply mask_byte_eq|by apply IH].
  - intros E. apply app_inj_1 in E as [E1 E2]; [|by rewrite !length_take].
    f_equal; [by apply mask_byte_eq|by apply IH].
Qed.

Lemma and_bytes_idem ip m : length ip = length m -> and_bytes (and_bytes ip m) m = and_bytes ip m.
Proof.
  revert m. induction ip as [|b ip IH]; intros [|x m] Hl; try done. injection Hl as Hl.
  unfold and_bytes in *. cbn [zip_with]. rewrite IH by done. f_equal. rewrite <- Z.land_assoc. by rewrite Z.land_diag.
Qed.

Lemma length_and_bytes ip m : length ip = length m -> length (and_bytes ip m) = length ip.
Proof. intros H. unfold and_bytes. rewrite length_zip_with. lia. Qed.

(** *** Masks *)

Lemma land_byte b m : is_byte b -> is_byte (Z.land b m).
Proof.
  unfold is_byte. intros Hb. assert (Z.land b m = Z.land b m mod 2 ^ 8)%Z as ->; [|apply Z.mod_pos_bound; lia].
  rewrite <- Z.land_ones by lia. rewrite <- Z.land_assoc, (Z.land_comm m), Z.land_assoc, Z.land_ones by lia.
  by rewrite (Z.mod_small b) by lia.
Qed.

Lemma and_bytes_ok ip m : Forall is_byte ip -> Forall is_byte (and_bytes ip m).
Proof.
  intros H. revert m. induction H as [|b ip Hb _ IH]; intros [|x m]; try apply Forall_nil_2.
  apply Forall_cons_2; [by apply land_byte|apply IH].
Qed.

Lemma drop_mask_bytes k l n : drop k (mask_bytes (k + l) n) = mask_bytes l (n - 8 * k).
Proof.
  revert n. induction k as [|k IH]; intros n; [change (drop 0 ?x) with x; f_equal; lia|].
  cbn [Nat.add]. rewrite mask_bytes_cons. cbn [drop]. rewrite IH. f_equal. lia.
Qed.

Lemma mask_byte_full n : mask_byte n = 255%Z <-> 8 <= n.
Proof.
  unfold mask_byte. split; [|intros H; by rewrite Nat.min_r].
  intros E. destruct (decide (8 <= n)) as [|Hn]; [done|]. exfalso.
  assert (n = 0 \/ n = 1 \/ n = 2 \/ n = 3 \/ n = 4 \/ n = 5 \/ n = 6 \/ n = 7) as H by lia.
  by repeat destruct H as [->|H]; subst.
Qed.

Lemma allFF_mask k l n : 1 <= k -> allFF (take k (mask_bytes (k + l) n)) = true <-> 8 * k <= n.
Proof.
  revert n. induction k as [|k IH]; intros n Hk; [lia|]. cbn [Nat.add]. rewrite mask_bytes_cons. cbn [take].
  unfold allFF. cbn [forallb]. rewrite andb_true_iff, Z.eqb_eq.
  assert (255%Z = mask_byte n <-> 8 <= n) as -> by (rewrite <- mask_byte_full; by split).
  destruct k as [|k]; [cbn; split; [intros []|]; [lia|split; [lia|done]]|].
  fold (allFF (take (S k) (mask_bytes (S k + l) (n - 8)))). rewrite IH by lia. lia.
Qed.

(** ** What the parsers return *)

Lemma dtoi_nonneg s n : dtoi s = Some n -> (0 <= n)%Z.
Proof.
  unfold dtoi. intros (d & _ & ->)%fmap_Some. unfold Z.of_uint. lia.
Qed.

Lemma parse_octet_byte s n : parse_octet s = Some n -> is_byte n.
Proof.
  unfold parse_octet. intros (m & Hm & H)%bind_Some. destruct (_ || _) eqn:E; [done|]. injection H as ->.
  apply orb_false_iff in E as [_ E]. apply Z.ltb_ge in E. apply dtoi_nonneg in Hm. unfold is_byte. lia.
Qed.

Definition ip_ok (len : nat) (ip : list Z) : Prop := length ip = len /\ Forall is_byte ip.

Lemma parseIPv4_ok s ip : parseIPv4 s = Some ip -> ip_ok 4 ip.
Proof.
  unfold parseIPv4. destruct (split_on period s) as [|a [|b [|c [|d [|]]]]]; try done.
  intros (a' & Ha & H)%bind_Some. apply bind_Some in H as (b' & Hb & H). apply bind_Some in H as (c' & Hc & H).
  apply bind_Some in H as (d' & Hd & [= <-]). split; [done|].
  repeat apply Forall_cons_2; eauto using parse_octet_byte.
Qed.

Lemma hex_digit_range c d : hex_digit c = Some d -> (0 <= d < 16)%Z.
Proof. unfold hex_digit. repeat case_match; intros; simplify_eq; lia. Qed.

Lemma hex_value_range s acc n : (0 <= acc)%Z -> hex_value s acc = Some n ->
  (0 <= n < (acc + 1) * 16 ^ Z.of_nat (String.length s))%Z.
Proof.
  revert acc. induction s as [|c s IH]; intros acc Ha; cbn [hex_value String.length].
  - intros [= <-]. lia.
  - intros (d & Hd & H)%bind_Some. apply hex_digit_range in Hd. apply IH in H; [|lia].
    rewrite Nat2Z.inj_succ, Z.pow_succ_r by lia. nia.
Qed.

Lemma parse_group_range s n : parse_group s = Some n -> (0 <= n < 65536)%Z.
Proof.
  unfold parse_group. destruct (is_empty s || _) eqn:E; [done|]. intros H%hex_value_range; [|done].
  apply orb_false_iff in E as [_ E]. apply Nat.ltb_ge in E.
  assert (16 ^ Z.of_nat (String.length s) <= 16 ^ 4)%Z by (apply Z.pow_le_mono_r; lia). lia.
Qed.

Lemma group_bytes n : (0 <= n < 65536)%Z -> Forall is_byte [n / 256; n mod 256]%Z.
Proof.
  intros H. unfold is_byte. repeat apply Forall_cons_2; [|apply Z.mod_pos_bound; lia|by apply Forall_nil_2].
  split; [apply Z.div_pos; lia|apply Z.div_lt_upper_bound; lia].
Qed.

Lemma parse_groups_bytes k : forall parts done ellipsis bytes e, length parts <= k ->
  Forall is_byte done -> parse_groups parts done ellipsis = Some (bytes, e) -> Forall is_byte bytes.
Proof.
  induction k as [|k IH]; intros [|p rest] done ellipsis bytes e Hk Hd; cbn [parse_groups length] in *;
    [by intros|lia|by intros|].
  destruct (16 <=? length done); [by intros|].
  destruct (negb (no_char period p)).
  { destruct rest; [|by intros]. destruct ellipsis as [x|].
    - destruct (12 <? length done); [by intros|]. intros (ip4 & H4%parseIPv4_ok & [= <- <-])%bind_Some.
      apply Forall_app_2; [done|apply H4].
    - destruct (negb _); [by intros|]. intros (ip4 & H4%parseIPv4_ok & [= <- <-])%bind_Some.
      apply Forall_app_2; [done|apply H4]. }
  intros (n & Hn%parse_group_range%group_bytes & H)%bind_Some.
  assert (Forall is_byte (done ++ [n / 256; n mod 256]%Z)) as Hd' by by apply Forall_app_2.
  destruct rest as [|q rest']; [by injection H as <- <-|].
  destruct q as [|c q]; [|by eapply IH; [|exact Hd'|exact H]; cbn [length] in *; lia].
  destruct rest' as [|q' rest'']; [done|]. destruct ellipsis; [by destruct q', rest''|].
  destruct q' as [|c q']; [destruct rest'' as [|]; [by injection H as <- <-|]|];
    (eapply IH; [|exact Hd'|exact H]; cbn [length] in *; lia).
Qed.

Lemma parseIPv6_ok s ip : parseIPv6 s = Some ip -> ip_ok 16 ip.
Proof.
  unfold parseIPv6. intros ([bytes e] & Hr & H)%bind_Some.
  assert (Forall is_byte bytes) as Hb.
  { destruct (split_on colon s) as [|[|c p] [|[|c' p'] rest]];
      try (eapply parse_groups_bytes; [reflexivity|by apply Forall_nil_2|exact Hr]).
    destruct rest as [|[|c'' p''] [|]]; try (eapply parse_groups_bytes; [reflexivity|by apply Forall_nil_2|exact Hr]).
    injection Hr as <- <-. by apply Forall_nil_2. }
  destruct e as [e|].
  - destruct (Nat.leb_spec 16 (length bytes)); [done|]. injection H as <-. split.
    + rewrite !length_app, length_replicate, length_take, length_drop. lia.
    + apply Forall_app_2; [by apply Forall_take|]. apply Forall_app_2; [|by apply Forall_drop].
      by apply Forall_replicate.
  - destruct (Nat.eqb_spec (length bytes) 16); [|done]. by injection H as <-.
Qed.

Lemma prefix_bytes : Forall is_byte v4InV6Prefix.
Proof. unfold v4InV6Prefix, is_byte. repeat (apply Forall_cons_2; [lia|]). by apply Forall_nil_2. Qed.

Lemma ParseIP_ok s : ParseIP s = [] \/ ip_ok 16 (ParseIP s) /\ (ip_family s = Some false -> take 12 (ParseIP s) = v4InV6Prefix).
Proof.
  unfold ParseIP. destruct (ip_family s) as [[]|]; [| |by left].
  - destruct (parseIPv6 s) as [ip|] eqn:E; [right|by left]. split; [by eapply parseIPv6_ok|done].
  - destruct (parseIPv4 s) as [ip|] eqn:E; [right|by left]. apply parseIPv4_ok in E as [El Eb]. split; [|done].
    split; [rewrite length_app, El; done|]. apply Forall_app_2; [apply prefix_bytes|done].
Qed.

Lemma CIDRMask_v4 n : (0 <= n <= 32)%Z -> CIDRMask n 32 = mask_bytes 4 (Z.to_nat n).
Proof.
  intros H. unfold CIDRMask. cbn [Z.eqb orb negb]. by rewrite (proj2 (Z.ltb_ge n 0)), (proj2 (Z.ltb_ge 32 n)) by lia.
Qed.
Lemma CIDRMask_v6 n : (0 <= n <= 128)%Z -> CIDRMask n 128 = mask_bytes 16 (Z.to_nat n).
Proof.
  intros H. unfold CIDRMask. cbn [Z.eqb orb negb]. by rewrite (proj2 (Z.ltb_ge n 0)), (proj2 (Z.ltb_ge 128 n)) by lia.
Qed.

(** Cutting at the first slash. *)
Lemma cut_slash_app a b : no_slash a -> cut_slash (a +:+ "/" +:+ b) = Some (a, b).
Proof.
  unfold no_slash. induction a as [|c a IH]; cbn [no_char]; [done|].
  intros [Hc Ha]%andb_true_iff. apply negb_true_iff in Hc.
  change (String c a +:+ ?x) with (String c (a +:+ x)). cbn [cut_slash]. by rewrite Hc, IH.
Qed.

Lemma cut_slash_none a : no_slash a -> cut_slash a = None.
Proof.
  unfold no_slash. induction a as [|c a IH]; cbn [no_char cut_slash]; [done|].
  intros [Hc Ha]%andb_true_iff. apply negb_true_iff in Hc. by rewrite Hc, IH.
Qed.

(** The network of the CIDR notation: the mask has the bits of the family of the text. *)
Lemma ParseCIDR_ok s ip n : ParseCIDR s = Some (ip, n) ->
  ip_ok 16 ip /\ exists ones, (Mask n = mask_bytes 4 ones /\ ones <= 32 /\ take 12 ip = v4InV6Prefix)
    \/ (Mask n = mask_bytes 16 ones /\ ones <= 128).
Proof.
  unfold ParseCIDR. intros ([addr mask] & _ & H)%bind_Some. apply bind_Some in H as (k & Hk%dtoi_nonneg & H).
  destruct (ParseIP_ok addr) as [E|[Hip Hv4]]; [by rewrite E in H|].
  destruct (_ || _) eqn:Eb; [done|]. apply orb_false_iff in Eb as [_ Eb]. apply Z.ltb_ge in Eb.
  injection H as <- <-. cbn [Mask]. split; [done|]. exists (Z.to_nat k).
  destruct (ip_family addr) as [[]|].
  - right. split; [apply CIDRMask_v6; lia|lia].
  - left. split; [apply CIDRMask_v4; lia|]. split; [lia|by apply Hv4].
  - right. split; [apply CIDRMask_v6; lia|lia].
Qed.

(** ** Networks and the first bits of addresses *)

(** The leading ones of a mask. *)
Fixpoint leading_ones (bits : list bool) : nat :=
  match bits with true :: bits => S (leading_ones bits) | _ => 0 end.
Definition mask_ones (m : list Z) : nat := leading_ones (ip_bits m).

(** The number of bits of the address that the mask fixes; none when the mask is
    one of sixteen bytes that fixes less than the bytes it has in excess. *)
Definition prefix_len (n : IPNet) : option nat :=
  let excess := 8 * (length (Mask n) - length (IP n)) in
  if mask_ones (Mask n) <? excess then None else Some (mask_ones (Mask n) - excess).

(** The address is of the same family and shares the first bits. *)
Definition shares_prefix (n : IPNet) (ip : list Z) : bool :=
  match prefix_len n with
  | None => false
  | Some k => bool_decide (length ip = length (IP n)) && bool_decide (take k (ip_bits ip) = take k (ip_bits (IP n)))
  end.

Lemma leading_ones_app n l : leading_ones (replicate n true ++ false :: l) = n.
Proof. induction n as [|n IH]; cbn; [done|]. by rewrite IH. Qed.
Lemma leading_ones_all n : leading_ones (replicate n true) = n.
Proof. induction n as [|n IH]; cbn; [done|]. by rewrite IH. Qed.

Lemma mask_byte_bits_eq n : byte_bits (mask_byte n) = replicate (n `min` 8) true ++ replicate (8 - n) false.
Proof.
  destruct (decide (8 <= n)) as [H|H].
  - assert (mask_byte n = 255%Z) as -> by by apply mask_byte_full. rewrite Nat.min_r by done.
    by replace (8 - n) with 0 by lia.
  - assert (n = 0 \/ n = 1 \/ n = 2 \/ n = 3 \/ n = 4 \/ n = 5 \/ n = 6 \/ n = 7) as E by lia.
    by repeat destruct E as [->|E]; subst.
Qed.

Lemma mask_bits l n : ip_bits (mask_bytes l n) = replicate (n `min` (8 * l)) true ++ replicate (8 * l - n) false.
Proof.
  revert n. induction l as [|l IH]; intros n; [by rewrite Nat.min_0_r|].
  rewrite mask_bytes_cons. unfold ip_bits in *. cbn [mbind list_bind]. rewrite IH, mask_byte_bits_eq.
  destruct (decide (8 <= n)).
  - rewrite (Nat.min_r n 8) by lia. replace (8 - n) with 0 by lia. rewrite app_nil_r, app_assoc, <- replicate_add.
    f_equal; f_equal; lia.
  - rewrite (Nat.min_l n 8) by lia. replace (n - 8) with 0 by lia. change (replicate (0 `min` _) true) with (@nil bool).
    rewrite app_nil_l, <- app_assoc, <- replicate_add. f_equal; f_equal; lia.
Qed.

Lemma mask_ones_bytes l n : n <= 8 * l -> mask_ones (mask_bytes l n) = n.
Proof.
  intros H. unfold mask_ones. rewrite mask_bits, Nat.min_l by done.
  destruct (8 * l - n); [rewrite app_nil_r; apply leading_ones_all|apply leading_ones_app].
Qed.

(** Networks as they are parsed. *)
Inductive parsed_net : IPNet -> Prop :=
  | parsed_v4 ip n : ip_ok 4 ip -> n <= 32 -> parsed_net (MkIPNet ip (mask_bytes 4 n))
  | parsed_v6 ip n : ip_ok 16 ip -> take 12 ip <> v4InV6Prefix -> n <= 128 -> parsed_net (MkIPNet ip (mask_bytes 16 n))
  | parsed_mapped ip n : ip_ok 4 ip -> n <= 128 -> parsed_net (MkIPNet ip (mask_bytes 16 n)).

(** Addresses as they are parsed. *)
Definition parsed_ip (ip : list Z) : Prop := ip_ok 4 ip \/ ip_ok 16 ip /\ take 12 ip <> v4InV6Prefix.

Lemma To4_4 ip : length ip = 4 -> To4 ip = ip.
Proof. intros H. unfold To4. by rewrite H. Qed.
Lemma To4_16 ip : length ip = 16 -> take 12 ip <> v4InV6Prefix -> To4 ip = [].
Proof. intros H Hn. unfold To4. rewrite H. cbn [Nat.eqb andb]. by rewrite bool_decide_eq_false_2. Qed.

Lemma and_bytes_take k ip m : take k (and_bytes ip m) = and_bytes (take k ip) (take k m).
Proof. apply zip_with_take. Qed.

Lemma land_byte_full b m : is_byte b -> is_byte m -> Z.land b m = 255%Z -> m = 255%Z.
Proof.
  intros Hb Hm H.
  assert (Z.land m 255 = m)%Z as Em by (change 255%Z with (Z.ones 8); rewrite Z.land_ones by lia; apply Z.mod_small; done).
  apply Z.bits_inj'. intros i Hi.
  assert (Z.testbit (Z.land b m) i = Z.testbit 255 i) as Ht by by rewrite H.
  rewrite Z.land_spec in Ht. change 255%Z with (Z.ones 8) in *.
  destruct (decide (i < 8)%Z).
  - rewrite Z.ones_spec_low in * by lia. by apply andb_true_iff in Ht as [_ ->].
  - rewrite <- Em. rewrite Z.land_spec, Z.ones_spec_high by lia. apply andb_false_r.
Qed.

Lemma mask_byte_is_byte n : is_byte (mask_byte n).
Proof.
  unfold mask_byte, is_byte. assert (0 <= 8 - Z.of_nat (n `min` 8) <= 8)%Z as H by lia.
  assert (2 ^ 0 <= 2 ^ (8 - Z.of_nat (n `min` 8)) <= 2 ^ 8)%Z by (split; apply Z.pow_le_mono_r; lia). lia.
Qed.

Lemma lookup_mask_bytes l n i : i < l -> mask_bytes l n !! i = Some (mask_byte (n - 8 * i)).
Proof.
  revert n i. induction l as [|l IH]; intros n i Hi; [lia|]. rewrite mask_bytes_cons.
  destruct i as [|i]; [cbn [lookup list_lookup]; do 2 f_equal; lia|].
  cbn [lookup list_lookup]. rewrite IH by lia. do 2 f_equal. lia.
Qed.

Lemma and_bytes_full ip : Forall is_byte ip -> and_bytes ip (replicate (length ip) 255%Z) = ip.
Proof.
  induction 1 as [|b ip Hb _ IH]; [done|]. cbn [length replicate]. unfold and_bytes in *. cbn [zip_with].
  rewrite IH. f_equal. change 255%Z with (Z.ones 8). rewrite Z.land_ones by lia. by apply Z.mod_small.
Qed.

Lemma allFF_replicate l : allFF l = true -> l = replicate (length l) 255%Z.
Proof.
  induction l as [|x l IH]; [done|]. unfold allFF. cbn [forallb length replicate].
  intros [<-%Z.eqb_eq H]%andb_true_iff. by f_equal; apply IH.
Qed.

(** Masking does not make an address of six groups one of four bytes. *)
Lemma masked_not_v4 ip n : ip_ok 16 ip -> take 12 ip <> v4InV6Prefix ->
  take 12 (and_bytes ip (mask_bytes 16 n)) <> v4InV6Prefix.
Proof.
  intros [Hl Hb] Hn E. apply Hn. rewrite and_bytes_take in E.
  assert (8 * 12 <= n) as H96.
  { assert (and_bytes (take 12 ip) (take 12 (mask_bytes 16 n)) !! 11 = Some 255%Z) as H by by rewrite E.
    unfold and_bytes in H. apply lookup_zip_with_Some in H as (b & m & H1 & H2 & H3).
    rewrite lookup_take_lt in H2 by lia. rewrite lookup_take_lt, lookup_mask_bytes in H3 by lia.
    injection H3 as <-.
    assert (mask_byte (n - 8 * 11) = 255%Z) as Hm%mask_byte_full; [|lia].
    apply (land_byte_full b); [|apply mask_byte_is_byte|done].
    by eapply Forall_lookup_1. }
  apply (allFF_mask 12 4) in H96; [|lia]. apply allFF_replicate in H96.
  change (12 + 4) with 16 in H96. rewrite H96, length_take, length_mask_bytes in E.
  change (12 `min` 16) with 12 in E.
  assert (length (take 12 ip) = 12) as E12 by (rewrite length_take; lia).
  rewrite <- E. symmetry. rewrite <- E12 at 2. apply and_bytes_full, Forall_take, Hb.
Qed.

(** *** What a network contains *)

Lemma and_mask_bytes ip ip' l n : length ip = l -> length ip' = l -> Forall is_byte ip -> Forall is_byte ip' ->
  bool_decide (and_bytes (and_bytes ip (mask_bytes l n)) (mask_bytes l n) = and_bytes ip' (mask_bytes l n))
  = bool_decide (length ip' = length ip) && bool_decide (take n (ip_bits ip') = take n (ip_bits ip)).
Proof.
  intros Hl Hl' H H'. rewrite and_bytes_idem by by rewrite length_mask_bytes.
  rewrite (bool_decide_eq_true_2 (length ip' = length ip)) by congruence. apply bool_decide_ext.
  subst l. rewrite (and_bytes_eq n ip ip') by done. by split.
Qed.

Lemma ip_Mask_same ip m : length ip = length m -> ip_Mask ip m = and_bytes ip m.
Proof.
  intros H. unfold ip_Mask. rewrite <- H.
  assert (forall P : bool, (length ip =? 16) && (length ip =? 4) && P = false) as ->.
  { intros P. by destruct (Nat.eqb_spec (length ip) 16) as [->|]. }
  rewrite <- H.
  assert (forall P : bool, (length ip =? 4) && (length ip =? 16) && P = false) as ->.
  { intros P. by destruct (Nat.eqb_spec (length ip) 4) as [->|]. }
  by rewrite Nat.eqb_refl.
Qed.

Lemma ip_Mask_4_16 ip m : length ip = 4 -> length m = 16 ->
  ip_Mask ip m = if allFF (take 12 m) then and_bytes ip (drop 12 m) else [].
Proof.
  intros H Hm. unfold ip_Mask. rewrite H, Hm. cbn [Nat.eqb andb]. destruct (allFF (take 12 m)).
  - rewrite length_drop, Hm. cbn [Nat.eqb Nat.sub andb]. by rewrite H.
  - rewrite Hm. cbn [Nat.eqb andb]. by rewrite H.
Qed.

Lemma To4_parsed ip : parsed_ip ip -> To4 ip = if length ip =? 4 then ip else [].
Proof. intros [[H _]|[[H _] Hn]]; rewrite H; [by apply To4_4|by apply To4_16]. Qed.

(** The comparison, once the number and the mask of the network are known. *)
Lemma Contains_bytes net nn m ip : networkNumberAndMask net = (nn, m) -> parsed_ip ip ->
  Contains net ip = (length ip =? length nn) && bool_decide (and_bytes nn m = and_bytes ip m).
Proof.
  intros E Hip. unfold Contains. rewrite E, (To4_parsed ip Hip).
  assert ((if length (if length ip =? 4 then ip else []) =? 0 then ip else if length ip =? 4 then ip else []) = ip) as ->.
  { destruct (Nat.eqb_spec (length ip) 4) as [El|]; [by rewrite El|done]. }
  by destruct (length ip =? length nn).
Qed.

Lemma number_4_4 ip m : length ip = 4 -> length m = 4 -> networkNumberAndMask (MkIPNet ip m) = (ip, m).
Proof.
  intros H Hm. unfold networkNumberAndMask. cbn [IP Mask]. rewrite To4_4, H, Hm by done. cbn [Nat.eqb andb negb]. by rewrite H.
Qed.
Lemma number_4_16 ip m : length ip = 4 -> length m = 16 -> networkNumberAndMask (MkIPNet ip m) = (ip, drop 12 m).
Proof.
  intros H Hm. unfold networkNumberAndMask. cbn [IP Mask]. rewrite To4_4, H, Hm by done. cbn [Nat.eqb andb negb]. by rewrite H.
Qed.
Lemma number_16 ip m : length ip = 16 -> take 12 ip <> v4InV6Prefix -> length m = 16 ->
  networkNumberAndMask (MkIPNet ip m) = (ip, m).
Proof.
  intros H Hn Hm. unfold networkNumberAndMask. cbn [IP Mask]. rewrite To4_16 by done. cbn [length Nat.eqb andb].
  rewrite ?H, ?Hm. cbn [Nat.eqb negb]. by rewrite ?H, ?Hm.
Qed.

(** The check whether an address is from an expected network. *)
Lemma Contains_prefix net ip : parsed_net net -> parsed_ip ip ->
  Contains (MkIPNet (ip_Mask (IP net) (Mask net)) (Mask net)) ip = shares_prefix net ip.
Proof.
  intros Hnet Hip. assert (Forall is_byte ip) as Hbi by (by destruct Hip as [[_ ?]|[[_ ?] _]]).
  assert (length ip = 4 \/ length ip = 16) as Hli by (destruct Hip as [[? _]|[[? _] _]]; auto).
  destruct Hnet as [nip n [Hl Hb] Hn|nip n [Hl Hb] Hv Hn|nip n [Hl Hb] Hn]; cbn [IP Mask];
    unfold shares_prefix, prefix_len; cbn [IP Mask]; rewrite length_mask_bytes, mask_ones_bytes, Hl by lia.
  - change (8 * (4 - 4)) with 0. cbn [Nat.ltb Nat.leb]. rewrite Nat.sub_0_r, ip_Mask_same by by rewrite length_mask_bytes.
    assert (length (and_bytes nip (mask_bytes 4 n)) = 4) as Hm by by rewrite length_and_bytes, ?length_mask_bytes.
    erewrite Contains_bytes; [|apply number_4_4; [done|apply length_mask_bytes]|done].
    rewrite Hm. destruct (Nat.eqb_spec (length ip) 4) as [E|E]; [|by rewrite (bool_decide_eq_false_2 (length ip = 4))].
    rewrite (and_mask_bytes nip ip 4 n) by done. by rewrite Hl, E.
  - change (8 * (16 - 16)) with 0. cbn [Nat.ltb Nat.leb]. rewrite Nat.sub_0_r, ip_Mask_same by by rewrite length_mask_bytes.
    assert (length (and_bytes nip (mask_bytes 16 n)) = 16) as Hm by by rewrite length_and_bytes, ?length_mask_bytes.
    erewrite Contains_bytes; [|apply number_16; [done|by apply masked_not_v4|apply length_mask_bytes]|done].
    rewrite Hm. destruct (Nat.eqb_spec (length ip) 16) as [E|E]; [|by rewrite (bool_decide_eq_false_2 (length ip = 16))].
    rewrite (and_mask_bytes nip ip 16 n) by done. by rewrite Hl, E.
  - change (8 * (16 - 4)) with 96. rewrite ip_Mask_4_16 by (done || apply length_mask_bytes).
    pose proof (allFF_mask 12 4 n) as Hff. change (12 + 4) with 16 in Hff.
    pose proof (drop_mask_bytes 12 4 n) as Hdrop. change (12 + 4) with 16 in Hdrop. change (8 * 12) with 96 in *.
    destruct (allFF (take 12 (mask_bytes 16 n))).
    + rewrite (proj2 (Nat.ltb_ge n 96)) by (apply Hff; [lia|done]). rewrite Hdrop.
      assert (length (and_bytes nip (mask_bytes 4 (n - 96))) = 4) as Hm by by rewrite length_and_bytes, ?length_mask_bytes.
      erewrite Contains_bytes; [|apply number_4_16; [done|apply length_mask_bytes]|done].
      rewrite Hm, Hdrop. destruct (Nat.eqb_spec (length ip) 4) as [E|E]; [|by rewrite (bool_decide_eq_false_2 (length ip = 4))].
      rewrite (and_mask_bytes nip ip 4 (n - 96)) by done. by rewrite Hl, E.
    + rewrite (proj2 (Nat.ltb_lt n 96)).
      * erewrite Contains_bytes; [|done|done]. cbn [length]. by destruct Hli as [-> | ->].
      * destruct (decide (96 <= n)) as [Hge|]; [|lia]. apply Hff in Hge; [done|lia].
Qed.
