(* ===== verification/GoNetText.v ===== *)
(** * Texts of addresses

    More of the packages net and strings: hardware addresses, the text of an IP
    address, comparison of addresses, comparison of texts without regard to case.
    Texts that are not ASCII are compared by the runes of Unicode, a parameter. *)
From S2P Require Import Prelude GoStrings GoNet.

(** ** Texts *)

(** The loop of [strings.EqualFold] over the runes of what is left of both texts
    once one of them has a byte outside ASCII. *)
Class Unicode := { fold_runes : string -> string -> bool }.

Definition is_ascii (c : Ascii.ascii) : bool := Ascii.nat_of_ascii c <? 128.

Fixpoint EqualFold `{Unicode} (s t : string) : bool :=
  match s, t with
  | String a s', String b t' =>
      if negb (is_ascii a && is_ascii b) then fold_runes s t
      else if Ascii.eqb (lower_char a) (lower_char b) then EqualFold s' t'
      else false
  | "", "" => true
  | _, _ => false
  end.

(** [strings.Trim] with a cutset of one character. *)
Fixpoint trim_left (c : Ascii.ascii) (s : string) : string :=
  match s with String a s' => if Ascii.eqb a c then trim_left c s' else s | "" => "" end.
Fixpoint trim_right (c : Ascii.ascii) (s : string) : string :=
  match s with
  | "" => ""
  | String a s' =>
      match trim_right c s' with
      | "" => if Ascii.eqb a c then "" else String a ""
      | t => String a t
      end
  end.
Definition Trim (c : Ascii.ascii) (s : string) : string := trim_right c (trim_left c s).

(** ** Hardware addresses *)

Definition hyphen_minus : Ascii.ascii := Ascii.ascii_of_nat 45.

(** [xtoi2]: two hexadecimal digits. *)
Definition xtoi2 (s : string) : option Z :=
  match s with String _ (String _ "") => hex_value s 0 | _ => None end.

Definition mac_length (n : nat) : bool := (n =? 6) || (n =? 8) || (n =? 20).

(** Four digits in a part of the form with dots. *)
Definition xtoi4 (s : string) : option (list Z) :=
  match s with
  | String a (String b s') =>
      x ← xtoi2 (String a (String b "")); y ← xtoi2 s'; Some [x; y]
  | _ => None
  end.

(** [net.ParseMAC]: pairs of digits after colons or hyphens, or groups of four
    after dots; 6, 8 or 20 bytes. *)
Definition ParseMAC (s : string) : option (list Z) :=
  if String.length s <? 14 then None
  else match String.get 2 s with
  | Some c =>
      if Ascii.eqb c colon || Ascii.eqb c hyphen_minus then
        hw ← mapM xtoi2 (split_on c s);
        if mac_length (length hw) then Some hw else None
      else if match String.get 4 s with Some d => Ascii.eqb d period | None => false end then
        hw ← mapM xtoi4 (split_on period s);
        if mac_length (2 * length hw) then Some (concat hw) else None
      else None
  | None => None
  end.

Definition hex_char (n : Z) : Ascii.ascii :=
  Ascii.ascii_of_nat (Z.to_nat (if (n <? 10)%Z then n + 48 else n + 87)%Z).

(** Two digits of a byte. *)
Definition hex2 (b : Z) : string := String (hex_char (b / 16)) (String (hex_char (b mod 16)) "").

(** [HardwareAddr.String]. *)
Definition mac_String (mac : list Z) : string := String.concat ":" (map hex2 mac).

(** [copy] into an array of [n] bytes. *)
Definition copy_bytes (n : nat) (b : list Z) : list Z := take n b ++ replicate (n - length b) 0%Z.

(** ** IP addresses *)

(** Hexadecimal digits of 16 bits without leading zeros. *)
Definition hex_group (g : Z) : string :=
  let d i := String (hex_char (g / i mod 16)) "" in
  if (g <? 16)%Z then d 1%Z
  else if (g <? 256)%Z then d 16%Z +:+ d 1%Z
  else if (g <? 4096)%Z then d 256%Z +:+ d 16%Z +:+ d 1%Z
  else d 4096%Z +:+ d 256%Z +:+ d 16%Z +:+ d 1%Z.

Fixpoint groups (b : list Z) : list Z :=
  match b with hi :: lo :: b => (hi * 256 + lo)%Z :: groups b | _ => [] end.

(** The number of zero groups at the start. *)
Fixpoint zero_run (g : list Z) : nat :=
  match g with 0%Z :: g => S (zero_run g) | _ => O end.

(** The first longest run of at least two zero groups from group [i] on, if it is
    longer than the one found so far. *)
Fixpoint longest_run (i : nat) (g : list Z) (best : nat * nat) : nat * nat :=
  match g with
  | [] => best
  | _ :: g' =>
      let l := zero_run g in
      longest_run (S i) g' (if (2 <=? l) && (best.2 <? l) then (i, l) else best)
  end.

Definition v6_String (ip : list Z) : string :=
  let g := groups ip in
  let '(start, len) := longest_run 0 g (0, 0) in
  let text l := String.concat ":" (map hex_group l) in
  if len =? 0 then text g
  else text (take start g) +:+ "::" +:+ text (drop (start + len) g).

Definition v4_String (ip : list Z) : string := String.concat "." (map Itoa ip).

(** [IP.String]. *)
Definition ip_String (ip : list Z) : string :=
  if length ip =? 0 then "<nil>"
  else if negb ((length ip =? 4) || (length ip =? 16)) then "?" +:+ String.concat "" (map hex2 ip)
  else if length (To4 ip) =? 4 then v4_String (To4 ip)
  else v6_String ip.

(** [IPNet.String]. *)
Definition IPNet_String (n : IPNet) : string :=
  let '(nn, m) := networkNumberAndMask n in
  if (length nn =? 0) || (length m =? 0) then "<nil>"
  else ip_String nn +:+ "/" +:+ match simpleMaskLength m with
    | Some l => Itoa (Z.of_nat l)
    | None => String.concat "" (map hex2 m)
    end.

(** [IP.To16]. *)
Definition To16 (ip : list Z) : list Z :=
  if length ip =? 4 then v4InV6Prefix ++ ip else if length ip =? 16 then ip else [].

(** [IP.Equal]. *)
Definition ip_Equal (ip x : list Z) : bool :=
  if length ip =? length x then bool_decide (ip = x)
  else if (length ip =? 4) && (length x =? 16) then
    bool_decide (take 12 x = v4InV6Prefix) && bool_decide (ip = drop 12 x)
  else if (length ip =? 16) && (length x =? 4) then
    bool_decide (take 12 ip = v4InV6Prefix) && bool_decide (drop 12 ip = x)
  else false.

Example ip_texts : map (fun s => ip_String (ParseIP s))
  ["10.0.0.1"; "fe80:0:0:1:0:0:0:1"; "::"; "1::"; "2001:db8::a:0:0:1"; "1:0:2:0:3:0:4:0"; "::ffff:1.2.3.4"; "x"]
  = ["10.0.0.1"; "fe80:0:0:1::1"; "::"; "1::"; "2001:db8::a:0:0:1"; "1:0:2:0:3:0:4:0"; "1.2.3.4"; "<nil>"].
Proof. reflexivity. Qed.
Example mac_texts : map (fun s => mac_String <$> ParseMAC s)
  ["00:1A:2b:3c:4d:5e"; "00-1A-2b-3c-4d-5e"; "001A.2b3c.4d5e"; "00:1a:2b:3c:4d"; "00:1a:2b:3c:4d:5g"; "0:1a:2b:3c:4d:5e:1";
   "02:00:5e:10:00:00:00:01"; "00:1a-2b:3c:4d:5e"; "001a.2b3c.4d5"]
  = [Some "00:1a:2b:3c:4d:5e"; Some "00:1a:2b:3c:4d:5e"; Some "00:1a:2b:3c:4d:5e"; None; None; None; Some "02:00:5e:10:00:00:00:01";
     None; None].
Proof. reflexivity. Qed.
Example net_texts : map IPNet_String
  [MkIPNet [10; 1; 0; 0] [255; 255; 0; 0]; MkIPNet [10; 1; 0; 0] (replicate 12 255 ++ [255; 0; 0; 0]);
   MkIPNet [10; 1; 0; 0] [255; 0; 255; 0]; MkIPNet [] [255; 0; 0; 0]; MkIPNet (replicate 16 0) (replicate 16 0)]%Z
  = ["10.1.0.0/16"; "10.1.0.0/8"; "10.1.0.0/ff00ff00"; "<nil>"; "::/0"].
Proof. reflexivity. Qed.

Definition IPv4zero : list Z := v4InV6Prefix ++ [0; 0; 0; 0]%Z.
Definition IPv6zero : list Z := replicate 16 0%Z.
Definition IsUnspecified (ip : list Z) : bool := ip_Equal ip IPv4zero || ip_Equal ip IPv6zero.
