(* ===== verification/GoNetTextFacts.v ===== *)
(** * Texts of addresses are parsed back

    The text of an address is parsed to the address, that of a hardware address
    in its usual form compares equal to the text it was parsed from. *)
From S2P Require Import Prelude GoStrings GoNet GoNetFacts GoNetText.

#[local] Arguments String.append !_ _ / : simpl nomatch.

(** ** Joining and splitting *)

Lemma concat_cons sep p l : l <> [] -> String.concat sep (p :: l) = p +:+ sep +:+ String.concat sep l.
Proof. by destruct l. Qed.

Lemma split_concat c l : l <> [] -> Forall (fun p => no_char c p = true) l ->
  split_on c (String.concat (String c "") l) = l.
Proof.
  induction l as [|p l IH]; intros Hne Hl; [done|]. inversion Hl as [|? ? Hp Hl']; subst.
  destruct l as [|q l]; [by apply split_no_char|]. rewrite concat_cons by done.
  change (String c "" +:+ ?x) with (String c x). rewrite split_sep, split_no_char by done.
  rewrite IH; done.
Qed.

Lemma concat_split c s : String.concat (String c "") (split_on c s) = s.
Proof.
  induction s as [|a s IH]; [done|]. cbn [split_on]. destruct (Ascii.eqb_spec a c) as [->|Hne].
  - rewrite concat_cons by apply split_ne. by rewrite IH.
  - pose proof (split_ne c s) as Hs. destruct (split_on c s) as [|p [|q l]]; [done| |]; cbn in *; by rewrite IH.
Qed.

Lemma no_char_concat c sep l : no_char c sep = true -> Forall (fun p => no_char c p = true) l ->
  no_char c (String.concat sep l) = true.
Proof.
  intros Hs. induction 1 as [|p l Hp Hl IH]; [done|]. destruct l as [|q l]; [done|].
  rewrite concat_cons by done. by rewrite !no_char_app, Hp, Hs, IH.
Qed.

(** ** Hexadecimal digits *)

Definition all_ascii : list Ascii.ascii := Ascii.ascii_of_nat <$> seq 0 256.

Lemma elem_of_all_ascii c : c ∈ all_ascii.
Proof.
  unfold all_ascii. rewrite <- (Ascii.ascii_nat_embedding c). apply list_elem_of_fmap_2, elem_of_seq.
  pose proof (Ascii.nat_ascii_bounded c). lia.
Qed.

(** A property of all characters, by evaluation. *)
Lemma all_chars_check (P : Ascii.ascii -> bool) : forallb P all_ascii = true -> forall c, P c = true.
Proof. rewrite forallb_forall. intros H c. apply H, list_elem_of_In, elem_of_all_ascii. Qed.

Lemma hex_digit_char c d : hex_digit c = Some d ->
  (0 <= d < 16)%Z /\ hex_char d = lower_char c /\ is_ascii c = true /\ Ascii.eqb c colon = false.
Proof.
  intros H. pose proof (hex_digit_range c d H) as Hr. split; [done|].
  pose proof (all_chars_check (fun c => match hex_digit c with
    | Some d => Ascii.eqb (hex_char d) (lower_char c) && is_ascii c && negb (Ascii.eqb c colon)
    | None => true end) eq_refl c) as Hc.
  cbn beta in Hc. rewrite H, !andb_true_iff, negb_true_iff in Hc. destruct Hc as [[H1%Ascii.eqb_eq H2] H3]. done.
Qed.

Definition digits16 : list Z := Z.of_nat <$> seq 0 16.

Lemma hex_char_digit d : (0 <= d < 16)%Z ->
  hex_digit (hex_char d) = Some d /\ Ascii.eqb (hex_char d) colon = false /\ Ascii.eqb (hex_char d) period = false
  /\ is_ascii (hex_char d) = true /\ lower_char (hex_char d) = hex_char d.
Proof.
  intros Hd. assert (forallb (fun d => bool_decide (hex_digit (hex_char d) = Some d) && negb (Ascii.eqb (hex_char d) colon)
    && negb (Ascii.eqb (hex_char d) period) && is_ascii (hex_char d) && Ascii.eqb (lower_char (hex_char d)) (hex_char d))
    digits16 = true) as H by reflexivity.
  rewrite forallb_forall in H. specialize (H d).
  rewrite !andb_true_iff, !negb_true_iff, bool_decide_eq_true, Ascii.eqb_eq in H.
  destruct H as [[[[H1 H2] H3] H4] H5]; [|done]. apply list_elem_of_In. unfold digits16.
  apply list_elem_of_fmap. exists (Z.to_nat d). rewrite elem_of_seq. lia.
Qed.

(** ** Hardware addresses *)

Lemma xtoi2_spec s b : xtoi2 s = Some b -> exists c1 c2 d1 d2, s = String c1 (String c2 "")
  /\ hex_digit c1 = Some d1 /\ hex_digit c2 = Some d2 /\ b = (d1 * 16 + d2)%Z.
Proof.
  unfold xtoi2. destruct s as [|c1 [|c2 [|]]]; try done. cbn [hex_value].
  destruct (hex_digit c1) as [d1|] eqn:E1; [|done]. cbn. destruct (hex_digit c2) as [d2|] eqn:E2; [|done].
  cbn. intros [= <-]. exists c1, c2, d1, d2. done.
Qed.

Lemma hex2_parsed s b : xtoi2 s = Some b -> is_byte b /\ exists c1 c2 d1 d2, s = String c1 (String c2 "")
  /\ hex_digit c1 = Some d1 /\ hex_digit c2 = Some d2
  /\ hex2 b = String (lower_char c1) (String (lower_char c2) "").
Proof.
  intros (c1 & c2 & d1 & d2 & -> & H1 & H2 & ->)%xtoi2_spec.
  destruct (hex_digit_char c1 d1 H1) as (R1 & L1 & _). destruct (hex_digit_char c2 d2 H2) as (R2 & L2 & _).
  split; [unfold is_byte; lia|]. exists c1, c2, d1, d2. split_and!; try done. unfold hex2.
  replace ((d1 * 16 + d2) / 16)%Z with d1 by (rewrite Z.div_add_l, Z.div_small by lia; lia).
  replace ((d1 * 16 + d2) mod 16)%Z with d2
    by (rewrite Z.add_comm, Z.mod_add, Z.mod_small by lia; lia).
  by rewrite L1, L2.
Qed.

Section fold.
Context {UC : Unicode}.

Lemma lower_lower c : lower_char (lower_char c) = lower_char c.
Proof. apply Ascii.eqb_eq. revert c. by apply all_chars_check. Qed.
Lemma lower_ascii c : is_ascii c = true -> is_ascii (lower_char c) = true.
Proof.
  intros H. pose proof (all_chars_check (fun c => implb (is_ascii c) (is_ascii (lower_char c))) eq_refl c) as Hc.
  cbn beta in Hc. by rewrite H in Hc.
Qed.

(** Two equal ASCII characters in front. *)
Lemma EqualFold_cons a b s t : is_ascii a = true -> is_ascii b = true ->
  EqualFold (String a s) (String b t) = Ascii.eqb (lower_char a) (lower_char b) && EqualFold s t.
Proof.
  intros Ha Hb. cbn [EqualFold]. rewrite Ha, Hb. cbn. by destruct (Ascii.eqb _ _).
Qed.

Lemma hex2_fold s b rest rest' : xtoi2 s = Some b ->
  EqualFold (hex2 b +:+ rest) (s +:+ rest') = EqualFold rest rest'.
Proof.
  intros (_ & c1 & c2 & d1 & d2 & -> & H1 & H2 & ->)%hex2_parsed.
  destruct (hex_digit_char c1 d1 H1) as (_ & _ & A1 & _). destruct (hex_digit_char c2 d2 H2) as (_ & _ & A2 & _).
  cbn [String.append]. rewrite !EqualFold_cons by (done || by apply lower_ascii). rewrite !lower_lower.
  by rewrite !Ascii.eqb_refl.
Qed.

(** The text is that of the parsed address, with colons or hyphens. *)
Lemma mac_fold c parts hw : mapM xtoi2 parts = Some hw -> is_ascii c = true ->
  EqualFold (mac_String hw) (String.concat (String c "") parts)
  = (length hw <=? 1) || Ascii.eqb (lower_char colon) (lower_char c).
Proof.
  intros Hm Hc. apply mapM_Some in Hm. induction Hm as [|p b parts hw Hp Hm IH]; [done|].
  destruct Hm as [|q b' parts hw Hq Hm].
  - unfold mac_String. cbn [map String.concat]. rewrite <- (append_nil_r (hex2 b)), <- (append_nil_r p).
    by rewrite (hex2_fold p b) by done.
  - unfold mac_String in *. change (map hex2 (b :: b' :: hw)) with (hex2 b :: map hex2 (b' :: hw)).
    rewrite !concat_cons by done. rewrite (hex2_fold p b) by done.
    change (":" +:+ ?x) with (String colon x). change (String c "" +:+ ?x) with (String c x).
    rewrite EqualFold_cons by done. rewrite IH. cbn [length Nat.leb orb].
    destruct (Ascii.eqb _ _); [|done]. by rewrite orb_true_r.
Qed.
End fold.

(** The form of a hardware address that is printed. *)
Definition colon_form (s : string) : bool :=
  match String.get 2 s with Some c => Ascii.eqb c colon | None => false end.

Lemma xtoi4_spec s l : xtoi4 s = Some l -> exists c1 c2 t b1 b2, s = String c1 (String c2 t) /\ l = [b1; b2]
  /\ xtoi2 (String c1 (String c2 "")) = Some b1 /\ xtoi2 t = Some b2.
Proof.
  unfold xtoi4. destruct s as [|c1 [|c2 t]]; [done..|]. destruct (xtoi2 (String c1 _)) as [b1|] eqn:E1; [|done].
  cbn. destruct (xtoi2 t) as [b2|] eqn:E2; [|done]. intros [= <-]. exists c1, c2, t, b1, b2. done.
Qed.

Lemma ParseMAC_length s hw : ParseMAC s = Some hw -> mac_length (length hw) = true.
Proof.
  unfold ParseMAC. destruct (_ <? 14); [done|]. destruct (String.get 2 s) as [c|]; [|done].
  destruct (_ || _).
  - destruct (mapM xtoi2 _) as [l|]; [|done]. cbn. destruct (mac_length (length l)) eqn:E; [|done]. by intros [= <-].
  - destruct (String.get 4 s) as [d|]; [destruct (Ascii.eqb d period); [|done]|done].
    destruct (mapM xtoi4 (split_on period s)) as [l|] eqn:Em; [|done]. cbn [mbind option_bind].
    destruct (mac_length (2 * length l)) eqn:E; [|done]. intros [= <-].
    replace (length (concat l)) with (2 * length l); [done|].
    apply mapM_Some in Em. clear E. induction Em as [|p b ps m Hp _ IH]; [done|]. cbn [concat length]. rewrite length_app, <- IH.
    apply xtoi4_spec in Hp as (? & ? & ? & ? & ? & _ & -> & _). cbn [length]. lia.
Qed.

(** In the form with colons an address is printed as it was, up to case; with
    hyphens, or in the form with dots, it is not. *)
Lemma mac_text `{Unicode} s hw : ParseMAC s = Some hw -> EqualFold (mac_String hw) s = colon_form s.
Proof.
  intros Hp. pose proof (ParseMAC_length s hw Hp) as Hlen. unfold colon_form. revert Hp. unfold ParseMAC.
  destruct (_ <? 14) eqn:E14; [done|]. destruct (String.get 2 s) as [c|] eqn:Eg; [|done].
  destruct (Ascii.eqb c colon || Ascii.eqb c hyphen_minus) eqn:Ec.
  - destruct (mapM xtoi2 (split_on c s)) as [l|] eqn:Em; [|done]. cbn [mbind option_bind].
    destruct (mac_length (length l)) eqn:E; [|done]. intros [= ->].
    assert (is_ascii c = true) as Ha.
    { apply orb_true_iff in Ec as [E'|E']; apply Ascii.eqb_eq in E' as ->; reflexivity. }
    rewrite <- (concat_split c s) at 1. rewrite (mac_fold c (split_on c s) hw Em Ha).
    assert (length hw <=? 1 = false) as ->.
    { apply Nat.leb_gt. unfold mac_length in Hlen. rewrite !orb_true_iff, !Nat.eqb_eq in Hlen. lia. }
    cbn [orb]. apply orb_true_iff in Ec as [E'|E']; apply Ascii.eqb_eq in E' as ->; reflexivity.
  - apply orb_false_iff in Ec as [Ecol _]. destruct (String.get 4 s) as [d|]; [destruct (Ascii.eqb d period); [|done]|done].
    destruct (mapM xtoi4 (split_on period s)) as [l|] eqn:Em; [|done]. cbn [mbind option_bind].
    destruct (mac_length (2 * length l)); [|done]. intros [= <-]. rewrite Ecol.
    pose proof (concat_split period s) as Hs. destruct (split_on period s) as [|p ps]; [by subst s|].
    apply mapM_Some in Em. inversion Em as [|? ? ? l' Hp _]; subst; clear Em.
    apply xtoi4_spec in Hp as (c1 & c2 & t & b1 & b2 & -> & -> & Hc & Ht).
    assert (exists r, String.concat (String period "") (String c1 (String c2 t) :: ps) = String c1 (String c2 t) +:+ r) as [r ->].
    { destruct ps as [|q ps]; [exists ""; by rewrite append_nil_r|]. rewrite concat_cons by done. by eexists. }
    apply xtoi2_spec in Ht as (c3 & c4 & d3 & d4 & -> & H3 & H4 & _).
    unfold mac_String. cbn [concat app map]. rewrite concat_cons by done.
    change (String c1 (String c2 (String c3 (String c4 ""))) +:+ r)
      with (String c1 (String c2 "") +:+ String c3 (String c4 r)).
    rewrite (hex2_fold _ _ _ _ Hc). change (":" +:+ ?x) with (String colon x).
    destruct (hex_digit_char c3 d3 H3) as (_ & L3 & A3 & N3). rewrite EqualFold_cons by done.
    assert (Ascii.eqb (lower_char colon) (lower_char c3) = false) as ->; [|done].
    rewrite <- L3. pose proof (hex_digit_range c3 d3 H3) as R3. rewrite Ascii.eqb_sym.
    apply (hex_char_digit d3 R3).
Qed.

Lemma ParseMAC_bytes s hw : ParseMAC s = Some hw -> Forall is_byte hw.
Proof.
  unfold ParseMAC. destruct (_ <? 14); [done|]. destruct (String.get 2 s) as [c|]; [|done].
  destruct (_ || _).
  - destruct (mapM xtoi2 _) as [l|] eqn:Em; [|done]. cbn [mbind option_bind]. destruct (mac_length _); [|done]. intros [= <-].
    apply mapM_Some in Em. induction Em as [|p b ps l Hp _ IH]; constructor; [by apply (hex2_parsed p b Hp)|exact IH].
  - destruct (String.get 4 s) as [d|]; [destruct (Ascii.eqb d period); [|done]|done].
    destruct (mapM xtoi4 _) as [l|] eqn:Em; [|done]. cbn [mbind option_bind]. destruct (mac_length _); [|done]. intros [= <-].
    apply mapM_Some in Em. induction Em as [|p b ps l Hp _ IH]; [constructor|]. cbn [concat].
    apply xtoi4_spec in Hp as (c1 & c2 & t & b1 & b2 & _ & -> & H1%hex2_parsed & H2%hex2_parsed).
    destruct H1 as [H1 _], H2 as [H2 _]. constructor; [exact H1|]. constructor; [exact H2|exact IH].
Qed.

(** The first three characters of a hardware address. *)
Lemma ParseMAC_head s hw : ParseMAC s = Some hw ->
  exists c1 c2 c3 r, s = String c1 (String c2 (String c3 r))
    /\ is_ascii c1 = true /\ is_ascii c2 = true /\ is_ascii c3 = true.
Proof.
  unfold ParseMAC. destruct (_ <? 14); [done|]. destruct (String.get 2 s) as [c|] eqn:Eg; [|done].
  destruct (Ascii.eqb c colon || Ascii.eqb c hyphen_minus) eqn:Ec.
  - destruct (mapM xtoi2 (split_on c s)) as [l|] eqn:Em; [|done]. intros _.
    pose proof (concat_split c s) as Hs. pose proof (split_ne c s) as Hne. apply mapM_Some in Em.
    destruct (split_on c s) as [|p ps]; [done|]. apply Forall2_cons_inv_l in Em as (b & l' & Hp & _ & _).
    apply hex2_parsed in Hp as (_ & c1 & c2 & d1 & d2 & -> & H1 & H2 & _).
    destruct (hex_digit_char c1 d1 H1) as (_ & _ & A1 & _). destruct (hex_digit_char c2 d2 H2) as (_ & _ & A2 & _).
    destruct ps as [|q ps].
    + cbn in Hs. by subst s.
    + rewrite concat_cons in Hs by done. cbn [String.append] in Hs. exists c1, c2, c, (String.concat (String c "") (q :: ps)).
      split_and!; [by rewrite <- Hs|done..|].
      apply orb_true_iff in Ec as [E|E]; apply Ascii.eqb_eq in E as ->; reflexivity.
  - destruct (String.get 4 s) as [d|]; [destruct (Ascii.eqb d period); [|done]|done].
    destruct (mapM xtoi4 (split_on period s)) as [l|] eqn:Em; [|done]. intros _.
    pose proof (concat_split period s) as Hs. pose proof (split_ne period s) as Hne. apply mapM_Some in Em.
    destruct (split_on period s) as [|p ps]; [done|]. apply Forall2_cons_inv_l in Em as (b & l' & Hp & _ & _).
    apply xtoi4_spec in Hp as (c1 & c2 & t & b1 & b2 & -> & -> & Hc & Ht).
    apply xtoi2_spec in Ht as (c3 & c4 & d3 & d4 & -> & H3 & _).
    apply xtoi2_spec in Hc as (x1 & x2 & d1 & d2 & [= <- <-] & H1 & H2 & _).
    destruct (hex_digit_char c1 d1 H1) as (_ & _ & A1 & _). destruct (hex_digit_char c2 d2 H2) as (_ & _ & A2 & _).
    destruct (hex_digit_char c3 d3 H3) as (_ & _ & A3 & _).
    destruct ps as [|q ps].
    + cbn [String.concat] in Hs. subst s. by eexists _, _, _, _.
    + rewrite concat_cons in Hs by done. cbn [String.append] in Hs. subst s. by eexists _, _, _, _.
Qed.

Lemma hex2_ascii b : is_byte b -> exists x y, hex2 b = String x (String y "") /\ is_ascii x = true /\ is_ascii y = true.
Proof.
  intros Hb. unfold is_byte in Hb. exists (hex_char (b / 16)), (hex_char (b mod 16)). split; [done|].
  split; apply hex_char_digit; [split; [apply Z.div_pos; lia|apply Z.div_lt_upper_bound; lia]|apply Z.mod_pos_bound; lia].
Qed.

(** What is printed compares equal only to texts with a colon after the digits. *)
Lemma mac_printed `{Unicode} s hw m : ParseMAC s = Some hw -> Forall is_byte m -> 2 <= length m ->
  colon_form s = false -> EqualFold (mac_String m) s = false.
Proof.
  intros Hp Hm Hl Hc. destruct (ParseMAC_head s hw Hp) as (c1 & c2 & c3 & r & -> & A1 & A2 & A3).
  destruct m as [|b [|b' m]]; [cbn in Hl; lia..|]. inversion Hm as [|? ? Hb _]; subst.
  destruct (hex2_ascii b Hb) as (x & y & Eh & Ax & Ay). unfold mac_String.
  change (map hex2 (b :: b' :: m)) with (hex2 b :: map hex2 (b' :: m)). rewrite concat_cons, Eh by done.
  change (String x (String y "") +:+ ":" +:+ ?t) with (String x (String y (String colon t))).
  rewrite !EqualFold_cons by done. assert (Ascii.eqb (lower_char colon) (lower_char c3) = false) as ->; [|by rewrite !andb_false_r].
  unfold colon_form in Hc. cbn in Hc. pose proof (all_chars_check (fun c => implb (Ascii.eqb (lower_char colon) (lower_char c))
    (Ascii.eqb c colon)) eq_refl c3) as H1. cbn beta in H1.
  destruct (Ascii.eqb (lower_char colon) (lower_char c3)); [cbn [implb] in H1; congruence|reflexivity].
Qed.

(** ** IP addresses *)

Lemma hex_value_char d s acc : (0 <= d < 16)%Z -> hex_value (String (hex_char d) s) acc = hex_value s (acc * 16 + d)%Z.
Proof. intros Hd. cbn [hex_value]. by rewrite (proj1 (hex_char_digit d Hd)). Qed.

Definition plain_group (s : string) : Prop :=
  no_char colon s = true /\ no_char period s = true /\ s <> "".

Lemma plain_digits l : l <> [] -> Forall (fun d => 0 <= d < 16)%Z l ->
  plain_group (foldr (fun d s => String (hex_char d) s) "" l).
Proof.
  intros Hne Hl. split_and!; [| |by destruct l].
  - clear Hne. induction Hl as [|d l Hd Hl IH]; [done|]. cbn [foldr no_char].
    by rewrite (proj1 (proj2 (hex_char_digit d Hd))), IH.
  - clear Hne. induction Hl as [|d l Hd Hl IH]; [done|]. cbn [foldr no_char].
    by rewrite (proj1 (proj2 (proj2 (hex_char_digit d Hd)))), IH.
Qed.

Ltac digits_auto := repeat (apply Forall_cons_2; [assumption|]); apply Forall_nil_2.

Lemma parse_hex_group g : (0 <= g < 65536)%Z -> parse_group (hex_group g) = Some g /\ plain_group (hex_group g).
Proof.
  intros Hg. unfold hex_group.
  assert (forall i, 0 < i -> 0 <= g / i mod 16 < 16)%Z as Hd by (intros i Hi; apply Z.mod_pos_bound; lia).
  pose proof (Hd 1%Z ltac:(lia)) as H1. pose proof (Hd 16%Z ltac:(lia)) as H2.
  pose proof (Hd 256%Z ltac:(lia)) as H3. pose proof (Hd 4096%Z ltac:(lia)) as H4.
  assert (g = g / 4096 mod 16 * 4096 + g / 256 mod 16 * 256 + g / 16 mod 16 * 16 + g / 1 mod 16)%Z as Hs.
  { rewrite Z.div_1_r. Z.div_mod_to_equations. lia. }
  set (d1 := (g / 1 mod 16)%Z) in *. set (d2 := (g / 16 mod 16)%Z) in *.
  set (d3 := (g / 256 mod 16)%Z) in *. set (d4 := (g / 4096 mod 16)%Z) in *. clearbody d1 d2 d3 d4.
  destruct (Z.ltb_spec g 16); [|destruct (Z.ltb_spec g 256); [|destruct (Z.ltb_spec g 4096)]].
  - split; [|apply (plain_digits [d1]); [done|digits_auto]].
    unfold parse_group. cbn [String.length is_empty orb Nat.ltb Nat.leb]. rewrite hex_value_char by done. cbn. f_equal. lia.
  - split; [|apply (plain_digits [d2; d1]); [done|digits_auto]].
    cbn [String.append]. unfold parse_group. cbn [String.length is_empty orb Nat.ltb Nat.leb].
    rewrite !hex_value_char by done. cbn. f_equal. lia.
  - split; [|apply (plain_digits [d3; d2; d1]); [done|digits_auto]].
    cbn [String.append]. unfold parse_group. cbn [String.length is_empty orb Nat.ltb Nat.leb].
    rewrite !hex_value_char by done. cbn. f_equal. lia.
  - split; [|apply (plain_digits [d4; d3; d2; d1]); [done|digits_auto]].
    cbn [String.append]. unfold parse_group. cbn [String.length is_empty orb Nat.ltb Nat.leb].
    rewrite !hex_value_char by done. cbn. f_equal. lia.
Qed.

Definition is_group (g : Z) : Prop := (0 <= g < 65536)%Z.
Definition group_bytes_of (g : list Z) : list Z := g ≫= fun g => [g / 256; g mod 256]%Z.

Lemma length_group_bytes g : length (group_bytes_of g) = 2 * length g.
Proof. unfold group_bytes_of. induction g as [|x g IH]; [done|]. cbn in *. lia. Qed.

Lemma groups_bytes ip n : length ip = 2 * n -> Forall is_byte ip ->
  group_bytes_of (groups ip) = ip /\ length (groups ip) = n /\ Forall is_group (groups ip).
Proof.
  revert ip. induction n as [|n IH]; intros ip Hl Hip.
  - by destruct ip.
  - destruct ip as [|x [|y ip]]; [done|cbn in Hl; lia|]. cbn [length] in Hl.
    inversion Hip as [|? ? Hx Hip']; subst. inversion Hip' as [|? ? Hy Hip'']; subst.
    destruct (IH ip ltac:(lia) Hip'') as (E & El & Eg). unfold is_byte in *. cbn [groups]. split_and!.
    + unfold group_bytes_of in *. cbn [mbind list_bind]. change (list_bind ?A ?B ?f ?l) with (l ≫= f). rewrite E.
      replace ((x * 256 + y) / 256)%Z with x by (rewrite Z.div_add_l, Z.div_small by lia; lia).
      by replace ((x * 256 + y) mod 256)%Z with y by (rewrite Z.add_comm, Z.mod_add, Z.mod_small by lia; lia).
    + cbn [length]. lia.
    + constructor; [unfold is_group; lia|done].
Qed.

(** Groups up to the end. *)
Lemma parse_groups_end g : forall done e, g <> [] -> Forall is_group g -> length done + 2 * length g <= 16 ->
  parse_groups (map hex_group g) done e = Some (done ++ group_bytes_of g, e).
Proof.
  induction g as [|x g IH]; intros done e Hne Hg Hl; [congruence|]. inversion Hg as [|? ? Hx Hg']; subst.
  destruct (parse_hex_group x Hx) as (Ep & _ & Hper & Hnz). cbn [length] in Hl. cbn [map parse_groups].
  destruct (Nat.leb_spec 16 (length done)); [lia|]. rewrite Hper, Ep. cbn [negb mbind option_bind].
  destruct g as [|y g]; [by cbn|].
  change (map hex_group (y :: g)) with (hex_group y :: map hex_group g).
  inversion Hg' as [|? ? Hy _]; subst. destruct (parse_hex_group y Hy) as (_ & _ & _ & Hyz).
  destruct (hex_group y) as [|c s] eqn:Ey; [done|]. rewrite <- Ey.
  change (hex_group y :: map hex_group g) with (map hex_group (y :: g)).
  rewrite IH; [|done|done|rewrite length_app; cbn [length] in *; lia].
  unfold group_bytes_of. cbn [mbind list_bind app]. by rewrite <- app_assoc.
Qed.

(** Groups before a double colon. *)
Lemma parse_groups_ellipsis g post : forall done, g <> [] -> Forall is_group g -> Forall is_group post ->
  length done + 2 * (length g + length post) <= 14 ->
  parse_groups (map hex_group g ++ "" :: (match post with [] => [""] | _ => map hex_group post end)) done None
  = Some (done ++ group_bytes_of g ++ group_bytes_of post, Some (length done + 2 * length g)).
Proof.
  induction g as [|x g IH]; intros done Hne Hg Hpost Hl; [congruence|]. inversion Hg as [|? ? Hx Hg']; subst.
  destruct (parse_hex_group x Hx) as (Ep & _ & Hper & Hnz). cbn [length] in Hl. cbn [map app parse_groups].
  destruct (Nat.leb_spec 16 (length done)); [lia|]. rewrite Hper, Ep. cbn [negb mbind option_bind].
  destruct g as [|y g].
  - cbn [map app]. destruct post as [|z post].
    + unfold group_bytes_of. cbn. rewrite length_app. cbn. done.
    + inversion Hpost as [|? ? Hz _]; subst. destruct (parse_hex_group z Hz) as (_ & _ & _ & Hzz).
      change (map hex_group (z :: post)) with (hex_group z :: map hex_group post).
      destruct (hex_group z) as [|c s] eqn:Ez; [done|]. rewrite <- Ez.
      change (hex_group z :: map hex_group post) with (map hex_group (z :: post)).
      destruct (map hex_group (z :: post)) as [|p ps] eqn:Em; [done|].
      assert (p <> "") as Hp by (injection Em as <- _; congruence).
      rewrite <- Em. clear Em.
      rewrite parse_groups_end; [|done|done|rewrite length_app; cbn [length] in *; lia].
      unfold group_bytes_of. cbn [mbind list_bind app length]. rewrite length_app, <- app_assoc. cbn [length app].
      by destruct p.
  - inversion Hg' as [|? ? Hy _]; subst. destruct (parse_hex_group y Hy) as (_ & _ & _ & Hyz).
    cbn [map app]. destruct (hex_group y) as [|c s] eqn:Ey; [done|]. rewrite <- Ey.
    change (hex_group y :: ?a ++ ?b) with ((hex_group y :: a) ++ b).
    change (hex_group y :: map hex_group g) with (map hex_group (y :: g)).
    rewrite IH; [|done|done|done|rewrite length_app; cbn [length] in *; lia].
    unfold group_bytes_of. cbn [mbind list_bind app length]. rewrite length_app, <- app_assoc. cbn [length app].
    do 3 f_equal. lia.
Qed.

Lemma zero_run_spec g : zero_run g <= length g /\ take (zero_run g) g = replicate (zero_run g) 0%Z.
Proof.
  induction g as [|x g [IH1 IH2]]; [done|]. cbn [zero_run].
  destruct x; cbn [length take replicate]; [|split; [lia|done]..]. split; [lia|by rewrite IH2].
Qed.

(** A run of zero groups, or none. *)
Definition run_ok (g : list Z) (r : nat * nat) : Prop :=
  r.2 = 0 \/ 2 <= r.2 /\ r.1 + r.2 <= length g /\ take r.2 (drop r.1 g) = replicate r.2 0%Z.

Lemma longest_run_ok g0 g : forall i best, g = drop i g0 -> run_ok g0 best -> run_ok g0 (longest_run i g best).
Proof.
  induction g as [|x g IH]; intros i best Hg Hb; [done|]. cbn [longest_run].
  apply IH.
  { transitivity (drop 1 (x :: g)); [done|]. rewrite Hg, drop_drop. f_equal. lia. }
  destruct ((2 <=? zero_run (x :: g)) && (best.2 <? zero_run (x :: g))) eqn:E; [|done].
  apply andb_true_iff in E as [E%Nat.leb_le _]. right. cbn [fst snd].
  destruct (zero_run_spec (x :: g)) as [H1 H2]. split; [done|]. split; [|by rewrite <- Hg].
  assert (length (x :: g) = length g0 - i) as Hlen by by rewrite Hg, length_drop. lia.
Qed.

Lemma run_parts g r : run_ok g r -> 0 < r.2 ->
  g = take r.1 g ++ replicate r.2 0%Z ++ drop (r.1 + r.2) g.
Proof.
  intros [E|(_ & _ & E)] Hr; [lia|]. rewrite <- E.
  replace (drop (r.1 + r.2) g) with (drop r.2 (drop r.1 g)) by (rewrite drop_drop; f_equal; lia).
  by rewrite (take_drop r.2), take_drop.
Qed.

Definition group_texts (g : list Z) : list string := match g with [] => [""] | _ => map hex_group g end.

Lemma plain_groups g : Forall is_group g -> Forall (fun p => plain_group p) (map hex_group g).
Proof. intros Hg. apply Forall_map. eapply Forall_impl; [exact Hg|]. intros x Hx. by apply parse_hex_group. Qed.

Lemma split_groups g : Forall is_group g -> split_on colon (String.concat ":" (map hex_group g)) = group_texts g.
Proof.
  intros Hg. destruct g as [|x g]; [done|]. unfold group_texts. apply (split_concat colon); [done|].
  eapply Forall_impl; [by apply plain_groups|]. by intros s (H & _).
Qed.

Lemma group_texts_first x g : Forall is_group (x :: g) -> exists c s ps, group_texts (x :: g) = String c s :: ps
  /\ map hex_group (x :: g) = String c s :: ps.
Proof.
  intros Hg. inversion Hg as [|? ? Hx _]; subst. destruct (parse_hex_group x Hx) as (_ & _ & _ & Hz).
  unfold group_texts. cbn [map]. destruct (hex_group x) as [|c s]; [done|]. by eexists _, _, _.
Qed.

Lemma group_bytes_zero n : group_bytes_of (replicate n 0%Z) = replicate (2 * n) 0%Z.
Proof.
  unfold group_bytes_of. induction n as [|n IH]; [done|]. replace (2 * S n) with (S (S (2 * n))) by lia.
  cbn [replicate mbind list_bind]. change (list_bind ?A ?B ?f ?l) with (l ≫= f). by rewrite IH.
Qed.
Lemma group_bytes_app g1 g2 : group_bytes_of (g1 ++ g2) = group_bytes_of g1 ++ group_bytes_of g2.
Proof. apply bind_app. Qed.

Lemma expand_run pre len post : length pre + len + length post = 8 -> 2 <= len ->
  let bytes := group_bytes_of pre ++ group_bytes_of post in
  take (2 * length pre) bytes ++ replicate (16 - length bytes) 0%Z ++ drop (2 * length pre) bytes
  = group_bytes_of (pre ++ replicate len 0%Z ++ post).
Proof.
  intros Hl H2 bytes. unfold bytes. rewrite take_app_length', drop_app_length' by by rewrite length_group_bytes.
  rewrite !group_bytes_app, group_bytes_zero, length_app, !length_group_bytes. do 3 f_equal. lia.
Qed.

Lemma parseIPv6_String ip : ip_ok 16 ip -> parseIPv6 (v6_String ip) = Some ip.
Proof.
  intros [Hl Hb]. destruct (groups_bytes ip 8 Hl Hb) as (E & El & Eg). unfold v6_String.
  pose proof (longest_run_ok (groups ip) (groups ip) 0 (0, 0) eq_refl (or_introl eq_refl)) as Hr.
  destruct (longest_run 0 (groups ip) (0, 0)) as [start len]. set (g := groups ip) in *. clearbody g.
  destruct (Nat.eqb_spec len 0) as [->|Hn].
  - unfold parseIPv6. rewrite split_groups by done. destruct g as [|x g]; [done|].
    destruct (group_texts_first x g Eg) as (c & s & ps & -> & Em). rewrite <- Em.
    rewrite parse_groups_end by (done || cbn [length] in *; lia). cbn [mbind option_bind app].
    rewrite E, Hl. by destruct s.
  - assert (0 < (start, len).2) as Hpos by (cbn; lia). pose proof (run_parts g (start, len) Hr Hpos) as Hparts.
    destruct Hr as [Hr|(H2 & Hle & _)]; [by cbn in Hr|]. cbn [fst snd] in *.
    assert (length (take start g) = start) as Hpl by (rewrite length_take; lia).
    assert (length (drop (start + len) g) = 8 - (start + len)) as Hql by (rewrite length_drop; lia).
    assert (Forall is_group (take start g)) as Hgp by by apply Forall_take.
    assert (Forall is_group (drop (start + len) g)) as Hgq by by apply Forall_drop.
    set (pre := take start g) in *. set (post := drop (start + len) g) in *. clearbody pre post.
    unfold parseIPv6. change ("::" +:+ ?x) with (String colon (String colon x)).
    rewrite split_sep. change (split_on colon (String colon ?x)) with ("" :: split_on colon x).
    rewrite !split_groups by done.
    assert (forall bytes e, bytes = group_bytes_of pre ++ group_bytes_of post -> e = 2 * length pre ->
      (if 16 <=? length bytes then None
       else Some (take e bytes ++ replicate (16 - length bytes) 0%Z ++ drop e bytes)) = Some ip) as Hfin.
    { intros bytes e -> ->. rewrite expand_run with (len := len) by lia. rewrite <- Hparts, E.
      rewrite length_app, !length_group_bytes. destruct (Nat.leb_spec 16 (2 * length pre + 2 * length post)); [lia|done]. }
    destruct pre as [|x pre]; destruct post as [|y post].
    + cbn [group_texts app]. cbn [mbind option_bind]. by apply Hfin.
    + destruct (group_texts_first y post Hgq) as (c & s & ps & -> & Em).
      change (group_texts [] ++ "" :: String c s :: ps) with ("" :: "" :: String c s :: ps). cbv iota. rewrite <- Em.
      rewrite parse_groups_end by (done || cbn [length] in *; lia). cbn [mbind option_bind app]. by apply Hfin.
    + change (group_texts []) with [""].
      pose proof (parse_groups_ellipsis (x :: pre) [] [] ltac:(done) Hgp (Forall_nil_2 _) ltac:(cbn [length] in *; lia)) as Hpe.
      destruct (group_texts_first x pre Hgp) as (c & s & ps & E1 & Em). rewrite E1. rewrite Em in Hpe.
      cbn [app] in *. rewrite Hpe. cbn [mbind option_bind]. apply Hfin; [done|]. cbn [length]. lia.
    + pose proof (parse_groups_ellipsis (x :: pre) (y :: post) [] ltac:(done) Hgp Hgq ltac:(cbn [length] in *; lia)) as Hpe.
      destruct (group_texts_first x pre Hgp) as (c & s & ps & E1 & Em). rewrite E1. rewrite Em in Hpe.
      unfold group_texts. cbn [app] in *. rewrite Hpe. cbn [mbind option_bind]. apply Hfin; [done|]. cbn [length]. lia.
Qed.

Lemma octet_text b : is_byte b ->
  parse_octet (Itoa b) = Some b /\ no_char period (Itoa b) = true /\ no_char colon (Itoa b) = true.
Proof.
  intros Hb. pose proof (all_bytes (fun b => bool_decide (parse_octet (Itoa b) = Some b)
    && no_char period (Itoa b) && no_char colon (Itoa b)) eq_refl b Hb) as H.
  cbn beta in H. rewrite !andb_true_iff, bool_decide_eq_true in H. tauto.
Qed.

Lemma ip_family_app c s t : no_char period s = true -> no_char colon s = true ->
  ip_family (s +:+ String c t) = ip_family (String c t).
Proof.
  induction s as [|a s IH]; [done|]. cbn [no_char String.append ip_family].
  rewrite !andb_true_iff, !negb_true_iff. intros [-> H1] [-> H2]. by apply IH.
Qed.

Lemma ParseIP_v4 ip : ip_ok 4 ip -> ParseIP (v4_String ip) = v4InV6Prefix ++ ip.
Proof.
  intros [Hl Hb]. destruct ip as [|a [|b [|c [|d [|]]]]]; try done.
  assert (Forall (fun b => parse_octet (Itoa b) = Some b /\ no_char period (Itoa b) = true /\ no_char colon (Itoa b) = true)
    [a; b; c; d]) as Ho by (eapply Forall_impl; [exact Hb|apply octet_text]).
  assert (parseIPv4 (v4_String [a; b; c; d]) = Some [a; b; c; d]) as Hp.
  { unfold parseIPv4, v4_String. cbn [map]. rewrite (split_concat period).
    - rewrite !Forall_cons in Ho. destruct Ho as ((-> & _) & (-> & _) & (-> & _) & (-> & _) & _). done.
    - done.
    - rewrite !Forall_cons in *. split_and!; [tauto..|apply Forall_nil_2]. }
  unfold ParseIP. rewrite Hp. unfold v4_String. cbn [map]. rewrite concat_cons by done.
  change ("." +:+ ?x) with (String period x). inversion Ho as [|? ? (_ & H1 & H2) _]; subst.
  rewrite ip_family_app by done. done.
Qed.

Lemma ip_family_v6 ip : ip_ok 16 ip -> ip_family (v6_String ip) = Some true.
Proof.
  intros [Hl Hb]. destruct (groups_bytes ip 8 Hl Hb) as (_ & El & Eg). unfold v6_String.
  pose proof (longest_run_ok (groups ip) (groups ip) 0 (0, 0) eq_refl (or_introl eq_refl)) as Hr.
  destruct (longest_run 0 (groups ip) (0, 0)) as [start len]. set (g := groups ip) in *. clearbody g.
  assert (forall g, Forall is_group g -> forall t, ip_family (String.concat ":" (map hex_group g) +:+ String colon t) = Some true) as Hf.
  { clear. intros g Hg t. apply plain_groups in Hg. destruct (map hex_group g) as [|p ps]; [done|].
    inversion Hg as [|? ? (H1 & H2 & _) _]; subst. destruct ps as [|q ps]; [by rewrite ip_family_app|].
    rewrite concat_cons by done. rewrite append_assoc. change ((":" +:+ ?x) +:+ ?y) with (String colon (x +:+ y)).
    by rewrite ip_family_app. }
  destruct (len =? 0).
  - destruct g as [|x [|y g]]; [done..|]. inversion Eg as [|? ? Hx Hg]; subst.
    cbn [map]. rewrite concat_cons by done. change (":" +:+ ?x) with (String colon x).
    specialize (Hf [x] ltac:(by constructor)). cbn [map String.concat] in Hf. apply Hf.
  - change ("::" +:+ ?x) with (String colon (String colon x)). apply Hf. by apply Forall_take.
Qed.

(** The text of an address is parsed to the sixteen bytes of the address. *)
Lemma ParseIP_String ip : ip_ok 4 ip \/ ip_ok 16 ip -> ParseIP (ip_String ip) = To16 ip.
Proof.
  intros Hip. unfold ip_String. assert (length ip =? 0 = false) as ->.
  { apply Nat.eqb_neq. destruct Hip as [[? _]|[? _]]; lia. }
  assert (negb ((length ip =? 4) || (length ip =? 16)) = false) as ->.
  { apply negb_false_iff, orb_true_iff. rewrite !Nat.eqb_eq. destruct Hip as [[? _]|[? _]]; auto. }
  unfold To16. destruct Hip as [Hip|Hip].
  - assert (To4 ip = ip) as -> by (apply To4_4, Hip). rewrite (proj1 Hip). by apply ParseIP_v4.
  - destruct Hip as [Hl Hb]. rewrite Hl. cbn [Nat.eqb]. unfold To4. rewrite Hl. cbn [Nat.eqb andb].
    destruct (bool_decide (take 12 ip = v4InV6Prefix)) eqn:E.
    + apply bool_decide_eq_true in E. rewrite length_drop, Hl. cbn [Nat.sub Nat.eqb].
      rewrite ParseIP_v4; [by rewrite <- E, take_drop|]. split; [rewrite length_drop; lia|by apply Forall_drop].
    + cbn [length Nat.eqb]. unfold ParseIP. rewrite ip_family_v6, parseIPv6_String by done. done.
Qed.

(** ** Trimmed texts *)

Lemma Trim_none s : no_char Ascii.zero s = true -> Trim Ascii.zero s = s.
Proof.
  intros Hs. unfold Trim. assert (trim_left Ascii.zero s = s) as ->.
  { destruct s as [|a s]; [done|]. cbn [no_char] in Hs. apply andb_true_iff in Hs as [Ha _]. apply negb_true_iff in Ha.
    cbn [trim_left]. by rewrite Ha. }
  induction s as [|a s IH]; [done|]. cbn [no_char] in Hs. apply andb_true_iff in Hs as [Ha Hs]. apply negb_true_iff in Ha.
  cbn [trim_right]. rewrite IH, Ha by done. by destruct s.
Qed.

(** ** Copies of bytes *)

Lemma copy_bytes_exact n b : length b = n -> copy_bytes n b = b.
Proof. intros <-. unfold copy_bytes. rewrite firstn_all, Nat.sub_diag. apply app_nil_r. Qed.

Lemma take_copy_bytes n m b : length b = n -> n <= m -> take n (copy_bytes m b) = b.
Proof.
  intros Hl Hm. unfold copy_bytes. rewrite (take_ge b m) by lia. by rewrite <- Hl, take_app_length.
Qed.

Lemma length_copy_bytes n b : length (copy_bytes n b) = n.
Proof. unfold copy_bytes. rewrite length_app, length_take, length_replicate. lia. Qed.

(** ** Texts of networks *)

(** Characters that occur in no text of an address, and one of the prefix of
    references. *)
Definition letter_l : Ascii.ascii := Ascii.ascii_of_nat 108.
Definition other_char (c : Ascii.ascii) : Prop := c = slash \/ c = letter_l.

Lemma hex_char_other c d : other_char c -> (0 <= d < 16)%Z -> Ascii.eqb (hex_char d) c = false.
Proof.
  intros Hc Hd. assert (d = 0 \/ d = 1 \/ d = 2 \/ d = 3 \/ d = 4 \/ d = 5 \/ d = 6 \/ d = 7 \/ d = 8 \/ d = 9 \/ d = 10
    \/ d = 11 \/ d = 12 \/ d = 13 \/ d = 14 \/ d = 15)%Z as H by lia.
  destruct Hc as [-> | ->]; by repeat destruct H as [->|H]; subst.
Qed.

Lemma hex_group_other c g : other_char c -> no_char c (hex_group g) = true.
Proof.
  intros Hc. unfold hex_group.
  assert (forall i, no_char c (String (hex_char (g / i mod 16)) "") = true) as Hd.
  { intros i. cbn [no_char]. rewrite hex_char_other; [done|done|]. apply Z.mod_pos_bound. lia. }
  destruct (g <? 16)%Z; [apply Hd|]. destruct (g <? 256)%Z; [by rewrite no_char_app, !Hd|].
  destruct (g <? 4096)%Z; by rewrite !no_char_app, !Hd.
Qed.

Lemma octet_other c b : other_char c -> is_byte b -> no_char c (Itoa b) = true.
Proof.
  intros Hc Hb. pose proof (all_bytes (fun b => no_char slash (Itoa b) && no_char letter_l (Itoa b)) eq_refl b Hb) as H.
  cbv beta in H. apply andb_true_iff in H as [H1 H2]. by destruct Hc as [-> | ->].
Qed.

Lemma v4_String_other c ip : other_char c -> Forall is_byte ip -> no_char c (v4_String ip) = true.
Proof.
  intros Hc Hb. apply no_char_concat; [by destruct Hc as [-> | ->]|]. apply Forall_map.
  eapply Forall_impl; [exact Hb|]. intros b. by apply octet_other.
Qed.

Lemma v6_String_other c ip : other_char c -> no_char c (v6_String ip) = true.
Proof.
  intros Hc. assert (forall g, no_char c (String.concat ":" (map hex_group g)) = true) as Hg.
  { intros g. apply no_char_concat; [by destruct Hc as [-> | ->]|]. apply Forall_map, Forall_true. intros. by apply hex_group_other. }
  unfold v6_String. destruct (longest_run _ _ _) as [start len]. destruct (len =? 0); [done|].
  rewrite !no_char_app, !Hg. by destruct Hc as [-> | ->].
Qed.

Lemma ip_String_other c ip : other_char c -> ip_ok 4 ip \/ ip_ok 16 ip -> no_char c (ip_String ip) = true.
Proof.
  intros Hc Hip. unfold ip_String. assert (length ip =? 0 = false) as ->.
  { apply Nat.eqb_neq. destruct Hip as [[? _]|[? _]]; lia. }
  assert (negb ((length ip =? 4) || (length ip =? 16)) = false) as ->.
  { apply negb_false_iff, orb_true_iff. rewrite !Nat.eqb_eq. destruct Hip as [[? _]|[? _]]; auto. }
  destruct (length (To4 ip) =? 4); [|by apply v6_String_other]. apply v4_String_other; [done|].
  assert (Forall is_byte ip) as Hb by (by destruct Hip as [[_ ?]|[_ ?]]).
  unfold To4. destruct (length ip =? 4); [done|]. destruct (_ && _); [by apply Forall_drop|apply Forall_nil_2].
Qed.

Lemma ip_String_family ip : parsed_ip ip -> ip_family (ip_String ip) = Some (negb (length ip =? 4)).
Proof.
  intros Hip. unfold ip_String. rewrite (To4_parsed ip Hip). destruct Hip as [Hip|[Hip _]]; rewrite (proj1 Hip); cbn [Nat.eqb orb negb].
  - rewrite (proj1 Hip). cbn [Nat.eqb]. destruct Hip as [Hl Hb]. destruct ip as [|a [|b [|c [|d [|]]]]]; try done.
    unfold v4_String. cbn [map]. rewrite concat_cons by done. change ("." +:+ ?x) with (String period x).
    inversion Hb as [|? ? (_ & H1 & H2)%octet_text _]; subst. by rewrite ip_family_app.
  - by apply ip_family_v6.
Qed.

(** Networks of addresses with masks of their length. *)
Inductive plain_net : IPNet -> Prop :=
  | plain_v4 ip n : ip_ok 4 ip -> n <= 32 -> plain_net (MkIPNet ip (mask_bytes 4 n))
  | plain_v6 ip n : ip_ok 16 ip -> take 12 ip <> v4InV6Prefix -> n <= 128 -> plain_net (MkIPNet ip (mask_bytes 16 n)).

Lemma plain_parsed n : plain_net n -> parsed_ip (IP n).
Proof. intros [ip k Hip Hk|ip k Hip Hp Hk]; [by left|by right]. Qed.

Lemma mask_bytes_zero l : forallb (Z.eqb 0) (mask_bytes l 0) = true.
Proof. induction l as [|l IH]; [done|]. rewrite mask_bytes_cons. exact IH. Qed.

Lemma simpleMaskLength_bytes l : forall n, n <= 8 * l -> simpleMaskLength (mask_bytes l n) = Some n.
Proof.
  induction l as [|l IH]; intros n Hn; [assert (n = 0) as -> by lia; done|].
  rewrite mask_bytes_cons. cbn [simpleMaskLength]. destruct (decide (8 <= n)) as [H8|H8].
  - rewrite (proj2 (mask_byte_full n) H8). cbn [Z.eqb Pos.eqb]. rewrite IH by lia. cbn. f_equal. lia.
  - replace (n - 8) with 0 by lia. rewrite mask_bytes_zero.
    assert (n = 0 \/ n = 1 \/ n = 2 \/ n = 3 \/ n = 4 \/ n = 5 \/ n = 6 \/ n = 7) as E by lia.
    by repeat destruct E as [->|E]; subst.
Qed.

Lemma Mask_Size_bytes l n : n <= 8 * l -> (Mask_Size (mask_bytes l n)).1 = Z.of_nat n.
Proof. intros H. unfold Mask_Size. by rewrite simpleMaskLength_bytes. Qed.

Lemma dtoi_Itoa n : n <= 128 -> dtoi (Itoa (Z.of_nat n)) = Some (Z.of_nat n).
Proof.
  intros Hn. assert (forallb (fun n => bool_decide (dtoi (Itoa (Z.of_nat n)) = Some (Z.of_nat n))) (seq 0 129) = true) as H
    by by vm_compute. rewrite forallb_forall in H. apply (bool_decide_eq_true _), (H n), in_seq. lia.
Qed.

(** The text of a network: its address and the number of ones of its mask. *)
Lemma plain_text n : plain_net n -> exists k, Mask n = mask_bytes (length (IP n)) k /\ k <= 8 * length (IP n)
  /\ (length (IP n) = 4 \/ length (IP n) = 16) /\ IPNet_String n = ip_String (IP n) +:+ "/" +:+ Itoa (Z.of_nat k).
Proof.
  intros [ip k Hip Hk|ip k Hip Hp Hk]; exists k; cbn [IP Mask]; pose proof (proj1 Hip) as Hl; rewrite Hl;
    (split_and!; [done|lia|auto|]); unfold IPNet_String.
  - rewrite number_4_4, Hl by (done || apply length_mask_bytes). rewrite length_mask_bytes. cbn [Nat.eqb orb].
    by rewrite simpleMaskLength_bytes.
  - rewrite number_16, Hl by (done || apply length_mask_bytes). rewrite length_mask_bytes. cbn [Nat.eqb orb].
    by rewrite simpleMaskLength_bytes.
Qed.

(** The text of a network is parsed to it, masked. *)
Lemma ParseCIDR_text n : plain_net n ->
  exists k, ParseCIDR (IPNet_String n) = Some (To16 (IP n), MkIPNet (ip_Mask (To16 (IP n)) (Mask n)) (Mask n))
    /\ Mask n = mask_bytes (length (IP n)) k.
Proof.
  intros Hn. destruct (plain_text n Hn) as (k & Hm & Hk & Hl & ->). exists k. split; [|done].
  pose proof (plain_parsed n Hn) as Hip.
  assert (ip_ok 4 (IP n) \/ ip_ok 16 (IP n)) as Hok by (destruct Hip as [|[]]; auto).
  unfold ParseCIDR. rewrite cut_slash_app by (apply ip_String_other; [by left|done]). cbn [mbind option_bind].
  rewrite ParseIP_String, ip_String_family, dtoi_Itoa by (done || lia). cbn [mbind option_bind].
  assert (length (To16 (IP n)) = 16) as E16.
  { unfold To16. by destruct Hl as [E|E]; rewrite E; cbn [Nat.eqb]; rewrite ?length_app, E. }
  rewrite E16. cbn [Nat.eqb orb].
  assert ((match Some (negb (length (IP n) =? 4)) with Some false => 32%Z | _ => 128%Z end) = (8 * Z.of_nat (length (IP n)))%Z) as ->
    by (destruct Hl as [E|E]; by rewrite E).
  assert ((8 * Z.of_nat (length (IP n)) <? Z.of_nat k)%Z = false) as -> by (apply Z.ltb_ge; lia).
  assert (CIDRMask (Z.of_nat k) (8 * Z.of_nat (length (IP n))) = Mask n) as ->; [|done].
  rewrite Hm. destruct Hl as [E | E]; rewrite E in *.
  - change (8 * Z.of_nat 4)%Z with 32%Z. rewrite CIDRMask_v4 by lia. by rewrite Nat2Z.id.
  - change (8 * Z.of_nat 16)%Z with 128%Z. rewrite CIDRMask_v6 by lia. by rewrite Nat2Z.id.
Qed.
