(* ===== verification/GoTemplate.v ===== *)
(** * Go's text templates

    The templates that name values: text, fields, calls of functions and the
    actions [if] and [with].  Values keep what the package can tell of them:
    whether they are empty, how they print and which fields they have.  The
    functions of a template beyond the predefined ones are a parameter. *)
From S2P Require Import Prelude GoStrings.

(** ** Values *)

Inductive tval :=
  | TStr (s : string)
  | TInt (n : Z)
  | TBool (b : bool)
  | TEnum (n : Z) (name : string)                 (* a number that prints as a name *)
  | TNil                                          (* a nil map *)
  | TObj (fields : string -> option tval).        (* a message, or a map that is not empty *)

(** What the action [if] takes for true. *)
Definition truth (v : tval) : bool :=
  match v with
  | TStr s => negb (is_empty s)
  | TInt n | TEnum n _ => negb (n =? 0)%Z
  | TBool b => b
  | TNil => false
  | TObj _ => true
  end.

(** Printing; messages and maps are not printed. *)
Definition print_value (v : tval) : option string :=
  match v with
  | TStr s => Some s
  | TInt n => Some (Itoa n)
  | TBool b => Some (if b then "true" else "false")
  | TEnum _ name => Some name
  | TNil | TObj _ => None
  end.

Definition field_of (v : tval) (name : string) : option tval :=
  match v with TObj fields => fields name | _ => None end.

(** ** Syntax *)

Inductive texpr :=
  | EField (name : string)
  | EStr (s : string)
  | ECall (f : string) (args : list texpr).

Inductive tnode :=
  | NText (s : string)
  | NAction (e : texpr)
  | NIf (e : texpr) (l1 l2 : list tnode)
  | NWith (e : texpr) (l1 l2 : list tnode).

Inductive token := Word (s : string) | Quoted (s : string) | Dot (name : string) | Open | Close.

(** ** Parsing *)

Definition space : Ascii.ascii := Ascii.ascii_of_nat 32.
Definition quote : Ascii.ascii := Ascii.ascii_of_nat 34.
Definition point : Ascii.ascii := Ascii.ascii_of_nat 46.
Definition paren_open : Ascii.ascii := Ascii.ascii_of_nat 40.
Definition paren_close : Ascii.ascii := Ascii.ascii_of_nat 41.

Definition is_alpha (c : Ascii.ascii) : bool :=
  let n := Ascii.nat_of_ascii c in
  ((65 <=? n) && (n <=? 90)) || ((97 <=? n) && (n <=? 122)) || ((48 <=? n) && (n <=? 57)).

(** The characters that satisfy [p], and the rest. *)
Fixpoint span (p : Ascii.ascii -> bool) (s : string) : string * string :=
  match s with
  | "" => ("", "")
  | String c s' => if p c then let '(a, b) := span p s' in (String c a, b) else ("", s)
  end.

(** The tokens of an action; a quoted text has no escapes. *)
Fixpoint tokens (fuel : nat) (s : string) : option (list token) :=
  match fuel, s with
  | _, "" => Some []
  | O, _ => None
  | S fuel, String c s' =>
      if Ascii.eqb c space then tokens fuel s'
      else if Ascii.eqb c paren_open then cons Open <$> tokens fuel s'
      else if Ascii.eqb c paren_close then cons Close <$> tokens fuel s'
      else if Ascii.eqb c quote then
        match span (fun a => negb (Ascii.eqb a quote)) s' with
        | (a, String _ b) => cons (Quoted a) <$> tokens fuel b
        | (_, "") => None
        end
      else if Ascii.eqb c point then let '(a, b) := span is_alpha s' in cons (Dot a) <$> tokens fuel b
      else if is_alpha c then let '(a, b) := span is_alpha s in cons (Word a) <$> tokens fuel b
      else None
  end.

(** Operands up to a closing parenthesis or the end. *)
Fixpoint operands (fuel : nat) (l : list token) : option (list texpr * list token) :=
  match fuel with
  | O => None
  | S fuel =>
      match l with
      | [] => Some ([], [])
      | Close :: rest => Some ([], rest)
      | Dot name :: l => '(es, rest) ← operands fuel l; Some (EField name :: es, rest)
      | Quoted s :: l => '(es, rest) ← operands fuel l; Some (EStr s :: es, rest)
      | Open :: Word f :: l =>
          '(args, l) ← operands fuel l; '(es, rest) ← operands fuel l; Some (ECall f args :: es, rest)
      | _ => None
      end
  end.

(** A field, or a function with its operands. *)
Definition pipeline (l : list token) : option texpr :=
  match l with
  | [Dot name] => Some (EField name)
  | Word f :: l => '(args, rest) ← operands (S (length l)) l; match rest with [] => Some (ECall f args) | _ => None end
  | _ => None
  end.

(** The text before the braces that close an action, and what follows them. *)
Fixpoint cut_action (s : string) : option (string * string) :=
  if String.prefix "}}" s then Some ("", str_drop 2 s)
  else match s with "" => None | String c s => '(a, b) ← cut_action s; Some (String c a, b) end.

(** What ends a list of nodes. *)
Inductive terminator := AtEnd | AtElse | AtEof.

(** The text up to an action is collected in [acc]. *)
Definition with_text (acc : string) (l : list tnode) : list tnode := if is_empty acc then l else NText acc :: l.

Fixpoint nodes (fuel : nat) (s acc : string) : option (list tnode * terminator * string) :=
  match fuel with
  | O => None
  | S fuel =>
      if String.prefix "{{" s then
        '(action, rest) ← cut_action (str_drop 2 s);
        ts ← tokens (S (String.length action)) action;
        let ts0 := ts in
        match ts with
        | [Word "end"] => Some (with_text acc [], AtEnd, rest)
        | [Word "else"] => Some (with_text acc [], AtElse, rest)
        | Word "if" :: ts | Word "with" :: ts =>
            let mk := match ts0 with Word "if" :: _ => NIf | _ => NWith end in
            e ← pipeline ts;
            r1 ← nodes fuel rest "";
            match r1 with
            | (l1, AtEnd, rest) => '(l, t, s) ← nodes fuel rest ""; Some (with_text acc (mk e l1 [] :: l), t, s)
            | (l1, AtElse, rest) =>
                r2 ← nodes fuel rest "";
                match r2 with
                | (l2, AtEnd, rest) => '(l, t, s) ← nodes fuel rest ""; Some (with_text acc (mk e l1 l2 :: l), t, s)
                | _ => None
                end
            | _ => None
            end
        | _ => e ← pipeline ts; '(l, t, s) ← nodes fuel rest ""; Some (with_text acc (NAction e :: l), t, s)
        end
      else match s with
      | "" => Some (with_text acc [], AtEof, "")
      | String c s => nodes fuel s (acc +:+ String c "")
      end
  end.

(** Each step consumes a character of the text. *)
Definition Parse (t : string) : option (list tnode) :=
  match nodes (S (String.length t)) t "" with Some (l, AtEof, _) => Some l | _ => None end.

(** ** Execution *)

Definition percent : Ascii.ascii := Ascii.ascii_of_nat 37.

(** The verbs %s and %d, on the values they are used on. *)
Definition print_verb (verb : Ascii.ascii) (v : tval) : option string :=
  match v with
  | TStr s => if Ascii.eqb verb (Ascii.ascii_of_nat 115) then Some s else None
  | TEnum n name => if Ascii.eqb verb (Ascii.ascii_of_nat 115) then Some name
      else if Ascii.eqb verb (Ascii.ascii_of_nat 100) then Some (Itoa n) else None
  | TInt n => if Ascii.eqb verb (Ascii.ascii_of_nat 100) then Some (Itoa n) else None
  | _ => None
  end.

Fixpoint printf (format : string) (args : list tval) : option string :=
  match format with
  | "" => match args with [] => Some "" | _ => None end
  | String c rest =>
      if Ascii.eqb c percent then
        match rest, args with
        | String verb rest, a :: args => t ← print_verb verb a; (fun r => t +:+ r) <$> printf rest args
        | _, _ => None
        end
      else String c <$> printf rest args
  end.

Section execute.
(** The function map of the template. *)
Context (funcMap : string -> option (list tval -> option tval)).

Definition call (f : string) (args : list tval) : option tval :=
  if String.eqb f "printf" then
    match args with TStr format :: args => TStr <$> printf format args | _ => None end
  else if String.eqb f "and" then
    match args with [a; b] => Some (if truth a then b else a) | _ => None end
  else if String.eqb f "ne" then
    match args with [TStr a; TStr b] => Some (TBool (negb (String.eqb a b))) | _ => None end
  else g ← funcMap f; g args.

Fixpoint eval (dot : tval) (e : texpr) : option tval :=
  match e with
  | EField name => field_of dot name
  | EStr s => Some (TStr s)
  | ECall f args => vs ← mapM (eval dot) args; call f vs
  end.

Fixpoint exec (dot : tval) (n : tnode) : option string :=
  let exec_list := fix exec_list (dot : tval) (l : list tnode) : option string :=
    match l with
    | [] => Some ""
    | n :: l => t ← exec dot n; (fun r => t +:+ r) <$> exec_list dot l
    end in
  match n with
  | NText s => Some s
  | NAction e => v ← eval dot e; print_value v
  | NIf e l1 l2 => v ← eval dot e; exec_list dot (if truth v then l1 else l2)
  | NWith e l1 l2 => v ← eval dot e; if truth v then exec_list v l1 else exec_list dot l2
  end.

Fixpoint Execute (dot : tval) (l : list tnode) : option string :=
  match l with
  | [] => Some ""
  | n :: l => t ← exec dot n; (fun r => t +:+ r) <$> Execute dot l
  end.
End execute.

Example parse_names : Parse "network/{{.NetworkName}}/interface/{{.InterfaceName}}"
  = Some [NText "network/"; NAction (EField "NetworkName"); NText "/interface/"; NAction (EField "InterfaceName")].
Proof. reflexivity. Qed.
Example parse_control : Parse "{{if .A}}a{{.B}}{{else}}b{{end}}{{with f .C}}c{{end}}"
  = Some [NIf (EField "A") [NText "a"; NAction (EField "B")] [NText "b"]; NWith (ECall "f" [EField "C"]) [NText "c"] []].
Proof. reflexivity. Qed.
Example parse_other : map Parse ["{{.A"; "{{end}}"; "{{if .A}}b"; "{{.A .B}}"] = [None; None; None; None].
Proof. reflexivity. Qed.
