(* ===== verification/VppInterfaceKeys.v ===== *)
(** * Keys of VPP interfaces

    [proto/ligato/vpp/interfaces/models.go]: builders and parsers of the keys
    derived from interfaces.  Results are in the order of the named results;
    parsers return early with the results set so far.  [models.Key] of the
    configured values is in Models.v. *)
From S2P Require Import Prelude GoStrings NetallocProto.

(** ** Templates and prefixes *)

Definition StatePrefix : string := "vpp/status/v2/interface/".
Definition ErrorPrefix : string := "vpp/status/v2/interface/error/".
Definition addressKeyPrefix : string := "vpp/interface/{iface}/address/".
Definition addressKeyTemplate : string := addressKeyPrefix +:+ "{address-source}/{address}".
Definition vrfTKeyTemplatePrefix : string := "vpp/interface/{iface}/vrf/".
Definition vrfKeyTemplate : string := vrfTKeyTemplatePrefix +:+ "{vrf}/ip-version/{ip-version}".
Definition inheritedVrfKeyTemplate : string := vrfTKeyTemplatePrefix +:+ "from-interface/{from-iface}".
Definition vrfIPv4 : string := "v4".
Definition vrfIPv6 : string := "v6".
Definition vrfBoth : string := "both".
Definition UnnumberedKeyPrefix : string := "vpp/interface/unnumbered/".
Definition BondedInterfacePrefix : string := "vpp/bond/{bond}/interface/{iface}/".
Definition IP6NDKeyPrefix : string := "vpp/interface/ip6nd/".
Definition DHCPClientKeyPrefix : string := "vpp/interface/dhcp-client/".
Definition DHCPLeaseKeyPrefix : string := "vpp/interface/dhcp-lease/".
Definition linkUpState : string := "UP".
Definition linkDownState : string := "DOWN".
Definition linkStateKeyTemplate : string := "vpp/interface/{ifName}/link-state/{linkState}".
Definition rxPlacementKeyTemplate : string := "vpp/interface/{iface}/rx-placement/queue/{queue}".
Definition rxModesKeyTemplate : string := "vpp/interface/{iface}/rx-modes".
Definition interfaceWithIPKeyTemplate : string := "vpp/interface/{iface}/has-IP-address".
Definition InvalidKeyPart : string := "<invalid>".

(** [if x == "" { x = InvalidKeyPart }]. *)
Definition or_invalid (s : string) : string := if is_empty s then InvalidKeyPart else s.
Definition part (parts : list string) (i : nat) : string := nth i parts "".

(** ** State and errors *)

Definition InterfaceErrorKey (iface : string) : string := ErrorPrefix +:+ or_invalid iface.
Definition InterfaceStateKey (iface : string) : string := StatePrefix +:+ or_invalid iface.

(** ** Addresses *)

Definition InterfaceAddressPrefix (iface : string) : string :=
  Replace1 addressKeyPrefix "{iface}" (or_invalid iface).

Definition address_src (address : string) (source : Z) : string :=
  let src := or_invalid (IPAddressSource_String source) in
  ToLower (if String.prefix AllocRefPrefix address then IPAddressSource_String IPAddressSource_ALLOC_REF
           else src).

Definition InterfaceAddressKey (iface address : string) (source : Z) : string :=
  let key := Replace1 addressKeyTemplate "{iface}" (or_invalid iface) in
  let key := Replace1 key "{address-source}" (address_src address source) in
  Replace1 key "{address}" address.

Definition not_if_key (min : nat) (parts : list string) : bool :=
  (length parts <? min) || negb (String.eqb (part parts 0) "vpp") || negb (String.eqb (part parts 1) "interface").

(** [iface, address, source, invalidKey, isAddrKey]. *)
Definition ParseInterfaceAddressKey (key : string) : outcome (string * string * Z * bool * bool) :=
  let parts := Split key in
  if not_if_key 4 parts then Ok ("", "", 0%Z, false, false)
  else
    let addrIdx := first_index "address" parts in
    if (addrIdx =? -1)%Z then Ok ("", "", 0%Z, false, false)
    else
      ifaceParts ← go_slice parts 2 addrIdx;
      let invalidKey := is_empty (Join ifaceParts) in
      let iface := or_invalid (Join ifaceParts) in
      if (addrIdx =? Z.of_nat (length parts) - 1)%Z then Ok (iface, "", 0%Z, true, true)
      else
        src ← go_index parts (addrIdx + 1);
        match IPAddressSource_value (ToUpper src) with
        | None => Ok (iface, "", 0%Z, true, true)
        | Some source =>
            rest ← go_slice parts (addrIdx + 2) (Z.of_nat (length parts));
            Ok (iface, Join rest, source, invalidKey || is_empty (Join rest), true)
        end.

(** ** VRFs *)

Definition InterfaceVrfKeyPrefix (iface : string) : string := Replace1 vrfTKeyTemplatePrefix "{iface}" iface.

Definition ip_version (ipv4 ipv6 : bool) : string :=
  if ipv4 && ipv6 then vrfBoth else if ipv4 then vrfIPv4 else if ipv6 then vrfIPv6 else InvalidKeyPart.

Definition InterfaceVrfKey (iface : string) (vrf : Z) (ipv4 ipv6 : bool) : string :=
  let vrfTableID := if (0 <=? vrf)%Z then Itoa vrf else InvalidKeyPart in
  let key := Replace1 vrfKeyTemplate "{iface}" (or_invalid iface) in
  let key := Replace1 key "{vrf}" vrfTableID in
  Replace1 key "{ip-version}" (ip_version ipv4 ipv6).

(** [iface, vrf, ipv4, ipv6, isIfaceVrfKey]; the last of the parts wins. *)
Definition ParseInterfaceVrfKey (key : string) : outcome (string * Z * bool * bool * bool) :=
  let parts := Split key in
  if not_if_key 7 parts then Ok ("", 0%Z, false, false, false)
  else
    let vrfIdx := last_index "vrf" parts in
    let ipVerIdx := last_index "ip-version" parts in
    if ((vrfIdx =? -1) || negb (ipVerIdx =? Z.of_nat (length parts) - 2))%Z
    then Ok ("", 0%Z, false, false, false)
    else
      ifaceParts ← go_slice parts 2 vrfIdx;
      vrfPart ← go_index parts (vrfIdx + 1);
      verPart ← go_index parts (ipVerIdx + 1);
      Ok (or_invalid (Join ifaceParts), default (-1)%Z (Atoi vrfPart),
          String.eqb verPart vrfBoth || String.eqb verPart vrfIPv4,
          String.eqb verPart vrfBoth || String.eqb verPart vrfIPv6, true).

Definition InterfaceInheritedVrfKey (iface fromIface : string) : string :=
  let key := Replace1 inheritedVrfKeyTemplate "{iface}" (or_invalid iface) in
  Replace1 key "{from-iface}" (or_invalid fromIface).

(** [iface, fromIface, isIfaceInherVrfKey]. *)
Definition ParseInterfaceInheritedVrfKey (key : string) : outcome (string * string * bool) :=
  let parts := Split key in
  if not_if_key 6 parts then Ok ("", "", false)
  else
    let vrfIdx := first_index "vrf" parts in
    if ((vrfIdx =? -1) || (Z.of_nat (length parts) <=? vrfIdx + 2))%Z then Ok ("", "", false)
    else
      next ← go_index parts (vrfIdx + 1);
      if negb (String.eqb next "from-interface") then Ok ("", "", false)
      else
        ifaceParts ← go_slice parts 2 vrfIdx;
        fromParts ← go_slice parts (vrfIdx + 2) (Z.of_nat (length parts));
        Ok (or_invalid (Join ifaceParts), or_invalid (Join fromParts), true).

(** ** Keys that are a prefix and a name *)

Definition ParseSuffix (prefix key : string) : string * bool :=
  let suffix := TrimPrefix key prefix in
  if negb (String.eqb suffix key) && negb (is_empty suffix) then (suffix, true) else ("", false).

Definition UnnumberedKey (iface : string) : string := UnnumberedKeyPrefix +:+ or_invalid iface.
Definition ParseNameFromUnnumberedKey (key : string) : string * bool := ParseSuffix UnnumberedKeyPrefix key.
Definition IP6NDKey (iface : string) : string := IP6NDKeyPrefix +:+ or_invalid iface.
Definition ParseNameFromIP6NDKey (key : string) : string * bool := ParseSuffix IP6NDKeyPrefix key.
Definition DHCPClientKey (iface : string) : string := DHCPClientKeyPrefix +:+ or_invalid iface.
Definition ParseNameFromDHCPClientKey (key : string) : string * bool := ParseSuffix DHCPClientKeyPrefix key.
Definition DHCPLeaseKey (iface : string) : string := DHCPLeaseKeyPrefix +:+ or_invalid iface.
Definition ParseNameFromDHCPLeaseKey (key : string) : string * bool := ParseSuffix DHCPLeaseKeyPrefix key.

(** ** Bonds *)

Definition BondedInterfaceKey (bondIf slaveIf : string) : string :=
  let key := Replace1 BondedInterfacePrefix "{bond}" (or_invalid bondIf) in
  Replace1 key "{iface}" (or_invalid slaveIf).

Definition ParseBondedInterfaceKey (key : string) : string * string * bool :=
  let keyComps := Split key in
  if (5 <=? length keyComps) && String.eqb (part keyComps 0) "vpp" && String.eqb (part keyComps 1) "bond"
     && String.eqb (part keyComps 3) "interface"
  then (part keyComps 2, Join (drop 4 keyComps), true) else ("", "", false).

(** ** Link state *)

Definition LinkStateKey (ifaceName : string) (linkIsUp : bool) : string :=
  let key := Replace1 linkStateKeyTemplate "{ifName}" (or_invalid ifaceName) in
  Replace1 key "{linkState}" (if linkIsUp then linkUpState else linkDownState).

(** The parts after [vpp/interface/], when the key has that prefix. *)
Definition if_suffix (key : string) : option string :=
  let suffix := TrimPrefix key "vpp/interface/" in
  if String.eqb suffix key then None else Some suffix.

(** [ifaceName, isLinkUp, isLinkStateKey]. *)
Definition ParseLinkStateKey (key : string) : outcome (string * bool * bool) :=
  match if_suffix key with
  | None => Ok ("", false, false)
  | Some suffix =>
      let parts := Split suffix in
      let n := Z.of_nat (length parts) in
      let linkState := last_index "link-state" parts in
      if negb (linkState =? n - 2)%Z then Ok ("", false, false)
      else
        st ← go_index parts (n - 1);
        if negb (String.eqb st linkDownState) && negb (String.eqb st linkUpState) then Ok ("", false, false)
        else
          ifaceParts ← go_slice parts 0 linkState;
          if String.eqb (Join ifaceParts) InvalidKeyPart then Ok ("", false, false)
          else Ok (Join ifaceParts, String.eqb st linkUpState, true)
  end.

(** ** Interfaces with an address *)

Definition InterfaceWithIPKey (ifaceName : string) : string :=
  Replace1 interfaceWithIPKeyTemplate "{iface}" (or_invalid ifaceName).

Definition ParseInterfaceWithIPKey (key : string) : string * bool :=
  match if_suffix key with
  | None => ("", false)
  | Some suffix =>
      let prefix := TrimSuffix suffix "/has-IP-address" in
      if negb (String.eqb prefix suffix) && negb (String.eqb prefix InvalidKeyPart)
      then (prefix, true) else ("", false)
  end.

(** ** RX placement and modes *)

(** The queue is a [uint32]. *)
Definition RxPlacementKey (ifaceName : string) (queue : Z) : string :=
  let key := Replace1 rxPlacementKeyTemplate "{iface}" (or_invalid ifaceName) in
  Replace1 key "{queue}" (Itoa queue).

(** [ifaceName, queue, isRxPlacementKey]. *)
Definition ParseRxPlacementKey (key : string) : outcome (string * Z * bool) :=
  match if_suffix key with
  | None => Ok ("", 0%Z, false)
  | Some suffix =>
      let parts := Split suffix in
      let n := Z.of_nat (length parts) in
      let rxPlacement := last_index "rx-placement" parts in
      if negb (rxPlacement =? n - 3)%Z then Ok ("", 0%Z, false)
      else
        q ← go_index parts (n - 2);
        if negb (String.eqb q "queue") then Ok ("", 0%Z, false)
        else
          id ← go_index parts (n - 1);
          match Atoi id with
          | None => Ok ("", 0%Z, false)
          | Some queueID =>
              if (queueID <? 0)%Z then Ok ("", 0%Z, false)
              else
                ifaceParts ← go_slice parts 0 rxPlacement;
                if String.eqb (Join ifaceParts) InvalidKeyPart then Ok ("", 0%Z, false)
                else Ok (Join ifaceParts, (queueID mod 2 ^ 32)%Z, true)
          end
  end.

Definition RxModesKey (ifaceName : string) : string := Replace1 rxModesKeyTemplate "{iface}" (or_invalid ifaceName).

Definition ParseRxModesKey (key : string) : outcome (string * bool) :=
  match if_suffix key with
  | None => Ok ("", false)
  | Some suffix =>
      let parts := Split suffix in
      let n := Z.of_nat (length parts) in
      if (n =? 0)%Z then Ok ("", false)
      else
        lastPart ← go_index parts (n - 1);
        if negb (String.eqb lastPart "rx-modes") then Ok ("", false)
        else
          ifaceParts ← go_slice parts 0 (n - 1);
          if String.eqb (Join ifaceParts) InvalidKeyPart then Ok ("", false)
          else Ok (Join ifaceParts, true)
  end.
