(* ===== verification/VppKeyFacts.v ===== *)
(** * Keys of VPP interfaces: builders and parsers agree

    A key built for an interface is parsed back to what it was built from (the
    key of a bonded interface gives the slave with a slash appended), the keys of
    one kind are not taken for another, and where the parsers panic. *)
From S2P Require Import Prelude GoStrings NetallocProto VppInterfaceKeys.

(** Names of interfaces. *)
Definition good_name (iface : string) : Prop := iface <> "" /\ no_brace iface.

Lemma or_invalid_name s : s <> "" -> or_invalid s = s.
Proof. intros H. unfold or_invalid, is_empty. by rewrite (proj2 (String.eqb_neq _ _) H). Qed.

Lemma address_src_no_brace address source :
  (0 <= source <= 4)%Z -> no_brace (address_src address source) /\ no_slash (address_src address source).
Proof.
  intros H. unfold address_src. destruct (String.prefix AllocRefPrefix address); [done|].
  assert (source = 0 \/ source = 1 \/ source = 2 \/ source = 3 \/ source = 4)%Z as Hs by lia.
  by destruct Hs as [->|[->|[->|[->| ->]]]].
Qed.

Lemma InterfaceAddressKey_eq iface address source :
  good_name iface -> (0 <= source <= 4)%Z ->
  InterfaceAddressKey iface address source
  = "vpp/interface/" +:+ iface +:+ "/address/" +:+ address_src address source +:+ "/" +:+ address.
Proof.
  intros [Hne Hb] Hs. unfold InterfaceAddressKey. rewrite or_invalid_name by done.
  destruct (address_src_no_brace address source Hs) as [Hsb _].
  fill "iface}" "vpp/interface/" "/address/{address-source}/{address}".
  fill "address-source}" ("vpp/interface/" +:+ iface +:+ "/address/") "/{address}".
  fill "address}" ("vpp/interface/" +:+ iface +:+ "/address/" +:+ address_src address source +:+ "/") "".
  by rewrite append_nil_r.
Qed.

Lemma Split_if X : Split ("vpp/interface/" +:+ X) = "vpp" :: "interface" :: Split X.
Proof.
  change ("vpp/interface/" +:+ X) with ("vpp" +:+ "/" +:+ ("interface" +:+ "/" +:+ X)).
  by rewrite !Split_cons.
Qed.

Lemma Split_word a w b : no_slash w -> Split (a +:+ "/" +:+ w +:+ "/" +:+ b) = Split a ++ w :: Split b.
Proof. intros Hw. rewrite Split_sep, Split_cons by done. done. Qed.

Lemma Split_word_end a w : no_slash w -> Split (a +:+ "/" +:+ w) = Split a ++ [w].
Proof. intros Hw. by rewrite Split_sep, (Split_last w). Qed.

Lemma length_Split s : 1 <= length (Split s).
Proof. pose proof (Split_ne s). destruct (Split s); simpl; [done|lia]. Qed.

(** The reserved word [w] is not a component of the name. *)
Definition avoids (w iface : string) : Prop := w ∉ Split iface.

Lemma address_src_upper address source : (0 <= source <= 4)%Z ->
  IPAddressSource_value (ToUpper (address_src address source))
  = Some (if String.prefix AllocRefPrefix address then IPAddressSource_ALLOC_REF else source).
Proof.
  intros H. unfold address_src. destruct (String.prefix AllocRefPrefix address); [done|].
  assert (source = 0 \/ source = 1 \/ source = 2 \/ source = 3 \/ source = 4)%Z as Hs by lia.
  by destruct Hs as [->|[->|[->|[->| ->]]]].
Qed.

Lemma not_if_key_cons min l : min <= S (S (length l)) -> not_if_key min (["vpp"; "interface"] ++ l) = false.
Proof. intros H. unfold not_if_key. rewrite length_app. cbn [length]. rewrite (proj2 (Nat.ltb_ge _ _)) by done. done. Qed.

Lemma address_key_roundtrip iface address source :
  good_name iface -> avoids "address" iface -> (0 <= source <= 4)%Z -> address <> "" ->
  ParseInterfaceAddressKey (InterfaceAddressKey iface address source)
  = Ok (iface, address,
        if String.prefix AllocRefPrefix address then IPAddressSource_ALLOC_REF else source, false, true).
Proof.
  intros Hn Ha Hs Hne. rewrite InterfaceAddressKey_eq by done.
  destruct (address_src_no_brace address source Hs) as [_ Hsl].
  unfold ParseInterfaceAddressKey.
  set (src := address_src address source) in *.
  assert (Split ("vpp/interface/" +:+ iface +:+ "/address/" +:+ src +:+ "/" +:+ address)
    = ["vpp"; "interface"] ++ Split iface ++ "address" :: src :: Split address) as ->.
  { rewrite Split_if. change ("/address/" +:+ ?x) with ("/" +:+ "address" +:+ "/" +:+ x).
    rewrite Split_word by done. by rewrite Split_cons. }
  pose proof (length_Split iface). pose proof (length_Split address).
  rewrite not_if_key_cons by (rewrite !length_app; cbn [length]; lia).
  rewrite app_assoc. rewrite first_index_app by (rewrite not_elem_of_app; split; [|exact Ha]; set_solver).
  rewrite length_app. cbn [length].
  destruct (Z.eqb_spec (Z.of_nat (2 + length (Split iface))) (-1)); [lia|].
  rewrite <- app_assoc.
  rewrite (go_slice_app ["vpp"; "interface"] (Split iface) _ 2%Z) by (rewrite ?length_app; cbn [length]; lia).
  rewrite outcome_bind_ret, Join_Split, or_invalid_name by apply Hn.
  rewrite !length_app. cbn [length].
  destruct (Z.eqb_spec (Z.of_nat (2 + length (Split iface)))
    (Z.of_nat (2 + (length (Split iface) + S (S (length (Split address))))) - 1)); [lia|].
  rewrite app_assoc.
  replace ((["vpp"; "interface"] ++ Split iface) ++ "address" :: src :: Split address)
    with ((["vpp"; "interface"] ++ Split iface ++ ["address"]) ++ src :: Split address)
    by by rewrite <- !app_assoc.
  rewrite (go_index_app _ (Split address) src) by (rewrite !length_app; cbn [length]; lia).
  rewrite outcome_bind_ret. unfold src at 1. rewrite address_src_upper by done.
  replace ((["vpp"; "interface"] ++ Split iface ++ ["address"]) ++ src :: Split address)
    with ((["vpp"; "interface"] ++ Split iface ++ ["address"; src]) ++ Split address)
    by by rewrite <- !app_assoc.
  rewrite go_slice_to_end by (rewrite ?length_app; cbn [length]; lia).
  rewrite outcome_bind_ret, Join_Split. unfold is_empty.
  by rewrite (proj2 (String.eqb_neq iface "") (proj1 Hn)), (proj2 (String.eqb_neq address "") Hne).
Qed.

(** *** VRFs *)

Lemma ip_version_ok ipv4 ipv6 : no_slash (ip_version ipv4 ipv6).
Proof. by destruct ipv4, ipv6. Qed.

Lemma InterfaceVrfKey_eq iface vrf ipv4 ipv6 :
  good_name iface -> (0 <= vrf)%Z ->
  InterfaceVrfKey iface vrf ipv4 ipv6
  = "vpp/interface/" +:+ iface +:+ "/vrf/" +:+ Itoa vrf +:+ "/ip-version/" +:+ ip_version ipv4 ipv6.
Proof.
  intros [Hne Hb] Hv. unfold InterfaceVrfKey. rewrite or_invalid_name by done.
  rewrite (proj2 (Z.leb_le 0 vrf)) by done.
  fill "iface}" "vpp/interface/" "/vrf/{vrf}/ip-version/{ip-version}".
  fill "vrf}" ("vpp/interface/" +:+ iface +:+ "/vrf/") "/ip-version/{ip-version}".
  fill "ip-version}" ("vpp/interface/" +:+ iface +:+ "/vrf/" +:+ Itoa vrf +:+ "/ip-version/") "".
  by rewrite append_nil_r.
Qed.


Lemma vrf_key_roundtrip iface vrf ipv4 ipv6 :
  good_name iface -> (0 <= vrf < 2 ^ 63)%Z ->
  ParseInterfaceVrfKey (InterfaceVrfKey iface vrf ipv4 ipv6) = Ok (iface, vrf, ipv4, ipv6, true).
Proof.
  intros Hn Hv. rewrite InterfaceVrfKey_eq by (done || lia). unfold ParseInterfaceVrfKey.
  set (id := Itoa vrf). set (ver := ip_version ipv4 ipv6). set (ps := Split iface).
  assert (Split ("vpp/interface/" +:+ iface +:+ "/vrf/" +:+ id +:+ "/ip-version/" +:+ ver)
    = ["vpp"; "interface"] ++ ps ++ ["vrf"; id; "ip-version"; ver]) as ->.
  { rewrite Split_if. change ("/vrf/" +:+ ?x) with ("/" +:+ "vrf" +:+ "/" +:+ x).
    rewrite Split_word by done. change (id +:+ "/ip-version/" +:+ ver) with (id +:+ "/" +:+ "ip-version" +:+ "/" +:+ ver).
    rewrite Split_cons by apply Itoa_no_slash. rewrite Split_cons by done.
    by rewrite (Split_last ver) by apply ip_version_ok. }
  pose proof (length_Split iface) as Hl. fold ps in Hl. assert (Join ps = iface) as Hj by apply Join_Split.
  rewrite not_if_key_cons by (rewrite !length_app; cbn [length]; lia).
  assert (id <> "vrf") by by apply Itoa_not_word.
  assert (ver <> "vrf" /\ ver <> "ip-version") as [Hver1 Hver2] by (by destruct ipv4, ipv6).
  remember (["vpp"; "interface"] ++ ps ++ ["vrf"; id; "ip-version"; ver]) as parts eqn:Hparts.
  assert (length parts = length ps + 6) as Hlen by (rewrite Hparts, !length_app; cbn [length]; lia).
  rewrite (last_index_at "vrf" parts (["vpp"; "interface"] ++ ps) [id; "ip-version"; ver])
    by parts_at Hparts.
  rewrite (last_index_at "ip-version" parts (["vpp"; "interface"] ++ ps ++ ["vrf"; id]) [ver])
    by parts_at Hparts.
  rewrite Hlen, !length_app. cbn [length].
  destruct (Z.eqb_spec (Z.of_nat (2 + length ps)) (-1)); [lia|].
  destruct (Z.eqb_spec (Z.of_nat (2 + (length ps + 2))) (Z.of_nat (length ps + 6) - 2)); [|lia]. cbn [orb negb].
  rewrite (slice_at parts ["vpp"; "interface"] ps _ _ _ Hparts) by (cbn [length]; lia).
  rewrite outcome_bind_ret, Hj, or_invalid_name by apply Hn.
  rewrite (index_at parts (["vpp"; "interface"] ++ ps ++ ["vrf"]) id ["ip-version"; ver] (Z.of_nat (2 + length ps) + 1))
    by parts_at Hparts.
  rewrite outcome_bind_ret.
  rewrite (index_at parts (["vpp"; "interface"] ++ ps ++ ["vrf"; id; "ip-version"]) ver [])
    by parts_at Hparts.
  rewrite outcome_bind_ret. unfold id. rewrite Atoi_Itoa by lia. by destruct ipv4, ipv6.
Qed.

(** ** The space of keys *)

(** ** Keys by kind *)

Inductive IfKey :=
  | KAddress (iface address : string) (source : Z)
  | KVrf (iface : string) (vrf : Z) (ipv4 ipv6 : bool)
  | KInheritedVrf (iface fromIface : string)
  | KUnnumbered (iface : string)
  | KIP6ND (iface : string)
  | KDHCPClient (iface : string)
  | KDHCPLease (iface : string)
  | KBonded (bondIf slaveIf : string)
  | KLinkState (iface : string) (up : bool)
  | KWithIP (iface : string)
  | KRxPlacement (iface : string) (queue : Z)
  | KRxModes (iface : string).

Inductive IfKind :=
  | AddressKind | VrfKind | InheritedVrfKind | UnnumberedKind | IP6NDKind | DHCPClientKind
  | DHCPLeaseKind | BondedKind | LinkStateKind | WithIPKind | RxPlacementKind | RxModesKind.

#[export] Instance IfKind_eq : EqDecision IfKind.
Proof. solve_decision. Defined.

Definition kind_of (k : IfKey) : IfKind :=
  match k with
  | KAddress _ _ _ => AddressKind | KVrf _ _ _ _ => VrfKind | KInheritedVrf _ _ => InheritedVrfKind
  | KUnnumbered _ => UnnumberedKind | KIP6ND _ => IP6NDKind | KDHCPClient _ => DHCPClientKind
  | KDHCPLease _ => DHCPLeaseKind | KBonded _ _ => BondedKind | KLinkState _ _ => LinkStateKind
  | KWithIP _ => WithIPKind | KRxPlacement _ _ => RxPlacementKind | KRxModes _ => RxModesKind
  end.

Definition build (k : IfKey) : string :=
  match k with
  | KAddress i a s => InterfaceAddressKey i a s
  | KVrf i v v4 v6 => InterfaceVrfKey i v v4 v6
  | KInheritedVrf i f => InterfaceInheritedVrfKey i f
  | KUnnumbered i => UnnumberedKey i
  | KIP6ND i => IP6NDKey i
  | KDHCPClient i => DHCPClientKey i
  | KDHCPLease i => DHCPLeaseKey i
  | KBonded b i => BondedInterfaceKey b i
  | KLinkState i up => LinkStateKey i up
  | KWithIP i => InterfaceWithIPKey i
  | KRxPlacement i q => RxPlacementKey i q
  | KRxModes i => RxModesKey i
  end.

(** The parser of a kind as a selector: [None] when the key is not its. *)
Definition one (mk : string -> IfKey) (r : string * bool) : option IfKey :=
  if r.2 then Some (mk r.1) else None.

Definition parse (kd : IfKind) (key : string) : outcome (option IfKey) :=
  match kd with
  | AddressKind =>
      r ← ParseInterfaceAddressKey key;
      let '(i, a, s, invalid, ok) := r in Ok (if ok && negb invalid then Some (KAddress i a s) else None)
  | VrfKind =>
      r ← ParseInterfaceVrfKey key;
      let '(i, v, v4, v6, ok) := r in Ok (if ok : bool then Some (KVrf i v v4 v6) else None)
  | InheritedVrfKind =>
      r ← ParseInterfaceInheritedVrfKey key;
      let '(i, f, ok) := r in Ok (if ok : bool then Some (KInheritedVrf i f) else None)
  | UnnumberedKind => Ok (one KUnnumbered (ParseNameFromUnnumberedKey key))
  | IP6NDKind => Ok (one KIP6ND (ParseNameFromIP6NDKey key))
  | DHCPClientKind => Ok (one KDHCPClient (ParseNameFromDHCPClientKey key))
  | DHCPLeaseKind => Ok (one KDHCPLease (ParseNameFromDHCPLeaseKey key))
  | BondedKind =>
      let '(b, i, ok) := ParseBondedInterfaceKey key in Ok (if ok : bool then Some (KBonded b i) else None)
  | LinkStateKind =>
      r ← ParseLinkStateKey key;
      let '(i, up, ok) := r in Ok (if ok : bool then Some (KLinkState i up) else None)
  | WithIPKind => Ok (one KWithIP (ParseInterfaceWithIPKey key))
  | RxPlacementKind =>
      r ← ParseRxPlacementKey key;
      let '(i, q, ok) := r in Ok (if ok : bool then Some (KRxPlacement i q) else None)
  | RxModesKind => r ← ParseRxModesKey key; Ok (one KRxModes r)
  end.

(** ** Names that keep the keys apart *)

Definition reserved : list string :=
  ["address"; "vrf"; "ip-version"; "from-interface"; "unnumbered"; "ip6nd"; "dhcp-client"; "dhcp-lease";
   "link-state"; "has-IP-address"; "rx-placement"; "queue"; "rx-modes"].

Definition free (s : string) : Prop := Forall (fun w => w ∉ Split s) reserved.
Definition valid_name (s : string) : Prop := good_name s /\ s <> InvalidKeyPart /\ free s.

Definition valid (k : IfKey) : Prop :=
  match k with
  | KAddress i a s =>
      valid_name i /\ a <> "" /\ free a /\ (0 <= s <= 4)%Z
      /\ (String.prefix AllocRefPrefix a = true -> s = IPAddressSource_ALLOC_REF)
  | KVrf i v _ _ => valid_name i /\ (0 <= v < 2 ^ 63)%Z
  | KInheritedVrf i f => valid_name i /\ valid_name f
  | KBonded b i => good_name b /\ "interface" ∉ Split b /\ good_name i
  | KRxPlacement i q => valid_name i /\ (0 <= q < 2 ^ 32)%Z
  | KUnnumbered i | KIP6ND i | KDHCPClient i | KDHCPLease i | KLinkState i _ | KWithIP i | KRxModes i =>
      valid_name i
  end.

(** What the parser of its own kind makes of a key.  That is what the key was built
    from, but for bonded interfaces: the template of their keys ends in a slash, which
    the parser leaves at the name of the slave, and it looks for the word between
    the names in a fixed place, so it does not take keys of bonds with slashes in
    their names. *)
Definition own_answer (k : IfKey) : option IfKey :=
  match k with
  | KBonded b i => if length (Split b) =? 1 then Some (KBonded b (i +:+ "/")) else None
  | _ => Some k
  end.

(** ** The parts of the keys *)

Definition key_parts (k : IfKey) : list string :=
  match k with
  | KAddress i a s => ["vpp"; "interface"] ++ Split i ++ ["address"; address_src a s] ++ Split a
  | KVrf i v v4 v6 => ["vpp"; "interface"] ++ Split i ++ ["vrf"; Itoa v; "ip-version"; ip_version v4 v6]
  | KInheritedVrf i f => ["vpp"; "interface"] ++ Split i ++ ["vrf"; "from-interface"] ++ Split f
  | KUnnumbered i => ["vpp"; "interface"] ++ ["unnumbered"] ++ Split i
  | KIP6ND i => ["vpp"; "interface"] ++ ["ip6nd"] ++ Split i
  | KDHCPClient i => ["vpp"; "interface"] ++ ["dhcp-client"] ++ Split i
  | KDHCPLease i => ["vpp"; "interface"] ++ ["dhcp-lease"] ++ Split i
  | KBonded b i => ["vpp"; "bond"] ++ Split b ++ ["interface"] ++ Split i ++ [""]
  | KLinkState i up => ["vpp"; "interface"] ++ Split i ++ ["link-state"; if up then linkUpState else linkDownState]
  | KWithIP i => ["vpp"; "interface"] ++ Split i ++ ["has-IP-address"]
  | KRxPlacement i q => ["vpp"; "interface"] ++ Split i ++ ["rx-placement"; "queue"; Itoa q]
  | KRxModes i => ["vpp"; "interface"] ++ Split i ++ ["rx-modes"]
  end.

Lemma Split_if_word i w b : no_slash w ->
  Split ("vpp/interface/" +:+ i +:+ "/" +:+ w +:+ "/" +:+ b) = ["vpp"; "interface"] ++ Split i ++ w :: Split b.
Proof. intros Hw. by rewrite Split_if, Split_word. Qed.
Lemma Split_if_end i w : no_slash w ->
  Split ("vpp/interface/" +:+ i +:+ "/" +:+ w) = ["vpp"; "interface"] ++ Split i ++ [w].
Proof. intros Hw. by rewrite Split_if, Split_word_end. Qed.

Lemma Split_prefix w i : no_slash w -> valid_name i ->
  Split (("vpp/interface/" +:+ (w +:+ "/")) +:+ or_invalid i) = ["vpp"; "interface"] ++ [w] ++ Split i.
Proof.
  intros Hw [[Hi Hib] _]. rewrite or_invalid_name by done. rewrite !append_assoc.
  by rewrite Split_if, Split_cons.
Qed.

Lemma Split_build k : valid k -> Split (build k) = key_parts k.
Proof.
  destruct k as [i a s|i v v4 v6|i f|i|i|i|i|b i|i up|i|i q|i]; cbn [valid build key_parts].
  - intros ([Hn _] & Ha & _ & Hs & _). rewrite InterfaceAddressKey_eq by done.
    change ("/address/" +:+ ?x) with ("/" +:+ "address" +:+ "/" +:+ x). rewrite Split_if_word by done.
    by rewrite Split_cons by by apply address_src_no_brace.
  - intros ([Hn _] & Hv). rewrite InterfaceVrfKey_eq by (done || lia).
    change ("/vrf/" +:+ ?x) with ("/" +:+ "vrf" +:+ "/" +:+ x). rewrite Split_if_word by done.
    change ("/ip-version/" +:+ ?x) with ("/" +:+ "ip-version" +:+ "/" +:+ x).
    rewrite Split_cons by apply Itoa_no_slash. rewrite Split_cons by done.
    by rewrite (Split_last (ip_version _ _)) by apply ip_version_ok.
  - intros ([[Hi Hib] _] & [[Hf Hfb] _]). unfold InterfaceInheritedVrfKey. rewrite !or_invalid_name by done.
    fill "iface}" "vpp/interface/" "/vrf/from-interface/{from-iface}".
    fill "from-iface}" ("vpp/interface/" +:+ i +:+ "/vrf/from-interface/") "".
    rewrite append_nil_r. change ("/vrf/from-interface/" +:+ f) with ("/" +:+ "vrf" +:+ "/" +:+ "from-interface" +:+ "/" +:+ f).
    rewrite Split_if_word by done. by rewrite Split_cons.
  - intros Hi. by apply (Split_prefix "unnumbered").
  - intros Hi. by apply (Split_prefix "ip6nd").
  - intros Hi. by apply (Split_prefix "dhcp-client").
  - intros Hi. by apply (Split_prefix "dhcp-lease").
  - intros ([Hb Hbb] & _ & [Hi Hib]). unfold BondedInterfaceKey. rewrite !or_invalid_name by done.
    fill "bond}" "vpp/bond/" "/interface/{iface}/".
    fill "iface}" ("vpp/bond/" +:+ b +:+ "/interface/") "/".
    change ("vpp/bond/" +:+ ?x) with ("vpp" +:+ "/" +:+ "bond" +:+ "/" +:+ x).
    change ("/interface/" +:+ ?x) with ("/" +:+ "interface" +:+ "/" +:+ x).
    rewrite (Split_cons "vpp"), (Split_cons "bond"), Split_sep, (Split_cons "interface") by done.
    change "/" with ("/" +:+ "") at 1. by rewrite (Split_sep i "").
  - intros [[Hi Hib] _]. unfold LinkStateKey. rewrite or_invalid_name by done.
    fill "ifName}" "vpp/interface/" "/link-state/{linkState}".
    fill "linkState}" ("vpp/interface/" +:+ i +:+ "/link-state/") "".
    rewrite append_nil_r. change ("/link-state/" +:+ ?x) with ("/" +:+ "link-state" +:+ "/" +:+ x).
    rewrite Split_if_word by done. by destruct up.
  - intros [[Hi Hib] _]. unfold InterfaceWithIPKey. rewrite or_invalid_name by done.
    fill "iface}" "vpp/interface/" "/has-IP-address".
    change "/has-IP-address" with ("/" +:+ "has-IP-address"). by rewrite Split_if_end.
  - intros [[[Hi Hib] _] Hq]. unfold RxPlacementKey. rewrite or_invalid_name by done.
    fill "iface}" "vpp/interface/" "/rx-placement/queue/{queue}".
    fill "queue}" ("vpp/interface/" +:+ i +:+ "/rx-placement/queue/") "".
    rewrite append_nil_r.
    change ("/rx-placement/queue/" +:+ ?x) with ("/" +:+ "rx-placement" +:+ "/" +:+ "queue" +:+ "/" +:+ x).
    rewrite Split_if_word, Split_cons by done. by rewrite (Split_last (Itoa q)) by apply Itoa_no_slash.
  - intros [[Hi Hib] _]. unfold RxModesKey. rewrite or_invalid_name by done.
    fill "iface}" "vpp/interface/" "/rx-modes".
    change "/rx-modes" with ("/" +:+ "rx-modes"). by rewrite Split_if_end.
Qed.

(** ** The other parsers leave a key *)

Lemma first_index_range p l : (-1 <= first_index p l < Z.of_nat (length l))%Z.
Proof.
  unfold first_index. destruct (list_find _ l) as [[i x]|] eqn:E; [|lia].
  apply list_find_Some in E as (H & _ & _). apply lookup_lt_Some in H. lia.
Qed.

Lemma go_index_elem {A} (l : list A) i : (0 <= i < Z.of_nat (length l))%Z ->
  exists x, go_index l i = Ok x /\ x ∈ l.
Proof.
  intros H. unfold go_index. rewrite (proj2 (Z.ltb_ge i 0)) by lia.
  destruct (lookup_lt_is_Some_2 l (Z.to_nat i)) as [x Hx]; [lia|]. exists x. rewrite Hx.
  split; [done|]. by eapply list_elem_of_lookup_2.
Qed.

Lemma go_slice_ok {A} (l : list A) lo hi :
  (0 <= lo <= hi)%Z -> (hi <= Z.of_nat (length l))%Z -> exists l', go_slice l lo hi = Ok l'.
Proof.
  intros H H2. unfold go_slice.
  rewrite (proj2 (Z.leb_le 0 lo)), (proj2 (Z.leb_le lo hi)), (proj2 (Z.leb_le hi _)) by lia. by eexists.
Qed.

Lemma not_address key : "address" ∉ Split key -> parse AddressKind key = Ok None.
Proof.
  intros H. cbn [parse]. unfold ParseInterfaceAddressKey. destruct (not_if_key 4 (Split key)); [done|].
  by rewrite first_index_none.
Qed.

Lemma not_vrf key : "ip-version" ∉ Split key -> parse VrfKind key = Ok None.
Proof.
  intros H. cbn [parse]. unfold ParseInterfaceVrfKey.
  destruct (not_if_key 7 (Split key)) eqn:Hn; [done|].
  assert (7 <= length (Split key)) as Hl.
  { unfold not_if_key in Hn. destruct (Nat.ltb_spec (length (Split key)) 7); [done|lia]. }
  rewrite (last_index_none "ip-version") by done.
  rewrite (proj2 (Z.eqb_neq (-1) (Z.of_nat (length (Split key)) - 2))) by lia.
  by rewrite orb_true_r.
Qed.

Lemma not_inherited key : "from-interface" ∉ Split key -> parse InheritedVrfKind key = Ok None.
Proof.
  intros H. cbn [parse]. unfold ParseInterfaceInheritedVrfKey.
  destruct (not_if_key 6 (Split key)); [done|].
  pose proof (first_index_range "vrf" (Split key)) as Hr.
  destruct (Z.eqb_spec (first_index "vrf" (Split key)) (-1)); [done|].
  destruct (Z.leb_spec (Z.of_nat (length (Split key))) (first_index "vrf" (Split key) + 2)); [done|].
  cbn [orb]. destruct (go_index_elem (Split key) (first_index "vrf" (Split key) + 1)) as (x & -> & Hx); [lia|].
  rewrite outcome_bind_ret. destruct (String.eqb_spec x "from-interface"); [congruence|done].
Qed.

Lemma ParseSuffix_other w key : no_slash w -> w ∉ Split key ->
  ParseSuffix ("vpp/interface/" +:+ (w +:+ "/")) key = ("", false).
Proof.
  intros Hw H. unfold ParseSuffix, TrimPrefix.
  destruct (String.prefix _ key) eqn:Hp; [|by rewrite String.eqb_refl].
  apply prefix_spec in Hp as [b ->]. destruct H.
  rewrite !append_assoc, Split_if, Split_cons by done. set_solver.
Qed.

Lemma if_suffix_some key l : Split key = ["vpp"; "interface"] ++ l -> l <> [] ->
  if_suffix key = Some (Join l) /\ Split (Join l) = l.
Proof.
  intros H Hl. assert (key = "vpp/interface/" +:+ Join l) as ->.
  { rewrite <- (Join_Split key), H. destruct l as [|x l]; [done|].
    change (["vpp"; "interface"] ++ x :: l) with ("vpp" :: "interface" :: x :: l).
    by rewrite (Join_cons "vpp"), (Join_cons "interface") by done. }
  rewrite Split_if in H. injection H as H. unfold if_suffix.
  pose proof (TrimPrefix_changes "vpp/interface/" (Join l) ltac:(done)) as Hc.
  rewrite (proj2 (String.eqb_neq _ _) Hc). by rewrite TrimPrefix_app.
Qed.

Lemma if_suffix_none key : part (Split key) 1 <> "interface" -> if_suffix key = None.
Proof.
  intros H. unfold if_suffix, TrimPrefix. destruct (String.prefix _ key) eqn:Hp; [|by rewrite String.eqb_refl].
  apply prefix_spec in Hp as [b ->]. by rewrite Split_if in H.
Qed.

Section foreign.
Context (key : string) (l : list string).
Context (Hkey : Split key = ["vpp"; "interface"] ++ l) (Hl : 2 <= length l).

Lemma suffix_parts : if_suffix key = Some (Join l) /\ Split (Join l) = l.
Proof. apply if_suffix_some; [done|]. intros ->. simpl in Hl. lia. Qed.

Lemma not_link : "link-state" ∉ l -> parse LinkStateKind key = Ok None.
Proof.
  intros H. cbn [parse]. unfold ParseLinkStateKey. destruct suffix_parts as [-> ->].
  rewrite last_index_none by done.
  by rewrite (proj2 (Z.eqb_neq (-1) (Z.of_nat (length l) - 2))) by lia.
Qed.

Lemma not_placement : "rx-placement" ∉ l -> "queue" ∉ l -> parse RxPlacementKind key = Ok None.
Proof.
  intros H Hq. cbn [parse]. unfold ParseRxPlacementKey. destruct suffix_parts as [-> ->].
  rewrite last_index_none by done.
  destruct (Z.eqb_spec (-1) (Z.of_nat (length l) - 3)); [|done]. cbn [negb].
  destruct (go_index_elem l (Z.of_nat (length l) - 2)) as (x & -> & Hx); [lia|].
  rewrite outcome_bind_ret. destruct (String.eqb_spec x "queue"); [congruence|done].
Qed.

Lemma not_modes : "rx-modes" ∉ l -> parse RxModesKind key = Ok None.
Proof.
  intros H. cbn [parse]. unfold ParseRxModesKey. destruct suffix_parts as [-> ->].
  rewrite (proj2 (Z.eqb_neq (Z.of_nat (length l)) 0)) by lia.
  destruct (go_index_elem l (Z.of_nat (length l) - 1)) as (x & -> & Hx); [lia|].
  rewrite outcome_bind_ret. destruct (String.eqb_spec x "rx-modes"); [congruence|done].
Qed.

Lemma not_with_ip : "has-IP-address" ∉ l -> parse WithIPKind key = Ok None.
Proof.
  intros H. cbn [parse]. unfold ParseInterfaceWithIPKey. destruct suffix_parts as [-> Hs].
  destruct (TrimSuffix_changed (Join l) "/has-IP-address") as [->|[a Ha]]; [by rewrite String.eqb_refl|].
  destruct H. rewrite <- Hs, Ha.
  change "/has-IP-address" with ("/" +:+ "has-IP-address"). rewrite Split_word_end by done. set_solver.
Qed.

Lemma not_bonded : parse BondedKind key = Ok None.
Proof.
  cbn [parse]. unfold ParseBondedInterfaceKey. rewrite Hkey. cbn [part nth app]. by rewrite andb_false_r.
Qed.
End foreign.

Lemma bond_foreign kd key : part (Split key) 1 = "bond" ->
  kd <> BondedKind -> parse kd key = Ok None.
Proof.
  intros H Hk. assert (if_suffix key = None) as Hs by (apply if_suffix_none; by rewrite H).
  assert (forall m, not_if_key m (Split key) = true) as Hn.
  { intros m. unfold not_if_key. rewrite H. by rewrite orb_true_r. }
  assert (forall b, key <> "vpp/interface/" +:+ b) as Hp.
  { intros b ->. by rewrite Split_if in H. }
  assert (forall w, ParseSuffix ("vpp/interface/" +:+ w) key = ("", false)) as Hx.
  { intros w. unfold ParseSuffix, TrimPrefix.
    destruct (String.prefix _ key) eqn:E; [|by rewrite String.eqb_refl].
    apply prefix_spec in E as [b ->]. rewrite append_assoc in Hp. by destruct (Hp (w +:+ b)). }
  destruct kd; cbn [parse]; try done;
    unfold ParseInterfaceAddressKey, ParseInterfaceVrfKey, ParseInterfaceInheritedVrfKey, ParseLinkStateKey,
      ParseInterfaceWithIPKey, ParseRxPlacementKey, ParseRxModesKey; rewrite ?Hn, ?Hs; try done.
  - exact (f_equal (fun r => Ok (one KUnnumbered r)) (Hx "unnumbered/")).
  - exact (f_equal (fun r => Ok (one KIP6ND r)) (Hx "ip6nd/")).
  - exact (f_equal (fun r => Ok (one KDHCPClient r)) (Hx "dhcp-client/")).
  - exact (f_equal (fun r => Ok (one KDHCPLease r)) (Hx "dhcp-lease/")).
Qed.

Lemma not_suffix kd w key :
  (kd, w) ∈ [(UnnumberedKind, "unnumbered"); (IP6NDKind, "ip6nd"); (DHCPClientKind, "dhcp-client");
             (DHCPLeaseKind, "dhcp-lease")] ->
  w ∉ Split key -> parse kd key = Ok None.
Proof.
  intros Hin Hno. rewrite !elem_of_cons, elem_of_nil in Hin.
  destruct Hin as [[= -> ->]|[[= -> ->]|[[= -> ->]|[[= -> ->]|[]]]]]; cbn [parse].
  - exact (f_equal (fun r => Ok (one KUnnumbered r)) (ParseSuffix_other "unnumbered" key eq_refl Hno)).
  - exact (f_equal (fun r => Ok (one KIP6ND r)) (ParseSuffix_other "ip6nd" key eq_refl Hno)).
  - exact (f_equal (fun r => Ok (one KDHCPClient r)) (ParseSuffix_other "dhcp-client" key eq_refl Hno)).
  - exact (f_equal (fun r => Ok (one KDHCPLease r)) (ParseSuffix_other "dhcp-lease" key eq_refl Hno)).
Qed.

(** The word that every key of a kind contains. *)
Definition word_of (kd : IfKind) : string :=
  match kd with
  | AddressKind => "address" | VrfKind => "ip-version" | InheritedVrfKind => "from-interface"
  | UnnumberedKind => "unnumbered" | IP6NDKind => "ip6nd" | DHCPClientKind => "dhcp-client"
  | DHCPLeaseKind => "dhcp-lease" | BondedKind => "bond" | LinkStateKind => "link-state"
  | WithIPKind => "has-IP-address" | RxPlacementKind => "rx-placement" | RxModesKind => "rx-modes"
  end.

Lemma if_foreign kd key l :
  Split key = ["vpp"; "interface"] ++ l -> 2 <= length l -> word_of kd ∉ l ->
  (kd = RxPlacementKind -> "queue" ∉ l) -> parse kd key = Ok None.
Proof.
  intros Hk Hl Hw Hq.
  assert (kd <> BondedKind -> word_of kd ∉ Split key) as Hw'.
  { intros Hb. rewrite Hk. destruct kd; simpl in *; (done || set_solver). }
  destruct kd; cbn [word_of] in *.
  - by apply not_address, Hw'.
  - by apply not_vrf, Hw'.
  - by apply not_inherited, Hw'.
  - apply (not_suffix _ "unnumbered"); [set_solver|by apply Hw'].
  - apply (not_suffix _ "ip6nd"); [set_solver|by apply Hw'].
  - apply (not_suffix _ "dhcp-client"); [set_solver|by apply Hw'].
  - apply (not_suffix _ "dhcp-lease"); [set_solver|by apply Hw'].
  - by eapply not_bonded.
  - by eapply not_link.
  - by eapply not_with_ip.
  - eapply not_placement; eauto.
  - by eapply not_modes.
Qed.

(** ** Each key belongs to one kind *)

Definition fixed_words (kd : IfKind) : list string :=
  match kd with
  | AddressKind => ["address"] | VrfKind => ["vrf"; "ip-version"] | InheritedVrfKind => ["vrf"; "from-interface"]
  | UnnumberedKind => ["unnumbered"] | IP6NDKind => ["ip6nd"] | DHCPClientKind => ["dhcp-client"]
  | DHCPLeaseKind => ["dhcp-lease"] | BondedKind => [] | LinkStateKind => ["link-state"]
  | WithIPKind => ["has-IP-address"] | RxPlacementKind => ["rx-placement"; "queue"] | RxModesKind => ["rx-modes"]
  end.

Lemma Itoa_not_reserved z : Itoa z ∉ reserved.
Proof.
  unfold reserved. rewrite !not_elem_of_cons.
  repeat split; try by apply Itoa_not_word. apply not_elem_of_nil.
Qed.

Lemma src_not_reserved a s : (0 <= s <= 4)%Z -> address_src a s ∉ reserved.
Proof.
  intros H. unfold address_src. destruct (String.prefix AllocRefPrefix a); [by apply (bool_decide_unpack _); vm_compute|].
  assert (s = 0 \/ s = 1 \/ s = 2 \/ s = 3 \/ s = 4)%Z as Hs by lia.
  by destruct Hs as [->|[->|[->|[->| ->]]]]; apply (bool_decide_unpack _); vm_compute.
Qed.

Lemma ver_not_reserved v4 v6 : ip_version v4 v6 ∉ reserved.
Proof. by destruct v4, v6; apply (bool_decide_unpack _); vm_compute. Qed.

Lemma link_not_reserved up : (if up : bool then linkUpState else linkDownState) ∉ reserved.
Proof. by destruct up; apply (bool_decide_unpack _); vm_compute. Qed.

Lemma free_elem s w : free s -> w ∈ reserved -> w ∈ Split s -> False.
Proof. intros Hf Hw H. by apply (proj1 (Forall_forall _ _) Hf w Hw). Qed.

Lemma parts_elem k w : valid k -> kind_of k <> BondedKind -> w ∈ reserved ->
  w ∈ drop 2 (key_parts k) -> w ∈ fixed_words (kind_of k).
Proof.
  pose proof free_elem as Hf. pose proof Itoa_not_reserved as Hi. pose proof ver_not_reserved as Hv.
  intros Hvalid Hb Hw. pose proof (fun s => Hf s w) as Hfree.
  destruct k as [i a s|i v v4 v6|i f|i|i|i|i|b i|i up|i|i q|i]; unfold valid, valid_name in Hvalid;
    cbn [key_parts kind_of fixed_words drop app] in *;
    rewrite ?drop_0, ?elem_of_app, ?elem_of_cons, ?elem_of_nil.
  1: pose proof (src_not_reserved a s ltac:(tauto)) as Hs.
  all: intros H; repeat match type of H with _ \/ _ => destruct H as [H|H] end;
    subst; try tauto; try (exfalso; eapply Hf; [|exact Hw|exact H]; tauto); try (by destruct (Hi _ Hw));
    try by destruct (Hv _ _ Hw).
  by destruct (link_not_reserved up).
Qed.

Lemma word_reserved kd : kd <> BondedKind -> word_of kd ∈ reserved.
Proof. destruct kd; intros H; try done; apply (bool_decide_unpack _); by vm_compute. Qed.

Lemma word_foreign kd kd' : kd <> kd' -> kd <> BondedKind -> word_of kd ∉ fixed_words kd'.
Proof. intros H Hb. destruct kd, kd'; try done; apply (bool_decide_unpack _); by vm_compute. Qed.

Lemma queue_foreign kd : kd <> RxPlacementKind -> "queue" ∉ fixed_words kd.
Proof. intros H. destruct kd; try done; apply (bool_decide_unpack _); by vm_compute. Qed.

Lemma key_parts_if k : valid k -> kind_of k <> BondedKind ->
  key_parts k = ["vpp"; "interface"] ++ drop 2 (key_parts k) /\ 2 <= length (drop 2 (key_parts k)).
Proof.
  intros Hv Hb. assert (forall i, 1 <= length (Split i)) as Hl by apply length_Split.
  destruct k as [i a s|i v v4 v6|i f|i|i|i|i|b i|i up|i|i q|i]; try done; cbn [key_parts drop app];
    (split; [done|]); rewrite ?drop_0, ?length_app; cbn [length]; specialize (Hl i); lia.
Qed.

(** A parser of another kind leaves the key. *)
Lemma parse_foreign k kd : valid k -> kd <> kind_of k -> parse kd (build k) = Ok None.
Proof.
  intros Hv Hkd. pose proof (Split_build k Hv) as Hs.
  destruct (decide (kind_of k = BondedKind)) as [Hb|Hb].
  - apply bond_foreign; [|congruence]. rewrite Hs. by destruct k.
  - destruct (key_parts_if k Hv Hb) as [Hp Hl].
    destruct (decide (kd = BondedKind)) as [->|Hkb].
    { eapply not_bonded. rewrite Hs. exact Hp. }
    eapply if_foreign; [rewrite Hs; exact Hp|done| |].
    + intros H. apply (parts_elem k) in H; [|done|done|by apply word_reserved].
      by apply word_foreign in H.
    + intros -> H. apply (parts_elem k) in H; [|done|done|apply (bool_decide_unpack _); by vm_compute].
      by apply queue_foreign in H.
Qed.

(** ** Round trips *)

Lemma inherited_roundtrip i f : valid (KInheritedVrf i f) ->
  parse InheritedVrfKind (build (KInheritedVrf i f)) = Ok (Some (KInheritedVrf i f)).
Proof.
  intros Hv. pose proof (Split_build _ Hv) as Hs. cbn [key_parts] in Hs.
  destruct Hv as [[Hi [_ Hfi]] [Hf _]]. cbn [parse]. unfold ParseInterfaceInheritedVrfKey.
  remember (Split (build (KInheritedVrf i f))) as parts eqn:Hb. clear Hb.
  pose proof (length_Split i). pose proof (length_Split f).
  rewrite Hs at 1. rewrite not_if_key_cons by (rewrite !length_app; cbn [length]; lia).
  assert ("vrf" ∉ Split i) as Hvrf.
  { intros Hin. eapply free_elem; [exact Hfi| |exact Hin]. set_solver. }
  rewrite (first_index_at "vrf" parts (["vpp"; "interface"] ++ Split i) ("from-interface" :: Split f))
    by (rewrite ?Hs, <- ?app_assoc; first [reflexivity|set_solver]).
  assert (length parts = length (Split i) + length (Split f) + 4) as Hlen
    by (rewrite Hs, !length_app; cbn [length]; lia).
  rewrite Hlen, !length_app. cbn [length].
  rewrite (proj2 (Z.eqb_neq _ (-1))), (proj2 (Z.leb_gt _ _)) by lia. cbn [orb].
  rewrite (index_at parts (["vpp"; "interface"] ++ Split i ++ ["vrf"]) "from-interface" (Split f)
    (Z.of_nat (2 + length (Split i)) + 1)) by parts_at Hs.
  rewrite outcome_bind_ret. cbn [String.eqb negb Ascii.eqb Bool.eqb].
  rewrite (slice_at parts ["vpp"; "interface"] (Split i) _ 2 (Z.of_nat (2 + length (Split i))) Hs)
    by (cbn [length]; lia).
  rewrite outcome_bind_ret.
  rewrite (slice_at parts (["vpp"; "interface"] ++ Split i ++ ["vrf"; "from-interface"]) (Split f) []
    (Z.of_nat (2 + length (Split i)) + 2))
    by (rewrite ?app_nil_r, ?length_app; cbn [length]; first [lia|rewrite Hs, <- !app_assoc; reflexivity]).
  rewrite outcome_bind_ret, !Join_Split, !or_invalid_name by (apply Hi || apply Hf). done.
Qed.

Lemma ParseSuffix_own p i : i <> "" -> p <> "" -> ParseSuffix p (p +:+ i) = (i, true).
Proof.
  intros Hi Hp. unfold ParseSuffix. rewrite (proj2 (String.eqb_neq _ _) (TrimPrefix_changes p i Hp)).
  rewrite TrimPrefix_app. unfold is_empty. by rewrite (proj2 (String.eqb_neq _ _) Hi).
Qed.

Lemma bonded_answer b i : valid (KBonded b i) ->
  parse BondedKind (build (KBonded b i)) = Ok (own_answer (KBonded b i)).
Proof.
  intros Hv. pose proof (Split_build _ Hv) as Hs. destruct Hv as (_ & Hb & _). cbn [key_parts] in Hs.
  cbn [parse own_answer]. unfold ParseBondedInterfaceKey. rewrite Hs. clear Hs.
  pose proof (length_Split i) as Hl. pose proof (Split_ne b) as Hne. pose proof (Join_Split b) as Hj.
  destruct (Split b) as [|b1 [|b2 rest]]; [done|..].
  - rewrite (proj2 (Nat.leb_le _ _)) by (rewrite !length_app; cbn [length]; lia).
    cbn [part nth app andb drop String.eqb Ascii.eqb Bool.eqb length Nat.eqb]. cbn in Hj. rewrite Hj.
    change [""] with (Split ""). by rewrite drop_0, <- (Split_sep i ""), Join_Split.
  - cbn [part nth app length Nat.eqb]. rewrite !not_elem_of_cons in Hb. destruct Hb as (_ & Hb2 & _).
    rewrite (proj2 (String.eqb_neq b2 "interface")) by congruence. by rewrite andb_false_r.
Qed.

(** The parsers that work on the part of the key after the prefix. *)
Lemma suffix_of k l : valid k -> key_parts k = ["vpp"; "interface"] ++ l -> 2 <= length l ->
  if_suffix (build k) = Some (Join l) /\ Split (Join l) = l.
Proof. intros Hv Hp Hl. apply suffix_parts; [|done]. by rewrite Split_build. Qed.

Lemma valid_not_invalid i : valid_name i -> String.eqb i InvalidKeyPart = false.
Proof. intros (_ & H & _). by apply String.eqb_neq. Qed.

Lemma link_roundtrip i up : valid_name i ->
  parse LinkStateKind (build (KLinkState i up)) = Ok (Some (KLinkState i up)).
Proof.
  intros Hv. cbn [parse]. unfold ParseLinkStateKey. set (st := if up then linkUpState else linkDownState).
  pose proof (length_Split i) as Hl.
  destruct (suffix_of (KLinkState i up) (Split i ++ ["link-state"; st]) Hv eq_refl) as [-> ->];
    [rewrite length_app; cbn [length]; lia|].
  remember (Split i ++ ["link-state"; st]) as parts eqn:Hp.
  assert (length parts = length (Split i) + 2) as Hlen by (by rewrite Hp, length_app).
  rewrite Hlen, (last_index_at "link-state" parts (Split i) [st])
    by (done || (apply not_elem_of_cons; split; [by destruct up|apply not_elem_of_nil])).
  rewrite (proj2 (Z.eqb_eq _ _)) by lia. cbn [negb].
  rewrite (index_at parts (Split i ++ ["link-state"]) st []) by parts_at Hp.
  rewrite outcome_bind_ret.
  assert (negb (String.eqb st linkDownState) && negb (String.eqb st linkUpState) = false) as -> by by destruct up.
  rewrite (slice_at parts [] (Split i) ["link-state"; st]) by (done || (cbn [length]; lia)).
  rewrite outcome_bind_ret, Join_Split, valid_not_invalid by done. by destruct up.
Qed.

Lemma placement_roundtrip i q : valid (KRxPlacement i q) ->
  parse RxPlacementKind (build (KRxPlacement i q)) = Ok (Some (KRxPlacement i q)).
Proof.
  intros Hv. cbn [parse]. unfold ParseRxPlacementKey. set (id := Itoa q).
  pose proof (length_Split i) as Hl.
  destruct (suffix_of (KRxPlacement i q) (Split i ++ ["rx-placement"; "queue"; id]) Hv eq_refl) as [-> ->];
    [rewrite length_app; cbn [length]; lia|]. destruct Hv as [Hv Hq].
  assert (id <> "rx-placement") by by apply Itoa_not_word.
  remember (Split i ++ ["rx-placement"; "queue"; id]) as parts eqn:Hp.
  assert (length parts = length (Split i) + 3) as Hlen by (by rewrite Hp, length_app).
  rewrite Hlen, (last_index_at "rx-placement" parts (Split i) ["queue"; id]) by parts_at Hp.
  rewrite (proj2 (Z.eqb_eq _ _)) by lia. cbn [negb].
  rewrite (index_at parts (Split i ++ ["rx-placement"]) "queue" [id] (Z.of_nat (length (Split i) + 3) - 2)) by parts_at Hp.
  rewrite outcome_bind_ret. cbn [negb String.eqb Ascii.eqb Bool.eqb].
  rewrite (index_at parts (Split i ++ ["rx-placement"; "queue"]) id []) by parts_at Hp.
  rewrite outcome_bind_ret. unfold id at 1. rewrite Atoi_Itoa by lia.
  rewrite (proj2 (Z.ltb_ge _ _)) by lia.
  rewrite (slice_at parts [] (Split i) ["rx-placement"; "queue"; id]) by (done || (cbn [length]; lia)).
  rewrite outcome_bind_ret, Join_Split, valid_not_invalid by done. cbn. by rewrite Z.mod_small.
Qed.

Lemma modes_roundtrip i : valid_name i -> parse RxModesKind (build (KRxModes i)) = Ok (Some (KRxModes i)).
Proof.
  intros Hv. cbn [parse]. unfold ParseRxModesKey. pose proof (length_Split i) as Hl.
  destruct (suffix_of (KRxModes i) (Split i ++ ["rx-modes"]) Hv eq_refl) as [-> ->];
    [rewrite length_app; cbn [length]; lia|].
  remember (Split i ++ ["rx-modes"]) as parts eqn:Hp.
  assert (length parts = length (Split i) + 1) as Hlen by (by rewrite Hp, length_app).
  rewrite Hlen, (proj2 (Z.eqb_neq _ 0)) by lia.
  rewrite (index_at parts (Split i) "rx-modes" []) by parts_at Hp.
  rewrite outcome_bind_ret. cbn [negb String.eqb Ascii.eqb Bool.eqb].
  rewrite (slice_at parts [] (Split i) ["rx-modes"]) by (done || (cbn [length]; lia)).
  by rewrite outcome_bind_ret, Join_Split, valid_not_invalid.
Qed.

Lemma with_ip_roundtrip i : valid_name i -> parse WithIPKind (build (KWithIP i)) = Ok (Some (KWithIP i)).
Proof.
  intros Hv. cbn [parse]. unfold ParseInterfaceWithIPKey. pose proof (length_Split i) as Hl.
  destruct (suffix_of (KWithIP i) (Split i ++ ["has-IP-address"]) Hv eq_refl) as [-> _];
    [rewrite length_app; cbn [length]; lia|].
  assert (Join (Split i ++ ["has-IP-address"]) = i +:+ "/has-IP-address") as ->.
  { change ["has-IP-address"] with (Split "has-IP-address"). by rewrite <- Split_sep, Join_Split. }
  rewrite TrimSuffix_app.
  assert (String.eqb i (i +:+ "/has-IP-address") = false) as ->.
  { apply String.eqb_neq. intros H. apply (f_equal String.length) in H. rewrite append_length in H. simpl in H. lia. }
  by rewrite valid_not_invalid.
Qed.

Lemma parse_own k : valid k -> parse (kind_of k) (build k) = Ok (own_answer k).
Proof.
  intros Hv. destruct k as [i a s|i v v4 v6|i f|i|i|i|i|b i|i up|i|i q|i]; cbn [kind_of own_answer].
  - destruct Hv as ([Hn [_ Hf]] & Ha & _ & Hs & Hr). cbn [parse build].
    rewrite address_key_roundtrip; [|done|intros H; eapply free_elem; [exact Hf| |exact H]; set_solver|done|done].
    cbn. destruct (String.prefix AllocRefPrefix a); [by rewrite Hr|done].
  - destruct Hv as ([Hn _] & Hv). cbn [parse build]. by rewrite vrf_key_roundtrip.
  - by apply inherited_roundtrip.
  - pose proof (proj1 (proj1 Hv)). cbn [parse build]. unfold UnnumberedKey. rewrite or_invalid_name by done.
    unfold ParseNameFromUnnumberedKey. by rewrite ParseSuffix_own.
  - pose proof (proj1 (proj1 Hv)). cbn [parse build]. unfold IP6NDKey. rewrite or_invalid_name by done.
    unfold ParseNameFromIP6NDKey. by rewrite ParseSuffix_own.
  - pose proof (proj1 (proj1 Hv)). cbn [parse build]. unfold DHCPClientKey. rewrite or_invalid_name by done.
    unfold ParseNameFromDHCPClientKey. by rewrite ParseSuffix_own.
  - pose proof (proj1 (proj1 Hv)). cbn [parse build]. unfold DHCPLeaseKey. rewrite or_invalid_name by done.
    unfold ParseNameFromDHCPLeaseKey. by rewrite ParseSuffix_own.
  - by apply bonded_answer.
  - by apply link_roundtrip.
  - by apply with_ip_roundtrip.
  - by apply placement_roundtrip.
  - by apply modes_roundtrip.
Qed.

(** C27: A key built for a value derived from an interface is parsed by the parser
    of its kind to what it was built from, every other parser leaves it, and no
    parser panics on it.  So each such key selects one descriptor.  Bonded interfaces
    are the exception: their parser returns the name of the slave with a slash added,
    and it does not take the key at all if the name of the bond has a slash.

    It is assumed ([valid]) that names and addresses are not empty, that a name is
    not the placeholder for invalid parts and has no brace (the templates are filled
    in one after another), that none of the parts of a name or an address is one of
    the words with which the keys are built ([reserved]; for bonds, none of the parts
    of the name of the bond is the word between the names), and that numbers are in
    the range of their type. *)
Theorem interface_keys_parse (k : IfKey) (kd : IfKind) :
  valid k -> parse kd (build k) = Ok (if decide (kd = kind_of k) then own_answer k else None).
Proof. intros Hv. case_decide as Hk; [subst; by apply parse_own|by apply parse_foreign]. Qed.

Lemma valid_name_eth0 : valid_name "sub/eth0".
Proof. split; [by split|split; [done|]]. apply (bool_decide_unpack _). by vm_compute. Qed.

Lemma interface_keys_parse_witness :
  parse AddressKind "vpp/interface/sub/eth0/address/alloc_ref/alloc:net1" =
    Ok (Some (KAddress "sub/eth0" "alloc:net1" 3)) /\
  parse RxModesKind "vpp/interface/sub/eth0/address/alloc_ref/alloc:net1" = Ok None /\
  parse BondedKind "vpp/bond/bond0/interface/sub/eth0/" = Ok (Some (KBonded "bond0" "sub/eth0/")) /\
  parse BondedKind "vpp/bond/my/bond/interface/eth0/" = Ok None.
Proof.
  assert (valid (KAddress "sub/eth0" "alloc:net1" 3)) as Hv.
  { split; [apply valid_name_eth0|]. split; [done|]. split; [|split; [lia|done]].
    apply (bool_decide_unpack _). by vm_compute. }
  assert (forall b i, good_name b -> good_name i -> bool_decide ("interface" ∈ Split b) = false -> valid (KBonded b i)) as Hb
    by (intros b i H1 H2 H3%bool_decide_eq_false; by split_and!).
  split; [exact (interface_keys_parse (KAddress "sub/eth0" "alloc:net1" 3) AddressKind Hv)|].
  split; [exact (interface_keys_parse (KAddress "sub/eth0" "alloc:net1" 3) RxModesKind Hv)|].
  split; [apply (interface_keys_parse (KBonded "bond0" "sub/eth0") BondedKind)|
          apply (interface_keys_parse (KBonded "my/bond" "eth0") BondedKind)]; apply Hb; done.
Defined.

(** Keys outside that space make parsers panic. *)
Example link_state_panics : parse LinkStateKind "vpp/interface/UP" = Panic "slice bounds out of range".
Proof. reflexivity. Qed.
Example placement_panics : parse RxPlacementKind "vpp/interface/queue/5" = Panic "slice bounds out of range".
Proof. reflexivity. Qed.
Example vrf_panics : parse VrfKind "vpp/interface/a/vrf/1/ip-version/vrf" = Panic "index out of range".
Proof. reflexivity. Qed.
