(* ===== verification/LinuxInterfaceKeys.v ===== *)
(** * Keys of Linux interfaces

    [proto/ligato/linux/interfaces/models.go]: builders and parsers of the keys
    derived from Linux interfaces, with the results in the order of the named
    results; [models.Key] of the configured values is in Models.v. *)
From S2P Require Import Prelude GoStrings NetallocProto.

Definition InterfaceHostNameKeyPrefix : string := "linux/interface/host-name/".
Definition interfaceHostNameWithAddrKeyTmpl : string :=
  InterfaceHostNameKeyPrefix +:+ "{host-name}/address/{address}".
Definition interfaceHostNameWithVrfKeyTmpl : string :=
  InterfaceHostNameKeyPrefix +:+ "{host-name}/vrf-host-name/{vrf-host-name}".
Definition InterfaceStateKeyPrefix : string := "linux/interface/state/".
Definition interfaceStateKeyTemplate : string := InterfaceStateKeyPrefix +:+ "{ifName}/{ifState}".
Definition interfaceUpState : string := "UP".
Definition interfaceDownState : string := "DOWN".
Definition interfaceAddrKeyPrefix : string := "linux/interface/{iface}/address/".
Definition interfaceAddrKeyTmpl : string := interfaceAddrKeyPrefix +:+ "{address-source}/{address}".
Definition interfaceVrfKeyTmpl : string := "linux/interface/{iface}/vrf/{vrf}".
Definition InvalidKeyPart : string := "<invalid>".

(** [if x == "" { x = InvalidKeyPart }]. *)
Definition or_invalid (s : string) : string := if is_empty s then InvalidKeyPart else s.

(** ** Host names *)

Definition InterfaceHostNameKey (hostName : string) : string := InterfaceHostNameKeyPrefix +:+ hostName.

Definition InterfaceHostNameWithAddrKey (hostName address : string) : string :=
  let key := Replace1 interfaceHostNameWithAddrKeyTmpl "{host-name}" (or_invalid hostName) in
  Replace1 key "{address}" address.

Definition InterfaceHostNameWithVrfKey (hostName vrf : string) : string :=
  let key := Replace1 interfaceHostNameWithVrfKeyTmpl "{host-name}" (or_invalid hostName) in
  Replace1 key "{vrf-host-name}" vrf.

(** ** Admin state *)

Definition InterfaceStateKey (ifName : string) (ifIsUp : bool) : string :=
  let ifState := if ifIsUp then interfaceUpState else interfaceDownState in
  let key := Replace1 interfaceStateKeyTemplate "{ifName}" ifName in
  Replace1 key "{ifState}" ifState.

(** [ifName, ifIsUp, isStateKey]. *)
Definition ParseInterfaceStateKey (key : string) : string * bool * bool :=
  if String.prefix InterfaceStateKeyPrefix key then
    match Split (TrimPrefix key InterfaceStateKeyPrefix) with
    | [ifName; ifState] => (ifName, String.eqb ifState interfaceUpState, true)
    | _ => ("", false, false)
    end
  else ("", false, false).

(** ** Addresses *)

Definition InterfaceAddressPrefix (iface : string) : string :=
  Replace1 interfaceAddrKeyPrefix "{iface}" (or_invalid iface).

Definition address_src (address : string) (source : Z) : string :=
  let src := or_invalid (IPAddressSource_String source) in
  ToLower (if String.prefix AllocRefPrefix address then IPAddressSource_String IPAddressSource_ALLOC_REF
           else src).

Definition InterfaceAddressKey (iface address : string) (source : Z) : string :=
  let key := Replace1 interfaceAddrKeyTmpl "{iface}" (or_invalid iface) in
  let key := Replace1 key "{address-source}" (address_src address source) in
  Replace1 key "{address}" address.

(** The checks both parsers of derived keys begin with. *)
Definition not_derived_key (parts : list string) : outcome bool :=
  if (length parts <? 4) then Ok true
  else
    p0 ← go_index parts 0; p1 ← go_index parts 1;
    if negb (String.eqb p0 "linux") || negb (String.eqb p1 "interface") then Ok true
    else p2 ← go_index parts 2; Ok (String.eqb p2 "state" || String.eqb p2 "host-name").

(** [for idx, part := range parts]: returns at [stop], else the last index of [word]. *)
Fixpoint scan_parts (stop word : string) (i : nat) (parts : list string) (acc : Z) : option Z :=
  match parts with
  | [] => Some acc
  | p :: parts =>
      if String.eqb p stop then None
      else scan_parts stop word (S i) parts (if String.eqb p word then Z.of_nat i else acc)
  end.

(** [iface, address, source, invalidKey, isAddrKey]. *)
Definition ParseInterfaceAddressKey (key : string) : outcome (string * string * Z * bool * bool) :=
  let parts := Split key in
  let none := ("", "", 0%Z, false, false) in
  other ← not_derived_key parts;
  if other : bool then Ok none
  else match scan_parts "vrf" "address" 0 parts (-1) with
  | None => Ok none
  | Some addrIdx =>
      if (addrIdx =? -1)%Z then Ok none
      else
        ifaceParts ← go_slice parts 2 addrIdx;
        let invalidKey := is_empty (Join ifaceParts) in
        let iface := or_invalid (Join ifaceParts) in
        srcPart ← go_index parts (addrIdx + 1);
        match IPAddressSource_value (ToUpper srcPart) with
        | None => Ok (iface, "", 0%Z, true, true)
        | Some source =>
            if (addrIdx =? Z.of_nat (length parts) - 1)%Z then Ok (iface, "", source, true, true)
            else
              rest ← go_slice parts (addrIdx + 2) (Z.of_nat (length parts));
              Ok (iface, Join rest, source, invalidKey || is_empty (Join rest), true)
        end
  end.

(** ** VRFs *)

Definition InterfaceVrfKey (iface vrf : string) : string :=
  let key := Replace1 interfaceVrfKeyTmpl "{iface}" (or_invalid iface) in
  Replace1 key "{vrf}" (or_invalid vrf).

(** [iface, vrf, invalidKey, isVrfKey]. *)
Definition ParseInterfaceVrfKey (key : string) : outcome (string * string * bool * bool) :=
  let parts := Split key in
  let none := ("", "", false, false) in
  other ← not_derived_key parts;
  if other : bool then Ok none
  else match scan_parts "address" "vrf" 0 parts (-1) with
  | None => Ok none
  | Some vrfIdx =>
      if (vrfIdx =? -1)%Z then Ok none
      else
        ifaceParts ← go_slice parts 2 vrfIdx;
        let invalidKey := is_empty (Join ifaceParts) in
        let iface := or_invalid (Join ifaceParts) in
        if (vrfIdx =? Z.of_nat (length parts) - 1)%Z then Ok (iface, InvalidKeyPart, true, true)
        else vrf ← go_index parts (vrfIdx + 1); Ok (iface, vrf, invalidKey, true)
  end.

Example address_key : ParseInterfaceAddressKey "linux/interface/sub/eth0/address/static/10.0.0.1/24"
  = Ok ("sub/eth0", "10.0.0.1/24", 1%Z, false, true).
Proof. reflexivity. Qed.
Example address_key_panics : ParseInterfaceAddressKey "linux/interface/eth0/address" = Panic "index out of range".
Proof. reflexivity. Qed.
Example vrf_key : ParseInterfaceVrfKey "linux/interface/eth0/vrf/red" = Ok ("eth0", "red", false, true).
Proof. reflexivity. Qed.
Example vrf_key_cut : ParseInterfaceVrfKey "linux/interface/eth0/vrf" = Ok ("eth0", InvalidKeyPart, true, true).
Proof. reflexivity. Qed.
