(* ===== verification/LinuxKeyFacts.v ===== *)
(** * Keys of Linux interfaces: builders and parsers agree

    The keys of the values derived from a Linux interface, by kind: each is
    parsed back by the parser of its kind and left by the other parsers; names
    with slashes are lost in the keys of states and shortened in those of VRFs.
    Then, for an arbitrary key, when the parsers panic. *)
From S2P Require Import Prelude GoStrings NetallocProto LinuxInterfaceKeys.

(** ** What the parsers see of a key *)

Lemma scan_parts_stop stop word l : stop ∈ l -> forall i acc, scan_parts stop word i l acc = None.
Proof.
  induction l as [|p l IH]; intros Hin i acc; [by apply not_elem_of_nil in Hin|]. cbn [scan_parts].
  destruct (String.eqb_spec p stop) as [->|Hne]; [done|]. apply IH. by apply elem_of_cons in Hin as [->|].
Qed.

Lemma scan_parts_last stop word l : stop ∉ l -> forall i acc,
  scan_parts stop word i l acc = Some (last_index_from i word l acc).
Proof.
  induction l as [|p l IH]; intros Hin i acc; [done|]. apply not_elem_of_cons in Hin as [Hp Hl].
  cbn [scan_parts last_index_from]. destruct (String.eqb_spec p stop); [congruence|]. by apply IH.
Qed.

(** The parts after [linux/interface] of a key of the derived values. *)
Definition derived_parts (key : string) (l : list string) : Prop :=
  Split key = "linux" :: "interface" :: l /\ 2 <= length l
  /\ nth 0 l "" <> "state" /\ nth 0 l "" <> "host-name".

#[export] Instance derived_parts_dec key l : Decision (derived_parts key l).
Proof. unfold derived_parts. apply _. Defined.

Lemma not_derived_cons p0 p1 p2 p3 l : not_derived_key (p0 :: p1 :: p2 :: p3 :: l)
  = Ok (negb (String.eqb p0 "linux") || negb (String.eqb p1 "interface")
        || (String.eqb p2 "state" || String.eqb p2 "host-name")).
Proof. unfold not_derived_key. cbn [length Nat.ltb Nat.leb]. simpl. by destruct (negb _ || negb _). Qed.

Lemma derived_key key l : derived_parts key l -> not_derived_key (Split key) = Ok false.
Proof.
  intros (E & Hl & H1 & H2). rewrite E. destruct l as [|p2 [|p3 l]]; cbn [length] in Hl; [lia..|].
  cbn [nth] in *. rewrite not_derived_cons.
  by rewrite (proj2 (String.eqb_neq _ _) H1), (proj2 (String.eqb_neq _ _) H2).
Qed.

Lemma not_derived_spec key :
  not_derived_key (Split key) = Ok true \/ exists l, derived_parts key l.
Proof.
  unfold derived_parts. destruct (Split key) as [|p0 [|p1 [|p2 [|p3 l]]]]; [by left..|].
  rewrite not_derived_cons. destruct (String.eqb_spec p0 "linux") as [->|]; [|by left].
  destruct (String.eqb_spec p1 "interface") as [->|]; [|by left].
  destruct (String.eqb_spec p2 "state") as [->|]; [by left|].
  destruct (String.eqb_spec p2 "host-name") as [->|]; [by left|].
  right. exists (p2 :: p3 :: l). cbn. split_and!; [done|lia|done..].
Qed.

(** Splitting at the last occurrence of a part. *)
Lemma last_split (w : string) l : w ∈ l -> exists l1 l2, l = l1 ++ w :: l2 /\ w ∉ l2.
Proof.
  induction l as [|x l IH]; intros Hin; [by apply not_elem_of_nil in Hin|].
  destruct (decide (w ∈ l)) as [Hl|Hl].
  - destruct (IH Hl) as (l1 & l2 & -> & H2). by exists (x :: l1), l2.
  - apply elem_of_cons in Hin as [->|]; [|done]. by exists [], l.
Qed.

Lemma ne2 (w a b : string) : negb (String.eqb w a) && negb (String.eqb w b) = true -> w <> a /\ w <> b.
Proof. rewrite andb_true_iff, !negb_true_iff, !String.eqb_neq. done. Qed.

Section scan.
Context (stop word key : string) (l : list string).
Context (Hstop : stop <> "linux" /\ stop <> "interface") (Hword : word <> "linux" /\ word <> "interface").
Context (Hkey : derived_parts key l).

Lemma scan_foreign : stop ∈ l -> scan_parts stop word 0 (Split key) (-1) = None.
Proof. intros H. apply scan_parts_stop. rewrite (proj1 Hkey). by do 2 right. Qed.

Lemma scan_absent : stop ∉ l -> word ∉ l -> scan_parts stop word 0 (Split key) (-1) = Some (-1)%Z.
Proof.
  intros H1 H2. rewrite scan_parts_last by (rewrite (proj1 Hkey), !not_elem_of_cons; tauto).
  rewrite last_index_from_none; [done|]. rewrite (proj1 Hkey), !not_elem_of_cons. tauto.
Qed.

Lemma scan_present l1 l2 : stop ∉ l -> l = l1 ++ word :: l2 -> word ∉ l2 ->
  scan_parts stop word 0 (Split key) (-1) = Some (Z.of_nat (2 + length l1))
  /\ go_slice (Split key) 2 (Z.of_nat (2 + length l1)) = Ok l1
  /\ length (Split key) = 3 + length l1 + length l2.
Proof.
  intros H1 El H2. rewrite scan_parts_last by (rewrite (proj1 Hkey), !not_elem_of_cons; tauto).
  assert (Split key = ["linux"; "interface"] ++ l1 ++ word :: l2) as E by (rewrite (proj1 Hkey), El; done).
  split_and!.
  - f_equal. apply (last_index_at word (Split key) (["linux"; "interface"] ++ l1) l2); [|done].
    by rewrite E, <- app_assoc.
  - by apply (slice_at _ ["linux"; "interface"] l1 (word :: l2)).
  - rewrite E, !length_app. cbn [length]. lia.
Qed.
End scan.

(** The address parser on every derived key. *)
Lemma address_of_parts key l l1 l2 : derived_parts key l -> "vrf" ∉ l -> l = l1 ++ "address" :: l2 ->
  "address" ∉ l2 ->
  ParseInterfaceAddressKey key = match l2 with
    | [] => Panic "index out of range"
    | src :: rest => Ok match IPAddressSource_value (ToUpper src) with
        | None => (or_invalid (Join l1), "", 0%Z, true, true)
        | Some source => (or_invalid (Join l1), Join rest, source, is_empty (Join l1) || is_empty (Join rest), true)
        end
    end.
Proof.
  intros Hk Hv El Ha. unfold ParseInterfaceAddressKey.
  rewrite (derived_key key l Hk), outcome_bind_ret.
  destruct (scan_present "vrf" "address" key l (ne2 "vrf" "linux" "interface" eq_refl) (ne2 "address" "linux" "interface" eq_refl) Hk l1 l2 Hv El Ha) as (-> & -> & Hlen).
  destruct (Z.eqb_spec (Z.of_nat (2 + length l1)) (-1)); [lia|]. rewrite outcome_bind_ret.
  assert (Split key = (["linux"; "interface"] ++ l1 ++ ["address"]) ++ l2) as E.
  { rewrite (proj1 Hk), El, <- !app_assoc. done. }
  destruct l2 as [|src rest].
  - unfold go_index. rewrite (proj2 (Z.ltb_ge _ 0)) by lia. rewrite lookup_ge_None_2; [done|].
    rewrite Hlen. cbn [length]. lia.
  - rewrite E at 1. rewrite go_index_app by parts_at E. rewrite outcome_bind_ret.
    destruct (IPAddressSource_value (ToUpper src)) as [source|]; [|done].
    rewrite Hlen. cbn [length].
    destruct (Z.eqb_spec (Z.of_nat (2 + length l1)) (Z.of_nat (3 + length l1 + S (length rest)) - 1)); [lia|].
    rewrite (slice_at (Split key) (["linux"; "interface"] ++ l1 ++ ["address"; src]) rest []).
    + by rewrite outcome_bind_ret.
    + rewrite app_nil_r, E, <- !app_assoc. done.
    + rewrite !length_app. cbn [length]. lia.
    + rewrite !length_app. cbn [length]. lia.
Qed.

Lemma address_not_key key : (forall l, derived_parts key l -> "vrf" ∈ l \/ "address" ∉ l) ->
  ParseInterfaceAddressKey key = Ok ("", "", 0%Z, false, false).
Proof.
  intros H. unfold ParseInterfaceAddressKey. destruct (not_derived_spec key) as [->|[l Hk]]; [done|].
  rewrite (derived_key key l Hk), outcome_bind_ret.
  destruct (decide ("vrf" ∈ l)) as [Hv|Hv].
  - by rewrite (scan_foreign "vrf" "address" key l Hk Hv).
  - destruct (H l Hk) as [|Ha]; [done|].
    by rewrite (scan_absent "vrf" "address" key l (ne2 "vrf" "linux" "interface" eq_refl) (ne2 "address" "linux" "interface" eq_refl) Hk Hv Ha).
Qed.

(** The VRF parser on every derived key. *)
Lemma vrf_of_parts key l l1 l2 : derived_parts key l -> "address" ∉ l -> l = l1 ++ "vrf" :: l2 -> "vrf" ∉ l2 ->
  ParseInterfaceVrfKey key = Ok match l2 with
    | [] => (or_invalid (Join l1), InvalidKeyPart, true, true)
    | vrf :: _ => (or_invalid (Join l1), vrf, is_empty (Join l1), true)
    end.
Proof.
  intros Hk Ha El Hv. unfold ParseInterfaceVrfKey.
  rewrite (derived_key key l Hk), outcome_bind_ret.
  destruct (scan_present "address" "vrf" key l (ne2 "address" "linux" "interface" eq_refl) (ne2 "vrf" "linux" "interface" eq_refl) Hk l1 l2 Ha El Hv) as (-> & -> & Hlen).
  destruct (Z.eqb_spec (Z.of_nat (2 + length l1)) (-1)); [lia|]. rewrite outcome_bind_ret, Hlen.
  destruct l2 as [|vrf rest]; cbn [length].
  - destruct (Z.eqb_spec (Z.of_nat (2 + length l1)) (Z.of_nat (3 + length l1 + 0) - 1)); [done|lia].
  - destruct (Z.eqb_spec (Z.of_nat (2 + length l1)) (Z.of_nat (3 + length l1 + S (length rest)) - 1)); [lia|].
    rewrite (index_at (Split key) (["linux"; "interface"] ++ l1 ++ ["vrf"]) vrf rest).
    + by rewrite outcome_bind_ret.
    + rewrite (proj1 Hk), El, <- !app_assoc. done.
    + rewrite !length_app. cbn [length]. lia.
Qed.

Lemma vrf_not_key key : (forall l, derived_parts key l -> "address" ∈ l \/ "vrf" ∉ l) ->
  ParseInterfaceVrfKey key = Ok ("", "", false, false).
Proof.
  intros H. unfold ParseInterfaceVrfKey. destruct (not_derived_spec key) as [->|[l Hk]]; [done|].
  rewrite (derived_key key l Hk), outcome_bind_ret.
  destruct (decide ("address" ∈ l)) as [Ha|Ha].
  - by rewrite (scan_foreign "address" "vrf" key l Hk Ha).
  - destruct (H l Hk) as [|Hv]; [done|].
    by rewrite (scan_absent "address" "vrf" key l (ne2 "address" "linux" "interface" eq_refl) (ne2 "vrf" "linux" "interface" eq_refl) Hk Ha Hv).
Qed.

(** ** Keys by kind *)

Inductive LinuxKey :=
  | LHostName (hostName : string)
  | LHostAddr (hostName address : string)
  | LHostVrf (hostName vrf : string)
  | LState (iface : string) (up : bool)
  | LAddress (iface address : string) (source : Z)
  | LVrf (iface vrf : string).

Inductive LinuxKind := LStateKind | LAddressKind | LVrfKind.

Definition lx_kind (k : LinuxKey) : option LinuxKind :=
  match k with
  | LState _ _ => Some LStateKind | LAddress _ _ _ => Some LAddressKind | LVrf _ _ => Some LVrfKind
  | _ => None
  end.

#[export] Instance LinuxKind_eq : EqDecision LinuxKind.
Proof. solve_decision. Defined.

Definition lx_build (k : LinuxKey) : string :=
  match k with
  | LHostName h => InterfaceHostNameKey h
  | LHostAddr h a => InterfaceHostNameWithAddrKey h a
  | LHostVrf h v => InterfaceHostNameWithVrfKey h v
  | LState i up => InterfaceStateKey i up
  | LAddress i a s => InterfaceAddressKey i a s
  | LVrf i v => InterfaceVrfKey i v
  end.

(** The parser of a kind: what it makes of a key that it takes, and whether it
    reports a part as invalid. *)
Definition lx_parse (kd : LinuxKind) (key : string) : outcome (option (LinuxKey * bool)) :=
  match kd with
  | LStateKind => let '(i, up, ok) := ParseInterfaceStateKey key in
      Ok (if ok : bool then Some (LState i up, false) else None)
  | LAddressKind => r ← ParseInterfaceAddressKey key;
      let '(i, a, s, invalid, ok) := r in Ok (if ok : bool then Some (LAddress i a s, invalid) else None)
  | LVrfKind => r ← ParseInterfaceVrfKey key;
      let '(i, v, invalid, ok) := r in Ok (if ok : bool then Some (LVrf i v, invalid) else None)
  end.

(** What the parser of its own kind makes of a key.  A reference to an allocated
    address is parsed with that source; a state key is taken only if the name of the
    interface has no slash; and of the name of a VRF only the first part is
    returned. *)
Definition lx_answer (k : LinuxKey) : option LinuxKey :=
  match k with
  | LState i up => if length (Split i) =? 1 then Some (LState i up) else None
  | LAddress i a s => Some (LAddress i a (if String.prefix AllocRefPrefix a then IPAddressSource_ALLOC_REF else s))
  | LVrf i v => Some (LVrf i (hd "" (Split v)))
  | _ => None
  end.

Definition lx_name (i : string) : Prop :=
  i <> "" /\ no_brace i /\ nth 0 (Split i) "" <> "state" /\ nth 0 (Split i) "" <> "host-name".

Definition lx_valid (k : LinuxKey) : Prop :=
  match k with
  | LHostName h => True
  | LHostAddr h _ | LHostVrf h _ => no_brace h
  | LState i _ => no_brace i
  | LAddress i a s => lx_name i /\ "vrf" ∉ Split i /\ "vrf" ∉ Split a /\ "address" ∉ Split a /\ a <> ""
      /\ (0 <= s <= 4)%Z
  | LVrf i v => lx_name i /\ "address" ∉ Split i /\ v <> "" /\ "vrf" ∉ Split v /\ "address" ∉ Split v
  end.

(** *** Keys in parts *)

Lemma Split_linux X : Split ("linux/interface/" +:+ X) = "linux" :: "interface" :: Split X.
Proof.
  change ("linux/interface/" +:+ X) with ("linux" +:+ "/" +:+ ("interface" +:+ "/" +:+ X)).
  by rewrite !Split_cons.
Qed.

Lemma lx_or_invalid s : s <> "" -> or_invalid s = s.
Proof. intros H. unfold or_invalid, is_empty. by rewrite (proj2 (String.eqb_neq _ _) H). Qed.

Lemma or_invalid_brace s : no_brace s -> no_brace (or_invalid s).
Proof. unfold or_invalid. by destruct (is_empty s). Qed.

Lemma host_key_parts k : lx_kind k = None -> lx_valid k ->
  exists l, Split (lx_build k) = "linux" :: "interface" :: "host-name" :: l.
Proof.
  assert (forall X, Split (InterfaceHostNameKeyPrefix +:+ X) = "linux" :: "interface" :: "host-name" :: Split X) as H.
  { intros X. change (InterfaceHostNameKeyPrefix +:+ X)
      with ("linux/interface/" +:+ ("host-name" +:+ "/" +:+ X)). by rewrite Split_linux, Split_cons. }
  destruct k as [h|h a|h v| | |]; try done; intros _ Hh; cbn [lx_build lx_valid] in *.
  - by eexists; apply H.
  - pose proof (or_invalid_brace h Hh). unfold InterfaceHostNameWithAddrKey.
    fill "host-name}" InterfaceHostNameKeyPrefix "/address/{address}".
    fill "address}" (InterfaceHostNameKeyPrefix +:+ or_invalid h +:+ "/address/") "". eexists. apply H.
  - pose proof (or_invalid_brace h Hh). unfold InterfaceHostNameWithVrfKey.
    fill "host-name}" InterfaceHostNameKeyPrefix "/vrf-host-name/{vrf-host-name}".
    fill "vrf-host-name}" (InterfaceHostNameKeyPrefix +:+ or_invalid h +:+ "/vrf-host-name/") "". eexists. apply H.
Qed.

Lemma state_key_eq i up : no_brace i ->
  InterfaceStateKey i up = InterfaceStateKeyPrefix +:+ i +:+ "/" +:+ (if up then interfaceUpState else interfaceDownState).
Proof.
  intros Hb. unfold InterfaceStateKey.
  fill "ifName}" InterfaceStateKeyPrefix "/{ifState}".
  fill "ifState}" (InterfaceStateKeyPrefix +:+ i +:+ "/") "". by rewrite append_nil_r.
Qed.

Lemma lx_src_no_brace a s : (0 <= s <= 4)%Z -> no_brace (address_src a s) /\ no_slash (address_src a s)
  /\ IPAddressSource_value (ToUpper (address_src a s))
     = Some (if String.prefix AllocRefPrefix a then IPAddressSource_ALLOC_REF else s)
  /\ address_src a s <> "vrf" /\ address_src a s <> "address".
Proof.
  intros H. unfold address_src. destruct (String.prefix AllocRefPrefix a); [by split_and!|].
  assert (s = 0 \/ s = 1 \/ s = 2 \/ s = 3 \/ s = 4)%Z as Hs by lia.
  by destruct Hs as [->|[->|[->|[->| ->]]]]; split_and!.
Qed.

Lemma lx_name_split i x : lx_name i -> derived_parts ("linux/interface/" +:+ i +:+ "/" +:+ x) (Split i ++ Split x).
Proof.
  intros (Hi & _ & H1 & H2). unfold derived_parts. rewrite Split_linux, Split_sep.
  pose proof (Split_ne i) as Hn. pose proof (Split_ne x) as Hx.
  destruct (Split i) as [|p l1]; [done|]. destruct (Split x) as [|q l2]; [done|].
  split_and!; [done|rewrite length_app; cbn [length]; lia|done|done].
Qed.

Lemma address_key_parts i a s : lx_valid (LAddress i a s) ->
  derived_parts (InterfaceAddressKey i a s) (Split i ++ "address" :: address_src a s :: Split a).
Proof.
  intros (Hn & _ & _ & _ & _ & Hs). destruct (lx_src_no_brace a s Hs) as (Hb & Hsl & _).
  destruct Hn as (Hne & Hib & Hr). unfold InterfaceAddressKey. rewrite lx_or_invalid by done.
  fill "iface}" "linux/interface/" "/address/{address-source}/{address}".
  fill "address-source}" ("linux/interface/" +:+ i +:+ "/address/") "/{address}".
  fill "address}" ("linux/interface/" +:+ i +:+ "/address/" +:+ address_src a s +:+ "/") "".
  rewrite append_nil_r.
  change ("/address/" +:+ ?x) with ("/" +:+ ("address" +:+ "/" +:+ x)).
  assert (Split ("address" +:+ "/" +:+ address_src a s +:+ "/" +:+ a) = "address" :: address_src a s :: Split a) as <-.
  { rewrite Split_cons by done. by rewrite Split_cons. }
  apply lx_name_split. exact (conj Hne (conj Hib Hr)).
Qed.

Lemma vrf_key_parts i v : lx_valid (LVrf i v) -> derived_parts (InterfaceVrfKey i v) (Split i ++ "vrf" :: Split v).
Proof.
  intros (Hn & _ & Hv0 & _). destruct Hn as (Hne & Hib & Hr). unfold InterfaceVrfKey. rewrite !lx_or_invalid by done.
  fill "iface}" "linux/interface/" "/vrf/{vrf}".
  fill "vrf}" ("linux/interface/" +:+ i +:+ "/vrf/") "". rewrite append_nil_r.
  change ("/vrf/" +:+ v) with ("/" +:+ ("vrf" +:+ "/" +:+ v)).
  assert (Split ("vrf" +:+ "/" +:+ v) = "vrf" :: Split v) as <- by by rewrite Split_cons.
  apply lx_name_split. exact (conj Hne (conj Hib Hr)).
Qed.

(** *** What each parser makes of a key *)

Lemma state_key_part key : String.prefix InterfaceStateKeyPrefix key = true -> nth 2 (Split key) "" = "state".
Proof.
  intros [b ->]%prefix_spec. change (InterfaceStateKeyPrefix +:+ b) with ("linux/interface/" +:+ ("state" +:+ "/" +:+ b)).
  by rewrite Split_linux, Split_cons.
Qed.

(** Keys of host names are no keys of derived values, nor are state keys. *)
Lemma other_part key p l : Split key = "linux" :: "interface" :: p :: l -> p = "state" \/ p = "host-name" ->
  forall l', ~ derived_parts key l'.
Proof. intros E Hp l' (E' & _ & H1 & H2). rewrite E in E'. injection E' as <-. cbn [nth] in *. tauto. Qed.

Lemma address_left key : (forall l, ~ derived_parts key l) -> lx_parse LAddressKind key = Ok None.
Proof. intros H. unfold lx_parse. rewrite address_not_key; [done|]. by intros l Hl%H. Qed.
Lemma vrf_left key : (forall l, ~ derived_parts key l) -> lx_parse LVrfKind key = Ok None.
Proof. intros H. unfold lx_parse. rewrite vrf_not_key; [done|]. by intros l Hl%H. Qed.
Lemma state_left key : nth 2 (Split key) "" <> "state" -> lx_parse LStateKind key = Ok None.
Proof.
  intros H. unfold lx_parse, ParseInterfaceStateKey.
  destruct (String.prefix InterfaceStateKeyPrefix key) eqn:E; [|done]. by apply state_key_part in E.
Qed.
Lemma derived_state key l : derived_parts key l -> nth 2 (Split key) "" <> "state".
Proof. intros (-> & _ & H & _). by destruct l. Qed.

Abbreviation answer k := ((fun r => (r, false)) <$> lx_answer k).

Lemma state_own i up : lx_valid (LState i up) ->
  lx_parse LStateKind (InterfaceStateKey i up) = Ok (answer (LState i up)).
Proof.
  cbn [lx_valid]. intros Hb. rewrite state_key_eq by done. unfold lx_parse, ParseInterfaceStateKey.
  rewrite prefix_app, TrimPrefix_app, Split_sep. cbn [lx_answer].
  pose proof (Split_ne i) as Hne. pose proof (Join_Split i) as Hj.
  destruct (Split i) as [|i1 [|i2 rest]]; [done|..].
  - cbn in Hj. subst i1. by destruct up.
  - rewrite (Split_last (if up then interfaceUpState else interfaceDownState)) by by destruct up.
    cbn [app length Nat.eqb]. by destruct rest.
Qed.

Lemma state_key_foreign i up kd : lx_valid (LState i up) -> kd <> LStateKind ->
  lx_parse kd (InterfaceStateKey i up) = Ok None.
Proof.
  cbn [lx_valid]. intros Hb Hk. rewrite state_key_eq by done.
  assert (forall X l, ~ derived_parts (InterfaceStateKeyPrefix +:+ X) l) as H.
  { intros X. eapply (other_part _ "state"); [|by left].
    change (InterfaceStateKeyPrefix +:+ X) with ("linux/interface/" +:+ ("state" +:+ "/" +:+ X)).
    by rewrite Split_linux, Split_cons. }
  destruct kd; [done|by apply address_left|by apply vrf_left].
Qed.

Lemma address_own i a s : lx_valid (LAddress i a s) ->
  lx_parse LAddressKind (InterfaceAddressKey i a s) = Ok (answer (LAddress i a s)).
Proof.
  intros Hv. pose proof (address_key_parts i a s Hv) as Hk.
  destruct Hv as (Hn & Hvi & Hva & Haa & Hne & Hs). destruct (lx_src_no_brace a s Hs) as (_ & _ & Hsrc & N1 & N2).
  unfold lx_parse. rewrite (address_of_parts _ _ (Split i) (address_src a s :: Split a) Hk).
  - rewrite outcome_bind_ret, Hsrc, !Join_Split, lx_or_invalid by apply Hn. unfold is_empty.
    by rewrite (proj2 (String.eqb_neq i "") (proj1 Hn)), (proj2 (String.eqb_neq a "") Hne).
  - rewrite not_elem_of_app, !not_elem_of_cons. split_and!; congruence || done.
  - done.
  - rewrite not_elem_of_cons. split; congruence || done.
Qed.

Lemma vrf_own i v : lx_valid (LVrf i v) -> lx_parse LVrfKind (InterfaceVrfKey i v) = Ok (answer (LVrf i v)).
Proof.
  intros Hv. pose proof (vrf_key_parts i v Hv) as Hk. destruct Hv as (Hn & Ha & _ & V1 & V2).
  unfold lx_parse. rewrite (vrf_of_parts _ _ (Split i) (Split v) Hk).
  - cbn [lx_answer]. pose proof (Split_ne v) as Hne. destruct (Split v) as [|v1 rest]; [done|].
    rewrite outcome_bind_ret, Join_Split, lx_or_invalid by apply Hn. unfold is_empty.
    by rewrite (proj2 (String.eqb_neq i "") (proj1 Hn)).
  - rewrite not_elem_of_app, not_elem_of_cons. by split_and!.
  - done.
  - done.
Qed.

Lemma derived_inj key l l' : derived_parts key l -> derived_parts key l' -> l = l'.
Proof. intros [E _] [E' _]. rewrite E in E'. by injection E'. Qed.

Lemma lx_foreign k kd : lx_valid k -> lx_kind k <> Some kd -> lx_parse kd (lx_build k) = Ok None.
Proof.
  intros Hv Hk. destruct (lx_kind k) as [kd'|] eqn:E.
  2:{ destruct (host_key_parts k E Hv) as [l Hl].
      pose proof (other_part _ _ _ Hl (or_intror eq_refl)).
      destruct kd; [apply state_left; by rewrite Hl|by apply address_left|by apply vrf_left]. }
  destruct k as [| | |i up|i a s|i v]; try done; injection E as <-; cbn [lx_build].
  - apply state_key_foreign; [done|congruence].
  - pose proof (address_key_parts i a s Hv) as Hd.
    destruct kd; [by eapply state_left, derived_state|done|].
    unfold lx_parse. rewrite vrf_not_key; [done|].
    intros l Hl. rewrite (derived_inj _ _ _ Hl Hd). left. apply elem_of_app. right. by left.
  - pose proof (vrf_key_parts i v Hv) as Hd.
    destruct kd; [by eapply state_left, derived_state| |done].
    unfold lx_parse. rewrite address_not_key; [done|].
    intros l Hl. rewrite (derived_inj _ _ _ Hl Hd). left. apply elem_of_app. right. by left.
Qed.

(** C33: The parsers of the keys derived from a Linux interface split the key
    space: a key built for one kind is left by the parsers of the other kinds; keys
    of host names are left by all of them; no parser panics.  The parser of its own
    kind parses a key to what it was built from, with no part reported as invalid
    (an address that is a reference with the source of references) - but for names
    with slashes: a state key of an interface such as GigabitEthernet0/8/0 is not
    taken by its parser, and of the name of a VRF the part before the first slash
    remains.

    It is assumed ([lx_valid]) that names, addresses and VRFs are not empty (but for
    states), that names have no brace (the templates are filled in one after
    another), that the name of an interface does not start with the part "state" or
    "host-name", that the address and its name have no part "vrf", that VRF and its
    name have no part "address", nor the address "address" or the VRF "vrf", and
    that the source is one of the enumeration. *)
Theorem linux_keys_parse (k : LinuxKey) (kd : LinuxKind) : lx_valid k ->
  lx_parse kd (lx_build k)
  = Ok (if decide (lx_kind k = Some kd) then (fun r => (r, false)) <$> lx_answer k else None).
Proof.
  intros Hv. case_decide as Hk; [|by apply lx_foreign].
  destruct k as [| | |i up|i a s|i v]; try done; injection Hk as <-;
    [by apply state_own|by apply address_own|by apply vrf_own].
Qed.

Lemma linux_keys_parse_witness :
  lx_parse LAddressKind "linux/interface/sub/eth0/address/alloc_ref/alloc:net1" =
    Ok (Some (LAddress "sub/eth0" "alloc:net1" 3, false)) /\
  lx_parse LVrfKind "linux/interface/sub/eth0/address/alloc_ref/alloc:net1" = Ok None /\
  lx_parse LStateKind "linux/interface/state/eth0/UP" = Ok (Some (LState "eth0" true, false)) /\
  lx_parse LStateKind "linux/interface/state/GigabitEthernet0/8/0/UP" = Ok None /\
  lx_parse LVrfKind "linux/interface/eth0/vrf/blue/1" = Ok (Some (LVrf "eth0" "blue", false)).
Proof.
  assert (lx_valid (LAddress "sub/eth0" "alloc:net1" 1)) as Ha.
  { split; [by split_and!|]. split; [apply (bool_decide_unpack _); by vm_compute|].
    split; [apply (bool_decide_unpack _); by vm_compute|].
    split; [apply (bool_decide_unpack _); by vm_compute|]. split; [done|lia]. }
  assert (lx_valid (LVrf "eth0" "blue/1")) as Hv.
  { split; [by split_and!|]. split; [apply (bool_decide_unpack _); by vm_compute|]. split; [done|].
    split; apply (bool_decide_unpack _); by vm_compute. }
  split; [exact (linux_keys_parse (LAddress "sub/eth0" "alloc:net1" 1) LAddressKind Ha)|].
  split; [exact (linux_keys_parse (LAddress "sub/eth0" "alloc:net1" 1) LVrfKind Ha)|].
  split; [exact (linux_keys_parse (LState "eth0" true) LStateKind eq_refl)|].
  split; [exact (linux_keys_parse (LState "GigabitEthernet0/8/0" true) LStateKind eq_refl)|].
  exact (linux_keys_parse (LVrf "eth0" "blue/1") LVrfKind Hv).
Defined.

(** ** When the parsers panic *)

(** A key whose last part is the word "address", of no other kind. *)
Definition address_cut (key : string) : Prop :=
  exists l, derived_parts key (l ++ ["address"]) /\ "vrf" ∉ l.

(** C28: On every key the parsers of states and VRFs return; the parser of
    addresses returns too, except for a key of the form
    [linux/interface/<name>/address], without a part "vrf", on which it panics:
    it reads the part after "address" before it checks that there is one. *)
Theorem linux_parsers_panic (key : string) :
  (exists r, lx_parse LStateKind key = Ok r) /\ (exists r, lx_parse LVrfKind key = Ok r)
  /\ (address_cut key -> lx_parse LAddressKind key = Panic "index out of range")
  /\ (~ address_cut key -> exists r, lx_parse LAddressKind key = Ok r).
Proof.
  split_and!.
  - unfold lx_parse. destruct (ParseInterfaceStateKey key) as [[i up] []]; by eexists.
  - unfold lx_parse. destruct (not_derived_spec key) as [E|[l Hk]].
    + unfold ParseInterfaceVrfKey. rewrite E. by eexists.
    + destruct (decide ("address" ∈ l)) as [Ha|Ha]; [|destruct (decide ("vrf" ∈ l)) as [Hv|Hv]].
      * rewrite vrf_not_key; [by eexists|]. intros l' Hl'. rewrite (derived_inj _ _ _ Hl' Hk). by left.
      * destruct (last_split "vrf" l Hv) as (l1 & l2 & El & Hl2).
        rewrite (vrf_of_parts key l l1 l2 Hk Ha El Hl2). destruct l2; by eexists.
      * rewrite vrf_not_key; [by eexists|]. intros l' Hl'. rewrite (derived_inj _ _ _ Hl' Hk). by right.
  - intros (l & Hk & Hv). unfold lx_parse. rewrite (address_of_parts key _ l [] Hk); [done| |done|apply not_elem_of_nil].
    rewrite not_elem_of_app, list_elem_of_singleton. by split.
  - intros Hc. unfold lx_parse. destruct (not_derived_spec key) as [E|[l Hk]].
    + unfold ParseInterfaceAddressKey. rewrite E. by eexists.
    + destruct (decide ("vrf" ∈ l)) as [Hv|Hv]; [|destruct (decide ("address" ∈ l)) as [Ha|Ha]].
      * rewrite address_not_key; [by eexists|]. intros l' Hl'. rewrite (derived_inj _ _ _ Hl' Hk). by left.
      * destruct (last_split "address" l Ha) as (l1 & l2 & El & Hl2).
        rewrite (address_of_parts key l l1 l2 Hk Hv El Hl2). destruct l2 as [|src rest].
        { destruct Hc. exists l1. rewrite <- El. split; [done|]. rewrite El in Hv. by apply not_elem_of_app in Hv as [? _]. }
        destruct (IPAddressSource_value (ToUpper src)); by eexists.
      * rewrite address_not_key; [by eexists|]. intros l' Hl'. rewrite (derived_inj _ _ _ Hl' Hk). by right.
Qed.

Lemma linux_parsers_panic_witness :
  lx_parse LAddressKind "linux/interface/sub/eth0/address" = Panic "index out of range".
Proof.
  apply (linux_parsers_panic "linux/interface/sub/eth0/address").
  exists ["sub"; "eth0"]. split; apply (bool_decide_unpack _); by vm_compute.
Defined.
