(* ===== verification/GoRegexp.v ===== *)
(** * Regular expressions

    The part of the package regexp that the model specifications use: anchored
    expressions of classes, sequences, options and repetitions.  [matches] runs
    them by derivatives; [lang] is what they mean. *)
From S2P Require Import Prelude GoStrings.

Inductive regexp :=
  | RNone
  | REmpty
  | RChar (class : Ascii.ascii -> bool)
  | RSeq (r1 r2 : regexp)
  | RAlt (r1 r2 : regexp)
  | RStar (r : regexp).

Definition RPlus (r : regexp) : regexp := RSeq r (RStar r).
Definition ROpt (r : regexp) : regexp := RAlt r REmpty.

Fixpoint nullable (r : regexp) : bool :=
  match r with
  | RNone | RChar _ => false
  | REmpty | RStar _ => true
  | RSeq r1 r2 => nullable r1 && nullable r2
  | RAlt r1 r2 => nullable r1 || nullable r2
  end.

Fixpoint deriv (c : Ascii.ascii) (r : regexp) : regexp :=
  match r with
  | RNone | REmpty => RNone
  | RChar class => if class c then REmpty else RNone
  | RSeq r1 r2 =>
      let left := RSeq (deriv c r1) r2 in
      if nullable r1 then RAlt left (deriv c r2) else left
  | RAlt r1 r2 => RAlt (deriv c r1) (deriv c r2)
  | RStar r => RSeq (deriv c r) (RStar r)
  end.

(** [MatchString] of an expression anchored at both ends. *)
Fixpoint matches (r : regexp) (s : string) : bool :=
  match s with "" => nullable r | String c s => matches (deriv c r) s end.

(** ** What an expression means *)

Inductive lang : regexp -> string -> Prop :=
  | lang_empty : lang REmpty ""
  | lang_char class c : class c = true -> lang (RChar class) (String c "")
  | lang_seq r1 r2 s1 s2 : lang r1 s1 -> lang r2 s2 -> lang (RSeq r1 r2) (s1 +:+ s2)
  | lang_left r1 r2 s : lang r1 s -> lang (RAlt r1 r2) s
  | lang_right r1 r2 s : lang r2 s -> lang (RAlt r1 r2) s
  | lang_stop r : lang (RStar r) ""
  | lang_step r s1 s2 : lang r s1 -> lang (RStar r) s2 -> lang (RStar r) (s1 +:+ s2).

Lemma nullable_lang r : nullable r = true -> lang r "".
Proof.
  induction r; simpl; try done; try by constructor.
  - intros [H1 H2]%andb_true_iff. apply (lang_seq _ _ "" ""); auto.
  - intros [H|H]%orb_true_iff; [apply lang_left|apply lang_right]; auto.
Qed.

Lemma deriv_lang r : forall c s, lang (deriv c r) s -> lang r (String c s).
Proof.
  induction r as [| |class|r1 IH1 r2 IH2|r1 IH1 r2 IH2|r IH]; intros c s; simpl; try by inversion 1.
  - destruct (class c) eqn:E; inversion 1; subst. by constructor.
  - assert (forall t, lang (RSeq (deriv c r1) r2) t -> lang (RSeq r1 r2) (String c t)) as Hleft.
    { intros t H. inversion H; subst. apply (lang_seq _ _ (String c s1) s2); auto. }
    destruct (nullable r1) eqn:E; [|apply Hleft].
    inversion 1; subst; [by apply Hleft|]. apply (lang_seq _ _ "" (String c s)); auto using nullable_lang.
  - inversion 1; subst; [apply lang_left|apply lang_right]; auto.
  - inversion 1; subst. apply (lang_step _ (String c s1) s2); auto.
Qed.

Lemma matches_lang s : forall r, matches r s = true -> lang r s.
Proof.
  induction s as [|c s IH]; intros r; simpl; [apply nullable_lang|].
  intros H. by apply deriv_lang, IH.
Qed.

(** ** Classes *)

Fixpoint all_chars (f : Ascii.ascii -> bool) (s : string) : bool :=
  match s with "" => true | String c s => f c && all_chars f s end.

Lemma all_chars_app f a b : all_chars f (a +:+ b) = all_chars f a && all_chars f b.
Proof.
  induction a as [|c a IH]; [done|]. change (String c a +:+ b) with (String c (a +:+ b)).
  cbn [all_chars]. by rewrite IH, andb_assoc.
Qed.

Lemma star_class f s : lang (RStar (RChar f)) s -> all_chars f s = true.
Proof.
  remember (RStar (RChar f)) as r eqn:Hr. induction 1; try done; simplify_eq.
  rewrite all_chars_app. apply andb_true_iff. split; [|by apply IHlang2].
  inversion H; subst. cbn [all_chars]. by rewrite H2.
Qed.

Lemma plus_class f s : lang (RPlus (RChar f)) s -> all_chars f s = true /\ s <> "".
Proof.
  inversion 1 as [| |? ? s1 s2 H1 H2| | | |]; subst. inversion H1 as [|? c Hc| | | | |]; subst.
  apply star_class in H2. split; [|done].
  change (String c "" +:+ s2) with (String c s2). cbn [all_chars]. by rewrite Hc.
Qed.

Lemma all_chars_no_char f c s : f c = false -> all_chars f s = true -> no_char c s = true.
Proof.
  intros Hc. induction s as [|a s IH]; simpl; [done|]. intros [Ha Hs]%andb_true_iff.
  rewrite IH by done. rewrite andb_true_r. apply negb_true_iff. apply Ascii.eqb_neq. by intros ->; congruence.
Qed.

Lemma all_chars_mono (f g : Ascii.ascii -> bool) s :
  (forall c, f c = true -> g c = true) -> all_chars f s = true -> all_chars g s = true.
Proof.
  intros H. induction s as [|a s IH]; simpl; [done|]. intros [Ha Hs]%andb_true_iff.
  by rewrite H, IH.
Qed.
