(* ===== verification/Models.v ===== *)
(** * Models of configuration values

    [pkg/models]: specifications of models, their names and key prefixes, the
    known models, the registry, keys of values and items, and the name functions
    that Go templates give.  Messages are values of a type [V] with the full name
    of their descriptor; GetName of generated messages is a parameter. *)
From S2P Require Import Prelude GoStrings GoNet GoNetText GoTemplate GoRegexp.

(** ** Regular expressions of specifications (spec.go) *)

Definition in_range (lo hi : nat) (c : Ascii.ascii) : bool :=
  let n := Ascii.nat_of_ascii c in (lo <=? n) && (n <=? hi).
Definition is_digit (c : Ascii.ascii) : bool := in_range 48 57 c.
Definition is_lower (c : Ascii.ascii) : bool := in_range 97 122 c.
Definition hyphen : Ascii.ascii := Ascii.ascii_of_nat 45.
Definition underscore : Ascii.ascii := Ascii.ascii_of_nat 95.
Definition dot : Ascii.ascii := Ascii.ascii_of_nat 46.

(** [[-a-z0-9]] and [[-a-z0-9_]]. *)
Definition ident_char (c : Ascii.ascii) : bool := Ascii.eqb c hyphen || is_lower c || is_digit c.
Definition word_char (c : Ascii.ascii) : bool := ident_char c || Ascii.eqb c underscore.

Definition word : regexp := RPlus (RChar word_char).
Definition validModule : regexp := RSeq word (ROpt (RSeq (RChar (Ascii.eqb dot)) word)).
Definition validVersion : regexp :=
  RSeq (RChar (Ascii.eqb (Ascii.ascii_of_nat 118))) (RSeq (RPlus (RChar is_digit)) (ROpt (RPlus (RChar ident_char)))).
Definition validType : regexp := RSeq word (ROpt (RSeq (RChar (Ascii.eqb dot)) word)).
Definition validClass : regexp := word.

(** ** Specifications *)

Record Spec := { spec_Module : string; spec_Version : string; spec_Type : string; spec_Class : string }.

#[export] Instance Spec_eq : EqDecision Spec.
Proof. solve_decision. Defined.

(** [generic.ModelSpec], generated from the protobuf definition: same fields. *)
Record ModelSpec := { ms_Class : string; ms_Module : string; ms_Type : string; ms_Version : string }.

Definition ToSpec (s : ModelSpec) : Spec :=
  {| spec_Module := ms_Module s; spec_Version := ms_Version s; spec_Type := ms_Type s; spec_Class := ms_Class s |}.
Definition Proto (spec : Spec) : ModelSpec :=
  {| ms_Module := spec_Module spec; ms_Version := spec_Version spec; ms_Type := spec_Type spec;
     ms_Class := spec_Class spec |}.

Definition dots_to_path (s : string) : string := replace_char dot slash s.

Definition KeyPrefix (spec : Spec) : string :=
  let modulePath := dots_to_path (spec_Module spec) in
  let typePath := dots_to_path (spec_Type spec) in
  spec_Class spec +:+ "/" +:+ modulePath +:+ "/" +:+ spec_Version spec +:+ "/" +:+ typePath +:+ "/".

Definition ModelName (spec : Spec) : string := spec_Module spec +:+ "." +:+ spec_Type spec.

Inductive SpecError := InvalidModule | InvalidVersion | InvalidType | InvalidClass.

Definition Validate (spec : Spec) : option SpecError :=
  if negb (matches validModule (spec_Module spec)) then Some InvalidModule
  else if negb (matches validVersion (spec_Version spec)) then Some InvalidVersion
  else if negb (matches validType (spec_Type spec)) then Some InvalidType
  else if negb (matches validClass (spec_Class spec)) then Some InvalidClass
  else None.

Definition Normalize (spec : Spec) : Spec :=
  {| spec_Module := spec_Module spec;
     spec_Version := if is_empty (spec_Version spec) then "v0" else spec_Version spec;
     spec_Type := spec_Type spec;
     spec_Class := if is_empty (spec_Class spec) then "config" else spec_Class spec |}.

(** ** [path.Join] *)

(** One element of a cleaned path: [out] is reversed. *)
Definition clean_step (rooted : bool) (out : list string) (e : string) : list string :=
  if is_empty e || String.eqb e "." then out
  else if String.eqb e ".." then
    match out with
    | p :: out' => if String.eqb p ".." then e :: out else out'
    | [] => if rooted then [] else [e]
    end
  else e :: out.

Definition path_Clean (p : string) : string :=
  if is_empty p then "."
  else
    let rooted := String.prefix "/" p in
    let out := rev (fold_left (clean_step rooted) (Split p) []) in
    if rooted then "/" +:+ Join out else match out with [] => "." | _ => Join out end.

(** [path.Join] of two elements. *)
Definition path_Join (a b : string) : string :=
  if is_empty a && is_empty b then ""
  else path_Clean (if is_empty a then b else if is_empty b then a else a +:+ "/" +:+ b).

(** ** Known models (model.go, models.go) *)

Definition keyPrefix (modelSpec : Spec) (hasTemplateName : bool) : string :=
  let prefix := KeyPrefix modelSpec in
  if hasTemplateName then prefix else TrimSuffix prefix "/".

Section models.
Context {V : Type}.

(** What the registry uses of a message. *)
Class Message := {
  FullName : V -> string;
  (* the Go type, [None] for dynamic messages *)
  GoType : V -> option string;
  (* GetName of messages that have it *)
  GetName : V -> option (V -> string + string);
}.
Context `{Message}.

(** Results of name functions: a name, or an error. *)
Definition NameFunc : Type := V -> string + string.

Record modelOptions := { nameTemplate : string; nameFunc : option NameFunc }.

Record knownModel := {
  km_options : modelOptions;
  km_spec : Spec;
  km_pb : string;             (* full name of the message *)
  km_goType : option string;
}.

Definition hasName (m : knownModel) : bool :=
  match nameFunc (km_options m) with Some _ => true | None => false end.
Definition Name (m : knownModel) : string := ModelName (km_spec m).
Definition km_KeyPrefix (m : knownModel) : string := keyPrefix (km_spec m) (hasName m).

Definition ParseKey (m : knownModel) (key : string) : string * bool :=
  let name := TrimPrefix key (km_KeyPrefix m) in
  let name := if String.eqb name key || (is_empty name && hasName m) then TrimPrefix key (Name m) else name in
  if negb (String.eqb name key) && (negb (is_empty name) || negb (hasName m)) then (name, true) else ("", false).

Definition IsKeyValid (m : knownModel) (key : string) : bool := (ParseKey m key).2.
Definition StripKeyPrefix (m : knownModel) (key : string) : string :=
  let '(name, valid) := ParseKey m key in if valid then name else key.
Definition InstanceName (m : knownModel) (x : V) : string + string :=
  match nameFunc (km_options m) with None => inl "" | Some f => f x end.

Record ModelDetail := { md_Spec : ModelSpec; md_ProtoName : string; md_nameTemplate : string }.
Definition km_ModelDetail (m : knownModel) : ModelDetail :=
  {| md_Spec := Proto (km_spec m); md_ProtoName := km_pb m; md_nameTemplate := nameTemplate (km_options m) |}.

(** ** Registry (registry.go) *)

Record registry := {
  modelsByGoType : gmap string knownModel;
  modelsByProtoName : gmap string knownModel;
  modelsByName : gmap string knownModel;
}.
Definition NewRegistry : registry := {| modelsByGoType := ∅; modelsByProtoName := ∅; modelsByName := ∅ |}.

Inductive ModelError :=
  | NotProtoMessage
  | InvalidSpec (protoName : string) (e : SpecError)
  | ProtoNameUsed (protoName name : string)
  | ModelNameUsed (modelName name : string)
  | GoTypeUsed (goType name : string)
  | NoModelForName (name : string)
  | NoModelForMessage (protoName : string)
  | NoModelForKey (key : string)
  | NoInstanceName (e : string)
  | NilItemId.

Definition GetModel (r : registry) (name : string) : knownModel + ModelError :=
  match modelsByName r !! name with Some m => inl m | None => inr (NoModelForName name) end.

(** [x] is a message, or [None] when it is not one. *)
Definition GetModelFor (r : registry) (x : option V) : knownModel + ModelError :=
  match x with
  | None => inr NotProtoMessage
  | Some x =>
      match modelsByProtoName r !! FullName x with
      | Some m => inl m
      | None => inr (NoModelForMessage (FullName x))
      end
  end.

(** [order]: the models in the order in which the map is iterated. *)
Definition GetModelForKey (order : list knownModel) (key : string) : knownModel + ModelError :=
  match list_find (fun m => Is_true (IsKeyValid m key)) order with
  | Some (_, m) => inl m
  | None => inr (NoModelForKey key)
  end.
Definition RegisteredModels (order : list knownModel) : list knownModel := order.

Definition defaultOptions (x : V) : modelOptions :=
  match GetName x with
  | Some f => {| nameTemplate := "{{.Name}}"; nameFunc := Some f |}
  | None => {| nameTemplate := ""; nameFunc := None |}
  end.

(** The registry and the model or error returned.  The models of the maps are
    shared, so the Go type set last shows in all of them. *)
Definition Register (r : registry) (x : option V) (spec : Spec) (opts : list (modelOptions -> modelOptions)) :
    registry * (knownModel + ModelError) :=
  match x with
  | None => (r, inr NotProtoMessage)
  | Some x =>
      let protoName := FullName x in
      let s := Normalize spec in
      match Validate s with
      | Some e => (r, inr (InvalidSpec protoName e))
      | None =>
          match modelsByProtoName r !! protoName with
          | Some model => (r, inr (ProtoNameUsed protoName (Name model)))
          | None =>
              match modelsByName r !! ModelName s with
              | Some model => (r, inr (ModelNameUsed (ModelName spec) (Name model)))
              | None =>
                  let options := fold_left (fun o opt => opt o) opts (defaultOptions x) in
                  let mk goType := {| km_options := options; km_spec := s; km_pb := protoName; km_goType := goType |} in
                  let put model byGoType := {|
                    modelsByGoType := byGoType;
                    modelsByProtoName := <[protoName := model]> (modelsByProtoName r);
                    modelsByName := <[Name model := model]> (modelsByName r) |} in
                  match GoType x with
                  | None => (put (mk None) (modelsByGoType r), inl (mk None))
                  | Some goType =>
                      match modelsByGoType r !! goType with
                      | Some m => (put (mk None) (modelsByGoType r), inr (GoTypeUsed goType (Name m)))
                      | None =>
                          let model := mk (Some goType) in
                          (put model (<[goType := model]> (modelsByGoType r)), inl model)
                      end
                  end
              end
          end
      end
  end.

(** ** Keys and items (models.go, item.go) *)

Definition GetKeyUsingModelRegistry (r : registry) (x : option V) : string + ModelError :=
  match GetModelFor r x, x with
  | inl model, Some v =>
      match InstanceName model v with
      | inl name => inl (path_Join (km_KeyPrefix model) name)
      | inr e => inr (NoInstanceName e)
      end
  | inr e, _ => inr e
  | _, None => inr NotProtoMessage
  end.

Definition GetName_of (r : registry) (x : option V) : string + ModelError :=
  match GetModelFor r x, x with
  | inl model, Some v =>
      match InstanceName model v with inl name => inl name | inr e => inr (NoInstanceName e) end
  | inr e, _ => inr e
  | _, None => inr NotProtoMessage
  end.

(** An item: its identifier ([None] when nil) and its data, the message. *)
Record ItemID := { id_Model : string; id_Name : string }.
Record Item := { item_Id : option ItemID; item_TypeUrl : string; item_Data : V }.

Definition ligatoModels : string := "models.ligato.io/".

Definition MarshalItemUsingModelRegistry (r : registry) (pb : V) : Item + ModelError :=
  match GetModelFor r (Some pb) with
  | inr e => inr e
  | inl model =>
      match InstanceName model pb with
      | inr e => inr (NoInstanceName e)
      | inl name => inl {| item_Id := Some {| id_Model := Name model; id_Name := name |};
                           item_TypeUrl := ligatoModels +:+ FullName pb; item_Data := pb |}
      end
  end.

Definition GetModelFromModelRegistryForItem (r : registry) (item : Item) : knownModel + ModelError :=
  match item_Id item with None => inr NilItemId | Some id => GetModel r (id_Model id) end.

Definition GetKeyForItemUsingModelRegistry (r : registry) (item : Item) : string + ModelError :=
  match GetModelFromModelRegistryForItem r item with
  | inr e => inr e
  | inl model =>
      inl (path_Join (km_KeyPrefix model) (match item_Id item with Some id => id_Name id | None => "" end))
  end.
End models.

Arguments knownModel : clear implicits.
Arguments registry : clear implicits.
Arguments modelOptions : clear implicits.
Arguments Message : clear implicits.
Arguments Item : clear implicits.

(** ** Names from templates (options.go)

    The functions of name templates and the name function that a template gives.
    Messages are generated ones, which templates see as objects; dynamic messages
    are left out. *)

(** An object that has the given fields. *)
Definition obj (fields : list (string * tval)) : tval :=
  TObj (fun name => snd <$> (snd <$> list_find (fun f => f.1 = name) fields)).

Definition tmpl_ip (s : string) : string :=
  let ip := ParseIP s in
  if length ip =? 0 then "<invalid>" else ip_String ip.

Definition tmpl_protoip (s : string) : string :=
  let ip := ParseIP s in
  if length ip =? 0 then "<invalid>" else if length (To4 ip) =? 0 then "IPv6" else "IPv4".

Definition tmpl_ipnet (s : string) : tval :=
  if String.prefix "alloc:" s then TNil
  else match ParseCIDR s with
  | None => obj [("IP", TStr "<invalid>"); ("MaskSize", TInt 0); ("AllocRef", TStr "")]
  | Some (_, ipNet) =>
      obj [("IP", TStr (ip_String (IP ipNet))); ("MaskSize", TInt (Mask_Size (Mask ipNet)).1); ("AllocRef", TStr "")]
  end.

Definition on_string (f : string -> tval) (args : list tval) : option tval :=
  match args with [TStr s] => Some (f s) | _ => None end.

(** The function [field], which no template uses, is left out. *)
Definition funcMap (name : string) : option (list tval -> option tval) :=
  if String.eqb name "ip" then Some (on_string (fun s => TStr (tmpl_ip s)))
  else if String.eqb name "protoip" then Some (on_string (fun s => TStr (tmpl_protoip s)))
  else if String.eqb name "ipnet" then Some (on_string tmpl_ipnet)
  else None.

(** ** Name functions *)

(** [view]: a message as templates see it.  [template.Must] panics on a text that
    is no template; here such a template gives no name ([templates_parse]). *)
Definition NameTemplate {V} (view : V -> tval) (t : string) : NameFunc (V := V) := fun x =>
  match GoTemplate.Parse t ≫= Execute funcMap (view x) with
  | Some name => inl name
  | None => inr "template: error in the execution"
  end.

Definition show_name (t : string) (fields : list (string * tval)) : option string :=
  match NameTemplate obj t fields with inl name => Some name | inr _ => None end.

Example names :
  show_name "{{ protoip .A}}/rx-vrf/{{.B}}" [("A", TStr "fd00::1"); ("B", TInt 7)] = Some "IPv6/rx-vrf/7"
  /\ show_name "{{if and .A (ne .B .A)}}-{{.A}}{{end}}" [("A", TStr "x"); ("B", TStr "y")] = Some "-x"
  /\ show_name "{{if and .A (ne .B .A)}}-{{.A}}{{end}}" [("A", TStr "x"); ("B", TStr "x")] = Some ""
  /\ show_name "{{.C}}" [("A", TStr "x")] = None
  /\ map (fun s => show_name "{{with ipnet .A}}{{.IP}}+{{.MaskSize}}{{else}}{{.A}}{{end}}" [("A", TStr s)])
       ["10.1.2.3/16"; "fd00::1:2/112"; "alloc:net1"; "10.0.0.1"]
     = [Some "10.1.0.0+16"; Some "fd00::1:0+112"; Some "alloc:net1"; Some "<invalid>+0"].
Proof. vm_compute. done. Qed.
