(* ===== verification/ModelFacts.v ===== *)
(** * Facts about models: keys are parsed back, the registry stays well formed *)
From S2P Require Import Prelude GoStrings GoRegexp Models.

(** ** Words of specifications *)

Definition good_word (p : string) : Prop := p <> "" /\ all_chars word_char p = true.

Lemma good_word_no_slash p : good_word p -> no_slash p.
Proof. intros [_ H]. by apply (all_chars_no_char word_char). Qed.
Lemma good_word_no_dot p : good_word p -> no_char dot p = true.
Proof. intros [_ H]. by apply (all_chars_no_char word_char). Qed.

Lemma replace_char_app a b s t : replace_char a b (s +:+ t) = replace_char a b s +:+ replace_char a b t.
Proof.
  induction s as [|c s IH]; [done|]. change (String c s +:+ t) with (String c (s +:+ t)).
  cbn [replace_char]. by rewrite IH.
Qed.
Lemma replace_char_none a b s : no_char a s = true -> replace_char a b s = s.
Proof.
  induction s as [|c s IH]; [done|]. cbn [no_char replace_char]. intros [Hc Hs]%andb_true_iff.
  apply negb_true_iff in Hc. by rewrite Hc, IH.
Qed.

Lemma word_lang s : lang word s -> good_word s.
Proof. intros [H1 H2]%plus_class. done. Qed.

Lemma ident_word c : ident_char c = true -> word_char c = true.
Proof. unfold word_char. by intros ->. Qed.

(** One word, or two words and a dot between them. *)
Lemma module_lang s : lang validModule s ->
  exists ps, Split (dots_to_path s) = ps /\ Forall good_word ps /\ exists a b, s = a +:+ b /\ good_word a
    /\ (b = "" \/ exists b', b = "." +:+ b').
Proof.
  intros Hl. inversion Hl as [| |? ? a b Ha Hb| | | |]; subst. apply word_lang in Ha as Hwa.
  pose proof (good_word_no_dot a Hwa) as Hda. unfold dots_to_path. rewrite replace_char_app, (replace_char_none _ _ a Hda).
  eexists; split; [done|]. inversion Hb as [| | |? ? ? Hc|? ? ? Hc| |]; subst.
  - inversion Hc as [| |? ? d w Hd Hw| | | |]; subst. inversion Hd as [|? x Hx| | | | |]; subst.
    apply Ascii.eqb_eq in Hx as <-. apply word_lang in Hw as Hww.
    rewrite replace_char_app, (replace_char_none _ _ w) by by apply good_word_no_dot.
    change (replace_char dot slash (String dot "")) with "/".
    split.
    + rewrite Split_cons by by apply good_word_no_slash. rewrite Split_last by by apply good_word_no_slash. auto.
    + exists a, (String dot "" +:+ w). split; [done|]. split; [done|]. right. by exists w.
  - inversion Hc; subst. cbn [replace_char]. rewrite append_nil_r. split.
    + rewrite Split_last by by apply good_word_no_slash. auto.
    + exists a, "". rewrite append_nil_r. auto.
Qed.

Lemma version_lang s : lang validVersion s -> good_word s.
Proof.
  assert (forall c, is_digit c = true -> word_char c = true) as Hd.
  { intros c H. unfold word_char, ident_char. rewrite H. by rewrite !orb_true_r. }
  intros Hl. inversion Hl as [| |? ? v t Hv Ht| | | |]; subst. inversion Hv as [|? x Hx| | | | |]; subst.
  inversion Ht as [| |? ? d e Hdig He| | | |]; subst. apply plus_class in Hdig as [Hdig _].
  apply Ascii.eqb_eq in Hx as <-. split; [done|].
  assert (all_chars word_char e = true) as Hae.
  { inversion He as [| | |? ? ? Hc|? ? ? Hc| |]; subst; [|by inversion Hc].
    apply plus_class in Hc as [Hc _]. by apply (all_chars_mono _ _ _ ident_word). }
  rewrite !all_chars_app, Hae, (all_chars_mono _ _ _ Hd Hdig). done.
Qed.

(** ** Key prefixes *)

Definition valid_spec (s : Spec) : Prop := Validate s = None.

Lemma Validate_lang s : valid_spec s ->
  lang validModule (spec_Module s) /\ lang validVersion (spec_Version s) /\ lang validType (spec_Type s)
  /\ lang validClass (spec_Class s).
Proof.
  unfold valid_spec, Validate.
  destruct (matches validModule _) eqn:E1; [|done]. destruct (matches validVersion _) eqn:E2; [|done].
  destruct (matches validType _) eqn:E3; [|done]. destruct (matches validClass _) eqn:E4; [|done].
  intros _. auto using matches_lang.
Qed.

(** The components of the prefix. *)
Definition path_of (s : Spec) : list string :=
  [spec_Class s] ++ Split (dots_to_path (spec_Module s)) ++ [spec_Version s] ++ Split (dots_to_path (spec_Type s)).

Lemma path_of_words s : valid_spec s -> Forall good_word (path_of s).
Proof.
  intros (Hm & Hv & Ht & Hc)%Validate_lang. apply version_lang in Hv. apply word_lang in Hc.
  destruct (module_lang _ Hm) as (? & <- & Hm' & _). destruct (module_lang _ Ht) as (? & <- & Ht' & _).
  unfold path_of. rewrite !Forall_app, !Forall_singleton. auto.
Qed.

(** The prefix without its final slash. *)
Definition path_str (s : Spec) : string :=
  spec_Class s +:+ "/" +:+ dots_to_path (spec_Module s) +:+ "/" +:+ spec_Version s +:+ "/" +:+ dots_to_path (spec_Type s).

Lemma KeyPrefix_eq s : KeyPrefix s = path_str s +:+ "/".
Proof. unfold KeyPrefix, path_str. by rewrite !append_assoc. Qed.

Lemma KeyPrefix_ne s : KeyPrefix s <> "".
Proof.
  rewrite KeyPrefix_eq. intros E. apply (f_equal String.length) in E. rewrite append_length in E. simpl in E. lia.
Qed.

Lemma path_str_ne s : path_str s <> "".
Proof.
  unfold path_str. intros E. apply (f_equal String.length) in E. rewrite !append_length in E.
  change (String.length "/") with 1 in E. simpl in E. lia.
Qed.

Lemma Split_path_str s : valid_spec s -> Split (path_str s) = path_of s.
Proof.
  intros (_ & Hv & _ & Hc)%Validate_lang. apply version_lang, good_word_no_slash in Hv.
  apply word_lang, good_word_no_slash in Hc. unfold path_str, path_of.
  by rewrite (Split_cons (spec_Class s)), Split_sep, (Split_cons (spec_Version s)).
Qed.

Lemma path_of_ne s : path_of s <> [].
Proof. done. Qed.

(** ** Clean paths *)

(** An element that [path.Clean] keeps. *)
Definition kept (e : string) : Prop := e <> "" /\ e <> "." /\ e <> "..".

Lemma good_word_kept p : good_word p -> kept p.
Proof. intros [H1 H2]. repeat split; [done|by intros ->..]. Qed.

Lemma clean_steps rooted es : Forall (fun e => e = "" \/ kept e) es -> forall out,
  fold_left (clean_step rooted) es out = rev (filter (fun e => e <> "") es) ++ out.
Proof.
  induction 1 as [|e es He Hes IH]; intros out; [done|]. cbn [fold_left]. rewrite IH.
  destruct He as [->|(H1 & H2 & H3)].
  - by rewrite filter_cons_False by (by intros []).
  - rewrite filter_cons_True by done. cbn [rev]. rewrite <- app_assoc. unfold clean_step, is_empty.
    by rewrite (proj2 (String.eqb_neq e "")), (proj2 (String.eqb_neq e ".")), (proj2 (String.eqb_neq e ".."))
      by done.
Qed.

Lemma path_Clean_eq p e es : Split p = e :: es -> e <> "" -> Forall (fun e => e = "" \/ kept e) (e :: es) ->
  path_Clean p = Join (filter (fun e => e <> "") (e :: es)).
Proof.
  intros Hs He Hf. unfold path_Clean.
  assert (is_empty p = false) as ->.
  { unfold is_empty. apply String.eqb_neq. by intros ->; injection Hs as <- _. }
  assert (String.prefix "/" p = false) as ->.
  { destruct (String.prefix "/" p) eqn:E; [|done]. apply prefix_spec in E as [b ->].
    change ("/" +:+ b) with ("" +:+ "/" +:+ b) in Hs. rewrite Split_cons in Hs by done. by injection Hs as <- _. }
  rewrite Hs, clean_steps by done. rewrite app_nil_r, rev_involutive.
  rewrite filter_cons_True by done. done.
Qed.

Lemma filter_kept l : Forall kept l -> filter (fun e => e <> "") l = l.
Proof.
  induction 1 as [|e l [H _] Hl IH]; [done|]. by rewrite filter_cons_True, IH.
Qed.

(** A name without the empty elements: what remains of it in a key. *)
Definition tidy (name : string) : string := Join (filter (fun e => e <> "") (Split name)).

(** A name without the elements "." and "..", and not of slashes only. *)
Definition clean_name (name : string) : Prop :=
  Forall (fun e => e = "" \/ kept e) (Split name) /\ tidy name <> "".

Lemma tidy_kept name : Forall kept (Split name) -> tidy name = name.
Proof. intros H. unfold tidy. by rewrite filter_kept, Join_Split. Qed.

Lemma Join_app l1 l2 : l1 <> [] -> l2 <> [] -> Join (l1 ++ l2) = Join l1 +:+ "/" +:+ Join l2.
Proof.
  intros H1 H2. induction l1 as [|x l1 IH]; [done|]. destruct l1 as [|y l1].
  - change ([x] ++ l2) with (x :: l2). by rewrite Join_cons.
  - change ((x :: y :: l1) ++ l2) with (x :: (y :: l1) ++ l2).
    rewrite (Join_cons x ((y :: l1) ++ l2)), (Join_cons x (y :: l1)), IH by done. by rewrite !append_assoc.
Qed.

Lemma Split_KeyPrefix s : valid_spec s -> Split (KeyPrefix s) = path_of s ++ [""].
Proof.
  intros Hs. rewrite KeyPrefix_eq. change "/" with ("/" +:+ "") at 1. by rewrite Split_sep, Split_path_str.
Qed.

Lemma path_of_kept s : valid_spec s -> Forall kept (path_of s).
Proof. intros Hs. eapply Forall_impl; [apply path_of_words, Hs|apply good_word_kept]. Qed.

(** The key of a named value is its prefix and its name. *)
Lemma path_Join_named s name : valid_spec s -> clean_name name -> path_Join (KeyPrefix s) name = KeyPrefix s +:+ tidy name.
Proof.
  intros Hs [Hn Hne]. assert (name <> "") as Hname by by intros ->.
  unfold path_Join, is_empty. rewrite (proj2 (String.eqb_neq name "") Hname), andb_false_r.
  assert (KeyPrefix s <> "") as Hk by apply KeyPrefix_ne.
  rewrite (proj2 (String.eqb_neq _ "") Hk).
  pose proof (path_of_kept s Hs) as Hkept. set (rest := drop 1 (path_of s) ++ "" :: Split name).
  assert (spec_Class s :: rest = path_of s ++ "" :: Split name) as Hrest by done.
  rewrite (path_Clean_eq _ (spec_Class s) rest).
  - rewrite Hrest, filter_app, filter_cons_False by (by intros []). rewrite filter_kept by done.
    rewrite Join_app; [|done|unfold tidy in Hne; by intros E; rewrite E in Hne].
    by rewrite <- (Split_path_str s), Join_Split, KeyPrefix_eq, append_assoc by done.
  - rewrite Hrest, Split_sep, Split_KeyPrefix by done. by rewrite <- app_assoc.
  - inversion Hkept as [|? ? [H _]]. done.
  - rewrite Hrest. apply Forall_app. split; [eapply Forall_impl; [exact Hkept|]; auto|].
    constructor; [by left|done].
Qed.

(** The key of a value without a name function is the prefix without the slash. *)
Lemma path_Join_unnamed s : valid_spec s -> path_Join (path_str s) "" = path_str s.
Proof.
  intros Hs. unfold path_Join, is_empty.
  assert (path_str s <> "") as Hne.
  { apply path_str_ne. }
  rewrite (proj2 (String.eqb_neq _ "") Hne). cbn [andb].
  pose proof (path_of_kept s Hs) as Hkept.
  change (String.eqb "" "") with true. cbn iota.
  rewrite (path_Clean_eq _ (spec_Class s) (drop 1 (path_of s))).
  - change (spec_Class s :: drop 1 (path_of s)) with (path_of s). rewrite filter_kept by done.
    by rewrite <- Split_path_str, Join_Split.
  - by rewrite Split_path_str.
  - inversion Hkept as [|? ? [H _]]. done.
  - apply (Forall_impl kept); [exact Hkept|]. auto.
Qed.

(** ** Keys of models *)

Section keys.
Context {V : Type} `{Message V}.

(** A model of the registry: its specification is valid. *)
Definition valid_model (m : knownModel V) : Prop := valid_spec (km_spec m).

Lemma km_KeyPrefix_eq (m : knownModel V) :
  km_KeyPrefix m = if hasName m then KeyPrefix (km_spec m) else path_str (km_spec m).
Proof. unfold km_KeyPrefix, keyPrefix. by rewrite KeyPrefix_eq, TrimSuffix_app. Qed.

(** The name of a value of the model: clean, or empty without a name function. *)
Definition name_for (m : knownModel V) (name : string) : Prop :=
  if hasName m then clean_name name else name = "".

Lemma tidy_empty : tidy "" = "".
Proof. reflexivity. Qed.

Lemma model_key_eq (m : knownModel V) name : valid_model m -> name_for m name ->
  path_Join (km_KeyPrefix m) name = km_KeyPrefix m +:+ tidy name.
Proof.
  unfold name_for. rewrite km_KeyPrefix_eq. intros Hm. destruct (hasName m).
  - intros Hn. by apply path_Join_named.
  - intros ->. rewrite tidy_empty, append_nil_r. by apply path_Join_unnamed.
Qed.

Lemma km_KeyPrefix_ne (m : knownModel V) : km_KeyPrefix m <> "".
Proof.
  rewrite km_KeyPrefix_eq. destruct (hasName m); [apply KeyPrefix_ne|apply path_str_ne].
Qed.

Lemma ParseKey_own (m : knownModel V) name : valid_model m -> name_for m name ->
  ParseKey m (km_KeyPrefix m +:+ tidy name) = (tidy name, true).
Proof.
  intros Hm Hn. unfold ParseKey. pose proof (km_KeyPrefix_ne m) as Hne.
  pose proof (proj2 (String.eqb_neq _ _) (TrimPrefix_changes _ (tidy name) Hne)) as Hc. rewrite TrimPrefix_app in *.
  assert (is_empty (tidy name) && hasName m = false) as He.
  { unfold name_for in Hn. destruct (hasName m); [|apply andb_false_r]. rewrite andb_true_r.
    apply String.eqb_neq. apply Hn. }
  rewrite Hc, He. cbn [orb]. rewrite Hc. cbn [negb andb].
  destruct (is_empty (tidy name)), (hasName m); done.
Qed.

(** The prefix of neither model starts the prefix of the other. *)
Definition apart (m1 m2 : knownModel V) : Prop :=
  String.prefix (km_KeyPrefix m1) (km_KeyPrefix m2) = false
  /\ String.prefix (km_KeyPrefix m2) (km_KeyPrefix m1) = false.

Lemma prefix_comparable a b c : forall d, a +:+ b = c +:+ d ->
  String.prefix a c = true \/ String.prefix c a = true.
Proof.
  revert c. induction a as [|x a IH]; intros c d E; [left; by destruct c|].
  destruct c as [|y c]; [by right|]. injection E as -> E. destruct (IH _ _ E) as [Hp|Hp]; [left|right]; simpl;
    by destruct (Ascii.ascii_dec y y).
Qed.

(** A key of a class and a path does not start with the name of a model. *)
Lemma name_not_prefix (m : knownModel V) c key : valid_model m -> good_word c ->
  (exists rest, Split key = c :: rest) -> TrimPrefix key (Name m) = key.
Proof.
  intros (Hm & _)%Validate_lang Hc [rest Hs]. unfold TrimPrefix.
  destruct (String.prefix (Name m) key) eqn:E; [|done]. exfalso. apply prefix_spec in E as [t ->].
  destruct (module_lang _ Hm) as (_ & _ & _ & a & b & Hab & Ha & Hb).
  assert (exists u, Name m +:+ t = a +:+ String dot u) as [u Hu].
  { unfold Name, ModelName. rewrite Hab. destruct Hb as [->|[b' ->]]; eexists; rewrite !append_assoc; done. }
  rewrite Hu in Hs. pose proof (good_word_no_slash _ Ha) as Hsa. pose proof (good_word_no_dot _ Hc) as Hdc.
  revert c rest Hs Hc Hdc. clear -Hsa.
  assert (forall a, no_slash a -> forall c rest, Split (a +:+ String dot u) = c :: rest -> no_char dot c = false) as Hgen.
  { clear. intros a. induction a as [|x a IH]; intros Ha c rest.
    - change ("" +:+ String dot u) with (String dot u). unfold Split. cbn [split_on].
      change (Ascii.eqb dot slash) with false. destruct (split_on slash u); by intros [= <- _].
    - unfold no_slash in Ha. cbn [no_char] in Ha. apply andb_true_iff in Ha as [Hx Ha]. apply negb_true_iff in Hx.
      change (String x a +:+ String dot u) with (String x (a +:+ String dot u)). unfold Split. cbn [split_on].
      rewrite Hx. intros E. destruct (split_on slash (a +:+ String dot u)) as [|c' rest'] eqn:E';
        [by pose proof (split_ne slash (a +:+ String dot u))|]. injection E as <- _. cbn [no_char].
      rewrite (IH Ha c' rest' E'). by rewrite andb_false_r. }
  intros c rest Hs _ Hdc. by rewrite (Hgen a Hsa c rest Hs) in Hdc.
Qed.

Lemma Split_key_head (m : knownModel V) name : valid_model m -> name_for m name ->
  exists rest, Split (km_KeyPrefix m +:+ tidy name) = spec_Class (km_spec m) :: rest.
Proof.
  intros Hm Hn. rewrite km_KeyPrefix_eq. unfold name_for in Hn. destruct (hasName m).
  - rewrite KeyPrefix_eq, append_assoc, Split_sep, (Split_path_str _ Hm). by eexists.
  - rewrite Hn, tidy_empty, append_nil_r, (Split_path_str _ Hm). by eexists.
Qed.

Lemma ParseKey_other (m m' : knownModel V) name : valid_model m -> valid_model m' -> name_for m name ->
  apart m m' -> ParseKey m' (km_KeyPrefix m +:+ tidy name) = ("", false).
Proof.
  intros Hm Hm' Hn [H1 H2]. unfold ParseKey.
  assert (TrimPrefix (km_KeyPrefix m +:+ tidy name) (km_KeyPrefix m') = km_KeyPrefix m +:+ tidy name) as ->.
  { unfold TrimPrefix. destruct (String.prefix (km_KeyPrefix m') (km_KeyPrefix m +:+ tidy name)) eqn:E; [|done]. apply prefix_spec in E as [b E].
    destruct (prefix_comparable _ _ _ _ E); congruence. }
  rewrite String.eqb_refl. cbn [orb].
  assert (good_word (spec_Class (km_spec m))) as Hc.
  { by apply Validate_lang in Hm as (_ & _ & _ & Hc%word_lang). }
  rewrite (name_not_prefix m' _ _ Hm' Hc (Split_key_head m name Hm Hn)). by rewrite String.eqb_refl.
Qed.
End keys.

(** ** The registry *)

Section registry_facts.
Context {V : Type} `{Message V}.

(** Each map finds a model by what the model says of itself, and the models of
    the other maps are found by message name. *)
Record wf (r : registry V) : Prop := {
  wf_proto : forall p m, modelsByProtoName r !! p = Some m ->
    km_pb m = p /\ valid_model m /\ modelsByName r !! Name m = Some m;
  wf_name : forall n m, modelsByName r !! n = Some m -> Name m = n /\ modelsByProtoName r !! km_pb m = Some m;
  wf_go : forall g m, modelsByGoType r !! g = Some m ->
    km_goType m = Some g /\ modelsByProtoName r !! km_pb m = Some m;
}.

Lemma wf_new : wf NewRegistry.
Proof. by split. Qed.

(** Put a new model under its names. *)
Lemma wf_put (r : registry V) (m : knownModel V) byGoType :
  wf r -> valid_model m -> modelsByProtoName r !! km_pb m = None -> modelsByName r !! Name m = None ->
  byGoType = modelsByGoType r
    \/ (exists g, km_goType m = Some g /\ byGoType = <[g := m]> (modelsByGoType r)) ->
  wf {| modelsByGoType := byGoType; modelsByProtoName := <[km_pb m := m]> (modelsByProtoName r);
        modelsByName := <[Name m := m]> (modelsByName r) |}.
Proof.
  intros Hwf Hm Hp Hn Hg. split; cbn [modelsByGoType modelsByProtoName modelsByName].
  - intros p m' [(<- & <-)|[Hne H1]]%lookup_insert_Some; [by rewrite lookup_insert_eq|].
    destruct (wf_proto r Hwf _ _ H1) as (E & Hv & H2). rewrite lookup_insert_ne by congruence. done.
  - intros n m' [(<- & <-)|[Hne H1]]%lookup_insert_Some; [by rewrite lookup_insert_eq|].
    destruct (wf_name r Hwf _ _ H1) as (E & H2). rewrite lookup_insert_ne by congruence. done.
  - assert (forall g m', modelsByGoType r !! g = Some m' -> km_goType m' = Some g
      /\ <[km_pb m := m]> (modelsByProtoName r) !! km_pb m' = Some m') as Hold.
    { intros g m' H1. destruct (wf_go r Hwf _ _ H1) as (E & H2). rewrite lookup_insert_ne by congruence. done. }
    intros g m'. destruct Hg as [->|(g0 & Hg0 & ->)]; [apply Hold|].
    intros [(<- & <-)|[Hne H1]]%lookup_insert_Some; [by rewrite lookup_insert_eq|by apply Hold].
Qed.

(** What a call of [Register] does when its message and specification are new. *)
Lemma Register_new (r : registry V) x spec opts :
  let res := Register r (Some x) spec opts in
  Validate (Normalize spec) = None -> modelsByProtoName r !! FullName x = None ->
  modelsByName r !! ModelName (Normalize spec) = None ->
  exists m, km_pb m = FullName x /\ km_spec m = Normalize spec
    /\ km_options m = fold_left (fun o opt => opt o) opts (defaultOptions x)
    /\ modelsByProtoName res.1 = <[km_pb m := m]> (modelsByProtoName r)
    /\ modelsByName res.1 = <[Name m := m]> (modelsByName r)
    /\ (modelsByGoType res.1 = modelsByGoType r
        \/ exists g, km_goType m = Some g /\ modelsByGoType res.1 = <[g := m]> (modelsByGoType r))
    /\ match res.2 with inl m' => m' = m | inr e => exists g n, e = GoTypeUsed g n end.
Proof.
  intros res Hv Hp Hn. unfold res, Register. rewrite Hv, Hp, Hn.
  destruct (GoType x) as [g|]; [destruct (modelsByGoType r !! g) as [m'|] eqn:Hg|].
  - eexists. repeat split; try reflexivity; [by left|]. by eexists _, _.
  - eexists. repeat split; try reflexivity. right. by eexists.
  - eexists. repeat split; try reflexivity. by left.
Qed.
End registry_facts.

Section model_theorems.
Context {V : Type} `{Message V}.

(** C36: Registering a model keeps the registry well formed and every registered
    model in place.  A model that is registered is found for its message and by
    its name, with the normalized and valid specification; a refused one leaves
    the registry as it was, except when only the Go type is taken: then the
    model is refused and yet found for its message. *)
Theorem Register_registry (r : registry V) (x : option V) spec opts :
  wf r ->
  let res := Register r x spec opts in
  wf res.1
  /\ (forall p m, modelsByProtoName r !! p = Some m -> modelsByProtoName res.1 !! p = Some m)
  /\ match res.2 with
     | inl m => km_spec m = Normalize spec /\ Validate (km_spec m) = None
         /\ GetModelFor res.1 x = inl m /\ GetModel res.1 (Name m) = inl m
         /\ (forall m', GetModelFor r x <> inl m')
     | inr (GoTypeUsed _ _) => exists m, km_spec m = Normalize spec /\ GetModelFor res.1 x = inl m
     | inr _ => res.1 = r
     end.
Proof.
  intros Hwf. destruct x as [x|]; [|(split; [exact Hwf|]; split; [auto|reflexivity])].
  destruct (Validate (Normalize spec)) as [e|] eqn:Hv.
  { cbn zeta. unfold Register. rewrite Hv. (split; [exact Hwf|]; split; [auto|reflexivity]). }
  destruct (modelsByProtoName r !! FullName x) as [m|] eqn:Hp.
  { cbn zeta. unfold Register. rewrite Hv, Hp. (split; [exact Hwf|]; split; [auto|reflexivity]). }
  destruct (modelsByName r !! ModelName (Normalize spec)) as [m|] eqn:Hn.
  { cbn zeta. unfold Register. rewrite Hv, Hp, Hn. (split; [exact Hwf|]; split; [auto|reflexivity]). }
  destruct (Register_new r x spec opts Hv Hp Hn) as (m & Hpb & Hs & _ & E1 & E2 & E3 & E4).
  cbn zeta. set (res := Register r (Some x) spec opts) in *.
  assert (GetModelFor res.1 (Some x) = inl m) as Hget.
  { unfold GetModelFor. by rewrite E1, <- Hpb, lookup_insert_eq. }
  split; [|split].
  - replace res.1 with {| modelsByGoType := modelsByGoType res.1; modelsByProtoName := modelsByProtoName res.1;
      modelsByName := modelsByName res.1 |} by by destruct res.1.
    rewrite E1, E2. apply wf_put; [done|by unfold valid_model; rewrite Hs|by rewrite Hpb|by unfold Name; rewrite Hs|done].
  - intros p m' Hm'. rewrite E1, lookup_insert_ne; [done|]. intros <-. rewrite Hpb in Hm'. congruence.
  - destruct res.2 as [m'|e].
    + subst m'. split; [done|]. split; [by rewrite Hs|]. split; [done|]. split.
      * unfold GetModel. by rewrite E2, lookup_insert_eq.
      * intros m'. unfold GetModelFor. by rewrite Hp.
    + destruct E4 as (g & n & ->). by exists m.
Qed.

Lemma model_of_key (order : list (knownModel V)) (m : knownModel V) name :
  Forall valid_model order -> m ∈ order -> name_for m name ->
  (forall m', m' ∈ order -> m' = m \/ apart m m') ->
  GetModelForKey order (km_KeyPrefix m +:+ tidy name) = inl m.
Proof.
  intros Hv Hm Hn Hap. rewrite Forall_forall in Hv. unfold GetModelForKey.
  destruct (list_find _ order) as [[i m']|] eqn:E.
  - apply list_find_Some in E as (Hi & Hval & _). apply list_elem_of_lookup_2 in Hi.
    destruct (Hap m' Hi) as [->|Ha]; [done|].
    unfold IsKeyValid in Hval. rewrite ParseKey_other in Hval by auto. done.
  - apply list_find_None in E. rewrite Forall_forall in E. destruct (E m Hm).
    unfold IsKeyValid. by rewrite ParseKey_own by auto.
Qed.

(** The key of a value of a registered model, whose name is clean and whose
    prefix does not start that of another model or the other way, selects that
    model in whatever order the models are tried, is parsed to the name of the
    value without its empty elements, and is the key of the item of the value. *)
Lemma value_key (r : registry V) (order : list (knownModel V)) (x : V) (m : knownModel V) name :
  wf r -> order ≡ₚ (map_to_list (modelsByProtoName r)).*2 ->
  GetModelFor r (Some x) = inl m -> InstanceName m x = inl name -> name_for m name ->
  (forall m', m' ∈ order -> m' = m \/ apart m m') ->
  exists key, GetKeyUsingModelRegistry r (Some x) = inl key
    /\ GetModelForKey order key = inl m /\ ParseKey m key = (tidy name, true)
    /\ exists item, MarshalItemUsingModelRegistry r x = inl item
         /\ GetKeyForItemUsingModelRegistry r item = inl key.
Proof.
  intros Hwf Hord Hm Hi Hn Hap. exists (path_Join (km_KeyPrefix m) name).
  assert (Forall valid_model order) as Hv.
  { rewrite Hord. apply Forall_forall. intros m' ([p ?] & -> & Hin%elem_of_map_to_list)%list_elem_of_fmap.
    by apply (wf_proto r Hwf p). }
  assert (modelsByProtoName r !! FullName x = Some m) as Hx.
  { unfold GetModelFor in Hm. destruct (modelsByProtoName r !! FullName x); congruence. }
  assert (m ∈ order) as Hin.
  { rewrite Hord. apply list_elem_of_fmap. exists (FullName x, m). by rewrite elem_of_map_to_list. }
  pose proof (proj1 (Forall_forall _ _) Hv m Hin) as Hvm.
  split; [unfold GetKeyUsingModelRegistry; by rewrite Hm, Hi|].
  rewrite model_key_eq by done. split; [by apply model_of_key|]. split; [by apply ParseKey_own|].
  unfold MarshalItemUsingModelRegistry. rewrite Hm, Hi. eexists. split; [done|].
  unfold GetKeyForItemUsingModelRegistry, GetModelFromModelRegistryForItem, GetModel. cbn.
  destruct (wf_proto r Hwf _ _ Hx) as (_ & _ & ->). by rewrite model_key_eq.
Qed.
End model_theorems.

(** A model without a name, registered twice. *)
#[local] Instance demo_message : Message string := {
  FullName x := x; GoType x := Some x; GetName _ := None;
}.

Definition demo_spec : Spec :=
  {| spec_Module := "vpp.nat"; spec_Version := ""; spec_Type := "nat44-global"; spec_Class := "" |}.

Definition demo_registry : registry string := (Register NewRegistry (Some "Nat44Global") demo_spec []).1.

Lemma demo_refused :
  (Register demo_registry (Some "Nat44Global") demo_spec []).2 = inr (ProtoNameUsed "Nat44Global" "vpp.nat.nat44-global").
Proof. vm_compute. reflexivity. Qed.

Lemma Register_registry_witness :
  wf demo_registry /\ (Register demo_registry (Some "Nat44Global") demo_spec []).1 = demo_registry.
Proof.
  destruct (Register_registry NewRegistry (Some "Nat44Global") demo_spec [] wf_new) as [Hwf _].
  change (Register NewRegistry (Some "Nat44Global") demo_spec []).1 with demo_registry in Hwf. split; [exact Hwf|].
  pose proof (Register_registry demo_registry (Some "Nat44Global") demo_spec [] Hwf) as (_ & _ & Hres).
  rewrite demo_refused in Hres. exact Hres.
Defined.
