(* ===== verification/AgentModels.v ===== *)
(** * The models of the agent

    The registrations in [proto/ligato/*/models.go], package by package, and
    what they give: whatever packages a program links and in whatever order
    their [init] functions run, every registration succeeds and every key of a
    configured value selects its own model. *)
From S2P Require Import Prelude GoStrings GoRegexp Models ModelFacts.

Record Registration := {
  reg_pb : string;                   (* full name of the message *)
  reg_Spec : Spec;
  reg_Template : option string;      (* of [WithNameTemplate], if given *)
}.

#[export] Instance Registration_eq : EqDecision Registration.
Proof. solve_decision. Defined.

Definition reg (pb module version type class : string) (template : option string) : Registration :=
  {| reg_pb := pb; reg_Template := template;
     reg_Spec := {| spec_Module := module; spec_Version := version; spec_Type := type; spec_Class := class |} |}.

Definition dq : string := String (Ascii.ascii_of_nat 34) "".

(** ** Registrations *)

Definition netalloc_models : list Registration :=
  [reg "ligato.netalloc.IPAllocation" "netalloc" "v1" "ip" ""
     (Some ("network/{{.NetworkName}}/interface/{{.InterfaceName}}"))].

Definition govppmux_models : list Registration :=
  [reg "ligato.govppmux.Metrics" "govppmux" "" "stats" "metrics" None].

Definition linux_interfaces_models : list Registration :=
  [reg "ligato.linux.interfaces.Interface" "linux.interfaces" "v2" "interface" "" None].

Definition linux_l3_models : list Registration :=
  [reg "ligato.linux.l3.ARPEntry" "linux.l3" "v2" "arp" ""
     (Some ("{{.Interface}}/{{.IpAddress}}"));
   reg "ligato.linux.l3.Route" "linux.l3" "v2" "route" ""
     (Some ("{{with ipnet .DstNetwork}}{{printf " +:+ dq +:+ "%s/%d" +:+ dq +:+ " .IP .MaskSize}}{{else}}{{.DstNetwork}}{{end}}/{{.OutgoingInterface}}"))].

Definition linux_iptables_models : list Registration :=
  [reg "ligato.linux.iptables.RuleChain" "linux.iptables" "v2" "rulechain" ""
     (Some ("{{.Name}}"))].

Definition vpp_abf_models : list Registration :=
  [reg "ligato.vpp.abf.ABF" "vpp.abfs" "v2" "abf" ""
     (Some ("{{.Index}}"))].

Definition vpp_acl_models : list Registration :=
  [reg "ligato.vpp.acl.ACL" "vpp.acls" "v2" "acl" "" None].

Definition vpp_dns_models : list Registration :=
  [reg "ligato.vpp.dns.DNSCache" "vpp.dns" "v1" "dnscache" "" None].

Definition vpp_interfaces_models : list Registration :=
  [reg "ligato.vpp.interfaces.Interface" "vpp" "v2" "interfaces" "" None;
   reg "ligato.vpp.interfaces.Span" "vpp" "v2" "span" ""
     (Some ("{{.InterfaceFrom}}/to/{{.InterfaceTo}}"))].

Definition vpp_ipfix_models : list Registration :=
  [reg "ligato.vpp.ipfix.IPFIX" "vpp.ipfix" "v2" "ipfix" "" None;
   reg "ligato.vpp.ipfix.FlowProbeParams" "vpp.ipfix" "v2" "flowprobe-params" "" None;
   reg "ligato.vpp.ipfix.FlowProbeFeature" "vpp.ipfix" "v2" "flowprobe-feature" ""
     (Some ("{{.Interface}}"))].

Definition vpp_ipsec_models : list Registration :=
  [reg "ligato.vpp.ipsec.SecurityPolicyDatabase" "vpp.ipsec" "v2" "spd" ""
     (Some ("{{.Index}}"));
   reg "ligato.vpp.ipsec.SecurityPolicy" "vpp.ipsec" "v2" "sp" ""
     (Some ("spd/{{.SpdIndex}}/sa/{{.SaIndex}}/{{if .IsOutbound}}outbound/{{else}}inbound/{{end}}local-addresses/{{.LocalAddrStart}}-{{.LocalAddrStop}}/remote-addresses/{{.RemoteAddrStart}}-{{.RemoteAddrStop}}"));
   reg "ligato.vpp.ipsec.SecurityAssociation" "vpp.ipsec" "v2" "sa" ""
     (Some ("{{.Index}}"));
   reg "ligato.vpp.ipsec.TunnelProtection" "vpp.ipsec" "v2" "tun-protect" ""
     (Some ("{{.Interface}}{{if .NextHopAddr}}/nh/{{.NextHopAddr}}{{end}}"))].

Definition vpp_l2_models : list Registration :=
  [reg "ligato.vpp.l2.BridgeDomain" "vpp.l2" "v2" "bridge-domain" "" None;
   reg "ligato.vpp.l2.FIBEntry" "vpp.l2" "v2" "fib" ""
     (Some ("{{.BridgeDomain}}/mac/{{.PhysAddress}}"));
   reg "ligato.vpp.l2.XConnectPair" "vpp.l2" "v2" "xconnect" ""
     (Some ("{{.ReceiveInterface}}"))].

Definition vpp_l3_models : list Registration :=
  [reg "ligato.vpp.l3.ARPEntry" "vpp" "v2" "arp" ""
     (Some ("{{.Interface}}/{{.IpAddress}}"));
   reg "ligato.vpp.l3.Route" "vpp" "v2" "route" ""
     (Some ("{{if .OutgoingInterface}}{{printf " +:+ dq +:+ "if/%s/" +:+ dq +:+ " .OutgoingInterface}}{{end}}vrf/{{.VrfId}}/{{with ipnet .DstNetwork}}{{printf " +:+ dq +:+ "dst/%s/%d/" +:+ dq +:+ " .IP .MaskSize}}{{else}}{{printf " +:+ dq +:+ "dst/%s/" +:+ dq +:+ " .DstNetwork}}{{end}}{{if .NextHopAddr}}gw/{{.NextHopAddr}}{{end}}"));
   reg "ligato.vpp.l3.ProxyARP" "vpp" "v2" "proxyarp-global" "" None;
   reg "ligato.vpp.l3.IPScanNeighbor" "vpp" "v2" "ipscanneigh-global" "" None;
   reg "ligato.vpp.l3.VrfTable" "vpp" "v2" "vrf-table" ""
     (Some ("id/{{.Id}}/protocol/{{.Protocol}}"));
   reg "ligato.vpp.l3.DHCPProxy" "vpp" "v2" "dhcp-proxy" ""
     (Some ("{{ protoip .SourceIpAddress}}/rx-vrf/{{.RxVrfId}}"));
   reg "ligato.vpp.l3.L3XConnect" "vpp" "v2" "l3xconnect" ""
     (Some ("{{.Interface}}/protocol/{{.Protocol}}"));
   reg "ligato.vpp.l3.TeibEntry" "vpp" "v2" "teib" ""
     (Some ("{{.Interface}}/peer/{{.PeerAddr}}"));
   reg "ligato.vpp.l3.VRRPEntry" "vpp" "v2" "vrrp" ""
     (Some ("{{.Interface}}/vrid/{{.VrId}}"))].

Definition vpp_nat_models : list Registration :=
  [reg "ligato.vpp.nat.Nat44Global" "vpp.nat" "v2" "nat44-global" "" None;
   reg "ligato.vpp.nat.DNat44" "vpp.nat" "v2" "dnat44" ""
     (Some ("{{.Label}}"));
   reg "ligato.vpp.nat.Nat44Interface" "vpp.nat" "v2" "nat44-interface" ""
     (Some ("{{.Name}}"));
   reg "ligato.vpp.nat.Nat44AddressPool" "vpp.nat" "v2" "nat44-pool" ""
     (Some ("{{if .Name}}{{.Name}}{{else}}vrf/{{.VrfId}}/address/{{.FirstIp}}{{if and .LastIp (ne .FirstIp .LastIp)}}-{{.LastIp}}{{end}}{{end}}"));
   reg "ligato.vpp.nat.Nat44VrfTable" "vpp.nat" "v2" "nat44-vrf" ""
     (Some ("vrfid/{{.SrcVrfId}}"));
   reg "ligato.vpp.nat.Nat44VrfRoute" "vpp.nat" "v2" "nat44-vrf-route" ""
     (Some ("vrfid/{{.SrcVrfId}}/destvrfid/{{.DestVrfId}}"))].

Definition vpp_punt_models : list Registration :=
  [reg "ligato.vpp.punt.IPRedirect" "vpp" "v2" "ipredirect" ""
     (Some ("l3/{{.L3Protocol}}/tx/{{.TxInterface}}"));
   reg "ligato.vpp.punt.ToHost" "vpp" "v2" "tohost" ""
     (Some ("l3/{{.L3Protocol}}/l4/{{.L4Protocol}}/port/{{.Port}}"));
   reg "ligato.vpp.punt.Exception" "vpp" "v2" "exception" ""
     (Some ("reason/{{.Reason}}"))].

Definition vpp_srv6_models : list Registration :=
  [reg "ligato.vpp.srv6.LocalSID" "vpp.srv6" "v2" "localsid" ""
     (Some ("{{.Sid}}"));
   reg "ligato.vpp.srv6.Policy" "vpp.srv6" "v2" "policy" ""
     (Some ("{{.Bsid}}"));
   reg "ligato.vpp.srv6.Steering" "vpp.srv6" "v2" "steering" ""
     (Some ("{{.Name}}"));
   reg "ligato.vpp.srv6.SRv6Global" "vpp.srv6" "v2" "srv6-global" "" None].

Definition vpp_stn_models : list Registration :=
  [reg "ligato.vpp.stn.Rule" "vpp.stn" "v2" "rule" ""
     (Some ("{{.Interface}}/ip/{{.IpAddress}}"))].

Definition vpp_wireguard_models : list Registration :=
  [reg "ligato.vpp.wireguard.Peer" "vpp.wg" "v1" "peer" ""
     (Some ("{{.WgIfName}}/endpoint/{{.Endpoint}}/{{.Port}}"))].

Definition agent_models : list Registration :=
  netalloc_models ++ govppmux_models ++ linux_interfaces_models ++ linux_l3_models ++ linux_iptables_models ++ vpp_abf_models ++ vpp_acl_models ++
  vpp_dns_models ++ vpp_interfaces_models ++ vpp_ipfix_models ++ vpp_ipsec_models ++ vpp_l2_models ++ vpp_l3_models ++
  vpp_nat_models ++ vpp_punt_models ++ vpp_srv6_models ++ vpp_stn_models ++ vpp_wireguard_models.

(** Messages registered that have GetName (generated code). *)
Definition with_GetName : list string :=
  ["ligato.linux.interfaces.Interface"; "ligato.linux.iptables.RuleChain"; "ligato.vpp.acl.ACL";
   "ligato.vpp.interfaces.Interface"; "ligato.vpp.l2.BridgeDomain"; "ligato.vpp.nat.Nat44Interface";
   "ligato.vpp.nat.Nat44AddressPool"; "ligato.vpp.srv6.Steering"].

(** ** Running the registrations *)

Section register.
Context {V : Type} `{Message V}.

(** The zero message of a type, and the name functions of templates. *)
Context (proto : string -> V) (NameTemplate : string -> NameFunc (V := V)).

Definition WithNameTemplate (t : string) (opts : modelOptions V) : modelOptions V :=
  {| nameTemplate := t; nameFunc := Some (NameTemplate t) |}.

(** [models.Register]: panics when the registry refuses the model. *)
Definition register (r : registry V) (g : Registration) : outcome (registry V) :=
  let opts := match reg_Template g with Some t => [WithNameTemplate t] | None => [] end in
  match Register r (Some (proto (reg_pb g))) (reg_Spec g) opts with
  | (r', inl _) => Ok r'
  | (_, inr _) => Panic "model registration"
  end.

Fixpoint register_all (r : registry V) (gs : list Registration) : outcome (registry V) :=
  match gs with [] => Ok r | g :: gs => r' ← register r g; register_all r' gs end.

(** ** What the models are *)

Context (goType : string -> string).
Context (Hname : forall n, FullName (proto n) = n).
Context (Hgo : forall n, GoType (proto n) = Some (goType n)).
Context (Hgo_inj : forall n n', goType n = goType n' -> n = n').
Context (HGetName : forall n, is_Some (GetName (proto n)) <-> n ∈ with_GetName).

Definition model_of (g : Registration) : knownModel V :=
  {| km_options := match reg_Template g with
       | Some t => {| nameTemplate := t; nameFunc := Some (NameTemplate t) |}
       | None => defaultOptions (proto (reg_pb g)) end;
     km_spec := Normalize (reg_Spec g); km_pb := reg_pb g; km_goType := Some (goType (reg_pb g)) |}.

Definition reg_named (g : Registration) : bool :=
  match reg_Template g with Some _ => true | None => bool_decide (reg_pb g ∈ with_GetName) end.
Definition reg_prefix (g : Registration) : string := keyPrefix (Normalize (reg_Spec g)) (reg_named g).

Lemma hasName_model g : hasName (model_of g) = reg_named g.
Proof.
  unfold hasName, model_of, reg_named, defaultOptions. cbn. destruct (reg_Template g); [done|].
  specialize (HGetName (reg_pb g)). destruct (GetName (proto (reg_pb g))) as [f|].
  - symmetry. apply bool_decide_eq_true, HGetName. by eexists.
  - symmetry. apply bool_decide_eq_false. intros Hin. by destruct (proj2 HGetName Hin).
Qed.

Lemma km_KeyPrefix_model g : km_KeyPrefix (model_of g) = reg_prefix g.
Proof. unfold km_KeyPrefix. by rewrite hasName_model. Qed.
(** Registrations that do not get in each other's way. *)
Definition compatible (g g' : Registration) : bool :=
  negb (String.eqb (reg_pb g) (reg_pb g'))
  && negb (String.eqb (ModelName (reg_Spec g)) (ModelName (reg_Spec g')))
  && negb (String.prefix (reg_prefix g) (reg_prefix g')) && negb (String.prefix (reg_prefix g') (reg_prefix g)).

Definition valid_reg (g : Registration) : Prop := Validate (Normalize (reg_Spec g)) = None.

Lemma compatible_sym g g' : compatible g g' = true -> compatible g' g = true.
Proof.
  unfold compatible. rewrite !andb_true_iff, (String.eqb_sym (reg_pb g')), (String.eqb_sym (ModelName (reg_Spec g'))).
  tauto.
Qed.

Lemma compatible_spec g g' : compatible g g' = true ->
  reg_pb g <> reg_pb g' /\ ModelName (Normalize (reg_Spec g)) <> ModelName (Normalize (reg_Spec g'))
  /\ apart (model_of g) (model_of g').
Proof.
  unfold compatible, apart. rewrite !andb_true_iff, !negb_true_iff, !String.eqb_neq, !km_KeyPrefix_model. tauto.
Qed.

(** The registry in which [g] is not registered yet. *)
Definition fresh (r : registry V) (g : Registration) : Prop :=
  modelsByProtoName r !! reg_pb g = None /\ modelsByName r !! ModelName (Normalize (reg_Spec g)) = None
  /\ modelsByGoType r !! goType (reg_pb g) = None.

Definition put_model (r : registry V) (m : knownModel V) (go : string) : registry V :=
  {| modelsByGoType := <[go := m]> (modelsByGoType r);
     modelsByProtoName := <[km_pb m := m]> (modelsByProtoName r);
     modelsByName := <[Name m := m]> (modelsByName r) |}.

Lemma register_fresh r g : valid_reg g -> fresh r g ->
  register r g = Ok (put_model r (model_of g) (goType (reg_pb g))).
Proof.
  intros Hv (Hp & Hn & Hg). unfold register, Register. rewrite Hname, Hgo, Hv, Hp, Hn, Hg.
  unfold put_model, model_of, Name. cbn [km_pb km_spec]. by destruct (reg_Template g).
Qed.

Lemma fresh_put r g g' : compatible g g' = true -> fresh r g' -> fresh (put_model r (model_of g) (goType (reg_pb g))) g'.
Proof.
  intros (Hp & Hn & _)%compatible_spec (F1 & F2 & F3). unfold fresh, put_model, Name.
  cbn [modelsByProtoName modelsByName modelsByGoType model_of km_pb km_spec].
  rewrite !lookup_insert_ne; [done|by intros E%Hgo_inj|done|done].
Qed.

Lemma register_all_ok gs : ForallOrdPairs (fun g g' => compatible g g' = true) gs -> Forall valid_reg gs ->
  forall r, wf r -> Forall (fresh r) gs ->
  exists r', register_all r gs = Ok r' /\ wf r'
    /\ forall p m, modelsByProtoName r' !! p = Some m <->
         modelsByProtoName r !! p = Some m \/ exists g, g ∈ gs /\ p = reg_pb g /\ m = model_of g.
Proof.
  induction 1 as [|g gs Hg Hgs IH]; intros Hv r Hwf Hf.
  { exists r. split; [done|]. split; [done|]. intros p m. split; [by left|].
    intros [H1|(g & Hin & _)]; [done|]. by apply not_elem_of_nil in Hin. }
  inversion Hv as [|? ? Hvg Hvgs]; subst. inversion Hf as [|? ? Hfg Hfgs]; subst.
  cbn [register_all]. rewrite (register_fresh r g Hvg Hfg), outcome_bind_ret.
  destruct (IH Hvgs (put_model r (model_of g) (goType (reg_pb g)))) as (r' & E & Hwf' & Hm).
  - destruct Hfg as (F1 & F2 & F3). apply wf_put; [done|done|done|done|]. right. by exists (goType (reg_pb g)).
  - rewrite Forall_forall in *. intros g' Hin. apply fresh_put; auto.
  - exists r'. split; [done|]. split; [done|]. intros p m. rewrite Hm. unfold put_model. cbn [modelsByProtoName].
    rewrite lookup_insert_Some. split.
    + intros [[[<- <-]|[_ H1]]|(g' & Hin & -> & ->)]; [right|by left|right].
      * exists g. split; [apply list_elem_of_here|done].
      * exists g'. split; [by apply list_elem_of_further|done].
    + intros [H1|(g' & [->|Hin]%elem_of_cons & -> & ->)].
      * destruct (decide (p = reg_pb g)) as [->|Hne]; [destruct Hfg; congruence|]. left. right.
        split; [by intros <-|done].
      * left. by left.
      * right. by exists g'.
Qed.

(** ** Any packages in any order *)

Lemma ForallOrdPairs_submseteq {A} (R : A -> A -> Prop) (l l' : list A) :
  (forall x y, R x y -> R y x) -> l ⊆+ l' -> ForallOrdPairs R l' -> ForallOrdPairs R l.
Proof.
  intros Hsym. induction 1 as [|x l l' Hl IH|x y l|x l l' Hl IH|l l2 l3 Hl1 IH1 Hl2 IH2]; auto.
  - inversion 1 as [|? ? Hx Hf]; subst. constructor; [|auto]. rewrite Forall_forall in *.
    intros z Hz. by apply Hx, (elem_of_submseteq l).
  - inversion 1 as [|? ? Hx Hf]; subst. inversion Hf as [|? ? Hy Hf']; subst.
    inversion Hx as [|? ? Hxy Hx']; subst. constructor; [constructor; auto|constructor; auto].
  - inversion 1; subst. auto.
Qed.

Lemma agent_models_compatible : ForallOrdPairs (fun g g' => compatible g g' = true) agent_models.
Proof. repeat (constructor; [repeat (constructor; [vm_compute; reflexivity|]); constructor|]); constructor. Qed.
Lemma agent_models_valid : Forall valid_reg agent_models.
Proof. repeat (constructor; [vm_compute; reflexivity|]); constructor. Qed.

Lemma agent_registry gs : gs ⊆+ agent_models ->
  exists r, register_all NewRegistry gs = Ok r /\ wf r
    /\ forall p m, modelsByProtoName r !! p = Some m <-> exists g, g ∈ gs /\ p = reg_pb g /\ m = model_of g.
Proof.
  intros Hsub.
  destruct (register_all_ok gs) with (r := NewRegistry (V := V)) as (r & E & Hwf & Hm).
  - eapply ForallOrdPairs_submseteq; [apply compatible_sym|exact Hsub|apply agent_models_compatible].
  - pose proof agent_models_valid as Hv. rewrite Forall_forall in *. intros g Hg.
    by apply Hv, (elem_of_submseteq gs).
  - apply wf_new.
  - by apply Forall_forall.
  - exists r. split; [done|]. split; [done|]. intros p m. rewrite Hm. unfold NewRegistry. cbn [modelsByProtoName].
    rewrite lookup_empty. split; [by intros [?|?]|by right].
Qed.

Lemma ForallOrdPairs_two {A} (R : A -> A -> Prop) l x y :
  (forall a b, R a b -> R b a) -> ForallOrdPairs R l -> x ∈ l -> y ∈ l -> x = y \/ R x y.
Proof.
  intros Hsym. induction 1 as [|z l Hz Hl IH]; [by intros ?%not_elem_of_nil|]. rewrite Forall_forall in Hz.
  intros [->|Hx]%elem_of_cons [->|Hy]%elem_of_cons; auto.
Qed.

(** C37: Whatever packages of models a program of the agent links, and in
    whatever order they are registered, no registration panics and the registry
    is well formed; then the key of every value whose name has no dot elements
    selects the model of the value, in whatever order the models are tried, and
    is parsed to the name of the value (without empty elements, which the route
    template leaves at the end), and so is the key of the item of the value. *)
Theorem agent_keys gs : gs ⊆+ agent_models ->
  exists r, register_all NewRegistry gs = Ok r /\ wf r
    /\ (forall g, g ∈ gs -> GetModelFor r (Some (proto (reg_pb g))) = inl (model_of g))
    /\ forall order x m name,
         order ≡ₚ (map_to_list (modelsByProtoName r)).*2 ->
         GetModelFor r (Some x) = inl m -> InstanceName m x = inl name -> name_for m name ->
         exists key, GetKeyUsingModelRegistry r (Some x) = inl key
           /\ GetModelForKey order key = inl m /\ ParseKey m key = (tidy name, true)
           /\ exists item, MarshalItemUsingModelRegistry r x = inl item
                /\ GetKeyForItemUsingModelRegistry r item = inl key.
Proof.
  intros Hsub. destruct (agent_registry gs Hsub) as (r & E & Hwf & Hm). exists r.
  split; [done|]. split; [done|]. split.
  { intros g Hg. unfold GetModelFor. rewrite Hname.
    by rewrite (proj2 (Hm (reg_pb g) (model_of g)) (ex_intro _ g (conj Hg (conj eq_refl eq_refl)))). }
  intros order x m name Hord Hx Hi Hn. eapply value_key; eauto.
  intros m' Hin. rewrite Hord in Hin.
  apply list_elem_of_fmap in Hin as ([p q] & -> & Hq%elem_of_map_to_list). apply Hm in Hq as (g' & Hg' & _ & ->).
  assert (exists g, g ∈ gs /\ m = model_of g) as (g & Hg & ->).
  { unfold GetModelFor in Hx. destruct (modelsByProtoName r !! FullName x) as [m'|] eqn:El; [|done].
    injection Hx as ->. apply Hm in El as (g & Hg & _ & ->). by exists g. }
  destruct (ForallOrdPairs_two _ _ g' g compatible_sym agent_models_compatible) as [->|Hc];
    [by apply (elem_of_submseteq gs)|by apply (elem_of_submseteq gs)|by left|right].
  apply compatible_sym in Hc. by apply compatible_spec in Hc as (_ & _ & Ha).
Qed.
End register.

(** ** A concrete instance *)

(** Messages with their type and the name that templates and GetName give. *)
Record DemoMessage := { dm_pb : string; dm_name : string }.

#[local] Instance demo_message : Message DemoMessage := {
  FullName := dm_pb;
  GoType m := Some (dm_pb m);
  GetName m := if bool_decide (dm_pb m ∈ with_GetName) then Some (fun x => inl (dm_name x)) else None;
}.

Definition demo_proto (n : string) : DemoMessage := {| dm_pb := n; dm_name := "" |}.
Definition demo_template (_ : string) : NameFunc (V := DemoMessage) := fun x => inl (dm_name x).

Lemma demo_FullName n : FullName (demo_proto n) = n.
Proof. reflexivity. Qed.
Lemma demo_GoType n : GoType (demo_proto n) = Some n.
Proof. reflexivity. Qed.
Lemma demo_GetName n : is_Some (GetName (demo_proto n)) <-> n ∈ with_GetName.
Proof.
  cbn. destruct (bool_decide (n ∈ with_GetName)) eqn:E.
  - apply bool_decide_eq_true in E. split; [done|by eexists].
  - apply bool_decide_eq_false in E. split; [by intros []|done].
Qed.

(** A route without a gateway in a program that links the models of VPP's L3. *)
Lemma agent_keys_witness :
  exists r key, register_all demo_proto demo_template NewRegistry (vpp_l3_models ++ netalloc_models) = Ok r
    /\ GetKeyUsingModelRegistry r (Some {| dm_pb := "ligato.vpp.l3.Route"; dm_name := "vrf/0/dst/10.1.0.0/16/" |}) = inl key
    /\ exists m, GetModelForKey (map_to_list (modelsByProtoName r)).*2 key = inl m
         /\ ParseKey m key = ("vrf/0/dst/10.1.0.0/16", true).
Proof.
  destruct (agent_keys demo_proto demo_template (fun n => n) demo_FullName demo_GoType (fun n n' E => E) demo_GetName
    (vpp_l3_models ++ netalloc_models)) as (r & E & Hwf & Hg & Hk).
  { apply (bool_decide_unpack _). by vm_compute. }
  pose (g := reg "ligato.vpp.l3.Route" "vpp" "v2" "route" "" (reg_Template (nth 1 vpp_l3_models (reg "" "" "" "" "" None)))).
  pose (x := {| dm_pb := "ligato.vpp.l3.Route"; dm_name := "vrf/0/dst/10.1.0.0/16/" |}).
  assert (g ∈ vpp_l3_models ++ netalloc_models) as Hin by (apply (bool_decide_unpack _); by vm_compute).
  destruct (Hk (map_to_list (modelsByProtoName r)).*2 x _ "vrf/0/dst/10.1.0.0/16/" (Permutation_refl _) (Hg g Hin))
    as (key & E1 & E2 & E3 & _).
  - reflexivity.
  - split; [apply (bool_decide_unpack _); by vm_compute|done].
  - exists r, key. split; [exact E|]. split; [exact E1|]. eexists. split; [exact E2|exact E3].
Defined.
