(* ===== verification/Netalloc.v ===== *)
(** * Network allocation

    [plugins/netalloc]: references to allocated addresses and parsing of
    addresses (utils), the descriptor of allocations with its generated adapter
    (descriptor), and the plugin that resolves references (the AddressAllocator
    the descriptors of other plugins use). *)
From S2P Require Import Prelude GoStrings GoNet GoTemplate GoRegexp NetallocProto Models AgentModels.
From S2P Require Import Monad Api Descriptor Adapter.

(** ** The model of allocations *)

(** An allocation as name templates see it. *)
Definition alloc_view (a : IPAllocation) : tval :=
  obj [("NetworkName", TStr (NetworkName a)); ("InterfaceName", TStr (InterfaceName a));
       ("Address", TStr (Address a)); ("Gw", TStr (Gw a))].

#[export] Instance IPAllocation_message : Message IPAllocation := {|
  FullName := fun _ => "ligato.netalloc.IPAllocation";
  GoType := fun _ => Some "*netalloc.IPAllocation";
  GetName := fun _ => None
|}.

(** The registry after the [init] of the package. *)
Definition DefaultRegistry : outcome (registry IPAllocation) :=
  register_all (fun _ => MkIPAllocation "" "" "" "") (NameTemplate alloc_view) NewRegistry netalloc_models.

Definition models_Name (x : IPAllocation) : outcome string :=
  r ← DefaultRegistry;
  match GetName_of r (Some x) with inl name => Ok name | inr _ => Panic "no name for the message" end.
Definition models_Key (x : IPAllocation) : outcome string :=
  r ← DefaultRegistry;
  match GetKeyUsingModelRegistry r (Some x) with inl key => Ok key | inr _ => Panic "no key for the message" end.

Definition ModelIPAllocation : knownModel IPAllocation :=
  model_of (fun _ => MkIPAllocation "" "" "" "") (NameTemplate alloc_view) (fun _ => "*netalloc.IPAllocation")
    (reg "ligato.netalloc.IPAllocation" "netalloc" "v1" "ip" ""
      (Some "network/{{.NetworkName}}/interface/{{.InterfaceName}}")).

(** ** References (utils) *)

(** [network, iface, isGW, isRef, err]. *)
Record AllocRef {E : Type} := MkAllocRef {
  ar_network : string;
  ar_iface : string;
  ar_isGW : bool;
  ar_isRef : bool;
  ar_err : option E
}.
Arguments AllocRef : clear implicits.

Section netalloc.
Context {X : Ext}.

Definition errorf (msg : string) : error := Opaque msg.

Definition ParseAddrAllocRef (addrAllocRef expIface : string) : AllocRef error :=
  if negb (String.prefix AllocRefPrefix addrAllocRef) then MkAllocRef _ "" "" false false None
  else
    let addrAllocRef := TrimPrefix addrAllocRef AllocRefPrefix in
    let isGW := HasSuffix addrAllocRef AllocRefGWSuffix in
    let addrAllocRef := if isGW then TrimSuffix addrAllocRef AllocRefGWSuffix else addrAllocRef in
    (* [strings.SplitN(addrAllocRef, "/", 2)] *)
    let '(network, second) := match cut_slash addrAllocRef with
      | Some (a, b) => (a, Some b) | None => (addrAllocRef, None) end in
    if is_empty network then
      MkAllocRef _ network "" isGW true
        (Some (errorf ("address allocation reference with empty network name: " +:+ addrAllocRef)))
    else match second with
    | Some iface =>
        if negb (is_empty expIface) && negb (String.eqb iface expIface) then
          MkAllocRef _ network iface isGW true
            (Some (errorf ("expected different interface name in the address allocation reference: "
              +:+ addrAllocRef +:+ " (expected=" +:+ expIface +:+ " vs. actual=" +:+ iface +:+ ")")))
        else MkAllocRef _ network iface isGW true None
    | None =>
        if is_empty expIface then
          MkAllocRef _ network "" isGW true
            (Some (errorf ("missing interface name in the address allocation reference: " +:+ addrAllocRef)))
        else MkAllocRef _ network expIface isGW true None
    end.

Definition has_slash (s : string) : bool := negb (no_char slash s).
(** [if ip.To4() != nil { ip = ip.To4() }]. *)
Definition short_ip (ip : list Z) : list Z := if is_v4 ip then To4 ip else ip.

(** The network, whether the address is from the expected one, or an error. *)
Definition ParseIPAddr (addr : string) (expNet : option IPNet) : IPNet * bool + error :=
  let expNet := (fun n => MkIPNet (ip_Mask (IP n) (Mask n)) (Mask n)) <$> expNet in
  let fromExpNet ip := match expNet with Some n => Contains n ip | None => false end in
  if has_slash addr then
    match ParseCIDR addr with
    | None => inr (errorf ("invalid CIDR address: " +:+ addr))
    | Some (ip, ipNet) =>
        let ip := short_ip ip in
        inl (MkIPNet ip (Mask ipNet), fromExpNet ip)
    end
  else
    let ip := ParseIP addr in
    if length ip =? 0 then inr (errorf ("invalid IP address: " +:+ addr))
    else
      let ip := short_ip ip in
      match expNet with
      | Some n =>
          if Contains n ip then inl (MkIPNet ip (Mask n), true)
          else inl (MkIPNet ip (if is_v4 ip then CIDRMask 32 32 else CIDRMask 128 128), false)
      | None => inl (MkIPNet ip (if is_v4 ip then CIDRMask 32 32 else CIDRMask 128 128), false)
      end.

(** The address is a pointer. *)
Definition GetIPAddrInGivenForm (addr : option IPNet) (form : IPAddressForm) : outcome (option IPNet) :=
  let deref f := match addr with Some a => Ok (Some (f a)) | None => Panic "nil pointer dereference" end in
  match form with
  | UNDEFINED_FORM | ADDR_WITH_MASK | OtherForm _ => Ok addr
  | ADDR_ONLY => deref (fun a => MkIPNet (IP a) (if is_v4 (IP a) then CIDRMask 0 32 else CIDRMask 0 128))
  | ADDR_NET => deref (fun a => MkIPNet (ip_Mask (IP a) (Mask a)) (Mask a))
  | SINGLE_ADDR_NET => deref (fun a => MkIPNet (IP a) (if is_v4 (IP a) then CIDRMask 32 32 else CIDRMask 128 128))
  end.

(** ** The descriptor of allocations *)

(** [netalloc.IPAllocMetadata]; the metadata of a value is a pointer to it. *)
Record IPAllocMetadata := MkIPAllocMetadata { IfaceAddr : option IPNet; GwAddr : option IPNet }.

(** The messages and metadata of the package among those of the scheduler:
    type assertions and conversions to interfaces. *)
Class NetallocTypes := {
  as_IPAllocation : Value -> option IPAllocation;
  of_IPAllocation : IPAllocation -> Value;
  emptypb_Empty : Value;
  as_IPAllocMetadata : Metadata -> option (option IPAllocMetadata);
  of_IPAllocMetadata : option IPAllocMetadata -> Metadata
}.
Context {NT : NetallocTypes}.

#[export] Instance IPAllocation_value : ValueType IPAllocation :=
  {| as_value := as_IPAllocation; of_value := of_IPAllocation |}.
#[export] Instance IPAllocation_metadata : MetadataType (option IPAllocMetadata) :=
  pointer_metadata as_IPAllocMetadata of_IPAllocMetadata.

(** The generated types of the package [adapter]. *)
Definition IPAllocKVWithMetadata := TypedKVWithMetadata IPAllocation (option IPAllocMetadata).
Definition IPAllocDescriptor := TypedDescriptor IPAllocation (option IPAllocMetadata).

(** [IPAllocDescriptor.parseAddr]. *)
Definition parseAddr (addrAlloc : IPAllocation) : option IPAllocMetadata * bool * option error :=
  match ParseIPAddr (Address addrAlloc) None with
  | inr err => (None, false, Some err)
  | inl (ifaceAddr, _) =>
      if is_empty (Gw addrAlloc) then (Some (MkIPAllocMetadata (Some ifaceAddr) None), false, None)
      else match ParseIPAddr (Gw addrAlloc) (Some ifaceAddr) with
      | inr err => (None, false, Some err)
      | inl (gwAddr, neighGw) => (Some (MkIPAllocMetadata (Some ifaceAddr) (Some gwAddr)), neighGw, None)
      end
  end.

(** *** The callbacks *)

Definition IPAllocDescriptorName : string := "netalloc-ip-address".

Definition alloc_Validate (key : string) (addrAlloc : IPAllocation) : option error := (parseAddr addrAlloc).2.

Definition alloc_Create (key : string) (addrAlloc : IPAllocation) (w : World) :
    (option IPAllocMetadata * option error) * World :=
  let '(metadata, _, err) := parseAddr addrAlloc in ((metadata, err), w).

Definition alloc_Delete (key : string) (addrAlloc : IPAllocation) (metadata : option IPAllocMetadata)
    (w : World) : option error * World := (None, w).

Definition alloc_DerivedValues (key : string) (addrAlloc : IPAllocation) : list KeyValuePair :=
  let '(_, neighGw, _) := parseAddr addrAlloc in
  if neighGw : bool
  then [MkKeyValuePair (NeighGwKey (NetworkName addrAlloc) (InterfaceName addrAlloc)) (Some emptypb_Empty)]
  else [].

Definition retrieve_one (addrAlloc : IPAllocKVWithMetadata) : option IPAllocKVWithMetadata :=
  match parseAddr (tkv_Value addrAlloc) with
  | (meta, _, None) => Some (MkTypedKV (tkv_Key addrAlloc) (tkv_Value addrAlloc) meta FromNB)
  | _ => None
  end.

Definition alloc_Retrieve (correlate : list IPAllocKVWithMetadata) (w : World) :
    (list IPAllocKVWithMetadata * option error) * World := ((omap retrieve_one correlate, None), w).

Definition NewAddrAllocDescriptor : KVDescriptor :=
  NewDescriptor {|
    td_Name := IPAllocDescriptorName;
    td_KeySelector := IsKeyValid ModelIPAllocation;
    td_KeyLabel := Some (StripKeyPrefix ModelIPAllocation);
    td_ValueComparator := None;
    td_NBKeyPrefix := km_KeyPrefix ModelIPAllocation;
    td_WithMetadata := true;
    td_MetadataMapFactory := None;
    td_Validate := Some alloc_Validate;
    td_Create := Some alloc_Create;
    td_Delete := Some alloc_Delete;
    td_Update := None;
    td_UpdateWithRecreate := None;
    td_Retrieve := Some alloc_Retrieve;
    td_IsRetriableFailure := None;
    td_DerivedValues := Some alloc_DerivedValues;
    td_Dependencies := None;
    td_RetrieveDependencies := []
  |}.

(** ** The plugin *)

(** The index of the metadata of allocations, from the scheduler. *)
Context (ipIndex : Mapping).

Definition CreateAddressAllocRef (network iface : string) (getGW : bool) : string :=
  let ref := AllocRefPrefix +:+ network in
  let ref := if is_empty iface then ref else ref +:+ ("/" +:+ iface) in
  if getGW then ref +:+ AllocRefGWSuffix else ref.

Definition ParseAddressAllocRef (addrAllocRef expIface : string) : AllocRef error :=
  ParseAddrAllocRef addrAllocRef expIface.

Definition no_dependency : Dependency := MkDependency "" "" (MkAnyOf [] None).

Definition GetAddressAllocDep (addrOrAllocRef ifaceName depLabelPrefix : string) : outcome (Dependency * bool) :=
  let ref := ParseAddrAllocRef addrOrAllocRef ifaceName in
  match ar_isRef ref, ar_err ref with
  | true, None =>
      key ← models_Key (MkIPAllocation (ar_network ref) (ar_iface ref) "" "");
      Ok (MkDependency (depLabelPrefix +:+ addrOrAllocRef) key (MkAnyOf [] None), true)
  | _, _ => Ok (no_dependency, false)
  end.

(** [GwValidityCheck]: an integer with three named values. *)
Definition GWRefAllowed : Z := 0.
Definition GWRefRequired : Z := 1.
Definition GwRefUnexpected : Z := 2.

Definition ValidateIPAddress (addrOrAllocRef ifaceName fieldName : string) (gwCheck : Z) : option error :=
  let ref := ParseAddrAllocRef addrOrAllocRef ifaceName in
  let err :=
    if negb (ar_isRef ref) then
      match ParseIPAddr addrOrAllocRef None with inl _ => None | inr e => Some e end
    else match ar_err ref with
    | Some e => Some e
    | None =>
        if (gwCheck =? GWRefRequired)%Z then
          (if ar_isGW ref then None else Some (errorf "expected GW address reference"))
        else if (gwCheck =? GwRefUnexpected)%Z then
          (if ar_isGW ref then Some (errorf "expected non-GW address reference") else None)
        else None
    end in
  match err with
  | None => None
  | Some e => Some (NewInvalidValueError (Some e) (if is_empty fieldName then [] else [fieldName]))
  end.

(** A nil pointer with a nil error does not occur here but in the forms. *)
Definition GetOrParseIPAddress (addrOrAllocRef ifaceName : string) (addrForm : IPAddressForm) :
    outcome (option IPNet * option error) :=
  let ref := ParseAddrAllocRef addrOrAllocRef ifaceName in
  let fail msg := Ok (None, Some (errorf msg)) in
  match ar_isRef ref, ar_err ref with
  | true, Some err => Ok (None, Some err)
  | true, None =>
      allocName ← models_Name (MkIPAllocation (ar_network ref) (ar_iface ref) "" "");
      match nm_GetValue ipIndex allocName with
      | None => fail ("failed to find metadata for IP address allocation '" +:+ allocName +:+ "'")
      | Some allocVal =>
          match as_IPAllocMetadata allocVal with
          | None => fail ("invalid type of metadata stored for IP address allocation '" +:+ allocName +:+ "'")
          | Some None => Panic "nil pointer dereference"
          | Some (Some allocMeta) =>
              if ar_isGW ref then
                match GwAddr allocMeta with
                | None => fail ("gw address is not defined for IP address allocation '" +:+ allocName +:+ "'")
                | Some gw => a ← GetIPAddrInGivenForm (Some gw) addrForm; Ok (a, None)
                end
              else a ← GetIPAddrInGivenForm (IfaceAddr allocMeta) addrForm; Ok (a, None)
          end
      end
  | false, _ =>
      match ParseIPAddr addrOrAllocRef None with
      | inr err => Ok (None, Some err)
      | inl (ipAddr, _) => a ← GetIPAddrInGivenForm (Some ipAddr) addrForm; Ok (a, None)
      end
  end.

(** [expAddrsOrRefs] with what they parse to (nil when they do not). *)
Fixpoint parse_expected (expAddrsOrRefs : list string) (ifaceName : string) (addrForm : IPAddressForm) :
    outcome (list (string * option IPNet)) :=
  match expAddrsOrRefs with
  | [] => Ok []
  | addr :: l =>
      r ← GetOrParseIPAddress addr ifaceName addrForm;
      rest ← parse_expected l ifaceName addrForm;
      Ok ((addr, r.1) :: rest)
  end.

Definition same_address (addrForm : IPAddressForm) (ipAddr : IPNet) (expAddr : option IPNet) : bool :=
  match expAddr with
  | None => false
  | Some expAddr =>
      bool_decide (IP ipAddr = IP expAddr)
      && (bool_decide (addrForm = ADDR_ONLY) || bool_decide (Mask ipAddr = Mask expAddr))
  end.

Definition correlate_one (expParsed : list (string * option IPNet)) (addrForm : IPAddressForm) (addr : string) :
    string :=
  match ParseIPAddr addr None with
  | inr _ => addr
  | inl (ipAddr, _) =>
      match list_find (fun e => Is_true (same_address addrForm ipAddr e.2)) expParsed with
      | Some (_, e) => e.1
      | None => addr
      end
  end.

Definition CorrelateRetrievedIPs (expAddrsOrRefs retrievedAddrs : list string) (ifaceName : string)
    (addrForm : IPAddressForm) : outcome (list string) :=
  expParsed ← parse_expected expAddrsOrRefs ifaceName addrForm;
  Ok (map (correlate_one expParsed addrForm) retrievedAddrs).
End netalloc.

Example alloc_names : forall a, a = MkIPAllocation "blue" "eth0" "10.0.0.1/24" "" ->
  models_Name a = Ok "network/blue/interface/eth0"
  /\ models_Key a = Ok "config/netalloc/v1/ip/network/blue/interface/eth0"
  /\ IsKeyValid ModelIPAllocation "config/netalloc/v1/ip/network/blue/interface/eth0" = true
  /\ StripKeyPrefix ModelIPAllocation "config/netalloc/v1/ip/network/blue/interface/eth0" = "network/blue/interface/eth0".
Proof. intros a ->. vm_compute. done. Qed.

(** An interface with the name of the suffix is taken for the gateway. *)
Example ref_of_GW {X : Ext} : ParseAddrAllocRef (CreateAddressAllocRef "blue" "GW" false) "eth0"
  = MkAllocRef _ "blue" "eth0" true true None.
Proof. reflexivity. Qed.
(** An empty interface name after the slash is not noticed. *)
Example ref_no_iface {X : Ext} : ParseAddrAllocRef "alloc:blue/" "" = MkAllocRef _ "blue" "" false true None.
Proof. reflexivity. Qed.
(** An IPv4 address mapped to IPv6 keeps the mask of sixteen bytes. *)
Example mapped_mask {X : Ext} : ParseIPAddr "::ffff:10.0.0.1/120" None
  = inl (MkIPNet [10; 0; 0; 1]%Z (replicate 15 255 ++ [0])%Z, false).
Proof. reflexivity. Qed.
