(* ===== verification/NetallocFacts.v ===== *)
(** * The network allocation is consistent

    References name what they were created for, and lead to the key and to the
    metadata of the allocation; a gateway is a neighbour when it shares the first
    bits of the address; correlation gives the expected text for an address; the
    descriptor behaves as the scheduler expects. *)
From S2P Require Import Prelude GoStrings GoNet GoNetFacts GoTemplate GoRegexp NetallocProto Models ModelFacts AgentModels.
From S2P Require Import Monad Api Descriptor Netalloc.

(** ** References *)

Lemma last_part s : exists l x, Split s = l ++ [x].
Proof.
  destruct (exists_last (Split_ne s)) as (l & x & E). by exists l, x.
Qed.

Lemma suffix_last s : HasSuffix s AllocRefGWSuffix = true -> exists l, Split s = l ++ ["GW"] /\ l <> [].
Proof.
  intros [a ->]%HasSuffix_spec. exists (Split a). change AllocRefGWSuffix with ("/" +:+ "GW"). split; [by rewrite Split_sep|].
  apply Split_ne.
Qed.

(** Names of networks, and of interfaces that are not taken for the suffix. *)
Definition network_name (s : string) : Prop := no_slash s /\ kept s.
Definition iface_name (s : string) : Prop := Forall kept (Split s) /\ last (Split s) <> Some "GW".

Lemma kept_ne s : Forall kept (Split s) -> s <> "".
Proof. intros H ->. cbn in H. apply Forall_cons in H as [[H _] _]. done. Qed.

Lemma network_no_suffix n : network_name n -> HasSuffix n AllocRefGWSuffix = false.
Proof.
  intros [Hs _]. destruct (HasSuffix n AllocRefGWSuffix) eqn:E; [|done]. apply suffix_last in E as (l & E & Hl).
  rewrite (Split_last n Hs) in E. destruct l as [|x [|y l]]; by injection E.
Qed.

Lemma iface_no_suffix n i : iface_name i -> HasSuffix (n +:+ "/" +:+ i) AllocRefGWSuffix = false.
Proof.
  intros [_ Hi]. destruct (HasSuffix (n +:+ "/" +:+ i) AllocRefGWSuffix) eqn:E; [|done].
  apply suffix_last in E as (l & E & _). rewrite Split_sep in E. destruct (last_part i) as (l' & x & Ei).
  rewrite Ei, app_assoc in E. apply app_inj_tail in E as [_ ->]. rewrite Ei, last_snoc in Hi. done.
Qed.

Section refs.
Context {X : Ext}.

(** The text of a reference, and the interface that is expected with it. *)
Definition names_alloc (n i : string) (gw : bool) (ref exp : string) : Prop :=
  ref = CreateAddressAllocRef n i gw /\ (exp = "" \/ exp = i) \/ ref = CreateAddressAllocRef n "" gw /\ exp = i.

(** What is parsed of a reference without its prefix. *)
Definition ref_body (n : string) (i : option string) (gw : bool) : string :=
  (match i with Some i => n +:+ "/" +:+ i | None => n end) +:+ (if gw then AllocRefGWSuffix else "").

Lemma create_ref n i gw : CreateAddressAllocRef n i gw
  = AllocRefPrefix +:+ ref_body n (if is_empty i then None else Some i) gw.
Proof.
  unfold CreateAddressAllocRef, ref_body. destruct (is_empty i), gw; rewrite ?append_nil_r, ?append_assoc; done.
Qed.

Lemma parse_ref n i gw exp : network_name n -> (forall j, i = Some j -> iface_name j) ->
  (match i with Some j => exp = "" \/ exp = j | None => exp <> "" end) ->
  ParseAddrAllocRef (AllocRefPrefix +:+ ref_body n i gw) exp
  = MkAllocRef _ n (from_option id exp i) gw true None.
Proof.
  intros Hn Hi Hexp. unfold ParseAddrAllocRef. rewrite prefix_app, TrimPrefix_app. cbn [negb].
  set (body := match i with Some i => n +:+ "/" +:+ i | None => n end).
  assert (HasSuffix body AllocRefGWSuffix = false) as Hb.
  { unfold body. destruct i as [j|]; [by apply iface_no_suffix, Hi|by apply network_no_suffix]. }
  assert (HasSuffix (ref_body n i gw) AllocRefGWSuffix = gw
    /\ (if gw then TrimSuffix (ref_body n i gw) AllocRefGWSuffix else ref_body n i gw) = body) as [-> ->].
  { unfold ref_body. fold body. destruct gw; [by rewrite HasSuffix_app, TrimSuffix_app|by rewrite append_nil_r]. }
  destruct Hn as [Hns [Hne _]]. unfold body. destruct i as [j|]; cbn [from_option id].
  - rewrite cut_slash_app by done. unfold is_empty. rewrite (proj2 (String.eqb_neq n "") Hne).
    destruct Hexp as [->| ->]; [done|]. by rewrite String.eqb_refl, andb_false_r.
  - rewrite cut_slash_none by done. unfold is_empty. rewrite (proj2 (String.eqb_neq n "") Hne).
    by rewrite (proj2 (String.eqb_neq exp "") Hexp).
Qed.

Lemma parse_named n i gw ref exp : network_name n -> iface_name i -> names_alloc n i gw ref exp ->
  ParseAddrAllocRef ref exp = MkAllocRef _ n i gw true None.
Proof.
  intros Hn Hi [(-> & He)|(-> & ->)]; rewrite create_ref.
  - assert (is_empty i = false) as -> by (apply String.eqb_neq, kept_ne, Hi).
    rewrite parse_ref; [done|done|by intros j [= <-]|done].
  - change (is_empty "") with true. rewrite parse_ref; [done|done|done|apply kept_ne, Hi].
Qed.
End refs.

(** ** Keys and names of allocations *)

Definition alloc_name (n i : string) : string := "network/" +:+ n +:+ "/interface/" +:+ i.

Lemma alloc_InstanceName a :
  InstanceName ModelIPAllocation a = inl (alloc_name (NetworkName a) (InterfaceName a)).
Proof.
  transitivity (inl ("network/" +:+ NetworkName a +:+ "/interface/" +:+ InterfaceName a +:+ "") : string + string);
    [reflexivity|]. by rewrite append_nil_r.
Qed.

Lemma DefaultRegistry_eq :
  DefaultRegistry = Ok (put_model NewRegistry ModelIPAllocation "*netalloc.IPAllocation").
Proof. vm_compute. reflexivity. Qed.

Lemma alloc_model r (x : IPAllocation) : r = put_model NewRegistry ModelIPAllocation "*netalloc.IPAllocation" ->
  GetModelFor r (Some x) = inl ModelIPAllocation.
Proof. intros ->. reflexivity. Qed.

Lemma models_Name_eq a : models_Name a = Ok (alloc_name (NetworkName a) (InterfaceName a)).
Proof.
  unfold models_Name. rewrite DefaultRegistry_eq, outcome_bind_ret. unfold GetName_of.
  by rewrite (alloc_model _ a eq_refl), alloc_InstanceName.
Qed.

Lemma models_Key_eq a : models_Key a
  = Ok (path_Join (km_KeyPrefix ModelIPAllocation) (alloc_name (NetworkName a) (InterfaceName a))).
Proof.
  unfold models_Key. rewrite DefaultRegistry_eq, outcome_bind_ret. unfold GetKeyUsingModelRegistry.
  by rewrite (alloc_model _ a eq_refl), alloc_InstanceName.
Qed.

Lemma Split_alloc_name n i : network_name n -> Split (alloc_name n i) = ["network"; n; "interface"] ++ Split i.
Proof.
  intros [Hn _]. unfold alloc_name. change ("network/" +:+ ?x) with ("network" +:+ "/" +:+ x).
  change ("/interface/" +:+ i) with ("/" +:+ ("interface" +:+ "/" +:+ i)).
  rewrite Split_cons by done. rewrite Split_cons by done. by rewrite Split_cons.
Qed.

Lemma alloc_name_kept n i : network_name n -> iface_name i -> Forall kept (Split (alloc_name n i)).
Proof.
  intros Hn [Hi _]. rewrite Split_alloc_name by done. apply Forall_app_2; [|done].
  repeat apply Forall_cons_2; [by split_and!|apply Hn|by split_and!|by apply Forall_nil_2].
Qed.

Lemma alloc_name_for n i : network_name n -> iface_name i ->
  name_for ModelIPAllocation (alloc_name n i) /\ tidy (alloc_name n i) = alloc_name n i.
Proof.
  intros Hn Hi. pose proof (alloc_name_kept n i Hn Hi) as Hk. pose proof (tidy_kept _ Hk) as Ht. split; [|done].
  change (clean_name (alloc_name n i)). split; [|by rewrite Ht].
  eapply Forall_impl; [exact Hk|]. by right.
Qed.

Lemma alloc_valid : valid_model ModelIPAllocation.
Proof. by vm_compute. Qed.

(** The descriptor takes the key, and labels it with the name. *)
Lemma alloc_key n i : network_name n -> iface_name i ->
  exists key, path_Join (km_KeyPrefix ModelIPAllocation) (alloc_name n i) = key
    /\ IsKeyValid ModelIPAllocation key = true /\ StripKeyPrefix ModelIPAllocation key = alloc_name n i.
Proof.
  intros Hn Hi. destruct (alloc_name_for n i Hn Hi) as [Hf Ht]. eexists. split; [reflexivity|].
  rewrite (model_key_eq _ _ alloc_valid Hf). unfold IsKeyValid, StripKeyPrefix.
  rewrite (ParseKey_own _ _ alloc_valid Hf), Ht. done.
Qed.

Section plugin.
Context {X : Ext} {NT : NetallocTypes}.

(** Type assertions recover what was converted. *)
Class NetallocLaws : Prop := {
  as_of_alloc : forall a, as_IPAllocation (of_IPAllocation a) = Some a;
  of_as_alloc : forall v a, as_IPAllocation v = Some a -> of_IPAllocation a = v;
  as_of_meta : forall m, as_IPAllocMetadata (of_IPAllocMetadata m) = Some m
}.
Context {NL : NetallocLaws}.

(** The metadata of the allocation in the requested form. *)
Definition meta_addr (md : IPAllocMetadata) (gw : bool) : option IPNet := if gw then GwAddr md else IfaceAddr md.

(** C14: A reference leads to what it was created for.  Whether it names the
    interface or leaves it to the expected one, it is parsed to the network, the
    interface and the kind of address it was created with; the dependency made
    of it is on the key of the allocation, which the descriptor of allocations
    selects; and the address is taken, in the requested form, from the metadata
    that are stored under the label of that key.  The interface must not be
    called like the suffix of gateway references. *)
Theorem alloc_ref_resolves (ipIndex : Mapping) (a : IPAllocation) (gw : bool) (ref exp label : string) :
  network_name (NetworkName a) -> iface_name (InterfaceName a) ->
  names_alloc (NetworkName a) (InterfaceName a) gw ref exp ->
  ParseAddressAllocRef ref exp = MkAllocRef _ (NetworkName a) (InterfaceName a) gw true None
  /\ exists key, models_Key a = Ok key
    /\ GetAddressAllocDep ref exp label = Ok (MkDependency (label +:+ ref) key (MkAnyOf [] None), true)
    /\ d_KeySelector NewAddrAllocDescriptor key = true
    /\ forall md addr form,
         nm_GetValue ipIndex (keyLabel (Some NewAddrAllocDescriptor) key) = Some (of_IPAllocMetadata (Some md)) ->
         meta_addr md gw = Some addr ->
         exists r, GetIPAddrInGivenForm (Some addr) form = Ok (Some r)
           /\ GetOrParseIPAddress ipIndex ref exp form = Ok (Some r, None).
Proof.
  intros Hn Hi Href. pose proof (parse_named _ _ _ _ _ Hn Hi Href) as E. split; [exact E|].
  destruct (alloc_key _ _ Hn Hi) as (key & Ek & Hsel & Hlab). exists key.
  split; [by rewrite models_Key_eq, Ek|]. split.
  { unfold GetAddressAllocDep. rewrite E. cbn [ar_isRef ar_err ar_network ar_iface].
    by rewrite models_Key_eq, outcome_bind_ret, <- Ek. }
  split; [exact Hsel|]. intros md addr form Hmd Ha.
  assert (exists r, GetIPAddrInGivenForm (Some addr) form = Ok (Some r)) as [r Hr] by (destruct form; by eexists).
  exists r. split; [exact Hr|]. unfold GetOrParseIPAddress. rewrite E. cbn [ar_isRef ar_err ar_network ar_iface ar_isGW].
  rewrite models_Name_eq, outcome_bind_ret. cbn [NetworkName InterfaceName].
  change (keyLabel (Some NewAddrAllocDescriptor) key) with (StripKeyPrefix ModelIPAllocation key) in Hmd.
  rewrite Hlab in Hmd. rewrite Hmd, as_of_meta. unfold meta_addr in Ha.
  destruct gw; rewrite Ha, Hr; by rewrite outcome_bind_ret.
Qed.

(** ** Parsed addresses *)

Lemma short_ip_parsed ip : ip_ok 16 ip -> parsed_ip (short_ip ip).
Proof.
  intros [Hl Hb]. unfold short_ip, is_v4.
  destruct (decide (take 12 ip = v4InV6Prefix)) as [Hp|Hp].
  - assert (To4 ip = drop 12 ip) as ->.
    { unfold To4. rewrite Hl. cbn [Nat.eqb andb]. by rewrite bool_decide_eq_true_2. }
    rewrite length_drop, Hl. cbn [Nat.sub Nat.eqb negb]. left. split; [by rewrite length_drop, Hl|by apply Forall_drop].
  - rewrite To4_16 by done. right. by split.
Qed.

Lemma short_ip_16 ip : ip_ok 16 ip -> take 12 ip = v4InV6Prefix -> ip_ok 4 (short_ip ip).
Proof.
  intros Hip Hp. destruct (short_ip_parsed ip Hip) as [H|[[Hl _] Hn]]; [done|]. exfalso.
  unfold short_ip, is_v4, To4 in *. rewrite (proj1 Hip) in *. cbn [Nat.eqb andb] in *.
  rewrite (bool_decide_eq_true_2 _ Hp), length_drop, (proj1 Hip) in Hl. cbn in Hl. rewrite length_drop, (proj1 Hip) in Hl. done.
Qed.

Lemma is_v4_parsed ip : parsed_ip ip -> is_v4 ip = (length ip =? 4).
Proof.
  intros Hip. unfold is_v4. rewrite (To4_parsed ip Hip). by destruct (Nat.eqb_spec (length ip) 4) as [->|].
Qed.

Lemma parsed_full_mask ip : parsed_ip ip ->
  parsed_net (MkIPNet ip (if is_v4 ip then CIDRMask 32 32 else CIDRMask 128 128)).
Proof.
  intros Hip. rewrite (is_v4_parsed ip Hip). destruct Hip as [H|[H Hn]].
  - rewrite (proj1 H). change (CIDRMask 32 32) with (mask_bytes 4 32). by apply parsed_v4.
  - rewrite (proj1 H). change (CIDRMask 128 128) with (mask_bytes 16 128). by apply parsed_v6.
Qed.

Lemma ParseIPAddr_parsed s net b : ParseIPAddr s None = inl (net, b) -> parsed_net net /\ b = false.
Proof.
  unfold ParseIPAddr. cbn [fmap option_fmap option_map]. destruct (has_slash s).
  - destruct (ParseCIDR s) as [[ip n]|] eqn:E; [|done]. intros [= <- <-]. split; [|done].
    apply ParseCIDR_ok in E as (Hip & ones & [(Em & Ho & Hp)|(Em & Ho)]); rewrite Em.
    + apply parsed_v4; [by apply short_ip_16|done].
    + destruct (short_ip_parsed ip Hip) as [H|[H Hn]]; [by apply parsed_mapped|by apply parsed_v6].
  - destruct (ParseIP_ok s) as [->|[Hip _]]; [done|]. rewrite (proj1 Hip). cbn [Nat.eqb].
    intros [= <- <-]. split; [|done]. by apply parsed_full_mask, short_ip_parsed.
Qed.

Lemma ParseIPAddr_expected s net g b : parsed_net net -> ParseIPAddr s (Some net) = inl (g, b) ->
  parsed_ip (IP g) /\ b = shares_prefix net (IP g) /\ (has_slash s = false -> b = true -> Mask g = Mask net).
Proof.
  intros Hnet. unfold ParseIPAddr. cbn [fmap option_fmap option_map]. destruct (has_slash s).
  - destruct (ParseCIDR s) as [[ip n]|] eqn:E; [|done]. apply ParseCIDR_ok in E as (Hip%short_ip_parsed & _).
    intros [= <- <-]. cbn [IP]. rewrite Contains_prefix by done. by split_and!.
  - destruct (ParseIP_ok s) as [->|[Hip%short_ip_parsed _]]; [done|].
    destruct (length (ParseIP s) =? 0); [done|]. cbn [Mask]. rewrite Contains_prefix by done.
    destruct (shares_prefix net (short_ip (ParseIP s))) eqn:Hs; intros [= <- <-]; cbn [IP Mask]; by rewrite Hs.
Qed.

(** C29: The gateway of an allocation is derived as a neighbour of the interface
    exactly when it is an address of the same family and shares the first bits
    of the address of the interface, as many as its mask has ones.  (Of an IPv4
    address written as IPv6, with a mask of 128 bits, the first 96 ones do not
    count.)  The metadata hold both addresses, and a gateway without a mask of
    its own has the mask of the interface when it is a neighbour. *)
Theorem gateway_neighbour (key : string) (a : IPAllocation) :
  alloc_Validate key a = None -> Gw a <> "" ->
  exists net g, ParseIPAddr (Address a) None = inl (net, false)
    /\ (parseAddr a).1.1 = Some (MkIPAllocMetadata (Some net) (Some g))
    /\ alloc_DerivedValues key a =
         (if shares_prefix net (IP g)
          then [MkKeyValuePair (NeighGwKey (NetworkName a) (InterfaceName a)) (Some emptypb_Empty)] else [])
    /\ (has_slash (Gw a) = false -> shares_prefix net (IP g) = true -> Mask g = Mask net).
Proof.
  intros Hv Hgw. unfold alloc_Validate, alloc_DerivedValues, parseAddr in *.
  destruct (ParseIPAddr (Address a) None) as [[net b]|err] eqn:E; [|done].
  destruct (ParseIPAddr_parsed _ _ _ E) as [Hnet ->].
  unfold is_empty in *. rewrite (proj2 (String.eqb_neq _ "") Hgw) in *.
  destruct (ParseIPAddr (Gw a) (Some net)) as [[g neigh]|err] eqn:Eg; [|done].
  destruct (ParseIPAddr_expected _ _ _ _ Hnet Eg) as (_ & -> & Hm).
  exists net, g. split_and!; [done|done|by destruct (shares_prefix net (IP g))|done].
Qed.

(** ** Correlation *)

Context (ipIndex : Mapping).

(** The index holds metadata as the descriptor makes them. *)
Definition index_ok : Prop := forall k m, nm_GetValue ipIndex k = Some m ->
  as_IPAllocMetadata m = None
  \/ exists md net, as_IPAllocMetadata m = Some (Some md) /\ IfaceAddr md = Some net.

Definition resolves (text ifaceName : string) (form : IPAddressForm) (net : IPNet) : Prop :=
  GetOrParseIPAddress ipIndex text ifaceName form = Ok (Some net, None).

(** The address, and unless only that matters the mask. *)
Definition agrees (form : IPAddressForm) (net net' : IPNet) : Prop :=
  IP net = IP net' /\ (form = ADDR_ONLY \/ Mask net = Mask net').

Lemma form_some a form : exists r, GetIPAddrInGivenForm (Some a) form = Ok (Some r).
Proof. destruct form; by eexists. Qed.

Lemma resolve_total text ifaceName form : index_ok ->
  (exists net, resolves text ifaceName form net)
  \/ exists err, GetOrParseIPAddress ipIndex text ifaceName form = Ok (None, Some err).
Proof.
  intros Hidx. unfold resolves, GetOrParseIPAddress. set (ref := ParseAddrAllocRef text ifaceName).
  destruct (ar_isRef ref).
  - destruct (ar_err ref); [right; by eexists|]. rewrite models_Name_eq, outcome_bind_ret.
    destruct (nm_GetValue ipIndex _) as [m|] eqn:Em; [|right; by eexists].
    destruct (Hidx _ _ Em) as [->|(md & net & -> & Hnet)]; [right; by eexists|].
    destruct (ar_isGW ref).
    + destruct (GwAddr md) as [gw|]; [|right; by eexists]. destruct (form_some gw form) as [r ->]. left. by exists r.
    + rewrite Hnet. destruct (form_some net form) as [r ->]. left. by exists r.
  - destruct (ParseIPAddr text None) as [[net b]|err]; [|right; by eexists].
    destruct (form_some net form) as [r ->]. left. by exists r.
Qed.

(** What the loop over the expected texts computes. *)
Definition parsed_as (ifaceName : string) (form : IPAddressForm) (text : string) (p : string * option IPNet) : Prop :=
  p.1 = text /\ forall net, p.2 = Some net <-> resolves text ifaceName form net.

Lemma parse_expected_ok exps ifaceName form : index_ok ->
  exists ps, parse_expected ipIndex exps ifaceName form = Ok ps /\ Forall2 (parsed_as ifaceName form) exps ps.
Proof.
  intros Hidx. induction exps as [|e exps (ps & E & H)]; [by exists []; split|]. cbn [parse_expected].
  rewrite E. unfold parsed_as in *.
  destruct (resolve_total e ifaceName form Hidx) as [[net Hnet]|[err Herr]].
  - exists ((e, Some net) :: ps). unfold resolves in *. rewrite Hnet, !outcome_bind_ret. split; [done|].
    constructor; [|done]. split; [done|]. intros net'. cbn. split; congruence.
  - exists ((e, None) :: ps). unfold resolves in *. rewrite Herr, !outcome_bind_ret. split; [done|].
    constructor; [|done]. split; [done|]. intros net'. cbn. split; congruence.
Qed.

Lemma same_address_spec form net o : Is_true (same_address form net o) <-> exists net', o = Some net' /\ agrees form net net'.
Proof.
  unfold same_address, agrees. destruct o as [net'|]; [|split; [done|by intros (? & ? & _)]].
  rewrite Is_true_true, andb_true_iff, orb_true_iff, !bool_decide_eq_true.
  split; [intros H; by exists net'|by intros (? & [= <-] & H)].
Qed.

Definition correlated (exps : list string) (ifaceName : string) (form : IPAddressForm) (retrieved c : string) : Prop :=
  match ParseIPAddr retrieved None with
  | inr _ => c = retrieved
  | inl (net, _) =>
      let misses e := forall net', resolves e ifaceName form net' -> ~ agrees form net net' in
      c = retrieved /\ Forall misses exps
      \/ exists pre post net', exps = pre ++ c :: post /\ resolves c ifaceName form net'
           /\ agrees form net net' /\ Forall misses pre
  end.

Lemma correlate_one_ok exps ps ifaceName form r : Forall2 (parsed_as ifaceName form) exps ps ->
  correlated exps ifaceName form r (correlate_one ps form r).
Proof.
  intros Hps. unfold correlated, correlate_one. destruct (ParseIPAddr r None) as [[net b]|err]; [|done].
  set (P := fun e : string * option IPNet => Is_true (same_address form net e.2)).
  assert (forall es qs, Forall2 (parsed_as ifaceName form) es qs -> Forall (fun q => ~ P q) qs ->
    Forall (fun e => forall net', resolves e ifaceName form net' -> ~ agrees form net net') es) as Hmiss.
  { induction 1 as [|e q es qs [_ Hq] _ IH]; [constructor|]. intros [Hn Hns]%Forall_cons.
    constructor; [|by apply IH]. intros net' Hr Ha. apply Hn, same_address_spec. exists net'. split; [by apply Hq|done]. }
  destruct (list_find P ps) as [[i q]|] eqn:E.
  - right. apply list_find_Some in E as (Hi & HP & Hbefore).
    apply same_address_spec in HP as (net' & Hq2 & Ha).
    destruct (Forall2_lookup_r _ _ _ _ _ Hps Hi) as (e & He & Heq & Hres). 
    exists (take i exps), (drop (S i) exps), net'. rewrite Heq. split_and!.
    + by rewrite take_drop_middle.
    + by apply Hres.
    + done.
    + apply (Hmiss _ (take i ps)); [by apply Forall2_take|]. apply Forall_lookup. intros j q' Hj.
      apply lookup_take_Some in Hj as [Hj Hlt]. by apply (Hbefore j).
  - left. split; [done|]. apply (Hmiss _ ps Hps). eapply list_find_None, E.
Qed.

(** Correlation returns one text for every retrieved address and does not
    panic on an index that the descriptor filled.  A text that is no address is
    returned as it is; for an address it is the first expected text that is, or
    refers to, the same address (and mask, unless only the address matters), and
    the retrieved text when there is none. *)
Theorem correlate_retrieved (exps retrieved : list string) (ifaceName : string) (form : IPAddressForm) :
  index_ok ->
  exists cs, CorrelateRetrievedIPs ipIndex exps retrieved ifaceName form = Ok cs
    /\ Forall2 (correlated exps ifaceName form) retrieved cs.
Proof.
  intros Hidx. destruct (parse_expected_ok exps ifaceName form Hidx) as (ps & E & Hps).
  unfold CorrelateRetrievedIPs. rewrite E, outcome_bind_ret. eexists. split; [reflexivity|].
  apply Forall2_fmap_r, Forall_Forall2_diag, Forall_forall. intros r _. by apply correlate_one_ok.
Qed.
End plugin.
