(* ===== verification/TargetFacts.v ===== *)
(** * Sorted lists of targets

    Targets and sources of a node are sorted by relation and label; here is what
    their lookup, insertion and removal do, and what adding and removing one
    source does to the set of sources. *)
From S2P Require Import Prelude KeySet Monad Api Flags EdgeLookup Graph.

Definition rl_cmp : string * string -> string * string -> comparison := cmp_lex String.compare String.compare.

#[export] Instance rl_cmp_ord : CmpOrd rl_cmp.
Proof. unfold rl_cmp. apply _. Qed.

(** ** Key sets of one or many keys *)

Section keys.
Context {MO : MapOrder}.

(** A set that can take the key without losing another. *)
Definition room (s : KeySet) (k : string) : Prop := is_singleton s -> ks_elems s ⊆ {[k]}.

Lemma ks_Add_room s k : ks_wf s -> k <> "" -> room s k ->
  ks_wf (ks_Add s k).1 /\ ks_elems (ks_Add s k).1 = {[k]} ∪ ks_elems s
  /\ (ks_Add s k).2 = negb (bool_decide (k ∈ ks_elems s))
  /\ (is_singleton (ks_Add s k).1 <-> is_singleton s).
Proof.
  intros Hwf Hk Hr. pose proof (ksi_add_spec (S:=KeySet) s k Hwf Hk) as (H1 & H2 & H3 & H4).
  pose proof (ksi_has_spec (S:=KeySet) s k Hwf Hk) as Hh. cbn in H1, H2, H3, H4, Hh.
  split; [exact H1|]. split; [|split; [by rewrite H4, Hh|by destruct s]].
  destruct s as [x|x|x].
  - specialize (Hr I). apply set_eq. intros y. split; [by apply H3|].
    intros [Hy|Hy]%elem_of_union; [set_solver|]. apply Hr in Hy. set_solver.
  - by apply (ks_Add_exact (KMap x) k); [|intros []].
  - by apply (ks_Add_exact (KSlice x) k); [|intros []].
Qed.

Lemma ks_Del_any s k : ks_wf s -> k <> "" ->
  ks_wf (ks_Del s k).1 /\ ks_elems (ks_Del s k).1 = ks_elems s ∖ {[k]}
  /\ (ks_Del s k).2 = bool_decide (k ∈ ks_elems s) /\ (is_singleton (ks_Del s k).1 <-> is_singleton s).
Proof.
  intros Hwf Hk. pose proof (ksi_del_spec (S:=KeySet) s k Hwf Hk) as (H1 & H2 & H3).
  pose proof (ksi_has_spec (S:=KeySet) s k Hwf Hk) as Hh. cbn in H1, H2, H3, Hh.
  split; [exact H1|]. split; [exact H2|]. split; [by rewrite H3, Hh|by destruct s].
Qed.
End keys.

(** ** Lookup *)

Definition tkey (t : Target) : string * string := (tg_Relation t, tg_Label t).
Definition tsorted (ts : list Target) : Prop := ssorted rl_cmp (tkey <$> ts).

Lemma lookupIdx_post (ts : list Target) relation label : tsorted ts ->
  lower_bound rl_cmp (relation, label) (tkey <$> ts) (lookupIdx ts relation label).
Proof.
  intros Hs. eapply (search_post_lower_bound rl_cmp) with (d := tkey tg_zero); [done|].
  rewrite length_fmap. unfold lookupIdx.
  erewrite sort_search_ext; [apply sort_search_post|]. intros i Hi. cbv zeta.
  cbn beta. replace (nth i (tkey <$> ts) (tkey tg_zero)) with (tkey (nth i ts tg_zero)) by (symmetry; apply map_nth).
  unfold cmp_leb, rl_cmp, cmp_lex, tkey. cbn [fst snd].
  unfold String.ltb, String.leb. destruct (String.compare relation (tg_Relation (nth i ts tg_zero))) eqn:E.
  - apply String.compare_eq_iff in E as ->. rewrite String.eqb_refl. cbn [andb].
    by destruct (String.compare label _).
  - done.
  - destruct (String.eqb_spec relation (tg_Relation (nth i ts tg_zero))) as [->|]; [|done].
    rewrite (cmp_refl String.compare) in E. done.
Qed.

Lemma tkey_lookup (ts : list Target) i t : ts !! i = Some t -> (tkey <$> ts) !! i = Some (tkey t).
Proof. intros Hi. by rewrite list_lookup_fmap, Hi. Qed.

(** The entry of a relation and a label, if there is one. *)
Lemma GetTarget_found (ts : list Target) i t : tsorted ts -> ts !! i = Some t ->
  GetTargetForLabel ts (tg_Relation t) (tg_Label t) = (Some t, i).
Proof.
  intros Hs Hi. pose proof (lookupIdx_post ts (tg_Relation t) (tg_Label t) Hs) as Hlb.
  pose proof (tkey_lookup ts i t Hi) as Hk.
  pose proof (lower_bound_found rl_cmp _ _ _ Hs Hlb (list_elem_of_lookup_2 _ _ _ Hk)) as Hr.
  assert (lookupIdx ts (tg_Relation t) (tg_Label t) = i) as E.
  { eapply (NoDup_lookup (tkey <$> ts)); [by apply (ssorted_NoDup rl_cmp)|exact Hr|exact Hk]. }
  unfold GetTargetForLabel, Targets. by rewrite E, Hi, !String.eqb_refl.
Qed.

Lemma GetTarget_missing (ts : list Target) relation label : tsorted ts -> (relation, label) ∉ tkey <$> ts ->
  exists idx, GetTargetForLabel ts relation label = (None, idx) /\ idx <= length ts
    /\ lower_bound rl_cmp (relation, label) (tkey <$> ts) idx.
Proof.
  intros Hs Hn. pose proof (lookupIdx_post ts relation label Hs) as Hlb.
  exists (lookupIdx ts relation label). split; [|split; [|done]].
  - unfold GetTargetForLabel, Targets. destruct (ts !! lookupIdx ts relation label) as [t|] eqn:E; [|done].
    destruct (String.eqb_spec (tg_Relation t) relation) as [<-|]; [|done].
    destruct (String.eqb_spec (tg_Label t) label) as [<-|]; [|done].
    destruct Hn. apply list_elem_of_fmap. exists t. split; [done|]. by eapply list_elem_of_lookup_2.
  - destruct Hlb as [H _]. by rewrite length_fmap in H.
Qed.

Lemma tkey_inj (ts : list Target) t t' : tsorted ts -> t ∈ ts -> t' ∈ ts -> tkey t = tkey t' -> t = t'.
Proof.
  intros Hs [i Hi]%list_elem_of_lookup [j Hj]%list_elem_of_lookup E.
  assert (i = j) as ->; [|congruence].
  eapply (NoDup_lookup (tkey <$> ts)); [by apply (ssorted_NoDup rl_cmp)| |];
    rewrite list_lookup_fmap, ?Hi, ?Hj; simpl; [done|by rewrite E].
Qed.

(** ** Insertion and removal *)

Lemma insert_target_eq idx t (ts : list Target) : idx <= length ts ->
  insert_target idx t ts = take idx ts ++ t :: drop idx ts.
Proof.
  intros Hi. unfold insert_target. assert (length (ts ++ [tg_zero]) = S (length ts)) as Hl
    by (rewrite length_app; cbn; lia).
  rewrite Hl, Nat.sub_1_r. cbn [Nat.pred].
  pose proof (go_copy_insert (ts ++ [tg_zero]) (length ts) idx t) as H.
  rewrite take_app_length in H. rewrite <- H by lia.
  rewrite take_ge; [done|]. rewrite length_insert. destruct (idx <? length ts); rewrite ?length_go_copy; lia.
Qed.

Lemma remove_target_eq idx (ts : list Target) : idx < length ts -> remove_target idx ts = delete idx ts.
Proof.
  intros Hi. unfold remove_target. rewrite go_copy_delete by lia. by rewrite take_ge by lia.
Qed.

Lemma tsorted_insert idx t (ts : list Target) : tsorted ts -> lower_bound rl_cmp (tkey t) (tkey <$> ts) idx ->
  tkey t ∉ tkey <$> ts -> idx <= length ts -> tsorted (insert_target idx t ts).
Proof.
  intros Hs Hlb Hn Hi. unfold tsorted. rewrite insert_target_eq by done.
  rewrite fmap_app, fmap_cons, fmap_take, fmap_drop. apply (ssorted_insert rl_cmp); [apply Hs|apply Hlb|apply Hn].
Qed.

Lemma tsorted_remove idx (ts : list Target) : tsorted ts -> tsorted (delete idx ts).
Proof.
  intros Hs. unfold tsorted. rewrite delete_take_drop, fmap_app, fmap_take, fmap_drop, <- delete_take_drop.
  apply (ssorted_delete rl_cmp), Hs.
Qed.

Lemma tkey_keys t ks : tkey (tg_with_keys t ks) = tkey t.
Proof. done. Qed.

Lemma fmap_tkey_insert (ts : list Target) i t t' : ts !! i = Some t -> tkey t' = tkey t ->
  tkey <$> <[i := t']> ts = tkey <$> ts.
Proof.
  intros Hi E. rewrite list_fmap_insert. apply list_insert_id. by rewrite list_lookup_fmap, Hi, E.
Qed.

(** ** The set of sources of a node *)

Section sources.
Context {MO : MapOrder}.

Definition src_has (ss : list Target) (relation label key : string) : Prop :=
  exists t, t ∈ ss /\ tkey t = (relation, label) /\ key ∈ ks_elems (tg_MatchingKeys t).

Definition many (t : Target) : Prop := ks_wf (tg_MatchingKeys t) /\ ~ is_singleton (tg_MatchingKeys t).
Definition src_ok (ss : list Target) : Prop := tsorted ss /\ Forall many ss.

(** Replacing the keys of one entry. *)
Lemma src_has_update (ss : list Target) i t ks relation label key : tsorted ss -> ss !! i = Some t ->
  src_has (<[i := tg_with_keys t ks]> ss) relation label key <->
  if decide ((relation, label) = tkey t) then key ∈ ks_elems ks else src_has ss relation label key.
Proof.
  intros Hs Hi. assert (tsorted (<[i := tg_with_keys t ks]> ss)) as Hs'.
  { unfold tsorted. by rewrite (fmap_tkey_insert ss i t). }
  assert (tg_with_keys t ks ∈ <[i := tg_with_keys t ks]> ss) as Hin.
  { eapply list_elem_of_lookup_2. apply list_lookup_insert_eq. by eapply lookup_lt_Some. }
  case_decide as Hd.
  - split.
    + intros (t' & Ht' & Hk & Hin'). rewrite Hd in Hk.
      by rewrite <- (tkey_inj _ (tg_with_keys t ks) t' Hs' Hin Ht') in Hin'.
    + intros Hin'. by exists (tg_with_keys t ks).
  - split; intros (t' & [j Hj]%list_elem_of_lookup & Hk & Hin').
    + apply list_lookup_insert_Some in Hj as [(-> & <- & _)|[_ Hj]]; [by destruct Hd|].
      exists t'. split; [by eapply list_elem_of_lookup_2|done].
    + exists t'. split; [|done]. eapply list_elem_of_lookup_2.
      rewrite list_lookup_insert_ne; [exact Hj|]. intros <-. destruct Hd. congruence.
Qed.

Lemma src_has_entry (ss : list Target) t relation label key : tsorted ss -> t ∈ ss -> tkey t = (relation, label) ->
  src_has ss relation label key <-> key ∈ ks_elems (tg_MatchingKeys t).
Proof.
  intros Hs Ht Hk. split; [|by exists t].
  intros (t' & Ht' & Hk' & Hin). rewrite (tkey_inj ss t t'); [done..|congruence].
Qed.

Lemma src_ok_update (ss : list Target) i t ks : src_ok ss -> ss !! i = Some t -> ks_wf ks -> ~ is_singleton ks ->
  src_ok (<[i := tg_with_keys t ks]> ss).
Proof.
  intros [Hs Hf] Hi H1 H2. split; [unfold tsorted; by rewrite (fmap_tkey_insert ss i t)|].
  apply Forall_insert; [done|by split].
Qed.

(** *** Adding a source *)

Definition with_entry (ss : list Target) (relation label : string) : list Target :=
  match GetTargetForLabel ss relation label with
  | (Some _, _) => ss
  | (None, idx) => insert_target idx (MkTarget relation label "" (NewSliceBasedKeySet [])) ss
  end.

Lemma with_entry_spec (ss : list Target) relation label : src_ok ss ->
  exists t, with_entry ss relation label !! (GetTargetForLabel ss relation label).2 = Some t
    /\ tkey t = (relation, label) /\ many t /\ src_ok (with_entry ss relation label)
    /\ forall r l k, src_has (with_entry ss relation label) r l k <-> src_has ss r l k.
Proof.
  intros [Hs Hf]. unfold with_entry.
  destruct (decide ((relation, label) ∈ tkey <$> ss)) as [Hin|Hn].
  - apply list_elem_of_fmap in Hin as (t & Hk & [i Hi]%list_elem_of_lookup).
    injection Hk as -> ->. rewrite (GetTarget_found ss i t Hs Hi). exists t. cbn [snd].
    split; [done|]. split; [done|]. split; [by eapply Forall_lookup_1|]. done.
  - destruct (GetTarget_missing ss relation label Hs Hn) as (idx & -> & Hi & Hlb). cbn [snd].
    set (t := MkTarget relation label "" (NewSliceBasedKeySet [])).
    assert (many t) as Hm.
    { split; [|by intros []]. apply (SliceFacts.NewSliceBasedKeySet_spec []). }
    assert (insert_target idx t ss = take idx ss ++ t :: drop idx ss) as E by by apply insert_target_eq.
    exists t. split; [|split; [done|split; [done|split; [split|]]]].
    + rewrite E. apply list_lookup_middle. by rewrite length_take_le.
    + by apply tsorted_insert.
    + rewrite E. apply Forall_app. split; [by apply Forall_take|]. constructor; [done|by apply Forall_drop].
    + intros r l k. unfold src_has. rewrite E. split.
      * intros (t' & Ht' & Hk & Hin). apply elem_of_app in Ht' as [Ht'|[->|Ht']%elem_of_cons].
        -- exists t'. split; [|done]. rewrite <- (take_drop idx ss). apply elem_of_app. by left.
        -- exfalso. cbn in Hin. unfold SliceSet.elems, SliceSet.Iterate in Hin. cbn in Hin. set_solver.
        -- exists t'. split; [|done]. rewrite <- (take_drop idx ss). apply elem_of_app. by right.
      * intros (t' & Ht' & Hk & Hin). exists t'. split; [|done].
        rewrite <- (take_drop idx ss) in Ht'. set_solver.
Qed.

(** *** Removing a source *)

Definition without_key (ss : list Target) (i : nat) (t : Target) (key : string) : list Target :=
  let ks := (ks_Del (tg_MatchingKeys t) key).1 in
  if ks_Length ks =? 0 then remove_target i ss else <[i := tg_with_keys t ks]> ss.

Lemma without_key_spec (ss : list Target) i t key : src_ok ss -> ss !! i = Some t -> key <> "" ->
  src_ok (without_key ss i t key)
  /\ forall r l k, src_has (without_key ss i t key) r l k <-> src_has ss r l k /\ ((r, l, k) <> (tkey t, key)).
Proof.
  intros [Hs Hf] Hi Hkey. destruct (Forall_lookup_1 _ _ _ _ Hf Hi) as [Hwf Hns].
  destruct (ks_Del_any (tg_MatchingKeys t) key Hwf Hkey) as (H1 & H2 & _ & H4).
  unfold without_key. set (ks := (ks_Del (tg_MatchingKeys t) key).1) in *.
  assert (ks_Length ks = size (ks_elems ks)) as Hlen by exact (ksi_length_spec (S:=KeySet) ks H1).
  assert (t ∈ ss) as Ht by by eapply list_elem_of_lookup_2.
  assert (forall r l k, (if decide ((r, l) = tkey t) then k ∈ ks_elems ks else src_has ss r l k)
    <-> src_has ss r l k /\ (r, l, k) <> (tkey t, key)) as Hiff.
  { intros r l k. case_decide as Hd; [|split; [intros ?; split; [done|congruence]|tauto]].
    rewrite (src_has_entry ss t) by done. rewrite H2, elem_of_difference, elem_of_singleton, Hd.
    split; intros [? ?]; (split; [done|congruence]). }
  destruct (ks_Length ks =? 0) eqn:E0.
  - apply Nat.eqb_eq in E0. rewrite Hlen in E0. apply size_empty_inv in E0.
    assert (i < length ss) as Hlt by by eapply lookup_lt_Some.
    rewrite remove_target_eq by done. split.
    + split; [by apply tsorted_remove|]. rewrite delete_take_drop. apply Forall_app.
      split; [by apply Forall_take|by apply Forall_drop].
    + intros r l k. rewrite <- Hiff. unfold src_has. split.
      * intros (t' & Ht' & Hk & Hin).
        assert (t' ∈ ss) as Ht'' by (rewrite delete_take_drop in Ht'; rewrite <- (take_drop_middle ss i t Hi); set_solver).
        case_decide as Hd; [|by exists t'].
        assert (t' = t) as -> by (apply (tkey_inj ss); congruence).
        exfalso. pose proof (tsorted_remove i ss Hs) as Hsd. clear -Ht' Hi Hs.
        apply list_elem_of_lookup in Ht' as [j Hj].
        destruct (decide (j < i)) as [Hji|Hji];
          [rewrite list_lookup_delete_lt in Hj by done|rewrite list_lookup_delete_ge in Hj by lia].
        -- assert (j = i); [|lia]. eapply (NoDup_lookup (tkey <$> ss)); [by apply (ssorted_NoDup rl_cmp)| |];
             by apply tkey_lookup.
        -- assert (S j = i); [|lia]. eapply (NoDup_lookup (tkey <$> ss)); [by apply (ssorted_NoDup rl_cmp)| |];
             by apply tkey_lookup.
      * case_decide as Hd; [rewrite E0; set_solver|].
        intros (t' & [j Hj]%list_elem_of_lookup & Hk & Hin). exists t'. split; [|done].
        rewrite delete_take_drop. rewrite <- (take_drop_middle ss i t Hi) in Hj. apply list_elem_of_lookup_2 in Hj.
        apply elem_of_app in Hj as [Hj|[->|Hj]%elem_of_cons]; [set_solver|congruence|set_solver].
  - split; [apply src_ok_update; [done|done|done|tauto]|]. intros r l k. by rewrite src_has_update, Hiff.
Qed.
End sources.
