(* ===== verification/GraphInv.v ===== *)
(** * What the edges of the graph are

    The targets of a node are the nodes that match its target definitions, and
    its sources are the nodes with a definition that it matches.  Here are the
    invariant that says so, with the intermediate states of the operations, and
    what the primitive operations do to it. *)
From S2P Require Import Prelude KeySet Monad Api Flags EdgeLookup LazyArray EdgeLookupFacts Graph GraphRW.
From S2P Require Import TargetFacts.

Section graph_inv.
Context {X : Ext} {MO : MapOrder}.

(** ** Nodes by key *)

(** The nodes of the graph; others may still be in the heap. *)
Definition gv (g : graphR) : gmap string node := omap (fun r => g_heap g !! r) (g_nodes g).

Definition heap_ok (g : graphR) : Prop :=
  (forall k r, g_nodes g !! k = Some r -> exists n, g_heap g !! r = Some n /\ n_key n = k)
  /\ (forall r n, g_heap g !! r = Some n -> r < g_next g).

Definition live (g : graphR) (k : string) (r : nat) (n : node) : Prop :=
  g_nodes g !! k = Some r /\ g_heap g !! r = Some n.

Lemma gv_live g k n : gv g !! k = Some n <-> exists r, live g k r n.
Proof. unfold gv, live. rewrite lookup_omap. by rewrite bind_Some. Qed.

Lemma live_key g k r n : heap_ok g -> live g k r n -> n_key n = k.
Proof. intros [H _] [H1 H2]. destruct (H k r H1) as (n' & H3 & H4). congruence. Qed.

Lemma live_gv g k r n : live g k r n -> gv g !! k = Some n.
Proof. intros H. apply gv_live. by exists r. Qed.

Lemma dom_gv g : heap_ok g -> dom (gv g) = dom (g_nodes g).
Proof.
  intros [H _]. apply set_eq. intros k. rewrite !elem_of_dom. unfold gv. rewrite lookup_omap. split.
  - intros [n Hn]. apply bind_Some in Hn as (r & Hr & _). by eexists.
  - intros [r Hr]. destruct (H k r Hr) as (n & Hn & _). exists n. apply bind_Some. by exists r.
Qed.

Lemma live_ref g k : heap_ok g -> k ∈ dom (gv g) -> exists r n, live g k r n.
Proof. intros _ [n Hn]%elem_of_dom. apply gv_live in Hn as [r Hr]. by exists r, n. Qed.

(** The parts of the graph that stay when nodes change. *)
Definition frame (g g' : graphR) : Prop :=
  g_nodes g' = g_nodes g /\ g_edgeLookup g' = g_edgeLookup g /\ g_next g' = g_next g /\ heap_ok g'.

Lemma frame_refl g : heap_ok g -> frame g g.
Proof. done. Qed.
Lemma frame_trans g1 g2 g3 : frame g1 g2 -> frame g2 g3 -> frame g1 g3.
Proof. intros (A1 & A2 & A3 & _) (B1 & B2 & B3 & B4). split_and!; congruence || done. Qed.

Lemma frame_live g g' k r n : frame g g' -> live g k r n -> exists n', live g' k r n'.
Proof.
  intros (E & _ & _ & [H _]) [H1 _]. rewrite <- E in H1. destruct (H k r H1) as (n' & Hn & _). by exists n'.
Qed.

(** An update of one node. *)
Lemma total_node_upd g k r n f (Q : unit -> graphR -> Prop) :
  heap_ok g -> live g k r n -> n_key (f n) = k ->
  (forall g', frame g g' -> gv g' = <[k := f n]> (gv g) -> g_unsaved g' = g_unsaved g -> live g' k r (f n) -> Q tt g') ->
  total g (node_upd r f) Q.
Proof.
  intros [Hh1 Hh2] [Hr Hn] Hk HQ. unfold node_upd, node_at.
  apply total_bind_assoc, total_get_bind. eapply total_deref_bind; [exact Hn|]. apply total_modify. apply HQ; [| | |split; [exact Hr|apply lookup_insert_eq]]; [| |done].
  - split; [done|]. split; [done|]. split; [done|]. split.
    + intros k' r' Hr'. cbn [g_nodes g_heap gset_heap] in *. destruct (decide (r' = r)) as [->|Hne].
      * exists (f n). rewrite lookup_insert_eq. split; [done|]. rewrite Hk.
        destruct (Hh1 k' r Hr') as (n1 & E1 & <-). destruct (Hh1 k r Hr) as (n2 & E2 & <-). congruence.
      * rewrite lookup_insert_ne by done. by apply Hh1.
    + intros r' n'. cbn [g_heap gset_heap g_next]. intros [[<- _]|[_ H]]%lookup_insert_Some; [by eapply Hh2|by eapply Hh2].
  - apply map_eq. intros k'. unfold gv. cbn [g_nodes g_heap gset_heap]. rewrite lookup_omap.
    destruct (decide (k' = k)) as [->|Hne].
    + rewrite lookup_insert_eq, Hr. cbn. by rewrite lookup_insert_eq.
    + rewrite lookup_insert_ne, lookup_omap by done. destruct (g_nodes g !! k') as [r'|] eqn:Er'; [|done]. cbn.
      rewrite lookup_insert_ne; [done|]. intros <-.
      destruct (Hh1 k' r Er') as (n1 & E1 & <-). destruct (Hh1 k r Hr) as (n2 & E2 & <-). congruence.
Qed.

Lemma total_node_upd_bind {B} g k r n f (h : unit -> G B) R :
  heap_ok g -> live g k r n -> n_key (f n) = k ->
  (forall g', frame g g' -> gv g' = <[k := f n]> (gv g) -> live g' k r (f n) -> total g' (h tt) R) ->
  total g (node_upd r f ≫= h) R.
Proof.
  intros Hh Hl Hk HR.
  eapply (total_bind _ _ _ (fun _ g' => frame g g' /\ gv g' = <[k := f n]> (gv g) /\ live g' k r (f n))).
  - eapply total_node_upd; eauto.
  - intros [] g' (F & V & L). auto.
Qed.

Lemma total_node_at {B} g k r n (f : node -> G B) R : live g k r n -> total g (f n) R -> total g (node_at r ≫= f) R.
Proof.
  intros [_ Hn] H. unfold node_at. apply total_bind_assoc, total_get_bind. by eapply total_deref_bind.
Qed.

Lemma total_node_ref {B} g k r n (f : option nat -> G B) R : live g k r n ->
  total g (f (Some r)) R -> total g (node_ref k ≫= f) R.
Proof. intros [Hr _] H. unfold node_ref. apply total_gets_bind. by rewrite Hr. Qed.

(** ** Target definitions *)

Definition dkey (td : RelationTargetDef) : string * string := (rtd_Relation td, rtd_Label td).
Definition dsorted (tds : list RelationTargetDef) : Prop := ssorted rl_cmp (dkey <$> tds).

(** The nodes that a definition selects. *)
Definition matches (td : RelationTargetDef) (k : string) : bool :=
  if negb (String.eqb (rtd_Key td) "") then String.eqb (rtd_Key td) k
  else match sel_KeyPrefixes (rtd_Selector td) with
       | [] => true
       | ps => existsb (fun p => String.prefix p k) ps
       end && match sel_KeySelector (rtd_Selector td) with Some f => f k | None => true end.

Lemma iterEveryEdge_spec (el : edgeLookup) td k : el_ok el ->
  k ∈ iterEveryEdge el td <-> k ∈ el_nodes el /\ matches td k = true.
Proof.
  intros [Hok _]. unfold iterEveryEdge, matches, WithKeySelector. rewrite elem_of_el_nodes.
  assert (forall key p, k ∈ iterTargets el key p <-> k ∈ nk_live el /\ target_match key p k = true) as Hit.
  { intros key p. by apply iterTargets_spec. }
  rewrite list_elem_of_filter.
  destruct (String.eqb (rtd_Key td) "") eqn:Ek; cbn [negb andb].
  - set (sel := match sel_KeySelector (rtd_Selector td) with Some f => f k | None => true end).
    assert (negb (bool_decide (is_Some (sel_KeySelector (rtd_Selector td)))) || sel = sel) as ->.
    { unfold sel. by destruct (sel_KeySelector (rtd_Selector td)). }
    rewrite andb_true_iff. destruct (sel_KeyPrefixes (rtd_Selector td)) as [|p ps].
    + rewrite Hit. cbn. assert (String.prefix "" k = true) as -> by by destruct k. tauto.
    + rewrite list_elem_of_In, in_concat, existsb_exists. split.
      * intros (Hsel & l & Hl & Hkl). apply in_map_iff in Hl as (q & <- & Hq).
        apply list_elem_of_In, Hit in Hkl as [H1 H2]. split; [done|]. split; [by exists q|done].
      * intros (Hl & (q & Hq & Hp) & Hsel). split; [done|]. exists (iterTargets el q true).
        split; [apply in_map_iff; by exists q|apply list_elem_of_In, Hit; done].
  - rewrite Hit. cbn. tauto.
Qed.

(** *** The edges of a definition *)

Definition tedges (k : string) (td : RelationTargetDef) : list edgeKey :=
  (fun e => ekey (stored e)) <$> target_edges k td.

Lemma tedges_source k td e : e ∈ tedges k td -> (e.1.1.2, (e.1.2, e.2)) = (k, dkey td).
Proof.
  intros (e0 & -> & He)%list_elem_of_fmap. unfold target_edges in He.
  destruct (negb (String.eqb (rtd_Key td) "")); [by apply list_elem_of_singleton in He as ->|].
  destruct (sel_KeyPrefixes (rtd_Selector td)) as [|p ps]; [by apply list_elem_of_singleton in He as ->|].
  by apply list_elem_of_fmap in He as (q & -> & _).
Qed.

Lemma total_addDelEdges g k r n td (del : bool) (Q : unit -> graphR -> Prop) :
  live g k r n -> n_key n = k -> el_ok (g_edgeLookup g) ->
  (forall el', el_ok el' -> el_nodes el' = el_nodes (g_edgeLookup g) ->
     (forall e, e ∈ el_edges el' <->
        if del then e ∈ el_edges (g_edgeLookup g) /\ e ∉ tedges k td
        else e ∈ el_edges (g_edgeLookup g) \/ e ∈ tedges k td) ->
     Q tt (gset_edgeLookup el' g)) ->
  total g (addDelEdges r td del) Q.
Proof.
  intros Hl Hk Hok HQ. unfold addDelEdges. eapply total_node_at; [exact Hl|]. rewrite Hk.
  eapply total_conseq; [apply (total_forM _ _ (fun done g' => exists el', g' = gset_edgeLookup el' g
    /\ el_ok el' /\ el_nodes el' = el_nodes (g_edgeLookup g) /\ forall e, e ∈ el_edges el' <->
        if del then e ∈ el_edges (g_edgeLookup g) /\ e ∉ ((fun e => ekey (stored e)) <$> done)
        else e ∈ el_edges (g_edgeLookup g) \/ e ∈ ((fun e => ekey (stored e)) <$> done)))|].
  - exists (g_edgeLookup g). split; [by destruct g|]. split; [done|]. split; [done|]. intros e.
    destruct del; cbn [fmap list_fmap]; rewrite elem_of_nil; tauto.
  - intros pre x post g' _ (el' & -> & Hok' & Hn & He). apply total_modify.
    cbn [g_edgeLookup gset_edgeLookup].
    destruct (addEdge_spec el' x Hok') as (A1 & A2 & A3). destruct (delEdge_spec el' x Hok') as (D1 & D2 & D3).
    exists ((if del then delEdge else addEdge) el' x). split; [done|].
    destruct del; (split; [done|]); (split; [congruence|]); intros e; rewrite ?A3, ?D3, fmap_app, ?elem_of_union,
      ?elem_of_difference, ?not_elem_of_app, ?elem_of_app, elem_of_singleton, He; cbn [fmap list_fmap];
      rewrite ?list_elem_of_singleton; tauto.
  - intros [] g' (el' & -> & H1 & H2 & H3). by apply HQ.
Qed.

(** ** Admissible keys and definitions

    [K] are the keys of nodes: not empty and trimmed.  Prefixes end with the
    separator and the directory itself is not a key.  A key and a selector are
    not given together, a definition with neither key nor prefix has a selector,
    and whether there is a selector depends on relation and label only. *)
Context (K : string -> Prop) (SEL : string * string -> bool).
Context (HK : forall k, K k -> k <> "" /\ trimTrailingDirSep k = k).

Definition dir_prefix (p : string) : Prop :=
  exists q, p = q +:+ "/" /\ q <> "" /\ trimTrailingDirSep q = q /\ ~ K q.

Record td_ok (td : RelationTargetDef) : Prop := {
  tok_sel : bool_decide (is_Some (sel_KeySelector (rtd_Selector td))) = SEL (dkey td);
  tok_key : rtd_Key td <> "" -> trimTrailingDirSep (rtd_Key td) = rtd_Key td /\ sel_KeySelector (rtd_Selector td) = None;
  tok_any : rtd_Key td = "" -> sel_KeyPrefixes (rtd_Selector td) = [] -> is_Some (sel_KeySelector (rtd_Selector td));
  tok_prefix : Forall dir_prefix (sel_KeyPrefixes (rtd_Selector td))
}.

(** The definition without its key selector. *)
Definition near (td : RelationTargetDef) (k : string) : bool :=
  if negb (String.eqb (rtd_Key td) "") then String.eqb (rtd_Key td) k
  else match sel_KeyPrefixes (rtd_Selector td) with
       | [] => true
       | ps => existsb (fun p => String.prefix p k) ps
       end.
Definition selected (td : RelationTargetDef) (k : string) : bool :=
  match sel_KeySelector (rtd_Selector td) with Some f => f k | None => true end.

Lemma matches_near td k : td_ok td -> matches td k = near td k && selected td k.
Proof.
  intros Hok. unfold matches, near, selected. destruct (String.eqb_spec (rtd_Key td) "") as [|Hne]; [done|]. cbn [negb].
  destruct (tok_key td Hok Hne) as [_ ->]. by rewrite andb_true_r.
Qed.

Lemma ekey_stored tk p src relation label :
  ekey (stored (MkEdge tk p src relation label false 0)) = (trimTrailingDirSep tk, p, src, relation, label).
Proof. reflexivity. Qed.

Lemma near_edges src td k : td_ok td -> K k ->
  near td k = true <-> exists tk p, (tk, p, src, rtd_Relation td, rtd_Label td) ∈ tedges src td
    /\ source_match k (tk, p, src, rtd_Relation td, rtd_Label td).
Proof.
  intros Hok Hk. unfold near, tedges, target_edges.
  destruct (String.eqb_spec (rtd_Key td) "") as [He|Hne]; cbn [negb].
  - destruct (sel_KeyPrefixes (rtd_Selector td)) as [|p ps] eqn:Ep.
    + split; [|done]. intros _. exists "", true. split; [by apply list_elem_of_singleton|]. right. split; [done|by left].
    + pose proof (tok_prefix td Hok) as Hp. rewrite Ep in Hp. rewrite existsb_exists. split.
      * intros (q0 & Hq0%list_elem_of_In & Hpre). rewrite Forall_forall in Hp.
        destruct (Hp q0 Hq0) as (q & -> & Hq1 & Hq2 & Hq3). exists q, true. split.
        -- apply list_elem_of_fmap. eexists. split; [|apply list_elem_of_fmap; by exists (q +:+ "/")].
           by rewrite ekey_stored, (trim_add_sep q Hq2).
        -- right. split; [done|by right].
      * intros (tk & b & Hin & Hm). apply list_elem_of_fmap in Hin as (e & E & Hin).
        apply list_elem_of_fmap in Hin as (q0 & -> & Hq0). rewrite Forall_forall in Hp.
        destruct (Hp q0 Hq0) as (q & -> & Hq1 & Hq2 & Hq3). rewrite ekey_stored, (trim_add_sep q Hq2) in E. injection E as -> ->.
        exists (q +:+ "/"). split; [by apply list_elem_of_In|].
        by destruct Hm as [->|[_ [->|Hm]]].
  - destruct (tok_key td Hok Hne) as [Ht _]. rewrite String.eqb_eq. split.
    + intros <-. exists (rtd_Key td), false. split; [|by left].
      apply list_elem_of_singleton. by rewrite ekey_stored, Ht.
    + intros (tk & b & Hin%list_elem_of_singleton & Hm). rewrite ekey_stored, Ht in Hin. injection Hin as -> ->. by destruct Hm as [->|[? _]].
Qed.

(** ** The invariant

    [D] are the definitions that the targets of the nodes are aligned with, [De]
    those whose edges are in the lookup and [Df] those the nodes carry; between
    the steps of an operation they differ for one node.  [WT] and [WS] are the
    connections that the targets and the sources record. *)
Abbreviation defs := (gmap string (list RelationTargetDef)).
Definition conn := string -> string * string -> gset string.

Definition upd2 (W : conn) (k : string) (rl : string * string) (s : gset string) : conn :=
  fun k' rl' => if decide (k' = k /\ rl' = rl) then s else W k' rl'.

Lemma upd2_eq W k rl s : upd2 W k rl s k rl = s.
Proof. unfold upd2. by rewrite decide_True. Qed.
Lemma upd2_ne W k rl s k' rl' : (k', rl') <> (k, rl) -> upd2 W k rl s k' rl' = W k' rl'.
Proof. intros H. unfold upd2. rewrite decide_False; [done|]. intros [-> ->]. by apply H. Qed.

Lemma upd2_same W k rl s k' rl' : s = W k rl -> upd2 W k rl s k' rl' = W k' rl'.
Proof. intros ->. unfold upd2. destruct (decide _) as [[-> ->]|]; done. Qed.
Lemma upd2_twice W k rl s s' k' rl' : upd2 (upd2 W k rl s) k rl s' k' rl' = upd2 W k rl s' k' rl'.
Proof. unfold upd2. destruct (decide _); done. Qed.

Definition tgt_ok (W : gset string) (td : RelationTargetDef) (t : Target) : Prop :=
  tkey t = dkey td /\ ks_wf (tg_MatchingKeys t)
  /\ (is_singleton (tg_MatchingKeys t) <-> Singleton_ td = true) /\ ks_elems (tg_MatchingKeys t) = W.

Record node_inv (D Df : defs) (WT WS : conn) (k : string) (n : node) : Prop := {
  ni_key : n_key n = k;
  ni_K : K k;
  ni_def : Df !! k = Some (n_targetsDef n);
  ni_tgt : exists ds, D !! k = Some ds /\ dsorted ds /\ Forall td_ok ds
    /\ Forall2 (fun td t => tgt_ok (WT k (dkey td)) td t) ds (n_targets n);
  ni_srcok : src_ok (n_sources n);
  ni_src : forall relation label k', src_has (n_sources n) relation label k' <-> k ∈ WS k' (relation, label)
}.

Record inv (De D Df : defs) (WT WS : conn) (g : graphR) : Prop := {
  iv_heap : heap_ok g;
  iv_dom : dom D = dom (gv g);
  iv_node : forall k n, gv g !! k = Some n -> node_inv D Df WT WS k n;
  iv_el : el_ok (g_edgeLookup g);
  iv_eln : el_nodes (g_edgeLookup g) = dom (gv g);
  iv_ele : forall e, e ∈ el_edges (g_edgeLookup g) <->
    exists k ds td, De !! k = Some ds /\ td ∈ ds /\ e ∈ tedges k td
}.

Lemma inv_live De D Df WT WS g k r n : inv De D Df WT WS g -> live g k r n -> node_inv D Df WT WS k n.
Proof. intros Hi Hl. eapply iv_node; [exact Hi|by eapply live_gv]. Qed.

(** A change of one node. *)
Lemma inv_upd De D Df WT WS WT' WS' g g' k n n' :
  inv De D Df WT WS g -> gv g !! k = Some n -> frame g g' -> gv g' = <[k := n']> (gv g) ->
  node_inv D Df WT' WS' k n' ->
  (forall k' n'', k' <> k -> node_inv D Df WT WS k' n'' -> node_inv D Df WT' WS' k' n'') ->
  inv De D Df WT' WS' g'.
Proof.
  intros [H1 H2 H3 H4 H5 H6] Hk (F1 & F2 & F3 & F4) Hv Hn Ho.
  assert (dom (gv g') = dom (gv g)) as Hd.
  { rewrite Hv, dom_insert_L. apply elem_of_dom_2 in Hk. set_solver. }
  split; [done|congruence| |by rewrite F2|congruence|by rewrite F2].
  intros k' n''. rewrite Hv. intros [(<- & <-)|(Hne & Hk')]%lookup_insert_Some; [done|]. apply Ho; auto.
Qed.

(** What does not touch nodes and edges. *)
Definition same_graph (g g' : graphR) : Prop :=
  g_nodes g' = g_nodes g /\ g_heap g' = g_heap g /\ g_next g' = g_next g /\ g_edgeLookup g' = g_edgeLookup g.

Lemma same_gv g g' : same_graph g g' -> gv g' = gv g.
Proof. intros (E1 & E2 & _). unfold gv. by rewrite E1, E2. Qed.
Lemma same_frame g g' : heap_ok g -> same_graph g g' -> frame g g'.
Proof.
  intros [H1 H2] (E1 & E2 & E3 & E4). split; [done|]. split; [done|]. split; [done|].
  split; [intros k r; rewrite E1, E2; apply H1|intros r n; rewrite E2, E3; apply H2].
Qed.
Lemma same_inv De D Df WT WS g g' : same_graph g g' -> inv De D Df WT WS g -> inv De D Df WT WS g'.
Proof.
  intros Hs [H1 H2 H3 H4 H5 H6]. pose proof (same_frame g g' H1 Hs) as (_ & _ & _ & Hh).
  pose proof (same_gv g g' Hs) as Hv. destruct Hs as (E1 & E2 & E3 & E4).
  split; rewrite ?Hv, ?E4; auto.
Qed.

Lemma total_add_unsaved De D Df WT WS g key (b : bool) : inv De D Df WT WS g ->
  total g (whenM b (add_unsaved key)) (fun _ g' => frame g g' /\ inv De D Df WT WS g').
Proof.
  intros Hi. assert (same_graph g (gset_unsaved (ks_Add (g_unsaved g) key).1 g)) as Hs by done.
  apply total_whenM; intros _.
  - apply total_modify. split; [apply same_frame; [apply Hi|done]|by eapply same_inv].
  - split; [apply frame_refl, Hi|done].
Qed.

(** *** Adding a source *)
Lemma total_addToSources De D Df WT WS g r2 k2 n2 key relation label :
  inv De D Df WT WS g -> live g k2 r2 n2 -> key <> "" ->
  total g (addToSources r2 key relation label) (fun _ g' => frame g g'
    /\ inv De D Df WT (upd2 WS key (relation, label) ({[k2]} ∪ WS key (relation, label))) g').
Proof.
  intros Hi Hl Hkey. pose proof (inv_live _ _ _ _ _ _ _ _ _ Hi Hl) as Hn. destruct Hn as [N1 N2 N3 N4 N5 N6].
  unfold addToSources. eapply total_node_at; [exact Hl|].
  destruct (with_entry_spec (n_sources n2) relation label N5) as (t & Ht & Hk & [Hwf Hns] & Hok & Hhas).
  unfold with_entry in Ht, Hok, Hhas.
  destruct (GetTargetForLabel (n_sources n2) relation label) as [s idx] eqn:Eg. cbn [snd] in Ht.
  set (sources := match s with Some _ => n_sources n2 | None => _ end).
  assert (sources !! idx = Some t) as Ht' by (unfold sources; destruct s; exact Ht).
  assert (src_ok sources) as Hok' by (unfold sources; destruct s; exact Hok).
  assert (forall r l k, src_has sources r l k <-> src_has (n_sources n2) r l k) as Hhas'
    by (unfold sources; destruct s; exact Hhas).
  clearbody sources. clear Ht Hok Hhas Eg s.
  eapply total_deref_bind; [exact Ht'|].
  destruct (ks_Add_exact (tg_MatchingKeys t) key Hwf Hns) as (A1 & A2 & A3 & _).
  destruct (ks_Add (tg_MatchingKeys t) key) as [ks updated]. cbn [fst] in A1, A2, A3.
  eapply total_node_upd_bind; [apply Hi|exact Hl|exact N1|]. intros g' Hf Hv _.
  eapply total_conseq; [eapply (total_add_unsaved De D Df WT (upd2 WS key (relation, label) ({[k2]} ∪ WS key (relation, label))))|].
  - eapply inv_upd; [exact Hi|by eapply live_gv|exact Hf|exact Hv| |].
    + split; [done|done|done|done|by eapply src_ok_update|].
      intros rel lab k'. cbn [n_sources nset_sources].
      rewrite (src_has_update sources idx t ks) by (apply Hok' || done). rewrite Hk.
      case_decide as Hd.
      * injection Hd as -> ->. rewrite A3, elem_of_union, elem_of_singleton.
        assert (k' ∈ ks_elems (tg_MatchingKeys t) <-> k2 ∈ WS k' (relation, label)) as Hin.
        { rewrite <- N6, <- Hhas'. symmetry. apply src_has_entry; [apply Hok'|by eapply list_elem_of_lookup_2|done]. }
        unfold upd2. case_decide as Hd2.
        -- destruct Hd2 as [-> _]. rewrite elem_of_union, elem_of_singleton. rewrite Hin. tauto.
        -- rewrite Hin. split; [intros [->|?]; [by destruct Hd2|done]|intros ?; by right].
      * rewrite Hhas', N6, upd2_ne; [done|]. intros [= _ -> ->]. by destruct Hd.
    + intros k' n'' Hne [M1 M2 M3 M4 M5 M6]. split; try done. intros rel lab k''. rewrite M6. unfold upd2.
      case_decide as Hd; [|done]. destruct Hd as [-> [= -> ->]].
      rewrite elem_of_union, elem_of_singleton. split; [intros ?; by right|by intros [?|?]].
  - intros [] g'' [Hf' Hi']. split; [by eapply frame_trans|exact Hi'].
Qed.

(** *** Removing a source *)
Lemma total_removeFromSources De D Df WT WS g r2 k2 n2 key relation label :
  inv De D Df WT WS g -> live g k2 r2 n2 -> key <> "" -> k2 ∈ WS key (relation, label) ->
  total g (removeFromSources r2 relation label key) (fun _ g' => frame g g'
    /\ inv De D Df WT (upd2 WS key (relation, label) (WS key (relation, label) ∖ {[k2]})) g').
Proof.
  intros Hi Hl Hkey Hin. pose proof (inv_live _ _ _ _ _ _ _ _ _ Hi Hl) as Hn. destruct Hn as [N1 N2 N3 N4 N5 N6].
  unfold removeFromSources. eapply total_node_at; [exact Hl|].
  destruct (proj2 (N6 relation label key) Hin) as (t & [i Ht]%list_elem_of_lookup & Hk & Hkin).
  pose proof (GetTarget_found (n_sources n2) i t (proj1 N5) Ht) as Eg. injection Hk as E1 E2.
  rewrite E1, E2 in Eg. rewrite Eg. eapply total_deref_bind; [reflexivity|].
  destruct (Forall_lookup_1 _ _ _ _ (proj2 N5) Ht) as [Hwf Hns].
  destruct (ks_Del_any (tg_MatchingKeys t) key Hwf Hkey) as (_ & _ & A3 & _).
  destruct (without_key_spec (n_sources n2) i t key N5 Ht Hkey) as [Hok Hhas]. unfold without_key in Hok, Hhas.
  destruct (ks_Del (tg_MatchingKeys t) key) as [ks updated]. cbn [fst snd] in A3, Hok, Hhas.
  rewrite bool_decide_eq_true_2 in A3 by done. subst updated.
  eapply total_node_upd_bind; [apply Hi|exact Hl|exact N1|]. intros g' Hf Hv _.
  eapply total_conseq; [eapply (total_add_unsaved De D Df WT
    (upd2 WS key (relation, label) (WS key (relation, label) ∖ {[k2]})) _ _ true)|].
  - eapply inv_upd; [exact Hi|by eapply live_gv|exact Hf|exact Hv| |].
    + split; [done|done|done|done|exact Hok|]. intros rel lab k'. cbn [n_sources nset_sources].
      rewrite Hhas, N6. unfold tkey. rewrite E1, E2. unfold upd2. case_decide as Hd.
      * destruct Hd as [-> [= -> ->]]. rewrite elem_of_difference, elem_of_singleton. tauto.
      * split; [tauto|]. intros H. split; [done|]. intros [= -> -> ->]. by apply Hd.
    + intros k' n'' Hne [M1 M2 M3 M4 M5 M6]. split; try done. intros rel lab k''. rewrite M6. unfold upd2.
      case_decide as Hd; [|done]. destruct Hd as [-> [= -> ->]].
      rewrite elem_of_difference, elem_of_singleton. tauto.
  - intros [] g'' [Hf' Hi']. split; [by eapply frame_trans|exact Hi'].
Qed.

(** *** Changing a target *)
Lemma inv_ext De D Df WT WS WT' WS' g :
  (forall k rl, WT k rl = WT' k rl) -> (forall k rl, WS k rl = WS' k rl) ->
  inv De D Df WT WS g -> inv De D Df WT' WS' g.
Proof.
  intros HT HS [H1 H2 H3 H4 H5 H6]. split; try done. intros k n Hk.
  destruct (H3 k n Hk) as [N1 N2 N3 (ds & N4 & N5 & N6 & N7) N8 N9].
  split; try done; [|by intros; rewrite <- HS]. exists ds. split_and!; try done.
  eapply Forall2_impl; [exact N7|]. intros td t Ht. cbn beta in *. rewrite <- HT. exact Ht.
Qed.

Lemma dkey_inj (ds : list RelationTargetDef) i j td td' : dsorted ds -> ds !! i = Some td -> ds !! j = Some td' ->
  dkey td = dkey td' -> i = j.
Proof.
  intros Hs Hi Hj E. eapply (NoDup_lookup (dkey <$> ds)); [by apply (ssorted_NoDup rl_cmp)| |];
    rewrite list_lookup_fmap, ?Hi, ?Hj; cbn; [done|by rewrite E].
Qed.

Lemma tgts_update ds ts i td td' t' k WT W : dsorted ds ->
  Forall2 (fun td t => tgt_ok (WT k (dkey td)) td t) ds ts ->
  ds !! i = Some td -> dkey td' = dkey td -> tgt_ok W td' t' ->
  Forall2 (fun x t => tgt_ok (upd2 WT k (dkey td) W k (dkey x)) x t) (<[i := td']> ds) (<[i := t']> ts).
Proof.
  intros Hs Hf Hi Hk Ht. pose proof (Forall2_length _ _ _ Hf) as Hlen. apply Forall2_same_length_lookup_2.
  { by rewrite !length_insert. }
  intros j x y [(-> & <- & Hlt)|[Hne Hx]]%list_lookup_insert_Some Hy.
  - rewrite list_lookup_insert_eq in Hy by (rewrite <- Hlen; done). injection Hy as <-. by rewrite Hk, upd2_eq.
  - rewrite list_lookup_insert_ne in Hy by done.
    rewrite upd2_ne; [exact (Forall2_lookup_lr _ _ _ _ _ _ Hf Hx Hy)|]. intros E. apply (f_equal snd) in E.
    cbn [snd] in E. apply Hne. by apply (dkey_inj ds i j td x).
Qed.

Lemma dsorted_insert (ds : list RelationTargetDef) i td td' : dsorted ds -> ds !! i = Some td -> dkey td' = dkey td ->
  dsorted (<[i := td']> ds).
Proof.
  intros Hs Hi E. unfold dsorted. rewrite list_fmap_insert, list_insert_id; [exact Hs|].
  by rewrite list_lookup_fmap, Hi, E.
Qed.

(** Replace the [i]-th target, and the definition it belongs to. *)
Lemma inv_set_target De D Df WT WS g g' k n ds i td td' t t' W u :
  inv De D Df WT WS g -> gv g !! k = Some n -> D !! k = Some ds -> ds !! i = Some td -> n_targets n !! i = Some t ->
  dkey td' = dkey td -> td_ok td' -> tgt_ok W td' t' ->
  frame g g' -> gv g' = <[k := nset_targets (<[i := t']> (n_targets n)) u n]> (gv g) ->
  inv De (<[k := <[i := td']> ds]> D) Df (upd2 WT k (dkey td) W) WS g'.
Proof.
  intros Hi Hk Hds Htd Ht Hdk Hok Htok Hf Hv. destruct (iv_node _ _ _ _ _ _ Hi k n Hk) as [N1 N2 N3 (ds' & N4 & N5 & N6 & N7) N8 N9].
  assert (ds' = ds) as -> by congruence.
  assert (inv De (<[k := <[i := td']> ds]> D) Df (upd2 WT k (dkey td) W) WS g') as Hgoal; [|exact Hgoal].
  destruct Hi as [H1 H2 H3 H4 H5 H6]. destruct Hf as (F1 & F2 & F3 & F4).
  assert (dom (gv g') = dom (gv g)) as Hd by (rewrite Hv, dom_insert_lookup_L; [done|by eexists]).
  split; [done|rewrite dom_insert_lookup_L by (by eexists); congruence| |by rewrite F2|congruence|by rewrite F2].
  intros k' n'. rewrite Hv. intros [(<- & <-)|(Hne & Hk')]%lookup_insert_Some.
  - split; try done. exists (<[i := td']> ds). rewrite lookup_insert_eq. split; [done|].
    split; [by eapply dsorted_insert|]. split; [by apply Forall_insert|]. by apply tgts_update.
  - destruct (H3 k' n' Hk') as [M1 M2 M3 (ds' & M4 & M5 & M6 & M7) M8 M9]. split; try done.
    exists ds'. rewrite lookup_insert_ne by done. split_and!; try done.
    eapply Forall2_impl; [exact M7|]. intros x y Hxy. cbn beta in *. rewrite upd2_ne; [exact Hxy|congruence].
Qed.
End graph_inv.
