(* ===== verification/GraphTargets.v ===== *)
(** * Setting the targets of a node

    [SetTargets] and its steps: it returns for every list of admissible
    definitions, and afterwards the connections are those of the definitions. *)
From S2P Require Import Prelude KeySet Monad Api Flags EdgeLookup LazyArray EdgeLookupFacts Graph GraphRW.
From S2P Require Import TargetFacts GraphInv.

Abbreviation defs := (gmap string (list RelationTargetDef)).

Section graph_targets.
Context {X : Ext} {MO : MapOrder}.
Context (K : string -> Prop) (SEL : string * string -> bool).
Context (HK : forall k, K k -> k <> "" /\ trimTrailingDirSep k = k).

Abbreviation inv := (inv K SEL).
Abbreviation td_ok := (td_ok K SEL).

(** ** Connecting *)

Lemma inv_at De D Df WT WS g k r n : inv De D Df WT WS g -> live g k r n ->
  n_key n = k /\ K k /\ Df !! k = Some (n_targetsDef n) /\ exists ds, D !! k = Some ds /\ dsorted ds /\ Forall td_ok ds
    /\ Forall2 (fun td t => tgt_ok (WT k (dkey td)) td t) ds (n_targets n).
Proof. intros Hi Hl. by destruct (inv_live _ _ _ _ _ _ _ _ _ _ _ Hi Hl). Qed.

(** The [i]-th target and its definition. *)
Lemma inv_target De D Df WT WS g k r n ds i td : inv De D Df WT WS g -> live g k r n ->
  D !! k = Some ds -> ds !! i = Some td ->
  td_ok td /\ dsorted ds /\ exists t, n_targets n !! i = Some t /\ tgt_ok (WT k (dkey td)) td t.
Proof.
  intros Hi Hl Hds Htd. destruct (inv_at _ _ _ _ _ _ _ _ _ Hi Hl) as (_ & _ & _ & ds' & E & Hs & Hok & Hf).
  assert (ds' = ds) as -> by congruence. split; [by eapply Forall_lookup_1|]. split; [done|].
  destruct (Forall2_lookup_l _ _ _ _ _ Hf Htd) as (t & Ht & Htok). by exists t.
Qed.

Lemma insert_same (D : defs) k ds i td : D !! k = Some ds -> ds !! i = Some td -> <[k := <[i := td]> ds]> D = D.
Proof. intros H1 H2. rewrite list_insert_id by done. by apply insert_id. Qed.

Lemma total_addToTargets De D Df WT WS g r k n r2 k2 n2 i ds td :
  inv De D Df WT WS g -> live g k r n -> live g k2 r2 n2 -> D !! k = Some ds -> ds !! i = Some td ->
  (Singleton_ td = true -> WT k (dkey td) ⊆ {[k2]}) -> (k2 ∈ WT k (dkey td) -> k2 ∈ WS k (dkey td)) ->
  total g (addToTargets r r2 i) (fun _ g' => frame g g' /\
    inv De D Df (upd2 WT k (dkey td) ({[k2]} ∪ WT k (dkey td))) (upd2 WS k (dkey td) ({[k2]} ∪ WS k (dkey td))) g').
Proof.
  intros Hi Hl Hl2 Hds Htd Hroom Hws. unfold addToTargets.
  destruct (inv_target _ _ _ _ _ _ _ _ _ _ _ _ Hi Hl Hds Htd) as (Hok & _ & t & Ht & Hk & Hwf & Hsing & Hel).
  destruct (inv_at _ _ _ _ _ _ _ _ _ Hi Hl) as (Ek & HKk & _). destruct (inv_at _ _ _ _ _ _ _ _ _ Hi Hl2) as (Ek2 & HKk2 & _).
  eapply total_node_at; [exact Hl|]. eapply total_node_at; [exact Hl2|]. eapply total_deref_bind; [exact Ht|].
  rewrite Ek2. destruct (HK k2 HKk2) as [Hne2 _]. destruct (HK k HKk) as [Hne _].
  destruct (ks_Add_room (tg_MatchingKeys t) k2 Hwf Hne2) as (A1 & A2 & A3 & A4).
  { intros Hs. rewrite Hel. by apply Hroom, Hsing. }
  destruct (ks_Add (tg_MatchingKeys t) k2) as [ks updated]. cbn [fst snd] in A1, A2, A3, A4.
  eapply total_node_upd_bind; [apply Hi|exact Hl|done|]. intros g1 Hf1 Hv1 _.
  assert (inv De D Df (upd2 WT k (dkey td) ({[k2]} ∪ WT k (dkey td))) WS g1) as Hi1.
  { rewrite <- (insert_same D k ds i td Hds Htd).
    eapply (inv_set_target K SEL De D Df WT WS g g1 k n ds i td td t); eauto using live_gv.
    split; [done|]. split; [done|]. split; [cbn; by rewrite A4|]. cbn. by rewrite A2, Hel. }
  destruct updated; cbn iota.
  - eapply total_bind; [apply (total_add_unsaved K SEL _ _ _ _ _ _ _ true Hi1)|]. intros [] g2 [Hf2 Hi2].
    assert (frame g g2) as Hf by by eapply frame_trans.
    destruct (frame_live _ _ _ _ _ Hf Hl2) as (n2' & Hl2'). rewrite Ek.
    eapply total_conseq; [by eapply (total_addToSources K SEL)|]. intros [] g3 [Hf3 Hi3].
    split; [by eapply frame_trans|]. injection Hk as E1 E2. rewrite E1, E2 in Hi3. exact Hi3.
  - apply total_skip. split; [exact Hf1|]. eapply inv_ext; [done| |exact Hi1].
    intros k' rl. symmetry in A3. apply negb_false_iff, bool_decide_eq_true in A3. rewrite Hel in A3. apply Hws in A3.
    symmetry. apply upd2_same. set_solver +A3.
Qed.

Lemma total_connect_targets De D Df WT WS g r k n i ds td (Q : unit -> graphR -> Prop) :
  inv De D Df WT WS g -> live g k r n -> D !! k = Some ds -> ds !! i = Some td ->
  (Singleton_ td = true -> WT k (dkey td) ⊆ {[rtd_Key td]}) -> WT k (dkey td) ⊆ WS k (dkey td) ->
  (forall g' (S : gset string), frame g g' -> (forall k2, k2 ∈ S <-> k2 ∈ dom (gv g) /\ matches td k2 = true) ->
     inv De D Df (upd2 WT k (dkey td) (S ∪ WT k (dkey td))) (upd2 WS k (dkey td) (S ∪ WS k (dkey td))) g' -> Q tt g') ->
  total g (connect_targets r i td) Q.
Proof.
  intros Hi Hl Hds Htd Hroom Hws HQ. unfold connect_targets. apply total_get_bind.
  destruct (inv_target _ _ _ _ _ _ _ _ _ _ _ _ Hi Hl Hds Htd) as (Hok & _).
  set (l := iterEveryEdge (g_edgeLookup g) td).
  assert (forall k2, k2 ∈ l <-> k2 ∈ dom (gv g) /\ matches td k2 = true) as Hin.
  { intros k2. unfold l. rewrite iterEveryEdge_spec by apply Hi. by rewrite (iv_eln _ _ _ _ _ _ _ _ Hi). }
  eapply total_conseq; [apply (total_forM _ _ (fun done g' => frame g g' /\
    inv De D Df (upd2 WT k (dkey td) (list_to_set done ∪ WT k (dkey td)))
      (upd2 WS k (dkey td) (list_to_set done ∪ WS k (dkey td))) g'))|].
  - split; [apply frame_refl, Hi|]. eapply inv_ext; [| |exact Hi]; intros k' rl; symmetry;
      apply upd2_same; cbn [list_to_set]; by rewrite union_empty_l_L.
  - intros pre k2 post g' El [Hf Hi'].
    assert (k2 ∈ l) as Hk2 by (rewrite El; set_solver +). apply Hin in Hk2 as [Hk2 Hm].
    destruct (live_ref g k2 (iv_heap _ _ _ _ _ _ _ _ Hi) Hk2) as (r2 & n2 & Hl2).
    destruct (frame_live _ _ _ _ _ Hf Hl) as (n' & Hl'). destruct (frame_live _ _ _ _ _ Hf Hl2) as (n2' & Hl2').
    eapply total_node_ref; [exact Hl2'|]. eapply total_deref_bind; [reflexivity|].
    eapply total_conseq; [eapply (total_addToTargets De D Df _ _ g' r k n' r2 k2 n2' i ds td); eauto|].
    + rewrite upd2_eq. intros Hs. specialize (Hroom Hs).
      assert (forall x, x ∈ l -> x = rtd_Key td) as Hall.
      { intros x [_ Hx]%Hin. unfold Singleton_ in Hs. unfold matches in Hx.
        destruct (String.eqb_spec (rtd_Key td) "") as [He|]; [|by apply String.eqb_eq in Hx].
        cbn [negb orb] in Hs. apply andb_true_iff in Hs as [Hs1 Hs2]. apply bool_decide_eq_true in Hs1.
        apply Nat.eqb_eq, nil_length_inv in Hs2. destruct (tok_any _ _ _ Hok He Hs2) as [f Hf']. congruence. }
      assert (k2 ∈ l) as Hk2l by (apply Hin; done). rewrite (Hall k2 Hk2l). intros x [Hx|Hx]%elem_of_union; [|by apply Hroom].
      apply elem_of_list_to_set in Hx. apply elem_of_singleton, Hall. rewrite El. set_solver +Hx.
    + rewrite !upd2_eq. intros [Hx|Hx]%elem_of_union; apply elem_of_union; [by left|right; by apply Hws].
    + intros [] g'' [Hf'' Hi'']. split; [by eapply frame_trans|]. eapply inv_ext; [| |exact Hi'']; intros k' rl;
        rewrite upd2_twice, upd2_eq, list_to_set_app_L; f_equal; set_solver +.
  - intros [] g' [Hf Hi']. eapply (HQ g' (list_to_set l)); [exact Hf| |exact Hi'].
    intros k2. rewrite elem_of_list_to_set. apply Hin.
Qed.

(** ** Disconnecting and updating a target *)

Lemma total_disconnect_targets De D Df WT WS g r k n i ds td (Q : unit -> graphR -> Prop) :
  inv De D Df WT WS g -> live g k r n -> D !! k = Some ds -> ds !! i = Some td ->
  WT k (dkey td) ⊆ dom (gv g) -> WT k (dkey td) ⊆ WS k (dkey td) ->
  (forall g', frame g g' -> inv De D Df WT (upd2 WS k (dkey td) (WS k (dkey td) ∖ WT k (dkey td))) g' -> Q tt g') ->
  total g (disconnect_targets r i) Q.
Proof.
  intros Hi Hl Hds Htd Hdom Hws HQ. unfold disconnect_targets.
  destruct (inv_target _ _ _ _ _ _ _ _ _ _ _ _ Hi Hl Hds Htd) as (_ & _ & t & Ht & Hk & Hwf & _ & Hel).
  destruct (inv_at _ _ _ _ _ _ _ _ _ Hi Hl) as (Ek & HKk & _). destruct (HK k HKk) as [Hne _].
  eapply total_node_at; [exact Hl|]. eapply total_deref_bind; [exact Ht|]. rewrite Ek.
  injection Hk as E1 E2. rewrite E1, E2.
  pose proof (NoDup_ks_Iterate (tg_MatchingKeys t) Hwf) as Hnd.
  assert (forall x, x ∈ ks_Iterate (tg_MatchingKeys t) <-> x ∈ WT k (dkey td)) as Hin.
  { intros x. by rewrite elem_of_ks_Iterate, Hel. }
  set (l := ks_Iterate (tg_MatchingKeys t)) in *.
  eapply total_conseq; [apply (total_forM _ _ (fun done g' => frame g g' /\
    inv De D Df WT (upd2 WS k (dkey td) (WS k (dkey td) ∖ list_to_set done)) g'))|].
  - split; [apply frame_refl, Hi|]. eapply inv_ext; [done| |exact Hi]. intros k' rl. symmetry. apply upd2_same.
    cbn [list_to_set]. by rewrite difference_empty_L.
  - intros pre k2 post g' El [Hf Hi'].
    assert (k2 ∈ l) as Hk2 by (rewrite El; set_solver +).
    assert (k2 ∉ pre) as Hk2n.
    { rewrite El in Hnd. apply NoDup_app in Hnd as (_ & Hnd & _). intros H. apply (Hnd k2 H). set_solver +. }
    apply Hin in Hk2. destruct (live_ref g k2 (iv_heap _ _ _ _ _ _ _ _ Hi) (Hdom _ Hk2)) as (r2 & n2 & Hl2).
    destruct (frame_live _ _ _ _ _ Hf Hl2) as (n2' & Hl2').
    eapply total_node_ref; [exact Hl2'|]. eapply total_deref_bind; [reflexivity|].
    eapply total_conseq; [eapply (total_removeFromSources K SEL HK De D Df WT _ g' r2 k2 n2' k); eauto|].
    + change (rtd_Relation td, rtd_Label td) with (dkey td). rewrite upd2_eq.
      apply elem_of_difference. split; [by apply Hws|]. by rewrite elem_of_list_to_set.
    + intros [] g'' [Hf'' Hi'']. split; [by eapply frame_trans|]. eapply inv_ext; [done| |exact Hi''].
      intros k' rl. change (rtd_Relation td, rtd_Label td) with (dkey td).
      rewrite upd2_twice, upd2_eq, list_to_set_app_L. f_equal. set_solver +.
  - intros [] g' [Hf Hi']. apply (HQ g' Hf). eapply inv_ext; [done| |exact Hi']. intros k' rl.
    assert ((list_to_set l : gset string) = WT k (dkey td)) as ->; [|done].
    apply set_eq. intros x. by rewrite elem_of_list_to_set.
Qed.

Lemma total_upd_target De D Df WT WS g r k n i ds td td' W f (Q : unit -> graphR -> Prop) :
  inv De D Df WT WS g -> live g k r n -> D !! k = Some ds -> ds !! i = Some td ->
  dkey td' = dkey td -> td_ok td' ->
  (forall t, tgt_ok (WT k (dkey td)) td t -> tgt_ok W td' (f t)) ->
  (forall g', frame g g' -> inv De (<[k := <[i := td']> ds]> D) Df (upd2 WT k (dkey td) W) WS g' -> Q tt g') ->
  total g (upd_target r i f) Q.
Proof.
  intros Hi Hl Hds Htd Hdk Hok Hf HQ. unfold upd_target.
  destruct (inv_target _ _ _ _ _ _ _ _ _ _ _ _ Hi Hl Hds Htd) as (_ & _ & t & Ht & Htok).
  destruct (inv_at _ _ _ _ _ _ _ _ _ Hi Hl) as (Ek & _).
  eapply total_node_at; [exact Hl|]. eapply total_deref_bind; [exact Ht|].
  eapply total_node_upd; [apply Hi|exact Hl|done|]. intros g' Hfr Hv _ _. apply HQ; [done|].
  eapply (inv_set_target K SEL De D Df WT WS g g' k n ds i td td' t (f t) W); eauto using live_gv.
Qed.

(** ** The connections of definitions *)

Definition matchset (D : defs) (td : RelationTargetDef) : gset string := filter (fun k => matches td k = true) (dom D).

Definition canon (D : defs) : conn := fun k rl =>
  match head (filter (fun td => dkey td = rl) (default [] (D !! k))) with
  | Some td => matchset D td
  | None => ∅
  end.

Lemma filter_dkey_none (ds : list RelationTargetDef) rl : rl ∉ dkey <$> ds -> filter (fun td => dkey td = rl) ds = [].
Proof.
  induction ds as [|td ds IH]; [done|]. rewrite fmap_cons, not_elem_of_cons. intros [H1 H2].
  rewrite filter_cons_False by congruence. by apply IH.
Qed.

Lemma dsorted_mid pre td post : dsorted (pre ++ td :: post) -> dkey td ∉ dkey <$> pre /\ dkey td ∉ dkey <$> post.
Proof.
  intros Hs%(ssorted_NoDup rl_cmp). rewrite fmap_app, fmap_cons in Hs.
  apply NoDup_app in Hs as (_ & H1 & H2). apply NoDup_cons in H2 as [H2 _].
  split; [|done]. intros H. apply (H1 _ H). set_solver +.
Qed.

Lemma canon_mid (D : defs) k pre td post : D !! k = Some (pre ++ td :: post) -> dsorted (pre ++ td :: post) ->
  canon D k (dkey td) = matchset D td.
Proof.
  intros Hk [H1 H2]%dsorted_mid. unfold canon. rewrite Hk. cbn [default from_option id].
  rewrite filter_app, filter_dkey_none, filter_cons_True by done. done.
Qed.

Lemma canon_none (D : defs) k ds rl : D !! k = Some ds -> rl ∉ dkey <$> ds -> canon D k rl = ∅.
Proof. intros Hk Hn. unfold canon. rewrite Hk. cbn [default from_option id]. by rewrite filter_dkey_none. Qed.

Lemma dom_set (D : defs) k ds ds' : D !! k = Some ds -> dom (<[k := ds']> D) = dom D.
Proof. intros H. apply dom_insert_lookup_L. by eexists. Qed.

Lemma matchset_set (D : defs) k ds ds' td : D !! k = Some ds -> matchset (<[k := ds']> D) td = matchset D td.
Proof. intros H. unfold matchset. by rewrite (dom_set D k ds). Qed.

(** Two lists of definitions of a node that differ in the middle. *)
Lemma canon_other (D : defs) k pre mid mid' post k' rl :
  D !! k = Some (pre ++ mid ++ post) -> (k' = k -> rl ∉ dkey <$> mid /\ rl ∉ dkey <$> mid') ->
  canon (<[k := pre ++ mid' ++ post]> D) k' rl = canon D k' rl.
Proof.
  intros Hk Hrl. unfold canon, matchset. rewrite (dom_set D k _ _ Hk).
  destruct (decide (k' = k)) as [->|Hne]; [|by rewrite lookup_insert_ne].
  destruct (Hrl eq_refl) as [H1 H2]. rewrite lookup_insert_eq, Hk. cbn [default from_option id].
  by rewrite !filter_app, (filter_dkey_none mid), (filter_dkey_none mid').
Qed.

Lemma canon_dom (D : defs) k rl : canon D k rl ⊆ dom D.
Proof.
  unfold canon. destruct (head _) as [td|]; [|set_solver +]. unfold matchset. intros x Hx. by apply elem_of_filter in Hx as [_ Hx].
Qed.

(** ** The steps of [SetTargets] *)

(** The graph keeps its nodes; the edges of the lookup may change. *)
Definition nframe (g g' : graphR) : Prop := g_nodes g' = g_nodes g /\ g_next g' = g_next g /\ heap_ok g'.

Lemma frame_nframe g g' : frame g g' -> nframe g g'.
Proof. by intros (H1 & _ & H2 & H3). Qed.
Lemma nframe_trans g1 g2 g3 : nframe g1 g2 -> nframe g2 g3 -> nframe g1 g3.
Proof. intros (A1 & A2 & _) (B1 & B2 & B3). split_and!; congruence || done. Qed.
Lemma nframe_live g g' k r n : nframe g g' -> live g k r n -> exists n', live g' k r n'.
Proof. intros (E & _ & [H _]) [H1 _]. rewrite <- E in H1. destruct (H k r H1) as (n' & Hn & _). by exists n'. Qed.

Definition cinv (D Df : defs) (g : graphR) : Prop := inv D D Df (canon D) (canon D) g.

Definition in_edges (D : defs) (e : edgeKey) : Prop := exists k ds td, D !! k = Some ds /\ td ∈ ds /\ e ∈ tedges k td.

Lemma inv_edges De De' D Df WT WS g el' : inv De D Df WT WS g -> el_ok el' ->
  el_nodes el' = el_nodes (g_edgeLookup g) -> (forall e, e ∈ el_edges el' <-> in_edges De' e) ->
  inv De' D Df WT WS (gset_edgeLookup el' g) /\ nframe g (gset_edgeLookup el' g).
Proof.
  intros [H1 H2 H3 H4 H5 H6] Hok Hn He. split; [|done]. split; try done. cbn [g_edgeLookup gset_edgeLookup].
  by rewrite Hn.
Qed.

Lemma in_edges_set (D : defs) k ds ds' : D !! k = Some ds -> forall e,
  in_edges (<[k := ds']> D) e <-> (exists td, td ∈ ds' /\ e ∈ tedges k td)
    \/ exists k' ds'' td, k' <> k /\ D !! k' = Some ds'' /\ td ∈ ds'' /\ e ∈ tedges k' td.
Proof.
  intros Hk e. split.
  - intros (k' & ds'' & td & [(<- & <-)|(Hne & H1)]%lookup_insert_Some & Hin & He); [left; by exists td|].
    right. exists k', ds'', td. auto.
  - intros [(td & Hin & He)|(k' & ds'' & td & Hne & H1 & Hin & He)].
    + exists k, ds', td. by rewrite lookup_insert_eq.
    + exists k', ds'', td. by rewrite lookup_insert_ne.
Qed.

Lemma edges_add (D : defs) k pre td post : D !! k = Some (pre ++ post) -> forall e,
  in_edges (<[k := pre ++ td :: post]> D) e <-> in_edges D e \/ e ∈ tedges k td.
Proof.
  intros Hk e. rewrite <- (insert_id D k _ Hk) at 2. rewrite !(in_edges_set D k _ _ Hk). split.
  - intros [(x & Hx & He)|H]; [|by left; right]. rewrite elem_of_app, elem_of_cons in Hx.
    destruct Hx as [Hx|[->|Hx]]; [left; left|by right|left; left]; exists x; (split; [set_solver +Hx|done]).
  - intros [[(x & Hx & He)|H]|He]; [left|by right|left].
    + exists x. split; [set_solver +Hx|done].
    + exists td. split; [set_solver +|done].
Qed.

Lemma edges_del (D : defs) k pre td post : D !! k = Some (pre ++ td :: post) -> dsorted (pre ++ td :: post) -> forall e,
  in_edges (<[k := pre ++ post]> D) e <-> in_edges D e /\ e ∉ tedges k td.
Proof.
  intros Hk [Hs1 Hs2]%dsorted_mid e. rewrite <- (insert_id D k _ Hk) at 2. rewrite !(in_edges_set D k _ _ Hk).
  assert (forall k' x, (k', dkey x) <> (k, dkey td) -> e ∈ tedges k' x -> e ∉ tedges k td) as Hdis.
  { intros k' x Hne H1 H2. apply tedges_source in H1, H2. apply Hne. congruence. }
  split.
  - intros [(x & Hx & He)|(k' & ds' & x & Hne & Hd & Hx & He)].
    + split; [left; exists x; split; [set_solver +Hx|done]|]. apply (Hdis k x); [|done].
      intros E. apply (f_equal snd) in E. cbn [snd] in E. apply elem_of_app in Hx as [Hx|Hx];
        [apply Hs1|apply Hs2]; rewrite <- E; by apply list_elem_of_fmap_2.
    + split; [right; by exists k', ds', x|]. apply (Hdis k' x); [congruence|done].
  - intros [[(x & Hx & He)|H] Hn]; [left|by right]. exists x. split; [|done].
    rewrite elem_of_app, elem_of_cons in Hx. destruct Hx as [Hx|[->|Hx]]; [set_solver +Hx|done|set_solver +Hx].
Qed.

Lemma new_matching_ok td : ks_wf (new_matching (Singleton_ td)) /\
  (is_singleton (new_matching (Singleton_ td)) <-> Singleton_ td = true) /\ ks_elems (new_matching (Singleton_ td)) = ∅.
Proof.
  destruct (Singleton_ td); cbn; [done|]. split; [apply (SliceFacts.NewSliceBasedKeySet_spec [])|]. split; [done|].
  apply (SliceFacts.NewSliceBasedKeySet_spec []).
Qed.

Lemma tgts_other WT k rl W ds ts : rl ∉ dkey <$> ds ->
  Forall2 (fun td t => tgt_ok (WT k (dkey td)) td t) ds ts ->
  Forall2 (fun td t => tgt_ok (upd2 WT k rl W k (dkey td)) td t) ds ts.
Proof.
  intros Hn Hf. induction Hf as [|td t ds ts Ht Hf IH]; [constructor|].
  rewrite fmap_cons, not_elem_of_cons in Hn. destruct Hn as [H1 H2]. constructor; [|by apply IH].
  rewrite upd2_ne; [done|]. intros E. apply (f_equal snd) in E. by cbn [snd] in E.
Qed.

(** A new target at its place. *)
Lemma inv_insert_target De D Df WT WS g g' k n pre post td t W u :
  inv De D Df WT WS g -> gv g !! k = Some n -> D !! k = Some (pre ++ post) ->
  dsorted (pre ++ td :: post) -> td_ok td -> tgt_ok W td t ->
  frame g g' -> gv g' = <[k := nset_targets (insert_target (length pre) t (n_targets n)) u n]> (gv g) ->
  inv De (<[k := pre ++ td :: post]> D) Df (upd2 WT k (dkey td) W) WS g'.
Proof.
  intros Hi Hk Hds Hsort Hok Htok Hf Hv.
  destruct (iv_node _ _ _ _ _ _ _ _ Hi k n Hk) as [N1 N2 N3 (ds' & N4 & N5 & N6 & N7) N8 N9].
  assert (ds' = pre ++ post) as -> by congruence. clear N4.
  destruct Hi as [H1 H2 H3 H4 H5 H6]. destruct Hf as (F1 & F2 & F3 & F4).
  assert (dom (gv g') = dom (gv g)) as Hd by (rewrite Hv, dom_insert_lookup_L; [done|by eexists]).
  split; [done|rewrite dom_insert_lookup_L by (by eexists); congruence| |by rewrite F2|congruence|by rewrite F2].
  intros k' n'. rewrite Hv. intros [(<- & <-)|(Hne & Hk')]%lookup_insert_Some.
  - split; try done. exists (pre ++ td :: post). rewrite lookup_insert_eq. split; [done|]. split; [done|].
    apply Forall_app in N6 as [N6a N6b]. split; [apply Forall_app; by split; [|constructor]|].
    pose proof (Forall2_length _ _ _ N7) as Hlen. rewrite length_app in Hlen.
    cbn [n_targets nset_targets]. rewrite insert_target_eq by lia.
    apply Forall2_app_inv_l in N7 as (ts1 & ts2 & M1 & M2 & ->).
    pose proof (Forall2_length _ _ _ M1) as Hl1. rewrite Hl1, take_app_length, drop_app_length.
    destruct (dsorted_mid _ _ _ Hsort) as [S1 S2].
    apply Forall2_app; [by apply tgts_other|constructor; [by rewrite upd2_eq|by apply tgts_other]].
  - destruct (H3 k' n' Hk') as [M1 M2 M3 (ds' & M4 & M5 & M6 & M7) M8 M9]. split; try done.
    exists ds'. rewrite lookup_insert_ne by done. split_and!; try done.
    eapply Forall2_impl; [exact M7|]. intros x y Hxy. cbn beta in *. rewrite upd2_ne; [exact Hxy|congruence].
Qed.

(** A target is removed. *)
Lemma inv_remove_target De D Df WT WS g g' k n pre td post W u :
  inv De D Df WT WS g -> gv g !! k = Some n -> D !! k = Some (pre ++ td :: post) ->
  frame g g' -> gv g' = <[k := nset_targets (remove_target (length pre) (n_targets n)) u n]> (gv g) ->
  inv De (<[k := pre ++ post]> D) Df (upd2 WT k (dkey td) W) WS g'.
Proof.
  intros Hi Hk Hds Hf Hv.
  destruct (iv_node _ _ _ _ _ _ _ _ Hi k n Hk) as [N1 N2 N3 (ds' & N4 & N5 & N6 & N7) N8 N9].
  assert (ds' = pre ++ td :: post) as -> by congruence. clear N4.
  destruct Hi as [H1 H2 H3 H4 H5 H6]. destruct Hf as (F1 & F2 & F3 & F4).
  assert (dom (gv g') = dom (gv g)) as Hd by (rewrite Hv, dom_insert_lookup_L; [done|by eexists]).
  split; [done|rewrite dom_insert_lookup_L by (by eexists); congruence| |by rewrite F2|congruence|by rewrite F2].
  intros k' n'. rewrite Hv. intros [(<- & <-)|(Hne & Hk')]%lookup_insert_Some.
  - split; try done. exists (pre ++ post). rewrite lookup_insert_eq. split; [done|].
    destruct (dsorted_mid _ _ _ N5) as [S1 S2].
    split. { unfold dsorted in *. rewrite fmap_app in *. rewrite fmap_cons in N5. apply (ssorted_delete rl_cmp _ (length (dkey <$> pre))) in N5.
      by rewrite delete_middle in N5. }
    apply Forall_app in N6 as [N6a N6b]. inversion N6b; subst. split; [by apply Forall_app|].
    apply Forall2_app_inv_l in N7 as (ts1 & ts2 & M1 & M2 & E). apply Forall2_cons_inv_l in M2 as (t & ts3 & Mt & M2 & ->).
    cbn [n_targets nset_targets]. rewrite E. pose proof (Forall2_length _ _ _ M1) as Hl1.
    rewrite remove_target_eq by (rewrite length_app; cbn; lia). rewrite Hl1, delete_middle.
    apply Forall2_app; by apply tgts_other.
  - destruct (H3 k' n' Hk') as [M1 M2 M3 (ds' & M4 & M5 & M6 & M7) M8 M9]. split; try done.
    exists ds'. rewrite lookup_insert_ne by done. split_and!; try done.
    eapply Forall2_impl; [exact M7|]. intros x y Hxy. cbn beta in *. rewrite upd2_ne; [exact Hxy|congruence].
Qed.

(** *** The four steps *)

Lemma mid_lookup {A} (pre : list A) x post i : length pre = i -> (pre ++ x :: post) !! i = Some x.
Proof. intros <-. by apply list_lookup_middle. Qed.

Lemma mid_insert {A} (pre : list A) x y post i : length pre = i -> <[i := y]> (pre ++ x :: post) = pre ++ y :: post.
Proof. intros <-. by rewrite insert_app_r_alt, Nat.sub_diag by lia. Qed.

Lemma total_st_new D Df g r k n i pre td post (Q : unit -> graphR -> Prop) :
  cinv D Df g -> live g k r n -> D !! k = Some (pre ++ post) -> length pre = i ->
  dsorted (pre ++ td :: post) -> td_ok td ->
  (forall g', nframe g g' -> cinv (<[k := pre ++ td :: post]> D) Df g' -> Q tt g') ->
  total g (st_new r i td) Q.
Proof.
  intros Hi Hl Hds Hlen Hsort Hok HQ. unfold st_new.
  destruct (inv_at _ _ _ _ _ _ _ _ _ Hi Hl) as (Ek & HKk & _). destruct (dsorted_mid _ _ _ Hsort) as [S1 S2].
  set (D' := <[k := pre ++ td :: post]> D). set (C := canon D).
  assert (C k (dkey td) = ∅) as HC.
  { apply (canon_none D k (pre ++ post)); [done|]. rewrite fmap_app. by apply not_elem_of_app. }
  eapply (total_bind _ _ _ (fun _ g1 => nframe g g1 /\ inv D' D Df C C g1)).
  { eapply total_addDelEdges; [exact Hl|done|apply Hi|]. intros el' E1 E2 E3.
    destruct (inv_edges D D' D Df C C g el' Hi E1 E2) as [A B]; [|done].
    intros e. rewrite E3. rewrite (iv_ele _ _ _ _ _ _ _ _ Hi). symmetry. by apply edges_add. }
  intros [] g1 [F1 I1]. destruct (nframe_live _ _ _ _ _ F1 Hl) as (n1 & L1).
  destruct (new_matching_ok td) as (W1 & W2 & W3).
  destruct (inv_at _ _ _ _ _ _ _ _ _ I1 L1) as (Ek1 & _).
  eapply total_node_upd_bind; [apply I1|exact L1|done|]. intros g2 F2 V2 _.
  assert (inv D' D' Df (upd2 C k (dkey td) ∅) C g2) as I2.
  { rewrite <- Hlen in V2. eapply (inv_insert_target D' D Df C C g1 g2 k n1 pre post td); eauto using live_gv.
    split; [done|]. split; [done|]. by split. }
  destruct (frame_live _ _ _ _ _ F2 L1) as (n2 & L2).
  assert (D' !! k = Some (pre ++ td :: post)) as Hk' by apply lookup_insert_eq.
  assert ((pre ++ td :: post) !! i = Some td) as Hi' by by apply mid_lookup.
  eapply (total_bind _ _ _ (fun _ g3 => frame g2 g3 /\ inv D' D' Df C C g3)).
  { eapply (total_upd_target D' D' Df _ _ g2 r k n2 i _ td td ∅); [exact I2|exact L2|exact Hk'|exact Hi'|done|done| |].
    - intros t. rewrite upd2_eq. intros (T1 & T2 & T3 & T4). done.
    - intros g3 F3 I3. split; [done|]. rewrite (insert_same D' k _ i td) in I3 by done. eapply inv_ext; [|done|exact I3].
      intros k' rl. rewrite upd2_twice. by apply upd2_same. }
  intros [] g3 [F3 I3]. destruct (frame_live _ _ _ _ _ F3 L2) as (n3 & L3).
  eapply (total_connect_targets D' D' Df C C g3 r k n3 i _ td); [exact I3|exact L3|exact Hk'|exact Hi'| | |].
  - intros _. rewrite HC. set_solver +.
  - done.
  - intros g4 S F4 HS I4. apply HQ.
    + eapply nframe_trans; [exact F1|]. apply frame_nframe. eapply frame_trans; [exact F2|]. by eapply frame_trans.
    + assert (S = matchset D' td) as ->.
      { apply set_eq. intros x. rewrite HS. unfold matchset. rewrite elem_of_filter, (iv_dom _ _ _ _ _ _ _ _ I3). tauto. }
      assert (forall k' rl, upd2 C k (dkey td) (matchset D' td ∪ C k (dkey td)) k' rl = canon D' k' rl) as HE.
      { intros k' rl. rewrite HC, union_empty_r_L. unfold upd2. case_decide as Hd.
        - destruct Hd as [-> ->]. symmetry. by eapply canon_mid.
        - symmetry. apply (canon_other D k pre [] [td] post); [done|]. intros ->. split; [by apply not_elem_of_nil|].
          cbn. rewrite list_elem_of_singleton. intros ->. by apply Hd. }
      eapply inv_ext; [exact HE|exact HE|exact I4].
Qed.

Lemma dsorted_replace pre o td post : dsorted (pre ++ o :: post) -> dkey td = dkey o -> dsorted (pre ++ td :: post).
Proof. unfold dsorted. intros Hs E. rewrite fmap_app, fmap_cons in *. by rewrite E. Qed.

(** The connections after the definition [o] is replaced by [td]. *)
Lemma canon_replace (D : defs) k pre o td post W : D !! k = Some (pre ++ o :: post) -> dsorted (pre ++ o :: post) ->
  dkey td = dkey o -> W = matchset D td -> forall k' rl,
  upd2 (canon D) k (dkey o) W k' rl = canon (<[k := pre ++ td :: post]> D) k' rl.
Proof.
  intros Hk Hs E -> k' rl. unfold upd2. case_decide as Hd.
  - destruct Hd as [-> ->]. rewrite <- E, (canon_mid _ k pre td post) by (apply lookup_insert_eq || by eapply dsorted_replace).
    by rewrite (matchset_set D k (pre ++ o :: post)).
  - symmetry. apply (canon_other D k pre [o] [td] post); [done|]. intros ->. cbn. rewrite !list_elem_of_singleton, E.
    split; intros ->; by apply Hd.
Qed.

Lemma canon_drop (D : defs) k pre o post : D !! k = Some (pre ++ o :: post) -> dsorted (pre ++ o :: post) -> forall k' rl,
  upd2 (canon D) k (dkey o) ∅ k' rl = canon (<[k := pre ++ post]> D) k' rl.
Proof.
  intros Hk Hs k' rl. unfold upd2. case_decide as Hd.
  - destruct Hd as [-> ->]. destruct (dsorted_mid _ _ _ Hs) as [S1 S2]. symmetry.
    apply (canon_none _ k (pre ++ post)); [apply lookup_insert_eq|]. rewrite fmap_app. by apply not_elem_of_app.
  - symmetry. apply (canon_other D k pre [o] [] post); [done|]. intros ->. cbn. rewrite list_elem_of_singleton.
    split; [intros ->; by apply Hd|apply not_elem_of_nil].
Qed.

(** Take the [i]-th target out of the sources and its edges out of the lookup. *)
Lemma total_detach D Df g r k n i pre o post :
  cinv D Df g -> live g k r n -> D !! k = Some (pre ++ o :: post) -> length pre = i -> dsorted (pre ++ o :: post) ->
  total g (disconnect_targets r i ;; addDelEdges r o true) (fun _ g' => nframe g g'
    /\ inv (<[k := pre ++ post]> D) D Df (canon D) (upd2 (canon D) k (dkey o) ∅) g').
Proof.
  intros Hi Hl Hds Hlen Hs. destruct (inv_at _ _ _ _ _ _ _ _ _ Hi Hl) as (Ek & _).
  eapply (total_bind _ _ _ (fun _ g1 => frame g g1 /\ inv D D Df (canon D) (upd2 (canon D) k (dkey o) ∅) g1)).
  { eapply (total_disconnect_targets D D Df _ _ g r k n i _ o); [exact Hi|exact Hl|exact Hds|by apply mid_lookup| |done|].
    - rewrite <- (iv_dom _ _ _ _ _ _ _ _ Hi). apply canon_dom.
    - intros g1 F1 I1. split; [done|]. by rewrite difference_diag_L in I1. }
  intros [] g1 [F1 I1]. destruct (frame_live _ _ _ _ _ F1 Hl) as (n1 & L1).
  destruct (inv_at _ _ _ _ _ _ _ _ _ I1 L1) as (Ek1 & _).
  eapply total_addDelEdges; [exact L1|done|apply I1|]. intros el' E1 E2 E3.
  destruct (inv_edges D (<[k := pre ++ post]> D) D Df _ _ g1 el' I1 E1 E2) as [A B].
  - intros e. rewrite E3. rewrite (iv_ele _ _ _ _ _ _ _ _ I1). symmetry. by apply edges_del.
  - split; [|done]. eapply nframe_trans; [by apply frame_nframe|done].
Qed.

Lemma total_st_obsolete D Df g r k n i pre o post (Q : unit -> graphR -> Prop) :
  cinv D Df g -> live g k r n -> D !! k = Some (pre ++ o :: post) -> length pre = i -> dsorted (pre ++ o :: post) ->
  (forall g', nframe g g' -> cinv (<[k := pre ++ post]> D) Df g' -> Q tt g') ->
  total g (st_obsolete r i o) Q.
Proof.
  intros Hi Hl Hds Hlen Hs HQ. unfold st_obsolete.
  apply total_bind_join. eapply total_bind; [by eapply total_detach|]. cbn beta. intros [] g1 [F1 I1].
  destruct (nframe_live _ _ _ _ _ F1 Hl) as (n1 & L1). destruct (inv_at _ _ _ _ _ _ _ _ _ I1 L1) as (Ek1 & _).
  eapply total_node_upd; [apply I1|exact L1|done|]. intros g2 F2 V2 _ _. apply HQ.
  - eapply nframe_trans; [exact F1|by apply frame_nframe].
  - pose proof (canon_drop D k pre o post Hds Hs) as HC. rewrite <- Hlen in V2.
    eapply inv_ext; [exact HC|exact HC|].
    eapply (inv_remove_target _ D Df _ _ g1 g2 k n1 pre o post); eauto using live_gv.
Qed.

Lemma total_st_update D Df g r k n i pre o td post (Q : unit -> graphR -> Prop) :
  cinv D Df g -> live g k r n -> D !! k = Some (pre ++ o :: post) -> length pre = i -> dsorted (pre ++ o :: post) ->
  dkey td = dkey o -> td_ok td ->
  (forall g', nframe g g' -> cinv (<[k := pre ++ td :: post]> D) Df g' -> Q tt g') ->
  total g (st_update r i td o) Q.
Proof.
  intros Hi Hl Hds Hlen Hs Hdk Hok HQ. unfold st_update.
  assert ((pre ++ o :: post) !! i = Some o) as Ho by by apply mid_lookup.
  assert (td_ok o) as Hoko by by eapply (inv_target _ _ _ _ _ _ _ _ _ _ _ _ Hi Hl Hds Ho).
  eapply (total_bind _ _ _ (fun _ g1 => frame g g1 /\ cinv D Df g1)).
  { eapply (total_upd_target D D Df _ _ g r k n i _ o o (canon D k (dkey o))); [exact Hi|exact Hl|exact Hds|exact Ho|done|done| |].
    - intros t (T1 & T2 & T3 & T4). done.
    - intros g1 F1 I1. split; [done|]. rewrite (insert_same D k _ i o) in I1 by done. eapply inv_ext; [|done|exact I1].
      intros k' rl. by apply upd2_same. }
  intros [] g1 [F1 I1]. destruct (frame_live _ _ _ _ _ F1 Hl) as (n1 & L1).
  apply total_bind_join. eapply total_bind; [by eapply total_detach|]. cbn beta. intros [] g2 [F2 I2].
  destruct (nframe_live _ _ _ _ _ F2 L1) as (n2 & L2). destruct (new_matching_ok td) as (W1 & W2 & W3).
  set (D0 := <[k := pre ++ post]> D) in *. set (D' := <[k := pre ++ td :: post]> D) in *.
  set (C0 := upd2 (canon D) k (dkey o) ∅) in *.
  eapply (total_bind _ _ _ (fun _ g3 => frame g2 g3 /\ inv D0 D' Df C0 C0 g3)).
  { eapply (total_upd_target D0 D Df _ _ g2 r k n2 i _ o td ∅); [exact I2|exact L2|exact Hds|exact Ho|done|done| |].
    - intros t (T1 & T2 & T3 & T4). split; [by rewrite Hdk|]. done.
    - intros g3 F3 I3. split; [done|]. by rewrite mid_insert in I3. }
  intros [] g3 [F3 I3]. destruct (frame_live _ _ _ _ _ F3 L2) as (n3 & L3).
  destruct (inv_at _ _ _ _ _ _ _ _ _ I3 L3) as (Ek3 & _).
  eapply (total_bind _ _ _ (fun _ g4 => nframe g3 g4 /\ inv D' D' Df C0 C0 g4)).
  { eapply total_addDelEdges; [exact L3|done|apply I3|]. intros el' E1 E2 E3.
    destruct (inv_edges D0 D' D' Df C0 C0 g3 el' I3 E1 E2) as [A B]; [|done].
    intros e. pose proof (edges_add D0 k pre td post (lookup_insert_eq _ _ _) e) as Ha.
    unfold D0 in Ha at 1. rewrite insert_insert_eq in Ha. fold D' in Ha. rewrite Ha, E3.
    by rewrite (iv_ele _ _ _ _ _ _ _ _ I3). }
  intros [] g4 [F4 I4]. destruct (nframe_live _ _ _ _ _ F4 L3) as (n4 & L4).
  assert (C0 k (dkey td) = ∅) as HC0 by (unfold C0; rewrite Hdk; apply upd2_eq).
  eapply (total_connect_targets D' D' Df C0 C0 g4 r k n4 i (pre ++ td :: post) td);
    [exact I4|exact L4|apply lookup_insert_eq|by apply mid_lookup|rewrite HC0; set_solver +|done|].
  intros g5 S F5 HS I5. apply HQ.
  - eapply nframe_trans; [by apply frame_nframe|]. eapply nframe_trans; [exact F2|].
    eapply nframe_trans; [by apply frame_nframe|]. eapply nframe_trans; [exact F4|by apply frame_nframe].
  - assert (S = matchset D td) as ->.
    { apply set_eq. intros x. rewrite HS. unfold matchset. rewrite elem_of_filter, <- (iv_dom _ _ _ _ _ _ _ _ I4).
      unfold D'. rewrite (dom_set D k _ _ Hds). tauto. }
    pose proof (canon_replace D k pre o td post _ Hds Hs Hdk eq_refl) as HC.
    eapply inv_ext; [| |exact I5]; intros k' rl; rewrite <- HC, HC0, union_empty_r_L, Hdk; unfold C0; apply upd2_twice.
Qed.

(** *** The same definition again *)

Lemma zip_eqb (l1 l2 : list string) : length l1 = length l2 ->
  forallb (fun p => String.eqb p.1 p.2) (zip l1 l2) = true -> l1 = l2.
Proof.
  revert l2. induction l1 as [|x l1 IH]; intros [|y l2]; cbn; try done.
  intros [= Hl] [->%String.eqb_eq Hf]%andb_true_iff. f_equal. by apply IH.
Qed.

(** The answers of [Compare]. *)
Lemma Compare_spec td o :
  match Compare td o with
  | (true, _) => dkey td = dkey o /\ rtd_Key td = rtd_Key o
      /\ sel_KeyPrefixes (rtd_Selector td) = sel_KeyPrefixes (rtd_Selector o)
  | (false, z) => rl_cmp (dkey td) (dkey o) = if (z =? 0)%Z then Eq else if (z =? -1)%Z then Lt else Gt
  end.
Proof.
  unfold Compare, rl_cmp, cmp_lex, dkey, String.ltb. cbn [fst snd].
  rewrite (String.compare_antisym (rtd_Relation o)), (String.compare_antisym (rtd_Label o)).
  destruct (String.compare (rtd_Relation td) (rtd_Relation o)) eqn:E1; cbn [CompOpp]; try done.
  destruct (String.compare (rtd_Label td) (rtd_Label o)) eqn:E2; cbn [CompOpp]; try done.
  apply String.compare_eq_iff in E1, E2.
  destruct (String.eqb_spec (rtd_Key td) (rtd_Key o)); [|done]. cbn [negb].
  destruct (Nat.eqb_spec (length (sel_KeyPrefixes (rtd_Selector td))) (length (sel_KeyPrefixes (rtd_Selector o)))); [|done].
  cbn [negb]. destruct (forallb _ _) eqn:Ef; [|done]. cbn [negb]. split; [congruence|]. split; [done|]. by apply zip_eqb.
Qed.

Lemma same_sel td o : td_ok td -> td_ok o -> dkey td = dkey o ->
  (sel_KeySelector (rtd_Selector td) = None <-> sel_KeySelector (rtd_Selector o) = None).
Proof.
  intros H1 H2 E. pose proof (tok_sel _ _ _ H1) as S1. pose proof (tok_sel _ _ _ H2) as S2. rewrite E, <- S2 in S1.
  rewrite !eq_None_not_Some. do 2 case_bool_decide; tauto || done.
Qed.

(** Equal definitions, but for the selector. *)
Record redef (td o : RelationTargetDef) : Prop := {
  rd_key : dkey td = dkey o;
  rd_single : Singleton_ td = Singleton_ o;
  rd_edges : forall k, tedges k td = tedges k o;
  rd_near : forall k, near td k = near o k
}.

Lemma redef_intro td o : td_ok td -> td_ok o -> dkey td = dkey o -> rtd_Key td = rtd_Key o ->
  sel_KeyPrefixes (rtd_Selector td) = sel_KeyPrefixes (rtd_Selector o) -> redef td o.
Proof.
  intros H1 H2 E Ek Ep. pose proof (same_sel td o H1 H2 E) as Hs. injection E as E1 E2. split.
  - unfold dkey. by rewrite E1, E2.
  - unfold Singleton_. rewrite Ek, Ep. f_equal. f_equal. by apply bool_decide_ext.
  - intros k. unfold tedges, target_edges. by rewrite Ek, Ep, E1, E2.
  - intros k. unfold near. by rewrite Ek, Ep.
Qed.

Lemma inv_redef De D Df WT WS g k pre o td post : inv De D Df WT WS g -> D !! k = Some (pre ++ o :: post) ->
  De = D -> td_ok td -> redef td o ->
  inv (<[k := pre ++ td :: post]> D) (<[k := pre ++ td :: post]> D) Df WT WS g.
Proof.
  intros [H1 H2 H3 H4 H5 H6] Hk -> Hok [R1 R2 R3 R4]. split; try done.
  - by rewrite (dom_set D k _ _ Hk).
  - intros k' n Hn. destruct (H3 k' n Hn) as [N1 N2 N3 (ds & N4 & N5 & N6 & N7) N8 N9]. split; try done.
    destruct (decide (k' = k)) as [->|Hne]; [|exists ds; by rewrite lookup_insert_ne].
    assert (ds = pre ++ o :: post) as -> by congruence. exists (pre ++ td :: post). rewrite lookup_insert_eq.
    split; [done|]. split; [by eapply dsorted_replace|].
    apply Forall_app in N6 as [N6a N6b]. inversion N6b; subst. split; [apply Forall_app; by split; [|constructor]|].
    apply Forall2_app_inv_l in N7 as (ts1 & ts2 & M1 & M2 & E). apply Forall2_cons_inv_l in M2 as (t & ts3 & Mt & M2 & ->).
    rewrite E. apply Forall2_app; [done|]. constructor; [|done]. destruct Mt as (T1 & T2 & T3 & T4).
    rewrite <- R1 in T1, T4. rewrite <- R2 in T3. done.
  - intros e. rewrite H6. change (in_edges D e <-> in_edges (<[k := pre ++ td :: post]> D) e).
    rewrite <- (insert_id D k _ Hk) at 1. rewrite !(in_edges_set D k _ _ Hk).
    split; (intros [(x & Hx & He)|H]; [left|by right]); apply elem_of_app in Hx as [Hx|[->|Hx]%elem_of_cons].
    + exists x. split; [set_solver +Hx|done].
    + exists td. rewrite R3. split; [set_solver +|done].
    + exists x. split; [set_solver +Hx|done].
    + exists x. split; [set_solver +Hx|done].
    + exists o. rewrite <- R3. split; [set_solver +|done].
    + exists x. split; [set_solver +Hx|done].
Qed.

(** Drop the targets that a new selector does not want. *)
Lemma total_prune D Df W g r k n i ds td t l :
  inv D D Df W W g -> live g k r n -> D !! k = Some ds -> ds !! i = Some td -> n_targets n !! i = Some t ->
  W k (dkey td) ⊆ dom (gv g) -> NoDup l -> (forall x, x ∈ l -> x ∈ W k (dkey td)) ->
  total g (forM l (fun key =>
      upd_target r i (fun t => tg_with_keys t (ks_Del (tg_MatchingKeys t) key).1) ;;
      ref ← node_ref key; r2 ← the_node ref;
      removeFromSources r2 (tg_Relation t) (tg_Label t) (n_key n)))
    (fun _ g' => frame g g' /\
      let W' := upd2 W k (dkey td) (W k (dkey td) ∖ list_to_set l) in inv D D Df W' W' g').
Proof.
  intros Hi Hl Hds Htd Ht Hdom Hnd Hin.
  destruct (inv_target _ _ _ _ _ _ _ _ _ _ _ _ Hi Hl Hds Htd) as (Hok & _ & t' & Ht' & Hk & _).
  assert (t' = t) as -> by congruence. injection Hk as E1 E2. rewrite E1, E2.
  destruct (inv_at _ _ _ _ _ _ _ _ _ Hi Hl) as (Ek & HKk & _). rewrite Ek. destruct (HK k HKk) as [Hne _].
  eapply total_conseq; [apply (total_forM _ _ (fun done g' => frame g g' /\
    let W' := upd2 W k (dkey td) (W k (dkey td) ∖ list_to_set done) in inv D D Df W' W' g'))|].
  - split; [apply frame_refl, Hi|]. eapply inv_ext; [| |exact Hi]; intros k' rl; symmetry; apply upd2_same;
      cbn [list_to_set]; by rewrite difference_empty_L.
  - intros pre k2 post g1 El [F1 I1]. cbv zeta in I1. set (W1 := upd2 W k (dkey td) (W k (dkey td) ∖ list_to_set pre)) in *.
    assert (k2 ∈ l) as Hk2 by (rewrite El; set_solver +).
    assert (k2 ∉ pre) as Hk2n.
    { rewrite El in Hnd. apply NoDup_app in Hnd as (_ & Hnd & _). intros H. apply (Hnd k2 H). set_solver +. }
    apply Hin in Hk2. destruct (live_ref g k2 (iv_heap _ _ _ _ _ _ _ _ Hi) (Hdom _ Hk2)) as (r2 & n2 & L2).
    destruct (frame_live _ _ _ _ _ F1 Hl) as (n1 & L1).
    destruct (live_ref g k2 (iv_heap _ _ _ _ _ _ _ _ Hi) (Hdom _ Hk2)) as (_ & _ & _).
    assert (k2 <> "") as Hk2ne by (apply HK; by destruct (inv_at _ _ _ _ _ _ _ _ _ Hi L2) as (_ & ? & _)).
    set (S' := W k (dkey td) ∖ list_to_set (pre ++ [k2])).
    assert (W1 k (dkey td) ∖ {[k2]} = S') as HS.
    { unfold W1, S'. rewrite upd2_eq, list_to_set_app_L. set_solver +. }
    eapply (total_bind _ _ _ (fun _ g2 => frame g1 g2 /\ inv D D Df (upd2 W k (dkey td) S') W1 g2)).
    { eapply (total_upd_target D D Df W1 W1 g1 r k n1 i ds td td S'); [exact I1|exact L1|done|done|done|done| |].
      - intros t1 (T1 & T2 & T3 & T4). destruct (ks_Del_any (tg_MatchingKeys t1) k2 T2 Hk2ne) as (A1 & A2 & _ & A4).
        split; [done|]. split; [done|]. cbn [tg_MatchingKeys tg_with_keys]. split; [by rewrite A4|]. by rewrite A2, T4.
      - intros g2 F2 I2. split; [done|]. rewrite (insert_same D k ds i td) in I2 by done.
        eapply inv_ext; [|done|exact I2]. intros k' rl. unfold W1. apply upd2_twice. }
    intros [] g2 [F2 I2]. assert (frame g g2) as F12 by by eapply frame_trans.
    destruct (frame_live _ _ _ _ _ F12 L2) as (n2' & L2').
    eapply total_node_ref; [exact L2'|]. eapply total_deref_bind; [reflexivity|].
    eapply total_conseq; [eapply (total_removeFromSources K SEL HK D D Df _ W1 g2 r2 k2 n2' k); eauto|].
    + change (rtd_Relation td, rtd_Label td) with (dkey td). unfold W1. rewrite upd2_eq.
      apply elem_of_difference. split; [done|]. by rewrite elem_of_list_to_set.
    + intros [] g3 [F3 I3]. split; [by eapply frame_trans|]. cbv zeta. fold S'.
      eapply inv_ext; [done| |exact I3]. intros k' rl. change (rtd_Relation td, rtd_Label td) with (dkey td).
      rewrite HS. unfold W1. apply upd2_twice.
  - done.
Qed.

Lemma total_st_equal D Df g r k n i pre o td post (Q : unit -> graphR -> Prop) :
  cinv D Df g -> live g k r n -> D !! k = Some (pre ++ o :: post) -> length pre = i -> dsorted (pre ++ o :: post) ->
  redef td o -> td_ok td ->
  (forall g', nframe g g' -> cinv (<[k := pre ++ td :: post]> D) Df g' -> Q tt g') ->
  total g (st_equal r i td) Q.
Proof.
  intros Hi Hl Hds Hlen Hs Hre Hok HQ. unfold st_equal.
  assert ((pre ++ o :: post) !! i = Some o) as Ho by by apply mid_lookup.
  assert (td_ok o) as Hoko by by eapply (inv_target _ _ _ _ _ _ _ _ _ _ _ _ Hi Hl Hds Ho).
  pose proof (inv_redef D D Df _ _ g k pre o td post Hi Hds eq_refl Hok Hre) as Hi0.
  set (D' := <[k := pre ++ td :: post]> D) in *.
  assert (D' !! k = Some (pre ++ td :: post)) as Hds' by apply lookup_insert_eq.
  assert ((pre ++ td :: post) !! i = Some td) as Htd by by apply mid_lookup.
  pose proof (canon_replace D k pre o td post _ Hds Hs (rd_key _ _ Hre) eq_refl) as HC. fold D' in HC.
  assert (canon D k (dkey td) = matchset D o) as Ho_set by (rewrite (rd_key _ _ Hre); by eapply canon_mid).
  destruct (WithKeySelector td) eqn:Ew.
  - apply andb_true_iff in Ew as [Ew1 Ew2]. apply bool_decide_eq_true in Ew2 as [f Hf].
    destruct (inv_target _ _ _ _ _ _ _ _ _ _ _ _ Hi0 Hl Hds' Htd) as (_ & _ & t & Ht & Hk & Hwf & Hsing & Hel).
    eapply total_node_at; [exact Hl|]. eapply total_deref_bind; [exact Ht|]. rewrite Hf.
    set (l := filter (fun key => negb (f key) = true) (ks_Iterate (tg_MatchingKeys t))).
    assert (forall x, x ∈ l <-> x ∈ canon D k (dkey td) /\ f x = false) as Hl_in.
    { intros x. unfold l. rewrite list_elem_of_filter, elem_of_ks_Iterate, Hel, negb_true_iff by done. tauto. }
    eapply total_bind; [apply (total_prune D' Df (canon D) g r k n i (pre ++ td :: post) td t l); try done|].
    + rewrite <- (iv_dom _ _ _ _ _ _ _ _ Hi). apply canon_dom.
    + apply NoDup_filter. by apply NoDup_ks_Iterate.
    + intros x Hx. by apply Hl_in.
    + cbv zeta. intros [] g1 [F1 I1]. destruct (frame_live _ _ _ _ _ F1 Hl) as (n1 & L1).
      eapply (total_connect_targets D' D' Df _ _ g1 r k n1 i _ td); [exact I1|exact L1|exact Hds'|exact Htd| |done|].
      * unfold Singleton_. rewrite Ew1, Hf. cbn. done.
      * intros g2 S F2 HS I2. apply HQ; [eapply nframe_trans; by apply frame_nframe|].
        rewrite upd2_eq in I2.
        assert (S ∪ (canon D k (dkey td) ∖ list_to_set l) = matchset D td) as HM.
        { apply set_eq. intros x. rewrite elem_of_union, elem_of_difference, elem_of_list_to_set, HS, Hl_in, Ho_set.
          unfold matchset. rewrite !elem_of_filter, <- (iv_dom _ _ _ _ _ _ _ _ I1). unfold D'. rewrite (dom_set D k _ _ Hds).
          rewrite !(matches_near K SEL) by eauto. rewrite (rd_near _ _ Hre).
          assert (selected td x = f x) as -> by (unfold selected; by rewrite Hf).
          rewrite !andb_true_iff. destruct (f x); intuition congruence. }
        eapply inv_ext; [| |exact I2]; intros k' rl; rewrite upd2_twice, HM, <- HC, (rd_key _ _ Hre); done.
  - apply total_skip. apply HQ; [apply frame_nframe, frame_refl, Hi|].
    assert (matchset D td = matchset D o) as HM.
    { apply set_eq. intros x. unfold matchset. rewrite !elem_of_filter, !(matches_near K SEL) by eauto.
      rewrite (rd_near _ _ Hre). assert (selected td x = selected o x) as ->; [|done].
      pose proof (same_sel td o Hok Hoko (rd_key _ _ Hre)) as Hss. unfold selected, WithKeySelector in *.
      apply andb_false_iff in Ew as [Ew|Ew].
      - apply String.eqb_neq in Ew. destruct (tok_key _ _ _ Hok Ew) as [_ E]. rewrite E. by rewrite (proj1 Hss E).
      - apply bool_decide_eq_false, eq_None_not_Some in Ew. rewrite Ew. by rewrite (proj1 Hss Ew). }
    eapply inv_ext; [| |exact Hi0]; intros k' rl; rewrite <- HC, HM; symmetry; apply upd2_same;
      rewrite <- (rd_key _ _ Hre); by rewrite Ho_set.
Qed.
End graph_targets.
