(* ===== verification/GraphOps.v ===== *)
(** * The operations on nodes keep the connections

    [SetNode], [SetTargets] and [DeleteNode] return, and afterwards targets and
    sources are those of the definitions. *)
From S2P Require Import Prelude KeySet Monad Api Flags EdgeLookup LazyArray EdgeLookupFacts Graph GraphRW.
From S2P Require Import TargetFacts GraphInv GraphTargets.

Section graph_ops.
Context {X : Ext} {MO : MapOrder}.
Context (K : string -> Prop) (SEL : string * string -> bool).
Context (HK : forall k, K k -> k <> "" /\ trimTrailingDirSep k = k).

Abbreviation inv := (inv K SEL).
Abbreviation cinv := (cinv K SEL).
Abbreviation td_ok := (td_ok K SEL).

(** ** The merge of [SetTargets] *)

Lemma rl_cmp_trans a b c : cmp_lt rl_cmp a b -> cmp_lt rl_cmp b c -> cmp_lt rl_cmp a c.
Proof. intros H1 H2. by eapply cmp_trans. Qed.

Lemma dsorted_head pre td l : dsorted (pre ++ td :: l) -> dsorted ((pre ++ [td]) ++ l).
Proof. by rewrite <- app_assoc. Qed.

Lemma dsorted_app (pre l : list RelationTargetDef) : dsorted (pre ++ l) <->
  dsorted pre /\ dsorted l /\ forall x y, x ∈ pre -> y ∈ l -> cmp_lt rl_cmp (dkey x) (dkey y).
Proof.
  unfold dsorted, ssorted. rewrite fmap_app, StronglySorted_app. split.
  - intros (H1 & H2 & H3). split_and!; try done. intros x y Hx Hy. apply H1; by apply list_elem_of_fmap_2.
  - intros (H1 & H2 & H3). split_and!; try done.
    intros a b (x & -> & Hx)%list_elem_of_fmap (y & -> & Hy)%list_elem_of_fmap. auto.
Qed.

Lemma dsorted_cons td (l : list RelationTargetDef) : dsorted (td :: l) <->
  dsorted l /\ forall y, y ∈ l -> cmp_lt rl_cmp (dkey td) (dkey y).
Proof.
  rewrite (dsorted_app [td] l). split.
  - intros (_ & H2 & H3). split; [done|]. intros y. apply H3. set_solver +.
  - intros [H1 H2]. split; [repeat constructor|]. split; [done|]. intros x y ->%list_elem_of_singleton. apply H2.
Qed.

(** A new definition goes before a greater one. *)
Lemma dsorted_before pre td tds o old : dsorted (pre ++ td :: tds) -> dsorted (pre ++ o :: old) ->
  cmp_lt rl_cmp (dkey td) (dkey o) -> dsorted (pre ++ td :: o :: old).
Proof.
  rewrite !dsorted_app, !dsorted_cons. intros (H1 & [H2 H3] & H4) (_ & [H5 H6] & H7) Hlt. split_and!; try done.
  - intros y [->|Hy]%elem_of_cons; [done|]. eapply rl_cmp_trans; [exact Hlt|auto].
  - intros x y Hx [->|Hy]%elem_of_cons; [apply H4; set_solver +Hx|by apply H7].
Qed.

Lemma dsorted_drop pre o old : dsorted (pre ++ o :: old) -> dsorted (pre ++ old).
Proof.
  rewrite !dsorted_app, dsorted_cons. intros (H1 & [H2 H3] & H4). split_and!; try done.
  intros x y Hx Hy. apply H4; set_solver +Hx Hy.
Qed.

Lemma total_set_targets_loop fuel : forall D Df g r k n pre tds old (Q : unit -> graphR -> Prop),
  length tds + length old < fuel ->
  cinv D Df g -> live g k r n -> D !! k = Some (pre ++ old) ->
  dsorted (pre ++ tds) -> dsorted (pre ++ old) -> Forall td_ok tds ->
  (forall g', nframe g g' -> cinv (<[k := pre ++ tds]> D) Df g' -> Q tt g') ->
  total g (set_targets_loop fuel r (length pre) tds old) Q.
Proof.
  induction fuel as [|fuel IH]; intros D Df g r k n pre tds old Q Hf Hi Hl Hds Hst Hso Hok HQ; [lia|].
  (* one step that ends with the definitions [pre' ++ old'] *)
  assert (forall pre' tds' old' g', length tds' + length old' < fuel -> nframe g g' ->
    cinv (<[k := pre' ++ old']> D) Df g' -> dsorted (pre' ++ tds') -> dsorted (pre' ++ old') ->
    Forall td_ok tds' -> pre' ++ tds' = pre ++ tds ->
    total g' (set_targets_loop fuel r (length pre') tds' old') Q) as Hnext.
  { intros pre' tds' old' g' Hlen Hfr Hi' Hst' Hso' Hok' E. destruct (nframe_live _ _ _ _ _ Hfr Hl) as (n' & Hl').
    eapply (IH _ Df g' r k n' pre'); [done|exact Hi'|exact Hl'|apply lookup_insert_eq|done|done|done|].
    intros g'' Hfr' Hi''. rewrite insert_insert_eq, E in Hi''. apply HQ; [by eapply nframe_trans|done]. }
  assert (forall td, length (pre ++ [td]) = S (length pre)) as Hlen1 by (intros; rewrite length_app; cbn; lia).
  assert (forall td (l : list RelationTargetDef), (pre ++ [td]) ++ l = pre ++ td :: l) as Hshift
    by (intros; by rewrite <- app_assoc).
  assert (forall td tds', tds = td :: tds' -> dsorted (pre ++ td :: old) ->
    total g (st_new r (length pre) td ;; set_targets_loop fuel r (S (length pre)) tds' old) Q) as Hnew.
  { intros td tds' -> Hs. apply Forall_cons in Hok as [Hok1 Hok2]. cbn [length] in Hf.
    eapply (total_bind _ _ _ (fun _ g' => nframe g g' /\ cinv (<[k := pre ++ td :: old]> D) Df g')).
    { eapply (total_st_new K SEL HK D Df g r k n _ pre td old); eauto. }
    intros [] g' [F I]. rewrite <- (Hlen1 td). apply Hnext; rewrite ?Hshift; try done. lia. }
  assert (forall o old', old = o :: old' ->
    total g (st_obsolete r (length pre) o ;; set_targets_loop fuel r (length pre) tds old') Q) as Hobs.
  { intros o old' ->. cbn [length] in Hf.
    eapply (total_bind _ _ _ (fun _ g' => nframe g g' /\ cinv (<[k := pre ++ old']> D) Df g')).
    { eapply (total_st_obsolete K SEL HK D Df g r k n _ pre o old'); eauto. }
    intros [] g' [F I]. apply Hnext; try done; [lia|by eapply dsorted_drop]. }
  cbn [set_targets_loop]. destruct tds as [|td tds'], old as [|o old'].
  - apply total_skip. apply HQ; [apply frame_nframe, frame_refl, Hi|]. by rewrite insert_id.
  - by apply Hobs.
  - apply Hnew; [done|]. rewrite dsorted_app in Hst |- *. rewrite dsorted_cons in Hst |- *.
    destruct Hst as (S1 & [S2 S3] & S4). split_and!; try done; [repeat constructor| |].
    + intros y []%elem_of_nil.
    + intros x y Hx ->%list_elem_of_singleton. apply S4; set_solver +Hx.
  - pose proof (Compare_spec td o) as Hc. destruct (Compare td o) as [[] z].
    + destruct Hc as (E1 & E2 & E3). apply Forall_cons in Hok as [Hok1 Hok2]. cbn [length] in Hf.
      assert (td_ok o) as Hoko.
      { eapply (inv_target K SEL D D Df _ _ g k r n _ (length pre) o); [exact Hi|exact Hl|exact Hds|by apply mid_lookup]. }
      eapply (total_bind _ _ _ (fun _ g' => nframe g g' /\ cinv (<[k := pre ++ td :: old']> D) Df g')).
      { eapply (total_st_equal K SEL HK D Df g r k n _ pre o td old'); eauto. by eapply redef_intro. }
      intros [] g' [F I]. rewrite <- (Hlen1 td). apply Hnext; rewrite ?Hshift; try done; [lia|by eapply dsorted_replace].
    + destruct (z =? 0)%Z; [|destruct (z =? -1)%Z].
      * apply (proj1 (cmp_eq (cmp:=rl_cmp) _ _)) in Hc. apply Forall_cons in Hok as [Hok1 Hok2]. cbn [length] in Hf.
        eapply (total_bind _ _ _ (fun _ g' => nframe g g' /\ cinv (<[k := pre ++ td :: old']> D) Df g')).
        { eapply (total_st_update K SEL HK D Df g r k n _ pre o td old'); eauto. }
        intros [] g' [F I]. rewrite <- (Hlen1 td). apply Hnext; rewrite ?Hshift; try done; [lia|by eapply dsorted_replace].
      * apply Hnew; [done|]. by eapply dsorted_before.
      * by apply Hobs.
Qed.

Definition sort_defs (tds : list RelationTargetDef) : list RelationTargetDef :=
  sort_by (cmp_lex String.compare String.compare) (fun td => (rtd_Relation td, rtd_Label td)) tds.

(** The admissible lists of definitions: one for every relation and label. *)
Definition tds_ok (tds : list RelationTargetDef) : Prop := NoDup (dkey <$> tds) /\ Forall td_ok tds.

Lemma sort_defs_perm tds : sort_defs tds ≡ₚ tds.
Proof. apply sort_by_perm. Qed.

Lemma dsorted_sort tds : NoDup (dkey <$> tds) -> dsorted (sort_defs tds).
Proof.
  intros Hn. pose proof (sort_by_sorted rl_cmp dkey tds) as Hs. unfold dsorted.
  change (sort_by rl_cmp dkey tds) with (sort_defs tds) in Hs. rewrite <- (sort_defs_perm tds) in Hn. revert Hs Hn.
  induction (sort_defs tds) as [|td l IH]; [by constructor|]. rewrite fmap_cons. intros Hs [Hn1 Hn2]%NoDup_cons.
  apply StronglySorted_inv in Hs as [Hs1 Hs2]. constructor; [by apply IH|].
  apply Forall_fmap, Forall_forall. intros x Hx. rewrite Forall_forall in Hs2. specialize (Hs2 x Hx).
  apply (cmp_le_lteq rl_cmp) in Hs2 as [?|E]; [done|]. destruct Hn1. rewrite E. by apply list_elem_of_fmap_2.
Qed.

Lemma total_SetTargets D g k r n tds (Q : unit -> graphR -> Prop) :
  cinv D D g -> live g k r n -> tds_ok tds ->
  (forall g', nframe g g' -> cinv (<[k := sort_defs tds]> D) (<[k := sort_defs tds]> D) g' -> Q tt g') ->
  total g (SetTargets r tds) Q.
Proof.
  intros Hi Hl [Hnd Hok] HQ. unfold SetTargets. fold (sort_defs tds).
  destruct (inv_at K SEL _ _ _ _ _ _ _ _ _ Hi Hl) as (Ek & HKk & Hd & ds & Hds & Hs & _ & _).
  eapply total_node_at; [exact Hl|]. assert (n_targetsDef n = ds) as E by congruence. rewrite E.
  eapply (total_bind _ _ _ (fun _ g1 => nframe g g1 /\ cinv (<[k := sort_defs tds]> D) D g1)).
  { eapply (total_set_targets_loop _ D D g r k n []); try done; [lia|by apply dsorted_sort|].
    by rewrite (sort_defs_perm tds). }
  intros [] g1 [F1 I1]. destruct (nframe_live _ _ _ _ _ F1 Hl) as (n1 & L1).
  destruct (inv_at K SEL _ _ _ _ _ _ _ _ _ I1 L1) as (Ek1 & _ & _ & ds1 & Hds1 & _ & _ & Hf).
  rewrite lookup_insert_eq in Hds1. injection Hds1 as <-.
  eapply total_node_upd_bind; [apply I1|exact L1|done|]. intros g2 F2 V2 L2.
  eapply total_node_at; [exact L2|]. cbn [n_targetsDef nset_targetsDef n_targets].
  rewrite (Forall2_length _ _ _ Hf), Nat.eqb_refl. apply total_skip. apply HQ.
  - eapply nframe_trans; [exact F1|by apply frame_nframe].
  - destruct I1 as [H1 H2 H3 H4 H5 H6]. destruct F2 as (G1 & G2 & G3 & G4).
    assert (dom (gv g2) = dom (gv g1)) as Hdm by (rewrite V2; apply dom_insert_lookup_L; apply live_gv in L1; by eexists).
    split; [done|congruence| |by rewrite G2|congruence|by rewrite G2].
    intros k' n'. rewrite V2. intros [(<- & <-)|(Hne & Hk')]%lookup_insert_Some.
    + destruct (H3 k n1 (live_gv _ _ _ _ L1)) as [N1 N2 N3 N4 N5 N6]. split; try done. apply lookup_insert_eq.
    + destruct (H3 k' n' Hk') as [N1 N2 N3 N4 N5 N6]. split; try done. by rewrite lookup_insert_ne.
Qed.
End graph_ops.
