(* ===== verification/GraphNodes.v ===== *)
(** * Adding and removing nodes

    [SetNode] connects a new node with the nodes whose definitions select it and
    [DeleteNode] takes a node out of the targets of all others. *)
From S2P Require Import Prelude KeySet Monad Api Flags EdgeLookup LazyArray EdgeLookupFacts Graph GraphRW.
From S2P Require Import TargetFacts GraphInv GraphTargets GraphOps.

Section graph_nodes.
Context {X : Ext} {MO : MapOrder}.
Context (K : string -> Prop) (SEL : string * string -> bool).
Context (HK : forall k, K k -> k <> "" /\ trimTrailingDirSep k = k).

Abbreviation inv := (inv K SEL).
Abbreviation cinv := (cinv K SEL).
Abbreviation td_ok := (td_ok K SEL).

(** ** Which nodes the definitions connect *)

Lemma canon_at (D : defs) k ds td : D !! k = Some ds -> dsorted ds -> td ∈ ds -> canon D k (dkey td) = matchset D td.
Proof. intros Hk Hs (pre & post & ->)%list_elem_of_split. by eapply canon_mid. Qed.

Lemma elem_of_matchset (D : defs) td x : x ∈ matchset D td <-> matches td x = true /\ x ∈ dom D.
Proof. unfold matchset. by rewrite elem_of_filter. Qed.

Lemma canon_elim (D : defs) k rl x : x ∈ canon D k rl ->
  exists ds td, D !! k = Some ds /\ td ∈ ds /\ dkey td = rl /\ matches td x = true /\ x ∈ dom D.
Proof.
  unfold canon. destruct (D !! k) as [ds|] eqn:Hk; cbn [default from_option id]; [|set_solver +].
  destruct (head _) as [td|] eqn:Hh; [|set_solver +].
  assert (td ∈ filter (fun td => dkey td = rl) ds) as [E Hin]%list_elem_of_filter.
  { destruct (filter _ ds) as [|y l]; [done|]. injection Hh as ->. set_solver +. }
  intros [Hm Hx]%elem_of_matchset. by exists ds, td.
Qed.

Lemma cinv_dsorted De D Df WT WS g k ds : inv De D Df WT WS g -> D !! k = Some ds -> dsorted ds /\ Forall td_ok ds.
Proof.
  intros Hi Hk. assert (k ∈ dom (gv g)) as [n Hn]%elem_of_dom by (rewrite <- (iv_dom _ _ _ _ _ _ _ _ Hi); by eapply elem_of_dom_2).
  destruct (ni_tgt _ _ _ _ _ _ _ _ (iv_node _ _ _ _ _ _ _ _ Hi k n Hn)) as (ds' & E & H1 & H2 & _).
  by assert (ds' = ds) as -> by congruence.
Qed.

(** What the definitions say about a key. *)
Lemma canon_spec De D Df WT WS g k rl x : inv De D Df WT WS g ->
  x ∈ canon D k rl <-> exists ds td, D !! k = Some ds /\ td ∈ ds /\ dkey td = rl /\ matches td x = true /\ x ∈ dom D.
Proof.
  intros Hi. split; [apply canon_elim|]. intros (ds & td & Hk & Hin & <- & Hm & Hx).
  destruct (cinv_dsorted _ _ _ _ _ _ _ _ Hi Hk) as [Hs _]. rewrite (canon_at D k ds td) by done. by apply elem_of_matchset.
Qed.

Lemma targets_sorted De D Df WT WS g k r n : inv De D Df WT WS g -> live g k r n -> tsorted (n_targets n).
Proof.
  intros Hi Hl. destruct (inv_at K SEL _ _ _ _ _ _ _ _ _ Hi Hl) as (_ & _ & _ & ds & _ & Hs & _ & Hf).
  unfold tsorted. assert (tkey <$> n_targets n = dkey <$> ds) as ->; [|done].
  induction Hf as [|td t ds ts [E _] _ IH]; [done|]. rewrite !fmap_cons, E, IH; [done|].
  unfold dsorted in *. rewrite fmap_cons in Hs. by apply StronglySorted_inv in Hs as [? _].
Qed.

(** A node and definition behind every answer of [iterSources], and back. *)
Lemma iterSources_defs D Df WT WS g key x : inv D D Df WT WS g -> K key ->
  x ∈ iterSources (g_edgeLookup g) key <->
  exists ds td, D !! x.1.1 = Some ds /\ td ∈ ds /\ (x.1.2, x.2) = dkey td /\ near td key = true.
Proof.
  intros Hi Hkey. destruct (HK key Hkey) as [_ Ht]. rewrite (iterSources_spec _ key x (proj2 (iv_el _ _ _ _ _ _ _ _ Hi))), Ht.
  destruct x as [[sk rel] lab]. cbn [fst snd]. split.
  - intros (tk & p & He & Hm). apply (iv_ele _ _ _ _ _ _ _ _ Hi) in He as (k & ds & td & Hk & Hin & He).
    pose proof (tedges_source _ _ _ He) as E. cbn [fst snd] in E. injection E as -> -> ->.
    exists ds, td. split; [done|]. split; [done|]. split; [done|].
    destruct (cinv_dsorted _ _ _ _ _ _ _ _ Hi Hk) as [_ Hok]. rewrite Forall_forall in Hok.
    apply (near_edges K SEL k td key (Hok td Hin) Hkey). by exists tk, p.
  - intros (ds & td & Hk & Hin & [= -> ->] & Hn).
    destruct (cinv_dsorted _ _ _ _ _ _ _ _ Hi Hk) as [_ Hok]. rewrite Forall_forall in Hok.
    apply (near_edges K SEL sk td key (Hok td Hin) Hkey) in Hn as (tk & p & He & Hm).
    exists tk, p. split; [|done]. apply (iv_ele _ _ _ _ _ _ _ _ Hi). by exists sk, ds, td.
Qed.

(** The target of a source and its definition. *)
Lemma source_target D Df WT WS g sk rel lab ds td : inv D D Df WT WS g -> D !! sk = Some ds -> td ∈ ds -> (rel, lab) = dkey td ->
  exists sr sn i t, live g sk sr sn /\ ds !! i = Some td /\ n_targets sn !! i = Some t
    /\ GetTargetForLabel (n_targets sn) rel lab = (Some t, i) /\ tgt_ok (WT sk (dkey td)) td t.
Proof.
  intros Hi Hk Hin E. assert (sk ∈ dom (gv g)) as Hsk by (rewrite <- (iv_dom _ _ _ _ _ _ _ _ Hi); by eapply elem_of_dom_2).
  destruct (live_ref g sk (iv_heap _ _ _ _ _ _ _ _ Hi) Hsk) as (sr & sn & Hl). apply list_elem_of_lookup in Hin as [i Hi'].
  destruct (inv_target K SEL _ _ _ _ _ _ _ _ _ _ _ _ Hi Hl Hk Hi') as (_ & _ & t & Ht & Htok).
  exists sr, sn, i, t. split_and!; try done.
  pose proof (GetTarget_found (n_targets sn) i t (targets_sorted _ _ _ _ _ _ _ _ _ Hi Hl) Ht) as Hg.
  destruct Htok as (Hkk & _). rewrite <- Hkk in E. by injection E as -> ->.
Qed.

(** ** A new node *)

Lemma canon_new (D : defs) key k rl x : D !! key = None ->
  x ∈ canon (<[key := []]> D) k rl <-> x ∈ canon D k rl \/ x = key /\ key ∈ canon (<[key := []]> D) k rl.
Proof.
  intros Hk. unfold canon. destruct (decide (k = key)) as [->|Hne].
  - rewrite lookup_insert_eq, Hk. cbn. set_solver +.
  - rewrite lookup_insert_ne by done. destruct (head _) as [td|]; [|set_solver +].
    rewrite !elem_of_matchset, dom_insert_L, !elem_of_union, !elem_of_singleton. split.
    + intros [Hm [->|Hx]]; [right|left]; auto.
    + intros [[Hm Hx]|[-> [Hm _]]]; auto.
Qed.

(** The connections while the sources in [done] are connected with the new node. *)
Definition W_add (D : defs) (key : string) (done : list (string * string * string)) : conn := fun k rl =>
  canon D k rl ∪ (if decide ((k, rl.1, rl.2) ∈ done /\ key ∈ canon (<[key := []]> D) k rl) then {[key]} else ∅).

Lemma W_add_nil D key k rl : W_add D key [] k rl = canon D k rl.
Proof. unfold W_add. rewrite decide_False; [set_solver +|]. by intros [?%elem_of_nil _]. Qed.

Lemma W_add_skip D key done x k rl : key ∉ canon (<[key := []]> D) x.1.1 (x.1.2, x.2) ->
  W_add D key done k rl = W_add D key (done ++ [x]) k rl.
Proof.
  intros Hn. unfold W_add. f_equal. destruct x as [[sk rel] lab]. cbn [fst snd] in Hn.
  destruct (decide ((k, rl.1, rl.2) ∈ done ++ [(sk, rel, lab)] /\ _)) as [[Hin Hc]|Hd].
  - rewrite decide_True; [done|]. split; [|done]. apply elem_of_app in Hin as [?|E%list_elem_of_singleton]; [done|].
    destruct rl as [? ?]. injection E as -> -> ->. done.
  - rewrite decide_False; [done|]. intros [Hin Hc]. apply Hd. split; [set_solver +Hin|done].
Qed.

Lemma W_add_step D key done x k rl : key ∈ canon (<[key := []]> D) x.1.1 (x.1.2, x.2) ->
  upd2 (W_add D key done) x.1.1 (x.1.2, x.2) ({[key]} ∪ W_add D key done x.1.1 (x.1.2, x.2)) k rl
  = W_add D key (done ++ [x]) k rl.
Proof.
  intros Hc. destruct x as [[sk rel] lab]. cbn [fst snd] in *. unfold upd2. case_decide as Hd.
  - destruct Hd as [-> ->]. unfold W_add at 2. rewrite decide_True by (split; [set_solver +|done]).
    unfold W_add. destruct (decide _); set_solver +.
  - unfold W_add. f_equal. destruct rl as [rl1 rl2].
    assert ((k, rl1, rl2) ∈ done ++ [(sk, rel, lab)] <-> (k, rl1, rl2) ∈ done) as E.
    { rewrite elem_of_app, list_elem_of_singleton. split; [|tauto]. intros [?|[= -> -> ->]]; [done|]. by destruct Hd. }
    cbn [fst snd]. by apply decide_ext; rewrite E.
Qed.

Lemma W_add_all De Df WT WS g D key l : inv De (<[key := []]> D) Df WT WS g -> D !! key = None ->
  (forall k rl, key ∈ canon (<[key := []]> D) k rl -> (k, rl.1, rl.2) ∈ l) ->
  forall k rl, W_add D key l k rl = canon (<[key := []]> D) k rl.
Proof.
  intros Hi Hk Hl k rl. apply set_eq. intros x. rewrite (canon_new D key k rl x Hk). unfold W_add.
  rewrite elem_of_union. destruct (decide _) as [[_ Hc]|Hd].
  - rewrite elem_of_singleton. split; [intros [?| ->]; auto|intros [?|[-> _]]; auto].
  - split; [intros [?|?%elem_of_empty]; [by left|done]|]. intros [?|[-> Hc]]; [by left|]. destruct Hd. auto.
Qed.

Lemma total_connect_source D g0 g key r n x done : let D' := <[key := []]> D in
  inv D' D' D' (W_add D key done) (W_add D key done) g -> frame g0 g -> live g key r n -> D !! key = None ->
  x ∈ iterSources (g_edgeLookup g) key ->
  total g (connect_source key r x) (fun _ g' => frame g0 g' /\
    inv D' D' D' (W_add D key (done ++ [x])) (W_add D key (done ++ [x])) g').
Proof.
  intros D' Hi Hf Hl Hnew Hx. destruct (inv_at K SEL _ _ _ _ _ _ _ _ _ Hi Hl) as (_ & Hkey & _).
  apply (iterSources_defs _ _ _ _ _ _ _ Hi Hkey) in Hx as (ds & td & Hds & Hin & E & Hnear).
  destruct (source_target _ _ _ _ _ _ _ _ _ _ Hi Hds Hin E) as (sr & sn & i & t & Hls & Hidx & Ht & Hg & Htok).
  destruct (cinv_dsorted _ _ _ _ _ _ _ _ Hi Hds) as [Hs Hok]. pose proof (Forall_lookup_1 _ _ _ _ Hok Hidx) as Hoktd.
  pose proof (canon_at D' x.1.1 ds td Hds Hs Hin) as Hcan.
  assert (key ∈ dom D') as Hdom by (apply elem_of_dom; unfold D'; rewrite lookup_insert_eq; by eexists).
  destruct (inv_at K SEL _ _ _ _ _ _ _ _ _ Hi Hls) as (_ & _ & Hdf & _).
  unfold connect_source. destruct x as [[sk rel] lab] eqn:Ex. rewrite <- Ex. cbn [fst snd] in *.
  eapply total_node_ref; [exact Hls|]. eapply total_deref_bind; [reflexivity|].
  eapply total_node_at; [exact Hls|]. rewrite Hg.
  assert (n_targetsDef sn = ds) as -> by congruence. eapply total_deref_bind; [exact Hidx|].
  assert (match sel_KeySelector (rtd_Selector td) with Some f => negb (f key) | None => false end
    = negb (selected td key)) as -> by (unfold selected; by destruct (sel_KeySelector (rtd_Selector td))).
  assert (key ∈ canon D' sk (dkey td) <-> selected td key = true) as Hsel.
  { rewrite Hcan, elem_of_matchset, (matches_near K SEL) by done. rewrite Hnear. cbn [andb]. tauto. }
  destruct (selected td key) eqn:Esel; cbn [negb].
  - eapply total_deref_bind; [reflexivity|].
    eapply total_conseq; [eapply (total_addToTargets K SEL HK D' D' D' _ _ g sr sk sn r key n i ds td); try done|].
    + intros Hsing. unfold W_add. intros y [Hy|Hy]%elem_of_union; [|destruct (decide _); [done|set_solver +Hy]].
      apply canon_elim in Hy as (ds' & td' & Hds' & Hin' & E' & Hm' & _).
      assert (sk <> key) as Hne by (intros ->; congruence). assert (ds' = ds) as ->.
      { unfold D' in Hds. rewrite lookup_insert_ne in Hds by done. congruence. }
      apply list_elem_of_lookup in Hin' as [j Hj]. assert (j = i) as -> by by eapply (dkey_inj ds j i).
      assert (td' = td) as -> by congruence. rewrite (matches_near K SEL) in Hm' by done. apply andb_true_iff in Hm' as [Hm' _].
      unfold Singleton_ in Hsing. unfold near in Hm', Hnear.
      destruct (String.eqb_spec (rtd_Key td) "") as [Ek|Ek].
      * cbn [negb orb] in Hsing. apply andb_true_iff in Hsing as [S1 S2]. apply bool_decide_eq_true in S1.
        apply Nat.eqb_eq, nil_length_inv in S2. destruct (tok_any _ _ _ Hoktd Ek S2) as [f Hf']. congruence.
      * cbn [negb] in Hm', Hnear. apply String.eqb_eq in Hm', Hnear. apply elem_of_singleton. congruence.
    + cbn beta. intros [] g' [F' I']. split; [by eapply frame_trans|].
      pose proof (W_add_step D key done x) as Hst. rewrite Ex in Hst. cbn [fst snd] in Hst. rewrite E in Hst.
      rewrite <- E in Hst. rewrite <- Ex in Hst. rewrite E in Hst.
      eapply inv_ext; [| |exact I']; intros k' rl; apply Hst; by apply Hsel.
  - apply total_skip. split; [done|].
    eapply inv_ext; [| |exact Hi]; intros k' rl; (apply W_add_skip; rewrite Ex; cbn [fst snd]; rewrite E;
      intros Hc%Hsel; congruence).
Qed.

Lemma inv_alloc D g key : cinv D D g -> K key -> g_nodes g !! key = None ->
  let D' := <[key := []]> D in let g' := galloc (newNode key) g in
  inv D D' D' (canon D) (canon D) (gset_edgeLookup (addNodeKey (g_edgeLookup g) key) g')
  /\ live g' key (g_next g) (newNode key).
Proof.
  intros Hi Hkey Hnone D' g'. destruct Hi as [H1 H2 H3 H4 H5 H6]. pose proof H1 as [Hh1 Hh2].
  assert (D !! key = None) as HD.
  { apply not_elem_of_dom. rewrite H2, dom_gv by done. by apply not_elem_of_dom. }
  assert (live g' key (g_next g) (newNode key)) as Hl by (split; apply lookup_insert_eq).
  split; [|done].
  assert (gv g' = <[key := newNode key]> (gv g)) as Hv.
  { apply map_eq. intros k. unfold gv. rewrite lookup_omap. cbn [g_nodes g_heap g' galloc n_key newNode].
    destruct (decide (k = key)) as [->|Hne]; [by rewrite !lookup_insert_eq; cbn; rewrite lookup_insert_eq|].
    rewrite !lookup_insert_ne, lookup_omap by done. destruct (g_nodes g !! k) as [r|] eqn:Er; [|done]. cbn.
    rewrite lookup_insert_ne; [done|]. intros <-. destruct (Hh1 k _ Er) as (n & Hn & _). apply Hh2 in Hn. lia. }
  destruct (addNodeKey_spec (g_edgeLookup g) key H4) as (A1 & A2 & A3).
  split; cbn [g_edgeLookup gset_edgeLookup].
  - split.
    + intros k r. cbn [g_nodes g_heap g' galloc gset_edgeLookup n_key newNode].
      intros [(<- & <-)|(Hne & Hr)]%lookup_insert_Some; [exists (newNode key); by rewrite lookup_insert_eq|].
      destruct (Hh1 k r Hr) as (n & Hn & Hk). exists n. rewrite lookup_insert_ne; [done|].
      intros <-. apply Hh2 in Hn. lia.
    + intros r n. cbn [g_heap g_next g' galloc gset_edgeLookup].
      intros [(<- & _)|(_ & Hr)]%lookup_insert_Some; [lia|]. apply Hh2 in Hr. lia.
  - change (gv (gset_edgeLookup (addNodeKey (g_edgeLookup g) key) g')) with (gv g'). unfold D'. by rewrite Hv, !dom_insert_L, H2.
  - intros k n. change (gv (gset_edgeLookup (addNodeKey (g_edgeLookup g) key) g')) with (gv g'). rewrite Hv.
    intros [(<- & <-)|(Hne & Hn)]%lookup_insert_Some.
    + split; [done|done|apply lookup_insert_eq| |split; [constructor|constructor]|].
      * exists []. split; [apply lookup_insert_eq|]. split; [constructor|]. by split.
      * intros rel lab k'. split; [intros (t & Ht%elem_of_nil & _); done|].
        intros Hc%canon_dom. apply elem_of_dom in Hc as [? ?]. congruence.
    + destruct (H3 k n Hn) as [N1 N2 N3 (ds & N4 & N5) N6 N7]. unfold D'.
      split; try done; [by rewrite lookup_insert_ne|]. exists ds. by rewrite lookup_insert_ne.
  - done.
  - change (gv (gset_edgeLookup (addNodeKey (g_edgeLookup g) key) g')) with (gv g'). by rewrite A2, Hv, dom_insert_L, H5.
  - by rewrite A3.
Qed.

(** The definitions after [SetNode]. *)
Definition with_node (D : defs) (key : string) : defs := match D !! key with Some _ => D | None => <[key := []]> D end.

Lemma total_SetNode D g key : cinv D D g -> K key ->
  total g (SetNode key) (fun r g' => cinv (with_node D key) (with_node D key) g' /\ (exists n, live g' key r n)
    /\ g_nodes g ⊆ g_nodes g').
Proof.
  intros Hi Hkey. unfold SetNode, add_unsaved. apply total_modify_bind.
  set (g1 := gset_unsaved _ g). assert (cinv D D g1) as I1 by (eapply same_inv; [|exact Hi]; done).
  assert (D !! key = None <-> g_nodes g1 !! key = None) as HD.
  { rewrite <- !not_elem_of_dom, (iv_dom _ _ _ _ _ _ _ _ I1), dom_gv by apply I1. done. }
  unfold node_ref. apply total_gets_bind. unfold with_node.
  destruct (g_nodes g1 !! key) as [r|] eqn:Er.
  - destruct (D !! key) as [ds|] eqn:Ek; [|by pose proof (proj1 HD eq_refl)]. apply total_ret. split; [done|].
    split; [|done]. destruct (proj1 (iv_heap _ _ _ _ _ _ _ _ I1) key r Er) as (n & Hn & _). by exists n.
  - assert (D !! key = None) as Hnone by by apply HD. rewrite Hnone.
    apply total_gets_bind, total_modify_bind, total_modify_bind, total_get_bind.
    destruct (inv_alloc D g1 key I1 Hkey Er) as [I2 L2]. cbv zeta in I2, L2.
    set (g2 := gset_edgeLookup _ _) in I2.
    change (gset_edgeLookup _ _) with g2. set (D' := <[key := []]> D) in *.
    assert (live g2 key (g_next g1) (newNode key)) as L2' by exact L2.
    assert (inv D' D' D' (canon D) (canon D) g2) as I2'.
    { destruct I2 as [H1 H2 H3 H4 H5 H6]. split; try done. intros e. rewrite H6. symmetry.
      rewrite <- (insert_id D' key []) by apply lookup_insert_eq. unfold D' at 1. rewrite insert_insert_eq.
      split; intros (k & ds & td & Hk & Hin & He); exists k, ds, td; split_and!; try done.
      - apply lookup_insert_Some in Hk as [[_ <-]|[_ Hk]]; [by apply elem_of_nil in Hin|done].
      - rewrite lookup_insert_ne; [done|congruence]. }
    set (l := iterSources (g_edgeLookup g2) key).
    eapply (total_bind _ _ _ (fun _ g3 => cinv D' D' g3 /\ (exists n, live g3 key (g_next g1) n) /\ g_nodes g ⊆ g_nodes g3)).
    + eapply total_conseq; [apply (total_forM _ _ (fun done g' => frame g2 g' /\
        inv D' D' D' (W_add D key done) (W_add D key done) g'))|].
      * split; [apply frame_refl, I2|]. eapply inv_ext; [| |exact I2']; intros k rl; by rewrite W_add_nil.
      * intros pre x post g3 El [F3 I3]. destruct (frame_live _ _ _ _ _ F3 L2') as (n3 & L3).
        eapply (total_connect_source D g2 g3 key (g_next g1) n3 x pre); try done.
        destruct F3 as (_ & -> & _). change (x ∈ l). rewrite El. set_solver +.
      * cbn beta. intros [] g3 [F3 I3]. split; [|split; [by eapply frame_live|]].
        2: { destruct F3 as (-> & _). apply insert_subseteq. exact Er. }
        eapply inv_ext; [| |exact I3]; (eapply W_add_all; [exact I3|done|]; intros k rl Hc; unfold l;
          apply canon_elim in Hc as (ds & td & Hds & Hin & E & Hm & _);
          apply (iterSources_defs _ _ _ _ _ _ _ I2' Hkey); exists ds, td; cbn [fst snd]; split_and!; try done;
          [by rewrite E; destruct rl|];
          destruct (cinv_dsorted _ _ _ _ _ _ _ _ I2' Hds) as [_ Hok]; rewrite Forall_forall in Hok;
          rewrite (matches_near K SEL) in Hm by auto; by apply andb_true_iff in Hm as [? _]).
    + intros [] g3 [I3 L3]. by apply total_ret.
Qed.
End graph_nodes.

Section graph_delete.
Context {X : Ext} {MO : MapOrder}.
Context (K : string -> Prop) (SEL : string * string -> bool).
Context (HK : forall k, K k -> k <> "" /\ trimTrailingDirSep k = k).

Abbreviation inv := (inv K SEL).
Abbreviation cinv := (cinv K SEL).

(** ** Disconnecting the sources *)

Lemma total_removeFromTarget De D Df WT WS g k r n ds i td t key rel lab :
  inv De D Df WT WS g -> live g k r n -> D !! k = Some ds -> ds !! i = Some td ->
  GetTargetForLabel (n_targets n) rel lab = (Some t, i) -> n_targets n !! i = Some t -> key <> "" ->
  total g (removeFromTarget r key rel lab) (fun _ g' => frame g g' /\
    inv De D Df (upd2 WT k (dkey td) (WT k (dkey td) ∖ {[key]})) WS g').
Proof.
  intros Hi Hl Hds Htd Hg Ht Hne. unfold removeFromTarget. eapply total_node_at; [exact Hl|]. rewrite Hg.
  eapply total_deref_bind; [reflexivity|].
  destruct (inv_target K SEL _ _ _ _ _ _ _ _ _ _ _ _ Hi Hl Hds Htd) as (Hok & _ & t' & Ht' & Hk & Hwf & Hsing & Hel).
  assert (t' = t) as -> by congruence. destruct (inv_at K SEL _ _ _ _ _ _ _ _ _ Hi Hl) as (Ek & _).
  destruct (ks_Del_any (tg_MatchingKeys t) key Hwf Hne) as (A1 & A2 & _ & A4).
  destruct (ks_Del (tg_MatchingKeys t) key) as [ks updated]. cbn [fst] in A1, A2, A4.
  eapply total_node_upd_bind; [apply Hi|exact Hl|done|]. intros g1 F1 V1 _.
  assert (inv De D Df (upd2 WT k (dkey td) (WT k (dkey td) ∖ {[key]})) WS g1) as I1.
  { rewrite <- (insert_same D k ds i td Hds Htd).
    eapply (inv_set_target K SEL De D Df WT WS g g1 k n ds i td td t); eauto using live_gv.
    split; [done|]. split; [done|]. split; [cbn; by rewrite A4|]. cbn. by rewrite A2, Hel. }
  eapply total_conseq; [by eapply (total_add_unsaved K SEL)|]. intros [] g2 [F2 I2].
  split; [by eapply frame_trans|done].
Qed.

(** The targets while the sources in [done] are disconnected. *)
Definition W_del (D : defs) (key : string) (done : list (string * string * string)) : conn := fun k rl =>
  canon D k rl ∖ (if decide ((k, rl.1, rl.2) ∈ done) then {[key]} else ∅).

Lemma W_del_step D key done x k rl :
  upd2 (W_del D key done) x.1.1 (x.1.2, x.2) (W_del D key done x.1.1 (x.1.2, x.2) ∖ {[key]}) k rl
  = W_del D key (done ++ [x]) k rl.
Proof.
  destruct x as [[sk rel] lab], rl as [rl1 rl2]. cbn [fst snd]. unfold upd2. case_decide as Hd.
  - destruct Hd as [-> [= -> ->]]. unfold W_del. cbn [fst snd].
    rewrite (decide_True (P := _ ∈ done ++ _)) by set_solver +. destruct (decide _); set_solver +.
  - unfold W_del. cbn [fst snd]. f_equal.
    assert ((k, rl1, rl2) ∈ done ++ [(sk, rel, lab)] <-> (k, rl1, rl2) ∈ done) as E.
    { rewrite elem_of_app, list_elem_of_singleton. split; [|tauto]. intros [?|[= -> -> ->]]; [done|]. by destruct Hd. }
    by apply decide_ext; rewrite E.
Qed.

Lemma total_disconnect_sources D g key : cinv D D g -> K key ->
  let l := iterSources (g_edgeLookup g) key in
  total g (forM l (disconnect_source key)) (fun _ g' => frame g g' /\ inv D D D (W_del D key l) (canon D) g').
Proof.
  intros Hi Hkey l. destruct (HK key Hkey) as [Hne _].
  eapply (total_conseq _ _ (fun _ g' => frame g g' /\ inv D D D (W_del D key l) (canon D) g')); [|done].
  apply (total_forM _ _ (fun done g' => frame g g' /\ inv D D D (W_del D key done) (canon D) g')).
  - split; [apply frame_refl, Hi|]. eapply inv_ext; [|done|exact Hi]. intros k rl. unfold W_del.
    rewrite decide_False by apply not_elem_of_nil. set_solver +.
  - intros pre x post g1 El [F1 I1].
    assert (x ∈ iterSources (g_edgeLookup g) key) as Hx by (change (x ∈ l); rewrite El; set_solver +).
    apply (iterSources_defs K SEL HK _ _ _ _ _ _ _ Hi Hkey) in Hx as (ds & td & Hds & Hin & E & Hnear).
    destruct (source_target K SEL _ _ _ _ _ _ _ _ _ _ I1 Hds Hin E) as (sr & sn & i & t & Hls & Hidx & Ht & Hg & Htok).
    pose proof (W_del_step D key pre x) as Hst. rewrite E in Hst.
    unfold disconnect_source. destruct x as [[sk rel] lab] eqn:Ex. rewrite <- Ex in Hst |- *. cbn [fst snd] in *.
    eapply total_node_ref; [exact Hls|]. eapply total_deref_bind; [reflexivity|].
    eapply total_conseq; [by eapply (total_removeFromTarget D D D _ _ g1 sk sr sn ds i td t key rel lab)|].
    cbn beta. intros [] g2 [F2 I2]. split; [by eapply frame_trans|].
    eapply inv_ext; [| |exact I2]; [|done]. intros k rl. rewrite Ex in Hst. cbn [fst snd] in Hst. rewrite Ex. apply Hst.
Qed.

(** ** Dropping the node *)

Lemma canon_drop_node (D : defs) key k rl : D !! key = Some [] ->
  canon (delete key D) k rl = canon D k rl ∖ {[key]}.
Proof.
  intros Hk. apply set_eq. intros x. rewrite elem_of_difference, elem_of_singleton. unfold canon.
  destruct (decide (k = key)) as [->|Hne].
  - rewrite lookup_delete_eq, Hk. cbn. set_solver +.
  - rewrite lookup_delete_ne by done. destruct (head _) as [td|]; [|set_solver +].
    rewrite !elem_of_matchset, dom_delete_L, elem_of_difference, elem_of_singleton. tauto.
Qed.

Lemma inv_drop D l g key : inv D D D (W_del D key l) (canon D) g -> D !! key = Some [] ->
  (forall k rl, key ∈ canon D k rl -> (k, rl.1, rl.2) ∈ l) ->
  cinv (delete key D) (delete key D)
    (gset_nodes (delete key (g_nodes g)) (gset_edgeLookup (delNodeKey (g_edgeLookup g) key) g)).
Proof.
  intros [H1 H2 H3 H4 H5 H6] Hk Hl. pose proof H1 as [Hh1 Hh2]. set (g' := gset_nodes _ _).
  assert (gv g' = delete key (gv g)) as Hv.
  { apply map_eq. intros k. unfold gv. rewrite lookup_omap. cbn [g_nodes g_heap g' gset_nodes gset_edgeLookup].
    destruct (decide (k = key)) as [->|Hne]; [by rewrite !lookup_delete_eq|]. by rewrite !lookup_delete_ne, lookup_omap. }
  assert (forall k rl, W_del D key l k rl = canon (delete key D) k rl) as HW.
  { intros k rl. rewrite canon_drop_node by done. unfold W_del. destruct (decide _) as [|Hd]; [done|].
    assert (key ∉ canon D k rl) as Hc by (intros Hc; by apply Hd, Hl). set_solver +Hc. }
  destruct (delNodeKey_spec (g_edgeLookup g) key H4) as (A1 & A2 & A3).
  split; cbn [g_edgeLookup g' gset_nodes gset_edgeLookup].
  - split; [|exact Hh2]. intros k r. unfold g'. cbn [g_nodes gset_nodes]. intros [_ Hr]%lookup_delete_Some. by apply Hh1.
  - by rewrite Hv, !dom_delete_L, H2.
  - intros k n. rewrite Hv. intros [Hne Hn]%lookup_delete_Some.
    destruct (H3 k n Hn) as [N1 N2 N3 (ds & N4 & N5 & N6 & N7) N8 N9].
    split; try done; [by rewrite lookup_delete_ne| |].
    + exists ds. rewrite lookup_delete_ne by done. split_and!; try done.
      eapply Forall2_impl; [exact N7|]. intros td t. cbn beta. by rewrite HW.
    + intros rel lab k'. rewrite N9, canon_drop_node by done. rewrite elem_of_difference, elem_of_singleton.
      split; [intros ?; split; [done|congruence]|tauto].
  - done.
  - by rewrite A2, Hv, dom_delete_L, H5.
  - intros e. rewrite A3, H6. split; intros (k & ds & td & Hkk & Hin & He); exists k, ds, td; split_and!; try done.
    + rewrite lookup_delete_ne; [done|]. intros ->. rewrite Hk in Hkk. injection Hkk as <-. by apply elem_of_nil in Hin.
    + by apply lookup_delete_Some in Hkk as [_ ?].
Qed.

Lemma total_DeleteNode D g (wInPlace : bool) key : cinv D D g ->
  total g (DeleteNode wInPlace key) (fun _ g' => cinv (delete key D) (delete key D) g'
    /\ g_nodes g' = delete key (g_nodes g)).
Proof.
  intros Hi. unfold DeleteNode, node_ref. apply total_gets_bind.
  destruct (g_nodes g !! key) as [r|] eqn:Er.
  2: { apply total_ret. rewrite !delete_id; [done|done|]. apply not_elem_of_dom.
       rewrite (iv_dom _ _ _ _ _ _ _ _ Hi), dom_gv by apply Hi. by apply not_elem_of_dom. }
  destruct (proj1 (iv_heap _ _ _ _ _ _ _ _ Hi) key r Er) as (n & Hn & Hkn).
  assert (live g key r n) as Hl by by split.
  assert (K key) as Hkey by by destruct (inv_at K SEL _ _ _ _ _ _ _ _ _ Hi Hl) as (_ & ? & _).
  set (D1 := <[key := []]> D).
  eapply (total_bind _ _ _ (fun _ g1 => nframe g g1 /\ cinv D1 D1 g1)).
  { eapply (total_SetTargets K SEL HK D g key r n []); [done|done|split; constructor|]. intros g1 F1 I1. by split. }
  intros [] g1 [F1 I1]. destruct (nframe_live _ _ _ _ _ F1 Hl) as (n1 & L1). apply total_get_bind.
  eapply total_bind; [by apply (total_disconnect_sources D1 g1 key I1 Hkey)|]. cbn beta. intros [] g2 [F2 I2].
  destruct (frame_live _ _ _ _ _ F2 L1) as (n2 & L2).
  apply total_modify_bind, total_modify_bind. set (g3 := gset_nodes _ _).
  assert (cinv (delete key D) (delete key D) g3) as I3.
  { replace (delete key D) with (delete key D1) by (unfold D1; apply delete_insert_eq).
    eapply (inv_drop D1 _ g2 key I2); [apply lookup_insert_eq|]. intros k rl Hc.
    apply canon_elim in Hc as (ds & td & Hds & Hin & E & Hm & _).
    apply (iterSources_defs K SEL HK _ _ _ _ _ _ _ I1 Hkey). exists ds, td. cbn [fst snd]. split_and!; try done.
    - rewrite E. by destruct rl.
    - destruct (cinv_dsorted K SEL _ _ _ _ _ _ _ _ I1 Hds) as [_ Hok]. rewrite Forall_forall in Hok.
      rewrite (matches_near K SEL) in Hm by auto. by apply andb_true_iff in Hm as [? _]. }
  unfold node_at at 1. apply total_bind_assoc, total_get_bind.
  eapply total_deref_bind; [exact (proj2 L2)|]. apply total_get_bind.
  eapply (total_bind _ _ _ (fun _ g4 => cinv (delete key D) (delete key D) g4 /\ g_nodes g4 = g_nodes g3)).
  { apply total_whenM; intros _; [|done]. destruct (g_mappings g3 !! n_metadataMap n2) as [mp|]; [|by apply total_skip].
    apply total_modify. split; [|done]. eapply same_inv; [|exact I3]. done. }
  intros [] g4 [I4 E4]. unfold add_unsaved. apply total_modify_bind, total_ret.
  split; [eapply same_inv; [|exact I4]; done|]. cbn [g_nodes gset_unsaved]. rewrite E4. unfold g3. cbn [g_nodes gset_nodes gset_edgeLookup].
  destruct F2 as (E2 & _), F1 as (E1 & _). by rewrite E2, E1.
Qed.
End graph_delete.
