(* ===== verification/GraphConsistent.v ===== *)
(** * The graph is consistent

    Whatever sequence of operations runs on a graph, targets and sources
    correspond with each other and with the definitions of the targets. *)
From S2P Require Import Prelude KeySet Monad Api Flags EdgeLookup LazyArray EdgeLookupFacts Graph GraphRW.
From S2P Require Import TargetFacts GraphInv GraphTargets GraphOps GraphNodes Demo.

Section consistent.
Context {X : Ext} {MO : MapOrder}.

(** ** Operations on a graph

    The operations of a write handle; those on a node are skipped when the graph
    has no such node, as by the callers. *)
Inductive data_op :=
| OpSetLabel (label : string)
| OpSetValue (value : option Value)
| OpSetFlags (flags : list Flag)
| OpDelFlags (idxs : list nat)
| OpSetMetadataMap (mapName : string)
| OpSetMetadata (metadata : option Metadata).

Inductive graph_op :=
| OpSetNode (key : string)
| OpDeleteNode (wInPlace : bool) (key : string)
| OpSetTargets (key : string) (targetsDef : list RelationTargetDef)
| OpSetData (key : string) (op : data_op).

Definition run_data (r : nat) (op : data_op) : G unit :=
  match op with
  | OpSetLabel label => SetLabel r label
  | OpSetValue value => SetValue r value
  | OpSetFlags flags => SetFlags r flags
  | OpDelFlags idxs => DelFlags r idxs
  | OpSetMetadataMap mapName => SetMetadataMap r mapName
  | OpSetMetadata metadata => SetMetadata r metadata
  end.

Definition on_node (key : string) (f : nat -> G unit) : G unit :=
  ref ← node_ref key; match ref with Some r => f r | None => skip end.

Definition run_op (op : graph_op) : G unit :=
  match op with
  | OpSetNode key => SetNode key ;; skip
  | OpDeleteNode wInPlace key => DeleteNode wInPlace key ;; skip
  | OpSetTargets key tds => on_node key (fun r => SetTargets r tds)
  | OpSetData key op => on_node key (fun r => run_data r op)
  end.

(** The specification: a map from the keys to the definitions. *)
Definition spec_op (D : defs) (op : graph_op) : defs :=
  match op with
  | OpSetNode key => with_node D key
  | OpDeleteNode _ key => delete key D
  | OpSetTargets key tds => match D !! key with Some _ => <[key := sort_defs tds]> D | None => D end
  | OpSetData _ _ => D
  end.

(** What the map says about the graph. *)
Record represents (D : defs) (g : graphR) : Prop := {
  rp_nodes : forall k, is_Some (lookup_node g k) <-> k ∈ dom D;
  rp_defs : forall k n, lookup_node g k = Some n -> D !! k = Some (n_targetsDef n);
  rp_targets : forall k n relation label k', lookup_node g k = Some n ->
    src_has (n_targets n) relation label k' <->
    exists td, td ∈ n_targetsDef n /\ dkey td = (relation, label) /\ matches td k' = true /\ k' ∈ dom D;
  rp_sources : forall k n relation label k', lookup_node g k = Some n ->
    src_has (n_sources n) relation label k' <->
    exists n', lookup_node g k' = Some n' /\ src_has (n_targets n') relation label k;
  rp_valid : ValidateEdges g = None
}.

Context (K : string -> Prop) (SEL : string * string -> bool).

(** Admissible operations: keys of nodes, and definitions for one relation and
    label each. *)
Definition op_ok (op : graph_op) : Prop :=
  match op with
  | OpSetNode key => K key
  | OpSetTargets _ tds => tds_ok K SEL tds
  | _ => True
  end.

Abbreviation cinv := (cinv K SEL).

(** ** The invariant says that the graph is consistent *)

Lemma lookup_node_gv g k : lookup_node g k = gv g !! k.
Proof. unfold lookup_node, gv. by rewrite lookup_omap. Qed.

Lemma foldr_none {A B} (f : A -> option B -> option B) (l : list A) :
  (forall a, a ∈ l -> f a None = None) -> foldr f None l = None.
Proof.
  induction l as [|a l IH]; intros H; [done|]. cbn [foldr]. rewrite IH by (intros b Hb; apply H; set_solver +Hb).
  apply H. set_solver +.
Qed.

Section represent.
Context (D : defs) (g : graphR) (Hi : cinv D D g).

Lemma node_targets k n relation label k' : gv g !! k = Some n ->
  src_has (n_targets n) relation label k' <-> k' ∈ canon D k (relation, label).
Proof.
  intros [r Hl]%gv_live. destruct (inv_at K SEL _ _ _ _ _ _ _ _ _ Hi Hl) as (_ & _ & _ & ds & Hds & Hs & _ & Hf).
  split.
  - intros (t & Ht & <- & Hin). apply list_elem_of_lookup in Ht as [i Ht].
    destruct (Forall2_lookup_r _ _ _ _ _ Hf Ht) as (td & Htd & E & _ & _ & Hel). rewrite E, <- Hel. done.
  - intros Hc. destruct (canon_elim _ _ _ _ Hc) as (ds' & td & Hds' & Hin & E & _). assert (ds' = ds) as -> by congruence.
    apply list_elem_of_lookup in Hin as [i Hin]. destruct (Forall2_lookup_l _ _ _ _ _ Hf Hin) as (t & Ht & Ek & _ & _ & Hel).
    exists t. split; [by eapply list_elem_of_lookup_2|]. split; [congruence|]. by rewrite Hel, E.
Qed.

Lemma node_sources k n relation label k' : gv g !! k = Some n ->
  src_has (n_sources n) relation label k' <-> k ∈ canon D k' (relation, label).
Proof. intros Hn. apply (ni_src K SEL D D _ _ _ _ (iv_node K SEL _ _ _ _ _ _ Hi k n Hn)). Qed.

Lemma canon_keys k rl x : x ∈ canon D k rl -> k ∈ dom (gv g) /\ x ∈ dom (gv g).
Proof.
  intros (ds & td & Hds & _ & _ & _ & Hx)%canon_elim. rewrite <- (iv_dom _ _ _ _ _ _ _ _ Hi).
  split; [by eapply elem_of_dom_2|done].
Qed.

(** One direction of [ValidateEdges]; [own] and [other] are targets and sources. *)
Lemma validate_side_none own other broken missing k n :
  tsorted (own n) -> Forall (fun t => ks_wf (tg_MatchingKeys t)) (own n) -> k <> "" ->
  (forall relation label k', src_has (own n) relation label k' ->
     exists n', gv g !! k' = Some n' /\ tsorted (other n') /\ Forall (fun t => ks_wf (tg_MatchingKeys t)) (other n')
       /\ src_has (other n') relation label k) ->
  validate_side g own other broken missing k n = None.
Proof.
  intros Hs Hw Hne Hother. apply foldr_none. intros t Ht. apply foldr_none. intros k' Hk'.
  assert (ks_wf (tg_MatchingKeys t)) as Hwt by (rewrite Forall_forall in Hw; auto).
  rewrite (elem_of_ks_Iterate _ _ Hwt) in Hk'.
  destruct (Hother (tg_Relation t) (tg_Label t) k') as (n' & Hn' & Hs' & Hw' & (t' & Ht' & E & Hin)); [by exists t|].
  rewrite lookup_node_gv, Hn'. apply list_elem_of_lookup in Ht' as [i Ht'].
  pose proof (GetTarget_found (other n') i t' Hs' Ht') as Hg. injection E as E1 E2. rewrite E1, E2 in Hg.
  rewrite Hg. cbn [fst].
  pose proof (ksi_has_spec (S:=KeySet) _ k (Forall_lookup_1 _ _ _ _ Hw' Ht') Hne) as Hh. cbn in Hh.
  by rewrite Hh, bool_decide_eq_true_2.
Qed.

Lemma targets_wf k n : gv g !! k = Some n ->
  tsorted (n_targets n) /\ Forall (fun t => ks_wf (tg_MatchingKeys t)) (n_targets n).
Proof.
  intros [r Hl]%gv_live. split; [by eapply (targets_sorted K SEL)|].
  destruct (inv_at K SEL _ _ _ _ _ _ _ _ _ Hi Hl) as (_ & _ & _ & ds & _ & _ & _ & Hf).
  clear Hl. induction Hf as [|td t ds' ts (_ & Hw & _) _ IH]; by constructor.
Qed.

Lemma sources_wf k n : gv g !! k = Some n ->
  tsorted (n_sources n) /\ Forall (fun t => ks_wf (tg_MatchingKeys t)) (n_sources n).
Proof.
  intros Hn. destruct (ni_srcok K SEL D D _ _ _ _ (iv_node K SEL _ _ _ _ _ _ Hi k n Hn)) as [Hs Hf].
  split; [done|]. eapply Forall_impl; [exact Hf|]. by intros t [Hw _].
Qed.

Lemma cinv_valid (HK : forall k, K k -> k <> "" /\ trimTrailingDirSep k = k) : ValidateEdges g = None.
Proof.
  apply foldr_none. intros k _. rewrite lookup_node_gv. destruct (gv g !! k) as [n|] eqn:Hn; [|done].
  destruct (HK k (ni_K K SEL D D _ _ _ _ (iv_node K SEL _ _ _ _ _ _ Hi k n Hn))) as [Hne _].
  destruct (targets_wf k n Hn) as [T1 T2]. destruct (sources_wf k n Hn) as [S1 S2].
  rewrite (validate_side_none n_targets n_sources); try done.
  2: { intros relation label k' Hc%(node_targets _ _ _ _ _ Hn). destruct (canon_keys _ _ _ Hc) as [_ [n' Hn']%elem_of_dom].
       exists n'. destruct (sources_wf k' n' Hn'). split_and!; try done. by apply (node_sources _ _ _ _ _ Hn'). }
  rewrite (validate_side_none n_sources n_targets); try done.
  intros relation label k' Hc%(node_sources _ _ _ _ _ Hn). destruct (canon_keys _ _ _ Hc) as [[n' Hn']%elem_of_dom _].
  exists n'. destruct (targets_wf k' n' Hn'). split_and!; try done. by apply (node_targets _ _ _ _ _ Hn').
Qed.

Lemma cinv_represents (HK : forall k, K k -> k <> "" /\ trimTrailingDirSep k = k) : represents D g.
Proof.
  assert (forall k n, gv g !! k = Some n -> D !! k = Some (n_targetsDef n)) as Hdef
    by (intros k n Hn; apply (ni_def K SEL D D _ _ _ _ (iv_node K SEL _ _ _ _ _ _ Hi k n Hn))).
  split; [..|by apply cinv_valid]; intros k; rewrite ?lookup_node_gv.
  - by rewrite (iv_dom _ _ _ _ _ _ _ _ Hi), elem_of_dom.
  - apply Hdef.
  - intros n relation label k' Hn.
    rewrite (node_targets _ _ _ _ _ Hn), (canon_spec K SEL _ _ _ _ _ _ _ _ _ Hi), (Hdef k n Hn).
    split; [intros (ds & td & [= <-] & ?); by exists td|intros (td & ?); by exists (n_targetsDef n), td].
  - intros n relation label k' Hn. rewrite (node_sources _ _ _ _ _ Hn).
    setoid_rewrite lookup_node_gv. split.
    + intros Hc. destruct (canon_keys _ _ _ Hc) as [[n' Hn']%elem_of_dom _]. exists n'. split; [done|].
      by apply (node_targets _ _ _ _ _ Hn').
    + intros (n' & Hn' & Hs). by apply (node_targets _ _ _ _ _ Hn') in Hs.
Qed.
End represent.

(** ** The operations on the data of a node *)

Context (HK : forall k, K k -> k <> "" /\ trimTrailingDirSep k = k).

(** [n'] is [n] but for the data. *)
Definition same_links (n n' : node) : Prop :=
  n_key n' = n_key n /\ n_targets n' = n_targets n /\ n_targetsDef n' = n_targetsDef n /\ n_sources n' = n_sources n.

Lemma inv_data D g g' k n n' : cinv D D g -> gv g !! k = Some n -> frame g g' -> gv g' = <[k := n']> (gv g) ->
  same_links n n' -> cinv D D g'.
Proof.
  intros Hi Hn Hf Hv (E1 & E2 & E3 & E4).
  eapply (inv_upd K SEL HK); [exact Hi|exact Hn|exact Hf|exact Hv| |done].
  destruct (iv_node K SEL _ _ _ _ _ _ Hi k n Hn) as [N1 N2 N3 N4 N5 N6].
  split; [by rewrite E1|done|by rewrite E3|by rewrite E2|by rewrite E4|by rewrite E4].
Qed.

Definition data_step (D : defs) (k : string) (r : nat) (m : G unit) : Prop :=
  forall g n, cinv D D g -> live g k r n -> total g m (fun _ g' => cinv D D g' /\ exists n', live g' k r n').

Lemma data_upd D k r f : (forall n, same_links n (f n)) -> data_step D k r (node_upd r f).
Proof.
  intros Hf g n Hi Hl. destruct (Hf n) as (E1 & _). destruct (inv_at K SEL _ _ _ _ _ _ _ _ _ Hi Hl) as (Ek & _).
  eapply total_node_upd; [apply Hi|exact Hl|congruence|]. intros g' F V _ L. split; [|by eexists].
  eapply inv_data; eauto using live_gv.
Qed.

Lemma data_seq D k r m1 m2 : data_step D k r m1 -> data_step D k r m2 -> data_step D k r (m1 ;; m2).
Proof. intros H1 H2 g n Hi Hl. eapply total_bind; [by eapply H1|]. cbn beta. intros [] g' [I' [n' L']]. by eapply H2. Qed.

Lemma data_same D k r (f : graphR -> graphR) : (forall g, same_graph g (f g)) -> data_step D k r (modify f).
Proof.
  intros Hf g n Hi Hl. apply total_modify. split; [by eapply same_inv|]. exists n. destruct Hl as [L1 L2].
  destruct (Hf g) as (E1 & E2 & _). split; [by rewrite E1|by rewrite E2].
Qed.

Lemma data_node D k r f : (forall n, data_step D k r (f n)) -> data_step D k r (node_at r ≫= f).
Proof. intros H g n Hi Hl. eapply total_node_at; [exact Hl|]. by eapply H. Qed.

Lemma data_get D k r f : (forall g, data_step D k r (f g)) -> data_step D k r (get ≫= f).
Proof. intros H g n Hi Hl. apply total_get_bind. by eapply H. Qed.

Lemma data_skip D k r : data_step D k r skip.
Proof. intros g n Hi Hl. apply total_skip. split; [done|by eexists]. Qed.

Lemma data_whenM D k r (b : bool) m : data_step D k r m -> data_step D k r (whenM b m).
Proof. destruct b; [done|]. intros _. apply data_skip. Qed.

Lemma data_syncMetadata D k r : data_step D k r (syncMetadata r).
Proof.
  unfold syncMetadata. apply data_node. intros n. apply data_get. intros g.
  destruct (n_metaInSync n); [apply data_skip|].
  destruct (g_mappings g !! n_metadataMap n); [|by apply data_upd].
  destruct (n_metadataAdded n), (n_metadata n); try by apply data_upd.
  all: apply data_seq; [|by apply data_upd]; try apply data_whenM; by apply data_same.
Qed.

Lemma data_run D k r op : data_step D k r (run_data r op).
Proof.
  destruct op as [l|v|fs|ids|name|md]; cbn [run_data]; try by apply data_upd.
  - unfold SetMetadataMap. apply data_node. intros n. destruct (String.eqb _ _); [|apply data_skip].
    apply data_seq; [by apply data_upd|]. apply data_get. intros g. apply data_whenM, data_syncMetadata.
  - apply data_seq; [by apply data_upd|]. apply data_get. intros g. apply data_whenM, data_syncMetadata.
Qed.

(** ** Sequences of operations *)

Lemma total_on_node D g key f (Q : unit -> graphR -> Prop) : cinv D D g ->
  (D !! key = None -> Q tt g) -> (forall r n, live g key r n -> is_Some (D !! key) -> total g (f r) Q) -> total g (on_node key f) Q.
Proof.
  intros Hi Hn Hs. unfold on_node, node_ref. apply total_gets_bind.
  pose proof (iv_dom K SEL _ _ _ _ _ _ Hi) as Hd. rewrite dom_gv in Hd by apply Hi.
  destruct (g_nodes g !! key) as [r|] eqn:Er.
  - destruct (proj1 (iv_heap K SEL _ _ _ _ _ _ Hi) key r Er) as (n & Hnd & _). apply (Hs r n); [done|].
    apply elem_of_dom. rewrite Hd. by eapply elem_of_dom_2.
  - apply total_skip, Hn, not_elem_of_dom. rewrite Hd. by apply not_elem_of_dom.
Qed.

Lemma total_run_op D g op : cinv D D g -> op_ok op ->
  total g (run_op op) (fun _ g' => cinv (spec_op D op) (spec_op D op) g').
Proof.
  intros Hi Hok. destruct op as [key|wInPlace key|key tds|key op]; cbn [run_op spec_op].
  - eapply total_bind; [by apply (total_SetNode K SEL HK D g key Hi)|]. intros r g' [I' _]. by apply total_skip.
  - eapply total_bind; [by apply (total_DeleteNode K SEL HK D g wInPlace key Hi)|]. intros b g' [I' _]. by apply total_skip.
  - apply (total_on_node D); [done|by intros ->|]. intros r n Hl [ds Hds]. rewrite Hds.
    by apply (total_SetTargets K SEL HK D g key r n tds).
  - apply (total_on_node D); [done|done|]. intros r n Hl _.
    eapply total_conseq; [by eapply (data_run D key r op)|]. by intros [] g' [I' _].
Qed.

Lemma cinv_empty : cinv ∅ ∅ newGraphR.
Proof.
  split; try done.
  - apply newEdgeLookup_ok.
  - intros e. cbn. rewrite elem_of_empty. split; [done|].
    intros (k & ds & td & Hk & _). by rewrite lookup_empty in Hk.
Qed.

(** C2: every sequence of admissible operations on a new graph returns - no nil is
    dereferenced, no index out of range and [SetTargets] never panics -, and the
    graph then represents the map that the specification computes: it has the
    keys of the map as nodes with the definitions of the map as target
    definitions, the targets of a node are exactly the nodes that a definition
    selects, the sources are the converse of the targets, and [ValidateEdges]
    finds nothing.

    Admissible ([op_ok]) are: keys of nodes (the set [K]) that are not empty and
    neither start nor end with the separator; definitions with a distinct pair of
    relation and label for each definition of a node, each with such a key and no
    selector, or with prefixes or a selector; prefixes that are a directory, which
    is not itself the key of a node, followed by the separator; and which pairs of
    relation and label come with a key selector is fixed for the whole sequence
    (the function [SEL]).  The conditions are needed: without the last one
    a definition that loses its selector counts as unchanged and the graph misses
    targets ([selector_dropped]), and a prefix without the separator leaves targets
    that do not exist any more ([prefix_dangles]). *)
Theorem graph_represents (ops : list graph_op) : Forall op_ok ops ->
  total newGraphR (forM ops run_op) (fun _ g => represents (fold_left spec_op ops ∅) g).
Proof.
  intros Hok. eapply total_conseq; [apply (total_forM _ _ (fun pre g =>
    cinv (fold_left spec_op pre ∅) (fold_left spec_op pre ∅) g))|].
  - apply cinv_empty.
  - intros pre op post g -> Hi. rewrite fold_left_app. apply total_run_op; [done|].
    apply Forall_app in Hok as [_ Hok]. by inversion Hok.
  - intros [] g Hi. by apply cinv_represents.
Qed.
End consistent.

(** *** An example: a bridge domain that wants an interface by key and all
    selected interfaces under a prefix. *)

Definition demo_keys : list string := ["if/a"; "if/b"; "if/loop"; "bd/1"].
Definition demo_K (k : string) : Prop := k ∈ demo_keys.
Definition demo_SEL (rl : string * string) : bool := String.eqb rl.2 "physical".
Definition demo_defs : list RelationTargetDef :=
  [MkTargetDef "depends-on" "physical" ""
     (MkTargetSelector ["if/"] (Some (fun k => negb (String.eqb k "if/loop"))));
   MkTargetDef "depends-on" "loop" "if/loop" (MkTargetSelector [] None)].
Definition demo_ops : list graph_op :=
  [OpSetNode "if/a"; OpSetNode "bd/1"; OpSetTargets "bd/1" demo_defs; OpSetNode "if/loop";
   OpSetNode "if/b"; OpSetData "if/b" (OpSetLabel "b"); OpDeleteNode true "if/a"].

Lemma demo_K_dec k : bool_decide (k ∈ demo_keys) = true <-> demo_K k.
Proof. apply bool_decide_eq_true. Qed.

Lemma demo_K_ok k : demo_K k -> k <> "" /\ trimTrailingDirSep k = k.
Proof.
  unfold demo_K, demo_keys. rewrite !elem_of_cons.
  intros [-> | [-> | [-> | [-> | []%elem_of_nil]]]]; by vm_compute.
Qed.

Lemma demo_defs_ok : tds_ok demo_K demo_SEL demo_defs.
Proof.
  split; [by apply (bool_decide_unpack _)|]. constructor; [|constructor; [|constructor]]; split; try done.
  apply Forall_singleton. exists "if". split_and!; try done. by rewrite <- demo_K_dec.
Qed.

Lemma graph_represents_witness :
  total newGraphR (forM demo_ops run_op) (fun _ g => represents (fold_left spec_op demo_ops ∅) g).
Proof.
  apply (graph_represents demo_K demo_SEL demo_K_ok). unfold demo_ops. rewrite !Forall_cons. cbn [op_ok].
  rewrite <- !demo_K_dec. split_and!; try done. exact demo_defs_ok.
Defined.

(** What the graph of the example looks like in the end. *)
Example graph_example : match forM demo_ops run_op newGraphR with
  | Ok (_, g) => match lookup_node g "bd/1" with
      | Some n => map (fun t => (tg_Label t, ks_Iterate (tg_MatchingKeys t))) (n_targets n)
      | None => [] end
  | _ => [] end = [("loop", ["if/loop"]); ("physical", ["if/b"])].
Proof. by vm_compute. Qed.

(** *** Outside the admissible operations *)

Definition matching_after (ops : list graph_op) (key : string) : option (list (list string)) :=
  match forM ops run_op newGraphR with
  | Ok (_, g) => (fun n => map (fun t => ks_Iterate (tg_MatchingKeys t)) (n_targets n)) <$> lookup_node g key
  | _ => None
  end.

(** A definition that differs from the previous one only in that it has no key
    selector any more counts as the same one: the nodes that the selector refused
    stay disconnected. *)
Example selector_dropped :
  let td sel := MkTargetDef "depends-on" "any" "" (MkTargetSelector ["if/"] sel) in
  let before := [OpSetNode "if/a"; OpSetNode "bd/1"; OpSetTargets "bd/1" [td (Some (fun _ => false))]] in
  matching_after (before ++ [OpSetTargets "bd/1" [td None]]) "bd/1" = Some [[]]
  /\ matching_after [OpSetNode "if/a"; OpSetNode "bd/1"; OpSetTargets "bd/1" [td None]] "bd/1" = Some [["if/a"]].
Proof. split; by vm_compute. Qed.

(** A prefix that does not end with the separator: the node is found when the
    targets are set, but it is still a target after its removal. *)
Example prefix_dangles :
  let td := MkTargetDef "depends-on" "any" "" (MkTargetSelector ["if/a"] None) in
  matching_after [OpSetNode "if/ab"; OpSetNode "bd/1"; OpSetTargets "bd/1" [td]; OpDeleteNode true "if/ab"] "bd/1"
    = Some [["if/ab"]].
Proof. by vm_compute. Qed.
