(* ===== verification/GraphSpec.v ===== *)
(** * The graph as the execution of transactions uses it

    The execution holds on to nodes while it works on others.  [pinned] says
    which nodes are in the graph, which of them have a last update or a value,
    and which nodes are at least on the heap; here is what every operation that
    the execution calls does to it.  All of them return from a consistent graph
    and leave it consistent. *)
From S2P Require Import Prelude KeySet Monad Api Flags EdgeLookup LazyArray EdgeLookupFacts Graph GraphRW.
From S2P Require Import NodeUtils TargetFacts GraphInv GraphTargets GraphOps GraphNodes GraphConsistent.
From S2P Require Import GraphSafe Termination.

Section graph_spec.
Context {X : Ext} {MO : MapOrder}.

(** ** The cores of the nodes on the heap stay *)

Definition samecore : relation graphR := fun g g' =>
  g_next g <= g_next g' /\
  forall r n, r < g_next g -> g_heap g !! r = Some n -> exists n', g_heap g' !! r = Some n' /\ core n' = core n.

#[local] Instance samecore_preorder : PreOrder samecore.
Proof.
  split; [by intros g; split; [|intros r n _ Hn; exists n]|].
  intros g1 g2 g3 [L1 H1] [L2 H2]. split; [lia|]. intros r n Hr Hn.
  destruct (H1 r n Hr Hn) as (n2 & Hn2 & E2). destruct (H2 r n2 ltac:(lia) Hn2) as (n3 & Hn3 & E3).
  exists n3. by rewrite E3.
Qed.

(** The nodes of the graph stay as well. *)
Definition keeps : relation graphR := fun g g' => samecore g g' /\ g_nodes g' = g_nodes g.

#[local] Instance keeps_preorder : PreOrder keeps.
Proof. split; [by intros g; split|]. intros g1 g2 g3 [A1 B1] [A2 B2]. split; [by etransitivity|congruence]. Qed.

Lemma samecore_heap g g' : g_heap g' = g_heap g -> g_next g' = g_next g -> samecore g g'.
Proof. intros E1 E2. split; [by rewrite E2|]. intros r n _ Hn. exists n. by rewrite E1. Qed.

Lemma keeps_modify f : (forall g, g_heap (f g) = g_heap g /\ g_next (f g) = g_next g /\ g_nodes (f g) = g_nodes g) ->
  preserves keeps (modify f).
Proof. intros Hf. apply preserves_modify. intros g. destruct (Hf g) as (? & ? & ?). split; [by apply samecore_heap|done]. Qed.

Lemma keeps_node_at r : preserves keeps (node_at r).
Proof. unfold node_at. preserves_auto. Qed.
Lemma keeps_node_ref key : preserves keeps (node_ref key).
Proof. unfold node_ref. preserves_auto. Qed.
Lemma keeps_the_node o : preserves keeps (the_node o).
Proof. unfold the_node. preserves_auto. Qed.
Lemma keeps_add_unsaved key : preserves keeps (add_unsaved key).
Proof. by apply keeps_modify. Qed.

Lemma keeps_node_upd r f : (forall n, core (f n) = core n) -> preserves keeps (node_upd r f).
Proof.
  intros Hf g [] g'. unfold node_upd, node_at, mbind, M_bind, get, deref, lift, modify.
  destruct (g_heap g !! r) as [n|] eqn:Hn; cbn; [|done]. intros [= <-]. split; [|done]. split; [done|].
  intros r' n' _ Hn'. cbn [g_heap gset_heap]. destruct (decide (r' = r)) as [->|Hne].
  - exists (f n). rewrite lookup_insert_eq. split; [done|]. rewrite Hf. by assert (n' = n) as -> by congruence.
  - exists n'. by rewrite lookup_insert_ne.
Qed.

#[local] Hint Resolve keeps_node_at keeps_node_ref keeps_the_node keeps_add_unsaved : monad.
#[local] Hint Extern 1 (preserves keeps (node_upd _ _)) => apply keeps_node_upd; done : monad.
#[local] Hint Extern 1 (preserves keeps (modify _)) => apply keeps_modify; done : monad.
#[local] Ltac keeps_auto :=
  repeat first [ progress (apply keeps_modify; [done]) | progress (apply keeps_node_upd; [done]) | preserves_step ].

Lemma keeps_syncMetadata r : preserves keeps (syncMetadata r).
Proof. unfold syncMetadata. keeps_auto. Qed.
#[local] Hint Resolve keeps_syncMetadata : monad.

Lemma keeps_SetMetadataMap r s : preserves keeps (SetMetadataMap r s).
Proof. unfold SetMetadataMap. keeps_auto. Qed.
Lemma keeps_SetMetadata r md : preserves keeps (SetMetadata r md).
Proof. unfold SetMetadata. keeps_auto. Qed.
Lemma keeps_SetLabel r l : preserves keeps (SetLabel r l).
Proof. by apply keeps_node_upd. Qed.
Lemma keeps_SetFlag r f : flag_GetIndex f <> LastUpdateFlagIndex -> preserves keeps (SetFlags r [f]).
Proof. intros Hf. apply keeps_node_upd. intros n. unfold core. cbn. by rewrite lookup_insert_ne. Qed.
Lemma keeps_DelFlags r idxs : LastUpdateFlagIndex ∉ idxs -> preserves keeps (DelFlags r idxs).
Proof. intros Hf. apply keeps_node_upd. intros n. unfold core. cbn. by rewrite del_flags_lookup. Qed.

Lemma keeps_addToSources r k rel lab : preserves keeps (addToSources r k rel lab).
Proof. unfold addToSources. keeps_auto. Qed.
#[local] Hint Resolve keeps_addToSources : monad.
Lemma keeps_addToTargets r r2 i : preserves keeps (addToTargets r r2 i).
Proof. unfold addToTargets. keeps_auto. Qed.
#[local] Hint Resolve keeps_addToTargets : monad.
Lemma keeps_removeFromTarget r k rel lab : preserves keeps (removeFromTarget r k rel lab).
Proof. unfold removeFromTarget. keeps_auto. Qed.
Lemma keeps_removeFromSources r rel lab k : preserves keeps (removeFromSources r rel lab k).
Proof. unfold removeFromSources. keeps_auto. Qed.
#[local] Hint Resolve keeps_removeFromTarget keeps_removeFromSources : monad.
Lemma keeps_addDelEdges r td b : preserves keeps (addDelEdges r td b).
Proof. unfold addDelEdges. keeps_auto. Qed.
Lemma keeps_connect_targets r i td : preserves keeps (connect_targets r i td).
Proof. unfold connect_targets. keeps_auto. Qed.
Lemma keeps_upd_target r i f : preserves keeps (upd_target r i f).
Proof. unfold upd_target. keeps_auto. Qed.
Lemma keeps_disconnect_targets r i : preserves keeps (disconnect_targets r i).
Proof. unfold disconnect_targets. keeps_auto. Qed.
#[local] Hint Resolve keeps_addDelEdges keeps_connect_targets keeps_upd_target keeps_disconnect_targets : monad.

Lemma keeps_set_targets_loop r fuel : forall i tds old, preserves keeps (set_targets_loop fuel r i tds old).
Proof.
  induction fuel as [|fuel IH]; intros i tds old; cbn [set_targets_loop]; [apply preserves_no_fuel|].
  unfold st_equal, st_update, st_new, st_obsolete. keeps_auto; apply IH.
Qed.
#[local] Hint Resolve keeps_set_targets_loop : monad.

Lemma keeps_SetTargets r tds : preserves keeps (SetTargets r tds).
Proof. unfold SetTargets. keeps_auto. Qed.
#[local] Hint Resolve keeps_SetTargets : monad.

Lemma preserves_keeps_samecore {A} (m : G A) : preserves keeps m -> preserves samecore m.
Proof. apply preserves_impl. by intros g g' [? _]. Qed.

Lemma samecore_SetNode key : preserves samecore (SetNode key).
Proof.
  assert (preserves samecore (modify (galloc (newNode key)))) as Halloc.
  { apply preserves_modify. intros g. split; [cbn; lia|]. intros r n Hr Hn. exists n.
    cbn [g_heap galloc]. rewrite lookup_insert_ne; [done|lia]. }
  unfold SetNode. apply preserves_bind; [apply _|apply preserves_keeps_samecore, keeps_add_unsaved|]. intros _.
  apply preserves_bind; [apply _|apply preserves_keeps_samecore, keeps_node_ref|]. intros [r|]; [preserves_auto|].
  apply preserves_bind; [apply _|preserves_auto|]. intros r. apply preserves_bind; [apply _|done|]. intros _.
  apply preserves_keeps_samecore. unfold connect_source. keeps_auto.
Qed.

Lemma samecore_DeleteNode b key : preserves samecore (DeleteNode b key).
Proof.
  assert (preserves samecore (modify (fun g => gset_nodes (delete key (g_nodes g)) g))) as Hdel
    by (apply preserves_modify; intros g; by apply samecore_heap).
  unfold DeleteNode. apply preserves_bind; [apply _|apply preserves_keeps_samecore, keeps_node_ref|].
  intros [r|]; [|preserves_auto]. apply preserves_bind; [apply _|apply preserves_keeps_samecore, keeps_SetTargets|]. intros _.
  apply preserves_bind; [apply _|preserves_auto|]. intros g0.
  apply preserves_bind; [apply _|apply preserves_keeps_samecore; unfold disconnect_source; keeps_auto|]. intros _.
  apply preserves_bind; [apply _|by apply preserves_keeps_samecore, keeps_modify|]. intros _.
  apply preserves_bind; [apply _|done|]. intros _. apply preserves_keeps_samecore. keeps_auto.
Qed.

(** ** Pinned nodes *)

(** The nodes of keys, with whether they have a last update and a value, and
    further nodes that are only on the heap. *)
Record pins := MkPins { p_nodes : gmap string (nat * bool * bool); p_refs : gset nat }.

Definition pinned_node (g : graphR) (k : string) (r : nat) (a b : bool) : Prop :=
  exists n, live g k r n /\ (a = true -> is_Some (getNodeLastUpdate (Some n))) /\ (b = true -> is_Some (n_value n)).

Record pinned (P : pins) (g : graphR) : Prop := {
  pn_nodes : forall k r a b, p_nodes P !! k = Some (r, a, b) -> pinned_node g k r a b;
  pn_refs : forall r, r ∈ p_refs P -> is_Some (g_heap g !! r)
}.

Definition pin (k : string) (x : nat * bool * bool) (P : pins) : pins := MkPins (<[k := x]> (p_nodes P)) (p_refs P).
Definition unpin (k : string) (P : pins) : pins := MkPins (delete k (p_nodes P)) (p_refs P).
Definition pin_refs (rs : list nat) (P : pins) : pins := MkPins (p_nodes P) (list_to_set rs ∪ p_refs P).

Lemma core_last_update n n' : core n' = core n -> getNodeLastUpdate (Some n') = getNodeLastUpdate (Some n).
Proof. intros [= _ _ E]. unfold getNodeLastUpdate, GetFlag. cbn. by rewrite E. Qed.

Lemma pinned_samecore P g g' : heap_ok g -> samecore g g' ->
  (forall k r, k ∈ dom (p_nodes P) -> g_nodes g !! k = Some r -> g_nodes g' !! k = Some r) ->
  pinned P g -> pinned P g'.
Proof.
  intros [_ Hh] [_ Hs] Hk [H1 H2]. split.
  - intros k r a b Hin. destruct (H1 k r a b Hin) as (n & [L1 L2] & A & B).
    destruct (Hs r n (Hh r n L2) L2) as (n' & Hn' & E). exists n'. split; [split; [|done]|].
    + apply Hk; [by eapply elem_of_dom_2|done].
    + rewrite (core_last_update n n' E). injection E as _ -> _. done.
  - intros r Hr. destruct (H2 r Hr) as [n Hn]. destruct (Hs r n (Hh r n Hn) Hn) as (n' & Hn' & _). by exists n'.
Qed.

Lemma pinned_keeps P g g' : heap_ok g -> keeps g g' -> pinned P g -> pinned P g'.
Proof. intros Hh [Hs E]. apply pinned_samecore; [done|done|]. intros k r _. by rewrite E. Qed.

Lemma pinned_unpin P g k : pinned P g -> pinned (unpin k P) g.
Proof. intros [H1 H2]. split; [|done]. intros k' r a b. cbn [p_nodes unpin]. intros [_ Hk]%lookup_delete_Some. by apply H1. Qed.

Lemma pinned_node_ne g k r a b k' r' n : heap_ok g -> pinned_node g k r a b -> live g k' r' n -> k <> k' -> r <> r'.
Proof. intros Hh (n' & L & _) L' Hne ->. apply Hne. rewrite <- (live_key g k r' n' Hh L). destruct L as [_ E], L' as [A E']. assert (n' = n) as -> by congruence. by apply (live_key g k' r' n Hh). Qed.

(** ** The invariant of the graph *)

Context (U : universe) (SEL : string * string -> bool).

Definition u_key (k : string) : Prop := k ∈ u_keys U.

(** The keys are keys of nodes, and a deletion can occur. *)
Record universe_ok : Prop := {
  uo_keys : forall k, u_key k -> k <> "" /\ trimTrailingDirSep k = k;
  uo_nil : u_vals U None
}.

Context (HU : universe_ok).

Definition consistent (g : graphR) : Prop :=
  (exists D, cinv u_key SEL D D g) /\ graph_in (core_in U) g.

Lemma consistent_heap g : consistent g -> heap_ok g.
Proof. intros [[D Hi] _]. apply Hi. Qed.

(** [m] returns a result in [Q] from a consistent graph that satisfies the pins
    [P], and the graph is consistent again with the pins [P'] of the result. *)
Definition gtr {A} (P : pins) (m : G A) (Q : A -> Prop) (P' : A -> pins) : Prop :=
  forall g, consistent g -> pinned P g ->
    total g m (fun a g' => Q a /\ consistent g' /\ pinned (P' a) g').

Lemma total_combine {A} (I : graphR -> Prop) (R : relation graphR) g (m : G A) Q :
  total g m Q -> safe I m (fun _ => True) -> preserves R m -> I g ->
  total g m (fun a g' => Q a g' /\ I g' /\ R g g').
Proof.
  intros (a & g' & E & HQ) Hs Hp Hg. exists a, g'. split; [done|]. split; [done|].
  specialize (Hs g Hg). rewrite E in Hs. destruct Hs as [_ HI]. split; [exact HI|]. by eapply Hp.
Qed.

(** An operation on the data of a pinned node. *)
Lemma gtr_data P k r a b m : p_nodes P !! k = Some (r, a, b) -> (forall D, data_step u_key SEL D k r m) ->
  preserves keeps m -> safe (graph_in (core_in U)) m (fun _ => True) -> gtr P m (fun _ => True) (fun _ => P).
Proof.
  intros Hk Hd Hp Hs g [[D Hi] Hg] HP. destruct (pn_nodes _ _ HP k r a b Hk) as (n & Hl & _).
  eapply total_conseq; [eapply (total_combine (graph_in (core_in U)) keeps); [by eapply (Hd D g n)|done|done|done]|].
  cbn beta. intros [] g' ([Hi' _] & Hg' & Hkp). split; [done|]. split; [split; [by exists D|done]|].
  eapply pinned_keeps; [apply Hi|done|done].
Qed.

Lemma gtr_SetTargets P k r a b tds : p_nodes P !! k = Some (r, a, b) -> tds_ok u_key SEL tds ->
  gtr P (SetTargets r tds) (fun _ => True) (fun _ => P).
Proof.
  intros Hk Hok g [[D Hi] Hg] HP. destruct (pn_nodes _ _ HP k r a b Hk) as (n & Hl & _).
  eapply total_conseq; [eapply (total_combine (graph_in (core_in U)) keeps g _ (fun _ g' => exists D, cinv u_key SEL D D g'));
    [|apply gsafe_SetTargets|apply keeps_SetTargets|done]|].
  - eapply (total_SetTargets u_key SEL (uo_keys HU) D g k r n tds); [done|done|done|]. intros g' _ I'. by eexists.
  - cbn beta. intros [] g' (Hi' & Hg' & Hkp). split; [done|]. split; [by split|].
    eapply pinned_keeps; [apply Hi|done|done].
Qed.

(** A node of the graph is pinned. *)
Lemma pinned_pin P g k r a b : pinned P g -> pinned_node g k r a b -> pinned (pin k (r, a, b) P) g.
Proof.
  intros [H1 H2] Hn. split; [|done]. intros k' r' a' b'. cbn [p_nodes pin].
  intros [[<- [= <- <- <-]]|[_ Hk]]%lookup_insert_Some; [done|by apply H1].
Qed.

Lemma gtr_SetNode P key : u_key key ->
  (forall g, consistent g -> pinned P g -> total g (SetNode key) (fun r g' => consistent g' /\ pinned P g'
    /\ pinned_node g' key r false false /\ (forall r0 a b, p_nodes P !! key = Some (r0, a, b) -> r0 = r))).
Proof.
  intros Hkey g [[D Hi] Hg] HP.
  eapply total_conseq; [eapply (total_combine (graph_in (core_in U)) samecore);
    [by apply (total_SetNode u_key SEL (uo_keys HU) D g key)|apply gsafe_SetNode; repeat split; [done|apply HU]|apply samecore_SetNode|done]|].
  cbn beta. intros r g' ((Hi' & [n Hl] & Hsub) & Hg' & Hs). split; [split; [by eexists|done]|].
  assert (pinned P g') as HP'.
  { eapply pinned_samecore; [apply Hi|exact Hs| |exact HP]. intros k r0 _ Hk. by eapply lookup_weaken. }
  split; [done|]. split; [by exists n|]. intros r0 a b Hk.
  destruct (pn_nodes _ _ HP' key r0 a b Hk) as (n' & [L1 _] & _). destruct Hl as [L2 _]. congruence.
Qed.

Lemma gtr_DeleteNode P b key : gtr P (DeleteNode b key) (fun _ => True) (fun _ => unpin key P).
Proof.
  intros g [[D Hi] Hg] HP.
  eapply total_conseq; [eapply (total_combine (graph_in (core_in U)) samecore);
    [by apply (total_DeleteNode u_key SEL (uo_keys HU) D g b key)|apply gsafe_DeleteNode|apply samecore_DeleteNode|done]|].
  cbn beta. intros bb g' ([Hi' E] & Hg' & Hs). split; [done|]. split; [split; [by eexists|done]|].
  eapply pinned_samecore; [apply Hi|exact Hs| |by apply pinned_unpin].
  intros k r Hk Hr. rewrite E, lookup_delete_ne; [done|]. intros <-.
  cbn [p_nodes unpin] in Hk. rewrite dom_delete_L in Hk. set_solver +Hk.
Qed.

(** An update of the core of a pinned node: the other pins stay. *)
Lemma gtr_upd_core P k r a b f (a' b' : bool) : p_nodes P !! k = Some (r, a, b) ->
  (forall n, same_links n (f n)) -> (forall n, node_in (core_in U) n -> node_in (core_in U) (f n)) ->
  (forall n, (a = true -> is_Some (getNodeLastUpdate (Some n))) -> a' = true -> is_Some (getNodeLastUpdate (Some (f n)))) ->
  (forall n, (b = true -> is_Some (n_value n)) -> b' = true -> is_Some (n_value (f n))) ->
  gtr P (node_upd r f) (fun _ => True) (fun _ => pin k (r, a', b') P).
Proof.
  intros Hk Hf Hc Ha Hb g [[D Hi] Hg] HP. destruct (pn_nodes _ _ HP k r a b Hk) as (n & Hl & HA & HB).
  assert (Hh : heap_ok g) by apply Hi. destruct (Hf n) as (E1 & E2 & E3 & E4).
  destruct (inv_at u_key SEL _ _ _ _ _ _ _ _ _ Hi Hl) as (Ek & _).
  eapply total_conseq; [eapply (total_combine (graph_in (core_in U)) (fun _ _ => True) g _
    (fun _ g' => frame g g' /\ gv g' = <[k := f n]> (gv g) /\ live g' k r (f n) /\ g_heap g' = <[r := f n]> (g_heap g)))|].
  - assert (total g (node_upd r f) (fun _ g' => g' = gset_heap (<[r := f n]> (g_heap g)) g)) as (u & g' & E & ->).
    { unfold node_upd, node_at. apply total_bind_assoc, total_get_bind. eapply total_deref_bind; [exact (proj2 Hl)|]. by apply total_modify. }
    assert (total g (node_upd r f) (fun _ g' => frame g g' /\ gv g' = <[k := f n]> (gv g) /\ live g' k r (f n))) as (u' & g'' & E' & F & V & L).
    { eapply total_node_upd; [done|exact Hl|congruence|]. auto. }
    rewrite E in E'. injection E' as <- <-. by eexists _, _.
  - by apply gsafe_node_upd.
  - intros ? ? ? _. done.
  - done.
  - cbn beta. intros [] g' ((F & V & L & Hheap) & Hg' & _). split; [done|]. split.
    { split; [|done]. exists D. eapply (inv_data u_key SEL (uo_keys HU)); eauto using live_gv. }
    destruct F as (F1 & _). split.
    + intros k1 r1 a1 b1. cbn [p_nodes pin]. intros [[<- [= <- <- <-]]|[Hne Hk1]]%lookup_insert_Some.
      { exists (f n). split; [done|]. split; [by apply Ha|by apply Hb]. }
      destruct (pn_nodes _ _ HP k1 r1 a1 b1 Hk1) as (n1 & [L1 L2] & HA1 & HB1).
      exists n1. split; [|done]. split; [by rewrite F1|]. rewrite Hheap, lookup_insert_ne; [done|].
      apply not_eq_sym. eapply (pinned_node_ne g k1 r1 a1 b1 k r n); try done. by exists n1.
    + intros r1 Hr1. rewrite Hheap. destruct (pn_refs _ _ HP r1 Hr1) as [n1 Hn1].
      destruct (decide (r = r1)) as [->|Hne]; [rewrite lookup_insert_eq|rewrite lookup_insert_ne by done]; by eexists.
Qed.

Lemma gtr_SetValue P k r a b v : p_nodes P !! k = Some (r, a, b) -> u_vals U v ->
  gtr P (SetValue r v) (fun _ => True) (fun _ => pin k (r, a, bool_decide (is_Some v)) P).
Proof.
  intros Hk Hv. eapply gtr_upd_core; [exact Hk|done| | |].
  - intros n [[Hn1 Hn2] Hn3]. by split.
  - intros n Ha Ha'. specialize (Ha Ha'). exact Ha.
  - intros n _ Hb. by apply bool_decide_eq_true in Hb.
Qed.

Lemma gtr_SetLastUpdate P k r a b u : p_nodes P !! k = Some (r, a, b) -> u_vals U (lu_value u) ->
  gtr P (SetFlags r [LastUpdateFlag u]) (fun _ => True) (fun _ => pin k (r, true, b) P).
Proof.
  intros Hk Hu. eapply gtr_upd_core; [exact Hk|done| | |].
  - intros n [Hn1 Hn2]. split; [done|]. cbn. rewrite lookup_insert_eq. done.
  - intros n _ _. unfold getNodeLastUpdate, GetFlag. cbn. rewrite lookup_insert_eq. by eexists.
  - intros n Hb Hb'. by apply Hb.
Qed.

(** ** Reading the graph *)

(** The keys of the targets are nodes of the graph. *)
Definition closed (g : graphR) (ts : list Target) : Prop :=
  forall t key, t ∈ ts -> key ∈ ks_Iterate (tg_MatchingKeys t) -> exists r n, live g key r n.

Lemma live_closed g k r n : consistent g -> live g k r n -> closed g (n_targets n) /\ closed g (n_sources n).
Proof.
  intros [[D Hi] _] Hl. pose proof (live_gv _ _ _ _ Hl) as Hn.
  destruct (targets_wf u_key SEL D g Hi k n Hn) as [_ T]. destruct (sources_wf u_key SEL D g Hi k n Hn) as [_ S].
  assert (forall x, x ∈ dom (gv g) -> exists r n, live g x r n) as Hlive
    by (intros x [m Hm]%elem_of_dom; apply gv_live in Hm as [q Hq]; by exists q, m).
  rewrite Forall_forall in T, S.
  split; intros t key Ht Hkey; apply Hlive; rewrite elem_of_ks_Iterate in Hkey by auto.
  - assert (src_has (n_targets n) (tg_Relation t) (tg_Label t) key) as Hc by by exists t.
    apply (node_targets u_key SEL D g Hi k n) in Hc; [|done]. by apply (canon_keys u_key SEL D g Hi) in Hc as [_ ?].
  - assert (src_has (n_sources n) (tg_Relation t) (tg_Label t) key) as Hc by by exists t.
    apply (node_sources u_key SEL D g Hi k n) in Hc; [|done]. by apply (canon_keys u_key SEL D g Hi) in Hc as [? _].
Qed.

Lemma elem_of_relation_targets ts relation t : t ∈ relation_targets ts relation -> t ∈ ts.
Proof.
  unfold relation_targets. intros H. rewrite <- (take_drop (RelationBegin ts relation) ts).
  apply elem_of_app. right. revert H.
  induction (drop _ ts) as [|x l IH]; cbn [take_relation]; [done|].
  destruct (String.eqb _ _); [|by intros ?%elem_of_nil]. rewrite !elem_of_cons.
  intros [->|Ht]; [by left|right; by apply IH].
Qed.

Lemma closed_relation g ts relation : closed g ts -> closed g (relation_targets ts relation).
Proof. intros H t key Ht. apply H. by eapply elem_of_relation_targets. Qed.

(** The result is one of [Q]. *)
Definition returns {A} (o : outcome A) (Q : A -> Prop) : Prop := exists a, o = Ok a /\ Q a.

Lemma returns_bind {A B} (o : outcome A) (f : A -> outcome B) Q R :
  returns o Q -> (forall a, Q a -> returns (f a) R) -> returns (o ≫= f) R.
Proof. intros (a & -> & Ha) Hf. exact (Hf a Ha). Qed.
Lemma returns_ok {A} (a : A) (Q : A -> Prop) : Q a -> returns (Ok a) Q.
Proof. intros H. by exists a. Qed.
Lemma returns_ofuel {A} (o : outcome A) Q R : returns o Q -> ofuel o R -> returns o R.
Proof. intros (a & -> & _) H. by exists a. Qed.

Definition is_live (g : graphR) (n : node) : Prop := exists k r, live g k r n.

Section read.
Context (g : graphR) (Hg : consistent g).

Lemma returns_pnodes keys : (forall key, key ∈ keys -> exists r n, live g key r n) ->
  returns (pnodes g (map (fun key => g_nodes g !! key) keys)) (Forall (is_live g)).
Proof.
  induction keys as [|key keys IH]; intros H; cbn [map pnodes]; [by apply returns_ok|].
  destruct (H key) as (r & n & Hl & Hn); [set_solver +|]. unfold pnode at 1. rewrite Hl. cbn. rewrite Hn. cbn.
  eapply returns_bind; [apply IH; intros key' Hk; apply H; set_solver +Hk|]. intros ns Hns. apply returns_ok.
  constructor; [by exists key, r|done].
Qed.

Lemma returns_runtime_nodes ts : closed g ts ->
  returns (runtime_nodes g (targets_to_runtime (g_nodes g) ts)) (Forall (fun p => Forall (is_live g) p.2)).
Proof.
  induction ts as [|t ts IH]; intros H; cbn [targets_to_runtime map runtime_nodes]; [by apply returns_ok|].
  cbn [rt_Nodes rt_Label]. eapply returns_bind.
  { apply returns_pnodes. intros key. apply H. set_solver +. }
  intros ns Hns. eapply returns_bind; [apply IH; intros t' key Ht; apply H; set_solver +Ht|].
  intros l Hl. apply returns_ok. by constructor.
Qed.

Lemma returns_targets_of k r n relation : live g k r n ->
  returns (targets_of g n relation) (Forall (fun p => Forall (is_live g) p.2)).
Proof. intros Hl. apply returns_runtime_nodes, closed_relation. by eapply live_closed. Qed.

Lemma returns_getDerivedNodes k r n : live g k r n ->
  returns (getDerivedNodes g n) (Forall (node_in (core_in U))).
Proof.
  intros Hl. eapply returns_ofuel; [|apply ofuel_getDerivedNodes, Hg]. unfold getDerivedNodes.
  eapply returns_bind; [by eapply returns_targets_of|]. intros l _. by apply (returns_ok _ (fun _ => True)).
Qed.

Lemma returns_getDerivedKeys k r n : live g k r n -> returns (getDerivedKeys g n) (fun _ => True).
Proof. intros Hl. unfold getDerivedKeys. eapply returns_bind; [by eapply returns_getDerivedNodes|]. intros. by apply returns_ok. Qed.

Lemma returns_getValueDetails n : (forall m, n = Some m -> is_live g m) -> returns (getValueDetails g n) (fun _ => True).
Proof.
  intros Hn. unfold getValueDetails.
  assert (forall m, n = Some m -> returns (l ← targets_of g m DependencyRelation;
    Ok (map fst (filter (fun p => existsb (fun t => isNodeAvailable (Some t)) p.2 = false) l))) (fun _ => True)) as Ht.
  { intros m E. destruct (Hn m E) as (k & r & Hl). eapply returns_bind; [by eapply returns_targets_of|]. intros. by apply returns_ok. }
  destruct (getNodeState n), (getNodeError n).2 as [[]|], n as [m|]; try by apply returns_ok.
  all: by apply Ht.
Qed.

(** *** Readiness does not panic *)

Definition no_panic {A} (o : outcome A) (Q : A -> Prop) : Prop :=
  match o with Ok a => Q a | Panic _ => False | OutOfFuel => True end.

Lemma no_panic_bind {A B} (o : outcome A) (f : A -> outcome B) Q R :
  no_panic o Q -> (forall a, Q a -> no_panic (f a) R) -> no_panic (o ≫= f) R.
Proof. destruct o; cbn; auto. Qed.

Section iter.
Context {St : Type} (cb : option node -> string -> St -> outcome (bool * bool * St)).
Context (Hcb : forall n l st, (forall m, n = Some m -> is_live g m) -> no_panic (cb n l st) (fun _ => True)).

Lemma no_panic_iter_label label keys : (forall key, key ∈ keys -> exists r n, live g key r n) -> forall st,
  no_panic (iter_label cb g label keys st) (fun _ => True).
Proof.
  induction keys as [|key keys IH]; intros H st; cbn [iter_label]; [done|].
  destruct (H key) as (r & n & Hl & Hn); [set_solver +|]. unfold pnode. rewrite Hl. cbn. rewrite Hn. cbn.
  eapply no_panic_bind; [apply (Hcb (Some n)); intros m [= <-]; by exists key, r|]. intros [[skip abort] st'] _.
  destruct abort; [done|]. destruct skip; [done|]. apply IH. intros key' Hk. apply H. set_solver +Hk.
Qed.

Lemma no_panic_iter_targets ts : closed g ts -> forall st, no_panic (iter_targets cb g ts st) (fun _ => True).
Proof.
  induction ts as [|t ts IH]; intros H st; cbn [iter_targets]; [done|].
  eapply no_panic_bind; [apply no_panic_iter_label; intros key; apply H; set_solver +|]. intros [abort st'] _.
  destruct abort; [done|]. eapply no_panic_bind; [by apply (Hcb None)|]. intros [[a b] st''] _.
  destruct b; [done|]. apply IH. intros t' key Ht. apply H. set_solver +Ht.
Qed.
End iter.

Lemma no_panic_isNodeReadyRec fuel : forall n depth visited b, is_live g n ->
  no_panic (isNodeReadyRec fuel g n depth visited b) (fun _ => True).
Proof.
  induction fuel as [|fuel IH]; intros n depth visited b Hn; cbn [isNodeReadyRec]; [done|].
  destruct (visited !! n_key n); [done|]. eapply no_panic_bind; [|done].
  apply no_panic_iter_targets; [|destruct Hn as (k & r & Hl); apply closed_relation; by eapply live_closed].
  intros t l st Ht. destruct t as [t|]; cbn; [|by destruct (rs_satisfiedLabel st)].
  destruct (decide _); [done|]. destruct (_ && _); [done|].
  eapply no_panic_bind; [apply IH; by apply Ht|]. intros [ready cyc] _. by destruct (_ && _).
Qed.

Lemma returns_isNodeReady k r n : live g k r n -> returns (isNodeReady g n) (fun _ => True).
Proof.
  intros Hl. pose proof (ofuel_isNodeReady (core_in U) g n (proj2 Hg)) as Hf.
  assert (no_panic (isNodeReady g n) (fun _ => True)) as Hp.
  { unfold isNodeReady. destruct (decide _); [done|]. eapply no_panic_bind; [|done].
    apply no_panic_isNodeReadyRec. by exists k, r. }
  destruct (isNodeReady g n) as [b|e|]; [by exists b|done|done].
Qed.
End read.
End graph_spec.
