(* ===== verification/TxnTotal.v ===== *)
(** * Executing a transaction returns

    Not only does the execution end: it does not panic either, and it leaves the
    graph consistent.  The assertions speak of the graph of the write handle;
    that the state is well formed is part of every triple. *)
From S2P Require Import Prelude KeySet Monad Api Registry EdgeLookup Flags Graph GraphRW Descriptor NodeUtils TxnOps.
From S2P Require Import ExecState Refresh TxnExec Scheduler TxnProcess Plugin Demo GraphSafe Termination OrderFacts GraphInv.
From S2P Require Import GraphTargets GraphOps GraphConsistent GraphSpec.

Section txn_total.
Context {X : Ext} {MO : MapOrder}.
Context (U : universe) (SEL : string * string -> bool) (HU : universe_ok U).

(** Descriptors derive admissible values and have admissible dependencies. *)
Record desc_ok (d : KVDescriptor) : Prop := {
  do_derives : desc_in U d;
  do_targets : forall k v, kv_in U k v ->
    tds_ok (u_key U) SEL (constructTargets (dependencies (Some d) k v) (derivedValues (Some d) k v))
}.

Record reg_ok (reg : registry) : Prop := {
  ro_disjoint : reg_disjoint reg;
  ro_cache : cache_ok reg;
  ro_descriptors : map_Forall (fun _ d => desc_ok d) (reg_descriptors reg)
}.

Record exec_ok (x : ExecSt) : Prop := {
  eo_graph : consistent U SEL (cur_graph x);
  eo_registry : reg_ok (x_registry x)
}.

(** ** Triples *)

Definition ht {A} (P : graphR -> Prop) (m : E A) (Q : A -> graphR -> Prop) : Prop :=
  forall x, exec_ok x -> P (cur_graph x) -> total x m (fun a x' => exec_ok x' /\ Q a (cur_graph x')).

(** The pins stay. *)
Definition keep {A} (P : pins) (m : E A) (Q : A -> Prop) : Prop :=
  ht (pinned P) m (fun a g => pinned P g /\ Q a).

(** The graph stays. *)
Definition reads {A} (m : E A) (Q : A -> Prop) : Prop :=
  forall P : graphR -> Prop, ht P m (fun a g => P g /\ Q a).

Lemma ht_bind {A B} (m : E A) (f : A -> E B) P Q R :
  ht P m Q -> (forall a, ht (Q a) (f a) R) -> ht P (m ≫= f) R.
Proof.
  intros Hm Hf x Hx HP. eapply total_bind; [by apply Hm|]. cbn beta. intros a x' [Hx' HQ]. by apply Hf.
Qed.

Lemma ht_conseq {A} (m : E A) (P P' : graphR -> Prop) (Q Q' : A -> graphR -> Prop) :
  ht P' m Q' -> (forall g, consistent U SEL g -> P g -> P' g) ->
  (forall a g, consistent U SEL g -> Q' a g -> Q a g) -> ht P m Q.
Proof.
  intros Hm HP HQ x Hx Hp. eapply total_conseq; [apply Hm; [done|apply HP; [apply Hx|done]]|].
  cbn beta. intros a x' [Hx' Hq]. split; [done|]. apply HQ; [apply Hx'|done].
Qed.

Lemma ht_ret {A} (a : A) (P : graphR -> Prop) (Q : A -> graphR -> Prop) : (forall g, P g -> Q a g) -> ht P (mret a) Q.
Proof. intros H x Hx HP. apply total_ret. auto. Qed.

Lemma ht_pure {A} (phi : Prop) (m : E A) (P : graphR -> Prop) Q :
  (forall g, consistent U SEL g -> P g -> phi) -> (phi -> ht P m Q) -> ht P m Q.
Proof. intros H1 H2 x Hx HP. apply H2; [|done|done]. eapply H1; [apply Hx|done]. Qed.

Lemma ht_and {A} (phi : Prop) (m : E A) (P : graphR -> Prop) Q : (phi -> ht P m Q) -> ht (fun g => P g /\ phi) m Q.
Proof. intros H x Hx [HP Hphi]. by apply H. Qed.

Lemma keep_bind {A B} P (m : E A) (f : A -> E B) Q R :
  keep P m Q -> (forall a, Q a -> keep P (f a) R) -> keep P (m ≫= f) R.
Proof. intros Hm Hf. eapply ht_bind; [exact Hm|]. intros a. apply ht_and. intros Ha. by apply Hf. Qed.

(** Keep the pins, and then something else. *)
Lemma keep_ht {A B} P (m : E A) (f : A -> E B) Q R :
  keep P m Q -> (forall a, Q a -> ht (pinned P) (f a) R) -> ht (pinned P) (m ≫= f) R.
Proof. intros Hm Hf. eapply ht_bind; [exact Hm|]. intros a. apply ht_and. intros Ha. by apply Hf. Qed.

Lemma reads_bind {A B} (m : E A) (f : A -> E B) (P : graphR -> Prop) Q R :
  reads m Q -> (forall a, Q a -> ht P (f a) R) -> ht P (m ≫= f) R.
Proof. intros Hm Hf. eapply ht_bind; [apply Hm|]. intros a. apply ht_and. intros Ha. by apply Hf. Qed.

Lemma reads_reads {A B} (m : E A) (f : A -> E B) Q R :
  reads m Q -> (forall a, Q a -> reads (f a) R) -> reads (m ≫= f) R.
Proof. intros Hm Hf P. eapply reads_bind; [exact Hm|]. intros a Ha. by apply Hf. Qed.

Lemma reads_keep {A} P (m : E A) Q : reads m Q -> keep P m Q.
Proof. intros H. apply H. Qed.

Lemma reads_ret {A} (a : A) (Q : A -> Prop) : Q a -> reads (mret a) Q.
Proof. intros H P. apply ht_ret. auto. Qed.

Lemma keep_ret {A} P (a : A) (Q : A -> Prop) : Q a -> keep P (mret a) Q.
Proof. intros H. apply ht_ret. auto. Qed.

Lemma keep_conseq {A} P (m : E A) (Q R : A -> Prop) : keep P m Q -> (forall a, Q a -> R a) -> keep P m R.
Proof. intros H HQ. eapply ht_conseq; [exact H|done|]. intros a g _ [? ?]. auto. Qed.

Lemma keep_deref {A B} P msg (o : option A) a (f : A -> E B) R : o = Some a -> keep P (f a) R -> keep P (deref msg o ≫= f) R.
Proof. intros Ho Hf x Hx HP. eapply total_deref_bind; [exact Ho|]. by apply Hf. Qed.

Lemma keep_skip P : keep P skip (fun _ => True).
Proof. by apply keep_ret. Qed.

Lemma keep_whenM P (b : bool) m : (b = true -> keep P m (fun _ => True)) -> keep P (whenM b m) (fun _ => True).
Proof. destruct b; intros H; [by apply H|apply keep_skip]. Qed.

Lemma keep_foldM {A B} P (f : B -> A -> E B) l : (forall b a, a ∈ l -> keep P (f b a) (fun _ => True)) ->
  forall b, keep P (foldM f l b) (fun _ => True).
Proof.
  induction l as [|a l IH]; intros H b; cbn [foldM]; [by apply keep_ret|].
  eapply keep_bind; [apply H; set_solver +|]. intros b' _. apply IH. intros b'' a' Ha. apply H. set_solver +Ha.
Qed.

Lemma reads_mapM {A B} (f : A -> E B) l (Q : B -> Prop) : (forall a, a ∈ l -> reads (f a) Q) -> reads (mapM f l) (Forall Q).
Proof.
  induction l as [|a l IH]; intros H; cbn [mapM]; [by apply reads_ret|].
  eapply reads_reads; [apply H; set_solver +|]. intros b Hb.
  eapply reads_reads; [apply IH; intros a' Ha; apply H; set_solver +Ha|]. intros bs Hbs. apply reads_ret. by constructor.
Qed.

(** ** Components of the state *)

Lemma ht_in_rw {A} P (m : G A) Q P' : gtr U SEL P m Q P' ->
  ht (pinned P) (in_rw m) (fun a g => pinned (P' a) g /\ Q a).
Proof.
  intros Hm x [Hg Hr] HP. destruct (Hm _ Hg HP) as (a & g' & E & HQ & Hg' & HP').
  exists a, (xset_rw (rwset_graph g' (x_rw x)) x). split; [|by split].
  unfold in_rw, zoom. by rewrite E.
Qed.

Lemma ht_in_graph {A} (f : graphR -> outcome A) (P : graphR -> Prop) Q :
  (forall g, consistent U SEL g -> P g -> returns (f g) Q) -> ht P (in_graph f) (fun a g => P g /\ Q a).
Proof.
  intros Hf x Hx HP. destruct (Hf _ (eo_graph _ Hx) HP) as (a & E & HQ). exists a, x.
  split; [|done]. unfold in_graph, mbind, M_bind, get, lift. by rewrite E.
Qed.

Lemma reads_in_world {A} (m : M World A) : (forall w, exists a w', m w = Ok (a, w')) -> reads (in_world m) (fun _ => True).
Proof.
  intros Hm P x [Hg Hr] HP. destruct (Hm (x_world x)) as (a & w' & E). exists a, (xset_world w' x).
  split; [|by split]. unfold in_world, zoom. by rewrite E.
Qed.

Lemma reads_get : reads get (fun _ => True).
Proof. intros P x Hx HP. by apply total_get. Qed.

Lemma reads_xGetNode key : reads (xGetNode key) (fun _ => True).
Proof. intros P x Hx HP. by apply total_gets. Qed.

Lemma reads_add_updated key : reads (add_updated key) (fun _ => True).
Proof. intros P x [Hg Hr] HP. apply total_modify. split; [by split|done]. Qed.

Definition handler_ok (h : descriptorHandler) : Prop := forall d, h = Some d -> desc_ok d.

Lemma reads_descriptor_for key : reads (descriptor_for key) handler_ok.
Proof.
  intros P x [Hg [H1 H2 H3]] HP. destruct (GetDescriptorForKey_ok _ key H1 H2) as (r & reg' & E & Hr & Hc & Hds).
  exists r, (xset_registry reg' x). split; [unfold descriptor_for, in_registry, zoom; by rewrite E|].
  split; [split; [done|]|split; [done|]].
  - split; cbn [x_registry xset_registry]; [split; rewrite Hds; apply H1|done|by rewrite Hds].
  - intros d [= ->]. destruct (proj1 (Hr d) eq_refl) as (n & Hn & _). by eapply H3.
Qed.

Lemma reads_create h k v : reads (in_world (create h k v)) (fun _ => True).
Proof.
  apply reads_in_world. intros w. unfold create. destruct h as [d|]; [|by eauto].
  destruct (d_Create d) as [f|]; [|by eauto]. destruct (f k v w) as [[? ?] ?]. by eauto.
Qed.

Lemma reads_delete h k v md : reads (in_world (delete_ h k v md)) (fun _ => True).
Proof.
  apply reads_in_world. intros w. unfold delete_. destruct h as [d|]; [|by eauto].
  destruct (d_Delete d) as [f|]; [|by eauto]. destruct (f k v md w) as [? ?]. by eauto.
Qed.

(** [Update] is called only when a change is no re-creation. *)
Lemma reads_update h k v v' md : (forall d, h = Some d -> d_Update d <> None) ->
  reads (in_world (update h k v v' md)) (fun _ => True).
Proof.
  intros H. apply reads_in_world. intros w. unfold update. destruct h as [d|]; [|by eauto].
  destruct (d_Update d) as [f|] eqn:E; [|by destruct (H d)]. destruct (f k v v' md w) as [[? ?] ?]. by eauto.
Qed.

(** ** Pinned nodes *)

Definition at_ (P : pins) (k : string) (r : nat) (a b : bool) : Prop := p_nodes P !! k = Some (r, a, b).

(** What is known of a pinned node. *)
Record node_facts (k : string) (a b : bool) (n : node) : Prop := {
  nf_key : n_key n = k;
  nf_in : node_in (core_in U) n;
  nf_last : a = true -> is_Some (getNodeLastUpdate (Some n));
  nf_value : b = true -> is_Some (n_value n)
}.

Lemma nf_kv k a b n : node_facts k a b n -> kv_in U k (n_value n).
Proof. intros [<- Hin _ _]. by apply node_in_kv. Qed.

Lemma ht_rnode P k r a b : at_ P k r a b ->
  ht (pinned P) (rnode r) (fun n g => (pinned P g /\ live g k r n) /\ node_facts k a b n).
Proof.
  intros Hat x Hx HP. destruct (pn_nodes _ _ HP k r a b Hat) as (n & Hl & Ha & Hb).
  exists n, x. split.
  - unfold rnode, in_rw, zoom, node_at, mbind, M_bind, get, deref, lift. rewrite (proj2 Hl). cbn. by destruct x as [? [] ? ? ? ?].
  - split; [done|]. split; [done|]. destruct Hx as [[[D Hi] Hg] _]. split; try done.
    + by destruct (inv_at _ _ _ _ _ _ _ _ _ _ _ Hi Hl) as (? & _).
    + eapply Hg. apply Hl.
Qed.

Lemma rnode_bind {B} P k r a b (f : node -> E B) R : at_ P k r a b ->
  (forall n, node_facts k a b n -> ht (fun g => pinned P g /\ live g k r n) (f n) R) -> ht (pinned P) (rnode r ≫= f) R.
Proof. intros Hat Hf. eapply ht_bind; [by eapply ht_rnode|]. intros n. apply ht_and. intros Hn. by apply Hf. Qed.

Lemma ht_drop {A} P k r n (m : E A) R : ht (pinned P) m R -> ht (fun g => pinned P g /\ live g k r n) m R.
Proof. intros H. eapply ht_conseq; [exact H|by intros g _ [? _]|done]. Qed.

Lemma rnode_ht {B} P k r a b (f : node -> E B) R : at_ P k r a b ->
  (forall n, node_facts k a b n -> ht (pinned P) (f n) R) -> ht (pinned P) (rnode r ≫= f) R.
Proof. intros Hat Hf. eapply rnode_bind; [done|]. intros n Hn. by apply ht_drop, Hf. Qed.

(** Read something of a node that was just read. *)
Lemma node_read {A B} P k r n (f : graphR -> outcome A) (h : A -> E B) Q R :
  (forall g, consistent U SEL g -> live g k r n -> returns (f g) Q) -> (forall a, Q a -> ht (pinned P) (h a) R) ->
  ht (fun g => pinned P g /\ live g k r n) (in_graph f ≫= h) R.
Proof.
  intros Hf Hh. eapply ht_bind; [apply ht_in_graph; intros g Hg [_ Hl]; by apply Hf|].
  intros a. apply ht_and. intros Ha. by apply ht_drop, Hh.
Qed.

Lemma keep_in_rw {A} P (m : G A) Q : gtr U SEL P m Q (fun _ => P) -> keep P (in_rw m) Q.
Proof. apply ht_in_rw. Qed.

Section node.
Context (P : pins) (k : string) (r : nat) (a b : bool) (Hat : at_ P k r a b).

Lemma keep_data op : match op with
    | OpSetLabel _ | OpSetMetadata _ | OpSetMetadataMap _ => True
    | OpSetFlags fs => match fs with [f] => flag_GetIndex f <> LastUpdateFlagIndex | _ => False end
    | OpDelFlags idxs => LastUpdateFlagIndex ∉ idxs
    | _ => False end -> keep P (in_rw (run_data r op)) (fun _ => True).
Proof.
  intros Hop. apply keep_in_rw. eapply (gtr_data U SEL P k r a b); [exact Hat|intros D; apply (data_run _ _ (uo_keys U HU))|..];
    destruct op as [l|v|fs|ids|name|md]; try done; cbn [run_data].
  - apply keeps_SetLabel.
  - destruct fs as [|f [|]]; [done| |done]. by apply keeps_SetFlag.
  - by apply keeps_DelFlags.
  - apply keeps_SetMetadataMap.
  - apply keeps_SetMetadata.
  - apply gsafe_SetLabel.
  - destruct fs as [|f [|]]; [done| |done]. by apply gsafe_SetFlag.
  - by apply gsafe_DelFlags.
  - apply gsafe_SetMetadataMap.
  - apply gsafe_SetMetadata.
Qed.

Lemma keep_SetFlag f : flag_GetIndex f <> LastUpdateFlagIndex -> keep P (in_rw (SetFlags r [f])) (fun _ => True).
Proof. intros Hf. by apply (keep_data (OpSetFlags [f])). Qed.
Lemma keep_DelFlags idxs : LastUpdateFlagIndex ∉ idxs -> keep P (in_rw (DelFlags r idxs)) (fun _ => True).
Proof. intros Hf. by apply (keep_data (OpDelFlags idxs)). Qed.
Lemma keep_SetLabel l : keep P (in_rw (SetLabel r l)) (fun _ => True).
Proof. by apply (keep_data (OpSetLabel l)). Qed.
Lemma keep_SetMetadata md : keep P (in_rw (SetMetadata r md)) (fun _ => True).
Proof. by apply (keep_data (OpSetMetadata md)). Qed.
Lemma keep_SetMetadataMap s : keep P (in_rw (SetMetadataMap r s)) (fun _ => True).
Proof. by apply (keep_data (OpSetMetadataMap s)). Qed.

Lemma keep_updateNodeState st : keep P (updateNodeState r st) (fun _ => True).
Proof.
  unfold updateNodeState. eapply rnode_ht; [exact Hat|]. intros n _.
  destruct (decide _); [apply keep_skip|]. by apply keep_SetFlag.
Qed.

Lemma keep_rnode : keep P (rnode r) (node_facts k a b).
Proof. eapply ht_conseq; [by eapply ht_rnode|done|]. by intros n g _ [[? _] ?]. Qed.
End node.

(** ** The operations of the execution *)

(** The parts of a transaction that its type needs. *)
Definition txn_wf (txn : transaction) : Prop :=
  (isNBTxn txn = true -> is_Some (txn_nb txn)) /\ (txn_txnType txn = RetryFailedOps -> is_Some (txn_retry txn)).

Context (T : transaction) (HT : txn_wf T).

Lemma reads_the_nb : isNBTxn T = true -> reads (the_nb T) (fun nb => txn_nb T = Some nb).
Proof. intros H. destruct (proj1 HT H) as [nb E]. unfold the_nb. rewrite E. by apply (reads_ret nb). Qed.

Lemma reads_the_retry : txn_txnType T = RetryFailedOps -> reads (the_retry T) (fun _ => True).
Proof. intros H. destruct (proj2 HT H) as [rt E]. unfold the_retry. rewrite E. by apply (reads_ret rt). Qed.

Lemma reads_preRecordTxnOp args n : reads (preRecordTxnOp args n) (fun _ => True).
Proof.
  unfold preRecordTxnOp. eapply (reads_reads _ _ (fun _ => True)); [|intros ? _; by apply reads_ret].
  destruct (a_isDerived args); [|by apply reads_ret].
  eapply reads_reads; [apply reads_descriptor_for|]. intros ? _. by apply reads_ret.
Qed.

Lemma reads_validDerivedKV kv : reads (validDerivedKV kv) (fun _ => True).
Proof. unfold validDerivedKV. eapply reads_reads; [apply reads_xGetNode|]. intros ? _. by apply reads_ret. Qed.

#[local] Ltac leaf :=
  first
  [ done
  | by apply keep_ret
  | apply keep_skip
  | eapply keep_rnode; eassumption
  | eapply keep_updateNodeState; eassumption
  | eapply keep_SetFlag; [eassumption|done]
  | eapply keep_DelFlags; [eassumption|by repeat (apply not_elem_of_cons; split); [..|apply not_elem_of_nil]]
  | eapply keep_SetLabel; eassumption | eapply keep_SetMetadata; eassumption | eapply keep_SetMetadataMap; eassumption
  | apply reads_keep;
    first [ apply reads_get | apply reads_xGetNode | apply reads_add_updated | apply reads_descriptor_for
          | apply reads_create | apply reads_delete | apply reads_preRecordTxnOp | apply reads_validDerivedKV
          | by apply reads_the_nb | by apply reads_the_retry ] ].
#[local] Ltac kstep :=
  lazymatch goal with
  | |- forall _, _ => intro
  | |- keep _ (let '(_, _) := ?x in _) _ => destruct x
  | |- keep _ (let x := _ in _) _ => cbv zeta
  | |- keep _ (match ?x with _ => _ end) _ => destruct x eqn:?
  | |- keep _ (_ ≫= _) _ => first [ eapply keep_bind; [leaf|intros ? ?] | eapply (keep_bind _ _ _ (fun _ => True)); [|intros ? _] ]
  | |- keep _ (whenM _ _) _ => apply keep_whenM; intros ?
  | |- keep _ _ _ => leaf
  end.
#[local] Ltac kauto := repeat kstep.

Section node.
Context (P : pins) (k : string) (r : nat) (b : bool) (Hat : at_ P k r true b).

Lemma keep_consider_retry : keep P (consider_retry r T) (fun _ => True).
Proof.
  unfold consider_retry. eapply keep_bind; [leaf|]. intros n Hn. eapply (keep_bind _ _ _ (fun _ => True)).
  { destruct (decide _); [kauto|leaf]. }
  intros retried _. destruct (nf_last _ _ _ _ Hn eq_refl) as [u Hu].
  eapply keep_deref; [exact Hu|]. kauto.
Qed.

Lemma keep_markFailedValue args err rb : a_txn args = T -> keep P (markFailedValue r args err rb) (fun _ => True).
Proof.
  intros H. unfold markFailedValue. rewrite H. cbv zeta. eapply (keep_bind _ _ _ (fun _ => True)).
  { destruct (isNBTxn T) eqn:E; kauto. }
  intros rev _. eapply (keep_bind _ _ _ (fun _ => True)); [destruct (_ && _); [apply keep_consider_retry|leaf]|].
  intros st _. kauto.
Qed.

Lemma keep_own_error args err : keep P (own_error args r err) (fun _ => True).
Proof. unfold own_error. kauto. Qed.

Lemma keep_failed_op args op err rb : a_txn args = T -> keep P (failed_op args r op err rb) (fun _ => True).
Proof.
  intros H. unfold failed_op. eapply keep_bind; [by apply keep_markFailedValue|]. intros st _.
  eapply keep_bind; [apply keep_own_error|]. intros e _. leaf.
Qed.

Lemma keep_invalid_op args op err : keep P (invalid_op args r op err) (fun _ => True).
Proof. unfold invalid_op. kauto. apply keep_own_error. Qed.

Lemma keep_execute_delete args : keep P (execute_delete r args) (fun _ => True).
Proof. unfold execute_delete. kauto. Qed.

Lemma keep_execute_create d args : keep P (execute_create r d args) (fun _ => True).
Proof. unfold execute_create. kauto. Qed.

Lemma keep_execute_update d v args :
  (kv_origin (a_kv args) <> FromSB -> forall d', d = Some d' -> d_Update d' <> None) ->
  keep P (execute_update r d v args) (fun _ => True).
Proof. intros Hd. unfold execute_update. kauto. apply reads_keep, reads_update. subst. by apply Hd. Qed.
End node.

(** *** The dependent nodes *)

Lemma rw_eta (x : ExecSt) : xset_rw (rwset_graph (cur_graph x) (x_rw x)) x = x.
Proof. by destruct x as [? [] ? ? ? ?]. Qed.

Lemma in_rw_read {A} (m : G A) x a : m (cur_graph x) = Ok (a, cur_graph x) -> in_rw m x = Ok (a, x).
Proof. intros E. unfold in_rw, zoom. rewrite E. by rewrite rw_eta. Qed.

Definition in_heap (refs : list nat) (g : graphR) : Prop := forall r, r ∈ refs -> is_Some (g_heap g !! r).

Lemma ht_GetSources P k r a b relation : at_ P k r a b ->
  ht (pinned P) (in_rw (GetSources r relation)) (fun srcs g => pinned P g
    /\ exists refs, concat (map rt_Nodes srcs) = map Some refs /\ in_heap refs g).
Proof.
  intros Hat x Hx HP. destruct (pn_nodes _ _ HP k r a b Hat) as (n & Hl & _).
  destruct (live_closed U SEL _ k r n (eo_graph _ Hx) Hl) as [_ Hc]. apply closed_relation with (relation := relation) in Hc.
  exists (targets_to_runtime (g_nodes (cur_graph x)) (relation_targets (n_sources n) relation)), x. split.
  { apply in_rw_read. unfold GetSources, node_at, mbind, M_bind, get, deref, lift. by rewrite (proj2 Hl). }
  split; [done|]. split; [done|]. induction (relation_targets (n_sources n) relation) as [|t ts IH]; [exists []; split; [done|by intros ? ?%elem_of_nil]|].
  destruct IH as (refs & E & Hh); [intros t' key Ht; apply Hc; set_solver +Ht|].
  assert (exists refs1, map (fun key => g_nodes (cur_graph x) !! key) (ks_Iterate (tg_MatchingKeys t)) = map Some refs1
    /\ in_heap refs1 (cur_graph x)) as (refs1 & E1 & Hh1).
  { assert (forall key, key ∈ ks_Iterate (tg_MatchingKeys t) -> exists r n, live (cur_graph x) key r n) as Hk
      by (intros key; apply Hc; set_solver +).
    induction (ks_Iterate (tg_MatchingKeys t)) as [|key keys IHk]; [exists []; split; [done|by intros ? ?%elem_of_nil]|].
    destruct IHk as (rs & Ers & Hrs); [intros key' Hk'; apply Hk; set_solver +Hk'|].
    destruct (Hk key) as (r1 & n1 & L1 & L2); [set_solver +|]. exists (r1 :: rs). cbn [map]. rewrite L1, Ers. split; [done|].
    intros r2 [->|Hr2]%elem_of_cons; [by eexists|by apply Hrs]. }
  exists (refs1 ++ refs). cbn [targets_to_runtime map concat rt_Nodes]. rewrite E1. split.
  - rewrite map_app. f_equal. exact E.
  - intros r2 [?|?]%elem_of_app; auto.
Qed.

Lemma ht_the_nodes (Q : graphR -> Prop) refs :
  ht Q (mapM (fun ref => in_rw (the_node ref)) (map Some refs)) (fun l g => Q g /\ l = refs).
Proof.
  induction refs as [|r refs IH]; cbn [map mapM]; [by apply ht_ret|].
  apply (ht_bind _ _ _ (fun a g => Q g /\ a = r)).
  { intros x Hx HP. exists r, x. split; [by apply in_rw_read|done]. }
  intros a. apply ht_and. intros ->. eapply ht_bind; [exact IH|]. intros l. apply ht_and. intros ->. by apply ht_ret.
Qed.

Lemma ht_keyed P refs :
  ht (fun g => pinned P g /\ in_heap refs g) (mapM (fun ref => n ← rnode ref; mret (n_key n, ref)) refs)
    (fun l g => (pinned P g /\ in_heap refs g) /\ map snd l = refs).
Proof.
  assert (forall refs', (forall r, r ∈ refs' -> r ∈ refs) ->
    ht (fun g => pinned P g /\ in_heap refs g) (mapM (fun ref => n ← rnode ref; mret (n_key n, ref)) refs')
    (fun l g => (pinned P g /\ in_heap refs g) /\ map snd l = refs')) as H; [|by apply H].
  induction refs' as [|r refs' IH]; intros Hin; cbn [mapM]; [by apply ht_ret|].
  apply (ht_bind _ _ _ (fun p g => (pinned P g /\ in_heap refs g) /\ p.2 = r)).
  { intros x Hx [HP Hh]. destruct (Hh r) as [n Hn]; [apply Hin; set_solver +|].
    exists (n_key n, r), x. split; [|done]. unfold mbind at 1, M_bind.
    assert (rnode r x = Ok (n, x)) as ->; [|done].
    apply in_rw_read. unfold node_at, mbind, M_bind, get, deref, lift. by rewrite Hn. }
  intros p. apply ht_and. intros <-. eapply ht_bind; [apply IH; intros r' Hr'; apply Hin; set_solver +Hr'|].
  intros l. apply ht_and. intros <-. apply ht_ret. intros g HP. split; [done|]. by destruct p.
Qed.

Lemma ht_dep_nodes P k r a b : at_ P k r a b -> ht (pinned P) (dep_nodes r) (fun refs g => pinned (pin_refs refs P) g).
Proof.
  intros Hat. unfold dep_nodes. eapply ht_bind; [by eapply ht_GetSources|]. intros srcs.
  apply (ht_bind _ _ _ (fun refs g => pinned P g /\ in_heap refs g)).
  { intros x Hx [HP (refs & E & Hh)]. rewrite E.
    eapply total_conseq; [apply (ht_the_nodes (fun g => pinned P g /\ in_heap refs g) refs x Hx); done|].
    cbn beta. by intros l x' [Hx' [? ->]]. }
  intros refs. eapply ht_bind; [apply ht_keyed|]. intros keyed. apply ht_and. intros E.
  apply ht_ret. intros g [HP Hh]. destruct HP as [H1 H2]. split; [done|].
  intros r' [Hr|Hr]%elem_of_union; [|by apply H2]. apply elem_of_list_to_set in Hr. apply Hh. rewrite <- E.
  apply list_elem_of_In, in_map_iff in Hr as (p & <- & Hp%list_elem_of_In). rewrite elem_of_sort_by in Hp.
  apply list_elem_of_In, in_map_iff. exists p. split; [done|by apply list_elem_of_In].
Qed.

(** *** Reading a node *)

Lemma reads_new_last_update op args u : a_txn args = T -> u_vals U (kv_value (a_kv args)) ->
  reads (new_last_update op args u) (fun v => u_vals U (lu_value v)).
Proof.
  intros H Hv. unfold new_last_update. rewrite H. cbv zeta. destruct (isNBTxn T) eqn:E.
  - eapply reads_reads; [by apply reads_the_nb|]. intros nb _. by apply reads_ret.
  - destruct u as [u|]; [by apply reads_ret|]. destruct (a_isDerived args); [|by apply reads_ret].
    eapply reads_reads; [apply reads_xGetNode|]. intros parent _. apply reads_ret. by destruct (getNodeLastUpdate parent).
Qed.

Lemma view_read {B} P k r n (h : valueView -> E B) R :
  (forall v, ht (fun g => pinned P g /\ live g k r n) (h v) R) ->
  ht (fun g => pinned P g /\ live g k r n) (value_view (Some n) ≫= h) R.
Proof.
  intros Hh. eapply (ht_bind _ _ _ (fun _ g => pinned P g /\ live g k r n)); [|exact Hh]. unfold value_view.
  eapply ht_bind; [apply (ht_in_graph _ _ (fun _ => True)); intros g Hg [_ Hl];
    apply (returns_getValueDetails U SEL g Hg); intros m [= <-]; by exists k, r|].
  intros d. apply ht_and. intros _. by apply ht_ret.
Qed.

Lemma determine_read {B} P k r n (h : TxnOperation -> E B) R :
  (forall op, op <> TxnOperation_UPDATE -> ht (pinned P) (h op) R) ->
  ht (fun g => pinned P g /\ live g k r n) (determineDepUpdateOperation n ≫= h) R.
Proof.
  intros Hh. eapply (ht_bind _ _ _ (fun op g => pinned P g /\ op <> TxnOperation_UPDATE)).
  - unfold determineDepUpdateOperation. eapply ht_bind.
    { apply (ht_in_graph _ _ (fun _ => True)). intros g Hg [_ Hl]. by eapply (returns_isNodeReady U SEL g Hg). }
    intros ready. apply ht_and. intros _. apply ht_ret. intros g [HP _]. split; [done|].
    by destruct (negb _), ready.
  - intros op. apply ht_and. apply Hh.
Qed.

(** *** The recursion *)

Lemma keep_xDeleteNode P key : ht (pinned P) (xDeleteNode key) (fun _ g => pinned (unpin key P) g).
Proof.
  unfold xDeleteNode. eapply reads_bind; [apply reads_get|]. intros x _.
  eapply ht_bind; [apply ht_in_rw, gtr_DeleteNode; exact HU|]. intros bb. cbn beta. apply ht_and. intros _. by apply ht_ret.
Qed.

Lemma ht_unpin {A} P k (m : E A) (Q : A -> Prop) : keep P m Q -> ht (pinned P) m (fun a g => pinned (unpin k P) g /\ Q a).
Proof. intros H. eapply ht_conseq; [exact H|done|]. intros a g _ [HP HQ]. split; [by apply pinned_unpin|done]. Qed.

(** The pins [P] stay when those of [k] are not needed any more. *)
Definition loses {A} (P : pins) (k : string) (m : E A) : Prop := ht (pinned P) m (fun _ g => pinned (unpin k P) g).

Lemma keep_loses {A} P k (m : E A) Q : keep P m Q -> loses P k m.
Proof. intros H. eapply ht_conseq; [exact H|done|]. intros a g _ [HP _]. by apply pinned_unpin. Qed.

Lemma loses_bind {A B} P k (m : E A) (f : A -> E B) Q : keep P m Q -> (forall a, Q a -> loses P k (f a)) -> loses P k (m ≫= f).
Proof. intros Hm Hf. by eapply keep_ht. Qed.

(** The own node may have lost its value in the meantime. *)
Lemma loses_pin {A} P k x (m : E A) : loses (pin k x P) k m -> ht (pinned (pin k x P)) m (fun _ g => pinned (unpin k P) g).
Proof.
  intros H. eapply ht_conseq; [exact H|done|]. intros a g _ HP. unfold unpin, pin in *. cbn [p_nodes p_refs] in HP.
  by rewrite delete_insert_eq in HP.
Qed.

Section rec.
Context (bs : KeySet) (rec : applyValueArgs -> E ValueRes).

(** The pins of nodes on the branch. *)
Definition on_branch (P : pins) : Prop := dom (p_nodes P) ⊆ ks_elems bs.

Context (Hrec : forall P args, on_branch P -> kv_in U (kv_key (a_kv args)) (kv_value (a_kv args)) ->
  a_branch args = bs -> a_txn args = T -> keep P (rec args) (fun _ => True)).

Record args_ok (args : applyValueArgs) : Prop := {
  ao_branch : a_branch args = bs;
  ao_txn : a_txn args = T
}.

Lemma keep_applyDerived P vs args c : on_branch P -> kvs_in U vs -> args_ok args ->
  keep P (applyDerived rec vs args c) (fun _ => True).
Proof.
  intros HP Hvs [Hb Ht]. unfold applyDerived. apply keep_foldM. intros acc kv Hkv.
  rewrite elem_of_sort_by in Hkv. eapply (keep_bind _ _ _ (fun _ => True)); [destruct c; leaf|].
  intros valid _. destruct valid; [|leaf].
  eapply keep_bind; [apply Hrec; [done|by apply Hvs|done|done]|]. intros res _. leaf.
Qed.

Lemma ht_rnode_ref P r : r ∈ p_refs P -> keep P (rnode r) (node_in (core_in U)).
Proof.
  intros Hr x Hx HP. destruct (pn_refs _ _ HP r Hr) as [n Hn]. exists n, x. split.
  - apply in_rw_read. unfold node_at, mbind, M_bind, get, deref, lift. by rewrite Hn.
  - split; [done|]. split; [done|]. by eapply (eo_graph _ Hx).
Qed.

Lemma keep_runDepUpdates P k r a b args c : on_branch P -> at_ P k r a b -> args_ok args ->
  keep P (runDepUpdates rec r args c) (fun _ => True).
Proof.
  intros HP Hat [Hb Ht]. unfold runDepUpdates. eapply ht_bind; [by eapply ht_dep_nodes|]. intros deps. cbn beta.
  eapply ht_conseq; [apply (keep_foldM (pin_refs deps P))|done|].
  - intros acc dep Hdep. unfold dep_update. eapply keep_bind.
    { apply ht_rnode_ref. cbn [p_refs pin_refs]. apply elem_of_union. left. by apply elem_of_list_to_set. }
    intros n Hn. destruct (negb _); [leaf|]. destruct (negb _); [leaf|].
    eapply keep_bind; [apply Hrec; [done| |done|done]|intros res _; leaf].
    cbn [kv_key kv_value a_kv dep_args]. destruct (node_in_kv U n Hn) as [Hk Hv]. split; [done|].
    destruct (getNodeLastUpdate (Some n)) as [u|] eqn:E; [|done]. by eapply node_in_last_update.
  - cbn beta. intros res g _ [[H1 H2] _]. split; [|done]. split; [done|]. intros r' Hr'. apply H2.
    cbn [p_refs pin_refs]. set_solver +Hr'.
Qed.

Section own.
Context (P : pins) (k : string) (r : nat) (b : bool) (HP : on_branch P) (Hat : at_ P k r true b).
Context (args : applyValueArgs) (Hargs : args_ok args) (Hk : kv_key (a_kv args) = k).

(** The node goes away only when a derived value is removed. *)
Lemma ht_delete_return st op pending recreate ex err inh rt :
  if negb pending && (a_isDerived args && negb recreate)
  then loses P k (delete_return r st op args pending recreate ex err inh rt)
  else keep P (delete_return r st op args pending recreate ex err inh rt) (fun _ => True).
Proof.
  assert (keep P (p ← failed_op args r op (default (Sentinel "") err) rt; mret (ex ++ [p.1], p.2)) (fun _ => True)) as Hfail.
  { eapply keep_bind; [eapply keep_failed_op; [exact Hat|by apply Hargs]|]. intros p _. leaf. }
  destruct (negb pending && (a_isDerived args && negb recreate)) eqn:E; unfold delete_return.
  - destruct inh as [e|]; [apply (keep_loses _ _ _ (fun _ => True)); kauto|].
    destruct err as [e|]; [by apply (keep_loses _ _ _ (fun _ => True))|].
    apply (loses_bind _ _ _ _ (fun _ => True)); [leaf|]. intros [] _. rewrite E, Hk.
    unfold loses. eapply ht_bind; [apply keep_xDeleteNode|]. intros a. by apply ht_ret.
  - destruct inh as [e|]; [kauto|]. destruct err as [e|]; [exact Hfail|]. rewrite E. kauto.
Qed.

(** [P] stays, or all but the own node. *)
Definition result {A} (c : bool) (m : E A) : Prop := if c then loses P k m else keep P m (fun _ => True).

Lemma result_bind {A B} c (m : E A) (f : A -> E B) Q :
  keep P m Q -> (forall a, Q a -> result c (f a)) -> result c (m ≫= f).
Proof. destruct c; [apply loses_bind|apply keep_bind]. Qed.

Lemma result_loses {A} c (m : E A) : result c m -> loses P k m.
Proof. destruct c; [done|]. apply keep_loses. Qed.

Lemma result_rnode {B} c (f : node -> E B) : (forall n, node_facts k true b n -> result c (f n)) -> result c (rnode r ≫= f).
Proof. intros Hf. eapply result_bind; [eapply keep_rnode; exact Hat|]. exact Hf. Qed.

Lemma ht_applyDelete op pending recreate :
  result (negb (b && negb (negb pending && (a_isDerived args && negb recreate)))) (applyDelete rec r op args pending recreate).
Proof.
  set (c := negb pending && (a_isDerived args && negb recreate)). unfold applyDelete. apply result_rnode. intros n Hn.
  destruct (n_value n) as [v|] eqn:Ev.
  2: { destruct b; [by destruct (nf_value _ _ _ _ Hn eq_refl) as [? ?]; congruence|]. cbn [negb andb]. unfold result, loses.
       rewrite Hk. eapply ht_bind; [apply keep_xDeleteNode|]. intros a. by apply ht_ret. }
  match goal with |- result _ ?m => assert (result c m) as Hm end.
  2: { destruct b; cbn [andb negb]; [by rewrite negb_involutive|]. by eapply (result_loses c). }
  cbv zeta. assert (forall o ex err inh rt, result c (delete_return r (getNodeState (Some n)) o args pending recreate ex err inh rt)) as Hret
    by (intros; apply ht_delete_return).
  destruct (negb (isNodeAvailable _)); [apply Hret|].
  apply (result_bind _ _ _ (fun _ => True)); [leaf|]. intros [] _.
  apply (result_bind _ _ _ (fun _ => True)); [kauto|]. intros [] _.
  apply (result_bind _ _ _ (fun _ => True)).
  { destruct (a_isDerived args); [leaf|]. eapply rnode_bind; [exact Hat|]. intros n' Hn'.
    eapply (node_read _ _ _ _ _ _ (Forall (node_in (core_in U))));
      [intros g Hg Hl; by apply (returns_getDerivedNodes U SEL g Hg k r)|].
    intros ds Hds. apply keep_applyDerived; [done| |done].
    intros kv (d & -> & Hd)%list_elem_of_fmap. rewrite Forall_forall in Hds.
    split; [by apply (node_in_kv U d), Hds|apply HU]. }
  intros [executed [e|]] _; [apply Hret|].
  apply (result_bind _ _ _ (fun _ => True)); [by eapply keep_runDepUpdates|]. intros dep _.
  destruct dep.2; [apply Hret|].
  apply (result_bind _ _ _ (fun _ => True)); [by eapply keep_execute_delete|]. intros x _. apply Hret.
Qed.

(** *** New relations *)

Lemma dkey_app (l1 l2 : list RelationTargetDef) : tds_ok (u_key U) SEL (l1 ++ l2) -> tds_ok (u_key U) SEL l1.
Proof.
  intros [H1 H2]. rewrite fmap_app in H1. apply NoDup_app in H1 as [H1 _]. apply Forall_app in H2 as [H2 _]. by split.
Qed.

Lemma targets_ok h key v (c : bool) : handler_ok h -> kv_in U key v ->
  tds_ok (u_key U) SEL (constructTargets (dependencies h key v) (if c then [] else derivedValues h key v)).
Proof.
  intros Hh Hkv. destruct h as [d|]; [|by destruct c; split; constructor].
  pose proof (do_targets d (Hh d eq_refl) key v Hkv) as H. destruct c; [|done].
  unfold constructTargets in *. rewrite app_nil_r. by eapply dkey_app.
Qed.

Lemma keep_SetTargets tds : tds_ok (u_key U) SEL tds -> keep P (in_rw (SetTargets r tds)) (fun _ => True).
Proof. intros H. apply keep_in_rw. by eapply (gtr_SetTargets U SEL HU). Qed.

Lemma keep_applyNewRelations h v c : handler_ok h -> (forall v', v = Some v' -> u_vals U v) ->
  keep P (applyNewRelations rec r h v c args) (fun res => derives_in U res.1).
Proof.
  intros Hh Hv. assert (forall key v, kv_in U key v -> derives_in U (derivedValues h key v)) as Hder.
  { intros key v' Hkv. apply derivedValues_in; [|done]. intros d Hd. by apply (do_derives d), Hh. }
  unfold applyNewRelations. destruct (_ && _); [apply keep_ret; by intros ? ?%not_elem_of_nil|].
  eapply keep_bind; [leaf|]. intros n Hn. cbv zeta. pose proof (nf_kv _ _ _ _ Hn) as Hkv. rewrite (nf_key _ _ _ _ Hn).
  set (prev := match v with Some _ => _ | None => _ end).
  set (derived := if a_isDerived args then _ else _).
  assert (derives_in U derived) as Hd.
  { subst derived. destruct (a_isDerived args); [by intros ? ?%not_elem_of_nil|by apply Hder]. }
  apply (keep_bind _ _ _ (fun _ => True)); [apply keep_whenM; intros _; by apply keep_SetTargets, targets_ok|]. intros [] _.
  destruct (_ && _); [|by apply keep_ret]. eapply keep_bind; [|intros res _; by apply keep_ret].
  apply keep_applyDerived; [done| |done]. intros kv (key & -> & Hkey)%list_elem_of_fmap. split; [|apply HU]. cbn [kv_key mk_derived].
  assert (exists l, prev = kv_keys l /\ derives_in U l) as (l & E & Hl).
  { subst prev. destruct v as [v|]; [destruct (a_isDerived args)|]; (eexists; split; [done|]);
      first [by intros ? ?%not_elem_of_nil|apply Hder; split; [by apply Hkv|by eapply Hv]]. }
  rewrite E in Hkey. destruct (kv_keys_spec l) as (W1 & S1 & K1). destruct (kv_keys_spec derived) as (W2 & _ & _).
  destruct (ks_Subtract_spec (kv_keys l) (kv_keys derived) W1 W2 S1) as (W & He & _).
  apply elem_of_ks_Iterate in Hkey; [|done]. rewrite He in Hkey. apply elem_of_difference in Hkey as [Hkey _].
  destruct (K1 key Hkey) as (kv & Hin & <-). by apply Hl.
Qed.

(** *** Create and update *)

Lemma derived_kvs_ok ds : derives_in U ds -> kvs_in U (derived_kvs args ds).
Proof. intros H kv (d & -> & Hd)%list_elem_of_fmap. by apply H. Qed.

Lemma keep_create_finish op ex ds : derives_in U ds -> keep P (create_finish rec r op args ex ds) (fun _ => True).
Proof.
  intros Hds. unfold create_finish.
  apply (keep_bind _ _ _ (fun _ => True)); [leaf|]. intros [] _.
  apply (keep_bind _ _ _ (fun _ => True)); [leaf|]. intros [] _. cbv zeta.
  eapply keep_bind; [by eapply keep_runDepUpdates|]. intros dep _. destruct dep.2; [leaf|].
  destruct (a_isDerived args); [leaf|].
  eapply keep_bind; [apply keep_applyDerived; [done|by apply derived_kvs_ok|done]|]. intros der _. leaf.
Qed.

(** Ask whether the own node is ready. *)
Lemma ready_read {B} (h : bool -> E B) (R : B -> Prop) : (forall ready, keep P (h ready) R) ->
  keep P (n ← rnode r; ready ← in_graph (fun g => isNodeReady g n); h ready) R.
Proof.
  intros Hh. eapply rnode_bind; [exact Hat|]. intros n Hn.
  eapply (node_read _ _ _ _ _ _ (fun _ => True)); [intros g Hg Hl; by eapply (returns_isNodeReady U SEL g Hg)|].
  intros ready _. apply Hh.
Qed.

Lemma keep_create_known op d : handler_ok d -> keep P (create_known rec r op args d) (fun _ => True).
Proof.
  intros Hd. unfold create_known. cbv zeta.
  eapply keep_bind; [by apply keep_applyNewRelations|]. intros [ds [ex [e|]]] Hds; [leaf|]. cbn [fst] in Hds.
  apply ready_read. intros ready. destruct (negb ready); [kauto|].
  eapply keep_bind; [by eapply keep_execute_create|]. intros [[e rt]|] _; [|by apply keep_create_finish].
  eapply keep_bind; [eapply keep_failed_op; [exact Hat|by apply Hargs]|]. intros p _. leaf.
Qed.

Lemma keep_update_finish op c ex ds : derives_in U ds -> keep P (update_finish rec r op args c ex ds) (fun _ => True).
Proof.
  intros Hds. unfold update_finish.
  apply (keep_bind _ _ _ (fun _ => True)); [leaf|]. intros [] _.
  apply (keep_bind _ _ _ (fun _ => True)); [leaf|]. intros [] _. cbv zeta.
  destruct (a_isDerived args); [leaf|].
  eapply keep_bind; [apply keep_applyDerived; [done|by apply derived_kvs_ok|done]|]. intros der _. leaf.
Qed.

(** The rest of [applyCreate], once the value is set. *)
Lemma keep_create_rest d :
  keep P (match d with
    | Some d' => in_rw (SetFlags r [DescriptorFlag (d_Name d')]) ;; in_rw (SetLabel r (keyLabel d (kv_key (a_kv args))))
    | None => skip end) (fun _ => True).
Proof. destruct d as [d|]; kauto. Qed.
End own.

Section own2.
Context (P : pins) (k : string) (r : nat) (HP : on_branch P) (Hk_bs : k ∈ ks_elems bs).

Lemma on_branch_pin x : on_branch (pin k x P).
Proof. unfold on_branch, pin. cbn [p_nodes]. rewrite dom_insert_L. set_solver +HP Hk_bs. Qed.

Lemma at_pin a b : at_ (pin k (r, a, b) P) k r a b.
Proof. apply lookup_insert_eq. Qed.

Lemma pin_pin x y : pin k x (pin k y P) = pin k x P.
Proof. unfold pin. cbn [p_nodes p_refs]. by rewrite insert_insert_eq. Qed.

Lemma ht_SetValue a b v : u_vals U v ->
  ht (pinned (pin k (r, a, b) P)) (in_rw (SetValue r v)) (fun _ g => pinned (pin k (r, a, bool_decide (is_Some v)) P) g).
Proof.
  intros Hv. eapply ht_conseq; [apply ht_in_rw; eapply (gtr_SetValue U SEL HU _ k r a b v); [apply at_pin|done]|done|].
  cbn beta. intros [] g _ [H _]. by rewrite pin_pin in H.
Qed.

(** The pins of all other nodes stay. *)
Definition others {A} (x : nat * bool * bool) (m : E A) : Prop :=
  ht (pinned (pin k x P)) m (fun _ g => pinned (unpin k P) g).

Lemma others_keep {A} x (m : E A) Q : keep (pin k x P) m Q -> others x m.
Proof. intros H. apply loses_pin. by eapply keep_loses. Qed.
Lemma others_loses {A} x (m : E A) : loses (pin k x P) k m -> others x m.
Proof. apply loses_pin. Qed.
Lemma others_bind {A B} x (m : E A) (f : A -> E B) Q : keep (pin k x P) m Q -> (forall a, Q a -> others x (f a)) -> others x (m ≫= f).
Proof. intros Hm Hf. by eapply keep_ht. Qed.
Lemma others_ret {A} x (a : A) : others x (mret a).
Proof. by apply (others_keep _ _ (fun _ => True)), keep_ret. Qed.

Lemma others_SetValue {B} a b v (f : unit -> E B) : u_vals U v -> others (r, a, bool_decide (is_Some v)) (f tt) ->
  others (r, a, b) (in_rw (SetValue r v) ≫= f).
Proof. intros Hv Hf. eapply ht_bind; [by apply ht_SetValue|]. intros []. exact Hf. Qed.

Lemma others_applyCreate args op b : args_ok args -> kv_key (a_kv args) = k ->
  kv_in U (kv_key (a_kv args)) (kv_value (a_kv args)) -> others (r, true, b) (applyCreate rec r op args).
Proof.
  intros Hargs Hk Hkv. unfold applyCreate. cbv zeta. apply others_SetValue; [apply Hkv|]. set (b' := bool_decide _).
  pose proof (at_pin true b') as Hat. pose proof (on_branch_pin (r, true, b')) as HP'.
  eapply others_bind; [leaf|]. intros d Hd.
  eapply others_bind; [by eapply (keep_create_rest (pin k (r, true, b') P) k r b')|]. intros [] _.
  eapply others_bind; [leaf|]. intros n Hn. apply (others_keep _ _ (fun _ => True)).
  destruct (_ && _); [destruct (decide _); kauto|].
  apply (keep_bind _ _ _ (fun _ => True)); [kauto|]. intros [] _.
  lazymatch goal with |- keep _ (match ?e with _ => _ end) _ => destruct e end;
    [by eapply keep_invalid_op|by eapply keep_create_known].
Qed.

Context (args : applyValueArgs) (Hargs : args_ok args) (Hk : kv_key (a_kv args) = k).
Context (Hkv : kv_in U (kv_key (a_kv args)) (kv_value (a_kv args))).

Lemma ht_xSetNode a b : ht (pinned (pin k (r, a, b) P)) (xSetNode k) (fun r' g => pinned (pin k (r, a, b) P) g /\ r' = r).
Proof.
  intros x Hx HPx. assert (u_key U k) as Hkey by (destruct Hkv as [H _]; rewrite Hk in H; exact H).
  destruct (gtr_SetNode U SEL HU (pin k (r, a, b) P) k Hkey _ (eo_graph _ Hx) HPx) as (r' & g' & E & Hg' & HP' & _ & Hr).
  exists r', (xset_rw (rwset_graph g' (x_rw x)) x). split; [unfold xSetNode, in_rw, zoom; by rewrite E|].
  split; [by split; [|apply Hx]|]. split; [done|]. symmetry. eapply Hr. apply at_pin.
Qed.

Lemma others_update_recreate : others (r, true, true) (update_recreate rec r args).
Proof.
  unfold update_recreate. pose proof (at_pin true true) as Hat. pose proof (on_branch_pin (r, true, true)) as HP'.
  eapply rnode_bind; [exact Hat|]. intros n Hn.
  eapply (node_read _ _ _ _ _ _ (fun _ => True)); [intros g Hg Hl; by eapply (returns_getDerivedKeys U SEL g Hg)|].
  intros ks _. cbv zeta. set (args' := aset_recreating _ args). assert (args_ok args') as Hargs' by (by destruct Hargs).
  eapply others_bind; [leaf|]. intros op _.
  eapply (others_bind _ _ _ (fun _ => True)).
  { pose proof (ht_applyDelete (pin k (r, true, true) P) k r true HP' Hat args' Hargs' Hk
      (opset_newValue None (opset_operation TxnOperation_DELETE op)) false true) as H.
    cbn [negb andb] in H. rewrite andb_false_r in H. exact H. }
  intros del _. destruct del.2; [apply others_ret|].
  change (kv_key (a_kv args')) with (kv_key (a_kv args)). rewrite Hk. eapply ht_bind; [apply ht_xSetNode|]. intros r'. cbn beta. apply ht_and. intros ->.
  eapply others_bind; [leaf|]. intros n' _. eapply others_bind; [leaf|]. intros op' _.
  eapply ht_bind; [by apply (others_applyCreate args')|]. intros cr. by apply ht_ret.
Qed.

Lemma others_update_in_place op d (equivalent : bool) : handler_ok d ->
  (equivalent = false -> kv_origin (a_kv args) <> FromSB -> forall d', d = Some d' -> d_Update d' <> None) ->
  others (r, true, true) (update_in_place rec r op args d equivalent).
Proof.
  intros Hd Hup. unfold update_in_place. cbv zeta. eapply others_bind; [eapply keep_rnode, at_pin|]. intros n Hn.
  destruct (nf_value _ _ _ _ Hn eq_refl) as [pv Epv]. pose proof (nf_kv _ _ _ _ Hn) as [_ Hpv].
  apply others_SetValue; [apply Hkv|]. set (b' := bool_decide _).
  pose proof (at_pin true b') as Hat. pose proof (on_branch_pin (r, true, b')) as HP'.
  eapply others_bind; [by eapply (keep_applyNewRelations (pin k (r, true, b') P))|]. intros [ds [ex inh]] Hds. cbn [fst] in Hds.
  assert (bool_decide (is_Some (n_value n)) = true) as Ebv by (rewrite Epv; by apply bool_decide_eq_true).
  destruct inh as [e|].
  { apply others_SetValue; [done|]. apply others_ret. }
  assert (forall ready : bool, others (r, true, b')
    (if negb ready then in_rw (SetValue r (n_value n)) ;; del ← applyDelete rec r op args true false;
        in_rw (SetValue r (kv_value (a_kv args))) ;; mret (ex ++ del.1, del.2)
     else failure ← (if negb (a_dryRun args) && negb equivalent then execute_update r d (n_value n) args else mret None);
        match failure with
        | Some (e, retriableErr) => p ← failed_op args r op e retriableErr; mret (ex ++ [p.1], p.2)
        | None => update_finish rec r op args equivalent ex ds
        end)) as Hrest.
  { intros ready. destruct (negb ready).
    - apply others_SetValue; [done|]. rewrite Ebv. eapply (others_bind _ _ _ (fun _ => True)).
      { pose proof (ht_applyDelete (pin k (r, true, true) P) k r true (on_branch_pin _) (at_pin true true) args Hargs Hk
          op true false) as H. cbn [negb andb] in H. exact H. }
      intros del _. apply others_SetValue; [apply Hkv|]. apply others_ret.
    - apply (others_keep _ _ (fun _ => True)). eapply (keep_bind _ _ _ (fun _ => True)).
      { destruct equivalent; [rewrite andb_false_r; leaf|]. destruct (negb (a_dryRun args)); cbn [andb negb]; [|leaf].
        eapply keep_execute_update; [exact Hat|]. by apply Hup. }
      intros [[e rt]|] _; [|by eapply keep_update_finish].
      eapply keep_bind; [eapply keep_failed_op; [exact Hat|by apply Hargs]|]. intros p _. leaf. }
  eapply rnode_bind; [exact Hat|]. intros n' Hn'. destruct equivalent.
  - apply ht_drop. eapply ht_bind; [by apply (reads_ret true (fun ready => ready = true))|].
    intros ready. cbn beta. apply ht_and. intros _. apply Hrest.
  - eapply (node_read _ _ _ _ _ _ (fun _ => True)); [intros g Hg Hl; by eapply (returns_isNodeReady U SEL g Hg)|].
    intros ready _. apply Hrest.
Qed.

Lemma others_applyUpdate op : others (r, true, true) (applyUpdate rec r op args).
Proof.
  unfold applyUpdate. cbv zeta. pose proof (at_pin true true) as Hat.
  eapply others_bind; [leaf|]. intros d Hd. eapply others_bind; [leaf|]. intros n Hn.
  lazymatch goal with |- others _ (match ?e with _ => _ end) => destruct e end.
  { apply others_SetValue; [apply Hkv|]. apply (others_keep _ _ (fun _ => True)). eapply keep_invalid_op, at_pin. }
  lazymatch goal with |- others _ (if ?c then _ else _) => destruct c eqn:E end; [apply others_update_recreate|].
  apply others_update_in_place; [done|]. intros Heq Hor d' ->. rewrite Heq in E. cbn [negb andb] in E.
  rewrite bool_decide_eq_false_2 in E by done. cbn [negb andb] in E. unfold updateWithRecreate, newDescriptorHandler in E.
  by destruct (d_Update d').
Qed.

Lemma others_run_operation op b : (op_Operation op = TxnOperation_UPDATE -> b = true) ->
  others (r, true, b) (run_operation rec r op args).
Proof.
  intros Hb. unfold run_operation. destruct (op_Operation op); try apply others_ret.
  - by apply others_applyCreate.
  - rewrite Hb by done. apply others_applyUpdate.
  - apply others_loses. eapply result_loses, ht_applyDelete; [apply on_branch_pin|apply at_pin|done|done].
Qed.

Lemma ht_detect_changes (Q : graphR -> Prop) u v : ht Q (detect_changes args u v) (fun _ g => Q g).
Proof.
  unfold detect_changes. destruct (a_dryRun args); [by apply ht_ret|].
  apply (ht_bind _ _ _ (fun n g => Q g /\ forall m, n = Some m -> is_live g m)).
  { intros x Hx HQ. apply total_gets. split; [done|]. split; [done|]. intros m Hm. unfold lookup_node in Hm.
    apply bind_Some in Hm as (r0 & H1 & H2). by exists (kv_key (a_kv args)), r0. }
  intros n. apply (ht_bind _ _ _ (fun _ g => Q g)).
  - destruct u; [|apply ht_ret; by intros g [? _]]. unfold view_changed. destruct (_ || _); [apply ht_ret; by intros g [? _]|].
    eapply ht_bind; [apply (ht_in_graph _ _ (fun _ => True)); intros g Hg [_ Hn]; apply (returns_getValueDetails U SEL g Hg); exact Hn|].
    intros d. apply ht_ret. by intros g [[? _] _].
  - intros changed. destruct changed; [|by apply ht_ret]. eapply ht_conseq; [apply (reads_add_updated _ Q)|done|by intros ? g _ [? _]].
Qed.

Lemma others_apply_operation op v pv b : (op_Operation op = TxnOperation_UPDATE -> b = true) ->
  others (r, false, b) (apply_operation rec r op args v pv).
Proof.
  intros Hb. unfold apply_operation. eapply others_bind; [eapply keep_rnode, at_pin|]. intros n _. cbv zeta.
  eapply others_bind; [apply reads_keep, reads_new_last_update; [apply Hargs|apply Hkv]|]. intros u Hu. cbn beta in Hu.
  eapply ht_bind; [apply ht_in_rw; eapply (gtr_SetLastUpdate U SEL HU _ k r false b u); [apply at_pin|done]|].
  intros []. cbn beta. apply ht_and. intros _. rewrite pin_pin. destruct (already_broken _ _ _).
  { eapply others_bind; [eapply keep_rnode, at_pin|]. intros n' _. apply others_ret. }
  eapply ht_bind; [by apply others_run_operation|]. intros res. cbn beta.
  eapply ht_bind; [apply ht_detect_changes|]. intros []. by apply ht_ret.
Qed.

Lemma others_undefined {A} x (c : bool) (a : A) : others x (whenM c (xDeleteNode k) ;; mret a).
Proof.
  unfold others. destruct c; cbn [whenM].
  - eapply ht_bind; [apply keep_xDeleteNode|]. intros []. apply ht_ret. intros g Hg.
    unfold unpin, pin in *. cbn [p_nodes p_refs] in *. by rewrite delete_insert_eq in Hg.
  - apply (others_bind _ _ _ (fun _ => True)); [apply keep_skip|]. intros [] _. apply others_ret.
Qed.

(** [applyValue_body] once the node is there. *)
Lemma others_body_rest : ht (pinned (pin k (r, false, false) P))
    (n ← rnode r;
     let prevValue := MkKeyValuePair (n_key n) (n_value n) in
     prev ← value_view (Some n);
     txnOp ← preRecordTxnOp args n;
     if a_isDepUpdate args then
       op ← determineDepUpdateOperation n;
       if decide (op = TxnOperation_UNDEFINED) then
         whenM (bool_decide (n_value n = None)) (xDeleteNode (kv_key (a_kv args))) ;;
         mret ([], prevValue, None)
       else apply_operation rec r (opset_operation op txnOp) args prev prevValue
     else apply_operation rec r (opset_operation (value_operation (a_kv args) n) txnOp) args prev prevValue)
    (fun _ g => pinned (unpin k P) g).
Proof.
  eapply rnode_bind; [apply at_pin|]. intros n Hn. cbv zeta. set (b := bool_decide (is_Some (n_value n))).
  eapply (ht_conseq _ _ (fun g => pinned (pin k (r, false, b) P) g /\ live g k r n)); [|intros g _ [HPg Hl]; split; [|done]|by intros a g _ H; exact H].
  2: { rewrite <- (pin_pin (r, false, b) (r, false, false)). apply pinned_pin; [done|]. exists n. split; [done|].
       split; [done|]. intros Hb. by apply bool_decide_eq_true in Hb. }
  apply view_read. intros v. eapply reads_bind; [apply reads_preRecordTxnOp|]. intros op _.
  destruct (a_isDepUpdate args).
  - apply determine_read. intros o Ho. destruct (decide _); [rewrite Hk; apply others_undefined|].
    apply others_apply_operation. by intros E.
  - apply ht_drop. apply others_apply_operation. cbn [op_Operation opset_operation]. unfold value_operation, b.
    destruct (kv_value (a_kv args)); [|done]. destruct (n_value n); [|done]. intros _. by apply bool_decide_eq_true.
Qed.
End own2.

Lemma keep_applyValue_body P args : kv_key (a_kv args) ∉ dom (p_nodes P) -> on_branch P -> args_ok args ->
  kv_in U (kv_key (a_kv args)) (kv_value (a_kv args)) -> kv_key (a_kv args) ∈ ks_elems bs ->
  keep P (applyValue_body rec args) (fun _ => True).
Proof.
  intros Hn HP Hargs Hkv Hbs. unfold applyValue_body. cbv zeta.
  eapply (ht_bind _ _ _ (fun r g => pinned (pin (kv_key (a_kv args)) (r, false, false) P) g)).
  - intros x Hx HPx.
    destruct (gtr_SetNode U SEL HU P _ (proj1 Hkv) _ (eo_graph _ Hx) HPx) as (r' & g' & E & Hg' & HP' & Hnode & _).
    exists r', (xset_rw (rwset_graph g' (x_rw x)) x). split; [unfold xSetNode, in_rw, zoom; by rewrite E|].
    split; [by split; [|apply Hx]|]. by apply pinned_pin.
  - intros r. eapply ht_conseq; [by apply (others_body_rest P (kv_key (a_kv args)) r HP Hbs args)|done|].
    cbn beta. intros res g _ Hg. split; [|done]. unfold unpin in Hg. rewrite delete_id in Hg; [by destruct P|].
    by apply not_elem_of_dom.
Qed.
End rec.

(** The fuel only has to exceed the number of keys that are not on the branch. *)
Lemma keep_applyValue fuel : forall P args,
  kv_in U (kv_key (a_kv args)) (kv_value (a_kv args)) -> a_txn args = T ->
  ks_wf (a_branch args) -> ~ is_singleton (a_branch args) -> dom (p_nodes P) ⊆ ks_elems (a_branch args) ->
  size (u_keys U ∖ ks_elems (a_branch args)) < fuel ->
  keep P (applyValue fuel args) (fun _ => True).
Proof.
  induction fuel as [|fuel IH]; intros P args Hkv Ht Hwf Hs HP Hf; [lia|]. cbn [applyValue].
  destruct (ks_Has (a_branch args) (kv_key (a_kv args))) eqn:E; [by apply keep_ret|].
  rewrite ks_Has_exact, bool_decide_eq_false in E by done.
  destruct (ks_Add_exact (a_branch args) (kv_key (a_kv args)) Hwf Hs) as (Hwf' & Hs' & He & _).
  set (bs := (ks_Add (a_branch args) (kv_key (a_kv args))).1) in *.
  apply (keep_applyValue_body bs).
  - intros P' args' HP' Hkv' Hb' Ht'. apply IH; rewrite ?Hb'; try done. rewrite He.
    assert (size (u_keys U ∖ ({[kv_key (a_kv args)]} ∪ ks_elems (a_branch args)))
      < size (u_keys U ∖ ks_elems (a_branch args))); [|lia].
    apply subset_size. destruct Hkv as [Hk _]. set_solver +Hk E.
  - intros H. by apply E, HP.
  - unfold on_branch. rewrite He. set_solver +HP.
  - by split.
  - done.
  - cbn [kv_key a_kv aset_branch]. rewrite He. set_solver +.
Qed.

Definition no_pins : pins := MkPins ∅ ∅.

Lemma keep_exec_values fuel dryRun isRetry : best_effort T -> size (u_keys U) < fuel -> forall values applied executed prevValues,
  kvs_in U values ->
  keep no_pins (exec_values fuel T dryRun isRetry values applied executed prevValues) (fun res => res.1.2 = false).
Proof.
  intros Hbe Hf. induction values as [|kv values IH]; intros applied executed prevValues Hkvs; cbn [exec_values]; [by apply keep_ret|].
  eapply keep_bind.
  { apply (keep_applyValue fuel no_pins);
      [apply Hkvs; set_solver +|done|apply NewMapBasedKeySet_spec|by intros []|by intros q []%elem_of_dom|].
    eapply Nat.le_lt_trans; [|exact Hf]. apply subseteq_size. set_solver +. }
  intros [[ops prev] err] _. apply (keep_bind _ _ _ (fun c => c = false)).
  - destruct err; [|by apply keep_ret]. destruct (isNBTxn T) eqn:E; [|by apply keep_ret].
    eapply keep_bind; [by apply reads_keep, reads_the_nb|]. intros nb Hnb. apply keep_ret. by eapply Hbe.
  - intros c ->. apply IH. intros kv' H. apply Hkvs. set_solver +H.
Qed.

Lemma keep_executeTransaction fuel dryRun : best_effort T -> size (u_keys U) < fuel -> kvs_in U (txn_values T) ->
  keep no_pins (executeTransaction fuel T dryRun) (fun _ => True).
Proof.
  intros Hbe Hf Hkvs. unfold executeTransaction. eapply keep_bind; [by apply keep_exec_values|].
  intros [[[ops prev] revert] applied] Hr. cbn [fst snd] in Hr. subst revert.
  eapply (keep_bind _ _ _ (fun _ => True)); [by apply keep_ret|]. intros ops' _. by apply keep_ret.
Qed.
End txn_total.

(** ** Transactions return *)

(** C1: executing, or simulating, a transaction in the best-effort mode always
    returns.  Nothing is dereferenced that is nil, whatever the descriptors
    answer - errors included - and however values derive from and depend on each
    other; and the graph is consistent again: its targets and sources are those
    of the definitions it carries.  The descriptors do not select the same keys,
    derive only finitely many keys, and give every dependency of a value a label
    of its own and prefixes that end with the separator. *)
Theorem transaction_returns {X : Ext} {MO : MapOrder} (U : universe) (SEL : string * string -> bool)
    (fuel : nat) (txn : transaction) (dryRun : bool) (x : ExecSt) :
  universe_ok U -> exec_ok U SEL x -> txn_wf txn -> best_effort txn -> kvs_in U (txn_values txn) ->
  size (u_keys U) < fuel ->
  exists ops x', executeTransaction fuel txn dryRun x = Ok (ops, x') /\ exec_ok U SEL x'
    /\ exists D, represents D (cur_graph x').
Proof.
  intros HU Hx HT Hbe Hkvs Hf.
  destruct (keep_executeTransaction U SEL HU txn HT fuel dryRun Hbe Hf Hkvs x Hx) as (ops & x' & E & Hx' & _).
  { by split. }
  exists ops, x'. split; [exact E|]. split; [exact Hx'|].
  destruct Hx' as [[[D Hi] _] _]. exists D. apply (cinv_represents _ _ _ _ Hi), (uo_keys U HU).
Qed.

(** ** The demonstration *)

Definition demo_sel (rl : string * string) : bool := false.

Lemma demo_u_keys k : u_key demo_universe k ->
  k = "if/eth0" \/ k = "addr/if/eth0" \/ k = "route/1" \/ k = "peer/1".
Proof. unfold u_key, demo_universe. cbn [u_keys]. rewrite !elem_of_union, !elem_of_singleton. tauto. Qed.

Lemma demo_universe_ok : universe_ok demo_universe.
Proof.
  split; [|exact I]. intros k Hk%demo_u_keys.
  destruct Hk as [->|[->|[->| ->]]]; by vm_compute.
Qed.

(** A single target with a trimmed key, or with a directory as prefix. *)
Lemma key_target_ok relation label key : key <> "" -> trimTrailingDirSep key = key ->
  tds_ok (u_key demo_universe) demo_sel [MkTargetDef relation label key (MkTargetSelector [] None)].
Proof.
  intros H1 H2. split; [apply NoDup_singleton|]. apply Forall_singleton. by split.
Qed.

Lemma demo_targets_ok d : d = demo_iface \/ d = demo_route \/ d = demo_peer -> desc_in demo_universe d ->
  desc_ok demo_universe demo_sel d.
Proof.
  intros Hd Hin. split; [done|]. intros k v [Hk%demo_u_keys _].
  destruct Hd as [->|[->| ->]]; cbn [dependencies derivedValues d_Dependencies d_DerivedValues demo_iface demo_route demo_peer demo_desc].
  - unfold iface_derives. destruct v as [[|v]|]; [by split; constructor| |by split; constructor].
    destruct Hk as [->|[->|[->| ->]]]; try (by split; constructor). by apply key_target_ok.
  - by apply key_target_ok.
  - split; [apply NoDup_singleton|]. apply Forall_singleton. split; try done.
    apply Forall_singleton. exists "route". split; [done|]. split; [done|]. split; [done|].
    intros H%demo_u_keys. destruct H as [?|[?|[?|?]]]; congruence.
Qed.

Lemma demo_exec_ok : exec_ok demo_universe demo_sel (demo_exec demo_sched).
Proof.
  pose proof demo_st_in as [Hg [Hd Hc _ _] _]. split.
  - split; [|exact Hg]. exists ∅. eapply (same_inv _ _ _ _ _ _ _ newGraphR); [done|apply cinv_empty].
  - split.
    + by apply reg_reachable_inv, demo_sched_reachable.
    + by apply reg_reachable_inv, demo_sched_reachable.
    + intros n d Hn. apply demo_targets_ok; [|by eapply Hd]. revert Hn.
      change (reg_descriptors (x_registry (demo_exec demo_sched)))
        with (<["peer" := demo_peer]> (<["route" := demo_route]> {["iface" := demo_iface]}) : gmap string KVDescriptor).
      rewrite !lookup_insert_Some, lookup_singleton_Some. intuition congruence.
Qed.

Lemma transaction_returns_witness :
  let txn := demo_txn demo_nb [("peer/1", Some 2); ("route/1", Some 1); ("if/eth0", Some 4)] in
  exists ops x', executeTransaction 5 txn false (demo_exec demo_sched) = Ok (ops, x')
    /\ exec_ok demo_universe demo_sel x' /\ exists D, represents D (cur_graph x').
Proof.
  intros txn. apply (transaction_returns demo_universe demo_sel 5 txn false (demo_exec demo_sched)).
  - exact demo_universe_ok.
  - exact demo_exec_ok.
  - split; [by intros _; exists demo_nb|done].
  - intros _ nb [= <-]. reflexivity.
  - intros kv Hkv. cbn in Hkv. rewrite !elem_of_cons in Hkv.
    destruct Hkv as [->|[->|[->|[]%elem_of_nil]]]; (split; [cbn; set_solver +|exact I]).
  - vm_compute. lia.
Defined.
