(* ===== verification/NetallocDescr.v ===== *)
(** * The descriptor of allocations in the scheduler

    What the scheduler relies on holds for the descriptor of allocations, and a
    transaction runs it: the index of metadata that the plugin reads is filled by
    the scheduler. *)
From S2P Require Import Prelude KeySet Monad Api Registry Flags EdgeLookup Graph GraphRW.
From S2P Require Import NodeUtils Descriptor TxnOps ExecState Refresh TxnExec GraphSafe Termination.
From S2P Require Import GraphInv GraphTargets GraphOps GraphConsistent GraphSpec TxnTotal.
From S2P Require Import Scheduler TxnProcess Plugin Demo.
From S2P Require Import GoStrings GoNet GoNetFacts NetallocProto Models Adapter Netalloc NetallocFacts.

Section contract.
Context {X : Ext} {MO : MapOrder} {NT : NetallocTypes} {NL : NetallocLaws}.

#[local] Instance alloc_value_laws : ValueLaws IPAllocation_value.
Proof. split; [exact as_of_alloc|]. intros m v H. symmetry. by apply of_as_alloc. Qed.
#[local] Instance alloc_metadata_laws : MetadataLaws IPAllocation_metadata.
Proof. intros key md. unfold castMetadata. cbn. by rewrite as_of_meta. Qed.

Definition alloc_value (a : IPAllocation) : option Value := Some (of_IPAllocation a).

Lemma cast_alloc key a : castValue key (alloc_value a) = inl a.
Proof. apply (castValue_of (VL := alloc_value_laws)). Qed.

(** The derived values are those of the neighbour gateway. *)
Lemma alloc_derived key v kv :
  kv ∈ derivedValues (Some NewAddrAllocDescriptor) key v ->
  exists a, v = alloc_value a /\ kvp_Key kv = NeighGwKey (NetworkName a) (InterfaceName a)
    /\ kvp_Value kv = Some emptypb_Empty
    /\ derivedValues (Some NewAddrAllocDescriptor) key v = [kv].
Proof.
  cbn [derivedValues d_DerivedValues NewAddrAllocDescriptor NewDescriptor td_DerivedValues fmap option_fmap option_map].
  unfold ad_DerivedValues. destruct (castValue key v) as [a|err] eqn:E; [|by intros ?%elem_of_nil].
  apply (castValue_inl (VL := alloc_value_laws)) in E as ->. unfold alloc_DerivedValues.
  destruct (parseAddr a) as [[md []] err]; [|by intros ?%elem_of_nil].
  intros ->%list_elem_of_singleton. by exists a.
Qed.

(** The keys and values closed under the derivation of neighbours. *)
Definition closed_under_gw (U : universe) : Prop :=
  u_vals U (Some emptypb_Empty)
  /\ forall key a, kv_in U key (alloc_value a) -> u_key U (NeighGwKey (NetworkName a) (InterfaceName a)).

Lemma alloc_desc_ok U SEL : universe_ok U -> closed_under_gw U ->
  (forall key, SEL (DerivesRelation, key) = false) -> desc_ok U SEL NewAddrAllocDescriptor.
Proof.
  intros HU [Hv Hk] HS. split.
  - intros k v kv Hkv Hin. destruct (alloc_derived k v kv Hin) as (a & -> & Ek & Ev & _).
    rewrite Ek, Ev. split; [by apply (Hk k)|done].
  - intros k v Hkv.
    change (dependencies (Some NewAddrAllocDescriptor) k v) with (@nil Dependency).
    destruct (derivedValues (Some NewAddrAllocDescriptor) k v) as [|kv l] eqn:E; [by split; constructor|].
    assert (kv ∈ derivedValues (Some NewAddrAllocDescriptor) k v) as Hin by (rewrite E; left).
    destruct (alloc_derived k v kv Hin) as (a & -> & Ek & _ & E1). rewrite E in E1. injection E1 as ->.
    split; [apply NoDup_singleton|]. apply Forall_singleton.
    destruct (uo_keys U HU _ (Hk k a Hkv)) as [H1 H2]. rewrite <- Ek in H1, H2.
    split; [symmetry; apply HS|by intros _|by intros ?|by constructor].
Qed.

(** The metadata of an allocation that validates. *)
Definition alloc_metadata (a : IPAllocation) : option Metadata := Some (of_IPAllocMetadata (parseAddr a).1.1).

Lemma parseAddr_err a : (parseAddr a).2 = None -> exists md, (parseAddr a).1.1 = Some md.
Proof.
  unfold parseAddr. destruct (ParseIPAddr (Address a) None) as [[net b]|err]; [|done].
  destruct (is_empty (Gw a)); [by eexists|].
  destruct (ParseIPAddr (Gw a) (Some net)) as [[g neigh]|err]; [by eexists|done].
Qed.

(** A value with the metadata that [Create] returned for it. *)
Definition created_kv (key : string) (a : IPAllocation) (origin : ValueOrigin) : KVWithMetadata :=
  MkKVWithMetadata key (alloc_value a) (alloc_metadata a) origin.

Lemma typed_created key a o :
  typed_kv (created_kv key a o) = Some (MkTypedKV key a (parseAddr a).1.1 o).
Proof.
  unfold typed_kv, created_kv. cbn [kvm_Key kvm_Value kvm_Metadata kvm_Origin]. rewrite cast_alloc.
  unfold alloc_metadata. change (Some (of_IPAllocMetadata ?m)) with (of_metadata m). by rewrite cast_of_metadata.
Qed.

(** The allocations that validate, in order. *)
Definition valid_allocs (l : list (string * IPAllocation)) : list (string * IPAllocation) :=
  filter (fun p => alloc_Validate p.1 p.2 = None) l.

Lemma retrieve_created l o :
  omap retrieve_one (omap typed_kv (map (fun p => created_kv p.1 p.2 o) l))
  = map (fun p => MkTypedKV p.1 p.2 (parseAddr p.2).1.1 FromNB) (valid_allocs l).
Proof.
  induction l as [|[key a] l IH]; [done|]. cbn [map fst snd]. cbn [omap list_omap].
  rewrite typed_created. cbn [omap list_omap]. unfold retrieve_one at 1. cbn [tkv_Value tkv_Key].
  unfold valid_allocs, alloc_Validate in *. destruct (parseAddr a) as [[md neigh] [err|]] eqn:E.
  - rewrite filter_cons_False by (cbn; by rewrite E). exact IH.
  - rewrite filter_cons_True by (cbn; by rewrite E). cbn [map fst snd]. by rewrite E, <- IH.
Qed.

(** C26: What the scheduler relies on holds for the descriptor of allocations.
    An allocation that validates is created, with the parsed addresses as its
    metadata, and one that does not fails with the same error; no call changes
    the southbound plane; a change is always a re-creation, since there is no
    update, and a deletion succeeds.  Retrieving returns, of the values it is
    given to correlate, those that validate, with the metadata that creating
    them returned, so that a refresh of the graph changes nothing.  It derives
    admissible values only, so transactions with it return. *)
Theorem alloc_descriptor_contract (key : string) (a : IPAllocation) (w : World) :
  let h := Some NewAddrAllocDescriptor in
  (validate h key (alloc_value a) = None -> netns_escaped w = false ->
     create h key (alloc_value a) w = Ok ((alloc_metadata a, None), w)
     /\ exists md, alloc_metadata a = Some (of_IPAllocMetadata (Some md)))
  /\ (forall err, validate h key (alloc_value a) = Some err -> netns_escaped w = false ->
       exists md, create h key (alloc_value a) w = Ok ((md, Some err), w))
  /\ (netns_escaped w = false -> delete_ h key (alloc_value a) (alloc_metadata a) w = Ok (None, w))
  /\ (forall v1 v2 md, updateWithRecreate h key v1 v2 md = true)
  /\ (forall l o, netns_escaped w = false ->
       retrieve h (map (fun p => created_kv p.1 p.2 o) l) w
       = Ok ((map (fun p => created_kv p.1 p.2 FromNB) (valid_allocs l), true, None), w))
  /\ (forall U SEL, universe_ok U -> closed_under_gw U -> (forall k, SEL (DerivesRelation, k) = false) ->
       desc_ok U SEL NewAddrAllocDescriptor).
Proof.
  intros h.
  assert (validate h key (alloc_value a) = (parseAddr a).2) as Hval.
  { change (ad_Validate alloc_Validate key (alloc_value a) = (parseAddr a).2). unfold ad_Validate. by rewrite cast_alloc. }
  assert (netns_escaped w = false ->
    create h key (alloc_value a) w = Ok ((alloc_metadata a, (parseAddr a).2), w)) as Hcr.
  { intros Hns. unfold create, h.
    change (d_Create NewAddrAllocDescriptor) with (Some (ad_Create alloc_Create)). cbv beta iota.
    unfold ad_Create. rewrite cast_alloc. unfold alloc_Create, alloc_metadata.
    destruct (parseAddr a) as [[md neigh] err]. cbn [fst snd]. unfold after_netns, checkNetNs. by rewrite Hns. }
  rewrite Hval. split_and!.
  - intros Hv Hns. rewrite (Hcr Hns), Hv. split; [done|].
    destruct (parseAddr_err a Hv) as [md Hmd]. exists md. unfold alloc_metadata. by rewrite Hmd.
  - intros err Hv Hns. exists (alloc_metadata a). by rewrite (Hcr Hns), Hv.
  - intros Hns. unfold delete_, h.
    change (d_Delete NewAddrAllocDescriptor) with (Some (ad_Delete alloc_Delete)). cbv beta iota.
    unfold ad_Delete, alloc_metadata. rewrite cast_alloc.
    change (Some (of_IPAllocMetadata ?m)) with (of_metadata m). rewrite cast_of_metadata.
    unfold alloc_Delete, after_netns, checkNetNs. by rewrite Hns.
  - done.
  - intros l o Hns. unfold retrieve, h.
    change (d_Retrieve NewAddrAllocDescriptor) with (Some (ad_Retrieve alloc_Retrieve)). cbv beta iota.
    unfold ad_Retrieve, alloc_Retrieve. rewrite retrieve_created, map_map.
    unfold after_netns, checkNetNs. by rewrite Hns.
  - intros U SEL. apply alloc_desc_ok.
Qed.
End contract.

(** ** An instance *)

(** Allocations, and empty messages, as values. *)
Definition nt_ext : Ext := {|
  Value := IPAllocation + unit;
  proto_Equal := fun a b => bool_decide (a = b);
  proto_MessageName := fun v => match v with inl _ => "ligato.netalloc.IPAllocation" | inr _ => "google.protobuf.Empty" end;
  fmt_v := fun v => match v with Some (inl a) => Address a | Some (inr _) => "{}" | None => "<nil>" end;
  Metadata := option IPAllocMetadata;
  DeepEqual := fun _ _ => false;
  Mapping := gmap string (option IPAllocMetadata);
  nm_New := ∅;
  nm_Put := fun m k v => <[k := v]> m;
  nm_Delete := fun m k => delete k m;
  nm_Update := fun m k v => match v with Some v => <[k := v]> m | None => m end;
  nm_GetValue := fun m k => m !! k;
  nm_ListFields := fun m k => [];
  World := unit;
  netns_escaped := fun _ => false;
  clock_reading := fun n => Z.of_nat n;
  ext_runtime := doubling
|}.

#[local] Existing Instance nt_ext.

#[local] Instance nt_types : NetallocTypes := {|
  as_IPAllocation := fun v : Value => match v with inl a => Some a | inr _ => None end;
  of_IPAllocation := inl;
  emptypb_Empty := inr tt;
  as_IPAllocMetadata := fun m : Metadata => Some m;
  of_IPAllocMetadata := fun m => m
|}.

#[local] Instance nt_laws : NetallocLaws.
Proof. split; [done| |done]. intros [v|v] a [= ->]. done. Qed.

Definition nt_models : Scheduler.Models :=
  MkModels (fun _ => false) (fun _ => inr true) (fun v => inr v) (fun v => inr "") (fun key => None).

Definition nt_sched : sched :=
  run_state (RegisterKVDescriptor [NewAddrAllocDescriptor]) (Init defaultConfig nt_models false tt).

Definition blue_eth0 : IPAllocation := MkIPAllocation "blue" "eth0" "10.0.1.5/24" "10.0.1.1".
Definition blue_eth1 : IPAllocation := MkIPAllocation "blue" "eth1" "10.0.2.5/24" "10.0.1.1".
Definition alloc_key_of (a : IPAllocation) : string :=
  match models_Key a with Ok k => k | _ => "" end.

(** Both allocations are configured by a transaction. *)
Definition nt_committed : sched :=
  run_state (processTransaction 20
    (MkTransaction 0 NBTransaction
      (map (fun a => MkKvForTxn (alloc_key_of a) (Some (inl a : Value)) None FromNB false) [blue_eth1; blue_eth0])
      (Some (MkNbTxn NotResync false true false None false true "allocations")) None None)) nt_sched.

Definition nt_index : Mapping :=
  match g_mappings (kg_graph (s_graph nt_committed)) !! IPAllocDescriptorName with Some m => m | None => ∅ end.

Definition nt_states : list (string * ValueState) :=
  omap (fun k => (fun n => (k, getNodeState (Some n))) <$> lookup_node (kg_graph (s_graph nt_committed)) k)
    (GetKeys (kg_graph (s_graph nt_committed))).

(** Only the gateway of the first one is a neighbour. *)
Example nt_transaction : nt_states =
  [("config/netalloc/v1/ip/network/blue/interface/eth0", ValueState_CONFIGURED);
   ("config/netalloc/v1/ip/network/blue/interface/eth1", ValueState_CONFIGURED);
   ("netalloc/neigh-gw/network/blue/interface/eth0", ValueState_CONFIGURED)].
Proof. vm_compute. reflexivity. Qed.

Lemma blue_names : network_name "blue" /\ iface_name "eth0".
Proof. split; [by split|]. split; [|done]. apply Forall_singleton. by split_and!. Qed.

Lemma blue_eth0_meta : nm_GetValue nt_index "network/blue/interface/eth0"
  = Some (Some (MkIPAllocMetadata (Some (MkIPNet [10; 0; 1; 5]%Z [255; 255; 255; 0]%Z))
                 (Some (MkIPNet [10; 0; 1; 1]%Z [255; 255; 255; 0]%Z)))).
Proof. vm_compute. reflexivity. Qed.

(** A reference to the gateway, resolved in the index that the transaction filled. *)
Lemma alloc_ref_resolves_witness :
  exists r, GetOrParseIPAddress nt_index "alloc:blue/eth0/GW" "" ADDR_ONLY = Ok (Some r, None)
    /\ IP r = [10; 0; 1; 1]%Z.
Proof.
  destruct blue_names as [Hn Hi].
  destruct (alloc_ref_resolves nt_index blue_eth0 true "alloc:blue/eth0/GW" "" "label" Hn Hi) as (_ & key & Hk & _ & _ & H).
  { left. split; [reflexivity|by left]. }
  destruct (H (MkIPAllocMetadata (Some (MkIPNet [10; 0; 1; 5]%Z [255; 255; 255; 0]%Z))
      (Some (MkIPNet [10; 0; 1; 1]%Z [255; 255; 255; 0]%Z))) (MkIPNet [10; 0; 1; 1]%Z [255; 255; 255; 0]%Z) ADDR_ONLY)
    as (r & Hr & E).
  - vm_compute in Hk. injection Hk as <-. exact blue_eth0_meta.
  - reflexivity.
  - exists r. split; [exact E|]. by injection Hr as <-.
Defined.

Definition net24 (ip : list Z) : IPNet := MkIPNet ip [255; 255; 255; 0]%Z.

Lemma blue_eth0_parsed : ParseIPAddr (Address blue_eth0) None = inl (net24 [10; 0; 1; 5]%Z, false)
  /\ (parseAddr blue_eth0).1.1
     = Some (MkIPAllocMetadata (Some (net24 [10; 0; 1; 5]%Z)) (Some (net24 [10; 0; 1; 1]%Z))).
Proof. split; reflexivity. Qed.

Lemma gateway_neighbour_witness :
  alloc_DerivedValues "k" blue_eth0
    = [MkKeyValuePair "netalloc/neigh-gw/network/blue/interface/eth0" (Some emptypb_Empty)].
Proof.
  destruct (gateway_neighbour "k" blue_eth0) as (net & g & E1 & E2 & E3 & _); [reflexivity|done|].
  rewrite E3. rewrite (proj1 blue_eth0_parsed) in E1. rewrite (proj2 blue_eth0_parsed) in E2.
  assert (net = net24 [10; 0; 1; 5]%Z) as -> by congruence.
  assert (g = net24 [10; 0; 1; 1]%Z) as -> by congruence. vm_compute. reflexivity.
Defined.

Definition has_address (m : option IPAllocMetadata) : bool :=
  match m with Some (MkIPAllocMetadata (Some _) _) => true | _ => false end.

Lemma nt_index_ok : index_ok nt_index.
Proof.
  assert (map_Forall (fun _ m => has_address m = true) (nt_index : gmap string (option IPAllocMetadata))) as H.
  { apply (bool_decide_unpack _). by vm_compute. }
  intros k m Hk. right. specialize (H k m Hk). clear Hk. cbn beta in H. destruct m as [[[net|] gw]|]; try done.
  by exists (MkIPAllocMetadata (Some net) gw), net.
Qed.

(** The reference stands for the retrieved address, an unknown one stays. *)
Lemma correlate_retrieved_witness :
  exists cs, CorrelateRetrievedIPs nt_index ["alloc:blue/eth0"; "10.9.9.9"] ["10.0.1.5/24"; "10.7.7.7/8"] "" ADDR_WITH_MASK = Ok cs
    /\ cs = ["alloc:blue/eth0"; "10.7.7.7/8"].
Proof.
  destruct (correlate_retrieved nt_index ["alloc:blue/eth0"; "10.9.9.9"] ["10.0.1.5/24"; "10.7.7.7/8"] "" ADDR_WITH_MASK nt_index_ok)
    as (cs & E & _).
  exists cs. split; [exact E|]. vm_compute in E. by injection E.
Defined.

Lemma alloc_descriptor_contract_witness :
  let w : @World nt_ext := tt in
  create (Some NewAddrAllocDescriptor) "k" (alloc_value blue_eth0) w = Ok ((alloc_metadata blue_eth0, None), w).
Proof.
  destruct (alloc_descriptor_contract (X := nt_ext) "k" blue_eth0 (tt : @World nt_ext)) as [H _]. apply H; reflexivity.
Defined.
