(* ===== verification/NameToIndex.v ===== *)
(** * Indexes of names and handles

    [pkg/idxvpp] and the lookups of [plugins/vpp/ifplugin/ifaceidx]: metadata with
    an integer handle, by name and by handle.  The mappings themselves, with
    their secondary indexes, are code of another module, a parameter. *)
From S2P Require Import Prelude GoStrings Api.

(** [ifaceidx.IfaceMetadata]. *)
Record IfaceMetadata := MkIfaceMetadata {
  SwIfIndex : Z;
  Vrf : Z;
  IPAddresses : list string;
  TAPHostIfName : string;
  InternalName : string;
  DevType : string
}.

(** [idxvpp.OnlyIndex]; the metadata of a value is a pointer to it. *)
Record OnlyIndex := MkOnlyIndex { Index : Z }.

#[export] Instance OnlyIndex_eq : EqDecision OnlyIndex.
Proof. solve_decision. Defined.

(** The mapping of the package mem: a new one with its index function, and the
    names of the items that have a value of a secondary index.  Metadata that
    implement [WithIndex] are seen through their handle; nil pointers in the
    interface are left out. *)
Class Indexes {X : Ext} := {
  NewNamedMapping : (Metadata -> list (string * list string)) -> Mapping;
  nm_ListNames : Mapping -> string -> string -> list string;
  as_WithIndex : Metadata -> option Z;
  as_IfaceMetadata : Metadata -> option IfaceMetadata
}.

Section indexes.
Context {X : Ext} {IX : Indexes}.

Definition indexKey : string := "index".

Definition internalIndexFunction (item : Metadata) : list (string * list string) :=
  match as_WithIndex item with
  | None => []
  | Some index => [(indexKey, [Itoa index])]
  end.

(** [idxs[k] = v] for the keys of the user. *)
Definition override (idxs userIdxs : list (string * list string)) : list (string * list string) :=
  filter (fun kv => kv.1 ∉ userIdxs.*1) idxs ++ userIdxs.

Definition NewNameToIndex (indexFunction : option (Metadata -> list (string * list string))) : Mapping :=
  NewNamedMapping (fun item =>
    let idxs := internalIndexFunction item in
    match indexFunction with Some f => override idxs (f item) | None => idxs end).

(** The items are seen through their handle. *)
Definition LookupByName (idx : Mapping) (name : string) : option Z :=
  value ← nm_GetValue idx name; as_WithIndex value.

(** The name, the metadata and the handle; nothing unless one name has it. *)
Definition LookupByIndex (idx : Mapping) (index : Z) : option (string * Metadata * Z) :=
  match nm_ListNames idx indexKey (Itoa index) with
  | [name] =>
      value ← nm_GetValue idx name;
      handle ← as_WithIndex value;
      Some (name, value, handle)
  | _ => None
  end.

(** ** Interfaces *)

Definition ipAddressIndexKey : string := "ip_addresses".

(** A nil slice of addresses gives no field, an empty one an empty field: the
    index is the same. *)
Definition indexMetadata (metaData : Metadata) : list (string * list string) :=
  match as_IfaceMetadata metaData with
  | None => []
  | Some ifMeta => match IPAddresses ifMeta with [] => [] | ip => [(ipAddressIndexKey, ip)] end
  end.

Definition NewIfaceIndex : Mapping := NewNameToIndex (Some indexMetadata).

Definition iface_LookupByName (ifmx : Mapping) (name : string) : option IfaceMetadata :=
  meta ← nm_GetValue ifmx name; as_IfaceMetadata meta.

(** [name, metadata, exists]. *)
Definition LookupBySwIfIndex (ifmx : Mapping) (swIfIndex : Z) : string * option IfaceMetadata * bool :=
  match LookupByIndex ifmx swIfIndex with
  | None => ("", None, false)
  | Some (name, item, _) =>
      match as_IfaceMetadata item with
      | Some metadata => (name, Some metadata, true)
      | None => (name, None, false)
      end
  end.

Definition LookupByIP (ifmx : Mapping) (ip : string) : list string := nm_ListNames ifmx ipAddressIndexKey ip.
End indexes.
