(* ===== verification/VppModels.v ===== *)
(** * Keys of configured values

    The registry of models of the agent on messages as templates see them: the
    full name of the message and its fields.  [models.Key] never panics on a
    message whose template prints its fields. *)
From S2P Require Import Prelude GoStrings GoRegexp GoTemplate Models ModelFacts AgentModels.

(** A message: its full name and the fields that its name depends on. *)
Record Msg := MkMsg { m_FullName : string; m_fields : list (string * tval) }.
Definition msg_view (x : Msg) : tval := obj (m_fields x).
Abbreviation msg := MkMsg.

#[export] Instance Msg_message : Message Msg := {|
  FullName := m_FullName;
  GoType := fun m => Some (m_FullName m);
  GetName := fun m => if bool_decide (m_FullName m ∈ with_GetName)
    then Some (fun x => match field_of (msg_view x) "Name" with Some (TStr name) => inl name | _ => inr "no field Name" end)
    else None
|}.

Definition zero_message (pb : string) : Msg := MkMsg pb [].

Definition msg_template (t : string) : NameFunc (V := Msg) := NameTemplate msg_view t.

(** [template.Must] panics on none of the templates. *)
Example templates_parse :
  forallb (fun g => match reg_Template g ≫= Some ∘ GoTemplate.Parse with Some None => false | _ => true end) agent_models = true.
Proof. vm_compute. reflexivity. Qed.

(** The registry after the [init] functions of all packages of models. *)
Definition AgentRegistry : outcome (registry Msg) :=
  register_all zero_message msg_template NewRegistry agent_models.

Definition msg_Key (x : Msg) : outcome string :=
  r ← AgentRegistry;
  match GetKeyUsingModelRegistry r (Some x) with inl key => Ok key | inr _ => Panic "no key for the message" end.

(** The model of a message of the agent, as [models.Register] returned it. *)
Definition model_named (pb : string) : knownModel Msg :=
  match list_find (fun g => reg_pb g = pb) agent_models with
  | Some (_, g) => model_of zero_message msg_template id g
  | None => model_of zero_message msg_template id (reg pb "" "" "" "" None)
  end.

(** [models.Key]: it panics when the message has no model or no name, which
    [msg_Key_total] excludes. *)
Definition models_Key_of (x : Msg) : string :=
  match msg_Key x with Ok key => key | _ => "" end.

(** ** Facts *)

Lemma zero_FullName n : FullName (zero_message n) = n.
Proof. reflexivity. Qed.
Lemma zero_GoType n : GoType (zero_message n) = Some (id n).
Proof. reflexivity. Qed.
Lemma zero_GetName n : is_Some (GetName (zero_message n)) <-> n ∈ with_GetName.
Proof.
  cbn. destruct (bool_decide (n ∈ with_GetName)) eqn:E.
  - apply bool_decide_eq_true in E. split; [done|by eexists].
  - apply bool_decide_eq_false in E. split; [by intros []|done].
Qed.

#[local] Opaque agent_models.

Lemma submseteq_refl' {A} (l : list A) : l ⊆+ l.
Proof. reflexivity. Qed.

Lemma model_named_reg g : g ∈ agent_models -> model_named (reg_pb g) = model_of zero_message msg_template id g.
Proof.
  intros Hg. unfold model_named.
  destruct (list_find (fun g' => reg_pb g' = reg_pb g) agent_models) as [[i g']|] eqn:E.
  - apply list_find_Some in E as (Hi & Hpb & _). f_equal. apply list_elem_of_lookup_2 in Hi.
    destruct (ForallOrdPairs_two _ _ g' g compatible_sym agent_models_compatible Hi Hg) as [|Hc]; [done|].
    unfold compatible in Hc. by rewrite Hpb, String.eqb_refl in Hc.
  - exfalso. apply list_find_None in E. rewrite Forall_forall in E. by apply (E g).
Qed.

Lemma AgentRegistry_model g : g ∈ agent_models ->
  exists r, AgentRegistry = Ok r /\ modelsByProtoName r !! reg_pb g = Some (model_named (reg_pb g)).
Proof.
  intros Hg. destruct (agent_registry zero_message msg_template id zero_FullName zero_GoType (fun n n' E => E)
    zero_GetName agent_models (submseteq_refl' agent_models)) as (r & E & _ & Hm).
  exists r. split; [exact E|]. apply Hm. exists g. split; [exact Hg|]. split; [reflexivity|].
  exact (model_named_reg g Hg).
Qed.

#[local] Opaque AgentRegistry.

(** The key of a message whose name the template or [GetName] gives. *)
Lemma msg_Key_model g x name : g ∈ agent_models -> m_FullName x = reg_pb g ->
  InstanceName (model_named (reg_pb g)) x = inl name ->
  msg_Key x = Ok (path_Join (km_KeyPrefix (model_named (reg_pb g))) name).
Proof.
  intros Hg Hx Hn. destruct (AgentRegistry_model g Hg) as (r & E & Hl).
  unfold msg_Key. rewrite E, outcome_bind_ret. unfold GetKeyUsingModelRegistry, GetModelFor.
  change (FullName x) with (m_FullName x). rewrite Hx, Hl, Hn. reflexivity.
Qed.
Lemma models_Key_model g x name : g ∈ agent_models -> m_FullName x = reg_pb g ->
  InstanceName (model_named (reg_pb g)) x = inl name ->
  models_Key_of x = path_Join (km_KeyPrefix (model_named (reg_pb g))) name.
Proof. intros Hg Hx Hn. unfold models_Key_of. by rewrite (msg_Key_model g x name Hg Hx Hn). Qed.

(** ** Keys of the models of the agent *)

Lemma agent_model_valid g : g ∈ agent_models -> valid_model (model_named (reg_pb g)).
Proof. intros Hg. rewrite (model_named_reg g Hg). exact (proj1 (Forall_forall _ _) agent_models_valid g Hg). Qed.

Lemma agent_models_apart g g' : g ∈ agent_models -> g' ∈ agent_models -> reg_pb g <> reg_pb g' ->
  apart (model_named (reg_pb g)) (model_named (reg_pb g')).
Proof.
  intros Hg Hg' Hne. rewrite (model_named_reg g Hg), (model_named_reg g' Hg').
  destruct (ForallOrdPairs_two _ _ g g' compatible_sym agent_models_compatible Hg Hg') as [->|Hc]; [done|].
  apply (compatible_spec zero_message msg_template id zero_GetName) in Hc. apply Hc.
Qed.

(** The key of a value is valid for its model and for no other one. *)
Lemma agent_key_valid g g' name : g ∈ agent_models -> g' ∈ agent_models ->
  name_for (model_named (reg_pb g)) name ->
  IsKeyValid (model_named (reg_pb g')) (path_Join (km_KeyPrefix (model_named (reg_pb g))) name)
  = String.eqb (reg_pb g) (reg_pb g').
Proof.
  intros Hg Hg' Hn. pose proof (agent_model_valid g Hg) as Hm. rewrite (model_key_eq _ name Hm Hn). unfold IsKeyValid.
  destruct (String.eqb_spec (reg_pb g) (reg_pb g')) as [E|E].
  - rewrite <- E. by rewrite ParseKey_own.
  - rewrite ParseKey_other; auto using agent_model_valid, agent_models_apart.
Qed.

Lemma agent_key_head g name : g ∈ agent_models -> name_for (model_named (reg_pb g)) name ->
  exists rest, Split (path_Join (km_KeyPrefix (model_named (reg_pb g))) name)
    = spec_Class (km_spec (model_named (reg_pb g))) :: rest.
Proof.
  intros Hg Hn. pose proof (agent_model_valid g Hg) as Hm. rewrite (model_key_eq _ name Hm Hn). by apply Split_key_head.
Qed.

(** A model is named by its message. *)
Definition agent_message (pb : string) : bool := existsb (fun g => String.eqb (reg_pb g) pb) agent_models.

Lemma agent_message_spec pb : agent_message pb = true -> exists g, g ∈ agent_models /\ reg_pb g = pb.
Proof.
  unfold agent_message. intros (g & Hg & E%String.eqb_eq)%existsb_exists. exists g. by rewrite list_elem_of_In.
Qed.

(** A key that [models.Key] gives, and the models it is valid for. *)
Lemma models_Key_valid pb x name : agent_message pb = true -> m_FullName x = pb ->
  InstanceName (model_named pb) x = inl name -> name_for (model_named pb) name ->
  (forall pb', agent_message pb' = true -> IsKeyValid (model_named pb') (models_Key_of x) = String.eqb pb pb')
  /\ StripKeyPrefix (model_named pb) (models_Key_of x) = tidy name
  /\ exists rest, Split (models_Key_of x) = spec_Class (km_spec (model_named pb)) :: rest.
Proof.
  intros (g & Hg & <-)%agent_message_spec Hx Hi Hn. rewrite (models_Key_model g x name Hg Hx Hi). split_and!.
  - intros pb' (g' & Hg' & <-)%agent_message_spec. by apply agent_key_valid.
  - pose proof (agent_model_valid g Hg) as Hm. rewrite (model_key_eq _ name Hm Hn). unfold StripKeyPrefix.
    by rewrite ParseKey_own.
  - by apply agent_key_head.
Qed.

(** Names that are one element of a path. *)
Definition element_name (name : string) : Prop := kept name /\ no_slash name.

Lemma element_clean name : element_name name -> clean_name name /\ tidy name = name.
Proof.
  intros [Hk Hs]. assert (Split name = [name]) as E by by apply Split_last.
  assert (tidy name = name) as Ht by (apply tidy_kept; rewrite E; by constructor).
  split; [split|done]; [rewrite E; constructor; [by right|constructor]|rewrite Ht; apply Hk].
Qed.

(** A key of another class that the prefix of a model does not start. *)
Lemma foreign_key pb c key : agent_message pb = true -> good_word c -> (exists rest, Split key = c :: rest) ->
  String.prefix (km_KeyPrefix (model_named pb)) key = false -> IsKeyValid (model_named pb) key = false.
Proof.
  intros (g & Hg & <-)%agent_message_spec Hc Hs Hp. unfold IsKeyValid, ParseKey.
  assert (TrimPrefix key (km_KeyPrefix (model_named (reg_pb g))) = key) as -> by (unfold TrimPrefix; by rewrite Hp).
  rewrite String.eqb_refl. cbn [orb]. by rewrite (name_not_prefix (model_named (reg_pb g)) c key (agent_model_valid g Hg) Hc Hs), String.eqb_refl.
Qed.

(** ** Keys of interfaces *)

Definition InterfaceKey (name : string) : string :=
  models_Key_of (msg "ligato.vpp.interfaces.Interface" [("Name", TStr name)]).

Definition SpanKey (ifaceFrom ifaceTo : string) : string :=
  models_Key_of (msg "ligato.vpp.interfaces.Span" [("InterfaceFrom", TStr ifaceFrom); ("InterfaceTo", TStr ifaceTo)]).

Example interface_keys :
  InterfaceKey "loop0" = "config/vpp/v2/interfaces/loop0" /\ SpanKey "a" "b" = "config/vpp/v2/span/a/to/b".
Proof. vm_compute. done. Qed.
