(* ===== verification/VppBinapi.v ===== *)
(** * What the VPP plugins share

    Calls that act on VPP and dumps that read it, addresses of the binary API and
    conversions to them.  Callbacks do not panic in the model: where the code would
    follow a nil pointer, they fail with [nil_dereference]. *)
From S2P Require Import Prelude GoStrings GoNet GoNetFacts GoNetText GoNetTextFacts AgentModels Api.

(** ** Addresses of the binary API *)

(** [ip_types.Address]: the family and the union of 16 bytes. *)
Definition ADDRESS_IP4 : Z := 0.
Definition ADDRESS_IP6 : Z := 1.
Record ip_Address := MkAddress { Af : Z; Un : list Z }.

#[export] Instance ip_Address_eq : EqDecision ip_Address.
Proof. solve_decision. Defined.

(** [ip_types.Prefix]. *)
Record ip_Prefix := MkPrefix { pf_Address : ip_Address; pf_Len : Z }.

#[export] Instance ip_Prefix_eq : EqDecision ip_Prefix.
Proof. solve_decision. Defined.

(** Conversions to smaller integers, and the largest uint32. *)
Definition uint8 (z : Z) : Z := (z mod 256)%Z.
Definition uint32 (z : Z) : Z := (z mod 2 ^ 32)%Z.
Definition max_uint32 : Z := 4294967295.

(** A loop that appends results and ends at the first error. *)
Fixpoint try_map {A B E} (f : A -> B + E) (l : list A) : list B + E :=
  match l with
  | [] => inl []
  | x :: l =>
      match f x with
      | inr err => inr err
      | inl y => match try_map f l with inr err => inr err | inl ys => inl (y :: ys) end
      end
  end.

Lemma try_map_spec {A B E} (f : A -> B + E) l r : try_map f l = inl r <-> Forall2 (fun x y => f x = inl y) l r.
Proof.
  revert r. induction l as [|x l IH]; intros r; cbn [try_map].
  - split; [by intros [= <-]|by intros ->%Forall2_nil_inv_l].
  - destruct (f x) as [y|e] eqn:E1.
    + destruct (try_map f l) as [ys|e].
      * split; [intros [= <-]; constructor; [done|by apply IH]|].
        intros (y' & r' & H1 & H2 & ->)%Forall2_cons_inv_l. apply IH in H2. congruence.
      * split; [done|]. intros (y' & r' & _ & H2 & _)%Forall2_cons_inv_l. by apply IH in H2.
    + split; [done|]. intros (y' & r' & H1 & _)%Forall2_cons_inv_l. congruence.
Qed.

(** A map that is filled in a loop, by key. *)
Lemma fold_insert_lookup {K A B} `{Countable K} (f : A -> K) (g : A -> B) (l : list A) (k : K) :
  (forall v, fold_left (fun m x => <[f x := g x]> m) l (∅ : gmap K B) !! k = Some v ->
     exists x, x ∈ l /\ f x = k /\ v = g x)
  /\ (forall x, x ∈ l -> f x = k -> is_Some (fold_left (fun m x => <[f x := g x]> m) l (∅ : gmap K B) !! k)).
Proof.
  induction l as [|x l [IH1 IH2]] using rev_ind; [split; [done|by intros x ?%elem_of_nil]|].
  rewrite fold_left_app. cbn [fold_left]. split.
  - intros v. destruct (decide (f x = k)) as [E|E].
    + rewrite E, lookup_insert_eq. intros [= <-]. exists x. set_solver.
    + rewrite lookup_insert_ne by done. intros (x' & Hin & Hx)%IH1. exists x'. set_solver.
  - intros x' [Hin|Hin%list_elem_of_singleton]%elem_of_app Hk.
    + destruct (decide (f x = k)) as [->|E]; [rewrite lookup_insert_eq; by eexists|].
      rewrite lookup_insert_ne by done. by apply (IH2 x').
    + subst x'. rewrite Hk, lookup_insert_eq. by eexists.
Qed.

(** ** Conversions of addresses *)

(** The family and the bytes of an address in an [AddressUnion]. *)
Definition to_union (netIP : list Z) : bool * list Z :=
  if length (To4 netIP) =? 0 then (true, copy_bytes 16 (To16 netIP))
  else (false, copy_bytes 16 (copy_bytes 4 (To4 netIP))).

Definition networkToPrefix (dstNetwork : IPNet) : ip_Prefix :=
  let '(v6, un) := to_union (IP dstNetwork) in
  MkPrefix (MkAddress (if v6 : bool then ADDRESS_IP6 else ADDRESS_IP4) un) (uint8 (Mask_Size (Mask dstNetwork)).1).

(** The text of an address in a union. *)
Definition union_text (v6 : bool) (un : list Z) : string :=
  if v6 then ip_String (To16 (copy_bytes 16 un)) else ip_String (To4 (take 4 (copy_bytes 16 un))).

Definition prefix_text (pf : ip_Prefix) : string :=
  let addr := pf_Address pf in
  union_text (Af addr =? ADDRESS_IP6)%Z (Un addr) +:+ "/" +:+ Itoa (pf_Len pf).

(** ** Calls *)

Section calls.
Context {X : Ext}.

(** A method that returns an error acts on the world, a dump reads it. *)
Definition Call : Type := World -> option error * World.
Definition Dump (A : Type) : Type := World -> A + error.

Definition errorf (msg : string) : error := Opaque msg.

Definition nil_dereference : error := Opaque "nil pointer dereference".

(** A loop of calls that ends at the first error. *)
Fixpoint call_each {A} (f : A -> Call) (l : list A) : Call := fun w =>
  match l with
  | [] => (None, w)
  | x :: l => match f x w with (Some err, w) => (Some err, w) | (None, w) => call_each f l w end
  end.

Definition simple_dep (label key : string) : Dependency := MkDependency label key (MkAnyOf [] None).

(** ** Conversions *)

Definition ipToAddress (ipstr : string) : ip_Address + error :=
  let netIP := ParseIP ipstr in
  if length netIP =? 0 then inr (errorf ("invalid IP: " +:+ dq +:+ ipstr +:+ dq))
  else
    let ip4 := To4 netIP in
    if length ip4 =? 0 then inl (MkAddress ADDRESS_IP6 (copy_bytes 16 (To16 netIP)))
    else inl (MkAddress ADDRESS_IP4 (copy_bytes 16 (copy_bytes 4 ip4))).

Definition parse_mac (mac : string) : list Z + error :=
  match ParseMAC mac with
  | Some hw => inl hw
  | None => inr (errorf ("address " +:+ mac +:+ ": invalid MAC address"))
  end.

End calls.

(** ** What is read back of what was sent *)

(** A name that fits into a field of 64 characters. *)
Definition tag_ok (tag : string) : Prop := String.length tag <= 63 /\ no_char Ascii.zero tag = true.

(** The text of what was put into a union. *)
Lemma union_text_of ip : parsed_ip ip ->
  to_union ip = (negb (is_v4 ip), (to_union ip).2) /\ union_text (negb (is_v4 ip)) (to_union ip).2 = ip_String ip.
Proof.
  intros Hip. unfold to_union, is_v4. rewrite (To4_parsed ip Hip). destruct Hip as [[Hl Hb]|[[Hl Hb] Hp]]; rewrite Hl; cbn [Nat.eqb].
  - rewrite Hl. cbn [Nat.eqb negb fst snd]. split; [done|]. unfold union_text.
    rewrite (copy_bytes_exact 4 ip Hl), (copy_bytes_exact 16 (copy_bytes 16 ip)) by apply length_copy_bytes.
    rewrite take_copy_bytes, To4_4 by (done || lia). done.
  - cbn [length Nat.eqb negb fst snd]. split; [done|]. unfold union_text.
    assert (To16 ip = ip) as E by (unfold To16; by rewrite Hl). rewrite E, !copy_bytes_exact, E by (rewrite ?copy_bytes_exact; done).
    done.
Qed.

(** A network as it is sent, and its text when it is read back. *)
Lemma sent_prefix n : plain_net n ->
  (Af (pf_Address (networkToPrefix n)) =? ADDRESS_IP6)%Z = negb (is_v4 (IP n))
  /\ prefix_text (networkToPrefix n) = IPNet_String n.
Proof.
  intros Hn. destruct (union_text_of (IP n) (plain_parsed n Hn)) as [E1 E2].
  unfold prefix_text, networkToPrefix. rewrite E1. cbn [pf_Address pf_Len Af Un].
  assert (((if negb (is_v4 (IP n)) then ADDRESS_IP6 else ADDRESS_IP4) =? ADDRESS_IP6)%Z = negb (is_v4 (IP n))) as ->
    by by destruct (is_v4 (IP n)).
  split; [done|]. rewrite E2. destruct (plain_text n Hn) as (k & Hm & Hk & Hl & ->).
  rewrite Hm, Mask_Size_bytes by done. unfold uint8. rewrite Z.mod_small by lia. done.
Qed.
