(* ===== verification/VppL2Proto.v ===== *)
(** * Messages of the L2 plugin and its calls to VPP

    The handlers of [plugins/vpp/l2plugin/vppcalls/vpp2306], behind the interfaces
    that the descriptors use, and [proto/ligato/vpp/l2]: bridge domains, L2 FIB entries and cross-connects,
    their keys, and the messages of VPP's binary API that configure them (the
    fields of [binapi/vpp2306/l2] that the agent uses).  Elements of repeated
    fields are not nil. *)
From S2P Require Import Prelude Api GoStrings GoNet GoNetText GoTemplate GoRegexp Models AgentModels NameToIndex VppModels.
From S2P Require Import VppBinapi.

(** ** Configuration *)

Record BridgeDomain_Interface := MkBDInterface {
  bdi_Name : string;
  bdi_BridgedVirtualInterface : bool;
  bdi_SplitHorizonGroup : Z
}.

Record BridgeDomain_ArpTerminationEntry := MkArpEntry { arp_IpAddress : string; arp_PhysAddress : string }.

Record BridgeDomain := MkBridgeDomain {
  bd_Name : string;
  bd_Flood : bool;
  bd_UnknownUnicastFlood : bool;
  bd_Forward : bool;
  bd_Learn : bool;
  bd_ArpTermination : bool;
  bd_MacAge : Z;
  bd_Interfaces : list BridgeDomain_Interface;
  bd_ArpTerminationTable : list BridgeDomain_ArpTerminationEntry
}.

(** [FIBEntry_Action], an open enumeration. *)
Definition FIBEntry_FORWARD : Z := 0.
Definition FIBEntry_DROP : Z := 1.

Record FIBEntry := MkFIBEntry {
  fib_PhysAddress : string;
  fib_BridgeDomain : string;
  fib_Action : Z;
  fib_OutgoingInterface : string;
  fib_StaticConfig : bool;
  fib_BridgedVirtualInterface : bool
}.

Record XConnectPair := MkXConnectPair { xc_ReceiveInterface : string; xc_TransmitInterface : string }.

#[export] Instance BDInterface_eq : EqDecision BridgeDomain_Interface.
Proof. solve_decision. Defined.
#[export] Instance ArpEntry_eq : EqDecision BridgeDomain_ArpTerminationEntry.
Proof. solve_decision. Defined.
#[export] Instance BridgeDomain_eq : EqDecision BridgeDomain.
Proof. solve_decision. Defined.
#[export] Instance FIBEntry_eq : EqDecision FIBEntry.
Proof. solve_decision. Defined.
#[export] Instance XConnectPair_eq : EqDecision XConnectPair.
Proof. solve_decision. Defined.

(** ** Keys *)

Definition ModelBridgeDomain : knownModel Msg := model_named "ligato.vpp.l2.BridgeDomain".
Definition ModelFIBEntry : knownModel Msg := model_named "ligato.vpp.l2.FIBEntry".
Definition ModelXConnectPair : knownModel Msg := model_named "ligato.vpp.l2.XConnectPair".

Definition BridgeDomainKey (bdName : string) : string :=
  models_Key_of (msg "ligato.vpp.l2.BridgeDomain" [("Name", TStr bdName)]).
Definition FIBKey (bdName fibMac : string) : string :=
  models_Key_of (msg "ligato.vpp.l2.FIBEntry" [("BridgeDomain", TStr bdName); ("PhysAddress", TStr fibMac)]).
Definition XConnectKey (rxIface : string) : string :=
  models_Key_of (msg "ligato.vpp.l2.XConnectPair" [("ReceiveInterface", TStr rxIface)]).

Definition bdInterfaceKeyTemplate : string := "vpp/bd/{bd}/interface/{iface}".
Definition InvalidKeyPart : string := "<invalid>".

Definition BDInterfaceKey (bdName iface : string) : string :=
  let bdName := if is_empty bdName then InvalidKeyPart else bdName in
  let iface := if is_empty iface then InvalidKeyPart else iface in
  let key := Replace1 bdInterfaceKeyTemplate "{bd}" bdName in
  Replace1 key "{iface}" iface.

(** [bdName, iface, isBDIfaceKey]. *)
Definition ParseBDInterfaceKey (key : string) : string * string * bool :=
  match Split key with
  | a :: b :: bdName :: c :: ((_ :: _) as rest) =>
      if String.eqb a "vpp" && String.eqb b "bd" && String.eqb c "interface"
      then (bdName, Join rest, true) else ("", "", false)
  | _ => ("", "", false)
  end.

Example l2_keys :
  BridgeDomainKey "bd1" = "config/vpp/l2/v2/bridge-domain/bd1"
  /\ FIBKey "bd1" "00:11:22:33:44:55" = "config/vpp/l2/v2/fib/bd1/mac/00:11:22:33:44:55"
  /\ XConnectKey "if1" = "config/vpp/l2/v2/xconnect/if1"
  /\ BDInterfaceKey "bd1" "tap/1" = "vpp/bd/bd1/interface/tap/1"
  /\ ParseBDInterfaceKey "vpp/bd/bd1/interface/tap/1" = ("bd1", "tap/1", true)
  /\ BDInterfaceKey "" "" = "vpp/bd/<invalid>/interface/<invalid>"
  /\ ParseBDInterfaceKey "vpp/bd/bd1/interface" = ("", "", false).
Proof. vm_compute. done. Qed.

(** ** Binary API *)

Record BdIPMac := MkBdIPMac { bim_BdID : Z; bim_IP : ip_Address; bim_Mac : list Z }.

Definition L2_API_PORT_TYPE_NORMAL : Z := 0.
Definition L2_API_PORT_TYPE_BVI : Z := 1.

Inductive L2Request :=
  | BdIPMacAddDel (IsAdd : bool) (Entry : BdIPMac)
  | BridgeDomainAddDel (IsAdd : bool) (BdID : Z) (Learn ArpTerm Flood UuFlood Forward : bool) (MacAge : Z)
      (BdTag : string)
  | SwInterfaceSetL2Bridge (BdID RxSwIfIndex Shg : Z) (Enable : bool) (PortType : Z)
  | L2fibAddDel (IsAdd : bool) (Mac : list Z) (BdID SwIfIndex : Z) (BviMac StaticMac FilterMac : bool)
  | SwInterfaceSetL2Xconnect (Enable : bool) (TxSwIfIndex RxSwIfIndex : Z).

#[export] Instance BdIPMac_eq : EqDecision BdIPMac.
Proof. solve_decision. Defined.
#[export] Instance L2Request_eq : EqDecision L2Request.
Proof. solve_decision. Defined.

(** Replies of dumps. *)
Record BridgeDomainSwIf := MkSwIf { swif_SwIfIndex : Z; swif_Shg : Z }.
Record BridgeDomainDetails := MkBdDetails {
  bdd_BdID : Z;
  bdd_Flood : bool;
  bdd_UuFlood : bool;
  bdd_Forward : bool;
  bdd_Learn : bool;
  bdd_ArpTerm : bool;
  bdd_MacAge : Z;
  bdd_BdTag : string;
  bdd_BviSwIfIndex : Z;
  bdd_SwIfDetails : list BridgeDomainSwIf
}.
Record L2FibTableDetails := MkL2FibDetails {
  lfd_BdID : Z;
  lfd_Mac : list Z;
  lfd_SwIfIndex : Z;
  lfd_StaticMac : bool;
  lfd_FilterMac : bool;
  lfd_BviMac : bool
}.
Record L2XconnectDetails := MkXconnectDetails { xcd_RxSwIfIndex : Z; xcd_TxSwIfIndex : Z }.

(** ** Calls to VPP *)

(** ** Interfaces of handlers *)

Record BridgeDomainMeta := MkBdMeta { bdm_BdID : Z }.
Record vpp_BridgeDomainDetails := MkBdd { bdd_Bd : BridgeDomain; bdd_Meta : BridgeDomainMeta }.
Record FibMeta := MkFibMeta { fm_BdID : Z; fm_IfIdx : Z }.
Record FibTableDetails := MkFtd { ftd_Fib : FIBEntry; ftd_Meta : FibMeta }.
Record XcMeta := MkXcMeta { xm_ReceiveInterfaceSwIfIdx : Z; xm_TransmitInterfaceSwIfIdx : Z }.
Record XConnectDetails := MkXcd { xcd_Xc : XConnectPair; xcd_Meta : XcMeta }.

Section api.
Context {X : Ext}.

Record BridgeDomainVppAPI := MkBridgeDomainVppAPI {
  DumpBridgeDomains : Dump (list vpp_BridgeDomainDetails);
  AddBridgeDomain : Z -> BridgeDomain -> Call;
  DeleteBridgeDomain : Z -> Call;
  AddInterfaceToBridgeDomain : Z -> BridgeDomain_Interface -> Call;
  DeleteInterfaceFromBridgeDomain : Z -> BridgeDomain_Interface -> Call;
  AddArpTerminationTableEntry : Z -> string -> string -> Call;
  RemoveArpTerminationTableEntry : Z -> string -> string -> Call
}.

Record FIBVppAPI := MkFIBVppAPI {
  DumpL2FIBs : Dump (gmap string FibTableDetails);
  AddL2FIB : FIBEntry -> Call;
  DeleteL2FIB : FIBEntry -> Call
}.

Record XConnectVppAPI := MkXConnectVppAPI {
  DumpXConnectPairs : Dump (gmap Z XConnectDetails);
  AddL2XConnect : string -> string -> Call;
  DeleteL2XConnect : string -> string -> Call
}.

(** ** The channel *)

(** [SendRequest(req).ReceiveReply(reply)] and [SendMultiRequest]: the replies
    before the stop, or before an error. *)
Class L2Channel := {
  SendRequest : L2Request -> Call;
  BdIPMacDump : Z -> World -> list BdIPMac * option error;
  BridgeDomainDump : Z -> Z -> World -> list BridgeDomainDetails * option error;
  L2FibTableDump : Z -> World -> list L2FibTableDetails * option error;
  L2XconnectDump : World -> list L2XconnectDetails * option error
}.
End api.

Section handlers.
Context {X : Ext} {IX : Indexes} {CH : L2Channel}.
(** [h.ifIndexes] and [h.bdIndexes]. *)
Context (ifIndexes bdIndexes : Mapping).

(** ** Addresses *)

Definition parseAddressToString (address : ip_Address) : string :=
  let nhIP := copy_bytes 16 (Un address) in
  if (Af address =? ADDRESS_IP4)%Z then ip_String (To4 (take 4 nhIP))
  else if (Af address =? ADDRESS_IP6)%Z then ip_String (To16 nhIP)
  else "".

(** ** ARP termination *)

Definition callBdIPMacAddDel (isAdd : bool) (bdID : Z) (mac ip : string) : Call := fun w =>
  match ipToAddress ip with
  | inr err => (Some err, w)
  | inl ipAddr =>
      match parse_mac mac with
      | inr err => (Some err, w)
      | inl macAddr => SendRequest (BdIPMacAddDel isAdd (MkBdIPMac bdID ipAddr (copy_bytes 6 macAddr))) w
      end
  end.

(** ** Bridge domains *)

Definition add_bridge_domain (bdIdx : Z) (bd : BridgeDomain) : Call :=
  SendRequest (BridgeDomainAddDel true bdIdx (bd_Learn bd) (bd_ArpTermination bd) (bd_Flood bd)
    (bd_UnknownUnicastFlood bd) (bd_Forward bd) (uint8 (bd_MacAge bd)) (bd_Name bd)).

Definition delete_bridge_domain (bdIdx : Z) : Call :=
  SendRequest (BridgeDomainAddDel false bdIdx false false false false false 0 "").

Definition addDelInterfaceToBridgeDomain (bdIdx : Z) (ifaceCfg : BridgeDomain_Interface) (ifIdx : Z)
    (add : bool) : Call := fun w =>
  match SendRequest (SwInterfaceSetL2Bridge bdIdx ifIdx (uint8 (bdi_SplitHorizonGroup ifaceCfg)) add
      (if bdi_BridgedVirtualInterface ifaceCfg then L2_API_PORT_TYPE_BVI else L2_API_PORT_TYPE_NORMAL)) w with
  | (Some err, w) => (Some (errorf ("sw_interface_set_l2_bridge_reply returned error: " +:+ Error err)), w)
  | (None, w) => (None, w)
  end.

(** [AddInterfaceToBridgeDomain] and [DeleteInterfaceFromBridgeDomain]. *)
Definition interface_of_bridge_domain (add : bool) (bdIdx : Z) (ifaceCfg : BridgeDomain_Interface) : Call := fun w =>
  match iface_LookupByName ifIndexes (bdi_Name ifaceCfg) with
  | None => (Some (errorf "failed to get interface metadata"), w)
  | Some ifaceMeta => addDelInterfaceToBridgeDomain bdIdx ifaceCfg (SwIfIndex ifaceMeta) add w
  end.

(** ** L2 FIB *)

Definition l2fibAddDel (fib : FIBEntry) (isAdd : bool) : Call := fun w =>
  match LookupByName bdIndexes (fib_BridgeDomain fib) with
  | None => (Some (errorf "failed to get bridge domain metadata"), w)
  | Some bdIndex =>
      let swIfIndex := if (fib_Action fib =? FIBEntry_FORWARD)%Z
        then SwIfIndex <$> iface_LookupByName ifIndexes (fib_OutgoingInterface fib)
        else Some max_uint32 in
      match swIfIndex with
      | None => (Some (errorf "failed to get interface metadata"), w)
      | Some swIfIndex =>
          match (if is_empty (fib_PhysAddress fib) then inl [] else parse_mac (fib_PhysAddress fib)) with
          | inr err => (Some err, w)
          | inl mac =>
              SendRequest (L2fibAddDel isAdd (copy_bytes 6 mac) bdIndex swIfIndex
                (fib_BridgedVirtualInterface fib) (fib_StaticConfig fib)
                (fib_Action fib =? FIBEntry_DROP)%Z) w
          end
      end
  end.

(** ** Cross-connects *)

Definition addDelXConnect (enable : bool) (rxIface txIface : string) : Call := fun w =>
  match iface_LookupByName ifIndexes rxIface with
  | None => (Some (errorf "failed to get Rx interface metadata"), w)
  | Some rxIfaceMeta =>
      match iface_LookupByName ifIndexes txIface with
      | None => (Some (errorf "failed to get Tx interface metadata"), w)
      | Some txIfaceMeta =>
          SendRequest (SwInterfaceSetL2Xconnect enable (SwIfIndex txIfaceMeta) (SwIfIndex rxIfaceMeta)) w
      end
  end.

(** ** Dumps *)

(** The table of all bridge domains, entries in the order of the dump. *)
Definition add_arp_entry (tab : gmap Z (list BridgeDomain_ArpTerminationEntry)) (msg : BdIPMac) :
    gmap Z (list BridgeDomain_ArpTerminationEntry) :=
  let arpEntry := MkArpEntry (parseAddressToString (bim_IP msg)) (mac_String (bim_Mac msg)) in
  <[bim_BdID msg := default [] (tab !! bim_BdID msg) ++ [arpEntry]]> tab.

Definition dumpBridgeDomainMacTable : Dump (gmap Z (list BridgeDomain_ArpTerminationEntry)) := fun w =>
  match BdIPMacDump max_uint32 w with
  | (_, Some err) => inr err
  | (msgs, None) => inl (fold_left add_arp_entry msgs ∅)
  end.

Definition dumped_interface (bviSwIfIndex : Z) (iface : BridgeDomainSwIf) : option BridgeDomain_Interface :=
  match LookupBySwIfIndex ifIndexes (swif_SwIfIndex iface) with
  | (ifaceName, _, true) =>
      Some (MkBDInterface ifaceName (swif_SwIfIndex iface =? bviSwIfIndex)%Z (swif_Shg iface))
  | (_, _, false) => None
  end.

Definition dumped_bridge_domain (bdArpTab : gmap Z (list BridgeDomain_ArpTerminationEntry))
    (d : BridgeDomainDetails) : vpp_BridgeDomainDetails :=
  MkBdd (MkBridgeDomain (Trim Ascii.zero (bdd_BdTag d)) (bdd_Flood d) (bdd_UuFlood d) (bdd_Forward d)
      (bdd_Learn d) (bdd_ArpTerm d) (bdd_MacAge d)
      (omap (dumped_interface (bdd_BviSwIfIndex d)) (bdd_SwIfDetails d))
      (default [] (bdArpTab !! bdd_BdID d)))
    (MkBdMeta (bdd_BdID d)).

Definition dump_bridge_domains : Dump (list vpp_BridgeDomainDetails) := fun w =>
  match dumpBridgeDomainMacTable w with
  | inr err => inr (errorf ("failed to dump arp termination table: " +:+ Error err))
  | inl bdArpTab =>
      match BridgeDomainDump max_uint32 max_uint32 w with
      | (_, Some err) => inr err
      | (bds, None) => inl (map (dumped_bridge_domain bdArpTab) bds)
      end
  end.

(** One reply; the map is indexed by the MAC address. *)
Definition add_fib (fibs : gmap string FibTableDetails) (d : L2FibTableDetails) : gmap string FibTableDetails :=
  let mac := mac_String (lfd_Mac d) in
  let action := if lfd_FilterMac d then FIBEntry_DROP else FIBEntry_FORWARD in
  let ifName := if (action =? FIBEntry_FORWARD)%Z
    then match LookupBySwIfIndex ifIndexes (lfd_SwIfIndex d) with
         | (name, _, true) => Some name | (_, _, false) => None end
    else Some "" in
  match ifName with
  | None => fibs
  | Some ifName =>
      match LookupByIndex bdIndexes (lfd_BdID d) with
      | None => fibs
      | Some (bdName, _, _) =>
          <[mac := MkFtd (MkFIBEntry mac bdName action ifName (lfd_StaticMac d) (lfd_BviMac d))
                     (MkFibMeta (lfd_BdID d) (lfd_SwIfIndex d))]> fibs
      end
  end.

Definition dump_l2_fibs : Dump (gmap string FibTableDetails) := fun w =>
  match L2FibTableDump max_uint32 w with
  | (_, Some err) => inr err
  | (msgs, None) => inl (fold_left add_fib msgs ∅)
  end.

Definition add_xconnect (xpairs : gmap Z XConnectDetails) (pairs : L2XconnectDetails) : gmap Z XConnectDetails :=
  match LookupBySwIfIndex ifIndexes (xcd_RxSwIfIndex pairs) with
  | (rxIfaceName, _, true) =>
      match LookupBySwIfIndex ifIndexes (xcd_TxSwIfIndex pairs) with
      | (txIfaceName, _, true) =>
          <[xcd_RxSwIfIndex pairs := MkXcd (MkXConnectPair rxIfaceName txIfaceName)
              (MkXcMeta (xcd_RxSwIfIndex pairs) (xcd_TxSwIfIndex pairs))]> xpairs
      | (_, _, false) => xpairs
      end
  | (_, _, false) => xpairs
  end.

Definition dump_xconnect_pairs : Dump (gmap Z XConnectDetails) := fun w =>
  match L2XconnectDump w with
  | (_, Some err) => inr err
  | (msgs, None) => inl (fold_left add_xconnect msgs ∅)
  end.

(** ** The handlers *)

Definition newBridgeDomainVppHandler : BridgeDomainVppAPI := {|
  DumpBridgeDomains := dump_bridge_domains;
  AddBridgeDomain := add_bridge_domain;
  DeleteBridgeDomain := delete_bridge_domain;
  AddInterfaceToBridgeDomain := interface_of_bridge_domain true;
  DeleteInterfaceFromBridgeDomain := interface_of_bridge_domain false;
  AddArpTerminationTableEntry := callBdIPMacAddDel true;
  RemoveArpTerminationTableEntry := callBdIPMacAddDel false
|}.

Definition newFIBVppHandler : FIBVppAPI := {|
  DumpL2FIBs := dump_l2_fibs;
  AddL2FIB := fun fib => l2fibAddDel fib true;
  DeleteL2FIB := fun fib => l2fibAddDel fib false
|}.

Definition newXConnectVppHandler : XConnectVppAPI := {|
  DumpXConnectPairs := dump_xconnect_pairs;
  AddL2XConnect := addDelXConnect true;
  DeleteL2XConnect := addDelXConnect false
|}.
End handlers.
