(* ===== verification/VppL2.v ===== *)
(** * The L2 plugin for VPP

    [plugins/vpp/l2plugin/descriptor]: the descriptors of bridge domains, of the
    interfaces in them, of L2 FIB entries and of cross-connects, against the
    interfaces of the handlers.  The descriptor of bridge domains has a field,
    the next identifier, which is part of the world.  Callbacks do not panic in
    the model: where the code would follow a nil pointer to the metadata of a
    value, they fail with [nil_dereference]. *)
From S2P Require Import Prelude GoStrings GoNet GoNetText GoRegexp Models VppModels VppBinapi VppL2Proto.
From S2P Require Import Api Adapter NameToIndex VppL2Proto.

Section l2.
Context {X : Ext} {MO : MapOrder} {UC : Unicode}.

(** The messages and metadata of the plugin, and the field [bdIDSeq]. *)
Class L2Types := {
  l2_BridgeDomain : ValueType BridgeDomain;
  l2_BDInterface : ValueType BridgeDomain_Interface;
  l2_FIBEntry : ValueType FIBEntry;
  l2_XConnectPair : ValueType XConnectPair;
  l2_as_OnlyIndex : Metadata -> option (option OnlyIndex);
  l2_of_OnlyIndex : option OnlyIndex -> Metadata;
  bdIDSeq : World -> Z;
  set_bdIDSeq : Z -> World -> World
}.
Context {LT : L2Types}.

#[export] Existing Instance l2_BridgeDomain.
#[export] Existing Instance l2_BDInterface.
#[export] Existing Instance l2_FIBEntry.
#[export] Existing Instance l2_XConnectPair.
#[export] Instance OnlyIndex_metadata : MetadataType (option OnlyIndex) :=
  pointer_metadata l2_as_OnlyIndex l2_of_OnlyIndex.

(** ** Bridge domains *)

Definition InterfaceDescriptorName : string := "vpp-interface".
Definition BridgeDomainDescriptorName : string := "vpp-bridge-domain".
Definition untaggedBDPreffix : string := "UNTAGGED-".

Definition ErrBridgeDomainWithoutName : error := Sentinel "VPP bridge domain defined without logical name".
Definition ErrBridgeDomainWithMultipleBVI : error := Sentinel "VPP bridge domain defined with mutliple BVIs".

Section bridge_domain.
Context (bdHandler : BridgeDomainVppAPI).

Definition equalBDParameters (bd1 bd2 : BridgeDomain) : bool :=
  Bool.eqb (bd_ArpTermination bd1) (bd_ArpTermination bd2) && Bool.eqb (bd_Flood bd1) (bd_Flood bd2)
  && Bool.eqb (bd_Forward bd1) (bd_Forward bd2) && Bool.eqb (bd_Learn bd1) (bd_Learn bd2)
  && (bd_MacAge bd1 =? bd_MacAge bd2)%Z
  && Bool.eqb (bd_UnknownUnicastFlood bd1) (bd_UnknownUnicastFlood bd2).

Definition equalTerminationARPs (arp1 arp2 : BridgeDomain_ArpTerminationEntry) : bool :=
  if negb (EqualFold (arp_PhysAddress arp1) (arp_PhysAddress arp2)) then false
  else
    let ip1 := ParseIP (arp_IpAddress arp1) in
    let ip2 := ParseIP (arp_IpAddress arp2) in
    if (length ip1 =? 0) || (length ip2 =? 0) then EqualFold (arp_IpAddress arp1) (arp_IpAddress arp2)
    else ip_Equal ip1 ip2.

(** The results are named [toRemove, toAdd]; the body returns them the other
    way round. *)
Definition calculateARPDiff (oldARPs newARPs : list BridgeDomain_ArpTerminationEntry) :
    list BridgeDomain_ArpTerminationEntry * list BridgeDomain_ArpTerminationEntry :=
  let toAdd := List.filter (fun newARP => negb (existsb (fun oldARP => equalTerminationARPs oldARP newARP) oldARPs))
    newARPs in
  let toRemove := List.filter (fun oldARP => negb (existsb (fun newARP => equalTerminationARPs oldARP newARP) newARPs))
    oldARPs in
  (toAdd, toRemove).

Definition EquivalentBridgeDomains (key : string) (oldBD newBD : BridgeDomain) : bool :=
  if negb (equalBDParameters oldBD newBD) then false
  else
    let '(obsoleteARPs, newARPs) := calculateARPDiff (bd_ArpTerminationTable oldBD) (bd_ArpTerminationTable newBD) in
    (length obsoleteARPs =? 0) && (length newARPs =? 0).

Fixpoint multiple_bvi (hasBVI : bool) (ifaces : list BridgeDomain_Interface) : bool :=
  match ifaces with
  | [] => false
  | bdIface :: ifaces =>
      if bdi_BridgedVirtualInterface bdIface then (if hasBVI then true else multiple_bvi true ifaces)
      else multiple_bvi hasBVI ifaces
  end.

Definition bd_Validate (key : string) (bd : BridgeDomain) : option error :=
  if is_empty (bd_Name bd) then Some (NewInvalidValueError (Some ErrBridgeDomainWithoutName) ["name"])
  else if multiple_bvi false (bd_Interfaces bd) then
    Some (NewInvalidValueError (Some ErrBridgeDomainWithMultipleBVI) ["interfaces.bridged_virtual_interface"])
  else None.

Definition add_arp (bdIdx : Z) (arp : BridgeDomain_ArpTerminationEntry) : Call :=
  AddArpTerminationTableEntry bdHandler bdIdx (arp_PhysAddress arp) (arp_IpAddress arp).
Definition remove_arp (bdIdx : Z) (arp : BridgeDomain_ArpTerminationEntry) : Call :=
  RemoveArpTerminationTableEntry bdHandler bdIdx (arp_PhysAddress arp) (arp_IpAddress arp).

Definition bd_Create (key : string) (bd : BridgeDomain) (w : World) : (option OnlyIndex * option error) * World :=
  let bdIdx := bdIDSeq w in
  let w := set_bdIDSeq (uint32 (bdIdx + 1)) w in
  match AddBridgeDomain bdHandler bdIdx bd w with
  | (Some err, w) => ((None, Some err), w)
  | (None, w) =>
      match call_each (add_arp bdIdx) (bd_ArpTerminationTable bd) w with
      | (Some err, w) => ((None, Some err), w)
      | (None, w) => ((Some (MkOnlyIndex bdIdx), None), w)
      end
  end.

Definition bd_Delete (key : string) (bd : BridgeDomain) (metadata : option OnlyIndex) : Call := fun w =>
  match metadata with
  | None => (Some nil_dereference, w)
  | Some m => DeleteBridgeDomain bdHandler (Index m) w
  end.

Definition bd_UpdateWithRecreate (key : string) (oldBD newBD : BridgeDomain) (metadata : option OnlyIndex) : bool :=
  negb (equalBDParameters oldBD newBD).

Definition bd_Update (key : string) (oldBD newBD : BridgeDomain) (oldMetadata : option OnlyIndex) (w : World) :
    (option OnlyIndex * option error) * World :=
  match oldMetadata with
  | None => ((None, Some nil_dereference), w)
  | Some m =>
      let bdIdx := Index m in
      let '(obsoleteARPs, newARPs) := calculateARPDiff (bd_ArpTerminationTable oldBD) (bd_ArpTerminationTable newBD) in
      match call_each (remove_arp bdIdx) obsoleteARPs w with
      | (Some err, w) => ((oldMetadata, Some err), w)
      | (None, w) =>
          match call_each (add_arp bdIdx) newARPs w with
          | (Some err, w) => ((oldMetadata, Some err), w)
          | (None, w) => ((oldMetadata, None), w)
          end
      end
  end.

(** The retrieved values with the identifier that follows all of them;
    [untaggedSeq] numbers the names of untagged bridge domains. *)
Fixpoint retrieve_bds (bds : list vpp_BridgeDomainDetails) (seq : Z) (untaggedSeq : nat) :
    list (TypedKVWithMetadata BridgeDomain (option OnlyIndex)) * Z :=
  match bds with
  | [] => ([], seq)
  | bd :: bds =>
      let id := bdm_BdID (bdd_Meta bd) in
      let seq := if (seq <=? id)%Z then uint32 (id + 1) else seq in
      let untagged := is_empty (bd_Name (bdd_Bd bd)) in
      let v := bdd_Bd bd in
      let v := if untagged
        then MkBridgeDomain (untaggedBDPreffix +:+ Itoa (Z.of_nat untaggedSeq)) (bd_Flood v) (bd_UnknownUnicastFlood v)
               (bd_Forward v) (bd_Learn v) (bd_ArpTermination v) (bd_MacAge v) (bd_Interfaces v)
               (bd_ArpTerminationTable v)
        else v in
      let '(rest, seq) := retrieve_bds bds seq (if untagged then S untaggedSeq else untaggedSeq) in
      (MkTypedKV (BridgeDomainKey (bd_Name v)) v (Some (MkOnlyIndex id)) FromNB :: rest, seq)
  end.

Definition bd_Retrieve (correlate : list (TypedKVWithMetadata BridgeDomain (option OnlyIndex))) (w : World) :
    (list (TypedKVWithMetadata BridgeDomain (option OnlyIndex)) * option error) * World :=
  match DumpBridgeDomains bdHandler w with
  | inr err => (([], Some err), w)
  | inl bridgeDomains =>
      let '(retrieved, seq) := retrieve_bds bridgeDomains 1 0 in
      ((retrieved, None), set_bdIDSeq seq w)
  end.

Definition bd_DerivedValues (key : string) (bd : BridgeDomain) : list KeyValuePair :=
  map (fun bdIface => MkKeyValuePair (BDInterfaceKey (bd_Name bd) (bdi_Name bdIface)) (Some (of_value bdIface)))
    (bd_Interfaces bd).

Definition BridgeDomainDescriptor {IX : Indexes} : TypedDescriptor BridgeDomain (option OnlyIndex) := {|
  td_Name := BridgeDomainDescriptorName;
  td_KeySelector := IsKeyValid ModelBridgeDomain;
  td_KeyLabel := Some (StripKeyPrefix ModelBridgeDomain);
  td_ValueComparator := Some EquivalentBridgeDomains;
  td_NBKeyPrefix := km_KeyPrefix ModelBridgeDomain;
  td_WithMetadata := true;
  td_MetadataMapFactory := Some (NewNameToIndex None);
  td_Validate := Some bd_Validate;
  td_Create := Some bd_Create;
  td_Delete := Some bd_Delete;
  td_Update := Some bd_Update;
  td_UpdateWithRecreate := Some bd_UpdateWithRecreate;
  td_Retrieve := Some bd_Retrieve;
  td_IsRetriableFailure := None;
  td_DerivedValues := Some bd_DerivedValues;
  td_Dependencies := None;
  td_RetrieveDependencies := [InterfaceDescriptorName]
|}.
End bridge_domain.

(** ** Interfaces in bridge domains *)

Definition BDInterfaceDescriptorName : string := "vpp-bd-interface".
Definition interfaceDep : string := "interface-exists".

Section bd_interface.
Context {IX : Indexes} (bdIndex : Mapping) (bdHandler : BridgeDomainVppAPI).

Definition IsBDInterfaceKey (key : string) : bool := (ParseBDInterfaceKey key).2.

(** The call on the bridge domain of the key. *)
Definition with_bridge_domain (key : string) (f : Z -> Call) : Call := fun w =>
  let '(bdName, _, _) := ParseBDInterfaceKey key in
  match LookupByName bdIndex bdName with
  | None => (Some (errorf ("failed to obtain metadata for bridge domain " +:+ bdName)), w)
  | Some index => f index w
  end.

Definition bdi_Create (key : string) (bdIface : BridgeDomain_Interface) (w : World) :
    (option Metadata * option error) * World :=
  let '(err, w) := with_bridge_domain key (fun index => AddInterfaceToBridgeDomain bdHandler index bdIface) w in
  ((None, err), w).

Definition bdi_Delete (key : string) (bdIface : BridgeDomain_Interface) (metadata : option Metadata) : Call :=
  with_bridge_domain key (fun index => DeleteInterfaceFromBridgeDomain bdHandler index bdIface).

Definition bdi_Dependencies (key : string) (value : BridgeDomain_Interface) : list Dependency :=
  [simple_dep interfaceDep (InterfaceKey (bdi_Name value))].

Definition BDInterfaceDescriptor : TypedDescriptor BridgeDomain_Interface (option Metadata) := {|
  td_Name := BDInterfaceDescriptorName;
  td_KeySelector := IsBDInterfaceKey;
  td_KeyLabel := None;
  td_ValueComparator := None;
  td_NBKeyPrefix := "";
  td_WithMetadata := false;
  td_MetadataMapFactory := None;
  td_Validate := None;
  td_Create := Some bdi_Create;
  td_Delete := Some bdi_Delete;
  td_Update := None;
  td_UpdateWithRecreate := None;
  td_Retrieve := None;
  td_IsRetriableFailure := None;
  td_DerivedValues := None;
  td_Dependencies := Some bdi_Dependencies;
  td_RetrieveDependencies := []
|}.
End bd_interface.

(** ** L2 FIB entries *)

Definition FIBDescriptorName : string := "vpp-l2-fib".
Definition bridgedInterfaceDep : string := "bridged-interface".
Definition bridgeDomainDep : string := "bridge-domain".

Definition ErrFIBWithoutHwAddr : error := Sentinel "VPP L2 FIB defined without hardware address".
Definition ErrFIBWithoutBD : error := Sentinel "VPP L2 FIB defined without bridge domain".
Definition ErrForwardFIBWithoutInterface : error :=
  Sentinel "VPP L2 FORWARD FIB defined without outgoing interface".

Section fib.
Context (fibHandler : FIBVppAPI).

Definition EquivalentFIBs (key : string) (oldFIB newFIB : FIBEntry) : bool :=
  if negb (fib_Action oldFIB =? fib_Action newFIB)%Z
     || negb (String.eqb (fib_BridgeDomain oldFIB) (fib_BridgeDomain newFIB)) then false
  else if (fib_Action oldFIB =? FIBEntry_FORWARD)%Z
    && (negb (String.eqb (fib_OutgoingInterface oldFIB) (fib_OutgoingInterface newFIB))
        || negb (Bool.eqb (fib_BridgedVirtualInterface oldFIB) (fib_BridgedVirtualInterface newFIB))
        || negb (Bool.eqb (fib_StaticConfig oldFIB) (fib_StaticConfig newFIB))) then false
  else EqualFold (fib_PhysAddress oldFIB) (fib_PhysAddress newFIB).

Definition fib_Validate (key : string) (fib : FIBEntry) : option error :=
  if is_empty (fib_PhysAddress fib) then
    Some (NewInvalidValueError (Some ErrFIBWithoutHwAddr) ["phys_address"])
  else if (fib_Action fib =? FIBEntry_FORWARD)%Z && is_empty (fib_OutgoingInterface fib) then
    Some (NewInvalidValueError (Some ErrForwardFIBWithoutInterface) ["action"; "outgoing_interface"])
  else if is_empty (fib_BridgeDomain fib) then
    Some (NewInvalidValueError (Some ErrFIBWithoutBD) ["bridge_domain"])
  else None.

Definition fib_Create (key : string) (fib : FIBEntry) (w : World) : (option Metadata * option error) * World :=
  let '(err, w) := AddL2FIB fibHandler fib w in ((None, err), w).

Definition fib_Delete (key : string) (fib : FIBEntry) (metadata : option Metadata) : Call :=
  DeleteL2FIB fibHandler fib.

Definition retrieved_fib (fib : FibTableDetails) : TypedKVWithMetadata FIBEntry (option Metadata) :=
  MkTypedKV (FIBKey (fib_BridgeDomain (ftd_Fib fib)) (fib_PhysAddress (ftd_Fib fib))) (ftd_Fib fib) None UnknownOrigin.

Definition fib_Retrieve (correlate : list (TypedKVWithMetadata FIBEntry (option Metadata))) (w : World) :
    (list (TypedKVWithMetadata FIBEntry (option Metadata)) * option error) * World :=
  match DumpL2FIBs fibHandler w with
  | inr err => (([], Some err), w)
  | inl fibs => ((map retrieved_fib (omap (fun mac => fibs !! mac) (map_order (dom fibs))), None), w)
  end.

Definition fib_Dependencies (key : string) (fib : FIBEntry) : list Dependency :=
  if (fib_Action fib =? FIBEntry_FORWARD)%Z
  then [simple_dep bridgedInterfaceDep (BDInterfaceKey (fib_BridgeDomain fib) (fib_OutgoingInterface fib))]
  else [simple_dep bridgeDomainDep (BridgeDomainKey (fib_BridgeDomain fib))].

Definition FIBDescriptor : TypedDescriptor FIBEntry (option Metadata) := {|
  td_Name := FIBDescriptorName;
  td_KeySelector := IsKeyValid ModelFIBEntry;
  td_KeyLabel := Some (StripKeyPrefix ModelFIBEntry);
  td_ValueComparator := Some EquivalentFIBs;
  td_NBKeyPrefix := km_KeyPrefix ModelFIBEntry;
  td_WithMetadata := false;
  td_MetadataMapFactory := None;
  td_Validate := Some fib_Validate;
  td_Create := Some fib_Create;
  td_Delete := Some fib_Delete;
  td_Update := None;
  td_UpdateWithRecreate := None;
  td_Retrieve := Some fib_Retrieve;
  td_IsRetriableFailure := None;
  td_DerivedValues := None;
  td_Dependencies := Some fib_Dependencies;
  td_RetrieveDependencies := [InterfaceDescriptorName; BridgeDomainDescriptorName]
|}.
End fib.

(** ** Cross-connects *)

Definition XConnectDescriptorName : string := "vpp-xconnect".
Definition rxInterfaceDep : string := "rx-interface".
Definition txInterfaceDep : string := "tx-interface".

Definition ErrXConnectWithoutInterface : error := Sentinel "VPP xConnect defined without Rx/Tx interface".

Section xconnect.
Context (xcHandler : XConnectVppAPI).
(** The order in which a map with integer keys is ranged over. *)
Context (index_order : gset Z -> list Z).

Definition xc_Validate (key : string) (xc : XConnectPair) : option error :=
  if is_empty (xc_ReceiveInterface xc) || is_empty (xc_TransmitInterface xc) then
    Some (NewInvalidValueError (Some ErrXConnectWithoutInterface) ["receive_interface"; "transmit_interface"])
  else None.

Definition xc_Create (key : string) (xc : XConnectPair) (w : World) : (option Metadata * option error) * World :=
  let '(err, w) := AddL2XConnect xcHandler (xc_ReceiveInterface xc) (xc_TransmitInterface xc) w in ((None, err), w).

Definition xc_Delete (key : string) (xc : XConnectPair) (metadata : option Metadata) : Call :=
  DeleteL2XConnect xcHandler (xc_ReceiveInterface xc) (xc_TransmitInterface xc).

Definition retrieved_xc (xc : XConnectDetails) : TypedKVWithMetadata XConnectPair (option Metadata) :=
  MkTypedKV (XConnectKey (xc_ReceiveInterface (xcd_Xc xc))) (xcd_Xc xc) None FromNB.

Definition xc_Retrieve (correlate : list (TypedKVWithMetadata XConnectPair (option Metadata))) (w : World) :
    (list (TypedKVWithMetadata XConnectPair (option Metadata)) * option error) * World :=
  match DumpXConnectPairs xcHandler w with
  | inr err => (([], Some err), w)
  | inl pairs => ((map retrieved_xc (omap (fun i => pairs !! i) (index_order (dom pairs))), None), w)
  end.

Definition xc_Dependencies (key : string) (xc : XConnectPair) : list Dependency :=
  [simple_dep rxInterfaceDep (InterfaceKey (xc_ReceiveInterface xc));
   simple_dep txInterfaceDep (InterfaceKey (xc_TransmitInterface xc))].

Definition XConnectDescriptor : TypedDescriptor XConnectPair (option Metadata) := {|
  td_Name := XConnectDescriptorName;
  td_KeySelector := IsKeyValid ModelXConnectPair;
  td_KeyLabel := Some (StripKeyPrefix ModelXConnectPair);
  td_ValueComparator := None;
  td_NBKeyPrefix := km_KeyPrefix ModelXConnectPair;
  td_WithMetadata := false;
  td_MetadataMapFactory := None;
  td_Validate := Some xc_Validate;
  td_Create := Some xc_Create;
  td_Delete := Some xc_Delete;
  td_Update := None;
  td_UpdateWithRecreate := None;
  td_Retrieve := Some xc_Retrieve;
  td_IsRetriableFailure := None;
  td_DerivedValues := None;
  td_Dependencies := Some xc_Dependencies;
  td_RetrieveDependencies := [InterfaceDescriptorName]
|}.
End xconnect.
End l2.
