(* ===== verification/VppL2Table.v ===== *)
(** * The L2 plugin: what VPP has

    The behaviour of VPP as a class of laws, what the calls of the descriptor of
    bridge domains do to VPP's tables of ARP terminations, and what is read back
    of them. *)
From S2P Require Import Prelude Api Adapter GoStrings GoNet GoNetFacts GoNetText GoNetTextFacts GoRegexp Models ModelFacts.
From S2P Require Import AgentModels NameToIndex VppModels VppBinapi VppL2Proto VppL2.

Section facts.
Context {X : Ext} {IX : Indexes} {CH : L2Channel} {MO : MapOrder} {UC : Unicode}.
Context (ifIndexes : Mapping).

(** ** Addresses that VPP is told and reports *)

(** An address as VPP reports it is parsed to the address that was sent. *)
Lemma reported_address s addr : ipToAddress s = inl addr ->
  ParseIP (parseAddressToString addr) = ParseIP s /\ ip_ok 16 (ParseIP s).
Proof.
  unfold ipToAddress. destruct (ParseIP_ok s) as [->|[Hok _]]; [done|].
  pose proof Hok as [Hl Hb]. rewrite Hl. cbn [Nat.eqb].
  destruct (Nat.eqb_spec (length (To4 (ParseIP s))) 0) as [E|E]; intros [= <-]; (split; [|done]).
  - unfold parseAddressToString. cbn [Af Un]. change (ADDRESS_IP6 =? ADDRESS_IP4)%Z with false.
    change (ADDRESS_IP6 =? ADDRESS_IP6)%Z with true. cbv iota.
    assert (To16 (ParseIP s) = ParseIP s) as E16 by (unfold To16; by rewrite Hl).
    rewrite E16, !copy_bytes_exact by (rewrite ?copy_bytes_exact; done). rewrite E16, ParseIP_String by auto. done.
  - unfold parseAddressToString. cbn [Af Un]. change (ADDRESS_IP4 =? ADDRESS_IP4)%Z with true. cbv iota.
    unfold To4 in *. rewrite Hl in *. cbn [Nat.eqb andb] in *.
    destruct (bool_decide (take 12 (ParseIP s) = v4InV6Prefix)) eqn:Ep; [|done].
    apply bool_decide_eq_true in Ep.
    assert (ip_ok 4 (drop 12 (ParseIP s))) as Hd by (split; [rewrite length_drop; lia|by apply Forall_drop]).
    destruct Hd as [Hdl Hdb]. rewrite (copy_bytes_exact 4) by done. rewrite (copy_bytes_exact 16) by apply length_copy_bytes.
    rewrite take_copy_bytes by (done || lia). fold (To4 (drop 12 (ParseIP s))). rewrite To4_4 by done.
    rewrite ParseIP_String by (left; by split). unfold To16. rewrite Hdl. cbn [Nat.eqb]. by rewrite <- Ep, take_drop.
Qed.

(** The entry that is sent for an ARP termination, if its addresses are valid. *)
Definition sent_entry (bdID : Z) (arp : BridgeDomain_ArpTerminationEntry) : option BdIPMac :=
  match ipToAddress (arp_IpAddress arp), ParseMAC (arp_PhysAddress arp) with
  | inl ip, Some mac => Some (MkBdIPMac bdID ip (copy_bytes 6 mac))
  | _, _ => None
  end.

Definition reported_entry (e : BdIPMac) : BridgeDomain_ArpTerminationEntry :=
  MkArpEntry (parseAddressToString (bim_IP e)) (mac_String (bim_Mac e)).

(** The usual hardware addresses: six bytes. *)
Definition mac48 (arp : BridgeDomain_ArpTerminationEntry) : Prop :=
  exists hw, ParseMAC (arp_PhysAddress arp) = Some hw /\ length hw = 6.

Lemma reported_equal id arp e : sent_entry id arp = Some e -> mac48 arp ->
  equalTerminationARPs (reported_entry e) arp = colon_form (arp_PhysAddress arp).
Proof.
  unfold sent_entry. intros H (hw & Hm & Hl). rewrite Hm in H.
  destruct (ipToAddress (arp_IpAddress arp)) as [ip|] eqn:Ei; [|done]. injection H as <-.
  destruct (reported_address _ _ Ei) as [Ep Hok]. unfold equalTerminationARPs, reported_entry. cbn [bim_IP bim_Mac arp_IpAddress arp_PhysAddress].
  rewrite (copy_bytes_exact 6) by done. rewrite (mac_text _ hw) by done.
  destruct (colon_form (arp_PhysAddress arp)); [|done]. cbn [negb]. rewrite Ep, (proj1 Hok). cbn [Nat.eqb orb].
  unfold ip_Equal. rewrite Nat.eqb_refl. by apply bool_decide_eq_true.
Qed.

(** No printed address equals one that is not in the printed form. *)
Lemma reported_other e arp : mac48 arp -> length (bim_Mac e) = 6 -> Forall is_byte (bim_Mac e) ->
  colon_form (arp_PhysAddress arp) = false -> equalTerminationARPs (reported_entry e) arp = false.
Proof.
  intros (hw & Hm & _) Hl Hb Hc. unfold equalTerminationARPs, reported_entry. cbn [arp_PhysAddress].
  by rewrite (mac_printed _ _ _ Hm Hb) by (rewrite ?Hl; lia || done).
Qed.

(** ** What VPP does *)

Context {LT : L2Types}.

(** The bridge domains of VPP and their tables of ARP terminations: the hardware
    address for an IP address.  A request that succeeds has the documented
    effect, a dump without an error reports all there is, and the counter of the
    descriptor is not part of VPP. *)
Class L2Laws := {
  vpp_bds : World -> list BridgeDomainDetails;
  vpp_arp : World -> Z -> ip_Address -> option (list Z);
  vpp_add_arp : forall e w w', SendRequest (BdIPMacAddDel true e) w = (None, w') ->
    vpp_bds w' = vpp_bds w /\ forall id ip, vpp_arp w' id ip
      = if bool_decide (id = bim_BdID e /\ ip = bim_IP e) then Some (bim_Mac e) else vpp_arp w id ip;
  vpp_del_arp : forall e w w', SendRequest (BdIPMacAddDel false e) w = (None, w') ->
    vpp_bds w' = vpp_bds w /\ forall id ip, vpp_arp w' id ip
      = if bool_decide (id = bim_BdID e /\ ip = bim_IP e) then None else vpp_arp w id ip;
  vpp_add_bd : forall id learn arpTerm flood uuFlood fwd age tag w w',
    SendRequest (BridgeDomainAddDel true id learn arpTerm flood uuFlood fwd age tag) w = (None, w') ->
    (forall d, d ∈ vpp_bds w -> bdd_BdID d <> id)
    /\ (forall id' ip, vpp_arp w' id' ip = vpp_arp w id' ip)
    /\ exists tag' bvi, (tag_ok tag -> Trim Ascii.zero tag' = tag)
        /\ vpp_bds w' ≡ₚ MkBdDetails id flood uuFlood fwd learn arpTerm age tag' bvi [] :: vpp_bds w;
  vpp_arp_owner : forall w id ip mac, vpp_arp w id ip = Some mac ->
    length mac = 6 /\ Forall is_byte mac /\ exists d, d ∈ vpp_bds w /\ bdd_BdID d = id;
  vpp_bd_dump : forall w l, BridgeDomainDump max_uint32 max_uint32 w = (l, None) -> l = vpp_bds w;
  vpp_arp_dump : forall w l, BdIPMacDump max_uint32 w = (l, None) ->
    forall e, e ∈ l <-> vpp_arp w (bim_BdID e) (bim_IP e) = Some (bim_Mac e);
  vpp_seq : forall n w, vpp_bds (set_bdIDSeq n w) = vpp_bds w
    /\ (forall id ip, vpp_arp (set_bdIDSeq n w) id ip = vpp_arp w id ip) /\ bdIDSeq (set_bdIDSeq n w) = n
}.
Context {LW : L2Laws}.

(** ** Tables of ARP terminations *)

(** The table of a bridge domain consists of these entries. *)
Definition table_holds (w : World) (id : Z) (arps : list BridgeDomain_ArpTerminationEntry) : Prop :=
  forall ip mac, vpp_arp w id ip = Some mac
    <-> exists arp, arp ∈ arps /\ sent_entry id arp = Some (MkBdIPMac id ip mac).

(** No two entries for the same IP address. *)
Definition distinct_ips (arps : list BridgeDomain_ArpTerminationEntry) : Prop :=
  forall a1 a2 ip, a1 ∈ arps -> a2 ∈ arps ->
    ipToAddress (arp_IpAddress a1) = inl ip -> ipToAddress (arp_IpAddress a2) = inl ip -> a1 = a2.

Lemma sent_entry_fields id arp e : sent_entry id arp = Some e ->
  bim_BdID e = id /\ ipToAddress (arp_IpAddress arp) = inl (bim_IP e).
Proof.
  unfold sent_entry. destruct (ipToAddress _) as [ip|]; [|done]. destruct (ParseMAC _); [|done]. by intros [= <-].
Qed.

Lemma call_arp isAdd id arp w w' :
  callBdIPMacAddDel isAdd id (arp_PhysAddress arp) (arp_IpAddress arp) w = (None, w') ->
  exists e, sent_entry id arp = Some e /\ SendRequest (BdIPMacAddDel isAdd e) w = (None, w').
Proof.
  unfold callBdIPMacAddDel, parse_mac, sent_entry. destruct (ipToAddress _) as [ip|]; [|done].
  destruct (ParseMAC _) as [hw|]; [|done]. intros E. by eexists.
Qed.

(** After entries are added one after the other, an address has the last of the
    entries for it, or what it had before. *)
Lemma added_arps id arps : forall w w', distinct_ips arps ->
  call_each (fun arp => callBdIPMacAddDel true id (arp_PhysAddress arp) (arp_IpAddress arp)) arps w = (None, w') ->
  vpp_bds w' = vpp_bds w /\ (forall arp, arp ∈ arps -> is_Some (sent_entry id arp))
  /\ (forall arp e, arp ∈ arps -> sent_entry id arp = Some e -> vpp_arp w' id (bim_IP e) = Some (bim_Mac e))
  /\ (forall id' ip, (forall arp e, arp ∈ arps -> sent_entry id arp = Some e -> ~ (id' = id /\ ip = bim_IP e)) ->
       vpp_arp w' id' ip = vpp_arp w id' ip).
Proof.
  induction arps as [|a arps IH]; intros w w' Hd; cbn [call_each].
  { intros [= <-]. split_and!; [done| |by intros ? ? ?%not_elem_of_nil|done]. by intros ? ?%not_elem_of_nil. }
  destruct (callBdIPMacAddDel _ _ _ _ w) as [[err|] w1] eqn:E; [done|]. intros E'.
  apply call_arp in E as (e & He & E). apply vpp_add_arp in E as [Hb Ha].
  apply IH in E' as (Hb' & Hs & Hin & Hout); [|intros a1 a2 ip H1 H2; apply Hd; by right].
  destruct (sent_entry_fields _ _ _ He) as [Hid Hip]. split_and!.
  - by rewrite Hb', Hb.
  - intros arp [->|Hi]%elem_of_cons; [by exists e|auto].
  - intros arp e' [->|Hi]%elem_of_cons He'; [|by eapply Hin]. rewrite He in He'. injection He' as <-.
    destruct (decide (a ∈ arps)) as [Hi|Hni]; [by eapply Hin|]. rewrite Hout, Ha, bool_decide_true; [done| |].
    + by rewrite Hid.
    + intros arp e' Hi He' [_ Heq]. destruct (sent_entry_fields _ _ _ He') as [_ Hip'].
      rewrite <- Heq in Hip'. by rewrite (Hd a arp (bim_IP e)) in Hni by (done || (by left) || (by right)).
  - intros id' ip Hno. rewrite Hout by (intros arp e' Hi; apply Hno; by right). rewrite Ha, bool_decide_false; [done|].
    rewrite Hid. apply (Hno a e); [by left|done].
Qed.

Lemma removed_arps id arps : forall w w',
  call_each (fun arp => callBdIPMacAddDel false id (arp_PhysAddress arp) (arp_IpAddress arp)) arps w = (None, w') ->
  vpp_bds w' = vpp_bds w /\ forall id' ip, vpp_arp w' id' ip = vpp_arp w id' ip
    \/ vpp_arp w' id' ip = None /\ id' = id
        /\ exists arp, arp ∈ arps /\ ipToAddress (arp_IpAddress arp) = inl ip.
Proof.
  induction arps as [|a arps IH]; intros w w'; cbn [call_each]; [intros [= <-]; split; [done|by left]|].
  destruct (callBdIPMacAddDel _ _ _ _ w) as [[err|] w1] eqn:E; [done|]. intros E'.
  apply call_arp in E as (e & He & E). apply vpp_del_arp in E as [Hb Ha].
  apply IH in E' as [Hb' H]. split; [by rewrite Hb'|]. destruct (sent_entry_fields _ _ _ He) as [Hid Hip].
  intros id' ip. destruct (H id' ip) as [->|(-> & -> & arp & Hi & Hp)].
  - rewrite Ha. destruct (bool_decide_reflect (id' = bim_BdID e /\ ip = bim_IP e)) as [[-> ->]|]; [right|by left].
    split; [done|]. split; [done|]. exists a. split; [by left|done].
  - right. split; [done|]. split; [done|]. exists arp. split; [by right|done].
Qed.

(** Entries that compare equal are for the same address. *)
Lemma equal_same_ip a1 a2 ip1 ip2 : equalTerminationARPs a1 a2 = true ->
  ipToAddress (arp_IpAddress a1) = inl ip1 -> ipToAddress (arp_IpAddress a2) = inl ip2 -> ip1 = ip2.
Proof.
  unfold equalTerminationARPs. destruct (negb _); [done|]. intros H E1 E2.
  destruct (reported_address _ _ E1) as [_ [L1 _]]. destruct (reported_address _ _ E2) as [_ [L2 _]].
  rewrite L1, L2 in H. cbn [Nat.eqb orb] in H. unfold ip_Equal in H. rewrite L1, L2 in H. cbn [Nat.eqb] in H.
  apply bool_decide_eq_true in H. unfold ipToAddress in *. rewrite H in E1.
  destruct (length (ParseIP (arp_IpAddress a2)) =? 0); [done|]. congruence.
Qed.


(** ** Updates *)

Definition bd_handler : BridgeDomainVppAPI := newBridgeDomainVppHandler ifIndexes.

Lemma arp_diff oldARPs newARPs removed added arp : calculateARPDiff oldARPs newARPs = (removed, added) ->
  (arp ∈ removed <-> arp ∈ newARPs /\ forall o, o ∈ oldARPs -> equalTerminationARPs o arp = false)
  /\ (arp ∈ added <-> arp ∈ oldARPs /\ forall n, n ∈ newARPs -> equalTerminationARPs arp n = false).
Proof.
  intros [= <- <-]. rewrite !list_elem_of_In, !filter_In, !negb_true_iff, <- !list_elem_of_In.
  assert (forall (f : BridgeDomain_ArpTerminationEntry -> bool) l, existsb f l = false <-> forall x, x ∈ l -> f x = false) as He.
  { intros f l. rewrite <- not_true_iff_false, existsb_exists. split.
    - intros H x Hx. apply not_true_iff_false. intros Hf. apply H. exists x. by rewrite <- list_elem_of_In.
    - intros H (x & Hx & Hf). rewrite H in Hf by by rewrite list_elem_of_In. done. }
  by rewrite !He.
Qed.

(** The updated table has for every address what it had before. *)
Lemma diff_keeps id old new w w1 w2 ip :
  table_holds w id old -> distinct_ips old -> distinct_ips new ->
  (forall a, a ∈ new -> exists ip, ipToAddress (arp_IpAddress a) = inl ip) ->
  let '(removed, added) := calculateARPDiff old new in
  (vpp_arp w1 id ip = vpp_arp w id ip
   \/ vpp_arp w1 id ip = None /\ exists arp, arp ∈ removed /\ ipToAddress (arp_IpAddress arp) = inl ip) ->
  (forall arp e, arp ∈ added -> sent_entry id arp = Some e -> vpp_arp w2 id (bim_IP e) = Some (bim_Mac e)) ->
  ((forall arp e, arp ∈ added -> sent_entry id arp = Some e -> ip <> bim_IP e) -> vpp_arp w2 id ip = vpp_arp w1 id ip) ->
  vpp_arp w2 id ip = vpp_arp w id ip.
Proof.
  intros Hw Ho Hn Hv. destruct (calculateARPDiff old new) as [removed added] eqn:Ed.
  pose proof (fun arp => arp_diff _ _ _ _ arp Ed) as Hd. clear Ed. intros H1 Hin Hout.
  destruct (vpp_arp w id ip) as [mac|] eqn:Ew.
  - apply Hw in Ew as (o & Hio & Hs). destruct (sent_entry_fields _ _ _ Hs) as [_ Hip]. cbn [bim_IP] in Hip.
    destruct (decide (o ∈ added)) as [Ha|Hna]; [exact (Hin o _ Ha Hs)|]. rewrite Hout.
    + destruct H1 as [H1|(_ & n & Hr & Hipn)]; [exact H1|]. exfalso.
      apply Hd in Hr as [Hin' Hne].
      apply Hna, Hd. split; [done|]. intros n' Hn'. apply not_true_iff_false. intros Heq.
      destruct (Hv n' Hn') as [ip' Hip']. pose proof (equal_same_ip _ _ _ _ Heq Hip Hip') as <-.
      rewrite (Hn n' n ip) in Heq by done. by rewrite (Hne o Hio) in Heq.
    + intros a e Ha He ->. apply Hna. destruct (sent_entry_fields _ _ _ He) as [_ Hipa].
      rewrite (Ho o a (bim_IP e)); [done|done|by apply Hd|done|done].
  - rewrite Hout.
    + by destruct H1 as [H1|[H1 _]].
    + intros a e Ha He ->. destruct (sent_entry_fields _ _ _ He) as [Hid _].
      assert (vpp_arp w id (bim_IP e) = Some (bim_Mac e)); [|congruence].
      apply Hw. exists a. split; [by apply Hd|]. rewrite He. f_equal. by destruct e; cbn in *; subst.
Qed.

(** ** What is read back *)

Lemma arp_tables msgs : forall tab id,
  default [] (fold_left add_arp_entry msgs tab !! id)
  = default [] (tab !! id) ++ map reported_entry (List.filter (fun e => bim_BdID e =? id)%Z msgs).
Proof.
  induction msgs as [|e msgs IH]; intros tab id; cbn [fold_left List.filter map]; [by rewrite app_nil_r|].
  rewrite IH. unfold add_arp_entry. fold (reported_entry e). destruct (Z.eqb_spec (bim_BdID e) id) as [->|Hne].
  - rewrite lookup_insert_eq. cbn [default]. unfold Datatypes.id. cbn [map]. by rewrite <- app_assoc.
  - by rewrite lookup_insert_ne.
Qed.

(** The dumped table of a bridge domain compares to the configured one by the
    forms of the hardware addresses only. *)
Lemma dumped_table w id arps msgs : table_holds w id arps -> BdIPMacDump max_uint32 w = (msgs, None) ->
  Forall mac48 arps -> (forall arp, arp ∈ arps -> is_Some (sent_entry id arp)) ->
  let '(toAdd, toRemove) := calculateARPDiff (default [] (fold_left add_arp_entry msgs ∅ !! id)) arps in
  (length toAdd =? 0) && (length toRemove =? 0) = forallb (fun arp => colon_form (arp_PhysAddress arp)) arps.
Proof.
  intros Hw Hd Hm Hs. pose proof (vpp_arp_dump _ _ Hd) as Hdump. rewrite Forall_forall in Hm.
  rewrite arp_tables, lookup_empty. cbn [default app]. set (tab := map reported_entry _).
  assert (forall r, r ∈ tab <-> exists arp e, arp ∈ arps /\ sent_entry id arp = Some e /\ r = reported_entry e
    /\ length (bim_Mac e) = 6 /\ Forall is_byte (bim_Mac e)) as Htab.
  { intros r. unfold tab. rewrite list_elem_of_In, in_map_iff. split.
    - intros (e & <- & [He Hid%Z.eqb_eq]%filter_In). rewrite <- list_elem_of_In, Hdump, Hid in He.
      destruct (vpp_arp_owner _ _ _ _ He) as (Hl & Hb & _). apply Hw in He as (arp & Hi & He). exists arp, e.
      split_and!; try done. rewrite He. f_equal. destruct e; cbn in *; by subst.
    - intros (arp & e & Hi & He & -> & _). exists e. split; [done|]. apply filter_In. destruct (sent_entry_fields _ _ _ He) as [Hid _].
      split; [|by apply Z.eqb_eq]. rewrite <- list_elem_of_In, Hdump, Hid. apply Hw. exists arp. split; [done|]. rewrite He.
      f_equal. destruct e; cbn in *; by subst. }
  destruct (calculateARPDiff tab arps) as [toAdd toRemove] eqn:Ed.
  pose proof (fun arp => arp_diff _ _ _ _ arp Ed) as Hdiff. clear Ed.
  apply eq_true_iff_eq. rewrite andb_true_iff, !Nat.eqb_eq, !length_zero_iff_nil, forallb_forall. split.
  - intros [-> ->] arp Hi. apply list_elem_of_In in Hi. apply not_false_iff_true. intros Hc.
    eapply not_elem_of_nil, (proj2 (proj1 (Hdiff arp))). split; [done|].
    intros r (arp' & e & _ & _ & -> & Hl & Hb)%Htab. apply reported_other; auto.
  - intros Hc. split.
    + apply elem_of_nil_inv. intros arp [Hi Hno]%Hdiff. destruct (Hs arp Hi) as [e He].
      assert (reported_entry e ∈ tab) as Hr.
      { apply Htab. exists arp, e. destruct (Hm arp Hi) as (hw & Hp & Hl). unfold sent_entry in *. rewrite Hp in *.
        destruct (ipToAddress _); [|done]. injection He as <-. cbn [bim_Mac]. rewrite copy_bytes_exact by done.
        pose proof (ParseMAC_bytes _ _ Hp). done. }
      pose proof (Hno _ Hr) as H. rewrite (reported_equal id arp e He (Hm arp Hi)) in H.
      rewrite Hc in H by by apply list_elem_of_In. done.
    + apply elem_of_nil_inv. intros r [(arp & e & Hi & He & -> & _)%Htab Hno]%Hdiff. pose proof (Hno arp Hi) as H.
      rewrite (reported_equal id arp e He (Hm arp Hi)) in H. rewrite Hc in H by by apply list_elem_of_In. done.
Qed.

Lemma retrieve_bds_elem d bds : d ∈ bds -> bd_Name (bdd_Bd d) <> "" -> forall seq untagged,
  MkTypedKV (BridgeDomainKey (bd_Name (bdd_Bd d))) (bdd_Bd d) (Some (MkOnlyIndex (bdm_BdID (bdd_Meta d)))) FromNB
    ∈ (retrieve_bds bds seq untagged).1.
Proof.
  intros Hd Hne. induction bds as [|d' bds IH]; intros seq untagged; [by apply not_elem_of_nil in Hd|].
  cbn [retrieve_bds]. destruct (retrieve_bds bds _ _) as [rest seq'] eqn:E. cbn [fst].
  apply elem_of_cons in Hd as [<-|Hd]; [|right; change rest with (rest, seq').1; rewrite <- E; by apply IH].
  unfold is_empty. rewrite (proj2 (String.eqb_neq _ "") Hne). by left.
Qed.

(** The next identifier follows all of VPP's, unless it would overflow. *)
Lemma retrieve_bds_seq bds : Forall (fun d => bdm_BdID (bdd_Meta d) < max_uint32)%Z bds ->
  forall seq untagged, (1 <= seq)%Z -> let seq' := (retrieve_bds bds seq untagged).2 in
  (seq <= seq')%Z /\ Forall (fun d => bdm_BdID (bdd_Meta d) < seq')%Z bds.
Proof.
  induction 1 as [|d bds Hd _ IH]; intros seq untagged Hs; [split; [cbn; lia|constructor]|].
  cbn [retrieve_bds]. set (seq1 := if (seq <=? _)%Z then _ else seq).
  assert (seq <= seq1 /\ bdm_BdID (bdd_Meta d) < seq1)%Z as [H1 H2].
  { unfold seq1, uint32. unfold max_uint32 in Hd. destruct (Z.leb_spec seq (bdm_BdID (bdd_Meta d))); [|lia].
    rewrite Z.mod_small; lia. }
  set (u := if is_empty _ then S untagged else untagged). specialize (IH seq1 u ltac:(lia)) as [H3 H4].
  destruct (retrieve_bds bds seq1 u) as [rest seq']. cbn [snd] in *. split; [lia|]. constructor; [lia|done].
Qed.

Lemma dump_bds w l : dump_bridge_domains ifIndexes w = inl l ->
  exists msgs, BdIPMacDump max_uint32 w = (msgs, None)
    /\ l = map (dumped_bridge_domain ifIndexes (fold_left add_arp_entry msgs ∅)) (vpp_bds w).
Proof.
  unfold dump_bridge_domains, dumpBridgeDomainMacTable. destruct (BdIPMacDump max_uint32 w) as [msgs [err|]]; [done|].
  destruct (BridgeDomainDump max_uint32 max_uint32 w) as [bds [err|]] eqn:E; [done|]. intros [= <-].
  exists msgs. by rewrite (vpp_bd_dump _ _ E).
Qed.

Lemma created_bd key bd w m w' : tag_ok (bd_Name bd) -> distinct_ips (bd_ArpTerminationTable bd) ->
  bd_Create bd_handler key bd w = ((Some m, None), w') ->
  (forall d, d ∈ vpp_bds w -> bdd_BdID d <> Index m)
  /\ (exists tag bvi, Trim Ascii.zero tag = bd_Name bd
      /\ MkBdDetails (Index m) (bd_Flood bd) (bd_UnknownUnicastFlood bd) (bd_Forward bd) (bd_Learn bd) (bd_ArpTermination bd)
           (uint8 (bd_MacAge bd)) tag bvi [] ∈ vpp_bds w')
  /\ table_holds w' (Index m) (bd_ArpTerminationTable bd)
  /\ forall arp, arp ∈ bd_ArpTerminationTable bd -> is_Some (sent_entry (Index m) arp).
Proof.
  intros Htag Hd. unfold bd_Create, bd_handler. cbn [AddBridgeDomain newBridgeDomainVppHandler]. unfold add_bridge_domain.
  set (w0 := set_bdIDSeq _ w). destruct (SendRequest _ w0) as [[err|] w1] eqn:E1; [done|].
  destruct (call_each _ _ w1) as [[err|] w2] eqn:E2; [done|]. intros [= <- ->]. cbn [Index].
  destruct (vpp_seq (uint32 (bdIDSeq w + 1)) w) as (Sb & Sa & _). fold w0 in Sb, Sa.
  apply vpp_add_bd in E1 as (Hf & Ha & tag & bvi & Ht & Hb). apply (added_arps _ _ _ _ Hd) in E2 as (Hb' & Hs & Hin & Hout).
  rewrite Sb in *. split; [done|]. split; [|split; [|done]].
  - exists tag, bvi. split; [auto|]. rewrite Hb', Hb. by left.
  - intros ip mac. split.
    + intros Hm. destruct (decide (Exists (fun arp => bim_IP <$> sent_entry (bdIDSeq w) arp = Some ip)
        (bd_ArpTerminationTable bd))) as [(arp & Hi & (e & He & ->)%fmap_Some)%Exists_exists|Hno].
      * exists arp. split; [done|]. rewrite (Hin arp e Hi He) in Hm. injection Hm as <-.
        destruct (sent_entry_fields _ _ _ He) as [Hid _]. rewrite He, <- Hid. by destruct e.
      * exfalso. rewrite Hout, Ha, Sa in Hm.
        { apply vpp_arp_owner in Hm as (_ & _ & d & Hi & Hid). by apply (Hf d). }
        intros arp e Hi He [_ ->]. apply Hno, Exists_exists. exists arp. by rewrite He.
    + intros (arp & Hi & He). exact (Hin arp _ Hi He).
Qed.

End facts.

(** ** A VPP with bridge domains *)

Inductive L2Value :=
  | BdValue (bd : BridgeDomain) | BdiValue (bdi : BridgeDomain_Interface) | FibValue (fib : FIBEntry)
  | XcValue (xc : XConnectPair).

#[export] Instance L2Value_eq : EqDecision L2Value.
Proof. solve_decision. Defined.

Record L2World := MkL2World {
  w_bds : list BridgeDomainDetails;
  w_arps : list BdIPMac;
  w_fibs : list L2FibTableDetails;
  w_seq : Z
}.

(** Metadata of interfaces and of bridge domains. *)
Definition L2Meta : Type := IfaceMetadata + option OnlyIndex.

Definition L2Index : Type := gmap string L2Meta.

Definition l2_ext : Ext := {|
  Value := L2Value;
  proto_Equal := fun a b => bool_decide (a = b);
  proto_MessageName := fun v => match v with
    | BdValue _ => "ligato.vpp.l2.BridgeDomain" | BdiValue _ => "ligato.vpp.l2.BridgeDomain.Interface"
    | FibValue _ => "ligato.vpp.l2.FIBEntry" | XcValue _ => "ligato.vpp.l2.XConnectPair" end;
  fmt_v := fun _ => "";
  Metadata := L2Meta;
  DeepEqual := fun _ _ => false;
  Mapping := L2Index;
  nm_New := ∅;
  nm_Put := fun m k v => <[k := v]> m;
  nm_Delete := fun m k => delete k m;
  nm_Update := fun m k v => match v with Some v => <[k := v]> m | None => m end;
  nm_GetValue := fun m k => m !! k;
  nm_ListFields := fun m k => [];
  World := L2World;
  netns_escaped := fun _ => false;
  clock_reading := fun n => Z.of_nat n;
  ext_runtime := doubling
|}.

#[local] Existing Instance l2_ext.

Definition meta_index (m : L2Meta) : option Z :=
  match m with
  | inl i => Some (SwIfIndex i)
  | inr (Some i) => Some (Index i)
  | inr None => None
  end.

#[export] Instance l2_indexes : Indexes := {|
  NewNamedMapping := fun _ => ∅ : L2Index;
  nm_ListNames := fun (m : L2Index) f v =>
    (filter (fun e => Itoa <$> meta_index e.2 = Some v) (map_to_list m)).*1;
  as_WithIndex := meta_index;
  as_IfaceMetadata := fun m : L2Meta => match m with inl i => Some i | inr _ => None end
|}.

#[export] Instance l2_types : L2Types := {|
  l2_BridgeDomain := {| as_value := fun v : @Value l2_ext => match v with BdValue b => Some b | _ => None end; of_value := BdValue |};
  l2_BDInterface := {| as_value := fun v : @Value l2_ext => match v with BdiValue b => Some b | _ => None end; of_value := BdiValue |};
  l2_FIBEntry := {| as_value := fun v : @Value l2_ext => match v with FibValue b => Some b | _ => None end; of_value := FibValue |};
  l2_XConnectPair := {| as_value := fun v : @Value l2_ext => match v with XcValue b => Some b | _ => None end; of_value := XcValue |};
  l2_as_OnlyIndex := fun m : @Metadata l2_ext => match m with inr i => Some i | inl _ => None end;
  l2_of_OnlyIndex := inr;
  bdIDSeq := w_seq;
  set_bdIDSeq := fun n w => MkL2World (w_bds w) (w_arps w) (w_fibs w) n
|}.

(** ** Requests *)

Definition has_bd (w : L2World) (id : Z) : bool := existsb (fun d => bdd_BdID d =? id)%Z (w_bds w).

Definition mac_ok (mac : list Z) : bool := (length mac =? 6) && forallb (fun b => (0 <=? b) && (b <? 256))%Z mac.

(** Entries of bridge domains that exist. *)
Definition live (w : L2World) (e : BdIPMac) : bool := has_bd w (bim_BdID e) && mac_ok (bim_Mac e).

Definition at_key (id : Z) (ip : ip_Address) (e : BdIPMac) : bool :=
  (bim_BdID e =? id)%Z && bool_decide (bim_IP e = ip).

Definition set_arps (arps : list BdIPMac) (w : L2World) : L2World := MkL2World (w_bds w) arps (w_fibs w) (w_seq w).

Definition vpp_error : option error := Some (Opaque "VPPApiError").

Definition l2_request (r : L2Request) (w : L2World) : option error * L2World :=
  match r with
  | BdIPMacAddDel true e => if live w e then (None, set_arps (e :: w_arps w) w) else (vpp_error, w)
  | BdIPMacAddDel false e =>
      if has_bd w (bim_BdID e)
      then (None, set_arps (List.filter (fun e' => negb (at_key (bim_BdID e) (bim_IP e) e')) (w_arps w)) w)
      else (vpp_error, w)
  | BridgeDomainAddDel true id learn arpTerm flood uuFlood fwd age tag =>
      if has_bd w id then (vpp_error, w)
      else (None, MkL2World (MkBdDetails id flood uuFlood fwd learn arpTerm age tag max_uint32 [] :: w_bds w)
                    (List.filter (live w) (w_arps w)) (w_fibs w) (w_seq w))
  | BridgeDomainAddDel false id _ _ _ _ _ _ _ =>
      (None, MkL2World (List.filter (fun d => negb (bdd_BdID d =? id)%Z) (w_bds w)) (w_arps w) (w_fibs w) (w_seq w))
  | L2fibAddDel true mac id sw bvi static flt =>
      (None, MkL2World (w_bds w) (w_arps w) (MkL2FibDetails id mac sw static flt bvi :: w_fibs w) (w_seq w))
  | _ => (None, w)
  end.

Definition arp_of (w : L2World) (id : Z) (ip : ip_Address) : option (list Z) :=
  bim_Mac <$> find (at_key id ip) (List.filter (live w) (w_arps w)).

#[export] Instance l2_channel : L2Channel (X := l2_ext) := {|
  SendRequest := l2_request;
  BdIPMacDump := fun _ w =>
    (List.filter (fun e => bool_decide (arp_of w (bim_BdID e) (bim_IP e) = Some (bim_Mac e))) (w_arps w), None);
  BridgeDomainDump := fun _ _ w => (w_bds w, None);
  L2FibTableDump := fun _ w => (w_fibs w, None);
  L2XconnectDump := fun _ => ([], None)
|}.

(** ** The laws *)

Lemma at_key_spec id ip e : at_key id ip e = true <-> id = bim_BdID e /\ ip = bim_IP e.
Proof. unfold at_key. rewrite andb_true_iff, Z.eqb_eq, bool_decide_eq_true. split; by intros [-> ->]. Qed.

Lemma find_filter {A} (p q : A -> bool) l : (forall x, p x = true -> q x = true) -> find p (List.filter q l) = find p l.
Proof.
  intros H. induction l as [|x l IH]; [done|]. cbn [List.filter find]. destruct (q x) eqn:Eq; cbn [find].
  - by rewrite IH.
  - destruct (p x) eqn:Ep; [by rewrite H in Eq|done].
Qed.

Lemma find_filter_none {A} (p q : A -> bool) l : (forall x, p x = true -> q x = false) -> find p (List.filter q l) = None.
Proof.
  intros H. induction l as [|x l IH]; [done|]. cbn [List.filter find]. destruct (q x) eqn:Eq; cbn [find]; [|done].
  destruct (p x) eqn:Ep; [by rewrite H in Eq|done].
Qed.

Lemma filter_comm {A} (p q : A -> bool) l : List.filter p (List.filter q l) = List.filter q (List.filter p l).
Proof.
  induction l as [|x l IH]; [done|]. cbn [List.filter].
  destruct (q x) eqn:Eq, (p x) eqn:Ep; cbn [List.filter]; rewrite ?Eq, ?Ep, IH; done.
Qed.

(** Entries that are live stay so when only they are kept. *)
Lemma find_live p w w' l : (forall e, live w e = true -> live w' e = true) ->
  find p (List.filter (live w') (List.filter (live w) l)) = find p (List.filter (live w) l).
Proof.
  intros H. induction l as [|x l IH]; [done|]. cbn [List.filter]. destruct (live w x) eqn:E; [|done].
  cbn [List.filter]. rewrite (H x E). cbn [find]. by rewrite IH.
Qed.

#[export] Instance l2_laws `{UC : Unicode} : L2Laws.
Proof.
  refine {| vpp_bds := w_bds; vpp_arp := arp_of |}.
  - cbn. intros e w w'. destruct (live w e) eqn:El; [|done]. intros [= <-]. split; [done|]. intros id ip.
    unfold arp_of. cbn [w_arps set_arps List.filter]. change (live (set_arps _ w)) with (live w). rewrite El. cbn [find].
    rewrite <- (bool_decide_ext _ _ (at_key_spec id ip e)). destruct (at_key id ip e); done.
  - cbn. intros e w w'. destruct (has_bd w _); [|done]. intros [= <-]. split; [done|]. intros id ip.
    unfold arp_of. cbn [w_arps set_arps]. change (live (set_arps _ w)) with (live w). rewrite filter_comm.
    destruct (bool_decide_reflect (id = bim_BdID e /\ ip = bim_IP e)) as [[-> ->]|Hne].
    + by rewrite find_filter_none by (intros x ->; done).
    + rewrite find_filter; [done|]. intros x [-> ->]%at_key_spec. apply negb_true_iff, not_true_iff_false.
      intros [H1 H2]%at_key_spec. by apply Hne.
  - cbn. intros id learn arpTerm flood uuFlood fwd age tag w w'. destruct (has_bd w id) eqn:Eh; [done|]. intros [= <-].
    split_and!.
    + intros d Hd Hid. apply not_true_iff_false in Eh. apply Eh, existsb_exists. exists d.
      by rewrite <- list_elem_of_In, Z.eqb_eq.
    + intros id' ip. unfold arp_of. cbn [w_arps]. rewrite find_live; [done|]. intros e. unfold live, has_bd. cbn [w_bds existsb].
      intros [-> ->]%andb_true_iff. by rewrite orb_true_r.
    + exists tag, max_uint32. split; [|done]. intros [_ Ht]. by apply Trim_none.
  - cbn. intros w id ip mac (e & He & ->)%fmap_Some. apply find_some in He as [[_ Hl]%filter_In [-> _]%at_key_spec].
    unfold live, mac_ok in Hl. rewrite !andb_true_iff, Nat.eqb_eq, forallb_forall in Hl. destruct Hl as (Hb & Hl & Hm).
    split_and!; [done| |].
    + apply Forall_forall. intros b Hb'%list_elem_of_In%Hm. unfold is_byte. lia.
    + unfold has_bd in Hb. apply existsb_exists in Hb as (d & Hd & Hid%Z.eqb_eq). exists d. by rewrite list_elem_of_In.
  - cbn. by intros w l [= <-].
  - cbn. intros w l [= <-] e. rewrite list_elem_of_In, filter_In, bool_decide_eq_true. split; [by intros []|].
    intros H. split; [|done]. pose proof H as (e' & He & Hm)%fmap_Some.
    apply find_some in He as [[Hi _]%filter_In [Hb Hip]%at_key_spec]. destruct e, e'. cbn in *. by subst.
  - by intros n w.
Defined.
