(* ===== verification/VppL2Facts.v ===== *)
(** * The L2 plugin: bridge domains and keys

    What is read back of a bridge domain, what an update does to its table of ARP
    terminations, and which keys bindings and FIB entries depend on. *)
From S2P Require Import Prelude Api Adapter GoStrings GoNet GoNetFacts GoNetText GoNetTextFacts GoTemplate GoRegexp Models.
From S2P Require Import ModelFacts AgentModels NameToIndex VppModels VppBinapi VppL2Proto VppL2 VppL2Table.

Section bridge_domains.
Context {X : Ext} {IX : Indexes} {CH : L2Channel} {MO : MapOrder} {UC : Unicode} {LT : L2Types} {LW : L2Laws}.
Context (ifIndexes : Mapping).

(** C23: [calculateARPDiff] returns the entries to add where its caller expects
    those to remove, and the other way round: when the table of a bridge domain
    holds the entries of the old value and the new value has one entry with a
    valid text for an address, an Update that succeeds leaves the table with
    exactly the entries of the old value, none added and none removed, and all
    other tables as they were. *)
Theorem bd_update_keeps_table key old new m w w' :
  table_holds w (Index m) (bd_ArpTerminationTable old) ->
  distinct_ips (bd_ArpTerminationTable old) -> distinct_ips (bd_ArpTerminationTable new) ->
  (forall a, a ∈ bd_ArpTerminationTable new -> exists ip, ipToAddress (arp_IpAddress a) = inl ip) ->
  bd_Update (bd_handler ifIndexes) key old new (Some m) w = ((Some m, None), w') ->
  table_holds w' (Index m) (bd_ArpTerminationTable old)
  /\ vpp_bds w' = vpp_bds w /\ forall id ip, vpp_arp w' id ip = vpp_arp w id ip.
Proof.
  intros Hw Ho Hn Hv. unfold bd_Update.
  pose proof (fun w1 w2 ip => diff_keeps (Index m) _ _ w w1 w2 ip Hw Ho Hn Hv) as Hk.
  destruct (calculateARPDiff _ _) as [removed added] eqn:Ed. pose proof (fun arp => arp_diff _ _ _ _ arp Ed) as Hd.
  clear Ed. cbv zeta.
  destruct (call_each (remove_arp _ _) _ w) as [[?|] w1] eqn:E1; [done|].
  destruct (call_each (add_arp _ _) _ w1) as [[?|] w2] eqn:E2; [done|]. intros [= ->].
  apply removed_arps in E1 as [Hb1 H1]. apply added_arps in E2 as (Hb2 & _ & Hin & Hout).
  2: { intros a1 a2 ip [Ha1 _]%Hd [Ha2 _]%Hd. by apply Ho. }
  assert (forall id ip, vpp_arp w' id ip = vpp_arp w id ip) as Heq.
  { intros id ip. destruct (decide (id = Index m)) as [->|Hid].
    - apply (Hk w1 w' ip); [|done|intros H; apply Hout; intros arp e Ha He [_ Hx]; by apply (H arp e)].
      destruct (H1 (Index m) ip) as [H|(H & _ & H')]; auto.
    - rewrite Hout by (intros ? ? ? ? []; done). by destruct (H1 id ip) as [H|(_ & H & _)]. }
  split; [|split; [by rewrite Hb2|done]]. intros ip mac. by rewrite Heq.
Qed.

(** C16: A bridge domain that was created is read back under its key with the
    metadata of the creation, and the value read back is equivalent to the one
    configured exactly when the MAC age fits into 8 bits (VPP is told its
    remainder) and all hardware addresses in the table are written with colons
    (those with hyphens or dots never compare equal to what VPP reports).
    Afterwards the identifier of the next bridge domain is one that VPP does not
    have, unless VPP has the largest one.  It is assumed that the bridge domain has
    a name, of less than 64 characters and without a zero byte, and that its table
    has distinct IP addresses and hardware addresses of 48 bits. *)
Theorem bd_create_retrieve key bd m correlate kvs w w' w'' :
  bd_Name bd <> "" -> tag_ok (bd_Name bd) -> (0 <= bd_MacAge bd)%Z ->
  distinct_ips (bd_ArpTerminationTable bd) -> Forall mac48 (bd_ArpTerminationTable bd) ->
  bd_Create (bd_handler ifIndexes) key bd w = ((Some m, None), w') ->
  bd_Retrieve (bd_handler ifIndexes) correlate w' = ((kvs, None), w'') ->
  (exists v, MkTypedKV (BridgeDomainKey (bd_Name bd)) v (Some m) FromNB ∈ kvs
    /\ EquivalentBridgeDomains key v bd
       = (bd_MacAge bd <? 256)%Z && forallb (fun arp => colon_form (arp_PhysAddress arp)) (bd_ArpTerminationTable bd))
  /\ (Forall (fun d => bdd_BdID d < max_uint32)%Z (vpp_bds w') ->
       Forall (fun d => bdd_BdID d <> bdIDSeq w'') (vpp_bds w'')).
Proof.
  intros Hname Htag Hage Hd Hm Hc. destruct (created_bd ifIndexes _ _ _ _ _ Htag Hd Hc) as (_ & (tag & bvi & Ht & Hin) & Htab & Hs).
  unfold bd_Retrieve. cbn [DumpBridgeDomains bd_handler newBridgeDomainVppHandler].
  destruct (dump_bridge_domains ifIndexes w') as [l|] eqn:El; [|done]. apply (dump_bds ifIndexes (LW := LW)) in El as (msgs & Ea & ->).
  set (dumped := dumped_bridge_domain _ _). destruct (retrieve_bds _ 1 0) as [kvs' seq] eqn:Er. intros [= -> <-].
  destruct m as [id]. cbn [Index] in *. split.
  - pose proof (dumped_table w' id _ msgs Htab Ea Hm Hs) as Heq.
    exists (bdd_Bd (dumped (MkBdDetails id (bd_Flood bd) (bd_UnknownUnicastFlood bd) (bd_Forward bd) (bd_Learn bd)
      (bd_ArpTermination bd) (uint8 (bd_MacAge bd)) tag bvi []))). split.
    + change kvs with (kvs, seq).1. rewrite <- Er. apply (list_elem_of_fmap_2 dumped) in Hin.
      pose proof (retrieve_bds_elem _ _ Hin) as H. change (bd_Name (bdd_Bd (dumped _))) with (Trim Ascii.zero tag) in H.
      rewrite Ht in H. by apply H.
    + unfold EquivalentBridgeDomains, equalBDParameters. cbn [dumped dumped_bridge_domain bdd_Bd bd_ArpTermination bd_Flood
        bd_Forward bd_Learn bd_MacAge bd_UnknownUnicastFlood bd_ArpTerminationTable bdd_BdID bdd_ArpTerm bdd_Flood bdd_Forward
        bdd_Learn bdd_MacAge bdd_UuFlood]. rewrite !eqb_reflx. cbn [andb].
      assert ((uint8 (bd_MacAge bd) =? bd_MacAge bd) = (bd_MacAge bd <? 256))%Z as ->.
      { unfold uint8. destruct (Z.ltb_spec (bd_MacAge bd) 256); [by rewrite Z.mod_small, Z.eqb_refl by lia|].
        apply Z.eqb_neq. pose proof (Z.mod_pos_bound (bd_MacAge bd) 256). lia. }
      destruct (bd_MacAge bd <? 256)%Z; [|done]. cbn [andb negb].
      destruct (calculateARPDiff _ _) as [toAdd toRemove]. exact Heq.
  - intros Hids. destruct (vpp_seq seq w') as (-> & _ & ->).
    pose proof (retrieve_bds_seq (map dumped (vpp_bds w'))) as H. rewrite Forall_map in H.
    specialize (H Hids 1%Z 0 ltac:(lia)). rewrite Er in H. destruct H as [_ H]. rewrite Forall_map in H.
    eapply Forall_impl; [exact H|]. cbn. lia.
Qed.
End bridge_domains.

(** ** FIB entries *)

Section fibs.
Context {X : Ext} {IX : Indexes} {CH : L2Channel} {MO : MapOrder} {UC : Unicode} {LT : L2Types}.

(** What a reply of the dump is, if its interface and bridge domain are known. *)
Definition dumped_fib (ifIndexes bdIndexes : Mapping) (d : L2FibTableDetails) : option FibTableDetails :=
  ifName ← (if lfd_FilterMac d then Some ""
            else match LookupBySwIfIndex ifIndexes (lfd_SwIfIndex d) with
                 | (name, _, true) => Some name | _ => None end);
  '(bdName, _, _) ← LookupByIndex bdIndexes (lfd_BdID d);
  Some (MkFtd (MkFIBEntry (mac_String (lfd_Mac d)) bdName (if lfd_FilterMac d then FIBEntry_DROP else FIBEntry_FORWARD)
                 ifName (lfd_StaticMac d) (lfd_BviMac d))
          (MkFibMeta (lfd_BdID d) (lfd_SwIfIndex d))).

Lemma add_fib_eq ifIndexes bdIndexes fibs d : add_fib ifIndexes bdIndexes fibs d
  = match dumped_fib ifIndexes bdIndexes d with
    | Some f => <[mac_String (lfd_Mac d) := f]> fibs
    | None => fibs
    end.
Proof.
  unfold add_fib, dumped_fib. destruct (lfd_FilterMac d).
  - change (FIBEntry_DROP =? FIBEntry_FORWARD)%Z with false. cbn [mbind option_bind].
    by destruct (LookupByIndex bdIndexes (lfd_BdID d)) as [[[? ?] ?]|].
  - change (FIBEntry_FORWARD =? FIBEntry_FORWARD)%Z with true. cbv iota.
    destruct (LookupBySwIfIndex ifIndexes (lfd_SwIfIndex d)) as [[name md] []]; cbn [mbind option_bind]; [|done].
    by destruct (LookupByIndex bdIndexes (lfd_BdID d)) as [[[? ?] ?]|].
Qed.

(** The replies for a hardware address that are not left out. *)
Definition fibs_of (ifIndexes bdIndexes : Mapping) (mac : string) (msgs : list L2FibTableDetails) : list FibTableDetails :=
  omap (fun d => if String.eqb (mac_String (lfd_Mac d)) mac then dumped_fib ifIndexes bdIndexes d else None) msgs.

Lemma dumped_fibs ifIndexes bdIndexes mac msgs : forall fibs,
  fold_left (add_fib ifIndexes bdIndexes) msgs fibs !! mac
  = match last (fibs_of ifIndexes bdIndexes mac msgs) with Some f => Some f | None => fibs !! mac end.
Proof.
  induction msgs as [|d msgs IH] using rev_ind; intros fibs; [done|].
  rewrite fold_left_app. cbn [fold_left]. rewrite add_fib_eq. unfold fibs_of. rewrite omap_app. cbn [omap list_omap].
  destruct (String.eqb_spec (mac_String (lfd_Mac d)) mac) as [<-|Hne].
  - destruct (dumped_fib ifIndexes bdIndexes d) as [f|]; [by rewrite lookup_insert_eq, last_snoc|].
    rewrite app_nil_r. apply IH.
  - rewrite app_nil_r. destruct (dumped_fib ifIndexes bdIndexes d); [rewrite lookup_insert_ne by done|]; apply IH.
Qed.

Lemma dumped_mac ifIndexes bdIndexes mac msgs f : last (fibs_of ifIndexes bdIndexes mac msgs) = Some f ->
  fib_PhysAddress (ftd_Fib f) = mac.
Proof.
  intros Hl. apply last_Some_elem_of in Hl. unfold fibs_of in Hl. apply list_elem_of_omap in Hl as (d & _ & Hd).
  destruct (String.eqb_spec (mac_String (lfd_Mac d)) mac) as [<-|]; [|done]. unfold dumped_fib in Hd.
  apply bind_Some in Hd as (n & _ & Hd). by apply bind_Some in Hd as ([[bdName ?] ?] & _ & [= <-]).
Qed.

(** C34: What is retrieved of the FIB table has one entry for a hardware address:
    of all entries that VPP has for it, in whatever bridge domains, the last one
    of the dump whose bridge domain is known and which drops or goes over a known
    interface; nothing else is retrieved, and without such an entry none. *)
Theorem fib_retrieve_by_mac (ifIndexes bdIndexes : Mapping) correlate w msgs :
  L2FibTableDump max_uint32 w = (msgs, None) ->
  exists kvs, fib_Retrieve (newFIBVppHandler ifIndexes bdIndexes) correlate w = ((kvs, None), w)
    /\ NoDup (map (fun kv => fib_PhysAddress (tkv_Value kv)) kvs)
    /\ forall kv, kv ∈ kvs <-> exists mac f, last (fibs_of ifIndexes bdIndexes mac msgs) = Some f /\ kv = retrieved_fib f.
Proof.
  intros Hd. unfold fib_Retrieve. cbn [DumpL2FIBs newFIBVppHandler]. unfold dump_l2_fibs. rewrite Hd.
  set (fibs := fold_left _ msgs ∅).
  assert (forall mac, fibs !! mac = last (fibs_of ifIndexes bdIndexes mac msgs)) as Hf.
  { intros mac. unfold fibs. rewrite dumped_fibs, lookup_empty. by destruct (last _). }
  eexists. split; [reflexivity|]. rewrite map_map. split.
  - assert (forall l : list string, NoDup l ->
      NoDup (map (fun f => fib_PhysAddress (tkv_Value (retrieved_fib f))) (omap (fun mac => fibs !! mac) l))) as H.
    { induction 1 as [|mac l Hni _ IH]; [constructor|]. cbn [omap list_omap]. rewrite Hf.
      destruct (last (fibs_of ifIndexes bdIndexes mac msgs)) as [f|] eqn:El; [|exact IH]. cbn [map]. constructor; [|exact IH].
      cbn [retrieved_fib tkv_Value]. rewrite (dumped_mac _ _ _ _ _ El). intros H. apply Hni.
      apply list_elem_of_In, in_map_iff in H as (f' & Hm & (mac' & Hi & Hf')%list_elem_of_In%list_elem_of_omap).
      rewrite Hf in Hf'. cbn in Hm. rewrite (dumped_mac _ _ _ _ _ Hf') in Hm. by subst. }
    apply H. rewrite map_order_perm. apply NoDup_elements.
  - intros kv. rewrite list_elem_of_In, in_map_iff. split.
    + intros (f & <- & (mac & _ & E)%list_elem_of_In%list_elem_of_omap). exists mac, f. by rewrite <- Hf.
    + intros (mac & f & E & ->). exists f. split; [done|]. rewrite <- Hf in E. apply list_elem_of_In, list_elem_of_omap.
      exists mac. split; [|done]. apply elem_of_map_order, elem_of_dom. by eexists.
Qed.

End fibs.

(** ** Instances *)

#[local] Existing Instance l2_ext.

(** A bridge domain with two ARP terminations, one written with hyphens, and a
    MAC age that does not fit. *)
Definition byte_runes : Unicode := {| fold_runes := String.eqb |}.
#[local] Existing Instance byte_runes.
#[local] Existing Instance elements_order.

Definition arp1 : BridgeDomain_ArpTerminationEntry := MkArpEntry "10.0.0.1" "00:1A:2B:3C:4D:5E".
Definition arp2 : BridgeDomain_ArpTerminationEntry := MkArpEntry "fe80::2" "00-1a-2b-3c-4d-5f".
Definition arp2' : BridgeDomain_ArpTerminationEntry := MkArpEntry "fe80::2" "00:1a:2b:3c:4d:60".
Definition bd_of (age : Z) (arps : list BridgeDomain_ArpTerminationEntry) : BridgeDomain :=
  MkBridgeDomain "bd1" true true true true true age [] arps.
Definition no_bds : @World l2_ext := MkL2World [] [] [] 1%Z.
Definition created (bd : BridgeDomain) : @World l2_ext := (bd_Create (bd_handler ∅) "" bd no_bds).2.
Definition retrieved (bd : BridgeDomain) : list (TypedKVWithMetadata BridgeDomain (option OnlyIndex)) * @World l2_ext :=
  let '((kvs, _), w) := bd_Retrieve (bd_handler ∅) [] (created bd) in (kvs, w).

(** What is equivalent after a resync: only the bridge domain with an age that
    fits and the address with colons. *)
Example equivalent_after_create :
  map (fun bd => match dump_bridge_domains ∅ (created bd) with
    | inl l => map (fun d => EquivalentBridgeDomains "" (bdd_Bd d) bd) l | inr _ => [] end)
    [bd_of 10 [arp1]; bd_of 300 [arp1]; bd_of 10 [arp2]; bd_of 10 [arp1; arp2']] = [[true]; [false]; [false]; [true]].
Proof. vm_compute. reflexivity. Qed.

Lemma distinct_one a : distinct_ips [a].
Proof. by intros a1 a2 ip ->%list_elem_of_singleton ->%list_elem_of_singleton. Qed.

Lemma distinct_arps : distinct_ips [arp1; arp2].
Proof.
  assert (forall ip, ipToAddress (arp_IpAddress arp1) = inl ip -> ipToAddress (arp_IpAddress arp2) = inl ip -> False) as Hne.
  { intros ip E1 E2.
    assert ((match ipToAddress (arp_IpAddress arp1) with inl a => Af a | inr _ => 2 end
             =? match ipToAddress (arp_IpAddress arp2) with inl a => Af a | inr _ => 2 end)%Z = false) as H by reflexivity.
    rewrite E1, E2, Z.eqb_refl in H. by destruct (Bool.diff_true_false H). }
  intros a1 a2 ip [->|H1%list_elem_of_singleton]%elem_of_cons [->|H2%list_elem_of_singleton]%elem_of_cons E1 E2; subst;
    [reflexivity|destruct (Hne ip E1 E2)|destruct (Hne ip E2 E1)|reflexivity].
Qed.

(** The address of the table is replaced by another one; the update succeeds and
    the table stays. *)
Lemma bd_update_keeps_table_witness :
  let w := created (bd_of 10 [arp1]) in
  let w' := (bd_Update (bd_handler ∅) "" (bd_of 10 [arp1]) (bd_of 10 [arp2']) (Some (MkOnlyIndex 1)) w).2 in
  bd_Update (bd_handler ∅) "" (bd_of 10 [arp1]) (bd_of 10 [arp2']) (Some (MkOnlyIndex 1)) w
    = ((Some (MkOnlyIndex 1), None), w')
  /\ table_holds w' 1 [arp1].
Proof.
  intros w w'.
  assert (bd_Update (bd_handler ∅) "" (bd_of 10 [arp1]) (bd_of 10 [arp2']) (Some (MkOnlyIndex 1)) w
    = ((Some (MkOnlyIndex 1), None), w')) as E by (vm_compute; reflexivity).
  split; [exact E|].
  destruct (bd_update_keeps_table (X := l2_ext) ∅ "" (bd_of 10 [arp1]) (bd_of 10 [arp2']) (MkOnlyIndex 1) w w') as [H _];
    [..|exact E|exact H].
  - apply (created_bd ∅ "" (bd_of 10 [arp1]) no_bds (MkOnlyIndex 1) w); [split; [cbn; lia|reflexivity]|apply distinct_one|].
    vm_compute. reflexivity.
  - apply distinct_one.
  - apply distinct_one.
  - intros a ->%list_elem_of_singleton. eexists. vm_compute. reflexivity.
Defined.

Lemma bd_create_retrieve_witness :
  exists v, MkTypedKV (BridgeDomainKey "bd1") v (Some (MkOnlyIndex 1)) FromNB ∈ (retrieved (bd_of 300 [arp1; arp2])).1
    /\ EquivalentBridgeDomains "" v (bd_of 300 [arp1; arp2]) = false.
Proof.
  destruct (bd_create_retrieve (X := l2_ext) ∅ "" (bd_of 300 [arp1; arp2]) (MkOnlyIndex 1) []
    (retrieved (bd_of 300 [arp1; arp2])).1 no_bds (created (bd_of 300 [arp1; arp2])) (retrieved (bd_of 300 [arp1; arp2])).2)
    as [H _].
  - done.
  - split; [cbn; lia|reflexivity].
  - cbn. lia.
  - exact distinct_arps.
  - repeat constructor; eexists; split; vm_compute; reflexivity.
  - vm_compute. reflexivity.
  - reflexivity.
  - exact H.
Defined.

(** One address in two bridge domains: the second entry is all that is seen. *)
Definition l2_index (l : list (string * L2Meta)) : @Mapping l2_ext := list_to_map l.
Definition two_bds : @Mapping l2_ext := l2_index [("bd1", inr (Some (MkOnlyIndex 1))); ("bd2", inr (Some (MkOnlyIndex 2)))].
Definition fib_reply (bd : Z) : L2FibTableDetails := MkL2FibDetails bd [0; 17; 34; 51; 68; 85]%Z max_uint32 true true false.

Lemma fib_replies_bds :
  map (fun kv => fib_BridgeDomain (tkv_Value kv))
    (fib_Retrieve (newFIBVppHandler ∅ two_bds) [] (MkL2World [] [] [fib_reply 1; fib_reply 2] 3)).1.1 = ["bd2"].
Proof. vm_compute. reflexivity. Qed.

Lemma fib_retrieve_by_mac_witness :
  exists kvs, fib_Retrieve (newFIBVppHandler ∅ two_bds) [] (MkL2World [] [] [fib_reply 1; fib_reply 2] 3)
      = ((kvs, None), MkL2World [] [] [fib_reply 1; fib_reply 2] 3)
    /\ map (fun kv => fib_BridgeDomain (tkv_Value kv)) kvs = ["bd2"].
Proof.
  pose proof fib_replies_bds as H.
  destruct (fib_retrieve_by_mac (X := l2_ext) ∅ two_bds [] (MkL2World [] [] [fib_reply 1; fib_reply 2] 3)
    [fib_reply 1; fib_reply 2]) as (kvs & E & _); [reflexivity|].
  exists kvs. split; [exact E|]. rewrite E in H. exact H.
Defined.

(** ** Keys and dependencies *)

Lemma l2_messages : Forall (fun pb => agent_message pb = true)
  ["ligato.vpp.l2.BridgeDomain"; "ligato.vpp.l2.FIBEntry"; "ligato.vpp.l2.XConnectPair"; "ligato.vpp.interfaces.Interface"].
Proof. repeat constructor. Qed.

(** The keys of the plugin by their models. *)
Definition valid_for (pb key : string) : Prop :=
  (forall pb', agent_message pb' = true -> IsKeyValid (model_named pb') key = String.eqb pb pb')
  /\ exists rest, Split key = "config" :: rest.

Lemma bd_key_valid name : clean_name name -> valid_for "ligato.vpp.l2.BridgeDomain" (BridgeDomainKey name).
Proof.
  intros Hc. destruct (models_Key_valid "ligato.vpp.l2.BridgeDomain" (msg "ligato.vpp.l2.BridgeDomain" [("Name", TStr name)]) name)
    as (H & _ & E); [reflexivity..|exact Hc|]. split; [exact H|exact E].
Qed.

Lemma xc_key_valid name : clean_name name -> valid_for "ligato.vpp.l2.XConnectPair" (XConnectKey name).
Proof.
  intros Hc. destruct (models_Key_valid "ligato.vpp.l2.XConnectPair"
    (msg "ligato.vpp.l2.XConnectPair" [("ReceiveInterface", TStr name)]) name)
    as (H & _ & E); [reflexivity..| |exact Hc|split; [exact H|exact E]].
  transitivity (inl (name +:+ "") : string + string); [reflexivity|by rewrite append_nil_r].
Qed.

Lemma fib_key_valid bd mac : element_name bd -> element_name mac ->
  valid_for "ligato.vpp.l2.FIBEntry" (FIBKey bd mac).
Proof.
  intros [Hb Sb] [Hm Sm].
  assert (Split (bd +:+ "/mac/" +:+ mac) = [bd; "mac"; mac]) as E.
  { change ("/mac/" +:+ mac) with ("/" +:+ "mac" +:+ "/" +:+ mac). rewrite Split_cons by done.
    change ("mac" +:+ "/" +:+ mac) with ("mac" +:+ ("/" +:+ mac)). by rewrite Split_cons, Split_last. }
  assert (Forall kept (Split (bd +:+ "/mac/" +:+ mac))) as Hk.
  { rewrite E. repeat constructor; try apply Hb; try apply Hm; done. }
  destruct (models_Key_valid "ligato.vpp.l2.FIBEntry"
    (msg "ligato.vpp.l2.FIBEntry" [("BridgeDomain", TStr bd); ("PhysAddress", TStr mac)]) (bd +:+ "/mac/" +:+ mac))
    as (H & _ & E'); [reflexivity..| | |split; [exact H|exact E']].
  { transitivity (inl (bd +:+ "/mac/" +:+ mac +:+ "") : string + string); [reflexivity|by rewrite append_nil_r]. }
  change (clean_name (bd +:+ "/mac/" +:+ mac)). split; [eapply Forall_impl; [exact Hk|by right]|].
  rewrite tidy_kept by done. intros Hn. rewrite Hn in E. done.
Qed.

(** ** Keys of interfaces in bridge domains *)

Lemma BDInterfaceKey_eq bd iface : bd <> "" -> no_brace bd -> iface <> "" ->
  BDInterfaceKey bd iface = "vpp/bd/" +:+ bd +:+ "/interface/" +:+ iface.
Proof.
  intros Hb Hn Hi. unfold BDInterfaceKey, is_empty.
  rewrite (proj2 (String.eqb_neq _ _) Hb), (proj2 (String.eqb_neq _ _) Hi).
  rewrite (Replace1_fill _ "vpp/bd/" "bd}" bd "/interface/{iface}") by done.
  rewrite (Replace1_fill _ ("vpp/bd/" +:+ bd +:+ "/interface/") "iface}" iface "");
    rewrite ?append_nil_r, ?append_assoc; [done..|].
  apply no_brace_app; [done|]. by apply no_brace_app.
Qed.

Lemma Split_bd_key bd iface : no_slash bd ->
  Split ("vpp/bd/" +:+ bd +:+ "/interface/" +:+ iface) = "vpp" :: "bd" :: bd :: "interface" :: Split iface.
Proof.
  intros Hs. change ("vpp/bd/" +:+ ?x) with ("vpp" +:+ "/" +:+ ("bd" +:+ "/" +:+ x)). rewrite !Split_cons by done.
  change ("/interface/" +:+ ?x) with ("/" +:+ ("interface" +:+ "/" +:+ x)). by rewrite !Split_cons.
Qed.

Lemma ParseBDInterfaceKey_eq bd iface : element_name bd -> no_brace bd -> iface <> "" ->
  ParseBDInterfaceKey (BDInterfaceKey bd iface) = (bd, iface, true).
Proof.
  intros [[Hb _] Hs] Hn Hi. rewrite BDInterfaceKey_eq by done. unfold ParseBDInterfaceKey. rewrite Split_bd_key by done.
  pose proof (Join_Split iface) as Hj. destruct (Split iface) as [|p l] eqn:E; [by apply Split_ne in E|].
  cbn [String.eqb Ascii.eqb Bool.eqb andb]. by rewrite Hj.
Qed.

(** The models of the plugin have prefixes of another class. *)
Lemma bd_key_not_model pb bd iface : pb ∈ ["ligato.vpp.l2.BridgeDomain"; "ligato.vpp.l2.FIBEntry"; "ligato.vpp.l2.XConnectPair"] ->
  bd <> "" -> no_brace bd -> no_slash bd -> iface <> "" -> IsKeyValid (model_named pb) (BDInterfaceKey bd iface) = false.
Proof.
  intros Hpb Hb Hn Hs Hi. rewrite BDInterfaceKey_eq by done.
  apply (foreign_key pb "vpp"); [|by split| |].
  - pose proof (Forall_forall (fun pb => agent_message pb = true)
      ["ligato.vpp.l2.BridgeDomain"; "ligato.vpp.l2.FIBEntry"; "ligato.vpp.l2.XConnectPair"]) as [H _].
    apply H; [repeat constructor|done].
  - rewrite Split_bd_key by done. by eexists.
  - repeat (apply elem_of_cons in Hpb as [->|Hpb]; [reflexivity|]). by apply not_elem_of_nil in Hpb.
Qed.

(** ** The descriptors of the plugin *)

Section keys.
Context {X : Ext} {IX : Indexes} {MO : MapOrder} {UC : Unicode} {LT : L2Types}.
Context (bdHandler : BridgeDomainVppAPI) (fibHandler : FIBVppAPI) (xcHandler : XConnectVppAPI).
Context (bdIndex : Mapping) (index_order : gset Z -> list Z).

(** The descriptors as the scheduler gets them. *)
Definition l2_descriptors : list KVDescriptor :=
  [NewDescriptor (BridgeDomainDescriptor bdHandler); NewDescriptor (BDInterfaceDescriptor bdIndex bdHandler);
   NewDescriptor (FIBDescriptor fibHandler); NewDescriptor (XConnectDescriptor xcHandler index_order)].

Definition selectors_of (key : string) : list bool := map (fun d => d_KeySelector d key) l2_descriptors.

Lemma selectors_valid pb key : valid_for pb key ->
  selectors_of key = [String.eqb pb "ligato.vpp.l2.BridgeDomain"; false; String.eqb pb "ligato.vpp.l2.FIBEntry";
    String.eqb pb "ligato.vpp.l2.XConnectPair"].
Proof.
  intros [Hv [rest E]]. unfold selectors_of, l2_descriptors. cbn [map d_KeySelector NewDescriptor td_KeySelector
    BridgeDomainDescriptor BDInterfaceDescriptor FIBDescriptor XConnectDescriptor].
  unfold ModelBridgeDomain, ModelFIBEntry, ModelXConnectPair. rewrite !Hv by reflexivity.
  unfold IsBDInterfaceKey, ParseBDInterfaceKey. rewrite E. by destruct rest as [|? [|? [|? [|]]]].
Qed.

Lemma selectors_bd_interface bd iface : element_name bd -> no_brace bd -> iface <> "" ->
  selectors_of (BDInterfaceKey bd iface) = [false; true; false; false].
Proof.
  intros Hb Hn Hi. pose proof Hb as [[Hne _] Hs]. unfold selectors_of, l2_descriptors. cbn [map d_KeySelector NewDescriptor td_KeySelector
    BridgeDomainDescriptor BDInterfaceDescriptor FIBDescriptor XConnectDescriptor].
  unfold ModelBridgeDomain, ModelFIBEntry, ModelXConnectPair. unfold IsBDInterfaceKey. rewrite ParseBDInterfaceKey_eq by done.
  by rewrite !bd_key_not_model by (done || by repeat constructor).
Qed.

(** C30: The keys of the plugin fit together: for a bridge domain with a name that
    is one element of a path and has no braces, the derived value of each of its
    interfaces has a key that only the descriptor of bindings selects, under
    which the binding is created in the bridge domain of that name and waits for
    the interface, and which is the one dependency of a forwarding FIB entry over
    that interface; the one dependency of any other FIB entry of the bridge
    domain is the key of the bridge domain, that only its descriptor selects; and
    the keys of FIB entries and of cross-connects are selected by their own
    descriptors only. *)
Theorem l2_keys_meet key bd iface fib drop xc :
  element_name (bd_Name bd) -> no_brace (bd_Name bd) -> iface ∈ bd_Interfaces bd -> bdi_Name iface <> "" ->
  fib_BridgeDomain fib = bd_Name bd -> fib_OutgoingInterface fib = bdi_Name iface ->
  fib_Action fib = FIBEntry_FORWARD -> element_name (fib_PhysAddress fib) ->
  fib_BridgeDomain drop = bd_Name bd -> fib_Action drop <> FIBEntry_FORWARD ->
  clean_name (xc_ReceiveInterface xc) ->
  exists dep,
    MkKeyValuePair (dep_Key dep) (Some (of_value iface)) ∈ bd_DerivedValues key bd
    /\ fib_Dependencies (FIBKey (bd_Name bd) (fib_PhysAddress fib)) fib = [dep]
    /\ selectors_of (dep_Key dep) = [false; true; false; false]
    /\ (forall f id w, LookupByName bdIndex (bd_Name bd) = Some id -> with_bridge_domain bdIndex (dep_Key dep) f w = f id w)
    /\ map dep_Key (bdi_Dependencies (dep_Key dep) iface) = [InterfaceKey (bdi_Name iface)]
    /\ map dep_Key (fib_Dependencies key drop) = [BridgeDomainKey (bd_Name bd)]
    /\ selectors_of (BridgeDomainKey (bd_Name bd)) = [true; false; false; false]
    /\ selectors_of (FIBKey (bd_Name bd) (fib_PhysAddress fib)) = [false; false; true; false]
    /\ selectors_of (XConnectKey (xc_ReceiveInterface xc)) = [false; false; false; true].
Proof.
  intros Hb Hn Hi Hne Ef Eo Ea Hmac Ed Eda Hx.
  exists (simple_dep bridgedInterfaceDep (BDInterfaceKey (bd_Name bd) (bdi_Name iface))). cbn [dep_Key simple_dep].
  destruct (element_clean _ Hb) as [Hc _]. split_and!.
  - unfold bd_DerivedValues. apply list_elem_of_In, in_map_iff. exists iface. by rewrite <- list_elem_of_In.
  - unfold fib_Dependencies. rewrite Ea, Ef, Eo. reflexivity.
  - by apply selectors_bd_interface.
  - intros f id w Hl. unfold with_bridge_domain. rewrite ParseBDInterfaceKey_eq by done. by rewrite Hl.
  - reflexivity.
  - unfold fib_Dependencies. rewrite Ed. by rewrite (proj2 (Z.eqb_neq _ _) Eda).
  - by rewrite (selectors_valid _ _ (bd_key_valid _ Hc)).
  - by rewrite (selectors_valid _ _ (fib_key_valid _ _ Hb Hmac)).
  - by rewrite (selectors_valid _ _ (xc_key_valid _ Hx)).
Qed.
End keys.

#[local] Existing Instance l2_ext.

(** A bridge domain with one interface. *)
Lemma l2_keys_meet_witness :
  let h := newBridgeDomainVppHandler (X := l2_ext) ∅ in
  selectors_of (MO := elements_order) (UC := Build_Unicode String.eqb) h (newFIBVppHandler ∅ ∅) (newXConnectVppHandler ∅) ∅ elements
    "vpp/bd/bd1/interface/tap/1" = [false; true; false; false].
Proof.
  intros h.
  destruct (l2_keys_meet (X := l2_ext) (MO := elements_order) (UC := Build_Unicode String.eqb)
    h (newFIBVppHandler ∅ ∅) (newXConnectVppHandler ∅) ∅ elements "k"
    (MkBridgeDomain "bd1" true true true true true 0 [MkBDInterface "tap/1" false 0] []) (MkBDInterface "tap/1" false 0)
    (MkFIBEntry "00:11:22:33:44:55" "bd1" 0 "tap/1" true false) (MkFIBEntry "00:11:22:33:44:55" "bd1" 1 "" true false)
    (MkXConnectPair "tap0" "tap/1"))
    as (dep & Hd & _ & H & _); [try reflexivity; try by repeat split..|].
  - by left.
  - split; [constructor; [right; by split|constructor]|done].
  - apply list_elem_of_singleton in Hd. injection Hd as Hk. rewrite Hk in H. exact H.
Defined.
