(* ===== verification/AddrAlloc.v ===== *)
(** * The allocator of addresses, for other plugins

    [plugins/netalloc/netalloc_api.go]: what descriptors of other plugins use of
    the network allocation, as an interface with its laws, and the plugin that
    implements it.  Where the plugin would follow a nil pointer, a method fails. *)
From S2P Require Import Prelude GoStrings GoNet GoNetFacts NetallocProto Models AgentModels Monad Api Descriptor Adapter.
From S2P Require Import Netalloc NetallocFacts VppBinapi.

Section allocator.
Context {X : Ext}.

Record AddressAllocator := MkAddressAllocator {
  aa_GetAddressAllocDep : string -> string -> string -> Dependency * bool;
  aa_ValidateIPAddress : string -> string -> string -> Z -> option error;
  aa_GetOrParseIPAddress : string -> string -> IPAddressForm -> IPNet + error
}.

(** The plugin, with its index at the time of a call. *)
Definition netalloc_plugin {NT : NetallocTypes} (ipIndex : Mapping) : AddressAllocator := {|
  aa_GetAddressAllocDep := fun addrOrAllocRef ifaceName depLabelPrefix =>
    match GetAddressAllocDep addrOrAllocRef ifaceName depLabelPrefix with
    | Ok r => r | _ => (no_dependency, false) end;
  aa_ValidateIPAddress := ValidateIPAddress;
  aa_GetOrParseIPAddress := fun addrOrAllocRef ifaceName addrForm =>
    match GetOrParseIPAddress ipIndex addrOrAllocRef ifaceName addrForm with
    | Ok (_, Some err) => inr err
    | Ok (Some addr, None) => inl addr
    | _ => inr nil_dereference
    end
|}.

(** ** Laws *)

(** An address in the form that is asked for. *)
Definition in_form (form : IPAddressForm) (a : IPNet) : IPNet :=
  match form with
  | UNDEFINED_FORM | ADDR_WITH_MASK | OtherForm _ => a
  | ADDR_ONLY => MkIPNet (IP a) (if is_v4 (IP a) then CIDRMask 0 32 else CIDRMask 0 128)
  | ADDR_NET => MkIPNet (ip_Mask (IP a) (Mask a)) (Mask a)
  | SINGLE_ADDR_NET => MkIPNet (IP a) (if is_v4 (IP a) then CIDRMask 32 32 else CIDRMask 128 128)
  end.

(** Whether a text is a reference. *)
Definition is_ref (s : string) : bool := String.prefix AllocRefPrefix s.

(** Addresses are well formed, and texts that are no references are parsed. *)
Class AllocLaws (aa : AddressAllocator) : Prop := {
  alloc_parsed : forall s iface form n, aa_GetOrParseIPAddress aa s iface form = inl n ->
    exists a, parsed_net a /\ n = in_form form a;
  alloc_text : forall s iface form, is_ref s = false ->
    aa_GetOrParseIPAddress aa s iface form
    = match ParseIPAddr s None with inl (a, _) => inl (in_form form a) | inr err => inr err end;
  alloc_no_dep : forall s iface label, is_ref s = false -> (aa_GetAddressAllocDep aa s iface label).2 = false
}.

Lemma given_form (a : IPNet) form : GetIPAddrInGivenForm (Some a) form = Ok (Some (in_form form a)).
Proof. by destruct form. Qed.

Section plugin.
Context {NT : NetallocTypes} (ipIndex : Mapping).

(** The metadata that the descriptor of allocations makes ([parseAddr]). *)
Definition index_parsed : Prop := forall k m md, nm_GetValue ipIndex k = Some m ->
  as_IPAllocMetadata m = Some (Some md) ->
  (forall a, IfaceAddr md = Some a -> parsed_net a) /\ (forall a, GwAddr md = Some a -> parsed_net a).

Lemma ParseAddrAllocRef_text s iface : is_ref s = false -> ar_isRef (ParseAddrAllocRef s iface) = false.
Proof. unfold is_ref, ParseAddrAllocRef. by intros ->. Qed.

Lemma netalloc_laws : index_parsed -> AllocLaws (netalloc_plugin ipIndex).
Proof.
  intros Hidx. split.
  - cbn. intros s iface form n. unfold GetOrParseIPAddress. set (ref := ParseAddrAllocRef s iface).
    destruct (ar_isRef ref).
    + destruct (ar_err ref); [done|]. rewrite models_Name_eq, outcome_bind_ret.
      destruct (nm_GetValue ipIndex _) as [m|] eqn:Em; [|done].
      destruct (as_IPAllocMetadata m) as [[md|]|] eqn:Emd; [|done..].
      destruct (Hidx _ _ _ Em Emd) as [Hi Hg].
      destruct (ar_isGW ref).
      * destruct (GwAddr md) as [gw|]; [|done]. rewrite given_form, outcome_bind_ret. intros [= <-]. eauto.
      * destruct (IfaceAddr md) as [a|]; [|by destruct form]. rewrite given_form, outcome_bind_ret. intros [= <-]. eauto.
    + destruct (ParseIPAddr s None) as [[a b]|err] eqn:E; [|done]. rewrite given_form, outcome_bind_ret.
      intros [= <-]. apply ParseIPAddr_parsed in E as [Ha _]. eauto.
  - cbn. intros s iface form Hs. unfold GetOrParseIPAddress. rewrite ParseAddrAllocRef_text by done.
    destruct (ParseIPAddr s None) as [[a b]|err]; [|done]. by rewrite given_form, outcome_bind_ret.
  - cbn. intros s iface label Hs. unfold GetAddressAllocDep. by rewrite ParseAddrAllocRef_text.
Qed.
End plugin.

(** The other methods do not panic. *)
Lemma GetAddressAllocDep_total s iface label : exists r, GetAddressAllocDep s iface label = Ok r.
Proof.
  unfold GetAddressAllocDep. destruct (ar_isRef _); [|by eexists]. destruct (ar_err _); [by eexists|].
  rewrite models_Key_eq, outcome_bind_ret. by eexists.
Qed.
End allocator.
