(* ===== verification/VppL3Proto.v ===== *)
(** * Messages of the L3 plugin

    [proto/ligato/vpp/l3]: routes, VRF tables and ARP entries, their keys and the
    parsers of keys, and the messages of VPP's binary API that configure them (the
    fields of [binapi/vpp2306/ip], [fib_types] and [ip_neighbor] that the agent
    uses). *)
From S2P Require Import Prelude GoStrings GoRegexp GoTemplate Models AgentModels VppModels VppBinapi.

(** ** Configuration *)

Definition Route_INTRA_VRF : Z := 0.
Definition Route_INTER_VRF : Z := 1.
Definition Route_DROP : Z := 2.

Record Route := MkRoute {
  rt_Type : Z;
  rt_VrfId : Z;
  rt_DstNetwork : string;
  rt_NextHopAddr : string;
  rt_OutgoingInterface : string;
  rt_Weight : Z;
  rt_Preference : Z;
  rt_ViaVrfId : Z
}.

Definition VrfTable_IPV4 : Z := 0.
Definition VrfTable_IPV6 : Z := 1.

Definition VrfTable_Protocol_String (p : Z) : string :=
  if (p =? VrfTable_IPV4)%Z then "IPV4" else if (p =? VrfTable_IPV6)%Z then "IPV6" else Itoa p.

Record VrfTable_FlowHashSettings := MkFlowHash {
  fh_UseSrcIp : bool;
  fh_UseDstIp : bool;
  fh_UseSrcPort : bool;
  fh_UseDstPort : bool;
  fh_UseProtocol : bool;
  fh_Reverse : bool;
  fh_Symmetric : bool
}.

Record VrfTable := MkVrfTable {
  vrf_Id : Z;
  vrf_Protocol : Z;
  vrf_Label : string;
  vrf_FlowHashSettings : option VrfTable_FlowHashSettings
}.

Record ARPEntry := MkARPEntry {
  arpe_Interface : string;
  arpe_IpAddress : string;
  arpe_PhysAddress : string;
  arpe_Static : bool
}.

#[export] Instance Route_eq : EqDecision Route.
Proof. solve_decision. Defined.
#[export] Instance FlowHash_eq : EqDecision VrfTable_FlowHashSettings.
Proof. solve_decision. Defined.
#[export] Instance VrfTable_eq : EqDecision VrfTable.
Proof. solve_decision. Defined.
#[export] Instance ARPEntry_eq : EqDecision ARPEntry.
Proof. solve_decision. Defined.

(** ** Keys *)

Definition ModelRoute : knownModel Msg := model_named "ligato.vpp.l3.Route".
Definition ModelVrfTable : knownModel Msg := model_named "ligato.vpp.l3.VrfTable".
Definition ModelARPEntry : knownModel Msg := model_named "ligato.vpp.l3.ARPEntry".

Definition RouteKey (iface : string) (vrf : Z) (dstNet nextHopAddr : string) : string :=
  models_Key_of (msg "ligato.vpp.l3.Route" [("OutgoingInterface", TStr iface); ("VrfId", TInt vrf);
    ("DstNetwork", TStr dstNet); ("NextHopAddr", TStr nextHopAddr)]).
Definition VrfTableKey (id protocol : Z) : string :=
  models_Key_of (msg "ligato.vpp.l3.VrfTable" [("Id", TInt id);
    ("Protocol", TEnum protocol (VrfTable_Protocol_String protocol))]).
Definition ArpEntryKey (iface ipAddr : string) : string :=
  models_Key_of (msg "ligato.vpp.l3.ARPEntry" [("Interface", TStr iface); ("IpAddress", TStr ipAddr)]).

(** [models.Key(route)]: the name depends on these fields only. *)
Definition route_Key (r : Route) : string :=
  RouteKey (rt_OutgoingInterface r) (rt_VrfId r) (rt_DstNetwork r) (rt_NextHopAddr r).

Definition RouteVrfPrefix (vrf : Z) : string := km_KeyPrefix ModelRoute +:+ "vrf/" +:+ Itoa vrf +:+ "/".

(** [begin, end] after the loop. *)
Fixpoint item_range (itemLabel nextItemLabel : string) (i begin end_ : nat) (items : list string) : nat * nat :=
  match items with
  | [] => (begin, end_)
  | item :: items =>
      let begin := if String.eqb item itemLabel then S i else begin in
      if negb (is_empty nextItemLabel) && String.eqb item nextItemLabel then (begin, i)
      else item_range itemLabel nextItemLabel (S i) begin end_ items
  end.

(** [value, found]. *)
Definition getRouteKeyItem (items : list string) (itemLabel nextItemLabel : string) : string * bool :=
  let '(begin, end_) := item_range itemLabel nextItemLabel 0 (length items) (length items) items in
  if begin <? end_ then (TrimSuffix (Join (take (end_ - begin) (drop begin items))) "/", true) else ("", false).

(** [outIface, vrfIndex, dstNet, nextHopAddr, isRouteKey]. *)
Definition ParseRouteKey (key : string) : string * string * string * string * bool :=
  let routeKey := TrimPrefix key (km_KeyPrefix ModelRoute) in
  if negb (String.eqb routeKey key) then
    let keyParts := Split routeKey in
    let '(outIface, _) := getRouteKeyItem keyParts "if" "vrf" in
    let '(vrfIndex, foundVrf) := getRouteKeyItem keyParts "vrf" "dst" in
    let '(dstNet, foundDst) := getRouteKeyItem keyParts "dst" "gw" in
    let '(nextHopAddr, _) := getRouteKeyItem keyParts "gw" "" in
    if (foundDst : bool) && foundVrf then (outIface, vrfIndex, dstNet, nextHopAddr, true)
    else ("", "", "", "", false)
  else ("", "", "", "", false).

(** The canonical network is in the key, the next hop as it is given. *)
Example l3_keys :
  RouteKey "memif0" 1 "10.1.2.3/16" "10.0.0.1" = "config/vpp/v2/route/if/memif0/vrf/1/dst/10.1.0.0/16/gw/10.0.0.1"
  /\ RouteKey "" 0 "alloc:net1/eth0" "" = "config/vpp/v2/route/vrf/0/dst/alloc:net1/eth0"
  /\ RouteKey "" 0 "FD00::1/64" "FD00::2" = "config/vpp/v2/route/vrf/0/dst/fd00::/64/gw/FD00::2"
  /\ RouteKey "" 0 "10.0.0.1" "" = "config/vpp/v2/route/vrf/0/dst/<invalid>/0"
  /\ VrfTableKey 3 VrfTable_IPV6 = "config/vpp/v2/vrf-table/id/3/protocol/IPV6"
  /\ ArpEntryKey "tap0" "10.0.0.1" = "config/vpp/v2/arp/tap0/10.0.0.1"
  /\ ParseRouteKey "config/vpp/v2/route/if/memif0/vrf/1/dst/10.1.0.0/16/gw/10.0.0.1"
     = ("memif0", "1", "10.1.0.0/16", "10.0.0.1", true)
  /\ ParseRouteKey "config/vpp/v2/route/vrf/0/dst/fd00::/64" = ("", "0", "fd00::/64", "", true)
  /\ ParseRouteKey "config/vpp/v2/route/vrf/0" = ("", "", "", "", false)
  /\ ParseRouteKey "config/vpp/v2/arp/tap0/10.0.0.1" = ("", "", "", "", false).
Proof. vm_compute. done. Qed.

(** ** Binary API *)

(** [fib_types.FibPath] and [ip.IPRoute]. *)
Definition FIB_API_PATH_TYPE_NORMAL : Z := 0.
Definition FIB_API_PATH_TYPE_LOCAL : Z := 1.
Definition FIB_API_PATH_TYPE_DROP : Z := 2.
Definition FIB_API_PATH_TYPE_UDP_ENCAP : Z := 3.
Definition FIB_API_PATH_TYPE_ICMP_UNREACH : Z := 5.
Definition FIB_API_PATH_TYPE_ICMP_PROHIBIT : Z := 6.
Definition FIB_API_PATH_TYPE_SOURCE_LOOKUP : Z := 7.
Definition FIB_API_PATH_TYPE_DVR : Z := 8.
Definition FIB_API_PATH_FLAG_RESOLVE_VIA_ATTACHED : Z := 1.
Definition FIB_API_PATH_FLAG_RESOLVE_VIA_HOST : Z := 2.
Definition FIB_API_PATH_NH_PROTO_IP4 : Z := 0.
Definition FIB_API_PATH_NH_PROTO_IP6 : Z := 1.

Record FibPathNh := MkFibPathNh {
  nh_Address : list Z;
  nh_ViaLabel : Z;
  nh_ObjID : Z;
  nh_ClassifyTableIndex : Z
}.

Record FibMplsLabel := MkMplsLabel { ml_IsUniform : Z; ml_Label : Z; ml_TTL : Z; ml_Exp : Z }.

Record FibPath := MkFibPath {
  fp_SwIfIndex : Z;
  fp_TableID : Z;
  fp_RpfID : Z;
  fp_Weight : Z;
  fp_Preference : Z;
  fp_Type : Z;
  fp_Flags : Z;
  fp_Proto : Z;
  fp_Nh : FibPathNh;
  fp_LabelStack : list FibMplsLabel
}.

Record IPRoute := MkIPRoute {
  ipr_TableID : Z;
  ipr_Prefix : ip_Prefix;
  ipr_NPaths : Z;
  ipr_Paths : list FibPath
}.

Record IPTable := MkIPTable { tab_TableID : Z; tab_IsIP6 : bool; tab_Name : string }.

Definition IP_API_FLOW_HASH_SRC_IP : Z := 1.
Definition IP_API_FLOW_HASH_DST_IP : Z := 2.
Definition IP_API_FLOW_HASH_SRC_PORT : Z := 4.
Definition IP_API_FLOW_HASH_DST_PORT : Z := 8.
Definition IP_API_FLOW_HASH_PROTO : Z := 16.
Definition IP_API_FLOW_HASH_REVERSE : Z := 32.
Definition IP_API_FLOW_HASH_SYMETRIC : Z := 64.

Definition IP_API_NEIGHBOR_FLAG_STATIC : Z := 1.
Definition IP_API_NEIGHBOR_FLAG_NO_FIB_ENTRY : Z := 2.

Record IPNeighbor := MkIPNeighbor {
  ipn_SwIfIndex : Z;
  ipn_Flags : Z;
  ipn_MacAddress : list Z;
  ipn_IPAddress : ip_Address
}.

Inductive L3Request :=
  | IPRouteAddDel (IsAdd IsMultipath : bool) (Route : IPRoute)
  | IPTableAddDel (IsAdd : bool) (Table : IPTable)
  | SetIPFlowHashV2 (TableID Af FlowHashConfig : Z)
  | IPNeighborAddDel (IsAdd : bool) (Neighbor : IPNeighbor).

#[export] Instance FibPathNh_eq : EqDecision FibPathNh.
Proof. solve_decision. Defined.
#[export] Instance FibMplsLabel_eq : EqDecision FibMplsLabel.
Proof. solve_decision. Defined.
#[export] Instance FibPath_eq : EqDecision FibPath.
Proof. solve_decision. Defined.
#[export] Instance IPNeighbor_eq : EqDecision IPNeighbor.
Proof. solve_decision. Defined.
