(* ===== verification/VppL3Calls.v ===== *)
(** * Calls of the L3 plugin to VPP

    [plugins/vpp/l3plugin/vppcalls] and [vrfidx]: the interfaces that the
    descriptors of routes, VRF tables and ARP entries use, and the handlers that
    implement them with requests of the binary API (vpp2306).  The channel to VPP
    is a parameter.  The indexes of interfaces and VRFs and the allocator of
    addresses are those at the time of a call. *)
From S2P Require Import Prelude GoStrings GoNet GoNetText NetallocProto Netalloc AgentModels Api Adapter NameToIndex.
From S2P Require Import VppBinapi AddrAlloc VppL3Proto.

(** ** The index of VRFs *)

(** [vrfidx.VRFMetadata]; the metadata of a value is a pointer to it. *)
Record VRFMetadata := MkVRFMetadata { vm_Index : Z; vm_Protocol : Z }.

#[export] Instance VRFMetadata_eq : EqDecision VRFMetadata.
Proof. solve_decision. Defined.

(** The names in a mapping, in some order, and type assertions on metadata. *)
Class VrfIndexes {X : Ext} := {
  nm_ListAllNames : Mapping -> list string;
  as_VRFMetadata : Metadata -> option (option VRFMetadata);
  of_VRFMetadata : option VRFMetadata -> Metadata
}.

Section vrfidx.
Context {X : Ext} {IX : Indexes} {VX : VrfIndexes}.

(** No secondary index. *)
Definition vrf_indexMetadata (metaData : Metadata) : list (string * list string) := [].

Definition NewVRFIndex : Mapping := NewNameToIndex (Some vrf_indexMetadata).

(** [metadata, exists]. *)
Definition vrf_LookupByName (m : Mapping) (name : string) : option VRFMetadata * bool :=
  match nm_GetValue m name ≫= as_VRFMetadata with
  | Some typedMeta => (typedMeta, true)
  | None => (None, false)
  end.

(** [name, metadata, exists]. *)
Definition LookupByVRFIndex (m : Mapping) (index : Z) : string * option VRFMetadata * bool :=
  match LookupByIndex m index with
  | None => ("", None, false)
  | Some (name, item, _) =>
      match as_VRFMetadata item with
      | Some metadata => (name, metadata, true)
      | None => (name, None, false)
      end
  end.

Definition ListAllVRFs (m : Mapping) : list string := nm_ListAllNames m.

Definition ListAllVrfMetadata (m : Mapping) : list VRFMetadata :=
  omap (fun vrf => match vrf_LookupByName m vrf with (Some vrfMeta, true) => Some vrfMeta | _ => None end)
    (nm_ListAllNames m).
End vrfidx.

(** ** Interfaces of handlers *)

(** [vppcalls.RouteMeta]; the metadata of a route without a path are nil. *)
Record RouteMeta := MkRouteMeta {
  rm_TableName : string;
  rm_OutgoingIfIdx : Z;
  rm_IsIPv6 : bool;
  rm_IsLocal : bool;
  rm_IsUDPEncap : bool;
  rm_IsUnreach : bool;
  rm_IsProhibit : bool;
  rm_IsResolveHost : bool;
  rm_IsResolveAttached : bool;
  rm_IsDvr : bool;
  rm_IsSourceLookup : bool;
  rm_NextHopID : Z;
  rm_RpfID : Z;
  rm_LabelStack : list (bool * Z * Z * Z)
}.
Record RouteDetails := MkRouteDetails { rd_Route : Route; rd_Meta : option RouteMeta }.
Record ArpMeta := MkArpMeta { am_SwIfIndex : Z }.
Record ArpDetails := MkArpDetails { ad_Arp : ARPEntry; ad_Meta : ArpMeta }.

Section api.
Context {X : Ext}.

Record RouteVppAPI := MkRouteVppAPI {
  DumpRoutes : Dump (list RouteDetails);
  VppAddRoute : Route -> Call;
  VppDelRoute : Route -> Call
}.

Record VrfTableVppAPI := MkVrfTableVppAPI {
  DumpVrfTables : Dump (list VrfTable);
  AddVrfTable : VrfTable -> Call;
  DelVrfTable : VrfTable -> Call;
  SetVrfFlowHashSettings : Z -> bool -> VrfTable_FlowHashSettings -> Call
}.

Record ArpVppAPI := MkArpVppAPI {
  DumpArpEntries : Dump (list ArpDetails);
  VppAddArp : ARPEntry -> Call;
  VppDelArp : ARPEntry -> Call
}.

(** [SendRequest(req).ReceiveReply(reply)] and [SendMultiRequest]: the replies
    before the stop, or before an error.  The arguments of the dumps are the fields
    of the requests. *)
Class L3Channel := {
  l3_SendRequest : L3Request -> Call;
  IPRouteDump : Z -> bool -> World -> list IPRoute * option error;
  IPTableDump : World -> list IPTable * option error;
  IPNeighborDump : Z -> Z -> World -> list IPNeighbor * option error
}.
End api.

Section handlers.
Context {X : Ext} {IX : Indexes} {VX : VrfIndexes} {CH : L3Channel}.
(** [h.ifIndexes], [h.vrfIndexes] and [h.addrAlloc]. *)
Context (ifIndexes vrfIndexes : Mapping) (addrAlloc : AddressAllocator).

(** ** Routes *)

Definition NextHopViaLabelUnset : Z := 1048576.
Definition ClassifyTableIndexUnset : Z := max_uint32.
Definition NextHopOutgoingIfUnset : Z := max_uint32.

Definition getRouteSwIfIndex (ifName : string) : Z + error :=
  if is_empty ifName then inl NextHopOutgoingIfUnset
  else match iface_LookupByName ifIndexes ifName with
  | None => inr (errorf ("interface " +:+ ifName +:+ " not found"))
  | Some meta => inl (SwIfIndex meta)
  end.

Definition setFibPathNhAndProto (netIP : list Z) : FibPathNh * Z :=
  let '(v6, addrUnion) := to_union netIP in
  (MkFibPathNh addrUnion NextHopViaLabelUnset 0 ClassifyTableIndexUnset,
   if v6 : bool then FIB_API_PATH_NH_PROTO_IP6 else FIB_API_PATH_NH_PROTO_IP4).

Definition no_next_hop : FibPathNh * Z := (MkFibPathNh (replicate 16 0%Z) 0 0 0, FIB_API_PATH_NH_PROTO_IP4).

(** The path of a route, given the index of its interface and its next hop. *)
Definition fib_path (route : Route) (rtIfIdx : Z) (nh : FibPathNh * Z) : FibPath :=
  let '(swIfIndex, tableID, type) :=
    if (rt_Type route =? Route_INTER_VRF)%Z then (rtIfIdx, rt_ViaVrfId route, FIB_API_PATH_TYPE_NORMAL)
    else if (rt_Type route =? Route_DROP)%Z then (0%Z, 0%Z, FIB_API_PATH_TYPE_DROP)
    else (rtIfIdx, rt_VrfId route, FIB_API_PATH_TYPE_NORMAL) in
  MkFibPath swIfIndex tableID 0 (uint8 (rt_Weight route)) (uint8 (rt_Preference route)) type 0 nh.2 nh.1
    (replicate 16 (MkMplsLabel 0 0 0 0)).

Definition vppAddDelRoute (route : Route) (rtIfIdx : Z) (delete : bool) : Call := fun w =>
  match (if is_empty (rt_NextHopAddr route) then inl no_next_hop
         else match aa_GetOrParseIPAddress addrAlloc (rt_NextHopAddr route) (rt_OutgoingInterface route) ADDR_ONLY with
         | inr err => inr err
         | inl nextHop => inl (setFibPathNhAndProto (IP nextHop))
         end) with
  | inr err => (Some err, w)
  | inl nh =>
      match aa_GetOrParseIPAddress addrAlloc (rt_DstNetwork route) "" ADDR_NET with
      | inr err => (Some err, w)
      | inl dstNet =>
          l3_SendRequest (IPRouteAddDel (negb delete) true
            (MkIPRoute (rt_VrfId route) (networkToPrefix dstNet) 1 [fib_path route rtIfIdx nh])) w
      end
  end.

(** [VppAddRoute] and [VppDelRoute]. *)
Definition add_del_route (delete : bool) (route : Route) : Call := fun w =>
  match getRouteSwIfIndex (rt_OutgoingInterface route) with
  | inr err => (Some err, w)
  | inl swIfIdx => vppAddDelRoute route swIfIdx delete w
  end.

Definition resolved_meta (tableName : string) (ifIdx : Z) (path : FibPath) : RouteMeta :=
  let is_type t := (fp_Type path =? t)%Z in
  {| rm_TableName := tableName; rm_OutgoingIfIdx := ifIdx;
     rm_IsIPv6 := (fp_Proto path =? FIB_API_PATH_NH_PROTO_IP6)%Z;
     rm_IsLocal := is_type FIB_API_PATH_TYPE_LOCAL; rm_IsUDPEncap := is_type FIB_API_PATH_TYPE_UDP_ENCAP;
     rm_IsUnreach := is_type FIB_API_PATH_TYPE_ICMP_UNREACH; rm_IsProhibit := is_type FIB_API_PATH_TYPE_ICMP_PROHIBIT;
     rm_IsResolveHost := (fp_Flags path =? FIB_API_PATH_FLAG_RESOLVE_VIA_HOST)%Z;
     rm_IsResolveAttached := (fp_Flags path =? FIB_API_PATH_FLAG_RESOLVE_VIA_ATTACHED)%Z;
     rm_IsDvr := is_type FIB_API_PATH_TYPE_DVR; rm_IsSourceLookup := is_type FIB_API_PATH_TYPE_SOURCE_LOOKUP;
     rm_NextHopID := nh_ObjID (fp_Nh path); rm_RpfID := fp_RpfID path;
     rm_LabelStack := map (fun l => (negb (ml_IsUniform l =? 0)%Z, ml_Label l, ml_TTL l, ml_Exp l)) (fp_LabelStack path) |}.

Definition dumped_dst (ipRoute : IPRoute) : string := prefix_text (ipr_Prefix ipRoute).

Definition dumped_path (ipRoute : IPRoute) (path : FibPath) : RouteDetails :=
  let nextHopIP := union_text (fp_Proto path =? FIB_API_PATH_NH_PROTO_IP6)%Z (nh_Address (fp_Nh path)) in
  let unset := (fp_SwIfIndex path =? NextHopOutgoingIfUnset)%Z in
  let '(routeType, viaVrfID) :=
    if (fp_Type path =? FIB_API_PATH_TYPE_DROP)%Z then (Route_DROP, 0%Z)
    else if unset && negb (fp_TableID path =? ipr_TableID ipRoute)%Z then (Route_INTER_VRF, fp_TableID path)
    else (Route_INTRA_VRF, 0%Z) in
  let ifName := if unset then "" else (LookupBySwIfIndex ifIndexes (fp_SwIfIndex path)).1.1 in
  let tableName := match LookupByVRFIndex vrfIndexes (ipr_TableID ipRoute) with
    | (vrfName, _, true) => vrfName | _ => "" end in
  MkRouteDetails
    (MkRoute routeType (ipr_TableID ipRoute) (dumped_dst ipRoute) nextHopIP ifName
       (fp_Weight path) (fp_Preference path) viaVrfID)
    (Some (resolved_meta tableName (fp_SwIfIndex path) path)).

Definition dumpRouteIPDetails (ipRoute : IPRoute) : list RouteDetails :=
  if (0 <? ipr_NPaths ipRoute)%Z then map (dumped_path ipRoute) (ipr_Paths ipRoute)
  else [MkRouteDetails (MkRoute Route_INTRA_VRF (ipr_TableID ipRoute) (dumped_dst ipRoute) "" "" 0 0 0) None].

Definition dumpRoutesForVrfAndIP (vrfID proto : Z) : Dump (list RouteDetails) := fun w =>
  match IPRouteDump vrfID (proto =? VrfTable_IPV6)%Z w with
  | (_, Some err) => inr err
  | (routes, None) => inl (routes ≫= dumpRouteIPDetails)
  end.

Fixpoint dump_routes (vrfs : list VRFMetadata) : Dump (list RouteDetails) := fun w =>
  match vrfs with
  | [] => inl []
  | vrfMeta :: vrfs =>
      match dumpRoutesForVrfAndIP (vm_Index vrfMeta) (vm_Protocol vrfMeta) w with
      | inr err => inr err
      | inl ipRoutes =>
          match dump_routes vrfs w with inr err => inr err | inl routes => inl (ipRoutes ++ routes) end
      end
  end.

(** ** VRF tables *)

Definition addDelVrfTable (table : VrfTable) (isAdd : bool) : Call :=
  l3_SendRequest (IPTableAddDel isAdd
    (MkIPTable (vrf_Id table) (vrf_Protocol table =? VrfTable_IPV6)%Z (vrf_Label table))).

Definition setFlowHashConfig (fields : VrfTable_FlowHashSettings) : Z :=
  let flag (b : bool) (f config : Z) := if b then Z.lor config f else config in
  flag (fh_Symmetric fields) IP_API_FLOW_HASH_SYMETRIC
    (flag (fh_Reverse fields) IP_API_FLOW_HASH_REVERSE
    (flag (fh_UseProtocol fields) IP_API_FLOW_HASH_PROTO
    (flag (fh_UseDstPort fields) IP_API_FLOW_HASH_DST_PORT
    (flag (fh_UseSrcPort fields) IP_API_FLOW_HASH_SRC_PORT
    (flag (fh_UseDstIp fields) IP_API_FLOW_HASH_DST_IP
    (flag (fh_UseSrcIp fields) IP_API_FLOW_HASH_SRC_IP 0%Z)))))).

Definition set_flow_hash (vrfID : Z) (isIPv6 : bool) (hashFields : VrfTable_FlowHashSettings) : Call :=
  l3_SendRequest (SetIPFlowHashV2 vrfID (if isIPv6 then ADDRESS_IP6 else ADDRESS_IP4) (setFlowHashConfig hashFields)).

Definition getTableProto (isIPv6 : bool) : Z := if isIPv6 then VrfTable_IPV6 else VrfTable_IPV4.

Definition dumped_table (t : IPTable) : VrfTable :=
  MkVrfTable (tab_TableID t) (getTableProto (tab_IsIP6 t)) (Trim Ascii.zero (tab_Name t)) None.

Definition dump_vrf_tables : Dump (list VrfTable) := fun w =>
  match IPTableDump w with
  | (_, Some err) => inr err
  | (tables, None) => inl (map dumped_table tables)
  end.

(** ** ARP entries *)

Definition vppAddDelArp (entry : ARPEntry) (delete : bool) : Call := fun w =>
  match iface_LookupByName ifIndexes (arpe_Interface entry) with
  | None => (Some (errorf ("interface " +:+ arpe_Interface entry +:+ " not found")), w)
  | Some meta =>
      let flags := if arpe_Static entry
        then Z.lor IP_API_NEIGHBOR_FLAG_NO_FIB_ENTRY IP_API_NEIGHBOR_FLAG_STATIC
        else IP_API_NEIGHBOR_FLAG_NO_FIB_ENTRY in
      match ipToAddress (arpe_IpAddress entry) with
      | inr err => (Some err, w)
      | inl addr =>
          match parse_mac (arpe_PhysAddress entry) with
          | inr err => (Some err, w)
          | inl macAddr =>
              l3_SendRequest (IPNeighborAddDel (negb delete)
                (MkIPNeighbor (SwIfIndex meta) flags (copy_bytes 6 macAddr) addr)) w
          end
      end
  end.

Definition dumped_arp (n : IPNeighbor) : ArpDetails :=
  let addr := ipn_IPAddress n in
  MkArpDetails
    (MkARPEntry (LookupBySwIfIndex ifIndexes (ipn_SwIfIndex n)).1.1
       (union_text (Af addr =? ADDRESS_IP6)%Z (Un addr))
       (mac_String (copy_bytes 6 (ipn_MacAddress n)))
       (negb (Z.land (ipn_Flags n) IP_API_NEIGHBOR_FLAG_STATIC =? 0)%Z))
    (MkArpMeta (ipn_SwIfIndex n)).

Definition dumpArpEntries (isIPv6 : bool) : Dump (list ArpDetails) := fun w =>
  match IPNeighborDump max_uint32 (if isIPv6 then ADDRESS_IP6 else ADDRESS_IP4) w with
  | (_, Some err) => inr err
  | (entries, None) => inl (map dumped_arp entries)
  end.

Definition dump_arp_entries : Dump (list ArpDetails) := fun w =>
  match dumpArpEntries false w with
  | inr err => inr err
  | inl arpV4Entries =>
      match dumpArpEntries true w with
      | inr err => inr err
      | inl arpV6Entries => inl (arpV4Entries ++ arpV6Entries)
      end
  end.

(** ** The handlers *)

Definition NewRouteVppHandler : RouteVppAPI := {|
  DumpRoutes := dump_routes (ListAllVrfMetadata vrfIndexes);
  VppAddRoute := add_del_route false;
  VppDelRoute := add_del_route true
|}.

Definition NewVrfTableVppHandler : VrfTableVppAPI := {|
  DumpVrfTables := dump_vrf_tables;
  AddVrfTable := fun table => addDelVrfTable table true;
  DelVrfTable := fun table => addDelVrfTable table false;
  SetVrfFlowHashSettings := set_flow_hash
|}.

Definition NewArpVppHandler : ArpVppAPI := {|
  DumpArpEntries := dump_arp_entries;
  VppAddArp := fun entry => vppAddDelArp entry false;
  VppDelArp := fun entry => vppAddDelArp entry true
|}.
End handlers.
