(* ===== verification/VppL3.v ===== *)
(** * The L3 plugin for VPP

    [plugins/vpp/l3plugin/descriptor]: the descriptors of routes, of VRF tables and
    of ARP entries, against the interfaces of the handlers and of the allocator of
    addresses. *)
From S2P Require Import Prelude GoStrings GoNet GoNetText GoRegexp NetallocProto Netalloc Models VppModels Api Adapter NameToIndex.
From S2P Require Import VppBinapi AddrAlloc VppL3Proto VppL3Calls.

Section l3.
Context {X : Ext} {IX : Indexes} {VX : VrfIndexes} {UC : Unicode}.

(** The messages of the plugin among those of the scheduler. *)
Class L3Types := {
  l3_Route : ValueType Route;
  l3_VrfTable : ValueType VrfTable;
  l3_ARPEntry : ValueType ARPEntry
}.
Context {LT : L3Types}.

#[export] Existing Instance l3_Route.
#[export] Existing Instance l3_VrfTable.
#[export] Existing Instance l3_ARPEntry.
#[export] Instance VRF_metadata : MetadataType (option VRFMetadata) := pointer_metadata as_VRFMetadata of_VRFMetadata.

Definition InterfaceDescriptorName : string := "vpp-interface".
Definition VrfTableDescriptorName : string := "vpp-vrf-table".

(** ** Routes *)

Definition RouteDescriptorName : string := "vpp-route".
Definition routeOutInterfaceDep : string := "interface-exists".
Definition vrfTableDep : string := "vrf-table-exists".
Definition viaVrfTableDep : string := "via-vrf-table-exists".
Definition defaultWeight : Z := 1.

Section route.
Context (routeHandler : RouteVppAPI) (addrAlloc : AddressAllocator).
(** The second result of [addrs.ParseIPWithPrefix] of cn-infra. *)
Context (ParseIPWithPrefix_isIPv6 : string -> bool).

Definition equalAddrs (addr1 addr2 : string) : bool :=
  if is_ref addr1 || is_ref addr2 then String.eqb addr1 addr2
  else
    let a1 := ParseIP addr1 in
    let a2 := ParseIP addr2 in
    if (length a1 =? 0) || (length a2 =? 0) then EqualFold addr1 addr2 else ip_Equal a1 a2.

Definition equalNetworks (net1 net2 : string) : bool :=
  if is_ref net1 || is_ref net2 then String.eqb net1 net2
  else match ParseCIDR net1, ParseCIDR net2 with
  | Some (_, n1), Some (_, n2) => ip_Equal (IP n1) (IP n2) && bool_decide (Mask n1 = Mask n2)
  | _, _ => EqualFold net1 net2
  end.

Definition getGwAddr (route : Route) : string :=
  if negb (is_empty (rt_NextHopAddr route)) then rt_NextHopAddr route
  else if is_ref (rt_DstNetwork route) then ip_String IPv4zero
  else match ParseCIDR (rt_DstNetwork route) with
  | None => ""
  | Some (_, dstIPNet) => if length (To4 (IP dstIPNet)) =? 0 then ip_String IPv6zero else ip_String IPv4zero
  end.

Definition getWeight (route : Route) : Z := if (rt_Weight route =? 0)%Z then defaultWeight else rt_Weight route.

Definition EquivalentRoutes (key : string) (oldRoute newRoute : Route) : bool :=
  if negb (rt_Type oldRoute =? rt_Type newRoute)%Z
     || negb (rt_VrfId oldRoute =? rt_VrfId newRoute)%Z
     || negb (rt_ViaVrfId oldRoute =? rt_ViaVrfId newRoute)%Z
     || negb (String.eqb (rt_OutgoingInterface oldRoute) (rt_OutgoingInterface newRoute))
     || negb (getWeight oldRoute =? getWeight newRoute)%Z
     || negb (rt_Preference oldRoute =? rt_Preference newRoute)%Z then false
  else if negb (equalNetworks (rt_DstNetwork oldRoute) (rt_DstNetwork newRoute)) then false
  else if negb (equalAddrs (getGwAddr oldRoute) (getGwAddr newRoute)) then false
  else true.

(** [ipNet.String()] of the network that is parsed; a nil pointer prints too. *)
Definition parsed_net_text (s : string) : string :=
  match ParseCIDR s with Some (_, ipNet) => IPNet_String ipNet | None => "<nil>" end.

Definition rt_Validate (key : string) (route : Route) : option error :=
  match aa_ValidateIPAddress addrAlloc (rt_DstNetwork route) "" "dst_network" GWRefAllowed with
  | Some err => Some err
  | None =>
      match aa_ValidateIPAddress addrAlloc (getGwAddr route) (rt_OutgoingInterface route) "gw_addr" GWRefRequired with
      | Some err => Some err
      | None =>
          if negb (is_ref (rt_DstNetwork route))
             && negb (EqualFold (parsed_net_text (rt_DstNetwork route)) (rt_DstNetwork route))
          then Some (NewInvalidValueError (Some (errorf ("DstNetwork (" +:+ rt_DstNetwork route
                 +:+ ") must represent IP network (" +:+ parsed_net_text (rt_DstNetwork route) +:+ ")"))) ["dst_network"])
          else None
      end
  end.

Definition rt_Create (key : string) (route : Route) (w : World) : (option Metadata * option error) * World :=
  let '(err, w) := VppAddRoute routeHandler route w in ((None, err), w).

Definition rt_Delete (key : string) (route : Route) (metadata : option Metadata) : Call :=
  VppDelRoute routeHandler route.

(** The route with its references replaced by the addresses they stand for. *)
Definition dereferenced (route : Route) : Route :=
  let dstNetwork := match aa_GetOrParseIPAddress addrAlloc (rt_DstNetwork route) "" ADDR_NET with
    | inl parsed => IPNet_String parsed | inr _ => rt_DstNetwork route end in
  let nextHop := match aa_GetOrParseIPAddress addrAlloc (getGwAddr route) (rt_OutgoingInterface route) ADDR_ONLY with
    | inl parsed => ip_String (IP parsed) | inr _ => rt_NextHopAddr route end in
  MkRoute (rt_Type route) (rt_VrfId route) dstNetwork nextHop (rt_OutgoingInterface route)
    (rt_Weight route) (rt_Preference route) (rt_ViaVrfId route).

(** [expCfg] and [nbCfg], by the same keys. *)
Definition expected_routes (correlate : list (TypedKVWithMetadata Route (option Metadata))) :
    gmap string (Route * Route) :=
  fold_left (fun cfg kv => <[route_Key (dereferenced (tkv_Value kv)) := (dereferenced (tkv_Value kv), tkv_Value kv)]> cfg)
    correlate ∅.

Definition correlate_route (cfg : gmap string (Route * Route)) (route : Route) :
    TypedKVWithMetadata Route (option Metadata) :=
  let key := route_Key route in
  match cfg !! key with
  | Some (expCfg, nbCfg) =>
      if EquivalentRoutes key route expCfg then MkTypedKV (route_Key nbCfg) nbCfg None FromNB
      else MkTypedKV key route None UnknownOrigin
  | None => MkTypedKV key route None UnknownOrigin
  end.

Definition rt_Retrieve (correlate : list (TypedKVWithMetadata Route (option Metadata))) (w : World) :
    (list (TypedKVWithMetadata Route (option Metadata)) * option error) * World :=
  let cfg := expected_routes correlate in
  match DumpRoutes routeHandler w with
  | inr err => (([], Some (errorf ("failed to dump VPP routes: " +:+ Error err))), w)
  | inl routes => ((map (fun route => correlate_route cfg (rd_Route route)) routes, None), w)
  end.

Definition rt_Dependencies (key : string) (route : Route) : list Dependency :=
  let protocol := if ParseIPWithPrefix_isIPv6 (rt_DstNetwork route) then VrfTable_IPV6 else VrfTable_IPV4 in
  let alloc_dep addr iface label :=
    let '(allocDep, hasAllocDep) := aa_GetAddressAllocDep addrAlloc addr iface label in
    if hasAllocDep : bool then [allocDep] else [] in
  (if is_empty (rt_OutgoingInterface route) then []
   else [simple_dep routeOutInterfaceDep (InterfaceKey (rt_OutgoingInterface route))])
  ++ (if (rt_VrfId route =? 0)%Z then [] else [simple_dep vrfTableDep (VrfTableKey (rt_VrfId route) protocol)])
  ++ (if (rt_Type route =? Route_INTER_VRF)%Z && negb (rt_ViaVrfId route =? 0)%Z
      then [simple_dep viaVrfTableDep (VrfTableKey (rt_ViaVrfId route) protocol)] else [])
  ++ alloc_dep (rt_DstNetwork route) "" "dst_network-"
  ++ alloc_dep (rt_NextHopAddr route) (rt_OutgoingInterface route) "gw_addr-".

Definition RouteDescriptor : TypedDescriptor Route (option Metadata) := {|
  td_Name := RouteDescriptorName;
  td_KeySelector := IsKeyValid ModelRoute;
  td_KeyLabel := None;
  td_ValueComparator := Some EquivalentRoutes;
  td_NBKeyPrefix := km_KeyPrefix ModelRoute;
  td_WithMetadata := false;
  td_MetadataMapFactory := None;
  td_Validate := Some rt_Validate;
  td_Create := Some rt_Create;
  td_Delete := Some rt_Delete;
  td_Update := None;
  td_UpdateWithRecreate := None;
  td_Retrieve := Some rt_Retrieve;
  td_IsRetriableFailure := None;
  td_DerivedValues := None;
  td_Dependencies := Some rt_Dependencies;
  td_RetrieveDependencies := [IPAllocDescriptorName; InterfaceDescriptorName; VrfTableDescriptorName]
|}.
End route.

(** ** VRF tables *)

Definition labelLengthLimit : nat := 63.
Definition ErrVrfTableLabelTooLong : error :=
  Sentinel "VPP VRF table label exceeds the length limit (63 characters)".

Section vrf_table.
Context (vtHandler : VrfTableVppAPI).

Definition getVrfTableLabel (vrfTable : VrfTable) : string :=
  if is_empty (vrf_Label vrfTable)
  then ToLower (VrfTable_Protocol_String (vrf_Protocol vrfTable)) +:+ "-VRF:" +:+ Itoa (vrf_Id vrfTable)
  else vrf_Label vrfTable.

Definition defaultVrfFlowHashSettings : VrfTable_FlowHashSettings := MkFlowHash true true true true true false false.

Definition equal_settings (a b : option VrfTable_FlowHashSettings) : bool := bool_decide (a = b).

Definition EquivalentVrfTables (key : string) (oldVrfTable newVrfTable : VrfTable) : bool :=
  if negb (String.eqb (getVrfTableLabel oldVrfTable) (getVrfTableLabel newVrfTable))
     || negb (equal_settings (vrf_FlowHashSettings oldVrfTable) (vrf_FlowHashSettings newVrfTable)) then false
  else true.

Definition vrf_Validate (key : string) (vrfTable : VrfTable) : option error :=
  if labelLengthLimit <? String.length (vrf_Label vrfTable)
  then Some (NewInvalidValueError (Some ErrVrfTableLabelTooLong) ["label"]) else None.

Definition vrf_metadata (vrfTable : VrfTable) : option VRFMetadata :=
  Some (MkVRFMetadata (vrf_Id vrfTable) (vrf_Protocol vrfTable)).

Definition vrf_Create (key : string) (vrfTable : VrfTable) (w : World) :
    (option VRFMetadata * option error) * World :=
  match AddVrfTable vtHandler vrfTable w with
  | (Some err, w) => ((None, Some err), w)
  | (None, w) =>
      match vrf_FlowHashSettings vrfTable with
      | None => ((vrf_metadata vrfTable, None), w)
      | Some settings =>
          match SetVrfFlowHashSettings vtHandler (vrf_Id vrfTable)
                  (vrf_Protocol vrfTable =? VrfTable_IPV6)%Z settings w with
          | (Some err, w) => ((None, Some err), w)
          | (None, w) => ((vrf_metadata vrfTable, None), w)
          end
      end
  end.

Definition vrf_UpdateWithRecreate (key : string) (oldVrfTable newVrfTable : VrfTable)
    (metadata : option VRFMetadata) : bool :=
  negb ((vrf_Protocol oldVrfTable =? vrf_Protocol newVrfTable)%Z && (vrf_Id oldVrfTable =? vrf_Id newVrfTable)%Z).

Definition vrf_Update (key : string) (oldVrfTable newVrfTable : VrfTable) (oldMetadata : option VRFMetadata)
    (w : World) : (option VRFMetadata * option error) * World :=
  let '(err, w) :=
    if negb (equal_settings (vrf_FlowHashSettings oldVrfTable) (vrf_FlowHashSettings newVrfTable))
    then SetVrfFlowHashSettings vtHandler (vrf_Id newVrfTable) (vrf_Protocol newVrfTable =? VrfTable_IPV6)%Z
           (default defaultVrfFlowHashSettings (vrf_FlowHashSettings newVrfTable)) w
    else (None, w) in
  ((vrf_metadata newVrfTable, err), w).

Definition vrf_Delete (key : string) (vrfTable : VrfTable) (metadata : option VRFMetadata) : Call :=
  DelVrfTable vtHandler vrfTable.

Definition retrieved_vrf (table : VrfTable) : TypedKVWithMetadata VrfTable (option VRFMetadata) :=
  MkTypedKV (VrfTableKey (vrf_Id table) (vrf_Protocol table)) table (vrf_metadata table)
    (if (0 <? vrf_Id table)%Z && (vrf_Id table <? max_uint32)%Z then FromNB else UnknownOrigin).

Definition vrf_Retrieve (correlate : list (TypedKVWithMetadata VrfTable (option VRFMetadata))) (w : World) :
    (list (TypedKVWithMetadata VrfTable (option VRFMetadata)) * option error) * World :=
  match DumpVrfTables vtHandler w with
  | inr err => (([], Some (errorf ("failed to dump VPP VRF tables: " +:+ Error err))), w)
  | inl tables => ((map retrieved_vrf tables, None), w)
  end.

Definition VrfTableDescriptor : TypedDescriptor VrfTable (option VRFMetadata) := {|
  td_Name := VrfTableDescriptorName;
  td_KeySelector := IsKeyValid ModelVrfTable;
  td_KeyLabel := Some (StripKeyPrefix ModelVrfTable);
  td_ValueComparator := Some EquivalentVrfTables;
  td_NBKeyPrefix := km_KeyPrefix ModelVrfTable;
  td_WithMetadata := true;
  td_MetadataMapFactory := Some NewVRFIndex;
  td_Validate := Some vrf_Validate;
  td_Create := Some vrf_Create;
  td_Delete := Some vrf_Delete;
  td_Update := Some vrf_Update;
  td_UpdateWithRecreate := Some vrf_UpdateWithRecreate;
  td_Retrieve := Some vrf_Retrieve;
  td_IsRetriableFailure := None;
  td_DerivedValues := None;
  td_Dependencies := None;
  td_RetrieveDependencies := []
|}.
End vrf_table.

(** ** ARP entries *)

Definition ArpDescriptorName : string := "vpp-arp".
Definition arpEntryInterfaceDep : string := "interface-exists".

Section arp.
Context (arpHandler : ArpVppAPI).

(** [proto.Equal]. *)
Definition EquivalentArps (key : string) (oldArp newArp : ARPEntry) : bool := bool_decide (oldArp = newArp).

Definition arp_Create (key : string) (arp : ARPEntry) (w : World) : (option Metadata * option error) * World :=
  let '(err, w) := VppAddArp arpHandler arp w in ((None, err), w).

Definition arp_Delete (key : string) (arp : ARPEntry) (metadata : option Metadata) : Call := VppDelArp arpHandler arp.

Definition retrieved_arp (arp : ArpDetails) : TypedKVWithMetadata ARPEntry (option Metadata) :=
  MkTypedKV (ArpEntryKey (arpe_Interface (ad_Arp arp)) (arpe_IpAddress (ad_Arp arp))) (ad_Arp arp) None UnknownOrigin.

Definition arp_Retrieve (correlate : list (TypedKVWithMetadata ARPEntry (option Metadata))) (w : World) :
    (list (TypedKVWithMetadata ARPEntry (option Metadata)) * option error) * World :=
  match DumpArpEntries arpHandler w with
  | inr err => (([], Some (errorf ("failed to dump VPP arps: " +:+ Error err))), w)
  | inl arpEntries => ((map retrieved_arp arpEntries, None), w)
  end.

Definition arp_Dependencies (key : string) (arp : ARPEntry) : list Dependency :=
  if is_empty (arpe_Interface arp) then []
  else [simple_dep arpEntryInterfaceDep (InterfaceKey (arpe_Interface arp))].

Definition ArpDescriptor : TypedDescriptor ARPEntry (option Metadata) := {|
  td_Name := ArpDescriptorName;
  td_KeySelector := IsKeyValid ModelARPEntry;
  td_KeyLabel := Some (StripKeyPrefix ModelARPEntry);
  td_ValueComparator := Some EquivalentArps;
  td_NBKeyPrefix := km_KeyPrefix ModelARPEntry;
  td_WithMetadata := false;
  td_MetadataMapFactory := None;
  td_Validate := None;
  td_Create := Some arp_Create;
  td_Delete := Some arp_Delete;
  td_Update := None;
  td_UpdateWithRecreate := None;
  td_Retrieve := Some arp_Retrieve;
  td_IsRetriableFailure := None;
  td_DerivedValues := None;
  td_Dependencies := Some arp_Dependencies;
  td_RetrieveDependencies := [InterfaceDescriptorName]
|}.
End arp.
End l3.
