(* ===== verification/VppL3Table.v ===== *)
(** * The L3 plugin: what VPP has

    The behaviour of VPP as a class of laws, which paths VPP has after routes were
    created and deleted, and what is read back of a path. *)
From S2P Require Import Prelude Api Adapter GoStrings NetallocProto GoNet GoNetFacts GoNetText GoNetTextFacts Netalloc.
From S2P Require Import NetallocFacts NameToIndex VppBinapi AddrAlloc VppL3Proto VppL3Calls VppL3.

(** ** Texts that are read back *)

Lemma ref_letter s : is_ref s = true -> no_char letter_l s = false.
Proof. intros [t ->]%prefix_spec. reflexivity. Qed.

Lemma not_ref s : no_char letter_l s = true -> is_ref s = false.
Proof. intros H. destruct (is_ref s) eqn:E; [|done]. apply ref_letter in E. congruence. Qed.

Lemma Itoa_no_l z : no_char letter_l (Itoa z) = true.
Proof. eapply int_string_digits; [apply int_string_roundtrip|by intros []|done]. Qed.

Lemma text_not_ref ip t : ip_ok 4 ip \/ ip_ok 16 ip -> no_char letter_l t = true -> is_ref (ip_String ip +:+ t) = false.
Proof. intros Hip Ht. apply not_ref. rewrite no_char_app, Ht, ip_String_other; [done|by right|done]. Qed.

Lemma ip_Equal_refl ip : ip_Equal ip ip = true.
Proof. unfold ip_Equal. rewrite Nat.eqb_refl. by apply bool_decide_eq_true. Qed.

Section facts.
Context {X : Ext} {IX : Indexes} {VX : VrfIndexes} {UC : Unicode}.

Lemma equalNetworks_text n : plain_net n -> equalNetworks (IPNet_String n) (IPNet_String n) = true.
Proof.
  intros Hn. unfold equalNetworks.
  assert (is_ref (IPNet_String n) = false) as ->.
  { destruct (plain_text n Hn) as (k & _ & Hk & Hl & ->). apply text_not_ref.
    - destruct (plain_parsed n Hn) as [|[]]; auto.
    - rewrite no_char_app. cbn [no_char]. exact (Itoa_no_l _). }
  destruct (ParseCIDR_text n Hn) as (k & -> & _). cbn [IP Mask orb].
  rewrite ip_Equal_refl. by apply bool_decide_eq_true.
Qed.

Lemma equalAddrs_text ip : parsed_ip ip -> equalAddrs (ip_String ip) (ip_String ip) = true.
Proof.
  intros Hip. assert (ip_ok 4 ip \/ ip_ok 16 ip) as Hok by (destruct Hip as [|[]]; auto).
  unfold equalAddrs. rewrite not_ref by (apply ip_String_other; [by right|done]). cbn [orb]. rewrite ParseIP_String by done. rewrite ip_Equal_refl.
  destruct (_ || _) eqn:E; [|done]. exfalso. unfold To16 in E. destruct Hok as [[Hl _]|[Hl _]]; rewrite Hl in E; cbn in E.
  - done.
  - rewrite Hl in E. done.
Qed.

Lemma ip_text_not_empty ip : ip_ok 4 ip \/ ip_ok 16 ip -> is_empty (ip_String ip) = false.
Proof.
  intros Hip. apply String.eqb_neq. intros E. pose proof (ParseIP_String ip Hip) as H. rewrite E in H.
  change (ParseIP "") with (@nil Z) in H. unfold To16 in H. destruct Hip as [[Hl _]|[Hl _]]; rewrite Hl in H; [done|].
  cbn in H. by rewrite <- H in Hl.
Qed.

(** A network as it is sent, and its text when it is read back. *)
Lemma plain_prefix n : plain_net n ->
  (Af (pf_Address (networkToPrefix n)) =? ADDRESS_IP6)%Z = negb (is_v4 (IP n))
  /\ forall t np ps, dumped_dst (MkIPRoute t (networkToPrefix n) np ps) = IPNet_String n.
Proof. intros Hn. by destruct (sent_prefix n Hn). Qed.

(** ** What VPP does *)

Definition zero_addr (ip : list Z) : bool := forallb (Z.eqb 0) ip.

(** The interface index that VPP reports for a path that drops. *)
Class DropIndex := vpp_drop_index : Z.
Context {DI : DropIndex}.

(** A path as VPP reports it: a default weight; a path that drops has its own
    interface index and may have lost its next hop; the protocol is that of the next
    hop, or of the prefix when there is none. *)
Definition reported (pf : ip_Prefix) (sent p : FibPath) : Prop :=
  let drop := (fp_Type sent =? FIB_API_PATH_TYPE_DROP)%Z in
  fp_Type p = fp_Type sent /\ fp_Preference p = fp_Preference sent
  /\ (fp_Weight p = fp_Weight sent \/ fp_Weight sent = 0%Z /\ fp_Weight p = 1%Z)
  /\ fp_SwIfIndex p = (if drop then vpp_drop_index else fp_SwIfIndex sent)
  /\ (drop = false -> fp_TableID p = fp_TableID sent)
  /\ (nh_Address (fp_Nh p) = nh_Address (fp_Nh sent)
      \/ drop = true /\ nh_Address (fp_Nh p) = replicate 16 0%Z)
  /\ (drop = false /\ zero_addr (nh_Address (fp_Nh sent)) = false \/ fp_Proto sent = Af (pf_Address pf) ->
      fp_Proto p = fp_Proto sent).

(** Paths over the same hop; what an added or deleted path replaces. *)
Definition same_hop (p q : FibPath) : Prop :=
  fp_SwIfIndex p = fp_SwIfIndex q /\ fp_Proto p = fp_Proto q /\ nh_Address (fp_Nh p) = nh_Address (fp_Nh q).
Definition covers (pf : ip_Prefix) (sent p : FibPath) : Prop := exists q, reported pf sent q /\ same_hop p q.

(** The paths of VPP by table and prefix.  A request for one path that succeeds
    has the documented effect, and a dump without an error reports all there is. *)
Class L3Laws {CH : L3Channel} := {
  vpp_fib : World -> Z -> ip_Prefix -> list FibPath;
  vpp_add_route : forall t pf sent w w',
    l3_SendRequest (IPRouteAddDel true true (MkIPRoute t pf 1 [sent])) w = (None, w') ->
    (exists p, reported pf sent p /\ p ∈ vpp_fib w' t pf)
    /\ forall t' pf' p, p ∈ vpp_fib w t' pf' -> ~ (t' = t /\ pf' = pf /\ covers pf sent p) -> p ∈ vpp_fib w' t' pf';
  vpp_del_route : forall t pf sent w w',
    l3_SendRequest (IPRouteAddDel false true (MkIPRoute t pf 1 [sent])) w = (None, w') ->
    forall t' pf' p, p ∈ vpp_fib w t' pf' -> ~ (t' = t /\ pf' = pf /\ covers pf sent p) -> p ∈ vpp_fib w' t' pf';
  vpp_route_dump : forall t v6 w l, IPRouteDump t v6 w = (l, None) ->
    forall pf p, (Af (pf_Address pf) =? ADDRESS_IP6)%Z = v6 -> p ∈ vpp_fib w t pf ->
    exists r, r ∈ l /\ ipr_TableID r = t /\ ipr_Prefix r = pf /\ (0 < ipr_NPaths r)%Z /\ p ∈ ipr_Paths r
}.

(** ** What is read back of a route *)

Context (ifIndexes vrfIndexes : Mapping) (addrAlloc : AddressAllocator) {AL : AllocLaws addrAlloc}.

Definition dst_of (r : Route) : IPNet + error := aa_GetOrParseIPAddress addrAlloc (rt_DstNetwork r) "" ADDR_NET.
Definition gw_of (r : Route) : IPNet + error :=
  aa_GetOrParseIPAddress addrAlloc (getGwAddr r) (rt_OutgoingInterface r) ADDR_ONLY.

Definition is_drop (r : Route) : bool := (rt_Type r =? Route_DROP)%Z.

(** The name of an interface that is dumped. *)
Definition index_name (idx : Z) : string :=
  if (idx =? NextHopOutgoingIfUnset)%Z then "" else (LookupBySwIfIndex ifIndexes idx).1.1.

(** The settings that survive the conversion to the binary API and back. *)
Definition settings_reported (r : Route) : bool :=
  (uint8 (rt_Weight r) =? rt_Weight r)%Z && (uint8 (rt_Preference r) =? rt_Preference r)%Z
  && (if (rt_Type r =? Route_INTER_VRF)%Z
      then is_empty (rt_OutgoingInterface r) && negb (rt_ViaVrfId r =? rt_VrfId r)%Z
      else if is_drop r then String.eqb (index_name vpp_drop_index) (rt_OutgoingInterface r) && (rt_ViaVrfId r =? 0)%Z
      else (rt_Type r =? Route_INTRA_VRF)%Z && (rt_ViaVrfId r =? 0)%Z).

(** Destination and next hop are resolved, to a network with a mask of its length,
    and to a next hop that has a route's family unless its own family is known. *)
Definition hops_reported (r : Route) : bool :=
  match dst_of r, gw_of r with
  | inl net, inl gw =>
      (length (Mask net) =? length (IP net))
      && (if is_empty (rt_NextHopAddr r) then is_v4 (IP net) && is_v4 (IP gw)
          else negb (zero_addr (IP gw)) && negb (is_drop r) || Bool.eqb (is_v4 (IP gw)) (is_v4 (IP net)))
      && (negb (is_drop r) || zero_addr (IP gw))
  | _, _ => false
  end.

(** The interface of a route, by its name and by its index. *)
Definition interface_known (r : Route) (idx : Z) : Prop :=
  getRouteSwIfIndex ifIndexes (rt_OutgoingInterface r) = inl idx
  /\ (rt_OutgoingInterface r <> "" -> idx <> NextHopOutgoingIfUnset
      /\ (LookupBySwIfIndex ifIndexes idx).1.1 = rt_OutgoingInterface r).

(** The next hop that is sent for a route. *)
Definition sent_hop (r : Route) : FibPathNh * Z :=
  if is_empty (rt_NextHopAddr r) then no_next_hop
  else match gw_of r with inl gw => setFibPathNhAndProto (IP gw) | inr _ => no_next_hop end.

Lemma plain_of_form a : parsed_net a -> length (Mask (in_form ADDR_NET a)) = length (IP (in_form ADDR_NET a)) ->
  plain_net (in_form ADDR_NET a).
Proof.
  cbn [in_form IP Mask]. intros [ip n Hip Hn|ip n Hip Hp Hn|ip n Hip Hn]; cbn [IP Mask]; intros Hl.
  - rewrite ip_Mask_same by (rewrite length_mask_bytes; apply Hip). apply plain_v4; [|done].
    split; [rewrite length_and_bytes; [apply Hip|rewrite length_mask_bytes; apply Hip]|]. apply and_bytes_ok, Hip.
  - rewrite ip_Mask_same by (rewrite length_mask_bytes; apply Hip). apply plain_v6; [|by apply masked_not_v4|done].
    split; [rewrite length_and_bytes; [apply Hip|rewrite length_mask_bytes; apply Hip]|]. apply and_bytes_ok, Hip.
  - exfalso. rewrite ip_Mask_4_16, length_mask_bytes in Hl by (apply Hip || apply length_mask_bytes).
    destruct (allFF _); [|done]. rewrite length_and_bytes in Hl; rewrite (proj1 Hip) in *; [done|].
    by rewrite length_drop, length_mask_bytes.
Qed.
Lemma dst_plain r net : dst_of r = inl net -> length (Mask net) = length (IP net) -> plain_net net.
Proof. intros (a & Ha & ->)%alloc_parsed. by apply plain_of_form. Qed.

Lemma gw_parsed r gw : gw_of r = inl gw -> parsed_ip (IP gw).
Proof.
  intros (a & Ha & ->)%alloc_parsed. cbn [in_form IP].
  destruct Ha as [ip n Hip _|ip n Hip Hp _|ip n Hip _]; cbn [IP]; [by left|by right|by left].
Qed.

(** Without a next hop the zero address is expected. *)
Lemma default_gw r gw : rt_NextHopAddr r = "" -> gw_of r = inl gw -> is_v4 (IP gw) = true -> IP gw = [0; 0; 0; 0]%Z.
Proof.
  intros Hn. unfold gw_of, getGwAddr. rewrite Hn. cbn [is_empty String.eqb negb].
  assert (forall s, s = "0.0.0.0" \/ s = "::" \/ s = "" ->
    aa_GetOrParseIPAddress addrAlloc s (rt_OutgoingInterface r) ADDR_ONLY = inl gw ->
    is_v4 (IP gw) = true -> IP gw = [0; 0; 0; 0]%Z) as H.
  { intros s [->|[->| ->]]; rewrite alloc_text by done; [by intros [= <-]|by intros [= <-]|done]. }
  destruct (is_ref _); [by apply H; left|]. destruct (ParseCIDR _) as [[ip n]|]; [|by apply H; right; right].
  destruct (_ =? 0); [by apply H; right; left|by apply H; left].
Qed.

Lemma zero_copy n b : zero_addr b = true -> length b <= n -> copy_bytes n b = replicate n 0%Z.
Proof.
  intros Hz Hl. assert (b = replicate (length b) 0%Z) as ->.
  { clear Hl. induction b as [|x b IH]; [done|]. unfold zero_addr in *. cbn [forallb] in Hz.
    apply andb_true_iff in Hz as [Hx%Z.eqb_eq Hz]. cbn. f_equal; [done|by apply IH]. }
  unfold copy_bytes. rewrite length_replicate, take_ge, <- replicate_add by by rewrite length_replicate. f_equal. lia.
Qed.

Lemma zero_union ip : parsed_ip ip -> zero_addr (to_union ip).2 = zero_addr ip
  /\ (zero_addr ip = true -> (to_union ip).2 = replicate 16 0%Z).
Proof.
  intros Hip. unfold to_union. rewrite (To4_parsed ip Hip). destruct Hip as [[Hl Hb]|[[Hl Hb] Hp]]; rewrite Hl; cbn [Nat.eqb].
  - rewrite Hl. cbn [Nat.eqb snd]. rewrite (copy_bytes_exact 4 ip Hl). split; [|intros Hz; apply zero_copy; [done|lia]].
    unfold copy_bytes, zero_addr. rewrite take_ge, forallb_app, Hl by lia. cbn. apply andb_true_r.
  - cbn [length Nat.eqb snd]. assert (To16 ip = ip) as -> by (unfold To16; by rewrite Hl). rewrite copy_bytes_exact by done.
    split; [done|]. intros Hz. rewrite <- (copy_bytes_exact 16 ip Hl). apply zero_copy; [done|lia].
Qed.

Lemma fib_path_drop r idx nh : (fp_Type (fib_path r idx nh) =? FIB_API_PATH_TYPE_DROP)%Z = is_drop r.
Proof.
  unfold fib_path, is_drop. destruct (Z.eqb_spec (rt_Type r) Route_INTER_VRF) as [E|]; [by rewrite E|].
  by destruct (Z.eqb_spec (rt_Type r) Route_DROP) as [E|].
Qed.

Lemma fib_path_hop r idx nh : fp_Nh (fib_path r idx nh) = nh.1 /\ fp_Proto (fib_path r idx nh) = nh.2.
Proof. unfold fib_path. destruct (_ =? _)%Z; [done|]. by destruct (_ =? _)%Z. Qed.

(** The next hop of a reported path has the text of the expected one. *)
Lemma hop_text r net gw idx p : hops_reported r = true -> dst_of r = inl net -> gw_of r = inl gw ->
  reported (networkToPrefix net) (fib_path r idx (sent_hop r)) p ->
  union_text (fp_Proto p =? FIB_API_PATH_NH_PROTO_IP6)%Z (nh_Address (fp_Nh p)) = ip_String (IP gw).
Proof.
  intros Hh Hd Hg (_ & _ & _ & _ & _ & Hnh & Hproto). unfold hops_reported in Hh. rewrite Hd, Hg in Hh.
  apply andb_true_iff in Hh as [[Hl%Nat.eqb_eq Hf]%andb_true_iff Hdrop].
  destruct (plain_prefix net (dst_plain r net Hd Hl)) as [Haf _].
  rewrite fib_path_drop, (proj1 (fib_path_hop _ _ _)) in *. rewrite (proj2 (fib_path_hop _ _ _)) in Hproto.
  assert (Af (pf_Address (networkToPrefix net)) = if is_v4 (IP net) then ADDRESS_IP4 else ADDRESS_IP6) as Haf'.
  { unfold networkToPrefix. destruct (union_text_of (IP net) (plain_parsed net (dst_plain r net Hd Hl))) as [-> _].
    cbn. by destruct (is_v4 (IP net)). }
  rewrite Haf' in Hproto. clear Haf Haf'. unfold sent_hop in *.
  destruct (is_empty (rt_NextHopAddr r)) eqn:En.
  - apply String.eqb_eq in En. apply andb_true_iff in Hf as [Hn4 Hg4]. rewrite (default_gw r gw En Hg Hg4).
    rewrite Hn4 in Hproto. rewrite Hproto by (by right). by destruct Hnh as [->|[_ ->]].
  - rewrite Hg in *. destruct (union_text_of (IP gw) (gw_parsed r gw Hg)) as [E1 E2].
    destruct (zero_union (IP gw) (gw_parsed r gw Hg)) as [Ez1 Ez2]. unfold setFibPathNhAndProto in *. rewrite E1 in *.
    cbn [fst snd nh_Address] in *. rewrite <- E2.
    assert (nh_Address (fp_Nh p) = (to_union (IP gw)).2) as ->.
    { destruct Hnh as [->|[Hx ->]]; [done|]. rewrite Hx in Hdrop. cbn in Hdrop. symmetry. by apply Ez2. }
    rewrite Hproto; [by destruct (is_v4 (IP gw))|]. rewrite Ez1. apply orb_true_iff in Hf as [Hf|Hf].
    + apply andb_true_iff in Hf as [Hz%negb_true_iff Hx%negb_true_iff]. by left.
    + right. apply Bool.eqb_prop in Hf as ->. by destruct (is_v4 (IP net)).
Qed.

(** A route with what its references stand for. *)
Lemma dereferenced_eq r net gw : dst_of r = inl net -> gw_of r = inl gw ->
  dereferenced addrAlloc r = MkRoute (rt_Type r) (rt_VrfId r) (IPNet_String net) (ip_String (IP gw))
    (rt_OutgoingInterface r) (rt_Weight r) (rt_Preference r) (rt_ViaVrfId r).
Proof. unfold dst_of, gw_of, dereferenced. by intros -> ->. Qed.
(** The fields of the path that is sent. *)
Lemma fib_path_fields r idx nh :
  fp_Weight (fib_path r idx nh) = uint8 (rt_Weight r) /\ fp_Preference (fib_path r idx nh) = uint8 (rt_Preference r)
  /\ fp_SwIfIndex (fib_path r idx nh) = (if is_drop r then 0%Z else idx)
  /\ (is_drop r = false -> fp_TableID (fib_path r idx nh)
       = if (rt_Type r =? Route_INTER_VRF)%Z then rt_ViaVrfId r else rt_VrfId r).
Proof.
  unfold fib_path, is_drop. destruct (Z.eqb_spec (rt_Type r) Route_INTER_VRF) as [E|]; [by rewrite E|].
  by destruct (Z.eqb_spec (rt_Type r) Route_DROP) as [E|].
Qed.

Lemma reported_name r idx nh pf p : interface_known r idx -> reported pf (fib_path r idx nh) p ->
  index_name (fp_SwIfIndex p) = (if is_drop r then index_name vpp_drop_index else rt_OutgoingInterface r)
  /\ (is_drop r = false -> (fp_SwIfIndex p =? NextHopOutgoingIfUnset)%Z = is_empty (rt_OutgoingInterface r)).
Proof.
  intros (Hi & Hn) (_ & _ & _ & Hsw & _). rewrite fib_path_drop in Hsw.
  destruct (fib_path_fields r idx nh) as (_ & _ & Es & _). rewrite Es in Hsw. clear Es. unfold index_name.
  rewrite Hsw. destruct (is_drop r).
  - by split.
  - unfold getRouteSwIfIndex in Hi.
    destruct (is_empty (rt_OutgoingInterface r)) eqn:Ee.
    + injection Hi as <-. apply String.eqb_eq in Ee. by rewrite Ee.
    + apply String.eqb_neq in Ee. destruct (Hn Ee) as [Hu Hl]. by rewrite (proj2 (Z.eqb_neq _ _) Hu).
Qed.

(** The type and the other VRF that are reported. *)
Definition reported_type (r : Route) : Z * Z :=
  if is_drop r then (Route_DROP, 0%Z)
  else if (rt_Type r =? Route_INTER_VRF)%Z && is_empty (rt_OutgoingInterface r) && negb (rt_ViaVrfId r =? rt_VrfId r)%Z
  then (Route_INTER_VRF, rt_ViaVrfId r) else (Route_INTRA_VRF, 0%Z).

Lemma dumped_type r idx nh ipr p : interface_known r idx -> reported (ipr_Prefix ipr) (fib_path r idx nh) p ->
  ipr_TableID ipr = rt_VrfId r ->
  let route := rd_Route (dumped_path ifIndexes vrfIndexes ipr p) in
  (rt_Type route, rt_ViaVrfId route) = reported_type r.
Proof.
  intros Hi Hp Ht. destruct (reported_name _ _ _ _ _ Hi Hp) as [_ Hu].
  destruct Hp as (Hty & _ & _ & _ & Htab & _). rewrite fib_path_drop in Htab.
  destruct (fib_path_fields r idx nh) as (_ & _ & _ & Etab).
  assert ((fp_Type p =? FIB_API_PATH_TYPE_DROP)%Z = is_drop r) as Hd by by rewrite Hty, fib_path_drop.
  unfold dumped_path, reported_type. rewrite Hd, Ht. destruct (is_drop r); [done|].
  rewrite Hu, Htab, Etab by done. destruct (rt_Type r =? Route_INTER_VRF)%Z; cbn [andb].
  - by destruct (is_empty _), (rt_ViaVrfId r =? rt_VrfId r)%Z.
  - rewrite Z.eqb_refl. cbn [negb]. by rewrite andb_false_r.
Qed.

Lemma weight_reported w wp : wp = uint8 w \/ uint8 w = 0%Z /\ wp = 1%Z ->
  ((if (wp =? 0)%Z then defaultWeight else wp) =? (if (w =? 0)%Z then defaultWeight else w))%Z = (uint8 w =? w)%Z.
Proof.
  intros H. unfold uint8, defaultWeight in *. assert (0 <= w mod 256 < 256)%Z as Hb by (apply Z.mod_pos_bound; lia).
  assert ((w mod 256 = w)%Z <-> (0 <= w < 256)%Z) as Hw.
  { split; [intros E; lia|intros E; by apply Z.mod_small]. }
  apply Bool.eq_iff_eq_true. rewrite !Z.eqb_eq, Hw.
  destruct (Z.eqb_spec wp 0); destruct (Z.eqb_spec w 0); destruct H as [->|[H ->]]; subst; try lia.
  all: destruct (decide (0 <= w < 256)%Z) as [Hr|Hr]; [rewrite Z.mod_small in * by lia; lia|split; [|lia]].
  all: intros E; exfalso; apply Hr; lia.
Qed.


(** The next hop that is dumped for a path; it is never empty. *)
Definition nh_text (p : FibPath) : string :=
  union_text (fp_Proto p =? FIB_API_PATH_NH_PROTO_IP6)%Z (nh_Address (fp_Nh p)).

Lemma union_not_empty v6 un : ip_ok 16 un -> is_empty (union_text v6 un) = false.
Proof.
  intros [Hl Hb]. unfold union_text. rewrite (copy_bytes_exact 16 un Hl). destruct v6; apply ip_text_not_empty.
  - right. unfold To16. by rewrite Hl.
  - left. assert (length (take 4 un) = 4) as H4 by (rewrite length_take; lia). rewrite (To4_4 _ H4). split; [done|].
    by apply Forall_take.
Qed.

Lemma zero_ok : ip_ok 16 (replicate 16 0%Z).
Proof. split; [done|]. apply Forall_replicate. unfold is_byte. lia. Qed.

Lemma union_ok ip : parsed_ip ip -> ip_ok 16 (to_union ip).2.
Proof.
  intros Hip. unfold to_union. rewrite (To4_parsed ip Hip). destruct Hip as [[Hl Hb]|[[Hl Hb] Hp]]; rewrite Hl; cbn [Nat.eqb].
  - rewrite Hl. cbn [Nat.eqb snd]. rewrite (copy_bytes_exact 4 ip Hl). split; [apply length_copy_bytes|].
    unfold copy_bytes. rewrite take_ge by lia. apply Forall_app. split; [done|]. apply Forall_replicate. unfold is_byte. lia.
  - cbn [length Nat.eqb snd]. unfold To16. rewrite Hl. cbn [Nat.eqb]. by rewrite copy_bytes_exact by done.
Qed.

Lemma nh_not_empty r idx pf p : reported pf (fib_path r idx (sent_hop r)) p -> is_empty (nh_text p) = false.
Proof.
  intros (_ & _ & _ & _ & _ & Hnh & _). apply union_not_empty. rewrite (proj1 (fib_path_hop _ _ _)) in Hnh.
  destruct Hnh as [->|[_ ->]]; [|apply zero_ok]. unfold sent_hop. destruct (is_empty _); [apply zero_ok|].
  destruct (gw_of r) as [gw|] eqn:Hg; [|apply zero_ok]. pose proof (gw_parsed r gw Hg) as Hp.
  unfold setFibPathNhAndProto. rewrite (proj1 (union_text_of (IP gw) Hp)). cbn. by apply union_ok.
Qed.

(** A dumped route is equivalent to the expected one exactly if its settings are
    reported and VPP reports the expected next hop, and has its key then. *)
Lemma dumped_equivalent r net idx ipr p key : dst_of r = inl net -> length (Mask net) = length (IP net) ->
  interface_known r idx -> ipr_TableID ipr = rt_VrfId r -> ipr_Prefix ipr = networkToPrefix net ->
  reported (networkToPrefix net) (fib_path r idx (sent_hop r)) p ->
  let route := rd_Route (dumped_path ifIndexes vrfIndexes ipr p) in
  EquivalentRoutes key route (dereferenced addrAlloc r)
    = settings_reported r && equalAddrs (nh_text p) (getGwAddr (dereferenced addrAlloc r))
  /\ (settings_reported r = true -> nh_text p = rt_NextHopAddr (dereferenced addrAlloc r) ->
      route_Key route = route_Key (dereferenced addrAlloc r)).
Proof.
  intros Hd Hlen Hi Ht Hpf Hp route. pose proof (dst_plain r net Hd Hlen) as Hnet.
  pose proof (nh_not_empty _ _ _ _ Hp) as Hne.
  assert (dumped_dst ipr = IPNet_String net) as Hdst.
  { destruct ipr as [t pf np ps]. cbn in Hpf. subst pf. by apply plain_prefix. }
  assert ((rt_Type route, rt_ViaVrfId route) = reported_type r) as Hty by (apply (dumped_type r idx (sent_hop r)); [done|by rewrite Hpf|done]).
  destruct (reported_name _ _ _ _ _ Hi Hp) as [Hname _].
  destruct (fib_path_fields r idx (sent_hop r)) as (Ew & Ep & _ & _).
  destruct Hp as (_ & Hpref & Hw & _). rewrite Ew in Hw. rewrite Ep in Hpref.
  assert (rt_VrfId route = rt_VrfId r /\ rt_DstNetwork route = IPNet_String net /\ rt_NextHopAddr route = nh_text p
    /\ rt_OutgoingInterface route = index_name (fp_SwIfIndex p) /\ rt_Weight route = fp_Weight p
    /\ rt_Preference route = uint8 (rt_Preference r))
    as (R1 & R2 & R3 & R4 & R5 & R6).
  { unfold route, dumped_path. rewrite Hdst, Ht, <- Hpref.
    destruct (if (fp_Type p =? FIB_API_PATH_TYPE_DROP)%Z then _ else _) as [rty via]. done. }
  clearbody route.
  assert (rt_DstNetwork (dereferenced addrAlloc r) = IPNet_String net) as Edst
    by (unfold dst_of, dereferenced in *; by rewrite Hd).
  set (gwaddr := getGwAddr (dereferenced addrAlloc r)).
  unfold EquivalentRoutes. fold gwaddr. unfold getGwAddr at 1, getWeight.
  unfold route_Key. rewrite Edst. clearbody gwaddr.
  unfold dereferenced. cbn [rt_Type rt_VrfId rt_ViaVrfId rt_OutgoingInterface rt_Weight rt_Preference rt_DstNetwork rt_NextHopAddr].
  rewrite R1, R2, R3, R4, R5, R6, Hne, Hname, Z.eqb_refl. cbn [negb].
  rewrite equalNetworks_text by done. cbn [negb]. rewrite weight_reported by done. unfold settings_reported.
  clear Hne.
  unfold reported_type in Hty. destruct (is_drop r) eqn:Edrop.
  - unfold is_drop in Edrop. injection Hty as -> ->. rewrite (Z.eqb_sym Route_DROP), Edrop.
    apply Z.eqb_eq in Edrop. rewrite Edrop.
    change (Route_DROP =? Route_INTER_VRF)%Z with false. cbv iota. cbn [negb orb].
    rewrite (Z.eqb_sym 0). split.
    + by destruct (uint8 (rt_Weight r) =? rt_Weight r)%Z, (uint8 (rt_Preference r) =? rt_Preference r)%Z,
        (rt_ViaVrfId r =? 0)%Z, (String.eqb _ (rt_OutgoingInterface r)), (equalAddrs _ _).
    + intros [_ [Hif%String.eqb_eq _]%andb_true_iff]%andb_true_iff ->. by rewrite Hif.
  - rewrite String.eqb_refl. cbn [negb]. split; [|by intros _ ->].
    destruct (rt_Type r =? Route_INTER_VRF)%Z eqn:Einter; cbn [andb] in Hty.
    + apply Z.eqb_eq in Einter. rewrite Einter.
      destruct (is_empty _); cbn [andb] in *; [|injection Hty as -> ->; by rewrite !andb_false_r].
      destruct (rt_ViaVrfId r =? rt_VrfId r)%Z; cbn [negb] in *; injection Hty as -> ->; [by rewrite !andb_false_r|].
      rewrite !Z.eqb_refl. cbn [negb orb].
      by destruct (uint8 (rt_Weight r) =? rt_Weight r)%Z, (uint8 (rt_Preference r) =? rt_Preference r)%Z, (equalAddrs _ _).
    + injection Hty as -> ->. rewrite (Z.eqb_sym Route_INTRA_VRF), (Z.eqb_sym 0).
      by destruct (rt_Type r =? Route_INTRA_VRF)%Z, (rt_ViaVrfId r =? 0)%Z, (uint8 (rt_Weight r) =? rt_Weight r)%Z,
        (uint8 (rt_Preference r) =? rt_Preference r)%Z, (equalAddrs _ _).
Qed.

(** The reported next hop is the expected one if [hops_reported]. *)
Lemma hop_expected r net idx p : hops_reported r = true -> dst_of r = inl net ->
  reported (networkToPrefix net) (fib_path r idx (sent_hop r)) p ->
  nh_text p = rt_NextHopAddr (dereferenced addrAlloc r)
  /\ equalAddrs (nh_text p) (getGwAddr (dereferenced addrAlloc r)) = true.
Proof.
  intros Hh Hd Hp. assert (exists gw, gw_of r = inl gw) as [gw Hg].
  { unfold hops_reported in Hh. rewrite Hd in Hh. destruct (gw_of r) as [gw|]; [by exists gw|done]. }
  pose proof (hop_text r net gw idx p Hh Hd Hg Hp) as Ht. fold (nh_text p) in Ht.
  pose proof (nh_not_empty _ _ _ _ Hp) as Hne. rewrite Ht in Hne.
  rewrite (dereferenced_eq r net gw Hd Hg), Ht. unfold getGwAddr. cbn [rt_NextHopAddr]. rewrite Hne. cbn [negb].
  split; [done|]. apply equalAddrs_text. by eapply gw_parsed.
Qed.
End facts.

(** ** Tables and neighbours of VPP *)

Section tables.
Context {X : Ext} {CH : L3Channel}.

(** A name that fits into the field of a table. *)
Definition name_ok (name : string) : Prop := String.length name <= labelLengthLimit /\ no_char Ascii.zero name = true.

(** The name that VPP gives to a table without one. *)
Definition generated_name (id : Z) (v6 : bool) : string := (if v6 then "ipv6-VRF:" else "ipv4-VRF:") +:+ Itoa id.

(** The flow hash of a new table. *)
Definition default_flow_hash : Z := 31.

(** The tables of VPP: their names and flow hashes.  A table can be added when there
    is none, and a request for the flow hash leaves the names alone. *)
Class VrfLaws := {
  vpp_table : World -> Z -> bool -> option (string * Z);
  vpp_add_table : forall id v6 name w w', l3_SendRequest (IPTableAddDel true (MkIPTable id v6 name)) w = (None, w') ->
    vpp_table w id v6 = None ->
    exists name', vpp_table w' id v6 = Some (name', default_flow_hash)
      /\ (name_ok name -> Trim Ascii.zero name' = if is_empty name then generated_name id v6 else name);
  vpp_set_flow_hash : forall id af config name old w w',
    l3_SendRequest (SetIPFlowHashV2 id af config) w = (None, w') ->
    vpp_table w id (af =? ADDRESS_IP6)%Z = Some (name, old) ->
    vpp_table w' id (af =? ADDRESS_IP6)%Z = Some (name, config);
  vpp_table_dump : forall w l, IPTableDump w = (l, None) -> forall id v6 name config,
    vpp_table w id v6 = Some (name, config) -> MkIPTable id v6 name ∈ l
}.
(** The neighbours of VPP: an added one is there, as it was sent but for its other
    flags, and a dump without an error reports all of its family. *)
Class ArpLaws := {
  vpp_neighbors : World -> list IPNeighbor;
  vpp_add_neighbor : forall n w w', l3_SendRequest (IPNeighborAddDel true n) w = (None, w') ->
    exists n', n' ∈ vpp_neighbors w' /\ ipn_SwIfIndex n' = ipn_SwIfIndex n /\ ipn_MacAddress n' = ipn_MacAddress n
      /\ ipn_IPAddress n' = ipn_IPAddress n
      /\ Z.land (ipn_Flags n') IP_API_NEIGHBOR_FLAG_STATIC = Z.land (ipn_Flags n) IP_API_NEIGHBOR_FLAG_STATIC;
  vpp_neighbor_dump : forall af w l, IPNeighborDump max_uint32 af w = (l, None) ->
    forall n, n ∈ vpp_neighbors w -> Af (ipn_IPAddress n) = af -> n ∈ l
}.
End tables.

(** ** A VPP with routes, VRF tables and neighbours *)

Inductive L3Value :=
  | RouteValue (r : Route) | VrfValue (t : VrfTable) | ArpValue (a : ARPEntry) | AllocValue (a : IPAllocation) | EmptyValue.

#[export] Instance L3Value_eq : EqDecision L3Value.
Proof. solve_decision. Defined.

Inductive L3Meta := IfMeta (m : IfaceMetadata) | VrfMeta (m : option VRFMetadata) | AllocMeta (m : option IPAllocMetadata).

Definition L3Index : Type := gmap string L3Meta.

Record TableEntry := MkTableEntry { te_ID : Z; te_IsIP6 : bool; te_Name : string; te_Hash : Z }.

Record L3World := MkL3World {
  w_fib : list (Z * ip_Prefix * FibPath);
  w_tables : list TableEntry;
  w_neighbors : list IPNeighbor
}.

Definition l3_ext : Ext := {|
  Value := L3Value;
  proto_Equal := fun a b => bool_decide (a = b);
  proto_MessageName := fun v => match v with
    | RouteValue _ => "ligato.vpp.l3.Route" | VrfValue _ => "ligato.vpp.l3.VrfTable" | ArpValue _ => "ligato.vpp.l3.ARPEntry"
    | AllocValue _ => "ligato.netalloc.IPAllocation" | EmptyValue => "google.protobuf.Empty" end;
  fmt_v := fun _ => "";
  Metadata := L3Meta;
  DeepEqual := fun _ _ => false;
  Mapping := L3Index;
  nm_New := ∅;
  nm_Put := fun m k v => <[k := v]> m;
  nm_Delete := fun m k => delete k m;
  nm_Update := fun m k v => match v with Some v => <[k := v]> m | None => m end;
  nm_GetValue := fun m k => m !! k;
  nm_ListFields := fun m k => [];
  World := L3World;
  netns_escaped := fun _ => false;
  clock_reading := fun n => Z.of_nat n;
  ext_runtime := doubling
|}.

#[local] Existing Instance l3_ext.

Definition l3_meta_index (m : L3Meta) : option Z :=
  match m with IfMeta i => Some (SwIfIndex i) | VrfMeta (Some v) => Some (vm_Index v) | _ => None end.

#[export] Instance l3_indexes : Indexes := {|
  NewNamedMapping := fun _ => ∅ : L3Index;
  nm_ListNames := fun (m : L3Index) f v => (filter (fun e => Itoa <$> l3_meta_index e.2 = Some v) (map_to_list m)).*1;
  as_WithIndex := l3_meta_index;
  as_IfaceMetadata := fun m : L3Meta => match m with IfMeta i => Some i | _ => None end
|}.

#[export] Instance l3_vrf_indexes : VrfIndexes := {|
  nm_ListAllNames := fun m : @Mapping l3_ext => (map_to_list (m : L3Index)).*1;
  as_VRFMetadata := fun m : @Metadata l3_ext => match m with VrfMeta v => Some v | _ => None end;
  of_VRFMetadata := VrfMeta : _ -> @Metadata l3_ext
|}.

#[export] Instance l3_netalloc : NetallocTypes (X := l3_ext) := {|
  as_IPAllocation := fun v : @Value l3_ext => match v with AllocValue a => Some a | _ => None end;
  of_IPAllocation := AllocValue : _ -> @Value l3_ext;
  emptypb_Empty := EmptyValue : @Value l3_ext;
  as_IPAllocMetadata := fun m : @Metadata l3_ext => match m with AllocMeta a => Some a | _ => None end;
  of_IPAllocMetadata := AllocMeta : _ -> @Metadata l3_ext
|}.

#[export] Instance l3_types : L3Types := {|
  l3_Route := {| as_value := fun v : @Value l3_ext => match v with RouteValue r => Some r | _ => None end; of_value := RouteValue |};
  l3_VrfTable := {| as_value := fun v : @Value l3_ext => match v with VrfValue t => Some t | _ => None end; of_value := VrfValue |};
  l3_ARPEntry := {| as_value := fun v : @Value l3_ext => match v with ArpValue a => Some a | _ => None end; of_value := ArpValue |}
|}.

(** ** Requests *)

(** This VPP reports no interface for a path that drops. *)
#[export] Instance l3_drop : DropIndex := NextHopOutgoingIfUnset.

(** A path as this VPP stores it. *)
Definition stored_path (p : FibPath) : FibPath :=
  MkFibPath (if (fp_Type p =? FIB_API_PATH_TYPE_DROP)%Z then vpp_drop_index else fp_SwIfIndex p) (fp_TableID p) (fp_RpfID p) (if (fp_Weight p =? 0)%Z then 1 else fp_Weight p)%Z (fp_Preference p)
    (fp_Type p) (fp_Flags p) (fp_Proto p) (fp_Nh p) (fp_LabelStack p).

Definition same_hop_b (p q : FibPath) : bool :=
  (fp_SwIfIndex p =? fp_SwIfIndex q)%Z && (fp_Proto p =? fp_Proto q)%Z
  && bool_decide (nh_Address (fp_Nh p) = nh_Address (fp_Nh q)).

Definition at_path (t : Z) (pf : ip_Prefix) (p : FibPath) (e : Z * ip_Prefix * FibPath) : bool :=
  (e.1.1 =? t)%Z && bool_decide (e.1.2 = pf) && same_hop_b e.2 p.

Definition without_path (t : Z) (pf : ip_Prefix) (p : FibPath) (w : L3World) : list (Z * ip_Prefix * FibPath) :=
  List.filter (fun e => negb (at_path t pf (stored_path p) e)) (w_fib w).

Definition at_table (id : Z) (v6 : bool) (e : TableEntry) : bool := (te_ID e =? id)%Z && Bool.eqb (te_IsIP6 e) v6.

Definition set_fib (fib : list (Z * ip_Prefix * FibPath)) (w : L3World) : L3World := MkL3World fib (w_tables w) (w_neighbors w).
Definition set_tables (tables : list TableEntry) (w : L3World) : L3World := MkL3World (w_fib w) tables (w_neighbors w).

Definition l3_vpp_error : option error := Some (Opaque "VPPApiError").

Definition l3_request (r : L3Request) (w : L3World) : option error * L3World :=
  match r with
  | IPRouteAddDel add _ (MkIPRoute t pf _ [p]) =>
      let rest := without_path t pf p w in
      (None, set_fib (if add then (t, pf, stored_path p) :: rest else rest) w)
  | IPTableAddDel true (MkIPTable id v6 name) =>
      match find (at_table id v6) (w_tables w) with
      | Some _ => (None, w)
      | None => (None, set_tables (MkTableEntry id v6 (if is_empty name then generated_name id v6 else name) default_flow_hash
                         :: w_tables w) w)
      end
  | SetIPFlowHashV2 id af config =>
      (None, set_tables (map (fun e => if at_table id (af =? ADDRESS_IP6)%Z e
         then MkTableEntry (te_ID e) (te_IsIP6 e) (te_Name e) config else e) (w_tables w)) w)
  | IPNeighborAddDel true n => (None, MkL3World (w_fib w) (w_tables w) (n :: w_neighbors w))
  | _ => (l3_vpp_error, w)
  end.

Definition dump_entry (e : Z * ip_Prefix * FibPath) : IPRoute := MkIPRoute e.1.1 e.1.2 1 [e.2].

#[export] Instance l3_channel : L3Channel (X := l3_ext) := {|
  l3_SendRequest := l3_request;
  IPRouteDump := fun t v6 (w : @World l3_ext) =>
    (map dump_entry (List.filter (fun e => (e.1.1 =? t)%Z && Bool.eqb (Af (pf_Address e.1.2) =? ADDRESS_IP6)%Z v6) (w_fib w)), None);
  IPTableDump := fun w : @World l3_ext => (map (fun e => MkIPTable (te_ID e) (te_IsIP6 e) (te_Name e)) (w_tables w), None);
  IPNeighborDump := fun _ af (w : @World l3_ext) => (List.filter (fun n => Af (ipn_IPAddress n) =? af)%Z (w_neighbors w), None)
|}.

(** ** The laws *)

Lemma stored_reported pf p : reported pf p (stored_path p).
Proof.
  unfold reported, stored_path. cbn. split_and!; auto. destruct (Z.eqb_spec (fp_Weight p) 0); auto.
Qed.

Lemma same_hop_spec p q : same_hop_b p q = true <-> same_hop p q.
Proof. unfold same_hop_b, same_hop. rewrite !andb_true_iff, !Z.eqb_eq, bool_decide_eq_true. tauto. Qed.

Definition fib_of (w : L3World) (t : Z) (pf : ip_Prefix) : list FibPath :=
  map snd (List.filter (fun e => (e.1.1 =? t)%Z && bool_decide (e.1.2 = pf)) (w_fib w)).

Lemma fib_of_elem w t pf p : p ∈ fib_of w t pf <-> (t, pf, p) ∈ w_fib w.
Proof.
  unfold fib_of. rewrite list_elem_of_fmap. split.
  - intros ([[t' pf'] p'] & -> & H). rewrite list_elem_of_In, filter_In, andb_true_iff, Z.eqb_eq, bool_decide_eq_true in H.
    destruct H as (Hin & Ht & Hpf). cbn in *. subst. by apply list_elem_of_In.
  - intros H. exists (t, pf, p). split; [done|]. rewrite list_elem_of_In, filter_In, andb_true_iff, Z.eqb_eq, bool_decide_eq_true.
    by rewrite <- list_elem_of_In.
Qed.

Lemma path_survives t pf sent w w' t' pf' p : (forall e, e ∈ without_path t pf sent w -> e ∈ w_fib w') ->
  p ∈ fib_of w t' pf' -> ~ (t' = t /\ pf' = pf /\ covers pf sent p) -> p ∈ fib_of w' t' pf'.
Proof.
  rewrite !fib_of_elem. intros Hsub Hin Hn. apply Hsub. unfold without_path. rewrite list_elem_of_In, filter_In, <- list_elem_of_In.
  split; [done|]. apply negb_true_iff, not_true_iff_false. unfold at_path. cbn [fst snd].
  rewrite !andb_true_iff, Z.eqb_eq, bool_decide_eq_true, same_hop_spec. intros ((-> & ->) & Hs). apply Hn. split_and!; [done..|].
  exists (stored_path sent). split; [apply stored_reported|done].
Qed.

#[export] Instance l3_laws : L3Laws (X := l3_ext).
Proof.
  refine {| vpp_fib := fib_of : @World l3_ext -> _ |}.
  - cbn. intros t pf sent w w' [= <-]. split.
    + exists (stored_path sent). split; [apply stored_reported|]. apply fib_of_elem. left.
    + intros t' pf' p. apply path_survives. intros e He. by right.
  - cbn. intros t pf sent w w' [= <-] t' pf' p. apply path_survives. done.
  - cbn. intros t v6 w l [= <-] pf p Hv Hp. apply fib_of_elem in Hp. exists (dump_entry (t, pf, p)). cbn. split_and!; [|done..|left].
    apply (list_elem_of_fmap_2 dump_entry). rewrite list_elem_of_In, filter_In, <- list_elem_of_In. split; [done|].
    cbn. by rewrite Z.eqb_refl, Hv, Bool.eqb_reflx.
Defined.

Definition table_of (w : L3World) (id : Z) (v6 : bool) : option (string * Z) :=
  (fun e => (te_Name e, te_Hash e)) <$> find (at_table id v6) (w_tables w).

Lemma find_map_hash id v6 config l :
  find (at_table id v6) (map (fun e => if at_table id v6 e then MkTableEntry (te_ID e) (te_IsIP6 e) (te_Name e) config else e) l)
  = (fun e => MkTableEntry (te_ID e) (te_IsIP6 e) (te_Name e) config) <$> find (at_table id v6) l.
Proof.
  induction l as [|e l IH]; [done|]. cbn [map find]. destruct (at_table id v6 e) eqn:E.
  - change (at_table id v6 (MkTableEntry _ _ _ _)) with (at_table id v6 e). by rewrite E.
  - by rewrite E, IH.
Qed.

#[export] Instance l3_vrf_laws : VrfLaws (X := l3_ext).
Proof.
  refine {| vpp_table := table_of : @World l3_ext -> _ |}.
  - cbn. intros id v6 name w w' Hr Hn. unfold table_of in Hn. destruct (find _ (w_tables w)); [done|]. injection Hr as <-.
    exists (if is_empty name then generated_name id v6 else name). split.
    + unfold table_of. cbn [w_tables set_tables find]. unfold at_table at 1. cbn [te_ID te_IsIP6].
      by rewrite Z.eqb_refl, Bool.eqb_reflx.
    + intros [_ Hz]. destruct (is_empty name); [|by apply Trim_none]. apply Trim_none. unfold generated_name.
      assert (no_char Ascii.zero (Itoa id) = true) as Hi by (eapply int_string_digits; [apply int_string_roundtrip|by intros []|done]).
      by destruct v6; rewrite no_char_app, Hi.
  - cbn. intros id af config name old w w' [= <-]. unfold table_of. cbn [w_tables set_tables]. rewrite find_map_hash.
    destruct (find _ _) as [e|]; [|done]. cbn. by intros [= -> _].
  - cbn. intros w l [= <-] id v6 name config H. unfold table_of in H. destruct (find _ _) as [e|] eqn:E; [|done].
    apply find_some in E as [Hin Ha]. injection H as <- <-. unfold at_table in Ha. apply andb_true_iff in Ha as [<-%Z.eqb_eq <-%Bool.eqb_prop].
    apply (list_elem_of_fmap_2 (fun e => MkIPTable (te_ID e) (te_IsIP6 e) (te_Name e))). by apply list_elem_of_In.
Defined.

#[export] Instance l3_arp_laws : ArpLaws (X := l3_ext).
Proof.
  refine {| vpp_neighbors := w_neighbors : @World l3_ext -> _ |}.
  - cbn. intros n w w' [= <-]. exists n. split; [left|done].
  - cbn. intros af w l [= <-] n Hn Ha. rewrite list_elem_of_In, filter_In, <- list_elem_of_In. split; [done|]. by apply Z.eqb_eq.
Defined.
