(* ===== verification/VppL3Facts.v ===== *)
(** * The L3 plugin: routes, VRF tables and ARP entries are read back

    Routes that were created and not deleted since are retrieved as they were
    configured; what updates of a VRF table change in VPP; which ARP entries are
    read back equal. *)
From S2P Require Import Prelude Api Adapter GoStrings NetallocProto GoNet GoNetFacts GoNetText GoNetTextFacts Netalloc.
From S2P Require Import NetallocFacts NameToIndex VppBinapi AddrAlloc VppL3Proto VppL3Calls VppL3 VppL3Table.

#[local] Opaque RouteKey.

Section routes.
Context {X : Ext} {IX : Indexes} {VX : VrfIndexes} {UC : Unicode} {CH : L3Channel} {DI : DropIndex} {LL : L3Laws}.
Context (ifIndexes vrfIndexes : Mapping) (addrAlloc : AddressAllocator) {AL : AllocLaws addrAlloc}.

Abbreviation handler := (NewRouteVppHandler ifIndexes vrfIndexes addrAlloc).
Abbreviation RouteKV := (TypedKVWithMetadata Route (option Metadata)).
Abbreviation expected r := (route_Key (dereferenced addrAlloc r)).

(** A route whose settings are reported, over a known interface and in a known VRF. *)
Definition route_ok (r : Route) : Prop :=
  hops_reported addrAlloc r = true /\ settings_reported ifIndexes r = true
  /\ (exists idx, interface_known ifIndexes r idx)
  /\ exists net v, dst_of addrAlloc r = inl net /\ v ∈ ListAllVrfMetadata vrfIndexes
       /\ vm_Index v = rt_VrfId r /\ (vm_Protocol v =? VrfTable_IPV6)%Z = negb (is_v4 (IP net)).

(** VPP has a path of the route. *)
Definition has_path (w : World) (r : Route) : Prop :=
  exists net idx p, dst_of addrAlloc r = inl net /\ interface_known ifIndexes r idx
    /\ reported (networkToPrefix net) (fib_path r idx (sent_hop addrAlloc r)) p
    /\ p ∈ vpp_fib w (rt_VrfId r) (networkToPrefix net).

(** ** Requests *)

Lemma add_del_request delete r w w' : add_del_route ifIndexes addrAlloc delete r w = (None, w') ->
  exists idx net, getRouteSwIfIndex ifIndexes (rt_OutgoingInterface r) = inl idx /\ dst_of addrAlloc r = inl net
    /\ l3_SendRequest (IPRouteAddDel (negb delete) true
         (MkIPRoute (rt_VrfId r) (networkToPrefix net) 1 [fib_path r idx (sent_hop addrAlloc r)])) w = (None, w').
Proof.
  unfold add_del_route, vppAddDelRoute, sent_hop, gw_of, getGwAddr, dst_of.
  destruct (getRouteSwIfIndex _ _) as [idx|]; [|done]. destruct (is_empty (rt_NextHopAddr r)); cbn [negb].
  - destruct (aa_GetOrParseIPAddress addrAlloc (rt_DstNetwork r) "" ADDR_NET) as [net|]; [|done]. eauto.
  - destruct (aa_GetOrParseIPAddress addrAlloc (rt_NextHopAddr r) _ _) as [gw|]; [|done].
    destruct (aa_GetOrParseIPAddress addrAlloc (rt_DstNetwork r) "" ADDR_NET) as [net|]; [|done]. eauto.
Qed.

Lemma known_index r idx idx' : interface_known ifIndexes r idx ->
  getRouteSwIfIndex ifIndexes (rt_OutgoingInterface r) = inl idx' -> idx' = idx.
Proof. intros (E & _) E'. congruence. Qed.

Lemma route_net r net : route_ok r -> dst_of addrAlloc r = inl net -> length (Mask net) = length (IP net).
Proof.
  intros (Hh & _) Hd. unfold hops_reported in Hh. rewrite Hd in Hh. destruct (gw_of _ _); [|done].
  by apply andb_true_iff in Hh as [[Hlen%Nat.eqb_eq _]%andb_true_iff _].
Qed.

(** The expected key of a route by one of its paths. *)
Lemma path_key r net idx p np ps : route_ok r -> dst_of addrAlloc r = inl net -> interface_known ifIndexes r idx ->
  reported (networkToPrefix net) (fib_path r idx (sent_hop addrAlloc r)) p ->
  let route := rd_Route (dumped_path ifIndexes vrfIndexes (MkIPRoute (rt_VrfId r) (networkToPrefix net) np ps) p) in
  route_Key route = expected r /\ EquivalentRoutes (route_Key route) route (dereferenced addrAlloc r) = true.
Proof.
  intros Hok Hd Hi Hp. pose proof (route_net r net Hok Hd) as Hlen. destruct Hok as (Hh & Hs & _).
  destruct (dumped_equivalent ifIndexes vrfIndexes addrAlloc r net idx
    (MkIPRoute (rt_VrfId r) (networkToPrefix net) np ps) p
    (route_Key (rd_Route (dumped_path ifIndexes vrfIndexes (MkIPRoute (rt_VrfId r) (networkToPrefix net) np ps) p)))
    Hd Hlen Hi eq_refl eq_refl Hp) as [E Ek].
  destruct (hop_expected addrAlloc r net idx p Hh Hd Hp) as [N1 N2].
  split; [exact (Ek Hs N1)|by rewrite E, Hs, N2].
Qed.

(** Paths over the same hop of the same prefix have the same key. *)
Lemma same_hop_key ipr p q : same_hop p q ->
  route_Key (rd_Route (dumped_path ifIndexes vrfIndexes ipr p)) = route_Key (rd_Route (dumped_path ifIndexes vrfIndexes ipr q)).
Proof.
  intros (Hs & Hp & Hn). unfold dumped_path. rewrite Hs, Hp, Hn.
  destruct (if (fp_Type p =? FIB_API_PATH_TYPE_DROP)%Z then _ else _) as [t1 v1].
  destruct (if (fp_Type q =? FIB_API_PATH_TYPE_DROP)%Z then _ else _) as [t2 v2]. reflexivity.
Qed.

(** ** Sequences of operations *)

(** [configured cfg live w]: the routes [live], of those in [cfg], were created and
    not deleted since, by calls that succeeded. *)
Inductive configured (cfg : list Route) : list Route -> World -> Prop :=
  | configured_nil w : configured cfg [] w
  | configured_create live key r md w w' : configured cfg live w -> r ∈ cfg ->
      rt_Create handler key r w = ((md, None), w') -> configured cfg (r :: live) w'
  | configured_delete live key r md w w' : configured cfg live w -> r ∈ cfg ->
      rt_Delete handler key r md w = (None, w') -> configured cfg (filter (fun r' => r' <> r) live) w'.

(** Distinct routes are expected under distinct keys. *)
Definition distinct_keys (cfg : list Route) : Prop :=
  forall r1 r2, r1 ∈ cfg -> r2 ∈ cfg -> expected r1 = expected r2 -> r1 = r2.

Lemma path_kept r1 r2 net1 net2 idx1 idx2 p : route_ok r1 -> route_ok r2 -> expected r1 <> expected r2 ->
  dst_of addrAlloc r1 = inl net1 -> dst_of addrAlloc r2 = inl net2 ->
  interface_known ifIndexes r1 idx1 -> interface_known ifIndexes r2 idx2 ->
  reported (networkToPrefix net1) (fib_path r1 idx1 (sent_hop addrAlloc r1)) p ->
  ~ (rt_VrfId r1 = rt_VrfId r2 /\ networkToPrefix net1 = networkToPrefix net2
     /\ covers (networkToPrefix net2) (fib_path r2 idx2 (sent_hop addrAlloc r2)) p).
Proof.
  intros H1 H2 Hne Hd1 Hd2 Hi1 Hi2 Hp (Hv & Hpf & q & Hq & Hs). apply Hne.
  destruct (path_key r1 net1 idx1 p 1 [] H1 Hd1 Hi1 Hp) as [<- _].
  destruct (path_key r2 net2 idx2 q 1 [] H2 Hd2 Hi2 Hq) as [<- _]. rewrite Hv, Hpf. by apply same_hop_key.
Qed.

Lemma configured_paths cfg live w : Forall route_ok cfg -> distinct_keys cfg -> configured cfg live w ->
  forall r, r ∈ live -> r ∈ cfg /\ has_path w r.
Proof.
  intros Hok Hdis Hc. rewrite Forall_forall in Hok. induction Hc as [w|live key r md w w' _ IH Hr Hcr|live key r md w w' _ IH Hr Hcr].
  - by intros r ?%elem_of_nil.
  - unfold rt_Create in Hcr. cbn [VppAddRoute NewRouteVppHandler] in Hcr.
    destruct (add_del_route _ _ false r w) as [[err|] w1] eqn:E; [done|]. injection Hcr as _ <-.
    apply add_del_request in E as (idx & net & Hidx & Hd & E). cbn [negb] in E.
    apply vpp_add_route in E as [(p & Hp & Hin) Hkeep].
    pose proof (Hok r Hr) as Hrok. pose proof Hrok as (_ & _ & (idx' & Hi) & _).
    rewrite (known_index _ _ _ Hi Hidx) in *. clear idx Hidx.
    assert (has_path w1 r) as Hrp by (exists net, idx', p; by split_and!).
    intros r1 [->|Hr1]%elem_of_cons; [by split|]. destruct (decide (r1 = r)) as [->|Hne]; [by split|].
    destruct (IH r1 Hr1) as (Hc1 & net1 & idx1 & p1 & Hd1 & Hi1 & Hp1 & Hin1). split; [done|].
    exists net1, idx1, p1. split_and!; [done..|]. apply Hkeep; [done|].
    eapply path_kept; eauto.
  - unfold rt_Delete in Hcr. cbn [VppDelRoute NewRouteVppHandler] in Hcr.
    apply add_del_request in Hcr as (idx & net & Hidx & Hd & E). cbn [negb] in E.
    pose proof (vpp_del_route _ _ _ _ _ E) as Hkeep.
    pose proof (Hok r Hr) as Hrok. pose proof Hrok as (_ & _ & (idx' & Hi) & _).
    rewrite (known_index _ _ _ Hi Hidx) in *. clear idx Hidx.
    intros r1 [Hne Hr1]%list_elem_of_filter.
    destruct (IH r1 Hr1) as (Hc1 & net1 & idx1 & p1 & Hd1 & Hi1 & Hp1 & Hin1). split; [done|].
    exists net1, idx1, p1. split_and!; [done..|]. apply Hkeep; [done|].
    eapply path_kept; eauto.
Qed.

(** ** What is retrieved *)

Lemma dump_routes_elem vrfs w routes v : dump_routes ifIndexes vrfIndexes vrfs w = inl routes -> v ∈ vrfs ->
  exists l, IPRouteDump (vm_Index v) (vm_Protocol v =? VrfTable_IPV6)%Z w = (l, None)
    /\ forall ipr d, ipr ∈ l -> d ∈ dumpRouteIPDetails ifIndexes vrfIndexes ipr -> d ∈ routes.
Proof.
  revert routes. induction vrfs as [|v' vrfs IH]; intros routes; cbn [dump_routes]; [by intros _ ?%elem_of_nil|].
  unfold dumpRoutesForVrfAndIP. destruct (IPRouteDump (vm_Index v') _ w) as [l [err|]] eqn:E; [done|].
  destruct (dump_routes _ _ vrfs w) as [rest|]; [|done]. intros [= <-] [->|Hv]%elem_of_cons.
  - exists l. split; [done|]. intros ipr d Hi Hd. apply elem_of_app. left. apply list_elem_of_bind. eauto.
  - destruct (IH rest eq_refl Hv) as (l' & El & Hl). exists l'. split; [done|]. intros ipr d Hi Hd.
    apply elem_of_app. right. eauto.
Qed.

(** C11: The routes that the descriptor created and did not delete since are read
    back: whatever sequence of calls of Create and Delete succeeded before, and
    whatever else is in the tables of VPP, a retrieval that succeeds returns each of
    them, with its own key and value, as configured from the northbound.  This is so
    although routes name networks and next hops by references to allocated
    addresses or in any notation, and VPP reports addresses: the expected routes are
    found by the text that VPP's answer has.  Conversely, each value that is
    returned as configured is one of the expected routes, under its own key.

    It is assumed of the routes ([route_ok]) that destination and next hop are
    resolved, the destination not to an IPv4 network written as an IPv6 one; that
    the next hop shows its own family or has that of the destination, and that a
    route without next hop is an IPv4 one and one that drops has none
    ([hops_reported]); that their settings survive the conversion to VPP's integers
    and paths ([settings_reported], for a route that drops depending on the
    interface that VPP reports for it); that their interface has one index, and that
    their VRF is known in the family of the destination; and that distinct routes
    are expected under distinct keys. *)
Theorem routes_retrieved (cfg live : list Route) (correlate kvs : list RouteKV) (w w' : World) :
  Forall route_ok cfg -> distinct_keys cfg -> map tkv_Value correlate = cfg -> configured cfg live w ->
  rt_Retrieve handler addrAlloc correlate w = ((kvs, None), w') ->
  (forall r, r ∈ live -> MkTypedKV (route_Key r) r None FromNB ∈ kvs)
  /\ (forall kv, kv ∈ kvs -> tkv_Key kv = route_Key (tkv_Value kv)
      /\ (tkv_Origin kv = FromNB -> tkv_Value kv ∈ cfg)).
Proof.
  intros Hok Hdis Hcfg Hconf Hret. unfold rt_Retrieve in Hret. cbn [DumpRoutes NewRouteVppHandler] in Hret.
  destruct (dump_routes _ _ _ w) as [routes|err] eqn:Ed; [|done]. injection Hret as <- <-.
  assert (forall r, r ∈ cfg -> expected_routes addrAlloc correlate !! expected r = Some (dereferenced addrAlloc r, r)) as Hexp.
  { intros r Hr. destruct (fold_insert_lookup (fun kv : RouteKV => expected (tkv_Value kv))
      (fun kv => (dereferenced addrAlloc (tkv_Value kv), tkv_Value kv)) correlate (expected r)) as [H1 H2].
    fold (expected_routes addrAlloc correlate) in H1, H2.
    assert (exists kv, kv ∈ correlate /\ tkv_Value kv = r) as (kv & Hkv & <-).
    { rewrite <- Hcfg in Hr. apply list_elem_of_fmap in Hr as (kv & -> & Hkv). eauto. }
    destruct (H2 kv Hkv eq_refl) as [v Hv]. rewrite Hv. f_equal.
    destruct (H1 v Hv) as (kv' & Hkv' & Ek & ->). rewrite (Hdis (tkv_Value kv') (tkv_Value kv)); [done| |done|done].
    rewrite <- Hcfg. by apply list_elem_of_fmap_2. }
  split.
  - intros r Hr. destruct (configured_paths cfg live w Hok Hdis Hconf r Hr) as (Hc & net & idx & p & Hd & Hi & Hp & Hin).
    pose proof (proj1 (Forall_forall _ _) Hok r Hc) as Hrok.
    pose proof Hrok as (_ & _ & _ & net' & v & Hd' & Hv & Hvi & Hvp). rewrite Hd in Hd'. injection Hd' as <-.
    destruct (dump_routes_elem _ _ _ v Ed Hv) as (l & El & Hl). rewrite Hvi, Hvp in El.
    pose proof (dst_plain addrAlloc r net Hd (route_net r net Hrok Hd)) as Hnet.
    destruct (vpp_route_dump _ _ _ _ El (networkToPrefix net) p) as ([t pf np ps] & Hipr & Ht & Hpf & Hnp & Hps);
      [by apply plain_prefix|done|]. cbn [ipr_TableID ipr_Prefix ipr_NPaths ipr_Paths] in *. subst t pf.
    destruct (path_key r net idx p np ps Hrok Hd Hi Hp) as [Ek Eeq].
    apply list_elem_of_fmap. exists (dumped_path ifIndexes vrfIndexes (MkIPRoute (rt_VrfId r) (networkToPrefix net) np ps) p).
    split.
    + rewrite Ek in Eeq. unfold correlate_route. cbv zeta. rewrite Ek, Hexp by done. rewrite Eeq. reflexivity.
    + apply (Hl _ _ Hipr). unfold dumpRouteIPDetails. cbn [ipr_NPaths ipr_Paths]. rewrite (proj2 (Z.ltb_lt _ _) Hnp).
      by apply list_elem_of_fmap_2.
  - intros kv (d & -> & _)%list_elem_of_fmap. unfold correlate_route.
    destruct (expected_routes _ _ !! _) as [[e nb]|] eqn:E; [|done].
    destruct (EquivalentRoutes _ _ _); [|done]. split; [done|]. intros _. cbn [tkv_Value].
    destruct (fold_insert_lookup (fun kv : RouteKV => expected (tkv_Value kv))
      (fun kv => (dereferenced addrAlloc (tkv_Value kv), tkv_Value kv)) correlate (route_Key (rd_Route d))) as [H1 _].
    destruct (H1 _ E) as (kv' & Hkv' & _ & [= _ ->]). rewrite <- Hcfg. by apply list_elem_of_fmap_2.
Qed.
End routes.

(** ** Settings that are lost *)

Section settings.
Context {X : Ext} {IX : Indexes} {VX : VrfIndexes} {UC : Unicode} {CH : L3Channel} {DI : DropIndex} {LL : L3Laws}.
Context (ifIndexes vrfIndexes : Mapping) (addrAlloc : AddressAllocator) {AL : AllocLaws addrAlloc}.

(** C25: A route that was created is read back equivalent to what was configured
    exactly if its settings survive and the next hop that VPP reports for its path is
    the expected one, which is the configured next hop or the zero address.  The
    settings survive ([settings_reported]) if weight and preference fit into eight
    bits and the type can be told from the path: a route into another VRF has no
    outgoing interface and its VRF differs from its own, a route that drops has the
    interface that VPP reports for such paths (none, if VPP reports none), only
    routes into other VRFs have another VRF, and the type is one of the three.  The
    next hop is the expected one if [hops_reported], and otherwise it depends on VPP:
    for IPv6 destinations without a next hop, whose path is sent as one of IPv4, and
    for routes that drop and have a next hop.  Routes that come back different are
    accepted by the validation and by Create, and are changed again by every resync.
    It is assumed that the interface has one index, that the VRF is known in the
    family of the destination, and that the destination is no IPv4 network written
    as an IPv6 one. *)
Theorem route_settings_reported (r : Route) (key : string) (md : option Metadata) (w w' : World) (net : IPNet)
    (v : VRFMetadata) (routes : list RouteDetails) (idx : Z) :
  rt_Create (NewRouteVppHandler ifIndexes vrfIndexes addrAlloc) key r w = ((md, None), w') ->
  interface_known ifIndexes r idx -> dst_of addrAlloc r = inl net -> length (Mask net) = length (IP net) ->
  v ∈ ListAllVrfMetadata vrfIndexes -> vm_Index v = rt_VrfId r ->
  (vm_Protocol v =? VrfTable_IPV6)%Z = negb (is_v4 (IP net)) ->
  DumpRoutes (NewRouteVppHandler ifIndexes vrfIndexes addrAlloc) w' = inl routes ->
  exists d p, d ∈ routes /\ rt_VrfId (rd_Route d) = rt_VrfId r /\ rt_DstNetwork (rd_Route d) = IPNet_String net
    /\ p ∈ vpp_fib w' (rt_VrfId r) (networkToPrefix net)
    /\ reported (networkToPrefix net) (fib_path r idx (sent_hop addrAlloc r)) p
    /\ EquivalentRoutes key (rd_Route d) (dereferenced addrAlloc r)
       = settings_reported ifIndexes r && equalAddrs (nh_text p) (getGwAddr (dereferenced addrAlloc r))
    /\ (hops_reported addrAlloc r = true ->
        equalAddrs (nh_text p) (getGwAddr (dereferenced addrAlloc r)) = true).
Proof.
  intros Hcr Hi Hd Hlen Hv Hvi Hvp Ed. unfold rt_Create in Hcr. cbn [VppAddRoute DumpRoutes NewRouteVppHandler] in *.
  destruct (add_del_route _ _ false r w) as [[err|] w1] eqn:E; [done|]. injection Hcr as _ <-.
  apply add_del_request in E as (idx' & net' & Hidx & Hd' & E). cbn [negb] in E.
  rewrite Hd in Hd'. injection Hd' as <-. rewrite (known_index _ _ _ _ Hi Hidx) in E.
  apply vpp_add_route in E as [(p & Hp & Hin) _]. pose proof (dst_plain addrAlloc r net Hd Hlen) as Hnet.
  destruct (dump_routes_elem _ _ _ _ _ _ Ed Hv) as (l & El & Hl). rewrite Hvi, Hvp in El.
  destruct (vpp_route_dump _ _ _ _ El (networkToPrefix net) p) as ([t pf np ps] & Hipr & Ht & Hpf & Hnp & Hps);
    [by apply plain_prefix|done|]. cbn [ipr_TableID ipr_Prefix ipr_NPaths ipr_Paths] in *. subst t pf.
  exists (dumped_path ifIndexes vrfIndexes (MkIPRoute (rt_VrfId r) (networkToPrefix net) np ps) p), p. split_and!.
  - apply (Hl _ _ Hipr). unfold dumpRouteIPDetails. cbn [ipr_NPaths ipr_Paths]. rewrite (proj2 (Z.ltb_lt _ _) Hnp).
    by apply list_elem_of_fmap_2.
  - unfold dumped_path. by destruct (if (fp_Type p =? FIB_API_PATH_TYPE_DROP)%Z then _ else _).
  - rewrite <- (proj2 (plain_prefix net Hnet) (rt_VrfId r) np ps). unfold dumped_path.
    by destruct (if (fp_Type p =? FIB_API_PATH_TYPE_DROP)%Z then _ else _).
  - done.
  - done.
  - by apply (dumped_equivalent ifIndexes vrfIndexes addrAlloc r net idx).
  - intros Hh. by apply (hop_expected addrAlloc r net idx p Hh Hd).
Qed.
End settings.

(** ** Examples *)

#[local] Existing Instance l3_ext.

(** The index has an interface with index 0, as in a running agent. *)
Definition memif_index : @Mapping l3_ext :=
  {[ "UNTAGGED-local0" := IfMeta (MkIfaceMetadata 0 0 [] "" "" "");
     "memif0" := IfMeta (MkIfaceMetadata 7 0 [] "" "" "") ]} : L3Index.
Definition vrf_index : @Mapping l3_ext :=
  {[ "id/0/protocol/IPV4" := VrfMeta (Some (MkVRFMetadata 0 0)); "id/0/protocol/IPV6" := VrfMeta (Some (MkVRFMetadata 0 1));
     "id/3/protocol/IPV4" := VrfMeta (Some (MkVRFMetadata 3 0)) ]} : L3Index.

(** Two allocations, one with a gateway. *)
Definition eth1_meta : IPAllocMetadata := MkIPAllocMetadata (Some (MkIPNet [10; 1; 2; 3]%Z (mask_bytes 4 24))) None.
Definition memif_meta : IPAllocMetadata := MkIPAllocMetadata (Some (MkIPNet [10; 9; 0; 2]%Z (mask_bytes 4 24)))
  (Some (MkIPNet [10; 9; 0; 1]%Z (mask_bytes 4 24))).
Definition alloc_index : @Mapping l3_ext :=
  {[ "network/net1/interface/eth1" := AllocMeta (Some eth1_meta);
     "network/net1/interface/memif0" := AllocMeta (Some memif_meta) ]} : L3Index.
Definition demo_alloc : AddressAllocator := netalloc_plugin alloc_index.

#[local] Instance demo_alloc_laws : AllocLaws demo_alloc.
Proof.
  apply netalloc_laws. assert (forall a b c d, is_byte a -> is_byte b -> is_byte c -> is_byte d ->
    parsed_net (MkIPNet [a; b; c; d] (mask_bytes 4 24))) as Hp by (intros; apply parsed_v4; [split; [done|digits_auto]|lia]).
  intros k m md Hk Hm. cbn in Hk. unfold alloc_index in Hk.
  apply lookup_insert_Some in Hk as [[_ <-]|[_ [_ <-]%lookup_singleton_Some]]; injection Hm as <-;
    split; intros a [= <-]; apply Hp; unfold is_byte; lia.
Qed.

Definition runes : Unicode := {| fold_runes := String.eqb |}.
#[local] Existing Instance runes.

(** A route by references, one into another VRF with addresses that are not in
    canonical form, and one that drops. *)
Definition ref_route : Route := MkRoute Route_INTRA_VRF 3 "alloc:net1/eth1" "alloc:net1/GW" "memif0" 5 0 0.
Definition inter_route : Route := MkRoute Route_INTER_VRF 0 "FD00:0::/64" "FD00::9" "" 0 0 3.
Definition drop_route : Route := MkRoute Route_DROP 0 "192.168.7.1/32" "" "" 0 0 0.
Definition heavy_route : Route := MkRoute Route_INTRA_VRF 0 "10.0.0.0/8" "10.0.0.1" "memif0" 256 0 0.
Definition demo_cfg : list Route := [ref_route; inter_route; drop_route].

Definition demo_handler : RouteVppAPI := NewRouteVppHandler memif_index vrf_index demo_alloc.
Definition after_create (r : Route) (w : @World l3_ext) : @World l3_ext := (rt_Create demo_handler "" r w).2.
Definition empty_vpp : @World l3_ext := MkL3World [] [] [].
Definition routed : @World l3_ext :=
  (rt_Delete demo_handler "" drop_route None
    (after_create drop_route (after_create inter_route (after_create ref_route empty_vpp)))).2.

Lemma demo_configured : configured memif_index vrf_index demo_alloc demo_cfg [inter_route; ref_route] routed.
Proof.
  change [inter_route; ref_route] with (filter (fun r' => r' <> drop_route) [drop_route; inter_route; ref_route]).
  apply (configured_delete memif_index vrf_index demo_alloc demo_cfg _ "" drop_route None
    (after_create drop_route (after_create inter_route (after_create ref_route empty_vpp)))); [|set_solver|reflexivity].
  apply (configured_create memif_index vrf_index demo_alloc demo_cfg _ "" drop_route None
    (after_create inter_route (after_create ref_route empty_vpp))); [|set_solver|reflexivity].
  apply (configured_create memif_index vrf_index demo_alloc demo_cfg _ "" inter_route None
    (after_create ref_route empty_vpp)); [|set_solver|reflexivity].
  apply (configured_create memif_index vrf_index demo_alloc demo_cfg _ "" ref_route None empty_vpp); [|set_solver|reflexivity].
  apply configured_nil.
Qed.

Lemma demo_known r idx : getRouteSwIfIndex memif_index (rt_OutgoingInterface r) = inl idx ->
  interface_known memif_index r idx.
Proof.
  intros H. split; [exact H|]. intros Hne. unfold getRouteSwIfIndex in H.
  unfold is_empty in H. rewrite (proj2 (String.eqb_neq _ _) Hne) in H.
  destruct (decide (rt_OutgoingInterface r = "memif0")) as [E|E].
  - assert (idx = 7)%Z as -> by (rewrite E in H; change (inl (A := Z) (B := error) 7%Z = inl idx) in H; congruence).
    rewrite E. by vm_compute.
  - destruct (decide (rt_OutgoingInterface r = "UNTAGGED-local0")) as [E0|E0].
    { assert (idx = 0)%Z as -> by (rewrite E0 in H; change (inl (A := Z) (B := error) 0%Z = inl idx) in H; congruence).
      rewrite E0. by vm_compute. }
    assert (nm_GetValue memif_index (rt_OutgoingInterface r) = None) as En.
    { transitivity (({[ "UNTAGGED-local0" := IfMeta (MkIfaceMetadata 0 0 [] "" "" "");
        "memif0" := IfMeta (MkIfaceMetadata 7 0 [] "" "" "") ]} : gmap string L3Meta) !! rt_OutgoingInterface r); [done|].
      rewrite lookup_insert_ne, lookup_singleton_ne; [done|congruence..]. }
    unfold iface_LookupByName in H. rewrite En in H. discriminate H.
Qed.

Lemma demo_routes_ok : Forall (route_ok memif_index vrf_index demo_alloc) demo_cfg.
Proof.
  repeat apply Forall_cons_2; [..|apply Forall_nil_2]; (split; [vm_compute; reflexivity|]; split; [vm_compute; reflexivity|]);
    (split; [eexists; apply demo_known; vm_compute; reflexivity|]).
  - exists (MkIPNet [10; 1; 2; 0]%Z (mask_bytes 4 24)), (MkVRFMetadata 3 0). split_and!; try (vm_compute; reflexivity).
    apply list_elem_of_In. vm_compute. tauto.
  - exists (MkIPNet (253 :: replicate 15 0)%Z (mask_bytes 16 64)), (MkVRFMetadata 0 1).
    split_and!; try (vm_compute; reflexivity). apply list_elem_of_In. vm_compute. tauto.
  - exists (MkIPNet [192; 168; 7; 1]%Z (mask_bytes 4 32)), (MkVRFMetadata 0 0). split_and!; try (vm_compute; reflexivity).
    apply list_elem_of_In. vm_compute. tauto.
Qed.

Lemma demo_keys :
  route_Key (dereferenced demo_alloc ref_route) = "config/vpp/v2/route/if/memif0/vrf/3/dst/10.1.2.0/24/gw/10.9.0.1"
  /\ route_Key (dereferenced demo_alloc inter_route) = "config/vpp/v2/route/vrf/0/dst/fd00::/64/gw/fd00::9"
  /\ route_Key (dereferenced demo_alloc drop_route) = "config/vpp/v2/route/vrf/0/dst/192.168.7.1/32/gw/0.0.0.0".
Proof. split_and!; vm_compute; reflexivity. Qed.

Lemma demo_distinct : distinct_keys demo_alloc demo_cfg.
Proof.
  intros r1 r2 H1 H2 E. destruct demo_keys as (K1 & K2 & K3).
  unfold demo_cfg in *. rewrite !elem_of_cons in H1, H2.
  destruct H1 as [->|[->|[->|[]%elem_of_nil]]], H2 as [->|[->|[->|[]%elem_of_nil]]]; try reflexivity;
    exfalso; rewrite ?K1, ?K2, ?K3 in E; discriminate E.
Qed.

Definition demo_correlate : list (TypedKVWithMetadata Route (option Metadata)) :=
  map (fun r => MkTypedKV "" r None FromNB) demo_cfg.

Example routes_retrieved_witness :
  exists kvs, rt_Retrieve demo_handler demo_alloc demo_correlate routed = ((kvs, None), routed)
    /\ MkTypedKV (route_Key ref_route) ref_route None FromNB ∈ kvs
    /\ MkTypedKV (route_Key inter_route) inter_route None FromNB ∈ kvs.
Proof.
  eexists. split; [reflexivity|].
  destruct (routes_retrieved memif_index vrf_index demo_alloc demo_cfg [inter_route; ref_route] demo_correlate _ routed routed
    demo_routes_ok demo_distinct eq_refl demo_configured eq_refl) as [H _].
  split; apply H; [right; left|left].
Defined.

Lemma heavy_dump : exists routes, DumpRoutes demo_handler (after_create heavy_route empty_vpp) = inl routes.
Proof. eexists. vm_compute. reflexivity. Qed.

(** A weight that does not fit: the route comes back with the default weight. *)
Example route_settings_reported_witness :
  exists routes, DumpRoutes demo_handler (after_create heavy_route empty_vpp) = inl routes
    /\ exists d, d ∈ routes /\ EquivalentRoutes "" (rd_Route d) (dereferenced demo_alloc heavy_route) = false.
Proof.
  assert (rt_Create demo_handler "" heavy_route empty_vpp = ((None, None), after_create heavy_route empty_vpp)) as Ec
    by (vm_compute; reflexivity).
  destruct heavy_dump as [routes Ed]. exists routes. split; [exact Ed|].
  destruct (route_settings_reported memif_index vrf_index demo_alloc heavy_route "" None empty_vpp (after_create heavy_route empty_vpp)
    (MkIPNet [10; 0; 0; 0]%Z (mask_bytes 4 8)) (MkVRFMetadata 0 0) routes 7 Ec) as (d & p & Hd & _ & _ & _ & _ & E & _).
  - apply demo_known. vm_compute. reflexivity.
  - vm_compute. reflexivity.
  - vm_compute. reflexivity.
  - apply list_elem_of_In. vm_compute. tauto.
  - reflexivity.
  - vm_compute. reflexivity.
  - exact Ed.
  - exists d. split; [exact Hd|]. rewrite E. reflexivity.
Defined.

(** The same VPP, but one that reports the index 0 for paths that drop: its interface
    has a name, so the route that drops does not come back as it is configured. *)
Example drop_over_local0 :
  index_name memif_index 0 = "UNTAGGED-local0"
  /\ settings_reported (DI := 0%Z) memif_index drop_route = false
  /\ settings_reported memif_index drop_route = true.
Proof. split_and!; by vm_compute. Qed.

(** ** VRF tables and ARP entries: what is read back *)

#[local] Opaque VrfTableKey ArpEntryKey.

Section vrf.
Context {X : Ext} {IX : Indexes} {VX : VrfIndexes} {CH : L3Channel}.

Context {VL : VrfLaws}.

Abbreviation VrfKV := (TypedKVWithMetadata VrfTable (option VRFMetadata)).
Definition is_v6 (t : VrfTable) : bool := (vrf_Protocol t =? VrfTable_IPV6)%Z.
Definition known_protocol (t : VrfTable) : Prop := vrf_Protocol t = VrfTable_IPV4 \/ vrf_Protocol t = VrfTable_IPV6.

(** [vrf_history first cur w]: the table was created as [first] and updated, by calls
    that succeeded and need no re-creation, to [cur]. *)
Inductive vrf_history : VrfTable -> VrfTable -> World -> Prop :=
  | vrf_created key t md w w' : vpp_table w (vrf_Id t) (is_v6 t) = None -> known_protocol t ->
      vrf_Validate key t = None -> no_char Ascii.zero (vrf_Label t) = true ->
      vrf_Create NewVrfTableVppHandler key t w = ((md, None), w') -> vrf_history t t w'
  | vrf_updated first key cur new md md' w w' : vrf_history first cur w ->
      vrf_UpdateWithRecreate key cur new md = false ->
      vrf_Update NewVrfTableVppHandler key cur new md w = ((md', None), w') -> vrf_history first new w'.

(** The flow hash that a table should have. *)
Definition wanted_hash (t : VrfTable) : Z :=
  setFlowHashConfig (default defaultVrfFlowHashSettings (vrf_FlowHashSettings t)).

Lemma generated_label t : known_protocol t -> vrf_Label t = "" -> generated_name (vrf_Id t) (is_v6 t) = getVrfTableLabel t.
Proof. unfold getVrfTableLabel, generated_name, is_v6. by intros [-> | ->] ->. Qed.

Lemma set_hash_request t s w w' name old : known_protocol t ->
  set_flow_hash (vrf_Id t) (is_v6 t) s w = (None, w') -> vpp_table w (vrf_Id t) (is_v6 t) = Some (name, old) ->
  vpp_table w' (vrf_Id t) (is_v6 t) = Some (name, setFlowHashConfig s).
Proof.
  unfold set_flow_hash, is_v6. intros Hp Hr Ht.
  assert (((if (vrf_Protocol t =? VrfTable_IPV6)%Z then ADDRESS_IP6 else ADDRESS_IP4) =? ADDRESS_IP6)%Z
    = (vrf_Protocol t =? VrfTable_IPV6)%Z) as E by by destruct (_ =? _)%Z.
  pose proof (vpp_set_flow_hash _ _ _ name old _ _ Hr) as H. rewrite E in H. by apply H.
Qed.

Lemma vrf_history_table first cur w : vrf_history first cur w ->
  known_protocol cur /\ vrf_Id cur = vrf_Id first /\ vrf_Protocol cur = vrf_Protocol first
  /\ exists name, vpp_table w (vrf_Id cur) (is_v6 cur) = Some (name, wanted_hash cur)
       /\ Trim Ascii.zero name = getVrfTableLabel first.
Proof.
  induction 1 as [key t md w w' Hnew Hp Hv Hz Hcr|first key cur new md md' w w' _ IH Hre Hup].
  - split_and!; [done..|]. unfold vrf_Create in Hcr. cbn [AddVrfTable SetVrfFlowHashSettings NewVrfTableVppHandler] in Hcr.
    unfold addDelVrfTable in Hcr. fold (is_v6 t) in Hcr.
    destruct (l3_SendRequest _ w) as [[err|] w1] eqn:E; [done|].
    destruct (vpp_add_table _ _ _ _ _ E Hnew) as (name & Hname & Hl).
    assert (Trim Ascii.zero name = getVrfTableLabel t) as Hlab.
    { rewrite Hl.
      - destruct (is_empty (vrf_Label t)) eqn:Ee.
        + apply String.eqb_eq in Ee. by apply generated_label.
        + unfold getVrfTableLabel. by rewrite Ee.
      - split; [|done]. unfold vrf_Validate in Hv. destruct (Nat.ltb_spec labelLengthLimit (String.length (vrf_Label t))); [done|lia]. }
    destruct (vrf_FlowHashSettings t) as [s|] eqn:Es.
    + destruct (set_flow_hash _ _ s w1) as [[err|] w2] eqn:E2; [done|]. injection Hcr as _ <-.
      exists name. split; [|done]. unfold wanted_hash. rewrite Es. cbn [default from_option id].
      by eapply set_hash_request.
    + injection Hcr as _ <-. exists name. split; [|done]. unfold wanted_hash. by rewrite Es.
  - destruct IH as (Hp & Hid & Hpr & name & Hname & Hlab).
    unfold vrf_UpdateWithRecreate in Hre. apply negb_false_iff, andb_true_iff in Hre as [Ep%Z.eqb_eq Ei%Z.eqb_eq].
    assert (is_v6 new = is_v6 cur) as E6 by (unfold is_v6; by rewrite Ep).
    split_and!; [unfold known_protocol in *; congruence|congruence|congruence|]. exists name. split; [|done].
    rewrite <- Ei, E6. unfold vrf_Update in Hup. cbn [SetVrfFlowHashSettings NewVrfTableVppHandler] in Hup.
    fold (is_v6 new) in Hup. rewrite <- Ei, E6 in Hup. unfold equal_settings in Hup.
    destruct (bool_decide_reflect (vrf_FlowHashSettings cur = vrf_FlowHashSettings new)) as [E|E]; cbn [negb] in Hup.
    + injection Hup as _ <-. unfold wanted_hash in *. by rewrite <- E.
    + destruct (set_flow_hash _ _ _ w) as [[err|] w1] eqn:E2; [done|]. injection Hup as _ <-.
      unfold wanted_hash. by eapply set_hash_request.
Qed.

(** C24: Updates of a VRF table keep the flow hash of VPP in step with the
    configuration, and never its label.  However often a table is updated after it
    was created, its flow hash is the configured one, or the default one if none is
    configured, and what is read back of it, under its key, has the label of its
    creation, or the one that VPP generated then, and no flow hash settings.  Hence
    it is equivalent to the configured one only if neither the label was changed nor
    flow hash settings are given: a change of the label is reported as done, and is
    not. *)
Theorem vrf_update_keeps_label (first cur : VrfTable) (correlate kvs : list VrfKV) (w w' : World) :
  vrf_history first cur w -> vrf_Retrieve NewVrfTableVppHandler correlate w = ((kvs, None), w') ->
  (exists name, vpp_table w (vrf_Id cur) (is_v6 cur) = Some (name, wanted_hash cur))
  /\ exists kv, kv ∈ kvs /\ tkv_Key kv = VrfTableKey (vrf_Id cur) (vrf_Protocol cur)
    /\ tkv_Metadata kv = vrf_metadata cur
    /\ (tkv_Origin kv = FromNB <-> 0 < vrf_Id cur < max_uint32)%Z
    /\ forall key, EquivalentVrfTables key (tkv_Value kv) cur
       = String.eqb (getVrfTableLabel first) (getVrfTableLabel cur)
         && bool_decide (vrf_FlowHashSettings cur = None).
Proof.
  intros Hh Hret. destruct (vrf_history_table _ _ _ Hh) as (Hp & Hid & Hpr & name & Hname & Hlab).
  split; [by exists name|]. unfold vrf_Retrieve in Hret. cbn [DumpVrfTables NewVrfTableVppHandler] in Hret.
  unfold dump_vrf_tables in Hret. destruct (IPTableDump w) as [l [err|]] eqn:E; [done|]. injection Hret as <- <-.
  pose proof (vpp_table_dump _ _ E _ _ _ _ Hname) as Hin.
  set (t := dumped_table (MkIPTable (vrf_Id cur) (is_v6 cur) name)).
  assert (vrf_Protocol t = vrf_Protocol cur) as Etp.
  { unfold t, dumped_table, getTableProto, is_v6. cbn. by destruct Hp as [-> | ->]. }
  exists (retrieved_vrf t). split_and!.
  - rewrite map_map. by apply (list_elem_of_fmap_2 (fun x => retrieved_vrf (dumped_table x))).
  - unfold retrieved_vrf. cbn [tkv_Key]. by rewrite Etp.
  - unfold retrieved_vrf, vrf_metadata. cbn [tkv_Metadata]. by rewrite Etp.
  - unfold retrieved_vrf. cbn [tkv_Origin]. change (vrf_Id t) with (vrf_Id cur).
    destruct (Z.ltb_spec 0 (vrf_Id cur)), (Z.ltb_spec (vrf_Id cur) max_uint32); cbn [andb]; split; lia || done.
  - intros key. change (tkv_Value (retrieved_vrf t)) with t. unfold EquivalentVrfTables, equal_settings. change (vrf_FlowHashSettings t) with (@None VrfTable_FlowHashSettings).
    assert (getVrfTableLabel t = getVrfTableLabel first) as ->.
    { unfold getVrfTableLabel at 1. change (vrf_Label t) with (Trim Ascii.zero name). rewrite Hlab, Etp.
      change (vrf_Id t) with (vrf_Id cur). destruct (is_empty (getVrfTableLabel first)) eqn:Ee; [|done].
      exfalso. apply String.eqb_eq in Ee. unfold getVrfTableLabel in Ee.
      destruct (is_empty (vrf_Label first)) eqn:El; [|apply String.eqb_neq in El; done].
      by destruct (ToLower (VrfTable_Protocol_String (vrf_Protocol first))). }
    rewrite (bool_decide_ext (None = vrf_FlowHashSettings cur) (vrf_FlowHashSettings cur = None)) by (split; congruence).
    by destruct (String.eqb _ _), (bool_decide _).
Qed.
End vrf.

Section arp.
Context {X : Ext} {IX : Indexes} {CH : L3Channel}.
Context (ifIndexes : Mapping).

Context {AL : ArpLaws}.

Abbreviation ArpKV := (TypedKVWithMetadata ARPEntry (option Metadata)).

(** An address in a request, by its shorter form. *)
Lemma ipToAddress_union s addr : ipToAddress s = inl addr ->
  let ip := short_ip (ParseIP s) in
  parsed_ip ip /\ ip_String (ParseIP s) = ip_String ip
  /\ Af addr = (if is_v4 ip then ADDRESS_IP4 else ADDRESS_IP6) /\ Un addr = (to_union ip).2.
Proof.
  unfold ipToAddress. destruct (ParseIP_ok s) as [->|[Hip _]]; [done|]. rewrite (proj1 Hip). cbn [Nat.eqb].
  pose proof (short_ip_parsed _ Hip) as Hp. unfold to_union. rewrite (is_v4_parsed _ Hp), (To4_parsed _ Hp).
  unfold short_ip, is_v4 in *. destruct (Nat.eqb_spec (length (To4 (ParseIP s))) 0) as [E|E]; cbn [negb] in *.
  - intros [= <-]. rewrite (proj1 Hip). done.
  - assert (length (To4 (ParseIP s)) = 4) as E4.
    { unfold To4 in *. rewrite (proj1 Hip) in *. cbn [Nat.eqb andb] in *.
      destruct (bool_decide _); [by rewrite length_drop, (proj1 Hip)|done]. }
    rewrite E4. cbn [Nat.eqb]. intros [= <-]. cbn [Nat.eqb Af Un snd]. split_and!; [done| |done|by rewrite E4].
    unfold ip_String. rewrite (proj1 Hip), E4. cbn [Nat.eqb orb negb].
    by rewrite (To4_4 (To4 (ParseIP s))), E4 by done.
Qed.

(** C35: An ARP entry that was created is read back under the key of its interface and
    its address in canonical form, as an unknown one; it is equal to the configured
    entry exactly if both its addresses are configured in canonical form, that is as
    VPP's answer is printed.  Its hardware address has six bytes, and its interface
    one index. *)
Theorem arp_entry_canonical (a : ARPEntry) (key : string) (md : option Metadata) (correlate kvs : list ArpKV)
    (w w1 w' : World) (meta : IfaceMetadata) (hw : list Z) :
  arp_Create (NewArpVppHandler ifIndexes) key a w = ((md, None), w1) ->
  iface_LookupByName ifIndexes (arpe_Interface a) = Some meta ->
  (LookupBySwIfIndex ifIndexes (SwIfIndex meta)).1.1 = arpe_Interface a ->
  ParseMAC (arpe_PhysAddress a) = Some hw -> length hw = 6 ->
  arp_Retrieve (NewArpVppHandler ifIndexes) correlate w1 = ((kvs, None), w') ->
  exists v, MkTypedKV (ArpEntryKey (arpe_Interface a) (ip_String (ParseIP (arpe_IpAddress a)))) v None UnknownOrigin ∈ kvs
    /\ EquivalentArps key v a = String.eqb (ip_String (ParseIP (arpe_IpAddress a))) (arpe_IpAddress a)
         && String.eqb (mac_String hw) (arpe_PhysAddress a).
Proof.
  intros Hcr Hmeta Hname Hmac Hlen Hret. unfold arp_Create in Hcr. cbn [VppAddArp NewArpVppHandler] in Hcr.
  unfold vppAddDelArp in Hcr. rewrite Hmeta in Hcr. cbn [negb] in Hcr.
  destruct (ipToAddress (arpe_IpAddress a)) as [addr|] eqn:Eip; [|done]. unfold parse_mac in Hcr. rewrite Hmac in Hcr.
  destruct (l3_SendRequest _ w) as [[err|] w2] eqn:E; [done|]. injection Hcr as _ ->.
  apply vpp_add_neighbor in E as (n & Hn & Hsw & Hm & Ha & Hf). cbn [ipn_SwIfIndex ipn_MacAddress ipn_IPAddress ipn_Flags] in *.
  destruct (ipToAddress_union _ _ Eip) as (Hp & Etext & Haf & Hun). set (ip := short_ip (ParseIP (arpe_IpAddress a))) in *.
  set (v := MkARPEntry (arpe_Interface a) (ip_String ip) (mac_String hw) (arpe_Static a)).
  assert (ad_Arp (dumped_arp ifIndexes n) = v) as Ev.
  { unfold dumped_arp. cbn [ad_Arp]. rewrite Hsw, Hname, Hm, Ha, Hf, Haf, Hun.
    rewrite (copy_bytes_exact 6 (copy_bytes 6 hw)), (copy_bytes_exact 6 hw) by (done || apply length_copy_bytes).
    destruct (union_text_of ip Hp) as [_ Ht]. unfold v. f_equal; [|by destruct (arpe_Static a)].
    rewrite <- Ht. by destruct (is_v4 ip). }
  exists v. rewrite Etext. split.
  - unfold arp_Retrieve in Hret. cbn [DumpArpEntries NewArpVppHandler] in Hret.
    unfold dump_arp_entries, dumpArpEntries in Hret.
    destruct (IPNeighborDump max_uint32 ADDRESS_IP4 w1) as [l4 [err|]] eqn:E4; [done|].
    destruct (IPNeighborDump max_uint32 ADDRESS_IP6 w1) as [l6 [err|]] eqn:E6; [done|]. injection Hret as <- _.
    assert (dumped_arp ifIndexes n ∈ map (dumped_arp ifIndexes) l4 ++ map (dumped_arp ifIndexes) l6) as Hin.
    { apply elem_of_app. destruct (is_v4 ip) eqn:E.
      - left. apply list_elem_of_fmap_2, (vpp_neighbor_dump _ _ _ E4); [done|by rewrite Ha].
      - right. apply list_elem_of_fmap_2, (vpp_neighbor_dump _ _ _ E6); [done|by rewrite Ha]. }
    apply (list_elem_of_fmap_2 retrieved_arp) in Hin. unfold retrieved_arp in Hin. rewrite Ev in Hin. exact Hin.
  - unfold EquivalentArps, v. destruct a as [ifc ips mac st]. cbn [arpe_Interface arpe_IpAddress arpe_PhysAddress arpe_Static].
    apply Bool.eq_iff_eq_true. rewrite bool_decide_eq_true, andb_true_iff, !String.eqb_eq.
    split; [by intros [=]|by intros [-> ->]].
Qed.
End arp.

(** ** Examples *)

#[local] Existing Instance l3_ext.

Definition vrf_of (label : string) (settings : option VrfTable_FlowHashSettings) : VrfTable :=
  MkVrfTable 5 VrfTable_IPV6 label settings.
Definition empty_l3 : @World l3_ext := MkL3World [] [] [].
Definition one_table (config : Z) : @World l3_ext := MkL3World [] [MkTableEntry 5 true "red" config] [].
Definition src_only : VrfTable_FlowHashSettings := MkFlowHash true false false false false false false.

(** The label is changed and flow hash settings are added: only these reach VPP. *)
Lemma vrf_relabelled : vrf_history (vrf_of "red" None) (vrf_of "blue" (Some src_only)) (one_table 1).
Proof.
  apply (vrf_updated _ "" (vrf_of "red" None) _ None (vrf_metadata (vrf_of "blue" None)) (one_table 31)); [|done..].
  by apply (vrf_created "" _ (vrf_metadata (vrf_of "red" None)) empty_l3); [|right|..].
Qed.

Example vrf_update_keeps_label_witness :
  exists kvs, vrf_Retrieve NewVrfTableVppHandler [] (one_table 1) = ((kvs, None), one_table 1)
    /\ exists kv, kv ∈ kvs /\ EquivalentVrfTables "" (tkv_Value kv) (vrf_of "blue" (Some src_only)) = false.
Proof.
  eexists. split; [reflexivity|].
  destruct (vrf_update_keeps_label (vrf_of "red" None) (vrf_of "blue" (Some src_only)) [] _ (one_table 1) (one_table 1)
    vrf_relabelled eq_refl) as (_ & kv & Hin & _ & _ & _ & E).
  exists kv. split; [exact Hin|]. rewrite (E ""). reflexivity.
Defined.

Definition tap_index : @Mapping l3_ext :=
  {[ "tap0" := IfMeta (MkIfaceMetadata 7 0 [] "" "" "") ]} : L3Index.
Definition upper_arp : ARPEntry := MkARPEntry "tap0" "fd00::1" "AA:bb:cc:00:11:22" true.

(** Capital letters in the hardware address: the entry is never equal to VPP's. *)
Example arp_entry_canonical_witness :
  exists w1 kvs v, arp_Create (NewArpVppHandler tap_index) "" upper_arp empty_l3 = ((None, None), w1)
    /\ arp_Retrieve (NewArpVppHandler tap_index) [] w1 = ((kvs, None), w1)
    /\ MkTypedKV (ArpEntryKey "tap0" "fd00::1") v None UnknownOrigin ∈ kvs /\ EquivalentArps "" v upper_arp = false.
Proof.
  eexists _, _. 
  assert (exists v, MkTypedKV (ArpEntryKey "tap0" (ip_String (ParseIP "fd00::1"))) v None UnknownOrigin
      ∈ map retrieved_arp (map (dumped_arp tap_index) [] ++ map (dumped_arp tap_index)
          [MkIPNeighbor 7 3 [170; 187; 204; 0; 17; 34]%Z (MkAddress ADDRESS_IP6 [253; 0; 0; 0; 0; 0; 0; 0; 0; 0; 0; 0; 0; 0; 0; 1]%Z)])
    /\ EquivalentArps "" v upper_arp = String.eqb (ip_String (ParseIP "fd00::1")) "fd00::1"
         && String.eqb (mac_String [170; 187; 204; 0; 17; 34]%Z) "AA:bb:cc:00:11:22") as (v & Hin & E).
  { eapply (arp_entry_canonical tap_index upper_arp "" None [] _ empty_l3 _ _ (MkIfaceMetadata 7 0 [] "" "" "")
      [170; 187; 204; 0; 17; 34]%Z); reflexivity. }
  exists v. split_and!; [reflexivity|reflexivity|exact Hin|exact E].
Defined.
