(* ===== verification/VppAclProto.v ===== *)
(** * Messages of the ACL plugin

    [proto/ligato/vpp/acl]: access lists, their keys and the keys of their
    assignments to interfaces, and the messages of VPP's binary API that configure
    them ([binapi/vpp2306/acl] and [acl_types]). *)
From S2P Require Import Prelude GoStrings GoTemplate Models AgentModels VppModels VppBinapi.

(** ** Configuration *)

Definition ACL_Rule_DENY : Z := 0.
Definition ACL_Rule_PERMIT : Z := 1.
Definition ACL_Rule_REFLECT : Z := 2.

Record ACL_Rule_IpRule_Ip := MkRuleIp {
  ip_DestinationNetwork : string;
  ip_SourceNetwork : string;
  ip_Protocol : Z
}.
Record ACL_Rule_IpRule_Icmp_Range := MkIcmpRange { range_First : Z; range_Last : Z }.
Record ACL_Rule_IpRule_Icmp := MkRuleIcmp {
  icmp_Icmpv6 : bool;
  icmp_IcmpCodeRange : option ACL_Rule_IpRule_Icmp_Range;
  icmp_IcmpTypeRange : option ACL_Rule_IpRule_Icmp_Range
}.
Record ACL_Rule_IpRule_PortRange := MkPortRange { port_LowerPort : Z; port_UpperPort : Z }.
Record ACL_Rule_IpRule_Tcp := MkRuleTcp {
  tcp_DestinationPortRange : option ACL_Rule_IpRule_PortRange;
  tcp_SourcePortRange : option ACL_Rule_IpRule_PortRange;
  tcp_TcpFlagsMask : Z;
  tcp_TcpFlagsValue : Z
}.
Record ACL_Rule_IpRule_Udp := MkRuleUdp {
  udp_DestinationPortRange : option ACL_Rule_IpRule_PortRange;
  udp_SourcePortRange : option ACL_Rule_IpRule_PortRange
}.

(** Pointers to messages, which may be nil. *)
Record ACL_Rule_IpRule := MkIpRule {
  rule_Ip : option ACL_Rule_IpRule_Ip;
  rule_Icmp : option ACL_Rule_IpRule_Icmp;
  rule_Tcp : option ACL_Rule_IpRule_Tcp;
  rule_Udp : option ACL_Rule_IpRule_Udp
}.
Record ACL_Rule_MacIpRule := MkMacIpRule {
  macip_SourceAddress : string;
  macip_SourceAddressPrefix : Z;
  macip_SourceMacAddress : string;
  macip_SourceMacAddressMask : string
}.
Record ACL_Rule := MkRule {
  rule_Action : Z;
  rule_IpRule : option ACL_Rule_IpRule;
  rule_MacipRule : option ACL_Rule_MacIpRule
}.
Record ACL_Interfaces := MkAclInterfaces { aif_Egress : list string; aif_Ingress : list string }.
Record ACL := MkACL { acl_Name : string; acl_Rules : list ACL_Rule; acl_Interfaces : option ACL_Interfaces }.

#[export] Instance RuleIp_eq : EqDecision ACL_Rule_IpRule_Ip.
Proof. solve_decision. Defined.
#[export] Instance IcmpRange_eq : EqDecision ACL_Rule_IpRule_Icmp_Range.
Proof. solve_decision. Defined.
#[export] Instance RuleIcmp_eq : EqDecision ACL_Rule_IpRule_Icmp.
Proof. solve_decision. Defined.
#[export] Instance PortRange_eq : EqDecision ACL_Rule_IpRule_PortRange.
Proof. solve_decision. Defined.
#[export] Instance RuleTcp_eq : EqDecision ACL_Rule_IpRule_Tcp.
Proof. solve_decision. Defined.
#[export] Instance RuleUdp_eq : EqDecision ACL_Rule_IpRule_Udp.
Proof. solve_decision. Defined.
#[export] Instance IpRule_eq : EqDecision ACL_Rule_IpRule.
Proof. solve_decision. Defined.
#[export] Instance MacIpRule_eq : EqDecision ACL_Rule_MacIpRule.
Proof. solve_decision. Defined.
#[export] Instance Rule_eq : EqDecision ACL_Rule.
Proof. solve_decision. Defined.
#[export] Instance AclInterfaces_eq : EqDecision ACL_Interfaces.
Proof. solve_decision. Defined.
#[export] Instance ACL_eq : EqDecision ACL.
Proof. solve_decision. Defined.

(** The methods of generated messages accept nil pointers. *)
Definition rule_GetIp (r : option ACL_Rule_IpRule) : option ACL_Rule_IpRule_Ip := r ≫= rule_Ip.
Definition rule_GetIcmp (r : option ACL_Rule_IpRule) : option ACL_Rule_IpRule_Icmp := r ≫= rule_Icmp.
Definition rule_GetTcp (r : option ACL_Rule_IpRule) : option ACL_Rule_IpRule_Tcp := r ≫= rule_Tcp.
Definition rule_GetUdp (r : option ACL_Rule_IpRule) : option ACL_Rule_IpRule_Udp := r ≫= rule_Udp.
Definition ip_GetProtocol (i : option ACL_Rule_IpRule_Ip) : Z := from_option ip_Protocol 0%Z i.
Definition ip_GetSourceNetwork (i : option ACL_Rule_IpRule_Ip) : string := from_option ip_SourceNetwork "" i.
Definition ip_GetDestinationNetwork (i : option ACL_Rule_IpRule_Ip) : string := from_option ip_DestinationNetwork "" i.
Definition acl_GetIngress (i : option ACL_Interfaces) : list string := from_option aif_Ingress [] i.
Definition acl_GetEgress (i : option ACL_Interfaces) : list string := from_option aif_Egress [] i.

(** ** Keys *)

Definition ModelACL : knownModel Msg := model_named "ligato.vpp.acl.ACL".
Definition acl_Key (aclName : string) : string := models_Key_of (msg "ligato.vpp.acl.ACL" [("Name", TStr aclName)]).

Definition aclToInterfaceTemplate : string := "vpp/acl/{acl}/interface/{flow}/{iface}".
Definition IngressFlow : string := "ingress".
Definition EgressFlow : string := "egress".
Definition InvalidKeyPart : string := "<invalid>".

Definition is_flow (flow : string) : bool := String.eqb flow IngressFlow || String.eqb flow EgressFlow.

Definition ToInterfaceKey (acl iface flow : string) : string :=
  let acl := if is_empty acl then InvalidKeyPart else acl in
  let iface := if is_empty iface then InvalidKeyPart else iface in
  let flow := if is_flow flow then flow else InvalidKeyPart in
  let key := Replace1 aclToInterfaceTemplate "{acl}" acl in
  let key := Replace1 key "{flow}" flow in
  Replace1 key "{iface}" iface.

(** [acl, iface, flow, isACLToInterface]. *)
Definition ParseACLToInterfaceKey (key : string) : string * string * string * bool :=
  let parts := Split key in
  let interfaceIndex := first_index "interface" parts in
  let flow := default "" (parts !! Z.to_nat (interfaceIndex + 1)) in
  if (5 <=? length parts)
     && String.eqb (nth 0 parts "") "vpp" && String.eqb (nth 1 parts "") "acl" && (3 <=? interfaceIndex)%Z
     && (is_flow flow || String.eqb flow InvalidKeyPart) then
    let acl := Join (drop 2 (take (Z.to_nat interfaceIndex) parts)) in
    let iface := Join (drop (Z.to_nat (interfaceIndex + 2)) parts) in
    if negb (is_empty iface) && negb (is_empty acl) then (acl, iface, flow, true) else ("", "", "", false)
  else ("", "", "", false).

Example acl_keys :
  acl_Key "acl1" = "config/vpp/acls/v2/acl/acl1"
  /\ ToInterfaceKey "acl1" "memif/1" EgressFlow = "vpp/acl/acl1/interface/egress/memif/1"
  /\ ToInterfaceKey "" "" "both" = "vpp/acl/<invalid>/interface/<invalid>/<invalid>"
  /\ ParseACLToInterfaceKey "vpp/acl/a/b/interface/egress/memif/1" = ("a/b", "memif/1", "egress", true)
  /\ ParseACLToInterfaceKey "vpp/acl/a/interface/b/interface/egress/if" = ("", "", "", false)
  /\ ParseACLToInterfaceKey "vpp/acl/<invalid>/interface/<invalid>/<invalid>" = ("<invalid>", "<invalid>", "<invalid>", true)
  /\ ParseACLToInterfaceKey "vpp/acl/acl1/interface/ingress/" = ("", "", "", false)
  /\ ParseACLToInterfaceKey "vpp/acl/interface/ingress/if" = ("", "", "", false)
  /\ ParseACLToInterfaceKey "vpp/acl/acl1/interface" = ("", "", "", false)
  /\ ParseACLToInterfaceKey "ingress" = ("", "", "", false).
Proof. vm_compute. done. Qed.

(** ** Binary API *)

Definition ACL_ACTION_API_DENY : Z := 0.
Definition ACL_ACTION_API_PERMIT : Z := 1.
Definition ACL_ACTION_API_PERMIT_REFLECT : Z := 2.

Record ACLRule := MkACLRule {
  ar_IsPermit : Z;
  ar_SrcPrefix : ip_Prefix;
  ar_DstPrefix : ip_Prefix;
  ar_Proto : Z;
  ar_SrcportOrIcmptypeFirst : Z;
  ar_SrcportOrIcmptypeLast : Z;
  ar_DstportOrIcmpcodeFirst : Z;
  ar_DstportOrIcmpcodeLast : Z;
  ar_TCPFlagsMask : Z;
  ar_TCPFlagsValue : Z
}.
Record MacipACLRule := MkMacipACLRule {
  mr_IsPermit : Z;
  mr_SrcMac : list Z;
  mr_SrcMacMask : list Z;
  mr_SrcPrefix : ip_Prefix
}.

Inductive AclRequest :=
  | ACLAddReplace (ACLIndex : Z) (Tag : string) (Count : Z) (R : list ACLRule)
  | MacipACLAdd (Tag : string) (Count : Z) (R : list MacipACLRule)
  | MacipACLAddReplace (ACLIndex : Z) (Tag : string) (Count : Z) (R : list MacipACLRule)
  | ACLDel (ACLIndex : Z)
  | MacipACLDel (ACLIndex : Z)
  | ACLInterfaceAddDel (IsAdd IsInput : bool) (SwIfIndex ACLIndex : Z)
  | MacipACLInterfaceAddDel (IsAdd : bool) (SwIfIndex ACLIndex : Z)
  | ACLInterfaceSetACLList (SwIfIndex Count NInput : Z) (Acls : list Z).

(** Replies of dumps. *)
Record ACLDetails := MkACLDetails { acd_ACLIndex : Z; acd_Tag : string; acd_R : list ACLRule }.
Record MacipACLDetails := MkMacipACLDetails { mcd_ACLIndex : Z; mcd_Tag : string; mcd_R : list MacipACLRule }.
Record ACLInterfaceListDetails := MkACLInterfaceList {
  ail_SwIfIndex : Z;
  ail_Count : Z;
  ail_NInput : Z;
  ail_Acls : list Z
}.
Record MacipACLInterfaceListDetails := MkMacipInterfaceList { mil_SwIfIndex : Z; mil_Count : Z; mil_Acls : list Z }.

#[export] Instance ACLRule_eq : EqDecision ACLRule.
Proof. solve_decision. Defined.
#[export] Instance MacipACLRule_eq : EqDecision MacipACLRule.
Proof. solve_decision. Defined.
