(* ===== verification/VppAclCalls.v ===== *)
(** * Calls of the ACL plugin to VPP

    [plugins/vpp/aclplugin/vppcalls] and [aclidx]: the interface that the descriptors
    use, and the handler that implements it with requests of the binary API
    (vpp2306).  The channel to VPP is a parameter, and so is the order in which Go
    ranges over the maps of access lists. *)
From S2P Require Import Prelude GoStrings GoNet GoNetText AgentModels Api Adapter NameToIndex.
From S2P Require Import VppBinapi VppAclProto.

(** ** The index of access lists *)

Record ACLMetadata := MkACLMetadata { am_Index : Z; am_L2 : bool }.

#[export] Instance ACLMetadata_eq : EqDecision ACLMetadata.
Proof. solve_decision. Defined.

(** Type assertions on metadata, pointers. *)
Class AclIndexes {X : Ext} := {
  as_ACLMetadata : Metadata -> option (option ACLMetadata);
  of_ACLMetadata : option ACLMetadata -> Metadata
}.

Section aclidx.
Context {X : Ext} {IX : Indexes} {AX : AclIndexes}.

(** No secondary index. *)
Definition acl_indexMetadata (metaData : Metadata) : list (string * list string) := [].

Definition NewACLIndex : Mapping := NewNameToIndex (Some acl_indexMetadata).

(** [metadata, exists]. *)
Definition acl_LookupByName (aclIdx : Mapping) (name : string) : option ACLMetadata * bool :=
  match nm_GetValue aclIdx name ≫= as_ACLMetadata with
  | Some typedMeta => (typedMeta, true)
  | None => (None, false)
  end.

(** [name, metadata, exists]. *)
Definition acl_LookupByIndex (aclIdx : Mapping) (idx : Z) : string * option ACLMetadata * bool :=
  match LookupByIndex aclIdx idx with
  | None => ("", None, false)
  | Some (name, item, _) =>
      match as_ACLMetadata item with
      | Some metadata => (name, metadata, true)
      | None => (name, None, false)
      end
  end.
End aclidx.

(** ** The interface of the handler *)

Definition ICMPv4Proto : Z := 1.
Definition TCPProto : Z := 6.
Definition UDPProto : Z := 17.
Definition ICMPv6Proto : Z := 58.

Record ACLMeta := MkACLMeta { meta_Index : Z; meta_Tag : string }.
Record vpp_ACLDetails := MkVppACLDetails { vad_ACL : ACL; vad_Meta : ACLMeta }.
Record ACLToInterface := MkACLToInterface { ati_SwIfIdx : Z; ati_IngressACL : list Z; ati_EgressACL : list Z }.

#[export] Instance ACLMeta_eq : EqDecision ACLMeta.
Proof. solve_decision. Defined.
#[export] Program Instance ACLMeta_countable : Countable ACLMeta :=
  inj_countable' (fun m => (meta_Index m, meta_Tag m)) (fun p => MkACLMeta p.1 p.2) _.
Next Obligation. by intros []. Qed.

(** The order of a range over a map with such keys. *)
Class MetaOrder := {
  meta_order : gset ACLMeta -> list ACLMeta;
  meta_order_perm : forall s, meta_order s ≡ₚ elements s
}.

Section api.
Context {X : Ext}.

Record ACLVppAPI := MkACLVppAPI {
  DumpACL : Dump (list vpp_ACLDetails);
  DumpMACIPACL : Dump (list vpp_ACLDetails);
  DumpACLInterfaces : list Z -> Dump (gmap Z (option ACL_Interfaces));
  DumpMACIPACLInterfaces : list Z -> Dump (gmap Z (option ACL_Interfaces));
  DumpInterfaceACLs : Z -> Dump (list ACL);
  DumpInterfaceMACIPACLs : Z -> Dump (list ACL);
  AddACL : list ACL_Rule -> string -> World -> (Z + error) * World;
  AddMACIPACL : list ACL_Rule -> string -> World -> (Z + error) * World;
  ModifyACL : Z -> list ACL_Rule -> string -> Call;
  ModifyMACIPACL : Z -> list ACL_Rule -> string -> Call;
  DeleteACL : Z -> Call;
  DeleteMACIPACL : Z -> Call;
  SetACLToInterfacesAsIngress : Z -> list Z -> Call;
  RemoveACLFromInterfacesAsIngress : Z -> list Z -> Call;
  SetACLToInterfacesAsEgress : Z -> list Z -> Call;
  RemoveACLFromInterfacesAsEgress : Z -> list Z -> Call;
  SetMACIPACLToInterfaces : Z -> list Z -> Call;
  RemoveMACIPACLFromInterfaces : Z -> list Z -> Call;
  AddACLToInterfaceAsIngress : Z -> string -> Call;
  AddACLToInterfaceAsEgress : Z -> string -> Call;
  DeleteACLFromInterfaceAsIngress : Z -> string -> Call;
  DeleteACLFromInterfaceAsEgress : Z -> string -> Call;
  AddMACIPACLToInterface : Z -> string -> Call;
  DeleteMACIPACLFromInterface : Z -> string -> Call
}.

(** [SendRequest(req).ReceiveReply(reply)], with the index in the reply if it has
    one; requests of one reply that is read; and [SendMultiRequest]: the replies
    before the stop, or before an error. *)
Class AclChannel := {
  acl_SendRequest : AclRequest -> World -> (Z + error) * World;
  ACLDump_reply : Z -> World -> ACLDetails + error;
  MacipACLDump_reply : Z -> World -> MacipACLDetails + error;
  ACLInterfaceListDump_reply : Z -> World -> ACLInterfaceListDetails + error;
  MacipACLInterfaceListDump_reply : Z -> World -> MacipACLInterfaceListDetails + error;
  ACLDump : Z -> World -> list ACLDetails * option error;
  MacipACLDump : Z -> World -> list MacipACLDetails * option error;
  ACLInterfaceListDump : Z -> World -> list ACLInterfaceListDetails * option error;
  MacipACLInterfaceListDump : Z -> World -> list MacipACLInterfaceListDetails * option error
}.
End api.

Definition uint16 (z : Z) : Z := (z mod 2 ^ 16)%Z.

Section handler.
Context {X : Ext} {IX : Indexes} {CH : AclChannel} {MO : MetaOrder}.
(** [addrs.ParseIPWithPrefix] of cn-infra: the address with a mask, [isIPv6]. *)
Context (ParseIPWithPrefix : string -> IPNet * bool + error).
(** [h.ifIndexes]. *)
Context (ifIndexes : Mapping).

(** ** Rules for VPP (acl_vppcalls.go) *)

Definition ruleAction (action : Z) : Z :=
  if (action =? ACL_Rule_DENY)%Z then ACL_ACTION_API_DENY
  else if (action =? ACL_Rule_PERMIT)%Z then ACL_ACTION_API_PERMIT
  else if (action =? ACL_Rule_REFLECT)%Z then ACL_ACTION_API_PERMIT_REFLECT
  else 0.

Definition zero_prefix : ip_Prefix := MkPrefix (MkAddress ADDRESS_IP4 (replicate 16 0%Z)) 0.
Definition new_ACLRule (isPermit : Z) : ACLRule := MkACLRule isPermit zero_prefix zero_prefix 0 0 0 0 0 0 0.

(** [strings.TrimSpace(s) == ""]: only white space, as Unicode has it. *)
Fixpoint is_blank (s : string) : bool :=
  let code := fun c => Ascii.nat_of_ascii c in
  match s with
  | "" => true
  | String a s1 =>
      if ((9 <=? code a) && (code a <=? 13)) || (code a =? 32) then is_blank s1
      else match s1 with
      | String b s2 =>
          if (code a =? 194) && ((code b =? 133) || (code b =? 160)) then is_blank s2
          else match s2 with
          | String c s3 =>
              if ((code a =? 225) && (code b =? 154) && (code c =? 128))
                 || ((code a =? 226) && (code b =? 128)
                     && (((128 <=? code c) && (code c <=? 138)) || (code c =? 168) || (code c =? 169) || (code c =? 175)))
                 || ((code a =? 226) && (code b =? 129) && (code c =? 159))
                 || ((code a =? 227) && (code b =? 128) && (code c =? 128))
              then is_blank s3 else false
          | "" => false
          end
      | "" => false
      end
  end.

(** The network of a rule; [which] is source or destination. *)
Definition rule_network (which network : string) : IPNet + error :=
  if is_blank network then inr (errorf (which +:+ " address is empty"))
  else match ParseCIDR network with
  | None => inr (errorf ("invalid CIDR address: " +:+ network))
  | Some (_, ipNet) =>
      if (length (To4 (IP ipNet)) =? 0) && (length (To16 (IP ipNet)) =? 0)
      then inr (errorf (which +:+ " address " +:+ network +:+ " is invalid"))
      else inl ipNet
  end.

(** The same code as [networkToPrefix]. *)
Definition IPNetToPrefix (dstNetwork : IPNet) : ip_Prefix := networkToPrefix dstNetwork.

Definition ipACL (ipRule : ACL_Rule_IpRule_Ip) (aclRule : ACLRule) : ACLRule + error :=
  match rule_network "source" (ip_SourceNetwork ipRule) with
  | inr err => inr err
  | inl srcNetwork =>
      match rule_network "destination" (ip_DestinationNetwork ipRule) with
      | inr err => inr err
      | inl dstNetwork =>
          let v4 (n : IPNet) := negb (length (To4 (IP n)) =? 0) in
          let v16 (n : IPNet) := negb (length (To16 (IP n)) =? 0) in
          if (v4 srcNetwork && negb (v4 dstNetwork) && v16 dstNetwork)
             || (negb (v4 srcNetwork) && v16 srcNetwork && v4 dstNetwork)
          then inr (errorf ("source address " +:+ ip_SourceNetwork ipRule +:+ " and destionation address "
                 +:+ ip_DestinationNetwork ipRule +:+ " have different IP versions"))
          else
            let '(src, dst) :=
              if v4 srcNetwork || v4 dstNetwork || v16 srcNetwork || v16 dstNetwork
              then (IPNetToPrefix srcNetwork, IPNetToPrefix dstNetwork)
              else (ar_SrcPrefix aclRule, ar_DstPrefix aclRule) in
            inl (MkACLRule (ar_IsPermit aclRule) src dst (uint8 (ip_Protocol ipRule))
                   (ar_SrcportOrIcmptypeFirst aclRule) (ar_SrcportOrIcmptypeLast aclRule)
                   (ar_DstportOrIcmpcodeFirst aclRule) (ar_DstportOrIcmpcodeLast aclRule)
                   (ar_TCPFlagsMask aclRule) (ar_TCPFlagsValue aclRule))
      end
  end.

(** The ICMP or port ranges of a rule: source or type, destination or code. *)
Definition set_ranges (proto srcFirst srcLast dstFirst dstLast mask value : Z) (aclRule : ACLRule) : ACLRule :=
  MkACLRule (ar_IsPermit aclRule) (ar_SrcPrefix aclRule) (ar_DstPrefix aclRule) proto
    (uint16 srcFirst) (uint16 srcLast) (uint16 dstFirst) (uint16 dstLast) mask value.

(** Nil ranges are dereferenced. *)
Definition icmpACL (icmpRule : ACL_Rule_IpRule_Icmp) (aclRule : ACLRule) : ACLRule + error :=
  match icmp_IcmpTypeRange icmpRule, icmp_IcmpCodeRange icmpRule with
  | Some t, Some c =>
      inl (set_ranges (if icmp_Icmpv6 icmpRule then ICMPv6Proto else ICMPv4Proto)
        (range_First t) (range_Last t) (range_First c) (range_Last c)
        (ar_TCPFlagsMask aclRule) (ar_TCPFlagsValue aclRule) aclRule)
  | _, _ => inr nil_dereference
  end.

Definition tcpACL (tcpRule : ACL_Rule_IpRule_Tcp) (aclRule : ACLRule) : ACLRule + error :=
  match tcp_SourcePortRange tcpRule, tcp_DestinationPortRange tcpRule with
  | Some s, Some d =>
      inl (set_ranges TCPProto (port_LowerPort s) (port_UpperPort s) (port_LowerPort d) (port_UpperPort d)
        (uint8 (tcp_TcpFlagsMask tcpRule)) (uint8 (tcp_TcpFlagsValue tcpRule)) aclRule)
  | _, _ => inr nil_dereference
  end.

Definition udpACL (udpRule : ACL_Rule_IpRule_Udp) (aclRule : ACLRule) : ACLRule + error :=
  match udp_SourcePortRange udpRule, udp_DestinationPortRange udpRule with
  | Some s, Some d =>
      inl (set_ranges UDPProto (port_LowerPort s) (port_UpperPort s) (port_LowerPort d) (port_UpperPort d)
        (ar_TCPFlagsMask aclRule) (ar_TCPFlagsValue aclRule) aclRule)
  | _, _ => inr nil_dereference
  end.

(** ICMP and L4, by the protocol of the rule or, if it is 0, by what is defined. *)
Definition l4_rule (ipRule : ACL_Rule_IpRule) (aclRule : ACLRule) : ACLRule + error :=
  let proto := ip_GetProtocol (rule_Ip ipRule) in
  let icmp := match rule_Icmp ipRule with Some i => Some (icmpACL i aclRule) | None => None end in
  let tcp := match rule_Tcp ipRule with Some t => Some (tcpACL t aclRule) | None => None end in
  let udp := match rule_Udp ipRule with Some u => Some (udpACL u aclRule) | None => None end in
  default (inl aclRule)
    (if (proto =? 0)%Z then
       match icmp, tcp with Some r, _ => Some r | None, Some r => Some r | None, None => udp end
     else if (proto =? ICMPv4Proto)%Z || (proto =? ICMPv6Proto)%Z then icmp
     else if (proto =? TCPProto)%Z then tcp
     else if (proto =? UDPProto)%Z then udp
     else None).

Definition transform_ip_rule (action : Z) (ipRule : ACL_Rule_IpRule) : ACLRule + error :=
  let aclRule := new_ACLRule (ruleAction action) in
  match (match rule_Ip ipRule with Some ip => ipACL ip aclRule | None => inl aclRule end) with
  | inr err => inr err
  | inl aclRule => l4_rule ipRule aclRule
  end.

Definition transformACLIpRules (rules : list ACL_Rule) : list ACLRule + error :=
  try_map (fun r => transform_ip_rule r.1 r.2)
    (omap (fun rule => (fun ipRule => (rule_Action rule, ipRule)) <$> rule_IpRule rule) rules).

Definition IPtoPrefix (addr : string) : ip_Prefix + error :=
  match ParseIPWithPrefix addr with
  | inr err => inr err
  | inl (ipAddr, isIPv6) =>
      let len := uint8 (Mask_Size (Mask ipAddr)).1 in
      inl (if isIPv6 : bool then MkPrefix (MkAddress ADDRESS_IP6 (copy_bytes 16 (To16 (IP ipAddr)))) len
           else MkPrefix (MkAddress ADDRESS_IP4 (copy_bytes 16 (copy_bytes 4 (To4 (IP ipAddr))))) len)
  end.

Definition transform_macip_rule (action : Z) (macIPRule : ACL_Rule_MacIpRule) : MacipACLRule + error :=
  match IPtoPrefix (macip_SourceAddress macIPRule) with
  | inr _ => inr (errorf ("invalid IP address " +:+ macip_SourceAddress macIPRule))
  | inl prefix =>
      match parse_mac (macip_SourceMacAddress macIPRule) with
      | inr err => inr err
      | inl srcMac =>
          match parse_mac (macip_SourceMacAddressMask macIPRule) with
          | inr err => inr err
          | inl srcMacMask =>
              inl (MkMacipACLRule (ruleAction action) (copy_bytes 6 srcMac) (copy_bytes 6 srcMacMask)
                (MkPrefix (pf_Address prefix) (uint8 (macip_SourceAddressPrefix macIPRule))))
          end
      end
  end.

Definition transformACLMacIPRules (rules : list ACL_Rule) : list MacipACLRule + error :=
  try_map (fun r => transform_macip_rule r.1 r.2)
    (omap (fun rule => (fun macIPRule => (rule_Action rule, macIPRule)) <$> rule_MacipRule rule) rules).

(** ** Access lists *)

Definition send_acl (msg : string) (req : AclRequest) (w : World) : (Z + error) * World :=
  match acl_SendRequest req w with
  | (inr err, w) => (inr (errorf (msg +:+ ": " +:+ Error err)), w)
  | (inl idx, w) => (inl idx, w)
  end.

Definition call_acl (msg : string) (req : AclRequest) : Call := fun w =>
  match send_acl msg req w with (inr err, w) => (Some err, w) | (inl _, w) => (None, w) end.

Definition add_acl (rules : list ACL_Rule) (aclName : string) (w : World) : (Z + error) * World :=
  match transformACLIpRules rules with
  | inr err => (inr err, w)
  | inl [] => (inr (errorf ("no rules found for ACL " +:+ aclName)), w)
  | inl aclIPRules =>
      send_acl ("failed to write ACL " +:+ aclName)
        (ACLAddReplace max_uint32 aclName (uint32 (Z.of_nat (length aclIPRules))) aclIPRules) w
  end.

Definition add_macip_acl (rules : list ACL_Rule) (aclName : string) (w : World) : (Z + error) * World :=
  match transformACLMacIPRules rules with
  | inr err => (inr err, w)
  | inl [] => (inr (errorf ("no rules found for ACL " +:+ aclName)), w)
  | inl aclMacIPRules =>
      send_acl ("failed to write ACL " +:+ aclName)
        (MacipACLAdd aclName (uint32 (Z.of_nat (length aclMacIPRules))) aclMacIPRules) w
  end.

Definition modify_acl (aclIndex : Z) (rules : list ACL_Rule) (aclName : string) : Call := fun w =>
  match transformACLIpRules rules with
  | inr err => (Some err, w)
  | inl [] => (None, w)
  | inl aclIPRules =>
      call_acl ("failed to write ACL " +:+ aclName)
        (ACLAddReplace aclIndex aclName (uint32 (Z.of_nat (length aclIPRules))) aclIPRules) w
  end.

Definition modify_macip_acl (aclIndex : Z) (rules : list ACL_Rule) (aclName : string) : Call := fun w =>
  match transformACLMacIPRules rules with
  | inr err => (Some err, w)
  | inl [] => (Some (errorf ("no rules found for ACL " +:+ aclName)), w)
  | inl aclMacIPRules =>
      call_acl ("failed to write ACL " +:+ aclName)
        (MacipACLAddReplace aclIndex aclName (uint32 (Z.of_nat (length aclMacIPRules))) aclMacIPRules) w
  end.

Definition delete_acl (aclIndex : Z) : Call :=
  call_acl ("failed to remove L3/L4 ACL " +:+ Itoa aclIndex) (ACLDel aclIndex).

Definition delete_macip_acl (aclIndex : Z) : Call :=
  call_acl ("failed to remove L2 ACL " +:+ Itoa aclIndex) (MacipACLDel aclIndex).
(** ** Assignment to interfaces (interfaces_vppcalls.go) *)

Definition with_iface (ifName : string) (f : Z -> Call) : Call := fun w =>
  match iface_LookupByName ifIndexes ifName with
  | None => (Some (errorf ("metadata for interface " +:+ ifName +:+ " not found")), w)
  | Some meta => f (SwIfIndex meta) w
  end.

(** [AddACLToInterfaceAsIngress], [AddACLToInterfaceAsEgress],
    [DeleteACLFromInterfaceAsIngress] and [DeleteACLFromInterfaceAsEgress]. *)
Definition acl_of_interface (add ingress : bool) (aclIndex : Z) (ifName : string) : Call :=
  with_iface ifName (fun ifIdx =>
    call_acl ("failed to " +:+ (if add then "add interface " else "delete interface ") +:+ Itoa ifIdx
      +:+ (if add then " to ACL (L3/L4) " else " from ACL (L3/L4) ") +:+ Itoa aclIndex
      +:+ (if ingress then " as ingress" else " as egress"))
    (ACLInterfaceAddDel add ingress ifIdx aclIndex)).

(** [AddMACIPACLToInterface] and [DeleteMACIPACLFromInterface]. *)
Definition macip_acl_of_interface (add : bool) (aclIndex : Z) (ifName : string) : Call :=
  with_iface ifName (fun ifIdx =>
    call_acl ("failed to " +:+ (if add then "add interface " else "delete interface ") +:+ Itoa ifIdx
      +:+ (if add then " to MACIP ACL (L2) " else " from MACIP ACL (L2) ") +:+ Itoa aclIndex)
    (MacipACLInterfaceAddDel add ifIdx aclIndex)).

(** [SetMACIPACLToInterfaces] and [RemoveMACIPACLFromInterfaces]. *)
Definition macip_acl_of_interfaces (add : bool) (aclIndex : Z) (ifIndices : list Z) : Call :=
  call_each (fun ifIdx =>
    call_acl (if add then "failed to set interface " +:+ Itoa ifIdx +:+ " to L2 ACL " +:+ Itoa aclIndex
              else "failed to remove L2 ACL " +:+ Itoa aclIndex +:+ " from interface " +:+ Itoa ifIdx)
    (MacipACLInterfaceAddDel add ifIdx aclIndex)) ifIndices.

Definition send_acl_list (swIfIndex nInput : Z) (acls : list Z) : Call := fun w =>
  match acl_SendRequest (ACLInterfaceSetACLList swIfIndex (uint8 (Z.of_nat (length acls))) nInput acls) w with
  | (inr err, w) => (Some err, w)
  | (inl _, w) => (None, w)
  end.

Definition requestSetACLToInterfaces (aclIndex : Z) (ifIndices : list Z) (ingress : bool) : Call :=
  call_each (fun aclIfIdx w =>
    match ACLInterfaceListDump_reply aclIfIdx w with
    | inr err => (Some err, w)
    | inl d =>
        if ingress then send_acl_list aclIfIdx (uint8 (ail_NInput d + 1)) (aclIndex :: ail_Acls d) w
        else send_acl_list aclIfIdx (ail_NInput d) (ail_Acls d ++ [aclIndex]) w
    end) ifIndices.

(** What is left of the list of an interface from position [idx] on, and how much
    of it is removed. *)
Fixpoint without_acl (aclIndex : Z) (ingress : bool) (n : Z) (idx : Z) (acls : list Z) : list Z * Z :=
  match acls with
  | [] => ([], 0%Z)
  | a :: acls =>
      let '(rest, removed) := without_acl aclIndex ingress n (idx + 1) acls in
      if negb (a =? aclIndex)%Z || (ingress && (n <=? idx)%Z) || (negb ingress && (idx <? n)%Z)
      then (a :: rest, removed) else (rest, (removed + 1)%Z)
  end.

(** An error of a request does not end the loop; the last one is returned. *)
Fixpoint requestRemoveInterfacesFromACL (aclIndex : Z) (ingress : bool) (wasErr : option error)
    (ifIndices : list Z) : Call := fun w =>
  match ifIndices with
  | [] => (wasErr, w)
  | aclIfIdx :: ifIndices =>
      match ACLInterfaceListDump_reply aclIfIdx w with
      | inr err => (Some err, w)
      | inl d =>
          let '(acls, removed) := without_acl aclIndex ingress (ail_NInput d) 0 (ail_Acls d) in
          let nInput := if ingress then uint8 (ail_NInput d - removed) else ail_NInput d in
          let '(err, w) := send_acl_list aclIfIdx nInput acls w in
          requestRemoveInterfacesFromACL aclIndex ingress (match err with Some _ => err | None => wasErr end) ifIndices w
      end
  end.

(** ** Dumps (dump_vppcalls.go) *)

Definition resolveRuleAction (isPermit : Z) : Z + error :=
  if (isPermit =? ACL_ACTION_API_DENY)%Z then inl ACL_Rule_DENY
  else if (isPermit =? ACL_ACTION_API_PERMIT)%Z then inl ACL_Rule_PERMIT
  else if (isPermit =? ACL_ACTION_API_PERMIT_REFLECT)%Z then inl ACL_Rule_REFLECT
  else inr (errorf ("invalid match rule " +:+ Itoa isPermit)).

Definition prefixToString (address : ip_Prefix) : string := prefix_text address.

Definition addressToIP (address : ip_Address) : list Z :=
  if (Af address =? ADDRESS_IP6)%Z then To16 (copy_bytes 16 (Un address)) else To4 (take 4 (copy_bytes 16 (Un address))).

Definition src_range (r : ACLRule) : ACL_Rule_IpRule_PortRange :=
  MkPortRange (ar_SrcportOrIcmptypeFirst r) (ar_SrcportOrIcmptypeLast r).
Definition dst_range (r : ACLRule) : ACL_Rule_IpRule_PortRange :=
  MkPortRange (ar_DstportOrIcmpcodeFirst r) (ar_DstportOrIcmpcodeLast r).

Definition getTCPMatchRule (r : ACLRule) : ACL_Rule_IpRule_Tcp :=
  MkRuleTcp (Some (dst_range r)) (Some (src_range r)) (ar_TCPFlagsMask r) (ar_TCPFlagsValue r).
Definition getUDPMatchRule (r : ACLRule) : ACL_Rule_IpRule_Udp := MkRuleUdp (Some (dst_range r)) (Some (src_range r)).
Definition getIcmpMatchRule (r : ACLRule) : ACL_Rule_IpRule_Icmp :=
  MkRuleIcmp (ar_Proto r =? ICMPv6Proto)%Z
    (Some (MkIcmpRange (ar_DstportOrIcmpcodeFirst r) (ar_DstportOrIcmpcodeLast r)))
    (Some (MkIcmpRange (ar_SrcportOrIcmptypeFirst r) (ar_SrcportOrIcmptypeLast r))).

Definition getIPRuleMatches (r : ACLRule) : ACL_Rule_IpRule :=
  let is_proto p := (ar_Proto r =? p)%Z in
  MkIpRule (Some (MkRuleIp (prefixToString (ar_DstPrefix r)) (prefixToString (ar_SrcPrefix r)) (ar_Proto r)))
    (if is_proto ICMPv4Proto || is_proto ICMPv6Proto then Some (getIcmpMatchRule r) else None)
    (if is_proto TCPProto then Some (getTCPMatchRule r) else None)
    (if is_proto UDPProto then Some (getUDPMatchRule r) else None).

Definition getMACIPRuleMatches (rule : MacipACLRule) : ACL_Rule_MacIpRule :=
  MkMacIpRule (ip_String (addressToIP (pf_Address (mr_SrcPrefix rule)))) (pf_Len (mr_SrcPrefix rule))
    (mac_String (copy_bytes 6 (mr_SrcMac rule))) (mac_String (copy_bytes 6 (mr_SrcMacMask rule))).

Definition getIPRuleDetails (rule : ACLRule) : ACL_Rule + error :=
  match resolveRuleAction (ar_IsPermit rule) with
  | inr err => inr err
  | inl aclAction => inl (MkRule aclAction (Some (getIPRuleMatches rule)) None)
  end.

Definition getMACIPRuleDetails (rule : MacipACLRule) : ACL_Rule + error :=
  match resolveRuleAction (mr_IsPermit rule) with
  | inr err => inr err
  | inl aclAction => inl (MkRule aclAction None (Some (getMACIPRuleMatches rule)))
  end.

Definition trim_tag (tag : string) : string := Trim Ascii.zero tag.

(** Maps by index and name; a later reply replaces an earlier one with the same key. *)
Definition DumpIPAcls (w : World) : gmap ACLMeta (list ACLRule) * option error :=
  let '(l, err) := ACLDump max_uint32 w in
  (fold_left (fun m d => <[MkACLMeta (acd_ACLIndex d) (trim_tag (acd_Tag d)) := acd_R d]> m) l ∅,
   (fun e => errorf ("ACL dump reply error: " +:+ Error e)) <$> err).

Definition DumpMacIPAcls (w : World) : gmap ACLMeta (list MacipACLRule) + error :=
  let '(l, err) := MacipACLDump max_uint32 w in
  match err with
  | Some e => inr (errorf ("ACL MACIP dump reply error: " +:+ Error e))
  | None => inl (fold_left (fun m d => <[MkACLMeta (mcd_ACLIndex d) (trim_tag (mcd_Tag d)) := mcd_R d]> m) l ∅)
  end.

(** The interfaces of an access list among the lists of interfaces. *)
Definition interfaces_of (aclIdx : Z) (lists : ACLToInterface -> list Z) (interfaceData : list ACLToInterface) : list string :=
  interfaceData ≫= fun data =>
    omap (fun idx => if (idx =? aclIdx)%Z then
      match LookupBySwIfIndex ifIndexes (ati_SwIfIdx data) with (name, _, true) => Some name | _ => None end
      else None) (lists data).

Definition to_interface_data (d : ACLInterfaceListDetails) : option ACLToInterface :=
  if (0 <? ail_Count d)%Z then
    let n := Z.to_nat (ail_NInput d) in
    Some (MkACLToInterface (ail_SwIfIndex d) (take n (ail_Acls d)) (drop n (ail_Acls d)))
  else None.

Definition dump_acl_interfaces (indices : list Z) : Dump (gmap Z (option ACL_Interfaces)) := fun w =>
  match ACLInterfaceListDump max_uint32 w with
  | (_, Some err) => inr (errorf ("ACL interface list dump reply error: " +:+ Error err))
  | (l, None) =>
      let interfaceData := omap to_interface_data l in
      inl (fold_left (fun m aclIdx =>
        <[aclIdx := Some (MkAclInterfaces (interfaces_of aclIdx ati_EgressACL interfaceData)
                            (interfaces_of aclIdx ati_IngressACL interfaceData))]> m) indices ∅)
  end.

Definition to_macip_data (d : MacipACLInterfaceListDetails) : option ACLToInterface :=
  if (0 <? mil_Count d)%Z then Some (MkACLToInterface (mil_SwIfIndex d) (mil_Acls d) []) else None.

Definition dump_macip_acl_interfaces (indices : list Z) : Dump (gmap Z (option ACL_Interfaces)) := fun w =>
  match MacipACLInterfaceListDump max_uint32 w with
  | (_, Some err) => inr (errorf ("MACIP ACL interface list dump reply error: " +:+ Error err))
  | (l, None) =>
      let interfaceData := omap to_macip_data l in
      inl (fold_left (fun m aclIdx =>
        let ingress := interfaces_of aclIdx ati_IngressACL interfaceData in
        <[aclIdx := match ingress with [] => None | _ => Some (MkAclInterfaces [] ingress) end]> m) indices ∅)
  end.

(** The access lists of a map with their rules as configured, in the order of a
    range over the map. *)
Definition acl_rules {R} (details : R -> ACL_Rule + error) (acls : gmap ACLMeta (list R)) :
    list (ACLMeta * list ACL_Rule) + error :=
  try_map (fun identifier =>
    match try_map details (default [] (acls !! identifier)) with
    | inr err => inr err
    | inl rules => inl (identifier, rules)
    end) (meta_order (dom acls)).

Definition acl_details (interfaceData : gmap Z (option ACL_Interfaces)) (e : ACLMeta * list ACL_Rule) : vpp_ACLDetails :=
  MkVppACLDetails (MkACL (meta_Tag e.1) e.2 (default None (interfaceData !! meta_Index e.1))) e.1.

Definition dump_acl : Dump (list vpp_ACLDetails) := fun w =>
  let '(IPRuleACLs, err) := DumpIPAcls w in
  match err with
  | Some err => inr err
  | None =>
      if size IPRuleACLs <? 1 then inl []
      else match acl_rules getIPRuleDetails IPRuleACLs with
      | inr err => inr (errorf ("failed to get IP Rule details: " +:+ Error err))
      | inl ruleIPData =>
          match dump_acl_interfaces (map (fun e => meta_Index e.1) ruleIPData) w with
          | inr err => inr err
          | inl interfaceData => inl (map (acl_details interfaceData) ruleIPData)
          end
      end
  end.

Definition dump_macip_acl : Dump (list vpp_ACLDetails) := fun w =>
  match DumpMacIPAcls w with
  | inr err => inr err
  | inl MACIPRuleACLs =>
      if size MACIPRuleACLs =? 0 then inl []
      else match acl_rules getMACIPRuleDetails MACIPRuleACLs with
      | inr err => inr (errorf ("failed to get MACIP Rule details: " +:+ Error err))
      | inl ruleMACIPData =>
          match dump_macip_acl_interfaces (map (fun e => meta_Index e.1) ruleMACIPData) w with
          | inr err => inr err
          | inl interfaceData => inl (map (acl_details interfaceData) ruleMACIPData)
          end
      end
  end.

Definition getIPACLDetails (idx : Z) : Dump ACL := fun w =>
  match ACLDump_reply idx w with
  | inr err => inr err
  | inl reply =>
      match try_map (fun r =>
        match getIPRuleDetails r with
        | inr err => inr err
        | inl ipRule =>
            match resolveRuleAction (ar_IsPermit r) with
            | inr err => inr err
            | inl aclAction => inl (MkRule aclAction (rule_IpRule ipRule) None)
            end
        end) (acd_R reply) with
      | inr err => inr err
      | inl ruleData => inl (MkACL (trim_tag (acd_Tag reply)) ruleData None)
      end
  end.

(** The IP rule of a MACIP rule, not the MACIP rule, is returned. *)
Definition getMACIPACLDetails (idx : Z) : Dump ACL := fun w =>
  match MacipACLDump_reply idx w with
  | inr err => inr err
  | inl reply =>
      match try_map (fun r =>
        match getMACIPRuleDetails r with
        | inr err => inr err
        | inl ipRule =>
            match resolveRuleAction (mr_IsPermit r) with
            | inr err => inr err
            | inl aclAction => inl (MkRule aclAction (rule_IpRule ipRule) None)
            end
        end) (mcd_R reply) with
      | inr err => inr err
      | inl ruleData => inl (MkACL (trim_tag (mcd_Tag reply)) ruleData None)
      end
  end.

(** The loops range over the positions of the list. *)
Definition dump_interface_acls (swIndex : Z) : Dump (list ACL) := fun w =>
  match ACLInterfaceListDump_reply swIndex w with
  | inr err => inr err
  | inl res =>
      if negb (ail_SwIfIndex res =? swIndex)%Z
      then inr (errorf ("returned interface index " +:+ Itoa (ail_SwIfIndex res) +:+ " does not match request"))
      else try_map (fun aidx => getIPACLDetails (Z.of_nat aidx) w) (seq 0 (length (ail_Acls res)))
  end.

Definition dump_interface_macip_acls (swIndex : Z) : Dump (list ACL) := fun w =>
  match MacipACLInterfaceListDump_reply swIndex w with
  | inr err => inr err
  | inl res =>
      if negb (mil_SwIfIndex res =? swIndex)%Z
      then inr (errorf ("returned interface index " +:+ Itoa (mil_SwIfIndex res) +:+ " does not match request"))
      else try_map (fun aidx => getMACIPACLDetails (Z.of_nat aidx) w) (seq 0 (length (mil_Acls res)))
  end.

Definition NewACLVppHandler : ACLVppAPI := {|
  DumpACL := dump_acl;
  DumpMACIPACL := dump_macip_acl;
  DumpACLInterfaces := dump_acl_interfaces;
  DumpMACIPACLInterfaces := dump_macip_acl_interfaces;
  DumpInterfaceACLs := dump_interface_acls;
  DumpInterfaceMACIPACLs := dump_interface_macip_acls;
  AddACL := add_acl;
  AddMACIPACL := add_macip_acl;
  ModifyACL := modify_acl;
  ModifyMACIPACL := modify_macip_acl;
  DeleteACL := delete_acl;
  DeleteMACIPACL := delete_macip_acl;
  SetACLToInterfacesAsIngress := fun i l => requestSetACLToInterfaces i l true;
  RemoveACLFromInterfacesAsIngress := fun i l => requestRemoveInterfacesFromACL i true None l;
  SetACLToInterfacesAsEgress := fun i l => requestSetACLToInterfaces i l false;
  RemoveACLFromInterfacesAsEgress := fun i l => requestRemoveInterfacesFromACL i false None l;
  SetMACIPACLToInterfaces := macip_acl_of_interfaces true;
  RemoveMACIPACLFromInterfaces := macip_acl_of_interfaces false;
  AddACLToInterfaceAsIngress := acl_of_interface true true;
  AddACLToInterfaceAsEgress := acl_of_interface true false;
  DeleteACLFromInterfaceAsIngress := acl_of_interface false true;
  DeleteACLFromInterfaceAsEgress := acl_of_interface false false;
  AddMACIPACLToInterface := macip_acl_of_interface true;
  DeleteMACIPACLFromInterface := macip_acl_of_interface false
|}.
End handler.
