(* ===== verification/VppAcl.v ===== *)
(** * The ACL plugin for VPP

    [plugins/vpp/aclplugin/descriptor]: the descriptor of access lists and that of
    their assignments to interfaces, derived from them, against the interface of
    the handler. *)
From S2P Require Import Prelude GoStrings GoNet GoNetText Models VppModels Api Adapter NameToIndex.
From S2P Require Import VppBinapi VppAclProto VppAclCalls.

Section acl.
Context {X : Ext} {IX : Indexes} {AX : AclIndexes}.

(** The messages of the plugin among those of the scheduler. *)
Class AclTypes := { acl_ACL : ValueType ACL; acl_Empty : Value }.
Context {AT : AclTypes}.

#[export] Existing Instance acl_ACL.
#[export] Instance ACL_metadata : MetadataType (option ACLMetadata) := pointer_metadata as_ACLMetadata of_ACLMetadata.

Definition InterfaceDescriptorName : string := "vpp-interface".

(** ** Access lists *)

Definition ACLDescriptorName : string := "vpp-acl".

(** The address and the network of a text; nothing for the empty text. *)
Definition parse_network (net : string) : option (list Z * IPNet) + unit :=
  if is_empty net then inl None
  else match ParseCIDR net with Some r => inl (Some r) | None => inr tt end.

Definition equivalentIPRuleNetworks (net1 net2 : string) : bool :=
  match parse_network net1, parse_network net2 with
  | inl None, inl None => true
  | inl None, inl (Some (ip2, _)) => IsUnspecified ip2
  | inl (Some (ip1, _)), inl None => IsUnspecified ip1
  | inl (Some (ip1, ipNet1)), inl (Some (ip2, ipNet2)) => ip_Equal ip1 ip2 && bool_decide (Mask ipNet1 = Mask ipNet2)
  | _, _ => String.eqb net1 net2
  end.

(** [proto.Equal] compares messages, or nil pointers. *)
Definition equivalentACLRules (rule1 rule2 : ACL_Rule) : bool :=
  if negb (rule_Action rule1 =? rule_Action rule2)%Z then false
  else if negb (bool_decide (rule_MacipRule rule1 = rule_MacipRule rule2)) then false
  else
    let ipRule1 := rule_IpRule rule1 in
    let ipRule2 := rule_IpRule rule2 in
    if negb (bool_decide (rule_GetIcmp ipRule1 = rule_GetIcmp ipRule2))
       || negb (bool_decide (rule_GetTcp ipRule1 = rule_GetTcp ipRule2))
       || negb (bool_decide (rule_GetUdp ipRule1 = rule_GetUdp ipRule2)) then false
    else if negb (equivalentIPRuleNetworks (ip_GetSourceNetwork (rule_GetIp ipRule1)) (ip_GetSourceNetwork (rule_GetIp ipRule2)))
    then false
    else if negb (equivalentIPRuleNetworks (ip_GetDestinationNetwork (rule_GetIp ipRule1))
                    (ip_GetDestinationNetwork (rule_GetIp ipRule2))) then false
    else
      let proto1 := ip_GetProtocol (rule_GetIp ipRule1) in
      let proto2 := ip_GetProtocol (rule_GetIp ipRule2) in
      if negb (proto1 =? 0)%Z && negb (proto2 =? 0)%Z && negb (proto1 =? proto2)%Z then false else true.

Fixpoint equivalent_rules (rules1 rules2 : list ACL_Rule) : bool :=
  match rules1, rules2 with
  | [], [] => true
  | r1 :: rules1, r2 :: rules2 => if negb (equivalentACLRules r1 r2) then false else equivalent_rules rules1 rules2
  | _, _ => false
  end.

Definition EquivalentACLs (key : string) (oldACL newACL : ACL) : bool :=
  if negb (String.eqb (acl_Name oldACL) (acl_Name newACL)) then false
  else if negb (length (acl_Rules oldACL) =? length (acl_Rules newACL)) then false
  else equivalent_rules (acl_Rules oldACL) (acl_Rules newACL).

Definition has_ip (rule : ACL_Rule) : bool := match rule_IpRule rule with Some _ => true | None => false end.
Definition has_macip (rule : ACL_Rule) : bool := match rule_MacipRule rule with Some _ => true | None => false end.

(** The rules, and whether they are rules for L2. *)
Definition validateRules (aclName : string) (rules : list ACL_Rule) : list ACL_Rule * bool :=
  let validL3L4Rules := List.filter has_ip rules in
  let validL2Rules := List.filter has_macip rules in
  if (0 <? length validL3L4Rules) && (0 <? length validL2Rules) then (validL3L4Rules, false)
  else if 0 <? length validL3L4Rules then (validL3L4Rules, false)
  else (validL2Rules, true).

Section descriptor.
Context (aclHandler : ACLVppAPI).

Definition acl_failed (what aclName : string) (err : error) : error :=
  errorf ("failed to " +:+ what +:+ " " +:+ aclName +:+ ": " +:+ Error err).

Definition acl_Create (key : string) (acl : ACL) (w : World) : (option ACLMetadata * option error) * World :=
  if length (acl_Rules acl) =? 0
  then ((None, Some (errorf ("failed to configure ACL " +:+ acl_Name acl +:+ ", no rules to set"))), w)
  else
    let '(rules, isL2MacIP) := validateRules (acl_Name acl) (acl_Rules acl) in
    let '(r, w) := if isL2MacIP : bool then AddMACIPACL aclHandler rules (acl_Name acl) w
                   else AddACL aclHandler rules (acl_Name acl) w in
    match r with
    | inr err => ((None, Some (acl_failed (if isL2MacIP then "add MACIP ACL" else "add IP ACL") (acl_Name acl) err)), w)
    | inl vppACLIndex => ((Some (MkACLMetadata vppACLIndex isL2MacIP), None), w)
    end.

Definition acl_Delete (key : string) (acl : ACL) (metadata : option ACLMetadata) : Call := fun w =>
  match metadata with
  | None => (Some nil_dereference, w)
  | Some md =>
      let '(err, w) := if am_L2 md then DeleteMACIPACL aclHandler (am_Index md) w
                       else DeleteACL aclHandler (am_Index md) w in
      (acl_failed (if am_L2 md then "delete MACIP ACL" else "delete IP ACL") (acl_Name acl) <$> err, w)
  end.

Definition acl_Update (key : string) (oldACL newACL : ACL) (oldMetadata : option ACLMetadata) (w : World) :
    (option ACLMetadata * option error) * World :=
  let '(rules, isL2MacIP) := validateRules (acl_Name newACL) (acl_Rules newACL) in
  match oldMetadata with
  | None => ((None, Some nil_dereference), w)
  | Some md =>
      let '(err, w) := if isL2MacIP : bool then ModifyMACIPACL aclHandler (am_Index md) rules (acl_Name newACL) w
                       else ModifyACL aclHandler (am_Index md) rules (acl_Name newACL) w in
      match err with
      | Some err => ((None, Some (acl_failed (if isL2MacIP then "modify MACIP ACL" else "modify IP ACL") (acl_Name newACL) err)), w)
      | None => ((Some (MkACLMetadata (am_Index md) isL2MacIP), None), w)
      end
  end.

(** Whether a rule for IP follows a rule for L2. *)
Fixpoint l2_before_ip (hasL2 : bool) (rules : list ACL_Rule) : bool :=
  match rules with
  | [] => false
  | rule :: rules =>
      if has_macip rule then l2_before_ip true rules
      else if has_ip rule && hasL2 then true
      else l2_before_ip hasL2 rules
  end.

Definition acl_UpdateWithRecreate (key : string) (oldACL newACL : ACL) (metadata : option ACLMetadata) : bool :=
  l2_before_ip false (acl_Rules oldACL).

Definition acl_DerivedValues (key : string) (value : ACL) : list KeyValuePair :=
  map (fun ifName => MkKeyValuePair (ToInterfaceKey (acl_Name value) ifName IngressFlow) (Some acl_Empty))
    (acl_GetIngress (acl_Interfaces value))
  ++ map (fun ifName => MkKeyValuePair (ToInterfaceKey (acl_Name value) ifName EgressFlow) (Some acl_Empty))
    (acl_GetEgress (acl_Interfaces value)).

Definition retrieved_acl (l2 : bool) (d : vpp_ACLDetails) : TypedKVWithMetadata ACL (option ACLMetadata) :=
  MkTypedKV (acl_Key (acl_Name (vad_ACL d))) (vad_ACL d) (Some (MkACLMetadata (meta_Index (vad_Meta d)) l2)) FromNB.

Definition acl_Retrieve (correlate : list (TypedKVWithMetadata ACL (option ACLMetadata))) (w : World) :
    (list (TypedKVWithMetadata ACL (option ACLMetadata)) * option error) * World :=
  match DumpACL aclHandler w with
  | inr err => (([], Some (errorf ("failed to dump IP ACLs: " +:+ Error err))), w)
  | inl ipACLs =>
      match DumpMACIPACL aclHandler w with
      | inr err => (([], Some (errorf ("failed to dump MAC IP ACLs: " +:+ Error err))), w)
      | inl macipACLs => ((map (retrieved_acl false) ipACLs ++ map (retrieved_acl true) macipACLs, None), w)
      end
  end.

Definition ACLDescriptor : TypedDescriptor ACL (option ACLMetadata) := {|
  td_Name := ACLDescriptorName;
  td_KeySelector := IsKeyValid ModelACL;
  td_KeyLabel := Some (StripKeyPrefix ModelACL);
  td_ValueComparator := Some EquivalentACLs;
  td_NBKeyPrefix := km_KeyPrefix ModelACL;
  td_WithMetadata := true;
  td_MetadataMapFactory := Some NewACLIndex;
  td_Validate := None;
  td_Create := Some acl_Create;
  td_Delete := Some acl_Delete;
  td_Update := Some acl_Update;
  td_UpdateWithRecreate := Some acl_UpdateWithRecreate;
  td_Retrieve := Some acl_Retrieve;
  td_IsRetriableFailure := None;
  td_DerivedValues := Some acl_DerivedValues;
  td_Dependencies := None;
  td_RetrieveDependencies := [InterfaceDescriptorName]
|}.
End descriptor.

(** ** Assignments to interfaces *)

Definition ACLToInterfaceDescriptorName : string := "vpp-acl-to-interface".
Definition interfaceDep : string := "interface-exists".

Section binding.
Context (aclIndex : Mapping) (aclHandler : ACLVppAPI).

Definition IsACLInterfaceKey (key : string) : bool := (ParseACLToInterfaceKey key).2.

(** The call for the access list, the interface and the flow of a key: on L2, on
    ingress or on egress. *)
Definition with_acl (key : string) (l2 ingress egress : Z -> string -> Call) : Call := fun w =>
  let '(aclName, ifName, flow, _) := ParseACLToInterfaceKey key in
  match acl_LookupByName aclIndex aclName with
  | (_, false) => (Some (errorf ("failed to obtain metadata for ACL " +:+ aclName)), w)
  | (None, true) => (Some nil_dereference, w)
  | (Some aclMeta, true) =>
      if am_L2 aclMeta then l2 (am_Index aclMeta) ifName w
      else if String.eqb flow IngressFlow then ingress (am_Index aclMeta) ifName w
      else if String.eqb flow EgressFlow then egress (am_Index aclMeta) ifName w
      else (None, w)
  end.

Definition ai_Create (key : string) (emptyVal : option Value) (w : World) : (option Metadata * option error) * World :=
  let '(err, w) := with_acl key (AddMACIPACLToInterface aclHandler) (AddACLToInterfaceAsIngress aclHandler)
                     (AddACLToInterfaceAsEgress aclHandler) w in
  ((None, err), w).

Definition ai_Delete (key : string) (emptyVal : option Value) (metadata : option Metadata) : Call :=
  with_acl key (DeleteMACIPACLFromInterface aclHandler) (DeleteACLFromInterfaceAsIngress aclHandler)
    (DeleteACLFromInterfaceAsEgress aclHandler).

Definition ai_Dependencies (key : string) (emptyVal : option Value) : list Dependency :=
  let '(_, ifName, _, _) := ParseACLToInterfaceKey key in [simple_dep interfaceDep (InterfaceKey ifName)].

Definition ACLToInterfaceDescriptor : KVDescriptor := {|
  d_Name := ACLToInterfaceDescriptorName;
  d_KeySelector := IsACLInterfaceKey;
  d_KeyLabel := None;
  d_NBKeyPrefix := "";
  d_ValueComparator := None;
  d_WithMetadata := false;
  d_MetadataMapFactory := None;
  d_Validate := None;
  d_Create := Some ai_Create;
  d_Delete := Some ai_Delete;
  d_Update := None;
  d_UpdateWithRecreate := None;
  d_Retrieve := None;
  d_IsRetriableFailure := None;
  d_DerivedValues := None;
  d_Dependencies := Some ai_Dependencies;
  d_RetrieveDependencies := []
|}.
End binding.
End acl.
