(* ===== verification/VppAclTable.v ===== *)
(** * The ACL plugin: what VPP has

    What is read back of a rule, the behaviour of VPP as a class of laws, and what
    the calls of the handler do to VPP's access lists and to those of interfaces. *)
From S2P Require Import Prelude GoStrings GoNet GoNetFacts GoNetText GoNetTextFacts Api Adapter NameToIndex.
From S2P Require Import VppBinapi VppAclProto VppAclCalls VppAcl.

(** ** Networks *)

(** A text that gives a network and no other address of it. *)
Definition is_network (s : string) : bool :=
  match ParseCIDR s with Some (ip, n) => ip_Equal (To16 (IP n)) ip | None => false end.

(** The network of a text is not one of IPv4 addresses in the form of IPv6. *)
Definition net_plain (s : string) : Prop := forall ip n, ParseCIDR s = Some (ip, n) -> plain_net n.

Section rules.
Context {X : Ext}.

Lemma rule_network_parsed which s n : rule_network which s = inl n -> exists ip, ParseCIDR s = Some (ip, n).
Proof.
  unfold rule_network. destruct (is_blank s); [done|]. destruct (ParseCIDR s) as [[ip n']|]; [|done].
  destruct (_ && _); [done|]. intros [= ->]. by exists ip.
Qed.

Lemma parsed_not_empty s r : ParseCIDR s = Some r -> is_empty s = false.
Proof. intros H. destruct s; [done|reflexivity]. Qed.

(** A network as VPP reports it is equivalent to the configured one if that is a
    network. *)
Lemma network_reported which s n : rule_network which s = inl n -> net_plain s ->
  equivalentIPRuleNetworks (prefixToString (IPNetToPrefix n)) s = is_network s.
Proof.
  intros (ip & Hp)%rule_network_parsed Hn. specialize (Hn _ _ Hp). unfold prefixToString, IPNetToPrefix.
  rewrite (proj2 (sent_prefix n Hn)). destruct (ParseCIDR_text n Hn) as (k & Ht & _).
  unfold equivalentIPRuleNetworks, parse_network, is_network.
  rewrite (parsed_not_empty _ _ Hp), (parsed_not_empty _ _ Ht), Hp, Ht. cbn [Mask].
  by rewrite bool_decide_eq_true_2, andb_true_r.
Qed.

(** ** Rules *)

Definition fits16 (x : Z) : bool := (uint16 x =? x)%Z.
Definition fits8 (x : Z) : bool := (uint8 x =? x)%Z.
Definition port_fits (r : option ACL_Rule_IpRule_PortRange) : bool :=
  match r with Some r => fits16 (port_LowerPort r) && fits16 (port_UpperPort r) | None => false end.
Definition range_fits (r : option ACL_Rule_IpRule_Icmp_Range) : bool :=
  match r with Some r => fits16 (range_First r) && fits16 (range_Last r) | None => false end.
Definition icmp_proto (i : ACL_Rule_IpRule_Icmp) : Z := if icmp_Icmpv6 i then ICMPv6Proto else ICMPv4Proto.

(** Protocols whose rules have a part of their own. *)
Definition has_part (p : Z) : bool := bool_decide (p ∈ [ICMPv4Proto; ICMPv6Proto; TCPProto; UDPProto]).

(** Exactly the part of the protocol is given, or none for another protocol, and
    everything fits into the fields of the binary API. *)
Definition l4_reported (p : Z) (icmp : option ACL_Rule_IpRule_Icmp) (tcp : option ACL_Rule_IpRule_Tcp)
    (udp : option ACL_Rule_IpRule_Udp) : bool :=
  match icmp, tcp, udp with
  | None, None, None => negb (has_part (uint8 p)) && ((uint8 p =? 0)%Z || fits8 p)
  | Some i, None, None =>
      ((p =? 0)%Z || (p =? icmp_proto i)%Z) && range_fits (icmp_IcmpCodeRange i) && range_fits (icmp_IcmpTypeRange i)
  | None, Some t, None =>
      ((p =? 0)%Z || (p =? TCPProto)%Z) && port_fits (tcp_DestinationPortRange t) && port_fits (tcp_SourcePortRange t)
      && fits8 (tcp_TcpFlagsMask t) && fits8 (tcp_TcpFlagsValue t)
  | None, None, Some u =>
      ((p =? 0)%Z || (p =? UDPProto)%Z) && port_fits (udp_DestinationPortRange u) && port_fits (udp_SourcePortRange u)
  | _, _, _ => false
  end.

(** What the comparison of rules requires of the parts and the protocol. *)
Definition same_l4 (d r : ACL_Rule_IpRule) : Prop :=
  rule_Icmp d = rule_Icmp r /\ rule_Tcp d = rule_Tcp r /\ rule_Udp d = rule_Udp r
  /\ (ip_GetProtocol (rule_Ip d) = 0 \/ ip_GetProtocol (rule_Ip r) = 0
      \/ ip_GetProtocol (rule_Ip d) = ip_GetProtocol (rule_Ip r))%Z.

(** A rule for VPP before its part for ICMP or L4 is set. *)
Definition l3_only (p : Z) (x : ACLRule) : Prop :=
  ar_Proto x = uint8 p
  /\ ar_SrcportOrIcmptypeFirst x = 0%Z /\ ar_SrcportOrIcmptypeLast x = 0%Z
  /\ ar_DstportOrIcmpcodeFirst x = 0%Z /\ ar_DstportOrIcmpcodeLast x = 0%Z
  /\ ar_TCPFlagsMask x = 0%Z /\ ar_TCPFlagsValue x = 0%Z.

Lemma has_part_spec p : has_part p = true <-> (p = 1 \/ p = 58 \/ p = 6 \/ p = 17)%Z.
Proof. unfold has_part. rewrite bool_decide_eq_true. unfold ICMPv4Proto, ICMPv6Proto, TCPProto, UDPProto. set_solver. Qed.

(** A reported rule has one part at most. *)
Lemma one_part x : let d := getIPRuleMatches x in
  (rule_Icmp d <> None -> rule_Tcp d = None /\ rule_Udp d = None) /\ (rule_Tcp d <> None -> rule_Udp d = None).
Proof.
  cbn. unfold ICMPv4Proto, ICMPv6Proto, TCPProto, UDPProto.
  destruct (Z.eqb_spec (ar_Proto x) 1), (Z.eqb_spec (ar_Proto x) 58), (Z.eqb_spec (ar_Proto x) 6), (Z.eqb_spec (ar_Proto x) 17);
    try lia; cbn [orb]; done.
Qed.

Lemma l4_none p x0 ip : ip_GetProtocol ip = p -> l3_only p x0 ->
  same_l4 (getIPRuleMatches x0) (MkIpRule ip None None None) <-> l4_reported p None None None = true.
Proof.
  intros Hp (Hx & _). unfold same_l4. cbn [getIPRuleMatches rule_Icmp rule_Tcp rule_Udp rule_Ip l4_reported]. rewrite Hx, Hp.
  cbn [ip_GetProtocol from_option ip_Protocol]. unfold fits8.
  rewrite andb_true_iff, negb_true_iff, orb_true_iff, !Z.eqb_eq, <- not_true_iff_false, has_part_spec.
  unfold ICMPv4Proto, ICMPv6Proto, TCPProto, UDPProto.
  destruct (Z.eqb_spec (uint8 p) 1) as [E1|E1]; [rewrite E1; cbn; split; [by intros (? & _)|lia]|].
  destruct (Z.eqb_spec (uint8 p) 58) as [E2|E2]; [rewrite E2; cbn; split; [by intros (? & _)|lia]|]. cbn [orb].
  destruct (Z.eqb_spec (uint8 p) 6) as [E3|E3]; [split; [by intros (_ & ? & _)|lia]|].
  destruct (Z.eqb_spec (uint8 p) 17) as [E4|E4]; [split; [by intros (_ & _ & ? & _)|lia]|].
  split; [intros (_ & _ & _ & H)|intros [_ H]; split_and!; [done..|]]; [|tauto].
  split; [lia|]. destruct H as [?|[->|?]]; auto.
Qed.

(** Without a part that is used, the reported one cannot have the same protocol. *)
Lemma l4_unused p x0 ip : ip_GetProtocol ip = p -> l3_only p x0 -> (p <> 0)%Z ->
  let d := getIPRuleMatches x0 in
  (ip_GetProtocol (rule_Ip d) = 0 \/ p = 0 \/ ip_GetProtocol (rule_Ip d) = p)%Z ->
  (is_Some (rule_Icmp d) -> p = ICMPv4Proto \/ p = ICMPv6Proto)
  /\ (is_Some (rule_Tcp d) -> p = TCPProto) /\ (is_Some (rule_Udp d) -> p = UDPProto).
Proof.
  intros Hp (Hx & _) Hne. cbn. rewrite Hx. intros [H|[H|H]]; [|lia|].
  - rewrite H. cbn. by split_and!; intros [].
  - rewrite H. destruct (Z.eqb_spec p ICMPv4Proto), (Z.eqb_spec p ICMPv6Proto), (Z.eqb_spec p TCPProto), (Z.eqb_spec p UDPProto);
      cbn [orb]; split_and!; intros []; try done; auto.
Qed.
Lemma l4_icmp p x0 x ip i : ip_GetProtocol ip = p -> l3_only p x0 ->
  l4_rule (MkIpRule ip (Some i) None None) x0 = inl x ->
  same_l4 (getIPRuleMatches x) (MkIpRule ip (Some i) None None) <-> l4_reported p (Some i) None None = true.
Proof.
  intros Hp Hx H. unfold l4_rule in H. cbn [rule_Ip rule_Icmp rule_Tcp rule_Udp] in H. rewrite Hp in H.
  unfold same_l4. cbn [rule_Icmp rule_Tcp rule_Udp rule_Ip l4_reported]. rewrite Hp.
  assert ((p = 0 \/ p = ICMPv4Proto \/ p = ICMPv6Proto)%Z /\ icmpACL i x0 = inl x
    \/ (p <> 0 /\ p <> ICMPv4Proto /\ p <> ICMPv6Proto)%Z /\ x = x0) as [[Hu Hi]|[(H0 & H1 & H2) ->]].
  { destruct (Z.eqb_spec p 0); [by left; auto|]. destruct (Z.eqb_spec p ICMPv4Proto); [by left; auto|].
    destruct (Z.eqb_spec p ICMPv6Proto); [by left; auto|]. right. split; [done|]. cbn [orb] in H.
    destruct (p =? TCPProto)%Z; [by injection H|]. destruct (p =? UDPProto)%Z; by injection H. }
  - clear H. destruct i as [v6 [[cf cl]|] [[tf tl]|]]; try done. unfold icmpACL in Hi. cbn in Hi. injection Hi as <-.
    cbn [icmp_Icmpv6 icmp_IcmpCodeRange icmp_IcmpTypeRange range_fits range_First range_Last].
    unfold icmp_proto, fits16, getIPRuleMatches, getIcmpMatchRule, set_ranges. rewrite !andb_true_iff, orb_true_iff, !Z.eqb_eq.
    destruct v6; cbn -[uint16]; (split; [intros (E & _ & _ & Hq); injection E as E1 E2 E3 E4; split_and!;
      (done || unfold ICMPv4Proto, ICMPv6Proto in *; lia)|intros ((Hq & E1 & E2) & E3 & E4); rewrite E1, E2, E3, E4;
      split_and!; (done || unfold ICMPv4Proto, ICMPv6Proto in *; lia)]).
  - split.
    + intros (E & _ & _ & Hq). exfalso. destruct (l4_unused p x0 ip Hp Hx H0 Hq) as (Hi & _).
      rewrite E in Hi. destruct Hi; [by eexists|done..].
    + rewrite !andb_true_iff, orb_true_iff, !Z.eqb_eq. unfold icmp_proto. destruct (icmp_Icmpv6 i); tauto.
Qed.

Lemma l4_tcp p x0 x ip t : ip_GetProtocol ip = p -> l3_only p x0 ->
  l4_rule (MkIpRule ip None (Some t) None) x0 = inl x ->
  same_l4 (getIPRuleMatches x) (MkIpRule ip None (Some t) None) <-> l4_reported p None (Some t) None = true.
Proof.
  intros Hp Hx H. unfold l4_rule in H. cbn [rule_Ip rule_Icmp rule_Tcp rule_Udp] in H. rewrite Hp in H.
  unfold same_l4. cbn [rule_Icmp rule_Tcp rule_Udp rule_Ip l4_reported]. rewrite Hp.
  assert ((p = 0 \/ p = TCPProto)%Z /\ tcpACL t x0 = inl x \/ (p <> 0 /\ p <> TCPProto)%Z /\ x = x0) as [[Hu Hi]|[(H0 & H1) ->]].
  { destruct (Z.eqb_spec p 0); [by left; auto|]. destruct (Z.eqb_spec p TCPProto) as [->|]; [by left; auto|].
    right. split; [done|]. destruct (_ || _); [by injection H|]. destruct (p =? UDPProto)%Z; by injection H. }
  - clear H. destruct t as [[[dl du]|] [[sl su]|] m v]; try done. unfold tcpACL in Hi. cbn in Hi. injection Hi as <-.
    cbn [tcp_DestinationPortRange tcp_SourcePortRange tcp_TcpFlagsMask tcp_TcpFlagsValue
      port_fits port_LowerPort port_UpperPort].
    unfold fits16, fits8, getIPRuleMatches, getTCPMatchRule, src_range, dst_range, set_ranges. rewrite !andb_true_iff, orb_true_iff, !Z.eqb_eq. cbn -[uint16 uint8].
    split; [intros (_ & E & _ & Hq); injection E as E1 E2 E3 E4 E5 E6; split_and!; (done || unfold TCPProto in *; lia)|].
    intros ((((Hq & E1 & E2) & E3 & E4) & E5) & E6). rewrite E1, E2, E3, E4, E5, E6. split_and!; (done || unfold TCPProto in *; lia).
  - split.
    + intros (_ & E & _ & Hq). exfalso. destruct (l4_unused p x0 ip Hp Hx H0 Hq) as (_ & Hi & _).
      rewrite E in Hi. apply H1, Hi. by eexists.
    + rewrite !andb_true_iff, orb_true_iff, !Z.eqb_eq. tauto.
Qed.

Lemma l4_udp p x0 x ip u : ip_GetProtocol ip = p -> l3_only p x0 ->
  l4_rule (MkIpRule ip None None (Some u)) x0 = inl x ->
  same_l4 (getIPRuleMatches x) (MkIpRule ip None None (Some u)) <-> l4_reported p None None (Some u) = true.
Proof.
  intros Hp Hx H. unfold l4_rule in H. cbn [rule_Ip rule_Icmp rule_Tcp rule_Udp] in H. rewrite Hp in H.
  unfold same_l4. cbn [rule_Icmp rule_Tcp rule_Udp rule_Ip l4_reported]. rewrite Hp.
  assert ((p = 0 \/ p = UDPProto)%Z /\ udpACL u x0 = inl x \/ (p <> 0 /\ p <> UDPProto)%Z /\ x = x0) as [[Hu Hi]|[(H0 & H1) ->]].
  { destruct (Z.eqb_spec p 0); [by left; auto|]. destruct (Z.eqb_spec p UDPProto) as [->|]; [by left; auto|].
    right. split; [done|]. destruct (_ || _); [by injection H|]. destruct (p =? TCPProto)%Z; by injection H. }
  - clear H. destruct u as [[[dl du]|] [[sl su]|]]; try done. unfold udpACL in Hi. cbn in Hi. injection Hi as <-.
    cbn [udp_DestinationPortRange udp_SourcePortRange port_fits port_LowerPort port_UpperPort].
    unfold fits16, getIPRuleMatches, getUDPMatchRule, src_range, dst_range, set_ranges. rewrite !andb_true_iff, orb_true_iff, !Z.eqb_eq. cbn -[uint16].
    split; [intros (_ & _ & E & Hq); injection E as E1 E2 E3 E4; split_and!; (done || unfold UDPProto in *; lia)|].
    intros ((Hq & E1 & E2) & E3 & E4). rewrite E1, E2, E3, E4. split_and!; (done || unfold UDPProto in *; lia).
  - split.
    + intros (_ & _ & E & Hq). exfalso. destruct (l4_unused p x0 ip Hp Hx H0 Hq) as (_ & _ & Hi).
      rewrite E in Hi. apply H1, Hi. by eexists.
    + rewrite !andb_true_iff, orb_true_iff, !Z.eqb_eq. tauto.
Qed.

(** The part of a rule and its protocol are read back exactly if they are reported. *)
Lemma l4_dumped r x0 x : l3_only (ip_GetProtocol (rule_Ip r)) x0 -> l4_rule r x0 = inl x ->
  same_l4 (getIPRuleMatches x) r
  <-> l4_reported (ip_GetProtocol (rule_Ip r)) (rule_Icmp r) (rule_Tcp r) (rule_Udp r) = true.
Proof.
  intros Hx H. destruct (one_part x) as [Ho1 Ho2]. destruct r as [ip icmp tcp udp].
  cbn [rule_Ip rule_Icmp rule_Tcp rule_Udp] in *.
  assert (forall d, same_l4 d (MkIpRule ip icmp tcp udp) -> rule_Icmp d = icmp /\ rule_Tcp d = tcp /\ rule_Udp d = udp) as Hs
    by by intros d (? & ? & ? & _).
  destruct icmp as [i|], tcp as [t|], udp as [u|].
  all: try (split; [intros (E1 & E2 & E3)%Hs; cbn [l4_reported]; rewrite E1, E2, E3 in *;
    first [by destruct Ho1 | by specialize (Ho2 ltac:(done))]|done]).
  - by eapply l4_icmp.
  - by eapply l4_tcp.
  - by eapply l4_udp.
  - assert (x = x0) as ->; [|by apply l4_none]. unfold l4_rule in H. cbn in H.
    destruct (_ =? 0)%Z; [by injection H|]. destruct (_ || _); [by injection H|].
    destruct (_ =? _)%Z; [by injection H|]. destruct (_ =? _)%Z; by injection H.
Qed.
(** ** What is read back of a rule *)

(** The networks of a rule are plain. *)
Definition nets_plain (r : ACL_Rule_IpRule) : Prop :=
  forall i, rule_Ip r = Some i -> net_plain (ip_SourceNetwork i) /\ net_plain (ip_DestinationNetwork i).

Definition ip_reported (r : ACL_Rule_IpRule) : bool :=
  match rule_Ip r with Some i => is_network (ip_SourceNetwork i) && is_network (ip_DestinationNetwork i) | None => true end
  && l4_reported (ip_GetProtocol (rule_Ip r)) (rule_Icmp r) (rule_Tcp r) (rule_Udp r).

Definition known_action (action : Z) : bool := bool_decide (action ∈ [ACL_Rule_DENY; ACL_Rule_PERMIT; ACL_Rule_REFLECT]).

Lemma l4_keeps r x0 x : l4_rule r x0 = inl x ->
  ar_IsPermit x = ar_IsPermit x0 /\ ar_SrcPrefix x = ar_SrcPrefix x0 /\ ar_DstPrefix x = ar_DstPrefix x0.
Proof.
  assert (forall i y, icmpACL i x0 = inl y -> ar_IsPermit y = ar_IsPermit x0 /\ ar_SrcPrefix y = ar_SrcPrefix x0
    /\ ar_DstPrefix y = ar_DstPrefix x0) as Hi by (by intros [? [] []] y; try done; intros [= <-]).
  assert (forall t y, tcpACL t x0 = inl y -> ar_IsPermit y = ar_IsPermit x0 /\ ar_SrcPrefix y = ar_SrcPrefix x0
    /\ ar_DstPrefix y = ar_DstPrefix x0) as Ht by (by intros [[] []] y; try done; intros [= <-]).
  assert (forall u y, udpACL u x0 = inl y -> ar_IsPermit y = ar_IsPermit x0 /\ ar_SrcPrefix y = ar_SrcPrefix x0
    /\ ar_DstPrefix y = ar_DstPrefix x0) as Hu by (by intros [[] []] y; try done; intros [= <-]).
  unfold l4_rule. destruct (rule_Icmp r), (rule_Tcp r), (rule_Udp r); cbn; intros H.
  all: repeat match type of H with context [if ?b then _ else _] => destruct b end; cbn in H; eauto; by injection H as <-.
Qed.

Lemma plain_v16 n : plain_net n -> (length (To16 (IP n)) =? 0) = false.
Proof.
  intros Hn%plain_parsed. unfold To16. destruct Hn as [[Hl _]|[[Hl _] _]]; rewrite Hl; cbn [Nat.eqb]; [done|].
  by rewrite Hl.
Qed.

Lemma ipACL_spec i action x : ipACL i (new_ACLRule action) = inl x ->
  net_plain (ip_SourceNetwork i) -> net_plain (ip_DestinationNetwork i) ->
  l3_only (ip_Protocol i) x /\ ar_IsPermit x = action
  /\ exists n1 n2, rule_network "source" (ip_SourceNetwork i) = inl n1 /\ ar_SrcPrefix x = IPNetToPrefix n1
       /\ rule_network "destination" (ip_DestinationNetwork i) = inl n2 /\ ar_DstPrefix x = IPNetToPrefix n2.
Proof.
  unfold ipACL. destruct (rule_network "source" _) as [n1|] eqn:E1; [|done].
  destruct (rule_network "destination" _) as [n2|] eqn:E2; [|done]. intros H Hp1 Hp2.
  assert (plain_net n1) as Hn1 by (by apply rule_network_parsed in E1 as (ip & E1); apply (Hp1 _ _ E1)).
  destruct (_ || _); [done|]. rewrite (plain_v16 n1 Hn1), orb_true_r in H. cbn in H. injection H as <-.
  split; [done|]. split; [done|]. eauto 10.
Qed.

Lemma zero_network s : s = "" -> equivalentIPRuleNetworks (prefixToString zero_prefix) s = true.
Proof. intros ->. reflexivity. Qed.

Lemma action_reported action :
  exists a, resolveRuleAction (ruleAction action) = inl a /\ (a =? action)%Z = known_action action.
Proof.
  unfold ruleAction, known_action. destruct (Z.eqb_spec action ACL_Rule_DENY) as [->|H0]; [by eexists|].
  destruct (Z.eqb_spec action ACL_Rule_PERMIT) as [->|H1]; [by eexists|].
  destruct (Z.eqb_spec action ACL_Rule_REFLECT) as [->|H2]; [by eexists|].
  exists ACL_Rule_DENY. split; [done|]. rewrite bool_decide_eq_false_2 by set_solver. by apply Z.eqb_neq.
Qed.

Lemma transform_sent action r x : transform_ip_rule action r = inl x -> nets_plain r ->
  exists x0, l4_rule r x0 = inl x /\ l3_only (ip_GetProtocol (rule_Ip r)) x0 /\ ar_IsPermit x = ruleAction action
  /\ (equivalentIPRuleNetworks (prefixToString (ar_SrcPrefix x)) (ip_GetSourceNetwork (rule_Ip r))
       && equivalentIPRuleNetworks (prefixToString (ar_DstPrefix x)) (ip_GetDestinationNetwork (rule_Ip r))
      = match rule_Ip r with Some i => is_network (ip_SourceNetwork i) && is_network (ip_DestinationNetwork i) | None => true end).
Proof.
  intros H Hn. unfold transform_ip_rule in H. unfold nets_plain in Hn. destruct (rule_Ip r) as [i|] eqn:Ei.
  - destruct (ipACL i _) as [x0|] eqn:E; [|done]. destruct (Hn i eq_refl) as [Hn1 Hn2].
    destruct (ipACL_spec _ _ _ E Hn1 Hn2) as (Hl & Ha & n1 & n2 & E1 & P1 & E2 & P2).
    destruct (l4_keeps _ _ _ H) as (K1 & K2 & K3). exists x0. rewrite K1, K2, K3, P1, P2. split_and!; [done..|].
    cbn [ip_GetSourceNetwork ip_GetDestinationNetwork from_option].
    by rewrite (network_reported _ _ _ E1 Hn1), (network_reported _ _ _ E2 Hn2).
  - destruct (l4_keeps _ _ _ H) as (K1 & K2 & K3). eexists. split; [exact H|]. rewrite K1, K2, K3. done.
Qed.

(** The rules that are read back as they were configured. *)
Definition rule_reported (rule : ACL_Rule) : bool :=
  known_action (rule_Action rule)
  && match rule_MacipRule rule with None => true | Some _ => false end
  && match rule_IpRule rule with Some r => ip_reported r | None => false end.

Lemma rule_dumped rule r x : rule_IpRule rule = Some r -> nets_plain r ->
  transform_ip_rule (rule_Action rule) r = inl x ->
  exists d, getIPRuleDetails x = inl d /\ equivalentACLRules d rule = rule_reported rule.
Proof.
  intros Hr Hn H. destruct (transform_sent _ _ _ H Hn) as (x0 & Hl4 & Hl3 & Ha & Hnets).
  destruct (action_reported (rule_Action rule)) as (a & Ea & Eact). unfold getIPRuleDetails. rewrite Ha, Ea.
  eexists. split; [done|]. unfold equivalentACLRules, rule_reported. cbn [rule_Action rule_MacipRule rule_IpRule]. rewrite Eact, Hr.
  destruct (known_action _); [|done]. destruct (rule_MacipRule rule) as [m|].
  { by rewrite bool_decide_eq_false_2. }
  rewrite bool_decide_eq_true_2 by done. cbn [negb andb].
  unfold rule_GetIcmp, rule_GetTcp, rule_GetUdp, rule_GetIp. cbn [mbind option_bind].
  pose proof (l4_dumped _ _ _ Hl3 Hl4) as Hd. unfold ip_reported. rewrite <- Hnets.
  set (d := getIPRuleMatches x) in *.
  assert (ip_GetSourceNetwork (rule_Ip d) = prefixToString (ar_SrcPrefix x)) as -> by done.
  assert (ip_GetDestinationNetwork (rule_Ip d) = prefixToString (ar_DstPrefix x)) as -> by done.
  destruct (equivalentIPRuleNetworks (prefixToString (ar_SrcPrefix x)) _); [|by destruct (_ || _)].
  destruct (equivalentIPRuleNetworks (prefixToString (ar_DstPrefix x)) _); [|by destruct (_ || _)]. cbn [negb andb].
  apply Bool.eq_iff_eq_true. rewrite <- Hd. unfold same_l4.
  repeat case_bool_decide; cbn [negb orb]; try (split; [done|by intros (? & ? & ? & _)]).
  destruct (Z.eqb_spec (ip_GetProtocol (rule_Ip d)) 0), (Z.eqb_spec (ip_GetProtocol (rule_Ip r)) 0),
    (Z.eqb_spec (ip_GetProtocol (rule_Ip d)) (ip_GetProtocol (rule_Ip r))); cbn [negb andb];
    (split; [first [done|intros _; tauto]|first [done|by intros (_ & _ & _ & [?|[?|?]])]]).
Qed.

(** ** What is read back of a rule for hardware addresses *)

(** [addrs.ParseIPWithPrefix]: an address of either form, and whether it is one of
    IPv6. *)
Class IPWithPrefixLaws (ParseIPWithPrefix : string -> IPNet * bool + error) : Prop := {
  with_prefix_parsed : forall s n v6, ParseIPWithPrefix s = inl (n, v6) ->
    (ip_ok 4 (IP n) \/ ip_ok 16 (IP n)) /\ v6 = negb (is_v4 (IP n))
}.

Section macip.
Context (ParseIPWithPrefix : string -> IPNet * bool + error) {PL : IPWithPrefixLaws ParseIPWithPrefix}.

(** A hardware address of six bytes as VPP's answer is printed. *)
Definition mac_canonical (s : string) : bool :=
  match ParseMAC s with Some hw => String.eqb (mac_String (copy_bytes 6 hw)) s | None => false end.

Definition macip_reported (m : ACL_Rule_MacIpRule) : bool :=
  match ParseIPWithPrefix (macip_SourceAddress m) with
  | inl (n, _) => String.eqb (ip_String (IP n)) (macip_SourceAddress m)
  | inr _ => false
  end
  && fits8 (macip_SourceAddressPrefix m)
  && mac_canonical (macip_SourceMacAddress m) && mac_canonical (macip_SourceMacAddressMask m).

Definition macip_rule_reported (rule : ACL_Rule) : bool :=
  known_action (rule_Action rule)
  && match rule_MacipRule rule with Some m => macip_reported m | None => false end.

(** The text of an address is read back of the bytes that were sent. *)
Lemma sent_address ip : ip_ok 4 ip \/ ip_ok 16 ip ->
  ip_String (addressToIP (if negb (is_v4 ip) then MkAddress ADDRESS_IP6 (copy_bytes 16 (To16 ip))
                          else MkAddress ADDRESS_IP4 (copy_bytes 16 (copy_bytes 4 (To4 ip))))) = ip_String ip.
Proof.
  intros Hip. unfold is_v4. destruct (Nat.eqb_spec (length (To4 ip)) 0) as [E|E]; cbn [negb].
  - destruct Hip as [[Hl _]|[Hl _]]; [by rewrite To4_4, Hl in E|].
    assert (To16 ip = ip) as E16 by (unfold To16; by rewrite Hl). unfold addressToIP. cbn [Af Un].
    change (ADDRESS_IP6 =? ADDRESS_IP6)%Z with true. cbv iota.
    by rewrite E16, !(copy_bytes_exact 16 ip), E16 by (rewrite ?copy_bytes_exact; done).
  - assert (length (To4 ip) = 4) as E4.
    { unfold To4 in *. destruct Hip as [[Hl _]|[Hl _]]; rewrite Hl in *; cbn [Nat.eqb andb] in *; [done|].
      destruct (bool_decide _); [by rewrite length_drop, Hl|done]. }
    unfold addressToIP. cbn [Af Un]. change (ADDRESS_IP4 =? ADDRESS_IP6)%Z with false. cbv iota.
    rewrite (copy_bytes_exact 4) by done. rewrite (copy_bytes_exact 16 (copy_bytes 16 _)) by apply length_copy_bytes.
    rewrite take_copy_bytes by (done || lia). rewrite (To4_4 (To4 ip)) by done.
    unfold ip_String. rewrite (To4_4 (To4 ip)) by done. rewrite E4. cbn [Nat.eqb orb negb].
    by destruct Hip as [[Hl _]|[Hl _]]; rewrite Hl.
Qed.

Lemma macip_dumped rule m x : rule_MacipRule rule = Some m -> rule_IpRule rule = None ->
  transform_macip_rule ParseIPWithPrefix (rule_Action rule) m = inl x ->
  exists d, getMACIPRuleDetails x = inl d /\ equivalentACLRules d rule = macip_rule_reported rule.
Proof.
  intros Hm Hr H. unfold transform_macip_rule, IPtoPrefix in H.
  destruct (ParseIPWithPrefix _) as [[n v6]|err] eqn:Ep; [|done]. destruct (with_prefix_parsed _ _ _ Ep) as [Hip ->].
  unfold parse_mac in H. destruct (ParseMAC (macip_SourceMacAddress m)) as [hw|] eqn:E1; [|done].
  destruct (ParseMAC (macip_SourceMacAddressMask m)) as [mask|] eqn:E2; [|done]. injection H as <-.
  destruct (action_reported (rule_Action rule)) as (a & Ea & Eact). unfold getMACIPRuleDetails. cbn [mr_IsPermit]. rewrite Ea.
  eexists. split; [done|]. unfold equivalentACLRules, macip_rule_reported. cbn [rule_Action rule_MacipRule rule_IpRule].
  rewrite Eact, Hm, Hr. destruct (known_action _); [|done]. cbn [negb andb].
  unfold macip_reported, mac_canonical, getMACIPRuleMatches, fits8. rewrite Ep, E1, E2. cbn [mr_SrcPrefix mr_SrcMac mr_SrcMacMask].
  assert (forall b, copy_bytes 6 (copy_bytes 6 b) = copy_bytes 6 b) as Hc by (intros b; apply copy_bytes_exact, length_copy_bytes).
  rewrite !Hc. set (addr := ip_String (addressToIP _)).
  assert (addr = ip_String (IP n)) as ->.
  { unfold addr. rewrite <- (sent_address (IP n) Hip). by destruct (negb (is_v4 (IP n))). }
  assert (pf_Len (MkPrefix (pf_Address (if negb (is_v4 (IP n))
      then MkPrefix (MkAddress ADDRESS_IP6 (copy_bytes 16 (To16 (IP n)))) (uint8 (Mask_Size (Mask n)).1)
      else MkPrefix (MkAddress ADDRESS_IP4 (copy_bytes 16 (copy_bytes 4 (To4 (IP n))))) (uint8 (Mask_Size (Mask n)).1)))
      (uint8 (macip_SourceAddressPrefix m))) = uint8 (macip_SourceAddressPrefix m)) as -> by done.
  destruct m as [sa sp sm smm]. cbn [macip_SourceAddress macip_SourceAddressPrefix macip_SourceMacAddress macip_SourceMacAddressMask].
  assert (forall b : bool, (if negb b then false else true) = b) as Hb by by intros [].
  transitivity (bool_decide (Some (MkMacIpRule (ip_String (IP n)) (uint8 sp) (mac_String (copy_bytes 6 hw)) (mac_String (copy_bytes 6 mask)))
    = Some (MkMacIpRule sa sp sm smm))); [by case_bool_decide|].
  apply Bool.eq_iff_eq_true. rewrite bool_decide_eq_true, !andb_true_iff, Z.eqb_eq, !String.eqb_eq.
  split; [intros E; by injection E|by intros [[[-> ->] ->] ->]].
Qed.
End macip.
End rules.

(** ** What VPP does *)

(** The access lists of VPP by index, with their tags; for each interface the lists
    on ingress and on egress, and the list for L2. *)
Record AclState := MkAclState {
  st_acls : gmap Z (string * list ACLRule);
  st_macips : gmap Z (string * list MacipACLRule);
  st_lists : gmap Z (list Z * list Z);
  st_macip_ifs : gmap Z Z
}.

Definition set_acls (f : gmap Z (string * list ACLRule) -> gmap Z (string * list ACLRule)) (st : AclState) : AclState :=
  MkAclState (f (st_acls st)) (st_macips st) (st_lists st) (st_macip_ifs st).
Definition set_macips (f : gmap Z (string * list MacipACLRule) -> gmap Z (string * list MacipACLRule)) (st : AclState) : AclState :=
  MkAclState (st_acls st) (f (st_macips st)) (st_lists st) (st_macip_ifs st).
Definition set_lists (s : Z) (l : list Z * list Z) (st : AclState) : AclState :=
  MkAclState (st_acls st) (st_macips st) (<[s := l]> (st_lists st)) (st_macip_ifs st).
Definition set_macip_ifs (f : gmap Z Z -> gmap Z Z) (st : AclState) : AclState :=
  MkAclState (st_acls st) (st_macips st) (st_lists st) (f (st_macip_ifs st)).

Definition lists_of (st : AclState) (s : Z) : list Z * list Z := default ([], []) (st_lists st !! s).

(** A tag is kept if it fits. *)
Definition stored (tag tag' : string) : Prop := tag_ok tag -> trim_tag tag' = tag.

(** One of the lists of an interface with an access list added to it or removed
    from it. *)
Definition list_changed (add : bool) (i : Z) (old new : list Z) : Prop :=
  forall j, j ∈ new <-> if add then j = i \/ j ∈ old else j <> i /\ j ∈ old.

(** What a request that succeeds does.  An index of all ones asks for a new list;
    the counts of lists must be right, or at most as large. *)
Inductive acl_step : AclRequest -> AclState -> Z -> AclState -> Prop :=
  | step_acl_add st tag tag' r i : i <> max_uint32 -> st_acls st !! i = None -> stored tag tag' ->
      acl_step (ACLAddReplace max_uint32 tag (Z.of_nat (length r)) r) st i (set_acls <[i := (tag', r)]> st)
  | step_acl_replace st tag tag' r i j : i <> max_uint32 -> is_Some (st_acls st !! i) -> stored tag tag' ->
      acl_step (ACLAddReplace i tag (Z.of_nat (length r)) r) st j (set_acls <[i := (tag', r)]> st)
  | step_macip_add st tag tag' r i : i <> max_uint32 -> st_macips st !! i = None -> stored tag tag' ->
      acl_step (MacipACLAdd tag (Z.of_nat (length r)) r) st i (set_macips <[i := (tag', r)]> st)
  | step_macip_replace st tag tag' r i j : i <> max_uint32 -> is_Some (st_macips st !! i) -> stored tag tag' ->
      acl_step (MacipACLAddReplace i tag (Z.of_nat (length r)) r) st j (set_macips <[i := (tag', r)]> st)
  | step_acl_del st i j : is_Some (st_acls st !! i) -> acl_step (ACLDel i) st j (set_acls (delete i) st)
  | step_macip_del st i j : is_Some (st_macips st !! i) ->
      acl_step (MacipACLDel i) st j (set_macip_ifs (filter (fun kv => kv.2 <> i)) (set_macips (delete i) st))
  | step_ingress st add s i j new : list_changed add i (lists_of st s).1 new ->
      acl_step (ACLInterfaceAddDel add true s i) st j (set_lists s (new, (lists_of st s).2) st)
  | step_egress st add s i j new : list_changed add i (lists_of st s).2 new ->
      acl_step (ACLInterfaceAddDel add false s i) st j (set_lists s ((lists_of st s).1, new) st)
  | step_macip_iface st (add : bool) s i j : (add = true -> is_Some (st_macips st !! i)) ->
      acl_step (MacipACLInterfaceAddDel add s i) st j
        (set_macip_ifs (if add then <[s := i]> else delete s) st)
  | step_set_list st s c n acls j : (c <= Z.of_nat (length acls))%Z ->
      let sent := take (Z.to_nat c) acls in
      acl_step (ACLInterfaceSetACLList s c n acls) st j (set_lists s (take (Z.to_nat n) sent, drop (Z.to_nat n) sent) st).

(** A request that succeeds is such a step; dumps and replies report what there is. *)
Class AclLaws {X : Ext} {CH : AclChannel} := {
  acl_state : World -> AclState;
  vpp_acl_request : forall req w i w', acl_SendRequest req w = (inl i, w') -> acl_step req (acl_state w) i (acl_state w');
  vpp_acl_dump : forall w l, ACLDump max_uint32 w = (l, None) ->
    forall i tag r, MkACLDetails i tag r ∈ l <-> st_acls (acl_state w) !! i = Some (tag, r);
  vpp_macip_dump : forall w l, MacipACLDump max_uint32 w = (l, None) ->
    forall i tag r, MkMacipACLDetails i tag r ∈ l <-> st_macips (acl_state w) !! i = Some (tag, r);
  vpp_list_reply : forall s w d, ACLInterfaceListDump_reply s w = inl d ->
    let l := lists_of (acl_state w) s in
    ail_NInput d = Z.of_nat (length l.1) /\ ail_Acls d = l.1 ++ l.2 /\ length (l.1 ++ l.2) <= 255
}.

(** ** What the calls do *)

Section calls.
Context {X : Ext} {IX : Indexes} {CH : AclChannel} {LA : AclLaws} {MO : MetaOrder}.
Context (ParseIPWithPrefix : string -> IPNet * bool + error) (ifIndexes : Mapping).

Lemma send_acl_done msg req w i w' : send_acl msg req w = (inl i, w') -> acl_step req (acl_state w) i (acl_state w').
Proof. unfold send_acl. destruct (acl_SendRequest req w) as [[j|err] w1] eqn:E; [|done]. intros [= <- <-]. by apply vpp_acl_request. Qed.

Lemma call_acl_done msg req w w' : call_acl msg req w = (None, w') -> exists i, acl_step req (acl_state w) i (acl_state w').
Proof.
  unfold call_acl. destruct (send_acl msg req w) as [[i|err] w1] eqn:E; [|done]. intros [= <-]. exists i. by eapply send_acl_done.
Qed.

(** New and changed access lists. *)
Lemma add_acl_done rules name w i w' : add_acl rules name w = (inl i, w') ->
  exists r tag, transformACLIpRules rules = inl r /\ r <> [] /\ st_acls (acl_state w) !! i = None
    /\ stored name tag /\ acl_state w' = set_acls <[i := (tag, r)]> (acl_state w).
Proof.
  unfold add_acl. destruct (transformACLIpRules rules) as [[|x r]|] eqn:E; [done| |done].
  intros H%send_acl_done. inversion H; subst; [|done]. by eexists _, _.
Qed.

Lemma add_macip_acl_done rules name w i w' : add_macip_acl ParseIPWithPrefix rules name w = (inl i, w') ->
  exists r tag, transformACLMacIPRules ParseIPWithPrefix rules = inl r /\ r <> [] /\ st_macips (acl_state w) !! i = None
    /\ stored name tag /\ acl_state w' = set_macips <[i := (tag, r)]> (acl_state w).
Proof.
  unfold add_macip_acl. destruct (transformACLMacIPRules _ rules) as [[|x r]|] eqn:E; [done| |done].
  intros H%send_acl_done. inversion H; subst. by eexists _, _.
Qed.

Lemma modify_acl_done i rules name w w' : modify_acl i rules name w = (None, w') -> i <> max_uint32 ->
  exists r, transformACLIpRules rules = inl r
    /\ (r = [] /\ w' = w
        \/ r <> [] /\ is_Some (st_acls (acl_state w) !! i)
           /\ exists tag, stored name tag /\ acl_state w' = set_acls <[i := (tag, r)]> (acl_state w)).
Proof.
  unfold modify_acl. destruct (transformACLIpRules rules) as [[|x r]|] eqn:E; [|intros (j & H)%call_acl_done|done].
  - intros [= ->] _. exists []. auto.
  - intros Hi. exists (x :: r). split; [done|]. right. inversion H; subst; [done|]. eauto.
Qed.

Lemma delete_acl_done i w w' : delete_acl i w = (None, w') ->
  is_Some (st_acls (acl_state w) !! i) /\ acl_state w' = set_acls (delete i) (acl_state w).
Proof. intros (j & H)%call_acl_done. by inversion H; subst. Qed.

(** ** Dumps *)

Lemma ip_dump_lookup w m : DumpIPAcls w = (m, None) -> forall i tag r,
  st_acls (acl_state w) !! i = Some (tag, r) -> m !! MkACLMeta i (trim_tag tag) = Some r.
Proof.
  unfold DumpIPAcls. destruct (ACLDump max_uint32 w) as [l [err|]] eqn:E; [done|]. intros [= <-] i tag r Hi.
  pose proof (vpp_acl_dump _ _ E) as Hl.
  destruct (fold_insert_lookup (fun d => MkACLMeta (acd_ACLIndex d) (trim_tag (acd_Tag d))) acd_R l (MkACLMeta i (trim_tag tag)))
    as [H1 H2].
  destruct (H2 (MkACLDetails i tag r) (proj2 (Hl _ _ _) Hi) eq_refl) as [v Hv]. rewrite Hv.
  destruct (H1 v Hv) as ([i' tag' r'] & Hin & [= -> _] & ->). apply Hl in Hin. cbn. congruence.
Qed.

Lemma macip_dump_lookup w m : DumpMacIPAcls w = inl m -> forall i tag r,
  st_macips (acl_state w) !! i = Some (tag, r) -> m !! MkACLMeta i (trim_tag tag) = Some r.
Proof.
  unfold DumpMacIPAcls. destruct (MacipACLDump max_uint32 w) as [l [err|]] eqn:E; [done|]. intros [= <-] i tag r Hi.
  pose proof (vpp_macip_dump _ _ E) as Hl.
  destruct (fold_insert_lookup (fun d => MkACLMeta (mcd_ACLIndex d) (trim_tag (mcd_Tag d))) mcd_R l (MkACLMeta i (trim_tag tag)))
    as [H1 H2].
  destruct (H2 (MkMacipACLDetails i tag r) (proj2 (Hl _ _ _) Hi) eq_refl) as [v Hv]. rewrite Hv.
  destruct (H1 v Hv) as ([i' tag' r'] & Hin & [= -> _] & ->). apply Hl in Hin. cbn. congruence.
Qed.

Lemma acl_rules_elem {R} (details : R -> ACL_Rule + error) (acls : gmap ACLMeta (list R)) l k r :
  acl_rules details acls = inl l -> acls !! k = Some r ->
  exists rules, Forall2 (fun x d => details x = inl d) r rules /\ (k, rules) ∈ l.
Proof.
  unfold acl_rules. intros Hl%try_map_spec Hk.
  assert (k ∈ meta_order (dom acls)) as Hin.
  { rewrite meta_order_perm. apply elem_of_elements. by eapply elem_of_dom_2. }
  apply list_elem_of_lookup in Hin as (n & Hn). destruct (Forall2_lookup_l _ _ _ _ _ Hl Hn) as (e & He & H).
  rewrite Hk in H. change (default [] (Some r)) with r in H. destruct (try_map details r) as [rules|] eqn:E; [|done].
  injection H as <-. apply try_map_spec in E. exists rules. split; [done|]. by eapply list_elem_of_lookup_2.
Qed.

(** An access list as it is dumped. *)
Definition dumped_acl (i : Z) (name : string) (rules : list ACL_Rule) (d : vpp_ACLDetails) : Prop :=
  acl_Name (vad_ACL d) = name /\ acl_Rules (vad_ACL d) = rules /\ vad_Meta d = MkACLMeta i name.

Lemma not_empty_size {R} (m : gmap ACLMeta R) k r : m !! k = Some r -> (size m <? 1) = false /\ (size m =? 0) = false.
Proof.
  intros H. assert (size m <> 0) by (intros E%map_size_empty_inv; rewrite E, lookup_empty in H; done).
  split; [apply Nat.ltb_ge|apply Nat.eqb_neq]; lia.
Qed.

Lemma acl_details_elem {R} (details : R -> ACL_Rule + error) (m : gmap ACLMeta (list R)) l ifs i name r :
  acl_rules details m = inl l -> m !! MkACLMeta i name = Some r ->
  exists rules d, Forall2 (fun x d => details x = inl d) r rules /\ d ∈ map (acl_details ifs) l /\ dumped_acl i name rules d.
Proof.
  intros Hl Hr. destruct (acl_rules_elem _ _ _ _ _ Hl Hr) as (rules & Hrules & Hin).
  exists rules, (acl_details ifs (MkACLMeta i name, rules)). split_and!; [done| |done]. by apply list_elem_of_fmap_2.
Qed.

Lemma dump_acl_elem w l i tag r : dump_acl ifIndexes w = inl l -> st_acls (acl_state w) !! i = Some (tag, r) ->
  exists rules d, Forall2 (fun x d => getIPRuleDetails x = inl d) r rules /\ d ∈ l /\ dumped_acl i (trim_tag tag) rules d.
Proof.
  unfold dump_acl. destruct (DumpIPAcls w) as [m [err|]] eqn:E; [done|]. intros H Hi.
  pose proof (ip_dump_lookup _ _ E _ _ _ Hi) as Hm. destruct (not_empty_size _ _ _ Hm) as [Hs _]. rewrite Hs in H.
  destruct (acl_rules getIPRuleDetails m) as [rl|] eqn:Er; [|done]. destruct (dump_acl_interfaces _ _ w) as [ifs|]; [|done].
  injection H as <-. by eapply acl_details_elem.
Qed.

Lemma dump_macip_acl_elem w l i tag r : dump_macip_acl ifIndexes w = inl l -> st_macips (acl_state w) !! i = Some (tag, r) ->
  exists rules d, Forall2 (fun x d => getMACIPRuleDetails x = inl d) r rules /\ d ∈ l /\ dumped_acl i (trim_tag tag) rules d.
Proof.
  unfold dump_macip_acl. destruct (DumpMacIPAcls w) as [m|] eqn:E; [|done]. intros H Hi.
  pose proof (macip_dump_lookup _ _ E _ _ _ Hi) as Hm. destruct (not_empty_size _ _ _ Hm) as [_ Hs]. rewrite Hs in H.
  destruct (acl_rules getMACIPRuleDetails m) as [rl|] eqn:Er; [|done]. destruct (dump_macip_acl_interfaces _ _ w) as [ifs|]; [|done].
  injection H as <-. by eapply acl_details_elem.
Qed.
End calls.

(** ** A VPP with access lists *)

(** Access lists as they are, in the order of their indexes; the descriptors see
    messages, metadata of interfaces and of access lists, and indexes as maps. *)
Inductive AclValue := AclMsg (a : ACL) | EmptyMsg.
Inductive AclMetadata := AclIfMeta (m : IfaceMetadata) | AclMeta (m : option ACLMetadata).

#[export] Instance AclValue_eq : EqDecision AclValue.
Proof. solve_decision. Defined.

Definition AclIndex : Type := gmap string AclMetadata.

Definition acl_ext : Ext := {|
  Value := AclValue;
  proto_Equal := fun a b => bool_decide (a = b);
  proto_MessageName := fun v => match v with AclMsg _ => "ligato.vpp.acl.ACL" | EmptyMsg => "google.protobuf.Empty" end;
  fmt_v := fun _ => "";
  Metadata := AclMetadata;
  DeepEqual := fun _ _ => false;
  Mapping := AclIndex;
  nm_New := ∅;
  nm_Put := fun m k v => <[k := v]> m;
  nm_Delete := fun m k => delete k m;
  nm_Update := fun m k v => match v with Some v => <[k := v]> m | None => m end;
  nm_GetValue := fun m k => m !! k;
  nm_ListFields := fun m k => [];
  World := AclState;
  netns_escaped := fun _ => false;
  clock_reading := fun n => Z.of_nat n;
  ext_runtime := doubling
|}.

#[local] Existing Instance acl_ext.

Definition acl_meta_index (m : AclMetadata) : option Z :=
  match m with AclIfMeta i => Some (SwIfIndex i) | AclMeta (Some a) => Some (am_Index a) | _ => None end.

#[export] Instance acl_demo_indexes : Indexes := {|
  NewNamedMapping := fun _ => ∅ : AclIndex;
  nm_ListNames := fun (m : AclIndex) f v => (filter (fun e => Itoa <$> acl_meta_index e.2 = Some v) (map_to_list m)).*1;
  as_WithIndex := acl_meta_index;
  as_IfaceMetadata := fun m : AclMetadata => match m with AclIfMeta i => Some i | _ => None end
|}.

#[export] Instance acl_demo_metadata : AclIndexes := {|
  as_ACLMetadata := fun m : @Metadata acl_ext => match m with AclMeta a => Some a | _ => None end;
  of_ACLMetadata := AclMeta : _ -> @Metadata acl_ext
|}.

#[export] Instance acl_demo_types : AclTypes := {|
  acl_ACL := {| as_value := fun v : @Value acl_ext => match v with AclMsg a => Some a | _ => None end; of_value := AclMsg |};
  acl_Empty := EmptyMsg : @Value acl_ext
|}.

#[export] Program Instance elements_order : MetaOrder := {| meta_order := elements |}.
Next Obligation. done. Qed.

(** The address of a text with the mask of its length. *)
Definition with_full_mask (s : string) : IPNet * bool + error :=
  let ip := ParseIP s in
  if length ip =? 0 then inr (Opaque "invalid IP")
  else if length (To4 ip) =? 0 then inl (MkIPNet ip (mask_bytes 16 128), true)
  else inl (MkIPNet (To4 ip) (mask_bytes 4 32), false).

#[export] Instance with_full_mask_laws : IPWithPrefixLaws with_full_mask.
Proof.
  split. intros s n v6. unfold with_full_mask.
  destruct (ParseIP_ok s) as [->|[[Hl Hb] _]]; [done|]. rewrite Hl. cbn [Nat.eqb].
  unfold is_v4, To4. rewrite Hl. cbn [Nat.eqb andb]. destruct (bool_decide _) eqn:Ep; cbn [Nat.eqb length].
  - rewrite length_drop, Hl. cbn [Nat.sub Nat.eqb]. intros [= <- <-]. cbn [IP]. rewrite length_drop, Hl. cbn.
    rewrite length_drop, Hl. split; [left|done]. split; [by rewrite length_drop, Hl|]. by apply Forall_drop.
  - intros [= <- <-]. cbn [IP]. rewrite Hl. cbn [Nat.eqb]. rewrite Ep. split; [right; by split|done].
Qed.

(** *** Requests *)

Definition next_index {R} (m : gmap Z R) : Z := (foldr Z.max (-1) (map_to_list m).*1 + 1)%Z.

Definition acl_error : @error acl_ext := Opaque "VPPApiError".

(** Rules under a new index, or of the list of an index. *)
Definition put_rules {R} (i : option Z) (tag : string) (n : Z) (r : list R) (m : gmap Z (string * list R)) :
    option (Z * gmap Z (string * list R)) :=
  let k := match i with Some i => i | None => next_index m end in
  let known := match m !! k with Some _ => true | None => false end in
  if (n =? Z.of_nat (length r))%Z && negb (k =? max_uint32)%Z && Bool.eqb known (match i with Some _ => true | None => false end)
  then Some (k, <[k := (tag, r)]> m) else None.

Definition change_list (add : bool) (i : Z) (l : list Z) : list Z :=
  let rest := filter (fun j => j <> i) l in if add then i :: rest else rest.

Definition acl_request (req : AclRequest) (st : AclState) : (Z + @error acl_ext) * AclState :=
  let answer {R} (m : option (Z * R)) (f : R -> AclState) :=
    match m with Some (k, m) => (inl k, f m) | None => (inr acl_error, st) end in
  let known {R} (m : gmap Z R) i := match m !! i with Some _ => true | None => false end in
  match req with
  | ACLAddReplace i tag n r =>
      answer (put_rules (if (i =? max_uint32)%Z then None else Some i) tag n r (st_acls st)) (fun m => set_acls (fun _ => m) st)
  | MacipACLAdd tag n r => answer (put_rules None tag n r (st_macips st)) (fun m => set_macips (fun _ => m) st)
  | MacipACLAddReplace i tag n r => answer (put_rules (Some i) tag n r (st_macips st)) (fun m => set_macips (fun _ => m) st)
  | ACLDel i => if known (st_acls st) i then (inl 0%Z, set_acls (delete i) st) else (inr acl_error, st)
  | MacipACLDel i =>
      if known (st_macips st) i
      then (inl 0%Z, set_macip_ifs (filter (fun kv => kv.2 <> i)) (set_macips (delete i) st)) else (inr acl_error, st)
  | ACLInterfaceAddDel add input s i =>
      let l := lists_of st s in
      (inl 0%Z, set_lists s (if input then (change_list add i l.1, l.2) else (l.1, change_list add i l.2)) st)
  | MacipACLInterfaceAddDel add s i =>
      if negb add || known (st_macips st) i then (inl 0%Z, set_macip_ifs (if add then <[s := i]> else delete s) st)
      else (inr acl_error, st)
  | ACLInterfaceSetACLList s c n acls =>
      if (c <=? Z.of_nat (length acls))%Z then
        let sent := take (Z.to_nat c) acls in
        (inl 0%Z, set_lists s (take (Z.to_nat n) sent, drop (Z.to_nat n) sent) st)
      else (inr acl_error, st)
  end.

Definition list_reply (s : Z) (st : AclState) : ACLInterfaceListDetails + @error acl_ext :=
  let l := lists_of st s in
  if length (l.1 ++ l.2) <=? 255
  then inl (MkACLInterfaceList s (Z.of_nat (length (l.1 ++ l.2))) (Z.of_nat (length l.1)) (l.1 ++ l.2)) else inr acl_error.

#[export] Instance acl_channel : AclChannel (X := acl_ext) := {|
  acl_SendRequest := acl_request;
  ACLDump_reply := fun i (st : @World acl_ext) => match st_acls st !! i with Some (tag, r) => inl (MkACLDetails i tag r) | None => inr acl_error end;
  MacipACLDump_reply := fun i (st : @World acl_ext) => match st_macips st !! i with Some (tag, r) => inl (MkMacipACLDetails i tag r) | None => inr acl_error end;
  ACLInterfaceListDump_reply := list_reply;
  MacipACLInterfaceListDump_reply := fun s (st : @World acl_ext) =>
    inl (match st_macip_ifs st !! s with Some i => MkMacipInterfaceList s 1 [i] | None => MkMacipInterfaceList s 0 [] end);
  ACLDump := fun _ (st : @World acl_ext) => (map (fun e => MkACLDetails e.1 e.2.1 e.2.2) (map_to_list (st_acls st)), None);
  MacipACLDump := fun _ (st : @World acl_ext) => (map (fun e => MkMacipACLDetails e.1 e.2.1 e.2.2) (map_to_list (st_macips st)), None);
  ACLInterfaceListDump := fun _ (st : @World acl_ext) =>
    (map (fun e => MkACLInterfaceList e.1 (Z.of_nat (length (e.2.1 ++ e.2.2))) (Z.of_nat (length e.2.1)) (e.2.1 ++ e.2.2))
       (map_to_list (st_lists st)), None);
  MacipACLInterfaceListDump := fun _ (st : @World acl_ext) =>
    (map (fun e => MkMacipInterfaceList e.1 1 [e.2]) (map_to_list (st_macip_ifs st)), None)
|}.

(** *** The laws *)

Lemma put_rules_done {R} i tag n (r : list R) m k m' : put_rules i tag n r m = Some (k, m') ->
  n = Z.of_nat (length r) /\ k <> max_uint32 /\ m' = <[k := (tag, r)]> m
  /\ match i with Some j => k = j /\ is_Some (m !! k) | None => m !! k = None end.
Proof.
  unfold put_rules. destruct (_ && _ && _) eqn:E; [|done]. intros [= <- <-].
  apply andb_true_iff in E as [[E1%Z.eqb_eq E2%negb_true_iff%Z.eqb_neq]%andb_true_iff E3%Bool.eqb_prop].
  split_and!; [done..|]. destruct i as [j|]; [split; [done|]|]; destruct (m !! _) eqn:E; done.
Qed.

Lemma tag_stored tag : stored tag tag.
Proof. intros [_ H]. by apply Trim_none. Qed.

Lemma change_list_changed add i l : list_changed add i l (change_list add i l).
Proof.
  intros j. unfold change_list. destruct add; [rewrite elem_of_cons|]; rewrite list_elem_of_filter; [|done].
  destruct (decide (j = i)); tauto.
Qed.

Lemma acl_request_step req st i st' : acl_request req st = (inl i, st') -> acl_step req st i st'.
Proof.
  destruct req as [j tag n r|tag n r|j tag n r|j|j|add input s j|add s j|s c n acls]; cbn [acl_request]; cbv zeta.
  - destruct (put_rules _ tag n r _) as [[k m]|] eqn:E; [|done]. intros [= <- <-].
    apply put_rules_done in E as (-> & Hk & -> & H). destruct (Z.eqb_spec j max_uint32) as [->|Hj].
    + by apply step_acl_add; [..|apply tag_stored].
    + destruct H as [-> H]. by apply step_acl_replace; [..|apply tag_stored].
  - destruct (put_rules _ tag n r _) as [[k m]|] eqn:E; [|done]. intros [= <- <-].
    apply put_rules_done in E as (-> & Hk & -> & H). by apply step_macip_add; [..|apply tag_stored].
  - destruct (put_rules _ tag n r _) as [[k m]|] eqn:E; [|done]. intros [= <- <-].
    apply put_rules_done in E as (-> & Hk & -> & -> & H). by apply step_macip_replace; [..|apply tag_stored].
  - destruct (st_acls st !! j) eqn:E; [|done]. intros [= <- <-]. apply step_acl_del. by eexists.
  - destruct (st_macips st !! j) eqn:E; [|done]. intros [= <- <-]. apply step_macip_del. by eexists.
  - intros [= <- <-]. destruct input; [apply step_ingress|apply step_egress]; apply change_list_changed.
  - destruct (_ || _) eqn:E; [|done]. intros [= <- <-]. apply step_macip_iface. intros ->. cbn in E.
    destruct (st_macips st !! j); [by eexists|done].
  - destruct (Z.leb_spec c (Z.of_nat (length acls))); [|done]. intros [= <- <-]. by apply step_set_list.
Qed.

#[export] Instance acl_demo_laws : AclLaws (X := acl_ext).
Proof.
  refine {| acl_state := fun w : @World acl_ext => w : AclState |}.
  - exact acl_request_step.
  - cbn. intros w l [= <-] i tag r. rewrite list_elem_of_fmap. split.
    + intros ([k [t rs]] & [= -> -> ->] & H). by apply elem_of_map_to_list in H.
    + intros H. exists (i, (tag, r)). split; [done|]. by apply elem_of_map_to_list.
  - cbn. intros w l [= <-] i tag r. rewrite list_elem_of_fmap. split.
    + intros ([k [t rs]] & [= -> -> ->] & H). by apply elem_of_map_to_list in H.
    + intros H. exists (i, (tag, r)). split; [done|]. by apply elem_of_map_to_list.
  - intros s w d. cbn. unfold list_reply. destruct (Nat.leb_spec (length ((lists_of w s).1 ++ (lists_of w s).2)) 255); [|done].
    by intros [= <-].
Defined.
