(* ===== verification/VppAclFacts.v ===== *)
(** * The ACL plugin: rules, updates and assignments

    Created access lists are read back with the rules that are reported; what an
    update does to VPP's lists; how the lists of interfaces change, and that the keys
    of assignments lead there. *)
From S2P Require Import Prelude GoStrings GoNet GoNetFacts GoNetText GoNetTextFacts Models VppModels Api Adapter NameToIndex.
From S2P Require Import ModelFacts AgentModels.
From S2P Require Import VppBinapi VppAclProto VppAclCalls VppAcl VppAclTable.

#[local] Opaque acl_Key.

(** ** Lists of rules *)

Section rules.
Context {X : Ext}.

Lemma filter_length_all {A} (f : A -> bool) l : length (List.filter f l) = length l <-> forallb f l = true.
Proof.
  induction l as [|x l IH]; [done|]. cbn [List.filter forallb]. pose proof (filter_length_le f l).
  destruct (f x); cbn [length andb]; [rewrite <- IH; lia|]. split; [lia|done].
Qed.

Lemma filter_id {A} (f : A -> bool) l : forallb f l = true -> List.filter f l = l.
Proof. induction l as [|x l IH]; [done|]. cbn. intros [-> H]%andb_true_iff. by rewrite IH. Qed.

Lemma forallb_weaken {A} (f g : A -> bool) l : (forall x, f x = true -> g x = true) -> forallb f l = true -> forallb g l = true.
Proof. intros H. rewrite !forallb_forall. auto. Qed.

(** The rules of a kind as they were sent and dumped are equivalent to the
    configured ones exactly if all of these are of the kind and reported. *)
Lemma rules_reported {R} (transform : ACL_Rule -> R + error) (details : R -> ACL_Rule + error)
    (kind reported : ACL_Rule -> bool) (rules : list ACL_Rule) (r : list R) (ds : list ACL_Rule) (name : string) key acl d :
  (forall rule x, rule ∈ rules -> kind rule = true -> transform rule = inl x ->
     exists d, details x = inl d /\ equivalentACLRules d rule = reported rule) ->
  (forall rule, reported rule = true -> kind rule = true) ->
  Forall2 (fun rule x => transform rule = inl x) (List.filter kind rules) r ->
  Forall2 (fun x d => details x = inl d) r ds ->
  acl_Rules acl = rules -> acl_Rules d = ds -> acl_Name d = acl_Name acl ->
  EquivalentACLs key d acl = forallb reported rules.
Proof.
  intros Hd Hk Hr Hds Ha Hdr Hn. unfold EquivalentACLs. rewrite Hn, Ha, Hdr, String.eqb_refl. cbn [negb].
  pose proof (Forall2_length _ _ _ Hr) as L1. pose proof (Forall2_length _ _ _ Hds) as L2.
  destruct (Nat.eqb_spec (length ds) (length rules)) as [L|L]; cbn [negb].
  - assert (forallb kind rules = true) as Hall by (apply filter_length_all; lia). rewrite (filter_id _ _ Hall) in Hr.
    clear -Hd Hr Hds Hall. revert r ds Hr Hds. induction rules as [|rule rules IH]; intros r ds Hr Hds.
    + apply Forall2_nil_inv_l in Hr as ->. by apply Forall2_nil_inv_l in Hds as ->.
    + apply Forall2_cons_inv_l in Hr as (x & r' & Hx & Hr & ->).
      apply Forall2_cons_inv_l in Hds as (e & ds' & He & Hds & ->). cbn [forallb] in Hall. apply andb_true_iff in Hall as [Hk1 Hall].
      destruct (Hd rule x (list_elem_of_here _ _) Hk1 Hx) as (e' & He' & Heq). assert (e' = e) as -> by congruence.
      cbn [equivalent_rules forallb]. rewrite Heq. destruct (reported rule); [|done]. cbn [negb andb].
      apply (IH ltac:(intros ? ? ?; apply Hd; by apply list_elem_of_further) Hall r'); done.
  - symmetry. apply not_true_iff_false. intros Hrep%(forallb_weaken _ kind); [|done]. apply L.
    apply filter_length_all in Hrep. lia.
Qed.


Definition sent_ip_rule (rule : ACL_Rule) : ACLRule + error :=
  match rule_IpRule rule with Some r => transform_ip_rule (rule_Action rule) r | None => inr (errorf "") end.
Definition sent_macip_rule (P : string -> IPNet * bool + error) (rule : ACL_Rule) : MacipACLRule + error :=
  match rule_MacipRule rule with Some m => transform_macip_rule P (rule_Action rule) m | None => inr (errorf "") end.

Lemma ip_rules_sent rules r : transformACLIpRules (List.filter has_ip rules) = inl r ->
  Forall2 (fun rule x => sent_ip_rule rule = inl x) (List.filter has_ip rules) r.
Proof.
  unfold transformACLIpRules. intros H%try_map_spec. revert r H. induction rules as [|rule rules IH]; intros r; cbn; [by intros ->%Forall2_nil_inv_l|].
  destruct (has_ip rule) eqn:Eh; unfold has_ip in Eh; destruct (rule_IpRule rule) as [i|] eqn:E; try done; [|apply IH]. cbn. rewrite E. cbn.
  intros (x & r' & Hx & H & ->)%Forall2_cons_inv_l. constructor; [unfold sent_ip_rule; by rewrite E|by apply IH].
Qed.

Lemma macip_rules_sent P rules r : transformACLMacIPRules P (List.filter has_macip rules) = inl r ->
  Forall2 (fun rule x => sent_macip_rule P rule = inl x) (List.filter has_macip rules) r.
Proof.
  unfold transformACLMacIPRules. intros H%try_map_spec. revert r H. induction rules as [|rule rules IH]; intros r; cbn; [by intros ->%Forall2_nil_inv_l|].
  destruct (has_macip rule) eqn:Eh; unfold has_macip in Eh; destruct (rule_MacipRule rule) as [i|] eqn:E; try done; [|apply IH]. cbn. rewrite E. cbn.
  intros (x & r' & Hx & H & ->)%Forall2_cons_inv_l. constructor; [unfold sent_macip_rule; by rewrite E|by apply IH].
Qed.
End rules.

(** ** Access lists *)

Section lists.
Context {X : Ext} {IX : Indexes} {AX : AclIndexes} {AT : AclTypes} {CH : AclChannel} {LA : AclLaws} {MO : MetaOrder}.
Context (ParseIPWithPrefix : string -> IPNet * bool + error) {PL : IPWithPrefixLaws ParseIPWithPrefix}.
Context (ifIndexes : Mapping).

Abbreviation handler := (NewACLVppHandler ParseIPWithPrefix ifIndexes).

(** The rules that are read back as configured, of a list for L2 or not. *)
Definition reported_in (l2 : bool) (rule : ACL_Rule) : bool :=
  if l2 then macip_rule_reported ParseIPWithPrefix rule else rule_reported rule.

(** The networks of the rules of a list are plain. *)
Definition acl_plain (acl : ACL) : Prop :=
  forall rule r, rule ∈ acl_Rules acl -> rule_IpRule rule = Some r -> nets_plain r.

Lemma validateRules_eq name rules :
  validateRules name rules = (if existsb has_ip rules then List.filter has_ip rules else List.filter has_macip rules,
                              negb (existsb has_ip rules)).
Proof.
  unfold validateRules. assert ((0 <? length (List.filter has_ip rules)) = existsb has_ip rules) as ->.
  { induction rules as [|r rules IH]; [done|]. cbn. by destruct (has_ip r). }
  destruct (existsb has_ip rules); [|done]. by destruct (_ && _).
Qed.

Lemma no_ip rules : existsb has_ip rules = false -> forall rule, rule ∈ rules -> rule_IpRule rule = None.
Proof.
  intros H rule Hin. destruct (rule_IpRule rule) eqn:E; [|done]. exfalso. apply not_true_iff_false in H. apply H.
  apply existsb_exists. exists rule. split; [by apply list_elem_of_In|]. unfold has_ip. by rewrite E.
Qed.

Lemma rule_reported_ip rule : rule_reported rule = true -> has_ip rule = true.
Proof. unfold rule_reported, has_ip. by destruct (rule_IpRule rule), (known_action _ && _). Qed.

Lemma macip_rule_reported_macip rule : macip_rule_reported ParseIPWithPrefix rule = true -> has_macip rule = true.
Proof. unfold macip_rule_reported, has_macip. by destruct (rule_MacipRule rule), (known_action _). Qed.

(** C17: An access list that was created is read back under its own key with the
    metadata of its creation: the index at which VPP keeps the rules that were sent,
    which was free before, and whether it is a list for L2.  It is equivalent to the
    configured list exactly if each configured rule is reported: a rule of a list
    for L3 and L4 has a known action, both networks are networks rather than
    addresses within one (or there is no part for IP), exactly the part that its
    protocol asks for, ports, types and flags that fit into their fields, and no
    part for L2; a rule of a list for L2 has a known action and texts in canonical
    form.  Lists with other rules are accepted by Create, and are changed again by
    every resync.  It is assumed that the name of the list has less than 64
    characters and no zero byte, and that no network of a rule is an IPv4 network
    written as an IPv6 one. *)
Theorem acl_create_retrieve (key : string) (acl : ACL) (md : option ACLMetadata) (w w1 w2 : World)
    (correlate kvs : list (TypedKVWithMetadata ACL (option ACLMetadata))) :
  acl_Create handler key acl w = ((md, None), w1) -> acl_Retrieve handler correlate w1 = ((kvs, None), w2) ->
  tag_ok (acl_Name acl) -> acl_plain acl ->
  exists i configured,
    let l2 := negb (existsb has_ip (acl_Rules acl)) in
    md = Some (MkACLMetadata i l2)
    /\ (if l2 then st_macips (acl_state w) !! i = None else st_acls (acl_state w) !! i = None)
    /\ MkTypedKV (acl_Key (acl_Name acl)) configured md FromNB ∈ kvs
    /\ EquivalentACLs key configured acl = forallb (reported_in l2) (acl_Rules acl).
Proof.
  intros Hc Hr Htag Hplain. unfold acl_Create in Hc. destruct (length (acl_Rules acl) =? 0); [done|].
  rewrite validateRules_eq in Hc. unfold acl_Retrieve in Hr. cbn [DumpACL DumpMACIPACL AddACL AddMACIPACL NewACLVppHandler] in *.
  destruct (dump_acl ifIndexes w1) as [ips|] eqn:Ei; [|done]. destruct (dump_macip_acl ifIndexes w1) as [macips|] eqn:Em; [|done].
  injection Hr as <- _. destruct (existsb has_ip (acl_Rules acl)) eqn:Ek; cbn [negb] in *.
  - destruct (add_acl _ _ w) as [[i|] w'] eqn:E; [|done]. injection Hc as <- <-.
    apply add_acl_done in E as (r & tag & Hsent & _ & Hfree & Hst & Hstate).
    assert (st_acls (acl_state w') !! i = Some (tag, r)) as Hi by (rewrite Hstate; apply lookup_insert_eq).
    destruct (dump_acl_elem _ _ _ _ _ _ Ei Hi) as (ds & d & Hds & Hin & Hname & Hrules & Hmeta). rewrite (Hst Htag) in *.
    exists i, (vad_ACL d). split_and!; [done|done| |].
    + apply elem_of_app. left. apply list_elem_of_fmap. exists d. split; [|done]. unfold retrieved_acl. by rewrite Hname, Hmeta.
    + eapply (rules_reported sent_ip_rule getIPRuleDetails has_ip); try done; [|exact rule_reported_ip|by apply ip_rules_sent].
      intros rule x Hrule _ Hx. unfold sent_ip_rule in Hx. destruct (rule_IpRule rule) as [ir|] eqn:E; [|done].
      eapply rule_dumped; [done|by eapply Hplain|done].
  - destruct (add_macip_acl _ _ _ w) as [[i|] w'] eqn:E; [|done]. injection Hc as <- <-.
    apply add_macip_acl_done in E as (r & tag & Hsent & _ & Hfree & Hst & Hstate).
    assert (st_macips (acl_state w') !! i = Some (tag, r)) as Hi by (rewrite Hstate; apply lookup_insert_eq).
    destruct (dump_macip_acl_elem _ _ _ _ _ _ Em Hi) as (ds & d & Hds & Hin & Hname & Hrules & Hmeta). rewrite (Hst Htag) in *.
    exists i, (vad_ACL d). split_and!; [done|done| |].
    + apply elem_of_app. right. apply list_elem_of_fmap. exists d. split; [|done]. unfold retrieved_acl. by rewrite Hname, Hmeta.
    + eapply (rules_reported (sent_macip_rule ParseIPWithPrefix) getMACIPRuleDetails has_macip); try done;
        [|exact macip_rule_reported_macip|by apply macip_rules_sent].
      intros rule x Hrule _ Hx. unfold sent_macip_rule in Hx. destruct (rule_MacipRule rule) as [m|] eqn:E; [|done].
      eapply macip_dumped; [done..| |done]. by eapply no_ip.
Qed.

Lemma only_l2 rules : forall b, (forall rule, rule ∈ rules -> rule_IpRule rule = None) -> l2_before_ip b rules = false.
Proof.
  induction rules as [|rule rules IH]; intros b H; [done|]. cbn [l2_before_ip].
  assert (has_ip rule = false) as -> by (unfold has_ip; by rewrite (H rule) by left).
  destruct (has_macip rule); apply IH; intros r Hr; apply H; by right.
Qed.

Lemma ip_rules_not_empty rules r : existsb has_ip rules = true -> transformACLIpRules (List.filter has_ip rules) = inl r -> r <> [].
Proof.
  intros H Hr%ip_rules_sent ->. apply Forall2_nil_inv_r in Hr. apply existsb_exists in H as (x & Hin & Hx).
  assert (x ∈ List.filter has_ip rules) as Hx' by (rewrite list_elem_of_In; by apply filter_In).
  rewrite Hr in Hx'. by apply elem_of_nil in Hx'.
Qed.

(** C18: When the rules of a list for L2 are replaced by rules that include some for
    L3 or L4, nothing asks for the list to be created anew, and the update crosses
    the two kinds of lists, which VPP numbers separately.  If it succeeds, the
    rules replaced those of the list for L3 and L4 that happened to have the same
    index, whosever it was; the list for L2 is still in VPP, and no metadata refers
    to it any more: they are now those of the list that was overwritten, which the
    removal of the access list will delete, while VPP keeps the list for L2. *)
Theorem acl_update_overwrites (key key' : string) (oldACL newACL acl' : ACL) (i : Z) (md : option ACLMetadata)
    (e : string * list MacipACLRule) (w w1 w2 w3 : World) :
  existsb has_ip (acl_Rules oldACL) = false -> existsb has_ip (acl_Rules newACL) = true ->
  i <> max_uint32 -> st_macips (acl_state w) !! i = Some e ->
  acl_Update handler key oldACL newACL (Some (MkACLMetadata i true)) w = ((md, None), w1) ->
  acl_state w2 = acl_state w1 -> acl_Delete handler key' acl' md w2 = (None, w3) ->
  acl_UpdateWithRecreate key oldACL newACL (Some (MkACLMetadata i true)) = false
  /\ md = Some (MkACLMetadata i false)
  /\ (exists other tag r, st_acls (acl_state w) !! i = Some other /\ stored (acl_Name newACL) tag
      /\ transformACLIpRules (List.filter has_ip (acl_Rules newACL)) = inl r
      /\ st_acls (acl_state w1) = <[i := (tag, r)]> (st_acls (acl_state w)))
  /\ st_macips (acl_state w1) !! i = Some e
  /\ st_acls (acl_state w3) = delete i (st_acls (acl_state w))
  /\ st_macips (acl_state w3) !! i = Some e.
Proof.
  intros Hold Hnew Hi He Hu Hst Hd. unfold acl_Update in Hu. rewrite validateRules_eq, Hnew in Hu. cbn [negb am_Index] in Hu.
  cbn [ModifyACL NewACLVppHandler] in Hu. destruct (modify_acl _ _ _ w) as [[err|] w1'] eqn:E; [done|]. injection Hu as <- <-.
  destruct (modify_acl_done _ _ _ _ _ E Hi) as (r & Hr & [[Hnil _]|(_ & [other Ho] & tag & Htag & Hs)]);
    [by apply ip_rules_not_empty in Hr|].
  unfold acl_Delete in Hd. cbn [am_L2 am_Index DeleteACL NewACLVppHandler] in Hd.
  destruct (delete_acl i w2) as [[err|] w3'] eqn:Ed; [done|]. injection Hd as <-. apply delete_acl_done in Ed as [_ Hs'].
  split_and!; [|done| |by rewrite Hs| |by rewrite Hs', Hst, Hs].
  - apply only_l2. intros rule Hin. by eapply no_ip.
  - exists other, tag, r. by rewrite Hs.
  - rewrite Hs', Hst, Hs. cbn. apply delete_insert_eq.
Qed.
End lists.

(** ** The lists of interfaces *)

(** What the calls mean: an access list in front of those on ingress or behind those
    on egress, or all of its occurrences there removed. *)
Definition acl_added (i : Z) (ingress : bool) (l : list Z * list Z) : list Z * list Z :=
  if ingress then (i :: l.1, l.2) else (l.1, l.2 ++ [i]).
Definition acl_removed (i : Z) (ingress : bool) (l : list Z * list Z) : list Z * list Z :=
  if ingress then (filter (fun a => a <> i) l.1, l.2) else (l.1, filter (fun a => a <> i) l.2).

(** A change of the lists of each of some interfaces. *)
Definition on_lists (f : list Z * list Z -> list Z * list Z) (ifs : list Z) (st : AclState) : AclState :=
  fold_left (fun st s => set_lists s (f (lists_of st s)) st) ifs st.

Section interfaces.
Context {X : Ext} {IX : Indexes} {CH : AclChannel} {LA : AclLaws} {MO : MetaOrder}.
Context (ParseIPWithPrefix : string -> IPNet * bool + error) (ifIndexes : Mapping).

Abbreviation handler := (NewACLVppHandler ParseIPWithPrefix ifIndexes).

Lemma without_acl_app i ingress n idx l1 l2 :
  without_acl i ingress n idx (l1 ++ l2)
  = let r1 := without_acl i ingress n idx l1 in
    let r2 := without_acl i ingress n (idx + Z.of_nat (length l1)) l2 in (r1.1 ++ r2.1, (r1.2 + r2.2)%Z).
Proof.
  revert idx. induction l1 as [|a l1 IH]; intros idx.
  - cbn. rewrite Z.add_0_r. by destruct (without_acl _ _ _ _ l2).
  - cbn [app without_acl]. rewrite IH. cbv zeta.
    replace (idx + Z.of_nat (length (a :: l1)))%Z with (idx + 1 + Z.of_nat (length l1))%Z by (cbn [length]; lia).
    destruct (without_acl i ingress n (idx + 1) l1) as [r1 m1]. destruct (without_acl _ _ _ _ l2) as [r2 m2]. cbn [fst snd].
    destruct (_ || _); cbn [fst snd app]; f_equal; lia.
Qed.

(** The positions of a flow, and those of the other one. *)
Lemma without_acl_here i (ingress : bool) n idx l :
  (if ingress then idx + Z.of_nat (length l) <= n else n <= idx)%Z ->
  without_acl i ingress n idx l = (filter (fun a => a <> i) l, Z.of_nat (length l) - Z.of_nat (length (filter (fun a => a <> i) l)))%Z.
Proof.
  revert idx. induction l as [|a l IH]; intros idx H; [done|]. cbn [without_acl length] in *.
  rewrite IH by (destruct ingress; lia).
  assert ((ingress && (n <=? idx)%Z) || (negb ingress && (idx <? n)%Z) = false) as Hc.
  { destruct ingress; cbn [andb orb negb]; [rewrite orb_false_r; apply Z.leb_gt; lia|apply Z.ltb_ge; lia]. }
  rewrite <- orb_assoc, Hc, orb_false_r. rewrite filter_cons. destruct (Z.eqb_spec a i) as [->|Hne]; cbn [negb].
  - rewrite decide_False by auto. f_equal. lia.
  - rewrite decide_True by done. cbn [length]. f_equal. lia.
Qed.

Lemma without_acl_other i (ingress : bool) n idx l :
  (if ingress then n <= idx else idx + Z.of_nat (length l) <= n)%Z -> without_acl i ingress n idx l = (l, 0%Z).
Proof.
  revert idx. induction l as [|a l IH]; intros idx H; [done|]. cbn [without_acl length] in *.
  rewrite IH by (destruct ingress; lia).
  assert ((ingress && (n <=? idx)%Z) || (negb ingress && (idx <? n)%Z) = true) as Hc.
  { destruct ingress; cbn [andb orb negb]; [rewrite orb_false_r; apply Z.leb_le; lia|apply Z.ltb_lt; lia]. }
  by rewrite <- orb_assoc, Hc, orb_true_r.
Qed.

(** Both lists of an interface without an access list in one of them. *)
Lemma without_acl_lists i ingress (l : list Z * list Z) :
  let n := Z.of_nat (length l.1) in let l' := acl_removed i ingress l in
  without_acl i ingress n 0 (l.1 ++ l.2)
  = (l'.1 ++ l'.2, Z.of_nat (length (l.1 ++ l.2)) - Z.of_nat (length (l'.1 ++ l'.2)))%Z.
Proof.
  cbv zeta. rewrite without_acl_app. cbv zeta. rewrite Z.add_0_l. destruct ingress; cbn [acl_removed fst snd].
  - rewrite without_acl_here, without_acl_other by lia. cbn [fst snd]. rewrite !length_app. f_equal. lia.
  - rewrite without_acl_other, without_acl_here by lia. cbn [fst snd]. rewrite !length_app. f_equal. lia.
Qed.

Lemma send_acl_list_done s n acls w w' : send_acl_list s n acls w = (None, w') -> length acls <= 255 ->
  acl_state w' = set_lists s (take (Z.to_nat n) acls, drop (Z.to_nat n) acls) (acl_state w).
Proof.
  unfold send_acl_list. destruct (acl_SendRequest _ w) as [[j|err] w1] eqn:E; [|done]. intros [= <-] Hl.
  apply vpp_acl_request in E. inversion E; subst.
  assert (sent = acls) as -> by (unfold sent, uint8; rewrite Z.mod_small, Nat2Z.id by lia; apply firstn_all). done.
Qed.

Lemma small_uint8 z : (0 <= z <= 255)%Z -> uint8 z = z.
Proof. intros H. apply Z.mod_small. lia. Qed.

Lemma lists_of_set s s' l st : lists_of (set_lists s l st) s' = if decide (s = s') then l else lists_of st s'.
Proof.
  unfold lists_of, set_lists. cbn [st_lists]. destruct (decide (s = s')) as [<-|]; [by rewrite lookup_insert_eq|].
  by rewrite lookup_insert_ne.
Qed.

Lemma set_lists_done i ingress ifs w w' :
  (forall s, s ∈ ifs ->
     length ((lists_of (acl_state w) s).1 ++ (lists_of (acl_state w) s).2) + length (filter (fun s0 => s0 = s) ifs) <= 255) ->
  requestSetACLToInterfaces i ifs ingress w = (None, w') -> acl_state w' = on_lists (acl_added i ingress) ifs (acl_state w).
Proof.
  unfold requestSetACLToInterfaces. revert w. induction ifs as [|s ifs IH]; intros w Hl; cbn [call_each]; [by intros [= <-]|].
  destruct (ACLInterfaceListDump_reply s w) as [d|err] eqn:Ed; [|done]. destruct (vpp_list_reply _ _ _ Ed) as (Hn & Ha & _).
  pose proof (Hl s ltac:(left)) as Hs. rewrite filter_cons_True in Hs by done. cbn [length] in Hs.
  set (l := lists_of (acl_state w) s) in *. rewrite Hn, Ha. clear Ed Hn Ha d. rewrite length_app in Hs.
  assert (forall r w1, (if ingress then send_acl_list s (uint8 (Z.of_nat (length l.1) + 1)) (i :: l.1 ++ l.2) w
      else send_acl_list s (Z.of_nat (length l.1)) ((l.1 ++ l.2) ++ [i]) w) = (r, w1) -> r = None ->
    acl_state w1 = set_lists s (acl_added i ingress l) (acl_state w)) as Hsend.
  { intros r w1 H ->. destruct ingress.
    - rewrite small_uint8 in H by lia. apply send_acl_list_done in H; [|cbn; rewrite length_app; lia]. rewrite H.
      replace (Z.to_nat (Z.of_nat (length l.1) + 1)) with (S (length l.1)) by lia. cbn [take drop]. by rewrite take_app_length, drop_app_length.
    - apply send_acl_list_done in H; [|rewrite !length_app; cbn; lia]. rewrite H, Nat2Z.id, <- app_assoc.
      by rewrite take_app_length, drop_app_length. }
  destruct (if ingress then _ else _) as [[err|] w1] eqn:E; [done|]. specialize (Hsend _ _ eq_refl eq_refl).
  intros H. cbn [on_lists fold_left]. fold l. rewrite <- Hsend. apply IH; [|exact H]. intros s' Hs'.
  pose proof (Hl s' ltac:(by right)) as Hl'. rewrite Hsend, lists_of_set. destruct (decide (s = s')) as [<-|Hne]; [|by rewrite filter_cons_False in Hl' by done].
  rewrite filter_cons_True in Hl' by done. cbn [length] in Hl'. fold l in Hl'. rewrite length_app in *.
  destruct ingress; cbn [acl_added fst snd length]; rewrite ?length_app; cbn [length]; lia.
Qed.

(** An error of an earlier interface is returned in the end. *)
Lemma remove_error_kept i ingress ifs err w w1 : requestRemoveInterfacesFromACL i ingress (Some err) ifs w <> (None, w1).
Proof.
  revert err w. induction ifs as [|s ifs IH]; intros err w; cbn [requestRemoveInterfacesFromACL]; [done|].
  destruct (ACLInterfaceListDump_reply s w) as [d|]; [|done]. destruct (without_acl _ _ _ _ _) as [acls removed].
  destruct (send_acl_list _ _ _ w) as [[e|] w2]; apply IH.
Qed.

Lemma remove_lists_done i ingress ifs err w w' : err = None ->
  requestRemoveInterfacesFromACL i ingress err ifs w = (None, w') -> acl_state w' = on_lists (acl_removed i ingress) ifs (acl_state w).
Proof.
  intros ->. revert w. induction ifs as [|s ifs IH]; intros w; cbn [requestRemoveInterfacesFromACL]; [by intros [= <-]|].
  destruct (ACLInterfaceListDump_reply s w) as [d|e] eqn:Ed; [|done]. destruct (vpp_list_reply _ _ _ Ed) as (Hn & Ha & Hlen).
  set (l := lists_of (acl_state w) s) in *. rewrite Hn, Ha, without_acl_lists. set (l' := acl_removed i ingress l).
  pose proof (length_filter (fun a => a <> i) l.1) as F1. pose proof (length_filter (fun a => a <> i) l.2) as F2. rewrite length_app in Hlen.
  assert ((if ingress then uint8 (Z.of_nat (length l.1) - (Z.of_nat (length (l.1 ++ l.2)) - Z.of_nat (length (l'.1 ++ l'.2))))
           else Z.of_nat (length l.1)) = Z.of_nat (length l'.1)) as ->.
  { unfold l'. destruct ingress; cbn [acl_removed fst snd]; [|done]. rewrite !length_app, small_uint8 by lia. lia. }
  destruct (send_acl_list _ _ _ w) as [[e|] w1] eqn:E.
  - intros H. exfalso. revert H. apply (remove_error_kept i ingress ifs).
  - apply send_acl_list_done in E; [|unfold l'; destruct ingress; cbn [acl_removed fst snd]; rewrite length_app; lia].
    rewrite Nat2Z.id, take_app_length, drop_app_length, <- surjective_pairing in E. intros H.
    cbn [on_lists fold_left]. fold l l'. rewrite <- E. exact (IH w1 H).
Qed.

(** C19: A call that assigns an access list to interfaces on ingress or on egress
    puts it in front of the list of each interface on ingress, or behind the one on
    egress; a call that removes it from interfaces removes all of its occurrences
    from that list.  The other list of each interface, other interfaces and the
    access lists stay as they are.  This holds although the calls read both lists
    as one, with the number of those on ingress, and send them back so: the number
    and the positions are kept right, as long as no interface gets more than the 255
    lists that the messages can count. *)
Theorem acl_interface_lists (i : Z) (ingress : bool) (ifs : list Z) (w w' : World) :
  ((forall s, s ∈ ifs ->
      length ((lists_of (acl_state w) s).1 ++ (lists_of (acl_state w) s).2) + length (filter (fun s0 => s0 = s) ifs) <= 255) ->
   (if ingress then SetACLToInterfacesAsIngress else SetACLToInterfacesAsEgress) handler i ifs w = (None, w') ->
   acl_state w' = on_lists (acl_added i ingress) ifs (acl_state w))
  /\ ((if ingress then RemoveACLFromInterfacesAsIngress else RemoveACLFromInterfacesAsEgress) handler i ifs w = (None, w') ->
      acl_state w' = on_lists (acl_removed i ingress) ifs (acl_state w)).
Proof.
  split.
  - intros Hl H. apply set_lists_done; [done|]. by destruct ingress.
  - intros H. apply (remove_lists_done i ingress ifs None); [done|]. by destruct ingress.
Qed.
End interfaces.

(** ** Keys of assignments *)

(** A name that can be found in a key: no braces, and no element of it is the one
    that separates it from the flow. *)
Definition acl_name_ok (name : string) : Prop := name <> "" /\ no_brace name /\ "interface" ∉ Split name.

Definition flow_of (ingress : bool) : string := if ingress then IngressFlow else EgressFlow.

Lemma ToInterfaceKey_eq name iface ingress : name <> "" -> no_brace name -> iface <> "" ->
  ToInterfaceKey name iface (flow_of ingress) = "vpp/acl/" +:+ name +:+ "/interface/" +:+ flow_of ingress +:+ "/" +:+ iface.
Proof.
  intros Hn Hb Hi. unfold ToInterfaceKey, is_empty.
  rewrite (proj2 (String.eqb_neq _ _) Hn), (proj2 (String.eqb_neq _ _) Hi).
  assert (is_flow (flow_of ingress) = true) as -> by by destruct ingress.
  assert (no_brace (flow_of ingress)) as Hf by by destruct ingress. unfold aclToInterfaceTemplate.
  fill "acl}" "vpp/acl/" "/interface/{flow}/{iface}".
  fill "flow}" ("vpp/acl/" +:+ name +:+ "/interface/") "/{iface}".
  fill "iface}" ("vpp/acl/" +:+ name +:+ "/interface/" +:+ flow_of ingress +:+ "/") "". by rewrite append_nil_r.
Qed.

Lemma Split_acl_key name iface ingress :
  Split ("vpp/acl/" +:+ name +:+ "/interface/" +:+ flow_of ingress +:+ "/" +:+ iface)
  = "vpp" :: "acl" :: Split name ++ "interface" :: flow_of ingress :: Split iface.
Proof.
  change ("vpp/acl/" +:+ ?x) with ("vpp" +:+ "/" +:+ ("acl" +:+ "/" +:+ x)). rewrite !Split_cons by done.
  change ("/interface/" +:+ ?x) with ("/" +:+ ("interface" +:+ "/" +:+ x)). rewrite Split_sep.
  do 3 f_equal. rewrite !Split_cons by (done || by destruct ingress). done.
Qed.

Lemma acl_key_parsed name iface ingress : acl_name_ok name -> iface <> "" ->
  ParseACLToInterfaceKey (ToInterfaceKey name iface (flow_of ingress)) = (name, iface, flow_of ingress, true).
Proof.
  intros (Hn & Hb & Hs) Hi. rewrite ToInterfaceKey_eq by done. unfold ParseACLToInterfaceKey. rewrite Split_acl_key.
  pose proof (Split_ne name) as Ln. pose proof (Split_ne iface) as Li.
  assert (length (Split name) <> 0 /\ length (Split iface) <> 0) as [Ln' Li'] by (split; intros H%nil_length_inv; done).
  set (parts := "vpp" :: _). set (pre := "vpp" :: "acl" :: Split name).
  assert (parts = pre ++ "interface" :: flow_of ingress :: Split iface) as Hp by done.
  rewrite (first_index_at "interface" parts pre _ Hp) by (unfold pre; rewrite !not_elem_of_cons; split_and!; done).
  assert (length pre = 2 + length (Split name)) as Hpre by done.
  assert (length parts = length pre + 2 + length (Split iface)) as Hlen by (rewrite Hp, length_app; cbn [length]; lia).
  assert (parts !! Z.to_nat (Z.of_nat (length pre) + 1) = Some (flow_of ingress)) as ->.
  { rewrite Hp, lookup_app_r by lia. by replace (Z.to_nat (Z.of_nat (length pre) + 1) - length pre) with 1 by lia. }
  cbn [default from_option]. assert (is_flow (flow_of ingress) = true) as Hf by by destruct ingress.
  assert ((5 <=? length parts) = true) as -> by (apply Nat.leb_le; lia).
  assert ((3 <=? Z.of_nat (length pre))%Z = true) as -> by (apply Z.leb_le; lia).
  change (id (flow_of ingress)) with (flow_of ingress). rewrite Hf. cbn [parts nth String.eqb Ascii.eqb Bool.eqb andb orb].
  rewrite Nat2Z.id. replace (Z.to_nat (Z.of_nat (length pre) + 2)) with (length pre + 2) by lia.
  rewrite Hp, take_app_length, <- drop_drop, drop_app_length. cbn [drop pre]. rewrite !drop_0, !Join_Split.
  unfold is_empty. by rewrite (proj2 (String.eqb_neq _ _) Hi), (proj2 (String.eqb_neq _ _) Hn).
Qed.

(** No key of an assignment is one of an access list. *)
Lemma acl_key_not_model name iface ingress : acl_name_ok name -> iface <> "" ->
  IsKeyValid ModelACL (ToInterfaceKey name iface (flow_of ingress)) = false.
Proof.
  intros (Hn & Hb & _) Hi. rewrite ToInterfaceKey_eq by done.
  apply (foreign_key "ligato.vpp.acl.ACL" "vpp"); [reflexivity|by split| |reflexivity].
  rewrite Split_acl_key. by eexists.
Qed.

Section bindings.
Context {X : Ext} {IX : Indexes} {AX : AclIndexes} {AT : AclTypes} {CH : AclChannel} {LA : AclLaws} {MO : MetaOrder}.
Context (ParseIPWithPrefix : string -> IPNet * bool + error) (ifIndexes aclIndex : Mapping).

Abbreviation handler := (NewACLVppHandler ParseIPWithPrefix ifIndexes).

(** An access list assigned to an interface or no longer so: of those for L2 an
    interface has one at most, of others it has a list for each flow. *)
Definition binding_changed (add : bool) (md : ACLMetadata) (ingress : bool) (s : Z) (st st' : AclState) : Prop :=
  if am_L2 md then st' = set_macip_ifs (if add then <[s := am_Index md]> else delete s) st
  else exists new, let l := lists_of st s in
    list_changed add (am_Index md) (if ingress then l.1 else l.2) new
    /\ st' = set_lists s (if ingress then (new, l.2) else (l.1, new)) st.

Lemma with_acl_done name iface ingress md meta add w w' : acl_name_ok name -> iface <> "" ->
  acl_LookupByName aclIndex name = (Some md, true) -> iface_LookupByName ifIndexes iface = Some meta ->
  with_acl aclIndex (ToInterfaceKey name iface (flow_of ingress)) (macip_acl_of_interface ifIndexes add)
    (acl_of_interface ifIndexes add true) (acl_of_interface ifIndexes add false) w = (None, w') ->
  binding_changed add md ingress (SwIfIndex meta) (acl_state w) (acl_state w').
Proof.
  intros Hn Hi Hmd Hif. unfold with_acl. rewrite acl_key_parsed by done. rewrite Hmd. unfold binding_changed.
  destruct (am_L2 md).
  - unfold macip_acl_of_interface, with_iface. rewrite Hif. intros (j & H)%call_acl_done. by inversion H; subst.
  - destruct ingress; cbn [flow_of String.eqb Ascii.eqb Bool.eqb IngressFlow EgressFlow];
      unfold acl_of_interface, with_iface; rewrite Hif; intros (j & H)%call_acl_done; inversion H; subst; eauto.
Qed.

(** C31: The assignments that an access list derives reach the right list of the
    right interface: for each interface that the list names for a flow, the derived
    key is not that of an access list, only the descriptor of assignments selects
    it, and it waits for that interface; creating and deleting its value assigns and
    removes the access list that the index has under the name in the key, on the
    interface and flow in the key, and changes nothing else in VPP.  This holds for
    any interface name and for names of access lists with slashes, as long as they
    have no element [interface] and no braces. *)
Theorem acl_bindings (key : string) (acl : ACL) (iface : string) (ingress : bool) (md : ACLMetadata) (meta : IfaceMetadata) :
  acl_name_ok (acl_Name acl) -> iface <> "" ->
  iface ∈ (if ingress then acl_GetIngress else acl_GetEgress) (acl_Interfaces acl) ->
  acl_LookupByName aclIndex (acl_Name acl) = (Some md, true) -> iface_LookupByName ifIndexes iface = Some meta ->
  let binding := MkKeyValuePair (ToInterfaceKey (acl_Name acl) iface (flow_of ingress)) (Some acl_Empty) in
  binding ∈ acl_DerivedValues key acl
  /\ td_KeySelector (ACLDescriptor handler) (kvp_Key binding) = false
  /\ d_KeySelector (ACLToInterfaceDescriptor aclIndex handler) (kvp_Key binding) = true
  /\ ai_Dependencies (kvp_Key binding) (kvp_Value binding) = [simple_dep interfaceDep (InterfaceKey iface)]
  /\ (forall m w w', ai_Create aclIndex handler (kvp_Key binding) (kvp_Value binding) w = ((m, None), w') ->
        binding_changed true md ingress (SwIfIndex meta) (acl_state w) (acl_state w'))
  /\ (forall m w w', ai_Delete aclIndex handler (kvp_Key binding) (kvp_Value binding) m w = (None, w') ->
        binding_changed false md ingress (SwIfIndex meta) (acl_state w) (acl_state w')).
Proof.
  intros Hn Hi Hin Hmd Hif. cbn [kvp_Key kvp_Value td_KeySelector ACLDescriptor d_KeySelector ACLToInterfaceDescriptor].
  unfold IsACLInterfaceKey, ai_Dependencies. rewrite acl_key_parsed by done. split_and!.
  - unfold acl_DerivedValues. apply elem_of_app. destruct ingress; [left|right]; apply list_elem_of_fmap; by exists iface.
  - by apply acl_key_not_model.
  - done.
  - done.
  - intros m w w' H. unfold ai_Create in H. destruct (with_acl _ _ _ _ _ w) as [err w1] eqn:E. injection H as _ -> <-.
    by eapply (with_acl_done _ _ _ _ _ true).
  - intros m w w' H. by eapply (with_acl_done _ _ _ _ _ false).
Qed.
End bindings.

(** ** Examples *)

#[local] Existing Instance acl_ext.

Definition two_interfaces : @Mapping acl_ext :=
  {[ "memif/1" := AclIfMeta (MkIfaceMetadata 7 0 [] "" "" ""); "loop0" := AclIfMeta (MkIfaceMetadata 3 0 [] "" "" "") ]} : AclIndex.
Definition demo_handler : ACLVppAPI := NewACLVppHandler with_full_mask two_interfaces.
Definition no_acls : @World acl_ext := MkAclState ∅ ∅ ∅ ∅.

(** A rule for TCP up to a port, one for ICMP, and one for L2. *)
Definition tcp_rule (port : Z) : ACL_Rule := MkRule ACL_Rule_PERMIT
  (Some (MkIpRule (Some (MkRuleIp "10.0.0.0/24" "0.0.0.0/0" 0)) None
    (Some (MkRuleTcp (Some (MkPortRange 80 port)) (Some (MkPortRange 0 65535)) 20 10)) None)) None.
Definition icmp_rule : ACL_Rule := MkRule ACL_Rule_REFLECT
  (Some (MkIpRule (Some (MkRuleIp "fd00::/64" "fd00:1::/64" 58))
    (Some (MkRuleIcmp true (Some (MkIcmpRange 0 255)) (Some (MkIcmpRange 8 8)))) None None)) None.
Definition l2_rule : ACL_Rule := MkRule ACL_Rule_DENY None
  (Some (MkMacIpRule "10.0.0.1" 24 "b2:74:8c:12:67:d2" "ff:ff:ff:ff:00:00")).
Definition ip_acl (port : Z) : ACL := MkACL "acl/1" [tcp_rule port; icmp_rule]
  (Some (MkAclInterfaces ["memif/1"] ["loop0"; "memif/1"])).
Definition l2_acl : ACL := MkACL "acl2" [l2_rule] None.

Lemma demo_net_plain s ip n : ParseCIDR s = Some (ip, n) -> plain_net n -> net_plain s.
Proof. intros H Hn ip' n' H'. rewrite H in H'. by injection H' as _ <-. Qed.

(** Bytes one by one. *)
Ltac bytes_auto := cbn; repeat (apply Forall_cons_2; [unfold is_byte; lia|]); apply Forall_nil_2.

Lemma demo_plain port : acl_plain (ip_acl port).
Proof.
  assert (net_plain "10.0.0.0/24") as N1.
  { eapply demo_net_plain; [vm_compute; reflexivity|]. apply (plain_v4 [10; 0; 0; 0]%Z 24); [split; [done|bytes_auto]|lia]. }
  assert (net_plain "0.0.0.0/0") as N2.
  { eapply demo_net_plain; [vm_compute; reflexivity|]. apply (plain_v4 [0; 0; 0; 0]%Z 0); [split; [done|bytes_auto]|lia]. }
  assert (net_plain "fd00::/64") as N3.
  { eapply demo_net_plain; [vm_compute; reflexivity|].
    apply (plain_v6 (253 :: replicate 15 0)%Z 64); [split; [done|bytes_auto]|done|lia]. }
  assert (net_plain "fd00:1::/64") as N4.
  { eapply demo_net_plain; [vm_compute; reflexivity|].
    apply (plain_v6 ([253; 0; 0; 1] ++ replicate 12 0)%Z 64); [split; [done|bytes_auto]|done|lia]. }
  intros rule r Hin Hr i Hi. cbn in Hin. rewrite !elem_of_cons in Hin.
  destruct Hin as [->|[->|[]%elem_of_nil]]; injection Hr as <-; injection Hi as <-; by split.
Qed.

Definition created (acl : ACL) (w : @World acl_ext) : @World acl_ext := (acl_Create demo_handler "" acl w).2.

Lemma demo_created port : acl_Create demo_handler "" (ip_acl port) no_acls = ((Some (MkACLMetadata 0 false), None), created (ip_acl port) no_acls).
Proof. reflexivity. Qed.
Lemma demo_retrieved port : exists kvs, acl_Retrieve demo_handler [] (created (ip_acl port) no_acls) = ((kvs, None), created (ip_acl port) no_acls).
Proof. eexists. reflexivity. Qed.

(** Ports beyond 65535 do not come back. *)
Example acl_create_retrieve_witness :
  exists good bad (kvs1 kvs2 : list (TypedKVWithMetadata ACL (option ACLMetadata))),
    MkTypedKV (acl_Key "acl/1") good (Some (MkACLMetadata 0 false)) FromNB ∈ kvs1 /\ EquivalentACLs "" good (ip_acl 8080) = true
    /\ MkTypedKV (acl_Key "acl/1") bad (Some (MkACLMetadata 0 false)) FromNB ∈ kvs2 /\ EquivalentACLs "" bad (ip_acl 65536) = false.
Proof.
  destruct (demo_retrieved 8080) as [kvs1 R1]. destruct (demo_retrieved 65536) as [kvs2 R2].
  assert (tag_ok "acl/1") as Ht by (split; [cbn; lia|reflexivity]).
  destruct (acl_create_retrieve with_full_mask two_interfaces "" (ip_acl 8080) _ _ _ _ [] kvs1 (demo_created 8080) R1 Ht (demo_plain _))
    as (i1 & good & [= <-] & _ & Hin1 & E1).
  destruct (acl_create_retrieve with_full_mask two_interfaces "" (ip_acl 65536) _ _ _ _ [] kvs2 (demo_created 65536) R2 Ht (demo_plain _))
    as (i2 & bad & [= <-] & _ & Hin2 & E2).
  exists good, bad, kvs1, kvs2. split; [exact Hin1|]. split; [rewrite E1; vm_compute; reflexivity|].
  split; [exact Hin2|]. rewrite E2. vm_compute. reflexivity.
Defined.

(** Lists of both kinds with the same index; the one for L2 becomes one for IP. *)
Definition both_acls : @World acl_ext := created l2_acl (created (ip_acl 8080) no_acls).
Definition new_acl2 : ACL := MkACL "acl2" [tcp_rule 22; l2_rule] None.
Definition overwritten : @World acl_ext :=
  (acl_Update demo_handler "" l2_acl new_acl2 (Some (MkACLMetadata 0 true)) both_acls).2.

Example acl_update_overwrites_witness :
  acl_UpdateWithRecreate "" l2_acl new_acl2 (Some (MkACLMetadata 0 true)) = false
  /\ (exists e, st_acls both_acls !! 0%Z = Some ("acl/1", e)) /\ (exists e, st_acls overwritten !! 0%Z = Some ("acl2", e))
  /\ exists e, st_macips overwritten !! 0%Z = Some ("acl2", e)
  /\ st_macips (acl_Delete demo_handler "" new_acl2 (Some (MkACLMetadata 0 false)) overwritten).2 !! 0%Z = Some ("acl2", e).
Proof.
  destruct (acl_update_overwrites with_full_mask two_interfaces "" "" l2_acl new_acl2 new_acl2 0 (Some (MkACLMetadata 0 false))
    ("acl2", default [] (snd <$> st_macips both_acls !! 0%Z)) both_acls overwritten overwritten
    (acl_Delete demo_handler "" new_acl2 (Some (MkACLMetadata 0 false)) overwritten).2)
    as (H1 & _ & (other & tag & r & Ho & Htag & Hr & Hs) & H4 & _ & H6); try reflexivity; [done|].
  split; [exact H1|]. split; [by eexists; reflexivity|]. split; [by eexists; reflexivity|]. eexists. split; [exact H4|exact H6].
Defined.

Definition listed : @World acl_ext := MkAclState ∅ ∅ {[ 7%Z := ([1; 2], [2; 3; 2]) ]}%Z ∅.

Example acl_interface_lists_witness :
  let w1 := (SetACLToInterfacesAsIngress demo_handler 5 [7; 3]%Z listed).2 in
  let w2 := (RemoveACLFromInterfacesAsEgress demo_handler 2 [7]%Z listed).2 in
  lists_of w1 7 = ([5; 1; 2], [2; 3; 2])%Z /\ lists_of w1 3 = ([5], [])%Z /\ lists_of w2 7 = ([1; 2], [3])%Z.
Proof.
  cbv zeta.
  pose proof (proj1 (acl_interface_lists with_full_mask two_interfaces 5 true [7; 3]%Z listed
    (SetACLToInterfacesAsIngress demo_handler 5 [7; 3]%Z listed).2)) as H1.
  pose proof (proj2 (acl_interface_lists with_full_mask two_interfaces 2 false [7]%Z listed
    (RemoveACLFromInterfacesAsEgress demo_handler 2 [7]%Z listed).2) eq_refl) as H2.
  assert (forall s, s ∈ [7; 3]%Z -> length ((lists_of listed s).1 ++ (lists_of listed s).2)
    + length (filter (fun s0 => s0 = s) [7; 3]%Z) <= 255) as Hl.
  { intros s. rewrite !elem_of_cons. intros [->|[->|[]%elem_of_nil]]; vm_compute; lia. }
  specialize (H1 Hl eq_refl). change (@acl_state acl_ext acl_channel acl_demo_laws) with (fun w : AclState => w) in H1, H2.
  cbv beta in H1, H2. rewrite H1, H2. split_and!; reflexivity.
Defined.

Definition acl_names : @Mapping acl_ext := {[ "acl/1" := AclMeta (Some (MkACLMetadata 4 false)) ]} : AclIndex.
Definition bound : @World acl_ext :=
  (ai_Create acl_names demo_handler "vpp/acl/acl/1/interface/ingress/memif/1" (Some EmptyMsg) listed).2.

Example acl_bindings_witness :
  MkKeyValuePair "vpp/acl/acl/1/interface/ingress/memif/1" (Some (EmptyMsg : @Value acl_ext)) ∈ acl_DerivedValues "" (ip_acl 8080)
  /\ exists new, list_changed true 4 [1; 2]%Z new /\ bound = set_lists 7 (new, [2; 3; 2]%Z) listed.
Proof.
  destruct (acl_bindings with_full_mask two_interfaces acl_names "" (ip_acl 8080) "memif/1" true (MkACLMetadata 4 false)
    (MkIfaceMetadata 7 0 [] "" "" "")) as (H1 & _ & _ & _ & H5 & _).
  - split; [done|]. split; [reflexivity|]. apply (bool_decide_unpack _). vm_compute. exact I.
  - done.
  - cbn. right. left.
  - reflexivity.
  - reflexivity.
  - split; [exact H1|]. exact (H5 None listed bound eq_refl).
Defined.
