(* ===== verification/VppAbf.v ===== *)
(** * The ABF plugin for VPP: forwarding by access lists

    [proto/ligato/vpp/abf] and [plugins/vpp/abfplugin]: the messages and keys of
    policies, their index, the interface of the handler and the handler (vpp2306)
    over a channel to VPP that is a parameter, and the descriptors of policies and
    of their attachments to interfaces.  A policy refers to an access list through
    the index of the ACL plugin. *)
From S2P Require Import Prelude GoStrings GoTemplate GoNet GoNetText Models AgentModels VppModels Api Adapter NameToIndex.
From S2P Require Import VppBinapi VppL3Proto VppAclProto VppAclCalls VppAcl.

(** ** Messages *)

Record ABF_AttachedInterface := MkAttached { abfi_InputInterface : string; abfi_Priority : Z; abfi_IsIpv6 : bool }.
Record ABF_ForwardingPath := MkForwardingPath {
  abfp_NextHopIp : string;
  abfp_InterfaceName : string;
  abfp_Weight : Z;
  abfp_Preference : Z;
  abfp_Dvr : bool
}.
Record ABF := MkABF {
  abf_Index : Z;
  abf_AclName : string;
  abf_AttachedInterfaces : list ABF_AttachedInterface;
  abf_ForwardingPaths : list ABF_ForwardingPath
}.

#[export] Instance Attached_eq : EqDecision ABF_AttachedInterface.
Proof. solve_decision. Defined.
#[export] Instance ForwardingPath_eq : EqDecision ABF_ForwardingPath.
Proof. solve_decision. Defined.
#[export] Instance ABF_eq : EqDecision ABF.
Proof. solve_decision. Defined.

Definition ModelABF : knownModel Msg := model_named "ligato.vpp.abf.ABF".
Definition abf_Key (index : Z) : string := models_Key_of (msg "ligato.vpp.abf.ABF" [("Index", TInt index)]).

Definition abfToInterfaceTemplate : string := "vpp/abf/{abf}/interface/{iface}".
Definition InvalidKeyPart : string := "<invalid>".

Definition abf_ToInterfaceKey (abf : Z) (iface : string) : string :=
  let iface := if is_empty iface then InvalidKeyPart else iface in
  let key := Replace1 abfToInterfaceTemplate "{abf}" (Itoa abf) in
  Replace1 key "{iface}" iface.

(** [abf, iface, isABFToInterface]. *)
Definition ParseToInterfaceKey (key : string) : string * string * bool :=
  match Split key with
  | p0 :: p1 :: abf :: p3 :: p4 :: rest =>
      if String.eqb p0 "vpp" && String.eqb p1 "abf" && String.eqb p3 "interface" then
        let iface := Join (p4 :: rest) in
        if negb (is_empty iface) && negb (is_empty abf) then (abf, iface, true) else ("", "", false)
      else ("", "", false)
  | _ => ("", "", false)
  end.

Example abf_keys :
  abf_Key 7 = "config/vpp/abfs/v2/abf/7"
  /\ abf_ToInterfaceKey 7 "memif/1" = "vpp/abf/7/interface/memif/1"
  /\ abf_ToInterfaceKey 7 "" = "vpp/abf/7/interface/<invalid>"
  /\ ParseToInterfaceKey "vpp/abf/7/interface/memif/1" = ("7", "memif/1", true)
  /\ ParseToInterfaceKey "vpp/abf/7/interface" = ("", "", false)
  /\ ParseToInterfaceKey "vpp/abf//interface/if" = ("", "", false).
Proof. vm_compute. done. Qed.

(** *** Binary API *)

Record AbfItfAttach := MkItfAttach { aa_PolicyID : Z; aa_SwIfIndex : Z; aa_Priority : Z; aa_IsIPv6 : bool }.
Record AbfPolicy := MkAbfPolicy { ap_PolicyID : Z; ap_ACLIndex : Z; ap_NPaths : Z; ap_Paths : list FibPath }.

#[export] Instance ItfAttach_eq : EqDecision AbfItfAttach.
Proof. solve_decision. Defined.

Inductive AbfRequest :=
  | AbfItfAttachAddDel (IsAdd : bool) (Attach : AbfItfAttach)
  | AbfPolicyAddDel (IsAdd : bool) (Policy : AbfPolicy).

(** ** The index of policies *)

Record ABFMetadata := MkABFMetadata { abm_Index : Z; abm_Attached : list ABF_AttachedInterface }.

Class AbfIndexes {X : Ext} := {
  as_ABFMetadata : Metadata -> option (option ABFMetadata);
  of_ABFMetadata : option ABFMetadata -> Metadata
}.

Section abfidx.
Context {X : Ext} {IX : Indexes} {BX : AbfIndexes}.

Definition indexAbfMetadata (metaData : Metadata) : list (string * list string) := [].

Definition NewABFIndex : Mapping := NewNameToIndex (Some indexAbfMetadata).

Definition abf_LookupByName (abfIdx : Mapping) (name : string) : option ABFMetadata * bool :=
  match nm_GetValue abfIdx name ≫= as_ABFMetadata with
  | Some typedMeta => (typedMeta, true)
  | None => (None, false)
  end.

Definition abf_LookupByIndex (abfIdx : Mapping) (idx : Z) : string * option ABFMetadata * bool :=
  match LookupByIndex abfIdx idx with
  | None => ("", None, false)
  | Some (name, item, _) =>
      match as_ABFMetadata item with Some metadata => (name, metadata, true) | None => (name, None, false) end
  end.
End abfidx.

(** ** The handler *)

Record ABFDetails := MkABFDetails { abd_ABF : ABF; abd_PolicyID : Z }.

Section handler.
Context {X : Ext} {IX : Indexes} {AX : AclIndexes}.

Record ABFVppAPI := MkABFVppAPI {
  GetAbfVersion : Dump string;
  DumpABFPolicy : Dump (list ABFDetails);
  AddAbfPolicy : Z -> Z -> list ABF_ForwardingPath -> Call;
  DeleteAbfPolicy : Z -> list ABF_ForwardingPath -> Call;
  AbfAttachInterfaceIPv4 : Z -> Z -> Z -> Call;
  AbfDetachInterfaceIPv4 : Z -> Z -> Z -> Call;
  AbfAttachInterfaceIPv6 : Z -> Z -> Z -> Call;
  AbfDetachInterfaceIPv6 : Z -> Z -> Z -> Call
}.

(** Requests, the version (major and minor), and the replies of dumps. *)
Class AbfChannel := {
  abf_SendRequest : AbfRequest -> World -> option error * World;
  AbfPluginGetVersion : World -> Z * Z + error;
  AbfItfAttachDump : World -> list AbfItfAttach * option error;
  AbfPolicyDump : World -> list AbfPolicy * option error
}.
Context {CH : AbfChannel} (aclIndexes ifIndexes : Mapping).

Definition NextHopViaLabelUnset : Z := 0xfffff + 1.
Definition ClassifyTableIndexUnset : Z := 4294967295.
Definition unknownName : string := "<unknown>".

Definition get_abf_version : Dump string := fun w =>
  match AbfPluginGetVersion w with inl (major, minor) => inl (Itoa major +:+ "." +:+ Itoa minor) | inr err => inr err end.

Definition setFibPathType (isDvr : bool) : Z := if isDvr then FIB_API_PATH_TYPE_DVR else FIB_API_PATH_TYPE_NORMAL.

(** The results are zero values when there is an error. *)
Definition setFibPathNhAndProto (ipStr : string) : (FibPathNh * Z) * option error :=
  let netIP := ParseIP ipStr in
  if length netIP =? 0
  then ((MkFibPathNh (replicate 16 0%Z) 0 0 0, 0%Z), Some (errorf ("failed to parse next hop IP address " +:+ ipStr)))
  else
    let '(addr, proto) :=
      if length (To4 netIP) =? 0 then (copy_bytes 16 netIP, FIB_API_PATH_NH_PROTO_IP6)
      else (copy_bytes 16 (copy_bytes 4 (drop 12 netIP)), FIB_API_PATH_NH_PROTO_IP4) in
    ((MkFibPathNh addr NextHopViaLabelUnset 0 ClassifyTableIndexUnset, proto), None).

(** An error of the next hop is only logged. *)
Definition to_fib_path (abfPath : ABF_ForwardingPath) : option FibPath :=
  ifData ← iface_LookupByName ifIndexes (abfp_InterfaceName abfPath);
  let '((nh, proto), _) := setFibPathNhAndProto (abfp_NextHopIp abfPath) in
  Some (MkFibPath (SwIfIndex ifData) 0 0 (uint8 (abfp_Weight abfPath)) (uint8 (abfp_Preference abfPath))
    (setFibPathType (abfp_Dvr abfPath)) 0 proto nh (replicate 16 (MkMplsLabel 0 0 0 0))).

(** Paths over unknown interfaces are left out. *)
Definition toFibPaths (abfPaths : list ABF_ForwardingPath) : list FibPath := omap to_fib_path abfPaths.

Definition abfAddDelPolicy (policyID aclID : Z) (abfPaths : list ABF_ForwardingPath) (isAdd : bool) : Call :=
  abf_SendRequest (AbfPolicyAddDel isAdd
    (MkAbfPolicy policyID aclID (uint8 (Z.of_nat (length abfPaths))) (toFibPaths abfPaths))).

Definition abfAttachDetachInterface (policyID ifIdx priority : Z) (isAdd isIPv6 : bool) : Call :=
  abf_SendRequest (AbfItfAttachAddDel isAdd (MkItfAttach policyID ifIdx priority isIPv6)).

(** A call with a message in front of its error. *)
Definition with_message (msg : string) (c : Call) : Call := fun w =>
  match c w with (Some err, w) => (Some (errorf (msg +:+ ": " +:+ Error err)), w) | (None, w) => (None, w) end.

Definition add_abf_policy (policyID aclID : Z) (abfPaths : list ABF_ForwardingPath) : Call :=
  with_message ("failed to add ABF policy " +:+ Itoa policyID +:+ " (ACL: " +:+ Itoa aclID +:+ ")")
    (abfAddDelPolicy policyID aclID abfPaths true).

Definition delete_abf_policy (policyID : Z) (abfPaths : list ABF_ForwardingPath) : Call :=
  with_message ("failed to delete ABF policy " +:+ Itoa policyID) (abfAddDelPolicy policyID 0 abfPaths false).

(** [AbfAttachInterfaceIPv4], [AbfDetachInterfaceIPv4], [AbfAttachInterfaceIPv6] and
    [AbfDetachInterfaceIPv6]. *)
Definition attach_interface (isAdd isIPv6 : bool) (policyID ifIdx priority : Z) : Call :=
  with_message ("failed to " +:+ (if isAdd then "attach" else "detach") +:+ (if isIPv6 then " IPv6" else " IPv4")
    +:+ " interface " +:+ Itoa ifIdx +:+ (if isAdd then " to" else " from") +:+ " ABF policy " +:+ Itoa policyID)
    (abfAttachDetachInterface policyID ifIdx priority isAdd isIPv6).

(** *** Dumps *)

Definition known_interface (swIfIndex : Z) : string :=
  match LookupBySwIfIndex ifIndexes swIfIndex with (ifName, _, true) => ifName | _ => unknownName end.

Definition attached_entry (a : AbfItfAttach) : ABF_AttachedInterface :=
  MkAttached (known_interface (aa_SwIfIndex a)) (aa_Priority a) (aa_IsIPv6 a).

Definition dumpABFInterfaces : Dump (gmap Z (list ABF_AttachedInterface)) := fun w =>
  match AbfItfAttachDump w with
  | (_, Some err) => inr err
  | (l, None) =>
      inl (fold_left (fun m a => <[aa_PolicyID a := default [] (m !! aa_PolicyID a) ++ [attached_entry a]]> m) l ∅)
  end.

Definition parseNextHopToString (nh : FibPathNh) (proto : Z) : string :=
  if (proto =? FIB_API_PATH_NH_PROTO_IP4)%Z then union_text false (nh_Address nh)
  else if (proto =? FIB_API_PATH_NH_PROTO_IP6)%Z then union_text true (nh_Address nh)
  else "".

Definition dumped_forwarding_path (path : FibPath) : ABF_ForwardingPath :=
  MkForwardingPath (parseNextHopToString (fp_Nh path) (fp_Proto path)) (known_interface (fp_SwIfIndex path))
    (fp_Weight path) (fp_Preference path) (fp_Type path =? FIB_API_PATH_TYPE_DVR)%Z.

Definition dumped_policy (p : AbfPolicy) : ABFDetails :=
  let aclName := match acl_LookupByIndex aclIndexes (ap_ACLIndex p) with (name, _, true) => name | _ => unknownName end in
  MkABFDetails (MkABF (ap_PolicyID p) aclName [] (map dumped_forwarding_path (ap_Paths p))) (ap_PolicyID p).

Definition dump_policies : Dump (list ABFDetails) := fun w =>
  match AbfPolicyDump w with (_, Some err) => inr err | (l, None) => inl (map dumped_policy l) end.

Definition with_attached (attachedIfs : gmap Z (list ABF_AttachedInterface)) (d : ABFDetails) : ABFDetails :=
  match attachedIfs !! abd_PolicyID d with
  | Some ifData =>
      MkABFDetails (MkABF (abf_Index (abd_ABF d)) (abf_AclName (abd_ABF d)) ifData (abf_ForwardingPaths (abd_ABF d)))
        (abd_PolicyID d)
  | None => d
  end.

Definition dump_abf_policy : Dump (list ABFDetails) := fun w =>
  match dumpABFInterfaces w with
  | inr err => inr err
  | inl attachedIfs =>
      match dump_policies w with inr err => inr err | inl abfPolicy => inl (map (with_attached attachedIfs) abfPolicy) end
  end.

Definition NewABFVppHandler : ABFVppAPI := {|
  GetAbfVersion := get_abf_version;
  DumpABFPolicy := dump_abf_policy;
  AddAbfPolicy := add_abf_policy;
  DeleteAbfPolicy := delete_abf_policy;
  AbfAttachInterfaceIPv4 := attach_interface true false;
  AbfDetachInterfaceIPv4 := attach_interface false false;
  AbfAttachInterfaceIPv6 := attach_interface true true;
  AbfDetachInterfaceIPv6 := attach_interface false true
|}.
End handler.

(** ** The descriptor of policies *)

Section descriptors.
Context {X : Ext} {IX : Indexes} {AX : AclIndexes} {BX : AbfIndexes}.

Class AbfTypes := { abf_ABF : ValueType ABF; abf_Empty : Value }.
Context {AT : AbfTypes}.

#[export] Existing Instance abf_ABF.
#[export] Instance ABF_metadata : MetadataType (option ABFMetadata) := pointer_metadata as_ABFMetadata of_ABFMetadata.

Definition ABFDescriptorName : string := "vpp-abf".
Definition aclDep : string := "acl-exists".
Definition ErrABFWithoutACL : error := Opaque "ABF configuration defined without ACL".

Definition equivalentABFAttachedInterfaces (oldIfs newIfs : list ABF_AttachedInterface) : bool :=
  forallb (fun oldIf => existsb (fun newIf => bool_decide (oldIf = newIf)) newIfs) oldIfs.

Definition same_path (oldPath newPath : ABF_ForwardingPath) : bool :=
  String.eqb (abfp_InterfaceName oldPath) (abfp_InterfaceName newPath)
  && String.eqb (abfp_NextHopIp oldPath) (abfp_NextHopIp newPath)
  && (abfp_Weight oldPath =? abfp_Weight newPath)%Z && (abfp_Preference oldPath =? abfp_Preference newPath)%Z
  && Bool.eqb (abfp_Dvr oldPath) (abfp_Dvr newPath).

Definition equivalentABFForwardingPaths (oldPaths newPaths : list ABF_ForwardingPath) : bool :=
  forallb (fun oldPath => existsb (same_path oldPath) newPaths) oldPaths.

Definition EquivalentABFs (key : string) (oldABF newABF : ABF) : bool :=
  if negb (String.eqb (abf_AclName oldABF) (abf_AclName newABF)) then false
  else if negb (length (abf_AttachedInterfaces oldABF) =? length (abf_AttachedInterfaces newABF)) then false
  else if negb (equivalentABFAttachedInterfaces (abf_AttachedInterfaces oldABF) (abf_AttachedInterfaces newABF)) then false
  else if negb (length (abf_ForwardingPaths oldABF) =? length (abf_ForwardingPaths newABF)) then false
  else equivalentABFForwardingPaths (abf_ForwardingPaths oldABF) (abf_ForwardingPaths newABF).

Section policy.
Context (abfHandler : ABFVppAPI) (aclIndex : Mapping).

Definition abf_Validate (key : string) (abfData : ABF) : option error :=
  if is_empty (abf_AclName abfData) then Some (NewInvalidValueError (Some ErrABFWithoutACL) ["acl_name"]) else None.

Definition abf_Create (key : string) (abfData : ABF) (w : World) : (option ABFMetadata * option error) * World :=
  match acl_LookupByName aclIndex (abf_AclName abfData) with
  | (_, false) => ((None, Some (errorf ("failed to obtain metadata for ACL " +:+ abf_AclName abfData))), w)
  | (None, true) => ((None, Some nil_dereference), w)
  | (Some aclData, true) =>
      match AddAbfPolicy abfHandler (abf_Index abfData) (am_Index aclData) (abf_ForwardingPaths abfData) w with
      | (Some err, w) => ((None, Some err), w)
      | (None, w) => ((Some (MkABFMetadata (abf_Index abfData) (abf_AttachedInterfaces abfData)), None), w)
      end
  end.

Definition abf_Delete (key : string) (abfData : ABF) (metadata : option ABFMetadata) : Call := fun w =>
  match metadata with
  | None => (Some nil_dereference, w)
  | Some md => DeleteAbfPolicy abfHandler (abm_Index md) (abf_ForwardingPaths abfData) w
  end.

Definition retrieved_abf (d : ABFDetails) : TypedKVWithMetadata ABF (option ABFMetadata) :=
  MkTypedKV (abf_Key (abf_Index (abd_ABF d))) (abd_ABF d)
    (Some (MkABFMetadata (abd_PolicyID d) (abf_AttachedInterfaces (abd_ABF d)))) FromNB.

Definition abf_Retrieve (correlate : list (TypedKVWithMetadata ABF (option ABFMetadata))) (w : World) :
    (list (TypedKVWithMetadata ABF (option ABFMetadata)) * option error) * World :=
  match DumpABFPolicy abfHandler w with
  | inr err => (([], Some (errorf ("failed to dump ABF policy: " +:+ Error err))), w)
  | inl abfPolicies => ((map retrieved_abf abfPolicies, None), w)
  end.

Definition abf_DerivedValues (key : string) (value : ABF) : list KeyValuePair :=
  map (fun attachedIf => MkKeyValuePair (abf_ToInterfaceKey (abf_Index value) (abfi_InputInterface attachedIf)) (Some abf_Empty))
    (abf_AttachedInterfaces value).

Definition abf_Dependencies (key : string) (abfData : ABF) : list Dependency :=
  omap (fun path => if is_empty (abfp_InterfaceName path) then None
                    else Some (simple_dep interfaceDep (InterfaceKey (abfp_InterfaceName path)))) (abf_ForwardingPaths abfData)
  ++ [simple_dep aclDep (acl_Key (abf_AclName abfData))].

Definition ABFDescriptor : TypedDescriptor ABF (option ABFMetadata) := {|
  td_Name := ABFDescriptorName;
  td_KeySelector := IsKeyValid ModelABF;
  td_KeyLabel := Some (StripKeyPrefix ModelABF);
  td_ValueComparator := Some EquivalentABFs;
  td_NBKeyPrefix := km_KeyPrefix ModelABF;
  td_WithMetadata := true;
  td_MetadataMapFactory := Some NewABFIndex;
  td_Validate := Some abf_Validate;
  td_Create := Some abf_Create;
  td_Delete := Some abf_Delete;
  td_Update := None;
  td_UpdateWithRecreate := None;
  td_Retrieve := Some abf_Retrieve;
  td_IsRetriableFailure := None;
  td_DerivedValues := Some abf_DerivedValues;
  td_Dependencies := Some abf_Dependencies;
  td_RetrieveDependencies := [InterfaceDescriptorName; ACLDescriptorName]
|}.
End policy.

(** ** The descriptor of attachments *)

Section attachment.
Context (abfIndex ifIndex : Mapping) (abfHandler : ABFVppAPI).

Definition ABFToInterfaceDescriptorName : string := "vpp-abf-to-interface".

Definition IsABFInterfaceKey (key : string) : bool := (ParseToInterfaceKey key).2.

(** The family and the priority of the last entry for an interface. *)
Definition attached_params (ifName : string) (attached : list ABF_AttachedInterface) : bool * Z :=
  fold_left (fun acc attachedIf =>
    if String.eqb (abfi_InputInterface attachedIf) ifName then (abfi_IsIpv6 attachedIf, abfi_Priority attachedIf) else acc)
    attached (false, 0%Z).

(** [isIPv6, abfIdx, ifIdx, priority]. *)
Definition process (key : string) : (bool * Z * Z * Z) + error :=
  let '(abfName, ifName, isValid) := ParseToInterfaceKey key in
  if negb isValid then inr (errorf ("ABF to interface key " +:+ key +:+ " is not valid"))
  else
    match abf_LookupByName abfIndex abfName with
    | (_, false) => inr (errorf ("failed to obtain metadata for ABF " +:+ abfName))
    | (abfData, true) =>
        match iface_LookupByName ifIndex ifName with
        | None => inr (errorf ("failed to obtain metadata for interface " +:+ ifName))
        | Some ifData =>
            match abfData with
            | None => inr nil_dereference
            | Some abfData =>
                let '(isIPv6, priority) := attached_params ifName (abm_Attached abfData) in
                inl (isIPv6, abm_Index abfData, SwIfIndex ifData, priority)
            end
        end
    end.

Definition abfi_Create (key : string) (emptyVal : option Value) (w : World) : (option Metadata * option error) * World :=
  match process key with
  | inr err => ((None, Some err), w)
  | inl (isIPv6, abfIdx, ifIdx, priority) =>
      let '(err, w) := (if isIPv6 : bool then AbfAttachInterfaceIPv6 else AbfAttachInterfaceIPv4) abfHandler abfIdx ifIdx priority w in
      ((None, err), w)
  end.

Definition abfi_Delete (key : string) (emptyVal : option Value) (metadata : option Metadata) : Call := fun w =>
  match process key with
  | inr err => (Some err, w)
  | inl (isIPv6, abfIdx, ifIdx, priority) =>
      (if isIPv6 : bool then AbfDetachInterfaceIPv6 else AbfDetachInterfaceIPv4) abfHandler abfIdx ifIdx priority w
  end.

Definition abfi_Dependencies (key : string) (emptyVal : option Value) : list Dependency :=
  let '(_, ifName, _) := ParseToInterfaceKey key in [simple_dep interfaceDep (InterfaceKey ifName)].

Definition ABFToInterfaceDescriptor : KVDescriptor := {|
  d_Name := ABFToInterfaceDescriptorName;
  d_KeySelector := IsABFInterfaceKey;
  d_KeyLabel := None;
  d_NBKeyPrefix := "";
  d_ValueComparator := None;
  d_WithMetadata := false;
  d_MetadataMapFactory := None;
  d_Validate := None;
  d_Create := Some abfi_Create;
  d_Delete := Some abfi_Delete;
  d_Update := None;
  d_UpdateWithRecreate := None;
  d_Retrieve := None;
  d_IsRetriableFailure := None;
  d_DerivedValues := None;
  d_Dependencies := Some abfi_Dependencies;
  d_RetrieveDependencies := []
|}.
End attachment.
End descriptors.
