(* ===== verification/VppAbfFacts.v ===== *)
(** * The ABF plugin: policies, attachments and targets

    The behaviour of VPP as a class of laws; when policies are read back as
    configured and when they are removed as a whole; the keys of attachments lead to the right interfaces;
    which policies the graph of the scheduler can represent. *)
From S2P Require Import Prelude GoStrings GoTemplate GoNet GoNetFacts GoNetText GoNetTextFacts Netalloc NetallocFacts.
From S2P Require Import Models ModelFacts AgentModels VppModels Api Adapter NameToIndex.
From S2P Require Import Monad KeySet EdgeLookup Graph GraphInv GraphRW GraphOps GraphSpec GraphConsistent NodeUtils.
From S2P Require Import VppBinapi VppL3Proto VppAclProto VppAclCalls VppAcl VppAclTable VppAbf.

#[local] Opaque abf_Key.

(** ** What VPP does *)

(** Policies by number, with the access list and the paths, and what is attached. *)
Record AbfState := MkAbfState { st_policies : gmap Z (Z * list FibPath); st_attached : list AbfItfAttach }.

Definition set_policies (f : gmap Z (Z * list FibPath) -> gmap Z (Z * list FibPath)) (st : AbfState) : AbfState :=
  MkAbfState (f (st_policies st)) (st_attached st).
Definition set_attached (l : list AbfItfAttach) (st : AbfState) : AbfState := MkAbfState (st_policies st) l.

(** Where packets go, by which VPP tells paths apart; a path with DVR has no address. *)
Definition is_dvr (p : FibPath) : bool := (fp_Type p =? FIB_API_PATH_TYPE_DVR)%Z.
Definition hop (p : FibPath) : Z * Z * option (list Z) :=
  (fp_SwIfIndex p, fp_Proto p, if is_dvr p then None else Some (nh_Address (fp_Nh p))).

(** What VPP reports as the address of a path with DVR, by the protocol. *)
Class DvrAddress := {
  vpp_dvr_address : Z -> list Z;
  vpp_dvr_ok proto : ip_ok 16 (vpp_dvr_address proto);
  vpp_dvr_v6 : is_v4 (vpp_dvr_address FIB_API_PATH_NH_PROTO_IP6) = false
}.

Section steps.
Context {DV : DvrAddress}.

(** What VPP keeps of a path: a weight of zero becomes one. *)
Definition path_kept (sent p : FibPath) : Prop :=
  hop p = hop sent /\ fp_Preference p = fp_Preference sent
  /\ (is_dvr p = true -> nh_Address (fp_Nh p) = vpp_dvr_address (fp_Proto p))
  /\ fp_Weight p = (if (fp_Weight sent =? 0)%Z then 1 else fp_Weight sent)%Z.

(** Different paths are kept in some order; those of a request are removed. *)
Definition paths_added (sent kept : list FibPath) : Prop :=
  NoDup (map hop sent) -> exists l, l ≡ₚ sent /\ Forall2 path_kept l kept.
Definition paths_removed (sent old rest : list FibPath) : Prop :=
  forall p, p ∈ rest <-> p ∈ old /\ hop p ∉ map hop sent.

Definition same_attachment (a b : AbfItfAttach) : bool :=
  (aa_PolicyID a =? aa_PolicyID b)%Z && (aa_SwIfIndex a =? aa_SwIfIndex b)%Z && Bool.eqb (aa_IsIPv6 a) (aa_IsIPv6 b).

Inductive abf_step : AbfRequest -> AbfState -> AbfState -> Prop :=
  | step_policy_add st id acl n sent kept : st_policies st !! id = None -> paths_added sent kept ->
      abf_step (AbfPolicyAddDel true (MkAbfPolicy id acl n sent)) st (set_policies <[id := (acl, kept)]> st)
  | step_policy_extend st id acl n sent old kept : st_policies st !! id = Some (acl, old) ->
      abf_step (AbfPolicyAddDel true (MkAbfPolicy id acl n sent)) st (set_policies <[id := (acl, kept)]> st)
  | step_policy_del st id acl' n sent acl old rest : st_policies st !! id = Some (acl, old) -> paths_removed sent old rest ->
      abf_step (AbfPolicyAddDel false (MkAbfPolicy id acl' n sent)) st
        (set_policies (if decide (rest = []) then delete id else <[id := (acl, rest)]>) st)
  | step_attach st a l : l ≡ₚ a :: st_attached st -> Forall (fun b => same_attachment a b = false) (st_attached st) ->
      abf_step (AbfItfAttachAddDel true a) st (set_attached l st)
  | step_detach st a l : l ≡ₚ filter (fun b => same_attachment a b = false) (st_attached st) ->
      abf_step (AbfItfAttachAddDel false a) st (set_attached l st).

Lemma attachment_step isAdd a st st' : abf_step (AbfItfAttachAddDel isAdd a) st st' -> st_policies st' = st_policies st
  /\ if isAdd then st_attached st' ≡ₚ a :: st_attached st
     else st_attached st' ≡ₚ filter (fun b => same_attachment a b = false) (st_attached st).
Proof. intros H. by inversion H; subst. Qed.

End steps.

(** A request that succeeds is such a step; dumps report what there is. *)
Class AbfLaws {X : Ext} {CH : AbfChannel} {DV : DvrAddress} := {
  abf_state : World -> AbfState;
  vpp_abf_request : forall req w w', abf_SendRequest req w = (None, w') -> abf_step req (abf_state w) (abf_state w');
  vpp_attached_dump : forall w l, AbfItfAttachDump w = (l, None) -> l ≡ₚ st_attached (abf_state w);
  vpp_policy_dump : forall w l, AbfPolicyDump w = (l, None) -> forall id acl paths,
    (exists n, MkAbfPolicy id acl n paths ∈ l) <-> st_policies (abf_state w) !! id = Some (acl, paths)
}.

(** ** Next hops *)

Section paths.
Context {X : Ext} {IX : Indexes} {DV : DvrAddress} (ifIndexes : Mapping).

(** A text that gives an address, as VPP's answer is printed. *)
Definition hop_canonical (s : string) : bool :=
  let ip := ParseIP s in negb (length ip =? 0) && String.eqb (ip_String ip) s.

(** The address and the protocol that are sent, their text, and what is sent for it. *)
Lemma abf_hop_text s : let '((nh, proto), _) := VppAbf.setFibPathNhAndProto s in
  parseNextHopToString nh proto = (if length (ParseIP s) =? 0 then "0.0.0.0" else ip_String (ParseIP s))
  /\ exists nh', VppAbf.setFibPathNhAndProto (parseNextHopToString nh proto) = ((nh', proto), None) /\ nh_Address nh' = nh_Address nh.
Proof.
  destruct (ParseIP_ok s) as [E|[Hip _]].
  { unfold VppAbf.setFibPathNhAndProto at 1. rewrite E. cbn [length Nat.eqb]. split; [by vm_compute|]. eexists. by split; vm_compute. }
  assert (forall t, ParseIP t = ParseIP s -> exists nh,
    VppAbf.setFibPathNhAndProto t = ((nh, if is_v4 (ParseIP s) then FIB_API_PATH_NH_PROTO_IP4 else FIB_API_PATH_NH_PROTO_IP6), None)
    /\ nh_Address nh = if is_v4 (ParseIP s) then copy_bytes 16 (copy_bytes 4 (drop 12 (ParseIP s))) else copy_bytes 16 (ParseIP s)) as Hset.
  { intros t Ht. unfold VppAbf.setFibPathNhAndProto, is_v4. rewrite Ht, (proj1 Hip). cbn [Nat.eqb].
    destruct (length (To4 (ParseIP s)) =? 0); cbn [negb]; by eexists. }
  destruct (Hset s eq_refl) as (nh & -> & Ha). rewrite (proj1 Hip). cbn [Nat.eqb].
  assert (parseNextHopToString nh (if is_v4 (ParseIP s) then FIB_API_PATH_NH_PROTO_IP4 else FIB_API_PATH_NH_PROTO_IP6)
    = ip_String (ParseIP s)) as ->.
  { unfold parseNextHopToString. rewrite Ha. rewrite <- (sent_address (ParseIP s)) by by right. unfold addressToIP, union_text.
    destruct (is_v4 (ParseIP s)) eqn:E4; cbn [negb Af Un].
    - assert (To4 (ParseIP s) = drop 12 (ParseIP s)) as ->; [|done].
      revert E4. unfold is_v4, To4. rewrite (proj1 Hip). cbn [Nat.eqb andb]. by destruct (bool_decide _).
    - assert (To16 (ParseIP s) = ParseIP s) as E by (unfold To16; by rewrite (proj1 Hip)). by rewrite E. }
  split; [done|]. destruct (Hset (ip_String (ParseIP s))) as (nh' & -> & Ha'); [|by exists nh'; rewrite Ha, Ha'].
  rewrite ParseIP_String by by right. unfold To16. by rewrite (proj1 Hip).
Qed.

(** The text that is dumped for the next hop of a path with DVR; it has the protocol
    that is sent. *)
Definition dvr_text (s : string) : string :=
  let '((_, proto), _) := VppAbf.setFibPathNhAndProto s in
  parseNextHopToString (MkFibPathNh (vpp_dvr_address proto) 0 0 0) proto.

Lemma sent_proto s nh proto err : VppAbf.setFibPathNhAndProto s = ((nh, proto), err) ->
  proto = FIB_API_PATH_NH_PROTO_IP4 \/ proto = FIB_API_PATH_NH_PROTO_IP6.
Proof.
  unfold VppAbf.setFibPathNhAndProto. destruct (_ =? 0); [intros [= _ <- _]; by left|].
  destruct (_ =? 0); intros [= _ <- _]; auto.
Qed.

Lemma text_proto ip proto : ip_ok 4 ip /\ proto = FIB_API_PATH_NH_PROTO_IP4
    \/ ip_ok 16 ip /\ is_v4 ip = false /\ proto = FIB_API_PATH_NH_PROTO_IP6 ->
  exists nh, VppAbf.setFibPathNhAndProto (ip_String ip) = ((nh, proto), None).
Proof.
  intros H. unfold VppAbf.setFibPathNhAndProto.
  assert (ParseIP (ip_String ip) = To16 ip) as -> by (apply ParseIP_String; tauto).
  destruct H as [[Hip ->]|(Hip & H6 & ->)].
  - assert (length (To16 ip) = 16 /\ length (To4 (To16 ip)) = 4) as [-> ->]; [|by eexists].
    destruct Hip as [Hl _]. destruct ip as [|a [|b [|c [|d [|? ?]]]]]; try done.
  - assert (To16 ip = ip) as -> by (unfold To16; by rewrite (proj1 Hip)). rewrite (proj1 Hip).
    unfold is_v4 in H6. apply negb_false_iff in H6. rewrite H6. by eexists.
Qed.

Lemma dvr_hop_text s nh proto err : VppAbf.setFibPathNhAndProto s = ((nh, proto), err) ->
  exists nh', VppAbf.setFibPathNhAndProto (dvr_text s) = ((nh', proto), None).
Proof.
  intros H. unfold dvr_text. rewrite H. unfold parseNextHopToString, union_text. cbn [nh_Address].
  pose proof (vpp_dvr_ok proto) as Hok. rewrite (copy_bytes_exact 16 _ (proj1 Hok)).
  destruct (sent_proto _ _ _ _ H) as [->| ->]; cbn [Z.eqb Pos.eqb].
  - assert (ip_ok 4 (take 4 (vpp_dvr_address FIB_API_PATH_NH_PROTO_IP4))) as H4.
    { split; [rewrite length_take, (proj1 Hok); lia|apply Forall_take, Hok]. }
    rewrite (To4_4 _ (proj1 H4)). apply text_proto. auto.
  - assert (To16 (vpp_dvr_address FIB_API_PATH_NH_PROTO_IP6) = vpp_dvr_address FIB_API_PATH_NH_PROTO_IP6) as E
      by (unfold To16; by rewrite (proj1 Hok)).
    cbn. rewrite E. apply text_proto. right. split; [done|]. split; [apply vpp_dvr_v6|done].
Qed.

(** The index leads from the numbers of known interfaces back to their names. *)
Definition names_back : Prop := forall name meta, iface_LookupByName ifIndexes name = Some meta ->
  known_interface ifIndexes (SwIfIndex meta) = name.

(** A path that is read back as configured: over a known interface, with a next hop
    in canonical form, or with DVR the one that is dumped for such paths, and with a
    weight and a preference that fit into a byte. *)
Definition path_reported (path : ABF_ForwardingPath) : bool :=
  match iface_LookupByName ifIndexes (abfp_InterfaceName path) with Some _ => true | None => false end
  && (if abfp_Dvr path then String.eqb (dvr_text (abfp_NextHopIp path)) (abfp_NextHopIp path)
      else hop_canonical (abfp_NextHopIp path))
  && fits8 (abfp_Weight path) && negb (abfp_Weight path =? 0)%Z && fits8 (abfp_Preference path).

Abbreviation dumped := (dumped_forwarding_path ifIndexes).
Abbreviation sent_as := (to_fib_path ifIndexes).

Context (Hback : names_back).

Lemma sent_fields path sent : sent_as path = Some sent ->
  exists meta nh proto err, iface_LookupByName ifIndexes (abfp_InterfaceName path) = Some meta
    /\ VppAbf.setFibPathNhAndProto (abfp_NextHopIp path) = ((nh, proto), err)
    /\ hop sent = (SwIfIndex meta, proto, if abfp_Dvr path then None else Some (nh_Address nh))
    /\ fp_Weight sent = uint8 (abfp_Weight path) /\ fp_Preference sent = uint8 (abfp_Preference path).
Proof.
  unfold to_fib_path. intros H. destruct (iface_LookupByName _ _) as [meta|]; [|done]. cbn [mbind option_bind] in H.
  destruct (VppAbf.setFibPathNhAndProto _) as [[nh proto] err]. injection H as <-. exists meta, nh, proto, err.
  split_and!; try done. unfold hop, is_dvr. cbn. by destruct (abfp_Dvr path).
Qed.

(** The path that is dumped for one that VPP keeps. *)
Lemma dumped_kept path sent p : sent_as path = Some sent -> path_kept sent p ->
  abfp_InterfaceName (dumped p) = abfp_InterfaceName path
  /\ abfp_NextHopIp (dumped p)
     = (if abfp_Dvr path then dvr_text (abfp_NextHopIp path)
        else if length (ParseIP (abfp_NextHopIp path)) =? 0 then "0.0.0.0" else ip_String (ParseIP (abfp_NextHopIp path)))
  /\ abfp_Weight (dumped p) = (if (uint8 (abfp_Weight path) =? 0)%Z then 1 else uint8 (abfp_Weight path))%Z
  /\ abfp_Preference (dumped p) = uint8 (abfp_Preference path) /\ abfp_Dvr (dumped p) = abfp_Dvr path.
Proof.
  intros Hs (Hh & Hp & Ht & Hw). destruct (sent_fields _ _ Hs) as (meta & nh & proto & err & Hm & Hn & Hh' & Hw' & Hp').
  rewrite Hh' in Hh. injection Hh as E1 E2 E3. unfold dumped_forwarding_path. cbn [abfp_InterfaceName abfp_NextHopIp abfp_Weight
    abfp_Preference abfp_Dvr]. fold (is_dvr p). rewrite E1, (Hback _ _ Hm), Hw, Hw', Hp, Hp', E2. clear Hw Hw' Hp Hp' Hh'.
  destruct (is_dvr p) eqn:Ed, (abfp_Dvr path); try done; split_and!; try done.
  - specialize (Ht eq_refl). rewrite E2 in Ht. unfold dvr_text. rewrite Hn. unfold parseNextHopToString. by rewrite Ht.
  - injection E3 as E3. pose proof (abf_hop_text (abfp_NextHopIp path)) as Ht'. rewrite Hn in Ht'. destruct Ht' as [<- _].
    unfold parseNextHopToString. by rewrite E3.
Qed.

Lemma same_path_spec a b : same_path a b = true <-> a = b.
Proof.
  unfold same_path. rewrite !andb_true_iff, !String.eqb_eq, !Z.eqb_eq, Bool.eqb_true_iff. destruct a, b. cbn.
  split; [by intros ((((-> & ->) & ->) & ->) & ->)|]. by intros [= -> -> -> -> ->].
Qed.

Lemma kept_reported path sent p : sent_as path = Some sent -> path_kept sent p ->
  dumped p = path <-> path_reported path = true.
Proof.
  intros Hs Hk. destruct (dumped_kept _ _ _ Hs Hk) as (H1 & H2 & H3 & H4 & H5).
  destruct (sent_fields _ _ Hs) as (meta & _ & _ & _ & Hm & _).
  unfold path_reported, hop_canonical, fits8. rewrite Hm. cbn [andb].
  assert (forall w, uint8 w = w /\ w <> 0%Z <-> (if (uint8 w =? 0)%Z then 1 else uint8 w)%Z = w) as Hweight.
  { intros w. destruct (Z.eqb_spec (uint8 w) 0) as [Ew|Ew]; [|split; [tauto|intros E; split; [done|congruence]]].
    split; [intros [E1 E2]; congruence|]. intros <-. by vm_compute in Ew. }
  assert (forall s, (if length (ParseIP s) =? 0 then "0.0.0.0" else ip_String (ParseIP s)) = s
    <-> negb (length (ParseIP s) =? 0) && String.eqb (ip_String (ParseIP s)) s = true) as Hcanon.
  { intros s. rewrite andb_true_iff, negb_true_iff, String.eqb_eq. destruct (Nat.eqb_spec (length (ParseIP s)) 0) as [E0|E0].
    - split; [intros <-; by vm_compute in E0|by intros []].
    - tauto. }
  assert (abfp_NextHopIp (dumped p) = abfp_NextHopIp path
    <-> (if abfp_Dvr path then String.eqb (dvr_text (abfp_NextHopIp path)) (abfp_NextHopIp path)
         else negb (length (ParseIP (abfp_NextHopIp path)) =? 0)
              && String.eqb (ip_String (ParseIP (abfp_NextHopIp path))) (abfp_NextHopIp path)) = true) as Hhop.
  { rewrite H2. destruct (abfp_Dvr path); [by rewrite String.eqb_eq|apply Hcanon]. }
  rewrite !andb_true_iff, <- Hhop, negb_true_iff, !Z.eqb_eq, Z.eqb_neq. clear Hhop H2 Hk.
  specialize (Hweight (abfp_Weight path)). rewrite <- H3 in Hweight. clear H3.
  destruct (dumped p) as [dn di dw dp dd], path as [n i w pr d]. cbn in *. subst. split.
  - intros [= -> E2 E3]. split_and!; [done|tauto..|congruence].
  - intros ((([= ->] & E2) & E3) & E4). destruct Hweight as [Hw _]. rewrite E4. f_equal. tauto.
Qed.

(** A path that equals the one dumped for another goes to the same place. *)
Lemma dumped_hop path path' sent sent' p : sent_as path = Some sent -> path_kept sent p ->
  dumped p = path' -> sent_as path' = Some sent' -> hop sent' = hop sent.
Proof.
  intros Hs Hk He Hs'. destruct (dumped_kept _ _ _ Hs Hk) as (H1 & H2 & _ & _ & H5).
  destruct (sent_fields _ _ Hs) as (meta & nh & proto & err & Hm & Hn & Hh & _). rewrite He in *.
  destruct (sent_fields _ _ Hs') as (meta' & nh' & proto' & err' & Hm' & Hn' & Hh' & _). rewrite Hh, Hh'.
  rewrite H1, Hm in Hm'. injection Hm' as <-. rewrite H5 in *. destruct (abfp_Dvr path).
  - destruct (dvr_hop_text _ _ _ _ Hn) as [nh2 Hn2]. rewrite <- H2, Hn' in Hn2. by injection Hn2 as _ -> _.
  - pose proof (abf_hop_text (abfp_NextHopIp path)) as Ht. rewrite Hn in Ht. destruct Ht as (Ht & nh2 & Hn2 & Ha).
    rewrite Ht, <- H2, Hn' in Hn2. injection Hn2 as -> -> ->. by rewrite Ha.
Qed.
End paths.

(** *** Lists of paths *)

Lemma omap_length_all {A B} (f : A -> option B) l : length (omap f l) = length l <-> forall x, x ∈ l -> is_Some (f x).
Proof.
  assert (forall l, length (omap f l) <= length l) as Hle.
  { clear. induction l as [|x l IH]; [done|]. cbn. destruct (f x); cbn; unfold omap in *; lia. }
  induction l as [|x l IH]; [split; [by intros _ x ?%elem_of_nil|done]|]. cbn [omap list_omap]. specialize (Hle l).
  destruct (f x) as [y|] eqn:E; cbn [length].
  - split; [|intros H; f_equal; apply IH; intros z Hz; apply H; by right].
    intros [= H] z [->|Hz]%elem_of_cons; [by rewrite E|by apply IH].
  - split; [unfold omap in *; lia|]. intros H. destruct (H x (list_elem_of_here _ _)) as [y Hy]. congruence.
Qed.

(** Distinct results come from one element each. *)
Lemma omap_inj {A B C} (f : A -> option B) (g : B -> C) l x x' y y' : NoDup (map g (omap f l)) -> x ∈ l -> x' ∈ l ->
  f x = Some y -> f x' = Some y' -> g y = g y' -> x = x'.
Proof.
  intros Hn Hx Hx' Hy Hy' Hg. induction l as [|z l IH]; [by apply elem_of_nil in Hx|].
  assert (forall x y, x ∈ l -> f x = Some y -> g y ∈ map g (omap f l)) as Hin.
  { intros a b Ha Hb. apply list_elem_of_fmap. exists b. split; [done|]. apply list_elem_of_omap. by exists a. }
  cbn [omap list_omap] in Hn. destruct (f z) as [yz|] eqn:Ez.
  - cbn [map] in Hn. apply NoDup_cons in Hn as [Hn1 Hn2].
    apply elem_of_cons in Hx as [->|Hx], Hx' as [->|Hx']; [done| | |by apply IH].
    + destruct Hn1. assert (yz = y) as -> by congruence. rewrite Hg. by eapply Hin.
    + destruct Hn1. assert (yz = y') as -> by congruence. rewrite <- Hg. by eapply Hin.
  - apply elem_of_cons in Hx as [->|Hx], Hx' as [->|Hx']; [done|congruence..|by apply IH].
Qed.

Section lists.
Context {X : Ext} {IX : Indexes} {DV : DvrAddress} (ifIndexes : Mapping) (Hback : names_back ifIndexes).

Abbreviation dumped := (dumped_forwarding_path ifIndexes).
Abbreviation sent_as := (to_fib_path ifIndexes).

(** Distinct paths as VPP keeps them are equivalent to the configured ones exactly
    if each of these is reported. *)
Lemma paths_reported paths kept : NoDup (map hop (toFibPaths ifIndexes paths)) -> paths_added (toFibPaths ifIndexes paths) kept ->
  (length (map dumped kept) =? length paths) && equivalentABFForwardingPaths (map dumped kept) paths
  = forallb (path_reported ifIndexes) paths.
Proof.
  intros Hn Hk. destruct (Hk Hn) as (l & Hl & Hk'). clear Hk. rename Hk' into Hk.
  assert (forall k, k ∈ kept -> exists s p, p ∈ paths /\ sent_as p = Some s /\ path_kept s k) as Hfrom.
  { intros k (i & Hi)%list_elem_of_lookup. destruct (Forall2_lookup_r _ _ _ _ _ Hk Hi) as (s & Hs & Hsk).
    apply list_elem_of_lookup_2 in Hs. rewrite Hl in Hs. apply list_elem_of_omap in Hs as (p & Hp & Hs). by exists s, p. }
  assert (forall s, s ∈ toFibPaths ifIndexes paths -> exists k, k ∈ kept /\ path_kept s k) as Hto.
  { intros s Hs. rewrite <- Hl in Hs. apply list_elem_of_lookup in Hs as (i & Hi).
    destruct (Forall2_lookup_l _ _ _ _ _ Hk Hi) as (k & Hki & Hsk). apply list_elem_of_lookup_2 in Hki. by exists k. }
  assert (length (map dumped kept) = length (toFibPaths ifIndexes paths)) as Hlen.
  { rewrite length_map, <- (Forall2_length _ _ _ Hk). by rewrite Hl. }
  apply Bool.eq_iff_eq_true. rewrite andb_true_iff, Nat.eqb_eq, Hlen. unfold toFibPaths at 1.
  rewrite omap_length_all. unfold equivalentABFForwardingPaths. rewrite !forallb_forall. split.
  - intros [Hall Heq] p Hp%list_elem_of_In. destruct (Hall p Hp) as [s Hs].
    destruct (Hto s) as (k & Hki & Hsk); [apply list_elem_of_omap; by exists p|].
    destruct (existsb_exists (same_path (dumped k)) paths) as [H _].
    destruct (H (Heq _ (in_map _ _ _ (proj1 (list_elem_of_In _ _) Hki)))) as (q & Hq%list_elem_of_In & E%same_path_spec).
    destruct (Hall q Hq) as [sq Hsq]. assert (p = q) as <-.
    { eapply (omap_inj sent_as hop); [exact Hn|done..|]. symmetry. eapply dumped_hop; eauto. }
    by apply (kept_reported ifIndexes Hback p s k Hs Hsk).
  - intros H. assert (forall p, p ∈ paths -> path_reported ifIndexes p = true) as H' by (intros p; rewrite list_elem_of_In; apply H).
    split.
    + intros p Hp. specialize (H' p Hp). unfold path_reported in H'. unfold to_fib_path.
      destruct (iface_LookupByName _ _); [|done]. cbn. destruct (VppAbf.setFibPathNhAndProto _) as [[? ?] ?]. by eexists.
    + intros d (k & <- & Hki)%in_map_iff. apply list_elem_of_In in Hki. destruct (Hfrom k Hki) as (s & p & Hp & Hs & Hsk).
      apply existsb_exists. exists p. split; [by apply list_elem_of_In|]. apply same_path_spec.
      apply (kept_reported ifIndexes Hback p s k Hs Hsk), H', Hp.
Qed.

(** ** What is attached *)

Definition sent_attachment (id : Z) (a : ABF_AttachedInterface) : option AbfItfAttach :=
  meta ← iface_LookupByName ifIndexes (abfi_InputInterface a); Some (MkItfAttach id (SwIfIndex meta) (abfi_Priority a) (abfi_IsIpv6 a)).

Lemma attachment_dumped id a s : sent_attachment id a = Some s -> aa_PolicyID s = id /\ attached_entry ifIndexes s = a.
Proof.
  unfold sent_attachment. destruct (iface_LookupByName _ _) as [meta|] eqn:E; [|done]. intros [= <-]. split; [done|].
  unfold attached_entry. cbn. rewrite (Hback _ _ E). by destruct a.
Qed.

(** The attachments of a policy, in the order of the dump. *)
Lemma attached_of_policy l k :
  default [] (fold_left (fun m a => <[aa_PolicyID a := default [] (m !! aa_PolicyID a) ++ [attached_entry ifIndexes a]]> m) l
    (∅ : gmap Z (list ABF_AttachedInterface)) !! k)
  = map (attached_entry ifIndexes) (filter (fun a => aa_PolicyID a = k) l).
Proof.
  induction l as [|a l IH] using rev_ind; [done|]. rewrite fold_left_app, filter_app, map_app, <- IH. cbn [fold_left].
  destruct (decide (aa_PolicyID a = k)) as [<-|Hne].
  - rewrite lookup_insert_eq. rewrite filter_cons_True by done. by rewrite filter_nil.
  - rewrite lookup_insert_ne by done. rewrite filter_cons_False by done. by rewrite filter_nil, app_nil_r.
Qed.

(** The last entry for an interface. *)
Lemma attached_params_last name attached :
  attached_params name attached
  = match last (filter (fun a => abfi_InputInterface a = name) attached) with
    | Some a => (abfi_IsIpv6 a, abfi_Priority a) | None => (false, 0%Z) end.
Proof.
  unfold attached_params. induction attached as [|a l IH] using rev_ind; [done|].
  rewrite fold_left_app, filter_app. cbn [fold_left]. destruct (String.eqb_spec (abfi_InputInterface a) name) as [E|E].
  - rewrite filter_cons_True by done. by rewrite filter_nil, last_snoc.
  - rewrite filter_cons_False by done. by rewrite filter_nil, app_nil_r.
Qed.

Lemma equivalent_perm l l' : l ≡ₚ l' -> (length l =? length l') && equivalentABFAttachedInterfaces l l' = true.
Proof.
  intros H. rewrite H at 1. rewrite Nat.eqb_refl. cbn [andb]. apply forallb_forall. intros a Ha.
  apply existsb_exists. exists a. split; [|by apply bool_decide_eq_true]. by rewrite <- list_elem_of_In, <- H, list_elem_of_In.
Qed.
End lists.

(** ** Keys of attachments *)

Lemma abf_ToInterfaceKey_eq id iface : iface <> "" ->
  abf_ToInterfaceKey id iface = "vpp/abf/" +:+ Itoa id +:+ "/interface/" +:+ iface.
Proof.
  intros Hi. unfold abf_ToInterfaceKey, is_empty. rewrite (proj2 (String.eqb_neq _ _) Hi).
  pose proof (Itoa_no_brace id) as Hb. unfold abfToInterfaceTemplate.
  fill "abf}" "vpp/abf/" "/interface/{iface}".
  fill "iface}" ("vpp/abf/" +:+ Itoa id +:+ "/interface/") "". by rewrite append_nil_r.
Qed.

Lemma Split_abf_key id iface :
  Split ("vpp/abf/" +:+ Itoa id +:+ "/interface/" +:+ iface) = "vpp" :: "abf" :: Itoa id :: "interface" :: Split iface.
Proof.
  change ("vpp/abf/" +:+ ?x) with ("vpp" +:+ "/" +:+ ("abf" +:+ "/" +:+ x)). rewrite !Split_cons by done.
  change ("/interface/" +:+ ?x) with ("/" +:+ ("interface" +:+ "/" +:+ x)). by rewrite !Split_cons by (done || apply Itoa_no_slash).
Qed.

Lemma abf_key_parsed id iface : iface <> "" -> ParseToInterfaceKey (abf_ToInterfaceKey id iface) = (Itoa id, iface, true).
Proof.
  intros Hi. rewrite abf_ToInterfaceKey_eq by done. unfold ParseToInterfaceKey. rewrite Split_abf_key.
  pose proof (Split_ne iface) as Hs. pose proof (Join_Split iface) as Hj. destruct (Split iface) as [|p rest]; [done|].
  cbn [String.eqb Ascii.eqb Bool.eqb andb]. rewrite Hj. unfold is_empty. rewrite (proj2 (String.eqb_neq _ _) Hi).
  assert (Itoa id <> "") as Hne by by apply Itoa_not_word. by rewrite (proj2 (String.eqb_neq _ _) Hne).
Qed.

Lemma abf_key_not_model id iface : iface <> "" -> IsKeyValid ModelABF (abf_ToInterfaceKey id iface) = false.
Proof.
  intros Hi. rewrite abf_ToInterfaceKey_eq by done. apply (foreign_key "ligato.vpp.abf.ABF" "vpp"); [reflexivity|by split| |reflexivity].
  rewrite Split_abf_key. by eexists.
Qed.

#[local] Transparent abf_Key.

(** The label of a policy is its number. *)
Lemma abf_key_label id : IsKeyValid ModelABF (abf_Key id) = true /\ StripKeyPrefix ModelABF (abf_Key id) = Itoa id
  /\ IsABFInterfaceKey (abf_Key id) = false.
Proof.
  assert (element_name (Itoa id)) as He.
  { split; [|apply Itoa_no_slash]. split_and!; by apply Itoa_not_word. }
  destruct (element_clean _ He) as [Hc Ht].
  destruct (models_Key_valid "ligato.vpp.abf.ABF" (msg "ligato.vpp.abf.ABF" [("Index", TInt id)]) (Itoa id)) as (H1 & H2 & rest & E);
    [reflexivity..| |exact Hc|].
  { transitivity (inl (Itoa id +:+ "") : string + string); [reflexivity|by rewrite append_nil_r]. }
  split; [by apply H1|]. split; [by rewrite <- Ht|].
  unfold IsABFInterfaceKey, ParseToInterfaceKey. unfold abf_Key. rewrite E. by destruct rest as [|? [|? [|? [|]]]].
Qed.

#[local] Opaque abf_Key.

(** ** Attachments *)

Section attachments.
Context {X : Ext} {IX : Indexes} {AX : AclIndexes} {BX : AbfIndexes} {AT : AbfTypes} {CH : AbfChannel} {DV : DvrAddress} {LA : AbfLaws}.
Context (abfIndex aclIndex ifIndexes : Mapping).

Abbreviation handler := (NewABFVppHandler aclIndex ifIndexes).

Lemma with_message_done msg c w w' : with_message msg c w = (None, w') -> c w = (None, w').
Proof. unfold with_message. by destruct (c w) as [[err|] w1]. Qed.

Lemma attach_done isAdd v6 id idx priority w w' : attach_interface isAdd v6 id idx priority w = (None, w') ->
  abf_step (AbfItfAttachAddDel isAdd (MkItfAttach id idx priority v6)) (abf_state w) (abf_state w').
Proof. intros H%with_message_done. by apply vpp_abf_request. Qed.

Lemma process_key id name md : name <> "" -> abf_LookupByName abfIndex (Itoa id) = (Some md, true) ->
  process abfIndex ifIndexes (abf_ToInterfaceKey id name)
  = match iface_LookupByName ifIndexes name with
    | None => inr (errorf ("failed to obtain metadata for interface " +:+ name))
    | Some meta => let '(v6, priority) := attached_params name (abm_Attached md) in inl (v6, abm_Index md, SwIfIndex meta, priority)
    end.
Proof.
  intros Hn Hmd. unfold process. rewrite abf_key_parsed by done. cbn [negb]. rewrite Hmd. by destruct (iface_LookupByName _ _).
Qed.

(** The entry that decides about an interface. *)
Definition deciding (name : string) (attached : list ABF_AttachedInterface) : option ABF_AttachedInterface :=
  last (filter (fun a => abfi_InputInterface a = name) attached).

Lemma deciding_name name attached a : deciding name attached = Some a -> a ∈ attached /\ abfi_InputInterface a = name.
Proof. intros H%last_Some_elem_of. by apply list_elem_of_filter in H as [? ?]. Qed.

Lemma deciding_distinct a attached : NoDup (map abfi_InputInterface attached) -> a ∈ attached ->
  deciding (abfi_InputInterface a) attached = Some a.
Proof.
  intros Hn Ha. unfold deciding. induction attached as [|b l IH]; [by apply elem_of_nil in Ha|].
  cbn [map] in Hn. apply NoDup_cons in Hn as [Hb Hn]. apply elem_of_cons in Ha as [->|Ha].
  - rewrite filter_cons_True by done. assert (filter (fun x => abfi_InputInterface x = abfi_InputInterface b) l = []) as ->; [|done].
    apply elem_of_nil_inv. intros x [E Hx]%list_elem_of_filter. apply Hb. apply list_elem_of_fmap. by exists x.
  - rewrite filter_cons_False by (intros E; apply Hb; rewrite E; by apply list_elem_of_fmap_2). by apply IH.
Qed.

Lemma create_attachment id a md v m w w' : abf_LookupByName abfIndex (Itoa id) = (Some md, true) -> abm_Index md = id ->
  abfi_InputInterface a <> "" -> deciding (abfi_InputInterface a) (abm_Attached md) = Some a ->
  abfi_Create abfIndex ifIndexes handler (abf_ToInterfaceKey id (abfi_InputInterface a)) v w = ((m, None), w') ->
  exists s, sent_attachment ifIndexes id a = Some s /\ abf_step (AbfItfAttachAddDel true s) (abf_state w) (abf_state w').
Proof.
  intros Hmd Hid Hne Hlast. unfold abfi_Create, sent_attachment. rewrite (process_key id _ md) by done.
  destruct (iface_LookupByName _ _) as [meta|]; [|done]. rewrite attached_params_last. unfold deciding in Hlast. rewrite Hlast, Hid.
  cbn [mbind option_bind]. destruct (abfi_IsIpv6 a).
  - cbn [AbfAttachInterfaceIPv6 NewABFVppHandler]. destruct (attach_interface _ _ _ _ _ w) as [err w1] eqn:E.
    intros [= _ -> <-]. apply attach_done in E. eexists. by split.
  - cbn [AbfAttachInterfaceIPv4 NewABFVppHandler]. destruct (attach_interface _ _ _ _ _ w) as [err w1] eqn:E.
    intros [= _ -> <-]. apply attach_done in E. eexists. by split.
Qed.

Lemma delete_attachment id a md v m w w' : abf_LookupByName abfIndex (Itoa id) = (Some md, true) -> abm_Index md = id ->
  abfi_InputInterface a <> "" -> deciding (abfi_InputInterface a) (abm_Attached md) = Some a ->
  abfi_Delete abfIndex ifIndexes handler (abf_ToInterfaceKey id (abfi_InputInterface a)) v m w = (None, w') ->
  exists s, sent_attachment ifIndexes id a = Some s /\ abf_step (AbfItfAttachAddDel false s) (abf_state w) (abf_state w').
Proof.
  intros Hmd Hid Hne Hlast. unfold abfi_Delete, sent_attachment. rewrite (process_key id _ md) by done.
  destruct (iface_LookupByName _ _) as [meta|]; [|done]. rewrite attached_params_last. unfold deciding in Hlast. rewrite Hlast, Hid.
  cbn [mbind option_bind]. intros H. eexists. split; [done|]. by destruct (abfi_IsIpv6 a); apply attach_done in H.
Qed.

(** The derived values of a policy created one after another. *)
Definition create_attachments (key : string) (abf : ABF) : Call :=
  call_each (fun kv w => let '((_, err), w) := abfi_Create abfIndex ifIndexes handler (kvp_Key kv) (kvp_Value kv) w in (err, w))
    (abf_DerivedValues key abf).

Lemma create_attachments_done id md l w w' : abf_LookupByName abfIndex (Itoa id) = (Some md, true) -> abm_Index md = id ->
  NoDup (map abfi_InputInterface (abm_Attached md)) -> Forall (fun a => abfi_InputInterface a <> "") (abm_Attached md) ->
  l ⊆ abm_Attached md ->
  call_each (fun kv w => let '((_, err), w) := abfi_Create abfIndex ifIndexes handler (kvp_Key kv) (kvp_Value kv) w in (err, w))
    (map (fun a => MkKeyValuePair (abf_ToInterfaceKey id (abfi_InputInterface a)) (Some abf_Empty)) l) w = (None, w') ->
  exists new, Forall2 (fun a s => sent_attachment ifIndexes id a = Some s) l new
    /\ st_attached (abf_state w') ≡ₚ new ++ st_attached (abf_state w)
    /\ st_policies (abf_state w') = st_policies (abf_state w).
Proof.
  intros Hmd Hid Hn Hne. revert w. induction l as [|a l IH]; intros w Hl; cbn [map call_each].
  { intros [= <-]. exists []. split_and!; [constructor|done|done]. }
  cbn [kvp_Key kvp_Value].
  destruct (abfi_Create _ _ _ _ _ w) as [[m [err|]] w1] eqn:E; [done|]. intros H.
  assert (a ∈ abm_Attached md) as Ha by (apply Hl; left).
  apply (create_attachment id a md) in E as (s & Hs & Hstep); [|done|done|by apply (proj1 (Forall_forall _ _) Hne)|by apply deciding_distinct].
  destruct (IH w1) as (new & Hnew & Hp & Hpol); [by intros x Hx; apply Hl; right|done|].
  apply attachment_step in Hstep as [Hpol1 Hperm]. exists (s :: new). split_and!; [by constructor| |congruence].
  rewrite Hp, Hperm. by rewrite <- Permutation_middle.
Qed.
End attachments.

(** ** Policies *)

Section policies.
Context {X : Ext} {IX : Indexes} {AX : AclIndexes} {BX : AbfIndexes} {AT : AbfTypes} {CH : AbfChannel} {DV : DvrAddress} {LA : AbfLaws}.
Context (abfIndex aclIndex ifIndexes : Mapping).

Abbreviation handler := (NewABFVppHandler aclIndex ifIndexes).

Lemma abf_create_done key abf md w w' : abf_Create handler aclIndex key abf w = ((md, None), w') ->
  exists aclData n, acl_LookupByName aclIndex (abf_AclName abf) = (Some aclData, true)
    /\ md = Some (MkABFMetadata (abf_Index abf) (abf_AttachedInterfaces abf))
    /\ abf_step (AbfPolicyAddDel true (MkAbfPolicy (abf_Index abf) (am_Index aclData) n (toFibPaths ifIndexes (abf_ForwardingPaths abf))))
         (abf_state w) (abf_state w').
Proof.
  unfold abf_Create. destruct (acl_LookupByName _ _) as [[aclData|] []]; try done.
  cbn [AddAbfPolicy NewABFVppHandler]. destruct (add_abf_policy _ _ _ _ w) as [[err|] w1] eqn:E; [done|]. intros [= <- <-].
  apply with_message_done, vpp_abf_request in E. by eexists _, _.
Qed.

Lemma added_policy id acl n sent st st' : abf_step (AbfPolicyAddDel true (MkAbfPolicy id acl n sent)) st st' ->
  st_policies st !! id = None -> exists kept, paths_added sent kept /\ st_attached st' = st_attached st
    /\ st_policies st' = <[id := (acl, kept)]> (st_policies st).
Proof. intros H Hn. inversion H; subst; [by eexists|congruence]. Qed.

(** A policy as it is dumped. *)
Lemma dumped_policy_elem w l id acl kept : dump_abf_policy aclIndex ifIndexes w = inl l ->
  st_policies (abf_state w) !! id = Some (acl, kept) -> exists attached d, d ∈ l /\ abd_PolicyID d = id
    /\ abd_ABF d = MkABF id (match acl_LookupByIndex aclIndex acl with (name, _, true) => name | _ => unknownName end)
         attached (map (dumped_forwarding_path ifIndexes) kept)
    /\ attached ≡ₚ map (attached_entry ifIndexes) (filter (fun a => aa_PolicyID a = id) (st_attached (abf_state w))).
Proof.
  unfold dump_abf_policy, dumpABFInterfaces, dump_policies. destruct (AbfItfAttachDump w) as [la [err|]] eqn:Ea; [done|].
  destruct (AbfPolicyDump w) as [lp [err|]] eqn:Ep; [done|]. intros [= <-] Hid.
  destruct (proj2 (vpp_policy_dump _ _ Ep id acl kept) Hid) as [n Hn].
  set (m := fold_left _ _ _). pose proof (attached_of_policy ifIndexes la id) as Hm. fold m in Hm.
  exists (default [] (m !! id)), (with_attached m (dumped_policy aclIndex ifIndexes (MkAbfPolicy id acl n kept))). split_and!.
  - apply list_elem_of_fmap_2, list_elem_of_fmap_2. done.
  - unfold with_attached. cbn [abd_PolicyID dumped_policy ap_PolicyID]. by destruct (m !! id).
  - unfold with_attached. cbn [abd_PolicyID dumped_policy ap_PolicyID]. by destruct (m !! id).
  - rewrite Hm. by rewrite (vpp_attached_dump _ _ Ea).
Qed.

(** C20: A policy that was created together with its attachments is read back under its
    key with its number, and it is equivalent to the configured one exactly if each
    of its forwarding paths is reported: the path has a known interface, a next hop
    written as VPP's answer is printed, and a weight and a preference that fit into
    a byte, the weight not zero.  The next hop of a path with DVR has to be the one
    that VPP reports for such paths, of the protocol that the configured one has.  A
    path over an unknown interface, or over none, is left out when the policy is
    sent, and a next hop that cannot be parsed becomes the zero address: such
    policies are accepted by Create, and every resync changes them again.  The
    entries of attached interfaces come back in any order.

    It is assumed that VPP had no policy and no attachments of that number, that the
    paths that are sent go to different places ([hop]: VPP merges others), that the
    attached interfaces have names and different ones, and that the indexes of
    access lists and interfaces lead back to their names. *)
Theorem abf_create_retrieve (key : string) (abf : ABF) (md : option ABFMetadata) (acl : ACLMetadata)
    (w w1 w2 w3 : World) (correlate kvs : list (TypedKVWithMetadata ABF (option ABFMetadata))) :
  abf_Create handler aclIndex key abf w = ((md, None), w1) -> abf_LookupByName abfIndex (Itoa (abf_Index abf)) = (md, true) ->
  create_attachments abfIndex aclIndex ifIndexes key abf w1 = (None, w2) ->
  abf_Retrieve handler correlate w2 = ((kvs, None), w3) ->
  st_policies (abf_state w) !! abf_Index abf = None ->
  Forall (fun a => aa_PolicyID a <> abf_Index abf) (st_attached (abf_state w)) ->
  acl_LookupByName aclIndex (abf_AclName abf) = (Some acl, true) ->
  acl_LookupByIndex aclIndex (am_Index acl) = (abf_AclName abf, Some acl, true) -> names_back ifIndexes ->
  Forall (fun a => abfi_InputInterface a <> "") (abf_AttachedInterfaces abf) ->
  NoDup (map abfi_InputInterface (abf_AttachedInterfaces abf)) ->
  NoDup (map hop (toFibPaths ifIndexes (abf_ForwardingPaths abf))) ->
  exists configured md', MkTypedKV (abf_Key (abf_Index abf)) configured md' FromNB ∈ kvs
    /\ abf_Index configured = abf_Index abf /\ abm_Index <$> md' = Some (abf_Index abf)
    /\ EquivalentABFs key configured abf = forallb (path_reported ifIndexes) (abf_ForwardingPaths abf).
Proof.
  intros Hc Hmd Ha Hr Hfree Hnone Hacl Hback_acl Hback Hne Hnames Hhops.
  apply abf_create_done in Hc as (acl' & n & Hacl' & -> & Hstep). rewrite Hacl in Hacl'. injection Hacl' as <-.
  destruct (added_policy _ _ _ _ _ _ Hstep Hfree) as (kept & Hadded & Hsame & Hpol).
  apply (create_attachments_done abfIndex aclIndex ifIndexes (abf_Index abf) _ _ _ _ Hmd) in Ha as (new & Hnew & Hatt & Hpol2);
    [|done..].
  unfold abf_Retrieve in Hr. cbn [DumpABFPolicy NewABFVppHandler] in Hr.
  destruct (dump_abf_policy aclIndex ifIndexes w2) as [l|] eqn:El; [|done]. injection Hr as <- _.
  destruct (dumped_policy_elem _ _ (abf_Index abf) (am_Index acl) kept El) as (attached & d & Hd & Hid & Habf & Hattached).
  { by rewrite Hpol2, Hpol, lookup_insert_eq. }
  assert (attached ≡ₚ abf_AttachedInterfaces abf) as Hperm.
  { rewrite Hattached, Hatt, Hsame, filter_app.
    assert (filter (fun a => aa_PolicyID a = abf_Index abf) (st_attached (abf_state w)) = []) as ->.
    { apply elem_of_nil_inv. intros x [E Hx]%list_elem_of_filter. by apply (proj1 (Forall_forall _ _) Hnone x). }
    rewrite app_nil_r. clear -Hnew Hback. induction Hnew as [|a s l new Hs Hnew IH]; [done|].
    destruct (attachment_dumped ifIndexes Hback _ _ _ Hs) as [E1 E2]. rewrite filter_cons_True by done. cbn [map]. by rewrite E2, IH. }
  exists (abd_ABF d), (Some (MkABFMetadata (abd_PolicyID d) (abf_AttachedInterfaces (abd_ABF d)))). split_and!.
  - apply list_elem_of_fmap. exists d. split; [|done]. unfold retrieved_abf. by rewrite Habf.
  - by rewrite Habf.
  - cbn. by rewrite Hid.
  - unfold EquivalentABFs. rewrite Habf. cbn [abf_AclName abf_AttachedInterfaces abf_ForwardingPaths]. rewrite Hback_acl, String.eqb_refl.
    cbn [negb]. pose proof (equivalent_perm _ _ Hperm) as [-> ->]%andb_true_iff. cbn [negb].
    rewrite <- (paths_reported ifIndexes Hback _ kept Hhops Hadded).
    by destruct (length (map (dumped_forwarding_path ifIndexes) kept) =? length (abf_ForwardingPaths abf)).
Qed.

Lemma deleted_policy id acl' n sent acl old st st' : abf_step (AbfPolicyAddDel false (MkAbfPolicy id acl' n sent)) st st' ->
  st_policies st !! id = Some (acl, old) -> exists rest, paths_removed sent old rest
    /\ st_policies st' = (if decide (rest = []) then delete id else <[id := (acl, rest)]>) (st_policies st).
Proof. intros H Hid. inversion H as [| |? ? ? ? ? acl0 old0 rest H1 H2| |]; subst. assert (old0 = old /\ acl0 = acl) as [-> ->] by by split; congruence. by exists rest. Qed.
End policies.

Section removal.
Context {X : Ext} {IX : Indexes} {AX : AclIndexes} {BX : AbfIndexes} {AT : AbfTypes} {CH : AbfChannel} {DV : DvrAddress} {LA : AbfLaws}.
(** The index of interfaces when the policy is created and when it is deleted. *)
Context (aclIndex ifIndexes later : Mapping).

(** Interfaces that are known later have kept their numbers. *)
Definition same_numbers : Prop := forall name meta, iface_LookupByName later name = Some meta ->
  exists meta', iface_LookupByName ifIndexes name = Some meta' /\ SwIfIndex meta' = SwIfIndex meta.

Definition known (m : Mapping) (path : ABF_ForwardingPath) : Prop := is_Some (iface_LookupByName m (abfp_InterfaceName path)).

Lemma sent_known m path : is_Some (to_fib_path m path) <-> known m path.
Proof.
  unfold known, to_fib_path. destruct (iface_LookupByName _ _); cbn; [|split; by intros []].
  destruct (VppAbf.setFibPathNhAndProto _) as [[? ?] ?]. split; by eexists.
Qed.

Lemma sent_later path sent : same_numbers -> to_fib_path later path = Some sent -> to_fib_path ifIndexes path = Some sent.
Proof.
  intros Hs. unfold to_fib_path. destruct (iface_LookupByName later _) as [meta|] eqn:E; [|done].
  destruct (Hs _ _ E) as (meta' & -> & Hi). cbn. by rewrite Hi.
Qed.

(** C22: Delete names the paths that it removes, and names those only whose interfaces it
    knows.  So if VPP accepts the request of a Delete for a policy that Create has
    added, all of it is removed exactly if every path that was sent is sent again,
    that is if no interface of a path has been forgotten in between.  Otherwise the
    same answer leaves the policy in VPP with the remaining paths, and Delete reports
    no error for it.  Other policies are not touched.  It is assumed that the paths
    that were sent go to different places, that interfaces known later have kept
    their numbers, and that the policy was not changed in between. *)
Theorem abf_delete_removes (key key' : string) (abf : ABF) (md : option ABFMetadata) (w w1 w2 w3 : World) :
  abf_Create (NewABFVppHandler aclIndex ifIndexes) aclIndex key abf w = ((md, None), w1) ->
  st_policies (abf_state w) !! abf_Index abf = None ->
  NoDup (map hop (toFibPaths ifIndexes (abf_ForwardingPaths abf))) -> same_numbers ->
  st_policies (abf_state w2) !! abf_Index abf = st_policies (abf_state w1) !! abf_Index abf ->
  abf_Delete (NewABFVppHandler aclIndex later) key' abf md w2 = (None, w3) ->
  (st_policies (abf_state w3) !! abf_Index abf = None
   <-> forall path, path ∈ abf_ForwardingPaths abf -> known ifIndexes path -> known later path)
  /\ forall id, id <> abf_Index abf -> st_policies (abf_state w3) !! id = st_policies (abf_state w2) !! id.
Proof.
  intros Hc Hfree Hhops Hnum Hsame Hd.
  apply abf_create_done in Hc as (acl & n & _ & -> & Hstep).
  destruct (added_policy _ _ _ _ _ _ Hstep Hfree) as (kept & Hadded & _ & Hpol). rewrite Hpol, lookup_insert_eq in Hsame.
  unfold abf_Delete in Hd. cbn [DeleteAbfPolicy NewABFVppHandler abm_Index] in Hd.
  apply with_message_done, vpp_abf_request in Hd. destruct (deleted_policy _ _ _ _ _ _ _ _ Hd Hsame) as (rest & Hrest & ->).
  destruct (Hadded Hhops) as (l & Hl & Hkept).
  split; [|intros id Hid; destruct (decide _); [by apply lookup_delete_ne|by apply lookup_insert_ne]].
  transitivity (rest = []).
  { destruct (decide (rest = [])) as [E|E]; [by rewrite lookup_delete_eq|]. rewrite lookup_insert_eq. by split. }
  split.
  - intros -> p Hp [s Hs]%sent_known. apply sent_known.
    assert (s ∈ l) as (i & Hi)%list_elem_of_lookup by (rewrite Hl; apply list_elem_of_omap; by exists p).
    destruct (Forall2_lookup_l _ _ _ _ _ Hkept Hi) as (k & Hki & Hsk & _). apply list_elem_of_lookup_2 in Hki.
    destruct (decide (hop k ∈ map hop (toFibPaths later (abf_ForwardingPaths abf)))) as [Hin|Hin].
    + apply list_elem_of_fmap in Hin as (s' & Hh & (q & Hq & Hs')%list_elem_of_omap).
      assert (p = q) as ->; [|by eexists]. eapply (omap_inj (to_fib_path ifIndexes) hop); [exact Hhops|done|done|done|by apply sent_later|].
      congruence.
    + exfalso. assert (k ∈ []) as []%elem_of_nil. by apply Hrest.
  - intros H. apply elem_of_nil_inv. intros k [Hki Hnot]%Hrest. apply Hnot.
    apply list_elem_of_lookup in Hki as (i & Hi). destruct (Forall2_lookup_r _ _ _ _ _ Hkept Hi) as (s & Hs & Hsk & _).
    apply list_elem_of_lookup_2 in Hs. rewrite Hl in Hs. apply list_elem_of_omap in Hs as (p & Hp & Hs).
    destruct (proj2 (sent_known later p)) as [s' Hs']; [apply H; [done|]; apply sent_known; by eexists|].
    apply list_elem_of_fmap. exists s'. split; [|apply list_elem_of_omap; by exists p].
    pose proof (sent_later _ _ Hnum Hs'). congruence.
Qed.
End removal.

(** ** Attachments of an interface *)

Section bindings.
Context {X : Ext} {IX : Indexes} {AX : AclIndexes} {BX : AbfIndexes} {AT : AbfTypes} {CH : AbfChannel} {DV : DvrAddress} {LA : AbfLaws}.
Context (abfIndex aclIndex ifIndexes : Mapping).

Abbreviation handler := (NewABFVppHandler aclIndex ifIndexes).

(** C32: The derived values of a policy reach VPP under the right number: the key of a
    policy has its number as the label, under which the index knows it; for each
    attached interface the derived key is not that of a policy, only the descriptor
    of attachments selects it, and it waits for that interface; creating its value
    attaches that interface to the policy and deleting it detaches it, both with the
    family and the priority of the last entry that names the interface, and nothing
    else in VPP changes.  An interface that a policy names for both families is
    attached for the later one only: both entries derive the same key. *)
Theorem abf_attachments (key : string) (abf : ABF) (iface : string) (md : ABFMetadata) (meta : IfaceMetadata) :
  iface <> "" -> iface ∈ map abfi_InputInterface (abf_AttachedInterfaces abf) ->
  md = MkABFMetadata (abf_Index abf) (abf_AttachedInterfaces abf) ->
  abf_LookupByName abfIndex (StripKeyPrefix ModelABF (abf_Key (abf_Index abf))) = (Some md, true) ->
  iface_LookupByName ifIndexes iface = Some meta ->
  exists a, deciding iface (abf_AttachedInterfaces abf) = Some a
  /\ let attachment := MkItfAttach (abf_Index abf) (SwIfIndex meta) (abfi_Priority a) (abfi_IsIpv6 a) in
     let derived := MkKeyValuePair (abf_ToInterfaceKey (abf_Index abf) iface) (Some abf_Empty) in
     derived ∈ abf_DerivedValues key abf
  /\ td_KeySelector (ABFDescriptor handler aclIndex) (abf_Key (abf_Index abf)) = true
  /\ td_KeySelector (ABFDescriptor handler aclIndex) (kvp_Key derived) = false
  /\ d_KeySelector (ABFToInterfaceDescriptor abfIndex ifIndexes handler) (abf_Key (abf_Index abf)) = false
  /\ d_KeySelector (ABFToInterfaceDescriptor abfIndex ifIndexes handler) (kvp_Key derived) = true
  /\ abfi_Dependencies (kvp_Key derived) (kvp_Value derived) = [simple_dep interfaceDep (InterfaceKey iface)]
  /\ (forall m w w', abfi_Create abfIndex ifIndexes handler (kvp_Key derived) (kvp_Value derived) w = ((m, None), w') ->
        st_policies (abf_state w') = st_policies (abf_state w) /\ st_attached (abf_state w') ≡ₚ attachment :: st_attached (abf_state w))
  /\ (forall m w w', abfi_Delete abfIndex ifIndexes handler (kvp_Key derived) (kvp_Value derived) m w = (None, w') ->
        st_policies (abf_state w') = st_policies (abf_state w)
        /\ st_attached (abf_state w') ≡ₚ filter (fun b => same_attachment attachment b = false) (st_attached (abf_state w))).
Proof.
  intros Hne Hin -> Hmd Hif. rewrite (proj1 (proj2 (abf_key_label (abf_Index abf)))) in Hmd.
  apply list_elem_of_fmap in Hin as (a0 & -> & Ha0).
  assert (exists a, deciding (abfi_InputInterface a0) (abf_AttachedInterfaces abf) = Some a) as (a & Hlast).
  { destruct (deciding (abfi_InputInterface a0) _) as [a|] eqn:E; [by exists a|]. apply last_None in E.
    assert (a0 ∈ []) as []%elem_of_nil. rewrite <- E. apply list_elem_of_filter. split; [reflexivity|exact Ha0]. }
  destruct (deciding_name _ _ _ Hlast) as [_ Hname]. exists a. split; [done|]. cbv zeta.
  cbn [kvp_Key kvp_Value td_KeySelector ABFDescriptor d_KeySelector ABFToInterfaceDescriptor].
  unfold IsABFInterfaceKey at 2, abfi_Dependencies. rewrite abf_key_parsed by done. rewrite <- Hname in *.
  assert (forall s, sent_attachment ifIndexes (abf_Index abf) a = Some s ->
    s = MkItfAttach (abf_Index abf) (SwIfIndex meta) (abfi_Priority a) (abfi_IsIpv6 a)) as Hsent.
  { unfold sent_attachment. rewrite Hif. by intros s [= <-]. }
  split_and!; [|exact (proj1 (abf_key_label _))|by apply abf_key_not_model|exact (proj2 (proj2 (abf_key_label _)))|reflexivity|reflexivity| |].
  - unfold abf_DerivedValues. apply list_elem_of_fmap. exists a0. by rewrite Hname.
  - intros m w w' H. apply (create_attachment abfIndex aclIndex ifIndexes _ a _ _ _ _ _ Hmd) in H as (s & ->%Hsent & H); [|done..].
    by apply attachment_step in H.
  - intros m w w' H. apply (delete_attachment abfIndex aclIndex ifIndexes _ a _ _ _ _ _ Hmd) in H as (s & ->%Hsent & H); [|done..].
    by apply attachment_step in H.
Qed.
End bindings.

(** ** Targets *)

Section targets.
Context {X : Ext} {AT : AbfTypes}.

(** The targets that the scheduler gives a policy, and the paths with an interface. *)
Definition abf_targets (key : string) (abf : ABF) : list RelationTargetDef :=
  constructTargets (abf_Dependencies key abf) (abf_DerivedValues key abf).
Definition with_interface (paths : list ABF_ForwardingPath) : list ABF_ForwardingPath :=
  filter (fun p => abfp_InterfaceName p <> "") paths.

(** The name of an interface as it is in a key. *)
Definition key_name (name : string) : string := if is_empty name then InvalidKeyPart else name.

Lemma ToInterfaceKey_name id name : abf_ToInterfaceKey id name = "vpp/abf/" +:+ Itoa id +:+ "/interface/" +:+ key_name name.
Proof.
  unfold key_name, is_empty. destruct (String.eqb_spec name "") as [->|Hn]; [|by apply abf_ToInterfaceKey_eq].
  change (abf_ToInterfaceKey id "") with (abf_ToInterfaceKey id InvalidKeyPart). by apply abf_ToInterfaceKey_eq.
Qed.

Lemma string_app_inj a b c : a +:+ b = a +:+ c -> b = c.
Proof. induction a as [|x a IH]; [done|]. cbn. intros [= H]. by apply IH. Qed.

Lemma target_keys key abf : map dkey (abf_targets key abf)
  = replicate (length (with_interface (abf_ForwardingPaths abf))) (DependencyRelation, interfaceDep)
    ++ (DependencyRelation, aclDep)
    :: map (fun a => (DerivesRelation, "vpp/abf/" +:+ Itoa (abf_Index abf) +:+ "/interface/" +:+ key_name (abfi_InputInterface a)))
         (abf_AttachedInterfaces abf).
Proof.
  unfold abf_targets, constructTargets, abf_Dependencies, abf_DerivedValues. rewrite !map_app, !map_map, <- app_assoc. f_equal.
  - unfold with_interface. induction (abf_ForwardingPaths abf) as [|p l IH]; [done|]. rewrite filter_cons. cbn [omap list_omap].
    unfold is_empty at 1. destruct (String.eqb_spec (abfp_InterfaceName p) "") as [E|E].
    + rewrite decide_False by auto. exact IH.
    + rewrite decide_True by done. cbn [map length replicate]. by f_equal.
  - cbn [map app]. f_equal. apply map_ext. intros a. unfold dkey, derived_target. cbn [rtd_Relation rtd_Label kvp_Key]. by rewrite ToInterfaceKey_name.
Qed.

Lemma NoDup_replicate_le {A} n (x : A) : NoDup (replicate n x) <-> n <= 1.
Proof.
  destruct n as [|[|n]]; [split; [lia|constructor]|split; [lia|by intros; apply NoDup_singleton]|].
  split; [|lia]. cbn. intros [H _]%NoDup_cons. destruct H. left.
Qed.

(** C21: The graph of the scheduler tells the targets of a value apart by relation and
    label, and what it promises presumes that these are distinct.  The targets of a
    policy are so exactly if at most one of its forwarding paths names an interface
    and its attached interfaces have different names: all paths give their dependency
    the same label, and the label of an attachment is its key, which does not tell
    the families apart. *)
Theorem abf_targets_distinct (key : string) (abf : ABF) :
  NoDup (dkey <$> abf_targets key abf)
  <-> length (with_interface (abf_ForwardingPaths abf)) <= 1
      /\ NoDup (map (fun a => key_name (abfi_InputInterface a)) (abf_AttachedInterfaces abf)).
Proof.
  change (dkey <$> abf_targets key abf) with (map dkey (abf_targets key abf)). rewrite target_keys.
  rewrite NoDup_app, NoDup_cons, NoDup_replicate_le.
  set (f := fun a : ABF_AttachedInterface => (DerivesRelation, _)).
  assert (forall l : list ABF_AttachedInterface, NoDup (map f l) <-> NoDup (map (fun a => key_name (abfi_InputInterface a)) l)) as Hf.
  { intros l. set (g := fun n => (DerivesRelation, "vpp/abf/" +:+ Itoa (abf_Index abf) +:+ "/interface/" +:+ n)).
    assert (Inj (=) (=) g) as Hg.
    { intros n n' H. injection H as H. by repeat apply string_app_inj in H. }
    change (map f l) with (map (fun a => g (key_name (abfi_InputInterface a))) l). rewrite <- (map_map _ g).
    apply (NoDup_fmap g). }
  rewrite Hf. split; [intros (H1 & _ & _ & H2); done|]. intros [H1 H2]. split_and!; [done| | |done].
  - intros x [-> _]%elem_of_replicate. rewrite not_elem_of_cons. split; [done|]. intros (a & [=] & _)%list_elem_of_fmap.
  - intros (a & [=] & _)%list_elem_of_fmap.
Qed.
End targets.

(** ** A VPP with policies *)

(** Messages and indexes as they are; the metadata of interfaces, access lists and
    policies. *)
Inductive AbfValue := AbfMsg (a : ABF) | AttachedMsg.
Inductive AbfMeta := AbfIfMeta (m : IfaceMetadata) | AbfAclMeta (m : option ACLMetadata) | PolicyMeta (m : option ABFMetadata).

#[export] Instance AbfValue_eq : EqDecision AbfValue.
Proof. solve_decision. Defined.

Definition AbfIndex : Type := gmap string AbfMeta.

Definition abf_ext : Ext := {|
  Value := AbfValue;
  proto_Equal := fun a b => bool_decide (a = b);
  proto_MessageName := fun v => match v with AbfMsg _ => "ligato.vpp.abf.ABF" | AttachedMsg => "google.protobuf.Empty" end;
  fmt_v := fun _ => "";
  Metadata := AbfMeta;
  DeepEqual := fun _ _ => false;
  Mapping := AbfIndex;
  nm_New := ∅;
  nm_Put := fun m k v => <[k := v]> m;
  nm_Delete := fun m k => delete k m;
  nm_Update := fun m k v => match v with Some v => <[k := v]> m | None => m end;
  nm_GetValue := fun m k => m !! k;
  nm_ListFields := fun m k => [];
  World := AbfState;
  netns_escaped := fun _ => false;
  clock_reading := fun n => Z.of_nat n;
  ext_runtime := doubling
|}.

#[local] Existing Instance abf_ext.

Definition abf_meta_index (m : AbfMeta) : option Z :=
  match m with AbfIfMeta i => Some (SwIfIndex i) | AbfAclMeta (Some a) => Some (am_Index a) | PolicyMeta (Some p) => Some (abm_Index p) | _ => None end.

#[export] Instance abf_demo_indexes : Indexes := {|
  NewNamedMapping := fun _ => ∅ : AbfIndex;
  nm_ListNames := fun (m : AbfIndex) f v => (filter (fun e => Itoa <$> abf_meta_index e.2 = Some v) (map_to_list m)).*1;
  as_WithIndex := abf_meta_index;
  as_IfaceMetadata := fun m : AbfMeta => match m with AbfIfMeta i => Some i | _ => None end
|}.

#[export] Instance abf_demo_acls : AclIndexes := {|
  as_ACLMetadata := fun m : @Metadata abf_ext => match m with AbfAclMeta a => Some a | _ => None end;
  of_ACLMetadata := AbfAclMeta : _ -> @Metadata abf_ext
|}.

#[export] Instance abf_demo_policies : AbfIndexes := {|
  as_ABFMetadata := fun m : @Metadata abf_ext => match m with PolicyMeta a => Some a | _ => None end;
  of_ABFMetadata := PolicyMeta : _ -> @Metadata abf_ext
|}.

#[export] Instance abf_demo_types : AbfTypes := {|
  abf_ABF := {| as_value := fun v : @Value abf_ext => match v with AbfMsg a => Some a | _ => None end; of_value := AbfMsg |};
  abf_Empty := AttachedMsg : @Value abf_ext
|}.

Definition abf_error : option (@error abf_ext) := Some (Opaque "VPPApiError").

(** This VPP reports the zero address for a path with DVR. *)
#[export] Instance abf_demo_dvr : DvrAddress.
Proof.
  refine {| vpp_dvr_address := fun _ => replicate 16 0%Z |}.
  - intros _. split; [done|]. apply Forall_replicate. unfold is_byte. lia.
  - by vm_compute.
Defined.

Definition stored_path (p : FibPath) : FibPath :=
  MkFibPath (fp_SwIfIndex p) (fp_TableID p) (fp_RpfID p) (if (fp_Weight p =? 0)%Z then 1%Z else fp_Weight p) (fp_Preference p)
    (fp_Type p) (fp_Flags p) (fp_Proto p)
    (if is_dvr p then MkFibPathNh (replicate 16 0%Z) 0 0 0 else fp_Nh p) (fp_LabelStack p).

Definition remaining (sent old : list FibPath) : list FibPath := filter (fun p => hop p ∉ map hop sent) old.

Definition abf_request (req : AbfRequest) (st : AbfState) : option (@error abf_ext) * AbfState :=
  match req with
  | AbfPolicyAddDel true (MkAbfPolicy id acl n sent) =>
      match st_policies st !! id with
      | None => (None, set_policies <[id := (acl, map stored_path sent)]> st)
      | Some (acl', old) =>
          if (acl =? acl')%Z then (None, set_policies <[id := (acl, remaining sent old ++ map stored_path sent)]> st) else (abf_error, st)
      end
  | AbfPolicyAddDel false (MkAbfPolicy id _ n sent) =>
      match st_policies st !! id with
      | None => (abf_error, st)
      | Some (acl, old) =>
          let rest := remaining sent old in
          (None, set_policies (if decide (rest = []) then delete id else <[id := (acl, rest)]>) st)
      end
  | AbfItfAttachAddDel true a =>
      if forallb (fun b => negb (same_attachment a b)) (st_attached st) then (None, set_attached (a :: st_attached st) st) else (abf_error, st)
  | AbfItfAttachAddDel false a => (None, set_attached (filter (fun b => same_attachment a b = false) (st_attached st)) st)
  end.

#[export] Instance abf_channel : AbfChannel (X := abf_ext) := {|
  abf_SendRequest := abf_request;
  AbfPluginGetVersion := fun _ => inl (1, 0)%Z;
  AbfItfAttachDump := fun st : @World abf_ext => (st_attached st, None);
  AbfPolicyDump := fun st : @World abf_ext =>
    (map (fun e => MkAbfPolicy e.1 e.2.1 (Z.of_nat (length e.2.2)) e.2.2) (map_to_list (st_policies st)), None)
|}.

Lemma abf_request_step req st st' : abf_request req st = (None, st') -> abf_step req st st'.
Proof.
  destruct req as [[] a|[] [id acl n sent]]; cbn [abf_request].
  - destruct (forallb _ _) eqn:E; [|done]. intros [= <-]. apply step_attach; [done|].
    apply Forall_forall. intros b Hb%list_elem_of_In. rewrite forallb_forall in E. by apply negb_true_iff, E.
  - intros [= <-]. by apply step_detach.
  - destruct (st_policies st !! id) as [[acl' old]|] eqn:E.
    + destruct (Z.eqb_spec acl acl') as [->|]; [|done]. intros [= <-]. by eapply step_policy_extend.
    + intros [= <-]. apply step_policy_add; [done|]. intros _. exists sent. split; [done|].
      clear. induction sent as [|p l IH]; [constructor|]. cbn [map]. constructor; [|done].
      unfold path_kept, hop. change (is_dvr (stored_path p)) with (is_dvr p). cbn. by destruct (is_dvr p).
  - destruct (st_policies st !! id) as [[acl' old]|] eqn:E; [|done]. intros [= <-]. eapply step_policy_del; [done|].
    intros p. unfold remaining. rewrite list_elem_of_filter. tauto.
Qed.

#[export] Instance abf_demo_laws : AbfLaws (X := abf_ext).
Proof.
  refine {| abf_state := fun w : @World abf_ext => w : AbfState |}.
  - exact abf_request_step.
  - cbn. by intros w l [= <-].
  - cbn. intros w l [= <-] id acl paths. split.
    + intros (n & ([k [a p]] & [= -> -> _ ->] & H)%list_elem_of_fmap). by apply elem_of_map_to_list in H.
    + intros H. eexists. apply list_elem_of_fmap. exists (id, (acl, paths)). split; [done|]. by apply elem_of_map_to_list.
Defined.

(** ** Examples *)

Definition abf_interfaces : @Mapping abf_ext :=
  {[ "memif/1" := AbfIfMeta (MkIfaceMetadata 7 0 [] "" "" ""); "loop0" := AbfIfMeta (MkIfaceMetadata 3 0 [] "" "" "") ]} : AbfIndex.
Definition one_interface : @Mapping abf_ext := {[ "memif/1" := AbfIfMeta (MkIfaceMetadata 7 0 [] "" "" "") ]} : AbfIndex.
Definition demo_acl : ACLMetadata := MkACLMetadata 2 false.
Definition abf_acls : @Mapping abf_ext := {[ "acl1" := AbfAclMeta (Some demo_acl) ]} : AbfIndex.
Definition no_policies : @World abf_ext := MkAbfState ∅ [].

Definition two_paths (weight : Z) : ABF := MkABF 9 "acl1" [MkAttached "memif/1" 5 false; MkAttached "loop0" 6 true]
  [MkForwardingPath "10.0.0.1" "memif/1" weight 0 false; MkForwardingPath "::" "loop0" 1 2 true].
Definition two_metadata : ABFMetadata := MkABFMetadata 9 (abf_AttachedInterfaces (two_paths 1)).
Definition abf_names : @Mapping abf_ext := {[ "9" := PolicyMeta (Some two_metadata) ]} : AbfIndex.
Definition demo_abf : ABFVppAPI := NewABFVppHandler abf_acls abf_interfaces.
Definition with_policy (weight : Z) : @World abf_ext := (abf_Create demo_abf abf_acls "" (two_paths weight) no_policies).2.
Definition attached (weight : Z) : @World abf_ext :=
  (create_attachments abf_names abf_acls abf_interfaces "" (two_paths weight) (with_policy weight)).2.

Lemma demo_names_back : names_back abf_interfaces.
Proof.
  intros name meta. unfold iface_LookupByName. cbn [nm_GetValue abf_ext]. unfold abf_interfaces.
  intros (m & H & Hm)%bind_Some. apply lookup_insert_Some in H as [[<- <-]|[_ H]].
  - injection Hm as <-. reflexivity.
  - apply lookup_singleton_Some in H as [<- <-]. injection Hm as <-. reflexivity.
Qed.

Lemma demo_hops weight : NoDup (map hop (toFibPaths abf_interfaces (abf_ForwardingPaths (two_paths weight)))).
Proof. apply (bool_decide_unpack _). vm_compute. exact I. Qed.

Lemma demo_attached_names weight : NoDup (map abfi_InputInterface (abf_AttachedInterfaces (two_paths weight))).
Proof. apply (bool_decide_unpack _). vm_compute. exact I. Qed.

(** A weight beyond 255 does not come back. *)
Example abf_create_retrieve_witness :
  exists good bad md1 md2 (kvs1 kvs2 : list (TypedKVWithMetadata ABF (option ABFMetadata))),
    MkTypedKV (abf_Key 9) good md1 FromNB ∈ kvs1 /\ EquivalentABFs "" good (two_paths 3) = true
    /\ MkTypedKV (abf_Key 9) bad md2 FromNB ∈ kvs2 /\ EquivalentABFs "" bad (two_paths 259) = false.
Proof.
  assert (forall weight, exists kvs, abf_Retrieve demo_abf [] (attached weight) = ((kvs, None), attached weight)) as R
    by (intros weight; eexists; reflexivity).
  destruct (R 3%Z) as [kvs1 R1]. destruct (R 259%Z) as [kvs2 R2].
  assert (Forall (fun a => abfi_InputInterface a <> "") (abf_AttachedInterfaces (two_paths 3))) as Hne by by repeat constructor.
  assert (Forall (fun a => aa_PolicyID a <> 9%Z) (st_attached no_policies)) as Hnone by constructor.
  pose proof (fun weight => abf_create_retrieve abf_names abf_acls abf_interfaces "" (two_paths weight) (Some two_metadata) demo_acl no_policies
    (with_policy weight) (attached weight) (attached weight) []) as T.
  destruct (T 3%Z kvs1 eq_refl eq_refl eq_refl R1 eq_refl Hnone eq_refl eq_refl demo_names_back Hne (demo_attached_names 3)
    (demo_hops 3)) as (good & md1 & H1 & _ & _ & E1).
  destruct (T 259%Z kvs2 eq_refl eq_refl eq_refl R2 eq_refl Hnone eq_refl eq_refl demo_names_back Hne (demo_attached_names 259)
    (demo_hops 259)) as (bad & md2 & H2 & _ & _ & E2).
  exists good, bad, md1, md2, kvs1, kvs2. split; [exact H1|]. split; [rewrite E1; vm_compute; reflexivity|].
  split; [exact H2|]. rewrite E2. vm_compute. reflexivity.
Defined.

Definition after_delete (later : @Mapping abf_ext) : @World abf_ext :=
  (abf_Delete (NewABFVppHandler abf_acls later) "" (two_paths 3) (Some two_metadata) (with_policy 3)).2.

(** With the index as it was, and with an interface forgotten. *)
Example abf_delete_removes_witness :
  st_policies (after_delete abf_interfaces) !! 9%Z = None /\ st_policies (after_delete one_interface) !! 9%Z <> None.
Proof.
  assert (same_numbers abf_interfaces abf_interfaces) as S1 by (intros name meta H; exists meta; by split).
  assert (same_numbers abf_interfaces one_interface) as S2.
  { intros name meta. unfold iface_LookupByName at 1. cbn [nm_GetValue abf_ext]. unfold one_interface.
    intros (m & H & Hm)%bind_Some. apply lookup_singleton_Some in H as [<- <-]. injection Hm as <-. eexists. by split. }
  pose proof (abf_delete_removes abf_acls abf_interfaces abf_interfaces "" "" (two_paths 3) (Some two_metadata) no_policies
    (with_policy 3) (with_policy 3) (after_delete abf_interfaces) eq_refl eq_refl (demo_hops 3) S1 eq_refl eq_refl) as [H1 _].
  pose proof (abf_delete_removes abf_acls abf_interfaces one_interface "" "" (two_paths 3) (Some two_metadata) no_policies
    (with_policy 3) (with_policy 3) (after_delete one_interface) eq_refl eq_refl (demo_hops 3) S2 eq_refl eq_refl) as [H2 _].
  split; [apply H1; by intros|]. intros H. pose proof (proj1 H2 H (MkForwardingPath "::" "loop0" 1 2 true)) as [m Hm].
  - right. left.
  - eexists. reflexivity.
  - vm_compute in Hm. discriminate.
Defined.

(** An interface named for both families is attached for the later one. *)
Definition both_families : ABF := MkABF 9 "acl1" [MkAttached "memif/1" 5 false; MkAttached "memif/1" 6 true] [].
Definition abf_both : @Mapping abf_ext := {[ "9" := PolicyMeta (Some (MkABFMetadata 9 (abf_AttachedInterfaces both_families))) ]} : AbfIndex.
Definition attached_both : @World abf_ext :=
  (abfi_Create abf_both abf_interfaces demo_abf "vpp/abf/9/interface/memif/1" (Some AttachedMsg) no_policies).2.

Example abf_attachments_witness :
  MkKeyValuePair "vpp/abf/9/interface/memif/1" (Some (AttachedMsg : @Value abf_ext)) ∈ abf_DerivedValues "" both_families
  /\ st_attached attached_both ≡ₚ [MkItfAttach 9 7 6 true].
Proof.
  destruct (abf_attachments abf_both abf_acls abf_interfaces "" both_families "memif/1"
    (MkABFMetadata 9 (abf_AttachedInterfaces both_families)) (MkIfaceMetadata 7 0 [] "" "" ""))
    as (a & Ha & H1 & _ & _ & _ & _ & _ & H5 & _); try reflexivity; [discriminate|left|].
  injection Ha as <-. split; [exact H1|]. exact (proj2 (H5 None no_policies attached_both eq_refl)).
Defined.

Definition policy_ops : list graph_op :=
  [OpSetNode (abf_Key 9); OpSetTargets (abf_Key 9) (abf_targets "" (two_paths 1))].
Definition interface_ops : list graph_op :=
  [OpSetNode (acl_Key "acl1"); OpSetNode (InterfaceKey "memif/1"); OpSetNode (InterfaceKey "loop0")].

#[local] Existing Instance Prelude.elements_order.

(** The keys that match the dependencies of the policy, and whether it is ready. *)
Definition policy_after (ops : list graph_op) : option (list (string * list string) * outcome bool) :=
  match forM ops run_op newGraphR with
  | Ok (_, g) =>
      (fun n => (map (fun t => (tg_Label t, ks_Iterate (tg_MatchingKeys t))) (relation_targets (n_targets n) DependencyRelation),
                 isNodeReady g n)) <$> lookup_node g (abf_Key 9)
  | _ => None
  end.

(** A policy with paths over two interfaces waits for both of them only if they are
    there before it: otherwise both appear, one after the other, as the target of the
    first definition, and the policy is never ready.  If they were there and the
    second one is removed, the node of the policy keeps its key, and the next check
    of the policy follows a nil pointer. *)
Example two_paths_targets :
  let acl := (aclDep, [acl_Key "acl1"]) in
  policy_after (policy_ops ++ interface_ops)
    = Some ([acl; (interfaceDep, [InterfaceKey "loop0"]); (interfaceDep, [])], Ok false)
  /\ policy_after (interface_ops ++ policy_ops)
    = Some ([acl; (interfaceDep, [InterfaceKey "memif/1"]); (interfaceDep, [InterfaceKey "loop0"])], Ok true)
  /\ policy_after (interface_ops ++ policy_ops ++ [OpDeleteNode true (InterfaceKey "loop0")])
    = Some ([acl; (interfaceDep, [InterfaceKey "memif/1"]); (interfaceDep, [InterfaceKey "loop0"])], Panic "nil pointer dereference").
Proof. split_and!; vm_compute; reflexivity. Qed.
